(* ===== verification/_CoqProject ===== *)
-Q . S2P
Prelude.v
PyStr.v
State.v
Policy.v
Json.v
Shell.v
Context.v
JsonText.v
JsonParse.v
Regex.v
Catalog.v
Effects.v
AnalyzerBase.v
AnalyzersLocal.v
AnalyzersCloud.v
Analyzers.v
Semantics.v
Risk.v
RiskFacts.v
Shipped.v
ShippedFacts.v
Temporal.v
TemporalFacts.v
Review.v
ReviewFacts.v
ShippedReview.v
Execution.v
Provenance.v
ActionModel.v
RequestReaders.v
Commitment.v
GraphQL.v
Requests.v
ActionProvenance.v
ToolCalls.v
Action.v
ActionPolicy.v
McpContracts.v
Adapters.v
GraphQLFacts.v
ActionPolicyFacts.v
ActionPolicyJson.v
ActionFacts.v
ActionShell.v
ActionGate.v
McpFacts.v
ShippedAction.v
JsonSchema.v
RuntimeContract.v
RuntimeDerive.v
RuntimeBoundary.v
RuntimeFacts.v
RuntimeDeriveFacts.v
RuntimeRoundTrip.v
ShippedRuntime.v
Approval.v
ApprovalFacts.v
ApprovalSafety.v
ApprovalAuthority.v
ShippedApproval.v
Session.v
SessionFacts.v
SessionSnapshot.v
SessionSafety.v
SessionStore.v
ShippedSession.v
RuntimeObservation.v
RuntimeObservationFacts.v
EnforcementBackend.v
CapabilityDelta.v
RuntimeRequirements.v
RuntimeReview.v
RuntimeReviewFacts.v
ShippedDelta.v
SwarmModels.v
Registry.v
RegistryFacts.v
Budget.v
BudgetFacts.v
BudgetSafety.v
