(* ===== verification/Prelude.v ===== *)
(** * Ordin: a verification library for the review core

    Ordin reviews what an agent is about to do before it does it.  A command
    text goes through the tokeniser, the analyzers, the risk review, the
    combined review with its trajectory and intent, and the gate, which executes,
    escalates or denies.  This library is a shallow embedding of that path, and
    of the policies that govern it, with theorems about it.

    ** Conventions

    A function that may raise is in the outcome monad [res] (below); the error
    keeps the exception class and the message where the code builds one from
    its arguments, and a fixed text where nothing depends on it.  A Python [str]
    is a [string], so a sequence of the code points below 256; [PyStr] has the
    [str] methods.  A JSON value is a [json] (objects are ordered association
    lists).  Frozen dataclasses are records, with [mk_C] or [C_post_init] for
    the checks of [__post_init__], [C_from_dict] and [C_as_dict] for the JSON
    form.  Files of the repository are read into a [Store]: the loaders are
    functions of what was read.

    ** Files

    - [Prelude], [PyStr], [Regex]: the outcome monad, automation, lists; Python
      text; the regular expressions of [re] that the risk rules use.
    - [Policy] ([policy.py]): decisions, the two orders, [ReviewPolicy].
    - [Json] ([_json_contracts.py]), [Context] ([context.py], [trace.py]): the
      execution context with path resolution and repository containment, traces
      and review requests with their JSON forms.
    - [Shell] ([shell.py]): newline normalisation, [shlex] as configured,
      segments, wrappers, nested scripts, command substitutions.
    - [Catalog] ([data.py], [packs.py]), [Effects] ([graph.py], the evidence
      part): which commands, rules and effects are loaded, and the typed effects
      of a tokenised command.
    - [AnalyzerBase], [AnalyzersLocal], [AnalyzersCloud], [Analyzers]
      ([analyzers/]): one module per analyzer file, and the registry.
    - [Semantics] ([semantics.py]), [Risk] ([risk.py]): evidence of a command;
      [check_command] with rules, context policy, redirections, nested scripts,
      classification, pipes, merging and the bounded recursion.
    - [Temporal] ([temporal.py]): temporal rules, their JSON form and the state
      machines that evaluate them over a history.
    - [Review] ([trajectory.py], [review.py], [api.py], [agent.py]): the
      combined review of a command and the gate.
    - [SwarmModels] ([swarm/models.py], [swarm/identity.py]), [Registry]
      ([swarm/registry.py]): identities and contexts of agents and the registry
      that enrolls, authenticates and revokes them, as a state machine.
    - [Budget] ([swarm/budgets.py], the transactions of
      [swarm/budget_store.py]): budget policies and the ledger of reservations
      over its transactional rows.
    - [RegistryFacts], [BudgetFacts], [BudgetSafety]: the theorems about both.
    - [RiskFacts], [TemporalFacts], [ReviewFacts]: the theorems about [Risk],
      [Temporal] and [Review].
    - [JsonText], [JsonParse]: the text [json.dumps] writes, with its layouts,
      and when it determines the value; the reader [json.loads] with the hook
      that refuses duplicate members, which reads back what was written.
    - [State]: operations that change an object and may raise, with rules for
      what they change and what holds when they raise.
    - [Execution] ([execution.py]), [Provenance] ([provenance.py]),
      [ActionModel] (the data of [action.py]): profiles and observations,
      records, envelopes, histories and reviews of tool actions.
    - [RequestReaders]: the class of what action reviews ask of protocol
      requests.  [Commitment] ([_request_commitment.py]), [GraphQL]
      ([runtime_requests.py], [_graphql_authority.py]) and [Requests]
      ([_rest_semantics.py], [_runtime_url.py], [runtime_requests.py]) implement
      it: [Requests.ordin_readers].
    - [ActionProvenance], [ToolCalls] ([tool_calls.py]), [Action] ([action.py]),
      [Adapters] ([adapters.py]): the review of a tool action, its temporal
      evidence and the cache of predictions.
    - [ActionPolicy] ([action_policy.py]), [McpContracts] ([mcp_contracts.py]),
      [ActionGate] ([api.py], [agent.py]): the policies over actions, the pins of
      tool contracts with the observer of a discovery, and the gate on actions.
    - [GraphQLFacts], [ActionPolicyFacts], [ActionPolicyJson], [ActionFacts],
      [ActionShell], [McpFacts]: the theorems about them, those of [Commitment]
      and [ActionGate] being in these files; [ShippedAction]: concrete actions.
    - [JsonSchema] ([schema.py], [_runtime_schemas.py] and, for bounded JSON,
      [_runtime_json.py]), [RuntimeContract], [RuntimeDerive]
      ([runtime_contract.py]), [RuntimeBoundary] ([runtime_boundary.py]): the
      validator and the schemas; bounded JSON; the capabilities of a contract,
      their derivation from a review, and the check against a boundary.
      [RuntimeFacts], [RuntimeDeriveFacts], [RuntimeRoundTrip] prove their
      theorems, [ShippedRuntime] evaluates them.
    - [Approval] ([approval.py]): the source of approvals; a method that asks the
      verifier of the host is two sections with the question between them, and
      calls interleave at these points ([happen], [happens]).  [ApprovalFacts]
      has its invariant, [ApprovalSafety] the theorems,
      [ShippedApproval] runs of it.
    - [Session] ([session.py]): a session at an integration's boundary and the
      store of sessions; [SessionGate] is the interface to a gate, which
      [host_gate] implements with [ActionGate].  [SessionFacts]: what is retained
      reads back; [SessionSnapshot]: the invariant, the schema of a snapshot and
      restoring; [SessionSafety]: every call keeps the invariant; [SessionStore]:
      transactions against a session in memory; [ShippedSession]: a session of
      three calls.
    - [ApprovalAuthority] (the class of that name in [approval.py]): the
      enrolment of the sources of several workloads, objects in a store, under
      one operator.
    - [RuntimeObservation] ([runtime_observation.py]): reports of what the
      runtime did, the sources of the host that give them authority, histories,
      their correlation with reviewed actions, and signals.
      [EnforcementBackend] ([enforcement_backend.py]): plans and results, and
      the class [Backend] of what compiles and validates a contract.
      [CapabilityDelta] ([capability_delta.py]): the proposal that follows a
      denial.  [RuntimeRequirements] ([runtime_requirements.py],
      [_runtime_host.py]): profiles of a host and their declaration on a review.
      [RuntimeReview] ([runtime_reasoning.py], and the parts of [action.py],
      [api.py], [agent.py] that take reports): the review of an action with the
      evidence of the runtime, and the gate on it.  [RuntimeObservationFacts] and
      [RuntimeReviewFacts] have theorems, [ShippedDelta] evaluates them on a
      download that the runtime denied, and retries.
    - [Shipped], [ShippedFacts], [ShippedReview]: the catalog and the temporal
      policy of [data/] as values, the theorems at them, and concrete reviews,
      among them the ones that show gaps of the code.

    ** What the theorems show

    The review always answers ([check_command_total]) and never loses a finding
    ([check_command_dominates], [review_segment_dominates], [evidence_floor],
    [shipped_rm_reviewed]): the verdict on a command is bounded below by the
    verdict on every segment, rule, item of evidence, nested script, pipe and
    substitution.  The combined review never weakens it
    ([review_command_dominates]) and the gate executes only what the policy
    allows ([gate_executes_allowed]).  Temporal rules match
    exactly the embedded sequences, as far as the machine keeps them
    ([evaluate_rule_search], [evaluate_rule_correct]), look back a bounded
    distance ([evaluate_policy_bounded]) and survive their JSON form
    ([policy_set_round_trip]); with the shipped policy an upload is denied after a
    secret was read, unless another one came between ([secret_upload_denied]).  The analyzers are total under a
    catalog that covers them ([analyze_tokens_total]), dispatch exactly on the
    registry, and the ones of [rm], [git push] and database queries have their
    evidence characterised.  The tokeniser terminates with the two quoting
    errors only, plain words round trip, segmentation and unwrapping are
    complete, substitutions are found; paths are normalised and containment is
    component-wise; review requests round trip.

    On tool actions the gate executes only what the host's policy allows and
    no contract check refuses ([action_gate_sound]); the review with a history
    is never weaker than the one of the action, of a matched rule or of the
    policy ([review_action_history]); on shell commands it agrees with the
    review of the command path ([shell_history_agrees]); reusing predictions
    changes nothing ([prediction_reuse_transparent]).  A policy decides as its
    strongest matching rule says ([condition_matches_iff],
    [policy_apply_merges]) and survives its JSON form
    ([action_policy_round_trip]).  The observer of a discovery refines an
    abstract one ([observer_refines]), and a contract is verified exactly when
    its pin is that of the discovered tool ([verified_iff_pinned]).  Commitments
    determine the request ([commitment_injective]), the readers of GraphQL
    documents report exactly the fields that can be selected
    ([scope_fields_exact], [authority_fields_exact]) and always return
    ([authority_reader_terminates]).

    A contract derived from a review stays within what the boundary permits
    when the check accepts it ([boundary_sound], [review_within_boundary]), an
    excess that is reported is one ([boundary_genuine]), and the contract is well
    formed and reads back ([derived_round_trip]).  An approval is used at most
    once however calls interleave ([used_once]), within the capacity of the
    source ([within_capacity]); a fence ends everything issued before it
    ([fence_final]); an execution that verifies was reserved, begun and affirmed
    ([execution_authorised]); and a current approval can be carried through
    ([carried_through]).  A denied action never gets evidence of execution
    ([denied_never_observed]), a snapshot restores its session
    ([snapshot_restores]), and separate processes that work through the store see
    one session in memory ([store_refines_session]).  Enrolling a source fences
    every source of the authority, all or nothing ([enroll_fences_all]).

    A report of the runtime that is more than an assertion has the scope of a
    source of the host ([trusted_evidence_scoped]); reports correlate exactly
    when they agree with the action, contract, session and sources
    ([correlate_exact]), survive their JSON form ([history_round_trip]) and
    signal what their trust allows ([signals_exact]).  A proposal after a denial
    only ever asks a human, for something that was predicted, denied under
    authority and within the boundary ([delta_proposal_justified]).  Declaring
    the requirements of a host takes nothing from a contract
    ([declare_only_adds]).  Reviewing with evidence never relaxes the gate and
    records every report ([runtime_gate_strengthens]), changes nothing without
    reports ([runtime_review_transparent]), and under the shipped policy a retry
    of what was denied twice is never simply allowed ([boundary_retry_reviewed]).

    The registry keeps its invariant ([registry_invariant]), authenticates
    exactly the live registered objects ([authenticate_exact]) and what it
    revokes stays revoked, descendants included ([revocation_final],
    [operations_revoke]).  The ledger is proved with a Hoare logic over its
    transactions: its rows stay balanced ([ledger_balanced]) and within their
    limits ([budget_within_limits]), no constraint of the store is violated
    ([store_never_corrupt]), reservations only advance
    ([reservation_lifecycle]), a restart recovers them ([restart_recovers]) and
    fences the ledgers before it for good ([coordinator_fenced]).

    Clock readings, new identifiers, SHA-256, the shortest text of a float, the
    decimal digits of a float and the check of a bracketed host are arguments of
    the definitions that use them, and so is the digest of a JSON value in
    [SwarmModels], [Registry] and [Budget]; a clock reading is a whole number of
    seconds.  An object compared with [is] carries a
    reference.  In [Approval] times are integers in units of the least double,
    and the check that an action is within the operator's maximum, the receipt
    the host records and the answers of its verifier are arguments.  In [Session]
    what a gate answers is an argument of each call; what [float] reads and
    [repr] writes are arguments, and the theorems ask of the values of a caller
    that their floats read back and their objects have distinct keys, as the
    values of Python do ([readable]).  The order
    in which a set of texts is iterated is an argument of [RuntimeBoundary].  A
    backend is an instance of [Backend], and what the sources of an authority
    find at their hosts an argument of [ApprovalAuthority].

    ** Bounds

    The lexer runs on fuel, one unit per character and one more, and every step
    consumes a character ([shell_tokens_total] shows that more changes nothing).
    [strip_wrappers] runs on the length of its argument.  [check_command] runs on
    fuel 4: the code stops descending at depth 3 ([check_command_total] shows
    that more fuel gives the same review).  The GraphQL readers run on one unit
    per character and one more (lexing), two per token and two more (parsing) and
    one per fragment that may be nested (expansion: 34 for the authority, 18 for
    the scope, as the code refuses deeper ones); [authority_reader_terminates]
    shows that more changes nothing.  The reader of JSON runs on two units per
    character and two more ([loads_enough] shows that more changes nothing).  All
    other recursion is structural.

    ** Not modelled

    Reading files and the consistency of the snapshot of the catalog
    ([_catalog_snapshot.py]), the loading of schema files, the command search (a
    parameter of the combined review, with its floating point scores), text
    outside Latin-1, integers too long for the interpreter to print, the logging
    of audit sinks, the depth limit of the interpreter.  Of the action path:
    commitments of raw bodies and the request contracts of [runtime_requests.py],
    the JSON schema of a contract lock, the approval lease of a runtime contract.
    Of the runtime:
    the backends themselves (processes, OpenShell), codecs and evaluations.
    Of a session: the runtime evidence that [bind_runtime_source] starts (its
    sidecar, its table and the delta of capabilities), and the file of the store
    ([_private_storage.py]).  Of the ledger: its readers and the recording of
    observations.  The rest of the multi-agent layer ([swarm/]): coordinators,
    brokers, delegation, approval service and gateways, which are storage,
    processes and transport around the parts above.  The assurance tools
    ([assurance/]), the MCP proxy and HTTP gateway, benchmarks, corpora, command
    lines and the integrations of editors and agents. *)
From stdpp Require Import base list strings gmap.
From Stdlib Require Import ZArith Lia.

(** ** Python outcomes

    A Python function of the modelled code either returns or raises.  [res]
    is its outcome, [exn] the exception classes that the modelled code raises
    or lets through; the text of a message is kept where the code builds one. *)

Inductive exn :=
| ValueError (message : string)
| TypeError (message : string)
| AttributeError (message : string)
| KeyError (key : string)
| IndexError
| AssertionError (message : string)
| RecursionError.

Inductive res (A : Type) :=
| Ok (value : A)
| Err (error : exn).
Arguments Ok {A} _.
Arguments Err {A} _.

#[export] Instance exn_eq_dec : EqDecision exn.
Proof. solve_decision. Defined.

#[export] Instance res_eq_dec {A} `{EqDecision A} : EqDecision (res A).
Proof. solve_decision. Defined.

#[export] Instance res_ret : MRet res := fun A x => Ok x.
#[export] Instance res_bind : MBind res := fun A B f m =>
  match m with Ok x => f x | Err e => Err e end.
#[export] Instance res_fmap : FMap res := fun A B f m =>
  match m with Ok x => Ok (f x) | Err e => Err e end.

Definition is_ok {A} (m : res A) : bool :=
  match m with Ok _ => true | Err _ => false end.

(** [guard_or c e] is Python's [if not c: raise e]. *)
Definition guard_or (c : bool) (e : exn) : res unit :=
  if c then Ok tt else Err e.

(** [all_ok l] evaluates a list of possibly raising expressions from left to
    right and stops at the first one that raises. *)
Fixpoint all_ok {A} (l : list (res A)) : res (list A) :=
  match l with
  | [] => Ok []
  | m :: l' => x ← m; xs ← all_ok l'; Ok (x :: xs)
  end.

Lemma res_bind_ok {A B} (m : res A) (f : A → res B) y :
  (m ≫= f) = Ok y ↔ ∃ x, m = Ok x ∧ f x = Ok y.
Proof. destruct m; cbn; naive_solver. Qed.

Lemma guard_or_ok c e u : guard_or c e = Ok u ↔ c = true.
Proof. destruct c, u; cbn; naive_solver. Qed.

Lemma all_ok_Forall2 {A} (l : list (res A)) xs :
  all_ok l = Ok xs ↔ Forall2 (fun m x => m = Ok x) l xs.
Proof.
  revert xs. induction l as [|m l IH]; intros xs; cbn.
  - split; [intros [= <-]; constructor | by inversion 1].
  - rewrite res_bind_ok. setoid_rewrite res_bind_ok. setoid_rewrite IH.
    split.
    + intros (x & -> & ys & Hys & [= <-]). by constructor.
    + inversion 1; subst. eauto 10.
Qed.

Lemma all_ok_is_ok {A} (l : list (res A)) :
  Forall (fun m => is_ok m = true) l → ∃ xs, all_ok l = Ok xs.
Proof.
  induction 1 as [|m l Hm _ [xs IH]]; cbn; [eauto|].
  destruct m; [|done]. cbn. rewrite IH. cbn. eauto.
Qed.

Lemma all_ok_app {A} (l k : list (res A)) :
  all_ok (l ++ k) = (x ← all_ok l; y ← all_ok k; Ok (x ++ y)).
Proof.
  induction l as [|m l IH]; cbn.
  - by destruct (all_ok k).
  - destruct m; cbn; [|done]. rewrite IH.
    destruct (all_ok l); cbn; [|done]. by destruct (all_ok k).
Qed.

(** ** Automation *)

(** Inverts the monadic equations [... = Ok _] of the context. *)
Ltac inv_res :=
  repeat match goal with
  | H : Ok _ = Ok _ |- _ => injection H as H; subst
  | H : Err _ = Ok _ |- _ => discriminate H
  | H : Ok _ = Err _ |- _ => discriminate H
  | H : mbind _ _ = Ok _ |- _ =>
      apply res_bind_ok in H; destruct H as (? & ? & H)
  | H : guard_or _ _ = Ok _ |- _ => apply guard_or_ok in H
  end.

(** Splits boolean connectives in the context. *)
Ltac split_bools :=
  repeat match goal with
  | H : _ && _ = true |- _ => apply andb_true_iff in H; destruct H
  | H : _ || _ = false |- _ => apply orb_false_iff in H; destruct H
  | H : negb _ = true |- _ => apply negb_true_iff in H
  | H : negb _ = false |- _ => apply negb_false_iff in H
  | H : bool_decide _ = true |- _ => apply bool_decide_eq_true in H
  | H : bool_decide _ = false |- _ => apply bool_decide_eq_false in H
  end.

Create HintDb ordin.
#[export] Hint Resolve all_ok_is_ok : ordin.

(** ** What a function may raise *)

(** A value, or [ValueError]. *)
Definition value_error {A} (m : res A) : Prop :=
  match m with Ok _ | Err (ValueError _) => True | Err _ => False end.

Lemma value_error_bind {A B} (m : res A) (f : A → res B) :
  value_error m → (∀ x, m = Ok x → value_error (f x)) → value_error (m ≫= f).
Proof. destruct m as [x|[]]; cbn; auto. Qed.
Lemma value_error_guard c message : value_error (guard_or c (ValueError message)).
Proof. by destruct c. Qed.
Lemma value_error_all {A} (l : list (res A)) :
  (∀ m, m ∈ l → value_error m) → value_error (all_ok l).
Proof.
  induction l as [|m l IH]; intros Hl; cbn; [done|]. apply value_error_bind; [apply Hl; left|].
  intros x _. apply value_error_bind; [apply IH; intros; apply Hl; by right|done].
Qed.
Lemma value_error_ok {A} (m : res A) : value_error m → (∃ x, m = Ok x) ∨ ∃ s, m = Err (ValueError s).
Proof. destruct m as [x|[]]; cbn; eauto; done. Qed.

Create HintDb raises.
#[export] Hint Resolve value_error_guard : raises.
(** Walks down binds, tests and matches to the calls. *)
Ltac value_errors :=
  repeat (first [ progress (auto with raises) | exact I
                | apply value_error_bind; [|intros ? _]
                | apply value_error_all; intros ? (? & -> & _)%list_elem_of_fmap
                | match goal with |- value_error (match ?x with _ => _ end) => destruct x end ]).

(** [next(x for x in l if f(x))] is the first such element. *)
Lemma find_first {A} (f : A → bool) l x :
  List.find f l = Some x ↔
  ∃ before after, l = before ++ x :: after ∧ f x = true ∧ ∀ y, y ∈ before → f y = false.
Proof.
  induction l as [|y l IH]; cbn.
  - split; [done|]. by intros ([|] & after & ? & _).
  - destruct (f y) eqn:Hy.
    + split.
      * intros [= ->]. exists [], l. split; [done|]. split; [done|]. by intros y ?%elem_of_nil.
      * intros ([|z before] & after & E & Hx & Hb); injection E as -> ->; [done|].
        rewrite Hb in Hy; [done|left].
    + rewrite IH. split.
      * intros (before & after & -> & Hx & Hb). exists (y :: before), after.
        split; [done|]. split; [done|]. by intros z [->|Hz]%elem_of_cons; auto.
      * intros ([|z before] & after & E & Hx & Hb); injection E as -> ->; [congruence|].
        exists before, after. split; [done|]. split; [done|]. intros w Hw. apply Hb. by right.
Qed.

(** ** Order-preserving removal of duplicates

    [dedup_by key l] keeps the first element of every key: the
    [seen]-set loop that several modules of the code write out. *)
Section dedup.
Context {A K : Type} `{Countable K} (key : A → K).

Fixpoint dedup_by_aux (seen : gset K) (l : list A) : list A :=
  match l with
  | [] => []
  | x :: l' =>
      if decide (key x ∈ seen) then dedup_by_aux seen l'
      else x :: dedup_by_aux ({[key x]} ∪ seen) l'
  end.

Definition dedup_by (l : list A) : list A := dedup_by_aux ∅ l.

Lemma dedup_by_aux_sublist seen l : sublist (dedup_by_aux seen l) l.
Proof.
  revert seen. induction l as [|x l IH]; intros seen; cbn; [constructor|].
  case_decide; constructor; apply IH.
Qed.

Lemma dedup_by_aux_unseen seen l x :
  x ∈ dedup_by_aux seen l → key x ∉ seen.
Proof.
  revert seen. induction l as [|y l IH]; intros seen; cbn.
  - by intros ?%not_elem_of_nil.
  - case_decide as Hd; [eauto|]. intros [->|Hx]%elem_of_cons; [done|].
    apply IH in Hx. set_solver.
Qed.

Lemma dedup_by_aux_NoDup seen l : NoDup (key <$> dedup_by_aux seen l).
Proof.
  revert seen. induction l as [|x l IH]; intros seen; cbn; [constructor|].
  case_decide; [eauto|]. cbn. constructor; [|eauto].
  intros (y & Hy & Hin)%list_elem_of_fmap.
  apply dedup_by_aux_unseen in Hin. set_solver.
Qed.

Lemma dedup_by_aux_keys seen l k :
  k ∈ key <$> dedup_by_aux seen l ↔ k ∈ key <$> l ∧ k ∉ seen.
Proof.
  revert seen. induction l as [|x l IH]; intros seen; cbn.
  - rewrite !elem_of_nil. tauto.
  - case_decide as Hd; cbn; rewrite ?elem_of_cons, IH.
    + split; [naive_solver|]. intros [[->|?] ?]; naive_solver.
    + rewrite not_elem_of_union, not_elem_of_singleton.
      destruct (decide (k = key x)) as [->|]; naive_solver.
Qed.

Lemma dedup_by_sublist l : sublist (dedup_by l) l.
Proof. apply dedup_by_aux_sublist. Qed.

Lemma dedup_by_elem l x : x ∈ dedup_by l → x ∈ l.
Proof.
  assert (∀ l' k : list A, sublist l' k → x ∈ l' → x ∈ k) as Hs; [|apply Hs, dedup_by_sublist].
  intros l' k. induction 1; rewrite ?elem_of_cons; naive_solver.
Qed.

Lemma dedup_by_NoDup l : NoDup (key <$> dedup_by l).
Proof. apply dedup_by_aux_NoDup. Qed.

Lemma dedup_by_keys l k : k ∈ key <$> dedup_by l ↔ k ∈ key <$> l.
Proof. unfold dedup_by. rewrite dedup_by_aux_keys. set_solver. Qed.

Lemma dedup_by_aux_id seen l :
  NoDup (key <$> l) → (∀ x, x ∈ l → key x ∉ seen) → dedup_by_aux seen l = l.
Proof.
  revert seen. induction l as [|x l IH]; intros seen Hnd Hs; cbn in *; [done|].
  apply NoDup_cons in Hnd as [Hx Hnd]. case_decide as Hd.
  - exfalso. apply (Hs x); [left|done].
  - f_equal. apply IH; [done|]. intros y Hy.
    rewrite not_elem_of_union, not_elem_of_singleton. split.
    + intros Heq. apply Hx. rewrite <- Heq. by apply list_elem_of_fmap_2.
    + apply Hs. by right.
Qed.

Lemma dedup_by_id l : NoDup (key <$> l) → dedup_by l = l.
Proof. intros. apply dedup_by_aux_id; [done|]. set_solver. Qed.
End dedup.

#[export] Hint Resolve dedup_by_NoDup dedup_by_sublist : ordin.
