(* ===== verification/PyStr.v ===== *)
(** * Python string operations

    A Python [str] of the modelled code is a sequence of code points; here it
    is a [string], that is a sequence of code points below 256 (the Latin-1
    range).  The character classes below are those of Python's [str] methods
    on that range. *)
From stdpp Require Import base list strings sorting.
From Stdlib Require Import Bool Ascii String NArith Lia.
From S2P Require Import Prelude.

Declare Scope py_scope.
Delimit Scope py_scope with py.
Infix "=s" := String.eqb (at level 70, no associativity) : py_scope.
#[local] Open Scope py_scope.

(** [code c] is Python's [ord]. *)
Definition code (c : ascii) : N := N_of_ascii c.

Definition in_range (lo hi : N) (c : ascii) : bool :=
  ((lo <=? code c) && (code c <=? hi))%N.

(** Character classes: [str.isspace], [str.isdigit] restricted to ASCII, and
    the class of [str.isalnum]. *)
Definition is_space (c : ascii) : bool :=
  in_range 9 13 c || in_range 28 32 c || in_range 133 133 c || in_range 160 160 c.
Definition is_digit_char (c : ascii) : bool :=
  in_range 48 57 c || in_range 178 179 c || in_range 185 185 c.
Definition is_alnum_char (c : ascii) : bool :=
  in_range 48 57 c || in_range 65 90 c || in_range 97 122 c
  || in_range 170 170 c || in_range 178 179 c || in_range 181 181 c
  || in_range 185 186 c || in_range 188 190 c || in_range 192 214 c
  || in_range 216 246 c || in_range 248 255 c.

(** [str.lower] and [str.upper].  On this range lowering adds 32 to the upper
    case letters.  Raising subtracts it; the three letters whose upper case
    leaves the range or is longer (181, 223, 255) are left alone, and no
    modelled comparison mentions them. *)
Definition lower_char (c : ascii) : ascii :=
  if in_range 65 90 c || in_range 192 214 c || in_range 216 222 c
  then ascii_of_N (code c + 32)%N else c.
Definition upper_char (c : ascii) : ascii :=
  if in_range 97 122 c || in_range 224 246 c || in_range 248 254 c
  then ascii_of_N (code c - 32)%N else c.

Fixpoint str_map (f : ascii → ascii) (s : string) : string :=
  match s with
  | EmptyString => EmptyString
  | String c s' => String (f c) (str_map f s')
  end.

Definition lower (s : string) : string := str_map lower_char s.
Definition upper (s : string) : string := str_map upper_char s.

Fixpoint str_forall (p : ascii → bool) (s : string) : bool :=
  match s with
  | EmptyString => true
  | String c s' => p c && str_forall p s'
  end.
Definition str_exists (p : ascii → bool) (s : string) : bool :=
  negb (str_forall (fun c => negb (p c)) s).

(** Truth value of a string, and [str.isalnum] (false on the empty string). *)
Definition truthy (s : string) : bool :=
  match s with EmptyString => false | _ => true end.
Definition is_alnum (s : string) : bool := truthy s && str_forall is_alnum_char s.

(** [s.startswith(p)], [s.startswith((p1, ...))] and [s.endswith(p)]. *)
Definition startswith (s p : string) : bool := String.prefix p s.
Definition startswith_any (s : string) (ps : list string) : bool :=
  existsb (startswith s) ps.

Fixpoint str_rev_app (s acc : string) : string :=
  match s with
  | EmptyString => acc
  | String c s' => str_rev_app s' (String c acc)
  end.
Definition str_rev (s : string) : string := str_rev_app s EmptyString.
Definition endswith (s p : string) : bool := String.prefix (str_rev p) (str_rev s).

(** [s[n:]]. *)
Fixpoint str_drop (n : nat) (s : string) : string :=
  match n, s with
  | O, _ => s
  | S _, EmptyString => EmptyString
  | S n', String _ s' => str_drop n' s'
  end.
(** [s[:n]]. *)
Fixpoint str_take (n : nat) (s : string) : string :=
  match n, s with
  | O, _ => EmptyString
  | S _, EmptyString => EmptyString
  | S n', String c s' => String c (str_take n' s')
  end.

(** [needle in s] for strings. *)
Fixpoint contains (s needle : string) : bool :=
  startswith s needle ||
  match s with EmptyString => false | String _ s' => contains s' needle end.

(** Membership of a string in a literal set or tuple of the code; [opt_mem]
    is the same test on a value that may be [None]. *)
Definition mem (s : string) (l : list string) : bool := existsb (String.eqb s) l.
#[global] Arguments mem : simpl never.
Definition opt_mem (o : option string) (l : list string) : bool :=
  match o with Some s => mem s l | None => false end.
(** [o == "literal"] on a value that may be [None]. *)
Definition opt_is (o : option string) (s : string) : bool :=
  match o with Some s' => s' =s s | None => false end.
(** Truth value of a value that may be [None]. *)
Definition opt_truthy (o : option string) : bool :=
  match o with Some s => truthy s | None => false end.
(** [x or d] on a value that may be [None]. *)
Definition or_default (o : option string) (d : string) : string :=
  match o with Some s => if truthy s then s else d | None => d end.
(** [f"{o}"] on a value that may be [None]. *)
Definition fmt_opt (o : option string) : string :=
  match o with Some s => s | None => "None" end.

(** [s.split(c, 1)]: the text before the first [c] and the text after it, when
    there is one. *)
Fixpoint split_once (c : ascii) (s : string) : string * option string :=
  match s with
  | EmptyString => (EmptyString, None)
  | String a s' =>
      if Ascii.eqb a c then (EmptyString, Some s')
      else let '(x, y) := split_once c s' in (String a x, y)
  end.

(** [s.split(c)] for a one-character separator. *)
Fixpoint split_char (c : ascii) (s : string) : list string :=
  match s with
  | EmptyString => [EmptyString]
  | String a s' =>
      if Ascii.eqb a c then EmptyString :: split_char c s'
      else match split_char c s' with
           | w :: ws => String a w :: ws
           | [] => [String a EmptyString]
           end
  end.

(** [s.split()]: maximal runs of non-space characters. *)
Fixpoint split_ws_aux (s cur : string) : list string :=
  match s with
  | EmptyString => if truthy cur then [str_rev cur] else []
  | String a s' =>
      if is_space a
      then (if truthy cur then [str_rev cur] else []) ++ split_ws_aux s' EmptyString
      else split_ws_aux s' (String a cur)
  end.
Definition split_ws (s : string) : list string := split_ws_aux s EmptyString.

(** [sep.join(l)]. *)
Definition join (sep : string) (l : list string) : string := String.concat sep l.

(** [s.lstrip()], [s.rstrip()], [s.strip()], and the one-character forms. *)
Fixpoint lstrip_by (p : ascii → bool) (s : string) : string :=
  match s with
  | EmptyString => EmptyString
  | String c s' => if p c then lstrip_by p s' else s
  end.
Definition rstrip_by (p : ascii → bool) (s : string) : string :=
  str_rev (lstrip_by p (str_rev s)).
Definition lstrip (s : string) : string := lstrip_by is_space s.
Definition strip (s : string) : string := rstrip_by is_space (lstrip s).
#[global] Arguments strip : simpl never.
#[global] Arguments lower : simpl never.
#[global] Arguments upper : simpl never.
#[global] Arguments contains : simpl never.
Definition rstrip_char (c : ascii) (s : string) : string := rstrip_by (Ascii.eqb c) s.

(** [s.replace(a, b)] for one-character [a] and [b], and [s.replace(a, "")]. *)
Definition replace_char (a b : ascii) (s : string) : string :=
  str_map (fun c => if Ascii.eqb c a then b else c) s.
Fixpoint remove_char (a : ascii) (s : string) : string :=
  match s with
  | EmptyString => EmptyString
  | String c s' => if Ascii.eqb c a then remove_char a s' else String c (remove_char a s')
  end.

(** [repr(s)] of a string. *)
Definition hex_digit (n : N) : ascii :=
  ascii_of_N (if (n <? 10)%N then 48 + n else 87 + n)%N.
Definition is_printable (c : ascii) : bool :=
  in_range 32 126 c || in_range 161 172 c || in_range 174 255 c.
Definition repr_char (q c : ascii) : string :=
  if Ascii.eqb c q || Ascii.eqb c "\"%char then String "\"%char (String c EmptyString)
  else if Ascii.eqb c (ascii_of_N 10) then "\n"
  else if Ascii.eqb c (ascii_of_N 13) then "\r"
  else if Ascii.eqb c (ascii_of_N 9) then "\t"
  else if is_printable c then String c EmptyString
  else "\x" +:+ String (hex_digit (code c / 16)) (String (hex_digit (code c mod 16)) EmptyString).
Fixpoint repr_body (q : ascii) (s : string) : string :=
  match s with
  | EmptyString => EmptyString
  | String c s' => repr_char q c +:+ repr_body q s'
  end.
Definition single_quote : ascii := ascii_of_N 39.
Definition double_quote : ascii := ascii_of_N 34.
#[global] Arguments single_quote : simpl never.
#[global] Arguments double_quote : simpl never.
Definition repr (s : string) : string :=
  let q := if str_exists (Ascii.eqb single_quote) s
              && negb (str_exists (Ascii.eqb double_quote) s)
           then double_quote else single_quote in
  String q (repr_body q s) +:+ String q EmptyString.
(** A string between double quotes, as the code's f-strings write it. *)
Definition dquoted (s : string) : string :=
  String double_quote s +:+ String double_quote EmptyString.

(** [sorted(l)] by code points, and [sorted(set(l))]. *)
Definition str_le (s t : string) : Prop := String.leb s t = true.
#[export] Instance str_le_dec s t : Decision (str_le s t).
Proof. unfold str_le. apply _. Defined.
Definition sorted (l : list string) : list string := merge_sort str_le l.
Definition sorted_set (l : list string) : list string := sorted (remove_dups l).

(** ** Lemmas *)

Lemma eqb_true s t : (s =s t) = true ↔ s = t.
Proof. apply String.eqb_eq. Qed.

Lemma mem_elem_of s l : mem s l = true ↔ s ∈ l.
Proof.
  unfold mem. rewrite existsb_exists. setoid_rewrite String.eqb_eq.
  rewrite list_elem_of_In. split; [by intros (? & ? & ->) | eauto].
Qed.

Lemma mem_false s l : mem s l = false ↔ s ∉ l.
Proof. rewrite <- mem_elem_of, not_true_iff_false. done. Qed.

Lemma str_app_cons c (s t : string) : String c s +:+ t = String c (s +:+ t).
Proof. reflexivity. Qed.

Lemma str_app_nil_r (s : string) : s +:+ EmptyString = s.
Proof. induction s as [|c s IH]; [done|]. rewrite !str_app_cons. by rewrite IH. Qed.

Lemma str_app_assoc (s t u : string) : (s +:+ t) +:+ u = s +:+ t +:+ u.
Proof. induction s as [|c s IH]; [done|]. rewrite !str_app_cons. by rewrite IH. Qed.

Lemma startswith_cons a s b p :
  startswith (String a s) (String b p) = Ascii.eqb a b && startswith s p.
Proof.
  unfold startswith. cbn. destruct (ascii_dec b a) as [->|Hne].
  - by rewrite Ascii.eqb_refl.
  - destruct (Ascii.eqb_spec a b); [congruence|done].
Qed.

Lemma startswith_nil s : startswith s EmptyString = true.
Proof. by destruct s. Qed.

Lemma startswith_app p s : startswith (p +:+ s) p = true.
Proof.
  unfold startswith. induction p as [|c p IH]; [by destruct s|].
  rewrite str_app_cons. cbn. destruct (ascii_dec c c); [done|congruence].
Qed.

Lemma startswith_iff s p : startswith s p = true ↔ ∃ t, s = p +:+ t.
Proof.
  split; [|intros [t ->]; apply startswith_app].
  unfold startswith. revert s. induction p as [|c p IH]; intros s; cbn.
  - intros _. by exists s.
  - destruct s as [|a s]; cbn; [done|]. destruct (ascii_dec c a) as [->|]; [|done].
    intros [t ->]%IH. exists t. by rewrite str_app_cons.
Qed.

Lemma str_drop_app p s : str_drop (String.length p) (p +:+ s) = s.
Proof. induction p as [|c p IH]; [by destruct s|done]. Qed.

#[export] Instance str_le_total : Total str_le.
Proof.
  intros s t. unfold str_le, String.leb. rewrite (String.compare_antisym s t).
  destruct (String.compare t s); cbn; auto.
Qed.

Lemma ascii_compare_lt_trans a b c :
  Ascii.compare a b = Lt → Ascii.compare b c = Lt → Ascii.compare a c = Lt.
Proof. unfold Ascii.compare. rewrite !N.compare_lt_iff. lia. Qed.

Lemma str_compare_lt_trans s t u :
  String.compare s t = Lt → String.compare t u = Lt → String.compare s u = Lt.
Proof.
  revert t u. induction s as [|a s IH]; intros [|b t] [|c u]; cbn; try done.
  destruct (Ascii.compare a b) eqn:E1; try done;
  destruct (Ascii.compare b c) eqn:E2; try done.
  - apply Ascii.compare_eq_iff in E1 as ->. rewrite E2. apply IH.
  - apply Ascii.compare_eq_iff in E1 as ->. by rewrite E2.
  - apply Ascii.compare_eq_iff in E2 as <-. by rewrite E1.
  - by rewrite (ascii_compare_lt_trans _ _ _ E1 E2).
Qed.

#[export] Instance str_le_trans : Transitive str_le.
Proof.
  intros s t u. unfold str_le, String.leb.
  destruct (String.compare s t) eqn:E1; try done;
  destruct (String.compare t u) eqn:E2; try done; intros _ _.
  - apply String.compare_eq_iff in E1 as ->. by rewrite E2.
  - apply String.compare_eq_iff in E1 as ->. by rewrite E2.
  - apply String.compare_eq_iff in E2 as <-. by rewrite E1.
  - by rewrite (str_compare_lt_trans _ _ _ E1 E2).
Qed.

Lemma sorted_set_elem l s : s ∈ sorted_set l ↔ s ∈ l.
Proof.
  unfold sorted_set, sorted. rewrite (merge_sort_Permutation str_le).
  apply elem_of_remove_dups.
Qed.

Lemma sorted_set_NoDup l : NoDup (sorted_set l).
Proof.
  unfold sorted_set, sorted. rewrite (merge_sort_Permutation str_le).
  apply NoDup_remove_dups.
Qed.

Lemma sorted_sorted l : StronglySorted str_le (sorted l).
Proof. apply (StronglySorted_merge_sort str_le). Qed.

Create Rewrite HintDb ordin.
#[export] Hint Rewrite str_app_cons str_app_nil_r str_app_assoc : ordin.
