(* ===== verification/State.v ===== *)
(** * Stateful operations

    A method that changes an object and may raise: it returns the object also
    when it raises, with what was assigned before.  The rules say when it
    returns, and how the object can have changed. *)
From stdpp Require Import base list strings relations.
From S2P Require Import Prelude PyStr.

Definition ST (S A : Type) : Type := S → S * res A.
#[export] Instance ST_ret {S} : MRet (ST S) := λ A x s, (s, Ok x).
#[export] Instance ST_bind {S} : MBind (ST S) := λ A B f m s,
  match m s with
  | (s', Ok x) => f x s'
  | (s', Err e) => (s', Err e)
  end.

Section operations.
Context {S : Type}.

(** An expression over the object, an assignment, and a raise. *)
Definition asks {A} (f : S → res A) : ST S A := λ s, (s, f s).
Definition gets {A} (f : S → A) : ST S A := λ s, (s, Ok (f s)).
Definition assigns (f : S → S) : ST S unit := λ s, (f s, Ok tt).
Definition raises {A} (e : exn) : ST S A := λ s, (s, Err e).
Definition lifts {A} (m : res A) : ST S A := λ s, (s, m).
(** [if not c: raise e]. *)
Definition demands (c : S → bool) (e : exn) : ST S unit := λ s, (s, guard_or (c s) e).
(** [try: ... except (ValueError, TypeError, AttributeError): return x]. *)
Definition catches {A} (m : ST S A) (x : A) : ST S A := λ s,
  match m s with
  | (s', Err (ValueError _ | TypeError _ | AttributeError _)) => (s', Ok x)
  | r => r
  end.

Lemma st_bind_ok {A B} (m : ST S A) (f : A → ST S B) s s' y :
  (m ≫= f) s = (s', Ok y) ↔ ∃ s1 x, m s = (s1, Ok x) ∧ f x s1 = (s', Ok y).
Proof.
  cbv [mbind ST_bind]. destruct (m s) as [s1 [x|e]] eqn:E; split.
  - intros Hf. by exists s1, x.
  - by intros (? & ? & [= -> ->] & Hf).
  - discriminate.
  - by intros (? & ? & [=] & _).
Qed.
Lemma st_asks_ok {A} (f : S → res A) s s' x : asks f s = (s', Ok x) ↔ s' = s ∧ f s = Ok x.
Proof. unfold asks. split; [by intros [= -> ->]|by intros [-> ->]]. Qed.
Lemma st_gets_ok {A} (f : S → A) s s' x : gets f s = (s', Ok x) ↔ s' = s ∧ x = f s.
Proof. unfold gets. split; [by intros [= -> ->]|by intros [-> ->]]. Qed.
Lemma st_assigns_ok f s s' x : assigns f s = (s', Ok x) ↔ s' = f s ∧ x = tt.
Proof. unfold assigns. split; [by intros [= <- <-]|by intros [-> ->]]. Qed.
Lemma st_lifts_ok {A} (m : res A) s s' x : lifts m s = (s', Ok x) ↔ s' = s ∧ m = Ok x.
Proof. unfold lifts. split; [by intros [= -> ->]|by intros [-> ->]]. Qed.
Lemma st_demands_ok c e s s' x : demands c e s = (s', Ok x) ↔ s' = s ∧ c s = true.
Proof.
  unfold demands. destruct (c s) eqn:E, x; cbn; split; try discriminate; try (by intros [= ->]);
  by intros [-> ?].
Qed.
Lemma st_ret_ok {A} (a : A) s s' x : mret (M := ST S) a s = (s', Ok x) ↔ s' = s ∧ x = a.
Proof. cbv [mret ST_ret]. split; [by intros [= -> ->]|by intros [-> ->]]. Qed.

(** [m] relates the objects before and after, whether or not it raises. *)
Definition moves (R : relation S) {A} (m : ST S A) : Prop := ∀ s, R s (fst (m s)).

Context (R : relation S) `{!PreOrder R}.
Lemma moves_bind {A B} (m : ST S A) (f : A → ST S B) :
  moves R m → (∀ x, moves R (f x)) → moves R (m ≫= f).
Proof.
  intros Hm Hf s. specialize (Hm s). cbv [mbind ST_bind].
  destruct (m s) as [s1 [x|e]]; cbn in *; [|done]. etrans; [exact Hm|apply Hf].
Qed.
Lemma moves_result {A} (m : ST S A) s s' r : moves R m → m s = (s', r) → R s s'.
Proof. intros Hm E. specialize (Hm s). by rewrite E in Hm. Qed.
Lemma moves_asks {A} (f : S → res A) : moves R (asks f). Proof. by intros s. Qed.
Lemma moves_gets {A} (f : S → A) : moves R (gets f). Proof. by intros s. Qed.
Lemma moves_lifts {A} (m : res A) : moves R (lifts m). Proof. by intros s. Qed.
Lemma moves_demands c e : moves R (demands c e). Proof. by intros s. Qed.
Lemma moves_raises {A} e : moves R (raises (A := A) e). Proof. by intros s. Qed.
Lemma moves_ret {A} (a : A) : moves R (mret (M := ST S) a). Proof. by intros s. Qed.
Lemma moves_assigns f : (∀ s, R s (f s)) → moves R (assigns f). Proof. done. Qed.
Lemma moves_catches {A} (m : ST S A) x : moves R m → moves R (catches m x).
Proof. intros Hm s. specialize (Hm s). unfold catches. by destruct (m s) as [s1 [|[]]]. Qed.

(** [m] does not raise; [m] relates the objects before and after when it raises. *)
Definition never {A} (m : ST S A) : Prop := ∀ s s' e, m s ≠ (s', Err e).
Definition errs {A} (m : ST S A) : Prop := ∀ s s' e, m s = (s', Err e) → R s s'.

Lemma never_bind {A B} (m : ST S A) (f : A → ST S B) :
  never m → (∀ x, never (f x)) → never (m ≫= f).
Proof.
  intros Hm Hf s s' e. cbv [mbind ST_bind]. destruct (m s) as [s1 [x|e1]] eqn:E; [apply Hf|].
  by destruct (Hm _ _ _ E).
Qed.
Lemma never_gets {A} (f : S → A) : never (gets f). Proof. by intros s s' e [=]. Qed.
Lemma never_assigns f : never (assigns f). Proof. by intros s s' e [=]. Qed.
Lemma never_ret {A} (a : A) : never (mret (M := ST S) a). Proof. by intros s s' e [=]. Qed.

Lemma errs_never {A} (m : ST S A) : never m → errs m.
Proof. intros Hm s s' e E. by destruct (Hm _ _ _ E). Qed.
Lemma errs_moves {A} (m : ST S A) : moves R m → errs m.
Proof. intros Hm s s' e E. by apply (moves_result _ _ _ _ Hm E). Qed.
Lemma errs_bind {A B} (m : ST S A) (f : A → ST S B) :
  moves R m → (∀ x, errs (f x)) → errs (m ≫= f).
Proof.
  intros Hm Hf s s' e. specialize (Hm s). cbv [mbind ST_bind].
  destruct (m s) as [s1 [x|e1]]; cbn in *; [|by intros [= <- _]].
  intros E. etrans; [exact Hm|]. by apply (Hf _ _ _ _ E).
Qed.
End operations.

(** Inverts [... = (_, Ok _)] of the context. *)
Ltac inv_st :=
  repeat match goal with
  | H : (_, Ok _) = (_, Ok _) |- _ => injection H as <- <-
  | H : (_, Err _) = (_, Ok _) |- _ => discriminate H
  | H : mbind _ _ _ = (_, Ok _) |- _ => apply st_bind_ok in H as (? & ? & ? & H)
  | H : asks _ _ = (_, Ok _) |- _ => apply st_asks_ok in H as [-> H]
  | H : gets _ _ = (_, Ok _) |- _ => apply st_gets_ok in H as [-> ->]
  | H : assigns _ _ = (_, Ok _) |- _ => apply st_assigns_ok in H as [-> ->]
  | H : lifts _ _ = (_, Ok _) |- _ => apply st_lifts_ok in H as [-> H]
  | H : demands _ _ _ = (_, Ok _) |- _ => apply st_demands_ok in H as [-> H]
  | H : mret _ _ = (_, Ok _) |- _ =>
      first [apply st_ret_ok in H as [-> ->] | apply st_ret_ok in H as [-> H]]
  | H : raises _ _ = (_, Ok _) |- _ => discriminate H
  end.
(** Splits a [moves] goal along the binds and tests of an operation. *)
Ltac moves_step :=
  lazymatch goal with
  | |- moves _ (mbind _ _) => apply moves_bind; [try typeclasses eauto| |intros ?]
  | |- moves _ (asks _) => apply moves_asks
  | |- moves _ (gets _) => apply moves_gets
  | |- moves _ (lifts _) => apply moves_lifts
  | |- moves _ (demands _ _) => apply moves_demands
  | |- moves _ (raises _) => apply moves_raises
  | |- moves _ (mret _) => apply moves_ret
  | |- moves _ (catches _ _) => apply moves_catches
  | |- moves _ (assigns _) => apply moves_assigns
  end.
(** Splits an [errs] goal; [quiet] is to prove that a part moves the objects. *)
Ltac never_step :=
  lazymatch goal with
  | |- never (mbind _ _) => apply never_bind; [|intros ?]
  | |- never (gets _) => apply never_gets
  | |- never (assigns _) => apply never_assigns
  | |- never (mret _) => apply never_ret
  end.
Ltac errs_step quiet :=
  lazymatch goal with
  | |- errs _ (mbind _ _) =>
      first [ apply errs_never; solve [repeat never_step]
            | apply errs_bind; [typeclasses eauto|solve [quiet]|intros ?] ]
  | |- errs _ _ => first [apply errs_never; solve [repeat never_step] | apply errs_moves; solve [quiet]]
  end.
