(* ===== verification/Policy.v ===== *)
(** * Review decisions and execution thresholds ([ordin/policy.py]) *)
From stdpp Require Import base list strings.
From Stdlib Require Import Lia.
From S2P Require Import Prelude PyStr.
#[local] Open Scope py_scope.

(** The literal types [Decision] and [FailThreshold]. *)
Inductive Decision := Allow | Warn | Ask | Block.
Inductive FailThreshold := FailWarn | FailAsk | FailBlock.

#[export] Instance Decision_eq_dec : EqDecision Decision.
Proof. solve_decision. Defined.
#[export] Instance FailThreshold_eq_dec : EqDecision FailThreshold.
Proof. solve_decision. Defined.

(** [DECISION_ORDER] is the code's alias of [REVIEW_PRECEDENCE]. *)
Definition REVIEW_PRECEDENCE (d : Decision) : nat :=
  match d with Allow => 0 | Ask => 1 | Warn => 2 | Block => 3 end.
Definition ENFORCEMENT_ORDER (d : Decision) : nat :=
  match d with Allow => 0 | Warn => 1 | Ask => 2 | Block => 3 end.
Definition DECISION_EXIT_CODES (d : Decision) : nat :=
  match d with Allow => 0 | Warn => 10 | Ask => 20 | Block => 30 end.

Definition decision_str (d : Decision) : string :=
  match d with Allow => "allow" | Warn => "warn" | Ask => "ask" | Block => "block" end.
(** A threshold names the decision it starts to reject. *)
Definition threshold_decision (t : FailThreshold) : Decision :=
  match t with FailWarn => Warn | FailAsk => Ask | FailBlock => Block end.

Definition validate_decision (value : string) : res Decision :=
  if value =s "allow" then Ok Allow
  else if value =s "warn" then Ok Warn
  else if value =s "ask" then Ok Ask
  else if value =s "block" then Ok Block
  else Err (ValueError ("unsupported review decision: " +:+ repr value)).

Definition validate_fail_threshold (value : string) : res FailThreshold :=
  if value =s "warn" then Ok FailWarn
  else if value =s "ask" then Ok FailAsk
  else if value =s "block" then Ok FailBlock
  else Err (ValueError ("unsupported enforcement threshold: " +:+ repr value)).

Definition stronger_decision (current candidate : Decision) : Decision :=
  if REVIEW_PRECEDENCE current <? REVIEW_PRECEDENCE candidate then candidate else current.

(** [ReviewPolicy(fail_on)]; the constructor validates the threshold. *)
Record ReviewPolicy := { fail_on : FailThreshold }.
Definition mk_ReviewPolicy (value : string) : res ReviewPolicy :=
  t ← validate_fail_threshold value; Ok {| fail_on := t |}.

(** [SupportsDecision]: what a review result promises to the policy.  The
    protocol types the attribute as [str], so a result may carry any text. *)
Class SupportsDecision (A : Type) := decision_attr : A → string.
#[export] Instance string_SupportsDecision : SupportsDecision string := λ s, s.
#[export] Instance Decision_SupportsDecision : SupportsDecision Decision := decision_str.

(** [decision_value(value)]: a string is its own attribute. *)
Definition decision_value {A} `{SupportsDecision A} (value : A) : res Decision :=
  validate_decision (decision_attr value).

(** [DecisionResultMixin]. *)
Definition allowed (d : Decision) : bool := bool_decide (d = Allow).
Definition warned (d : Decision) : bool := bool_decide (d = Warn).
Definition uncertain (d : Decision) : bool := bool_decide (d = Ask).
Definition blocked (d : Decision) : bool := bool_decide (d = Block).
Definition requires_attention (d : Decision) : bool := negb (allowed d).

(** [ReviewPolicy.allows], [requires_escalation] and [exit_code]. *)
Definition allows {A} `{SupportsDecision A} (p : ReviewPolicy) (value : A) : res bool :=
  d ← decision_value value;
  Ok (ENFORCEMENT_ORDER d <? ENFORCEMENT_ORDER (threshold_decision (fail_on p))).

Definition requires_escalation {A} `{SupportsDecision A} (p : ReviewPolicy) (value : A) : res bool :=
  d ← decision_value value;
  if bool_decide (d = Block) then Ok false
  else a ← allows p d; Ok (negb a).

Definition exit_code {A} `{SupportsDecision A} (p : ReviewPolicy) (value : A) : res nat :=
  d ← decision_value value;
  a ← allows p d;
  Ok (if a : bool then 0 else DECISION_EXIT_CODES d).

(** ** The order of review labels *)

Lemma validate_decision_str d : validate_decision (decision_str d) = Ok d.
Proof. by destruct d. Qed.

Lemma decision_str_inj d e : decision_str d = decision_str e → d = e.
Proof. by destruct d, e. Qed.

Lemma decision_value_decision (d : Decision) : decision_value d = Ok d.
Proof. apply validate_decision_str. Qed.

Definition weaker (d e : Decision) : Prop := REVIEW_PRECEDENCE d ≤ REVIEW_PRECEDENCE e.

#[export] Instance weaker_dec d e : base.Decision (weaker d e).
Proof. unfold weaker. apply _. Defined.

#[export] Instance weaker_po : PartialOrder weaker.
Proof.
  unfold weaker. repeat split.
  - intros d. lia.
  - intros d e f. lia.
  - by intros [] []; cbn; intros; try lia.
Qed.

#[export] Instance stronger_decision_comm : Comm (=) stronger_decision.
Proof. by intros [] []. Qed.
#[export] Instance stronger_decision_assoc : Assoc (=) stronger_decision.
Proof. by intros [] [] []. Qed.
#[export] Instance stronger_decision_idemp : IdemP (=) stronger_decision.
Proof. by intros []. Qed.
#[export] Instance stronger_decision_left_id : LeftId (=) Allow stronger_decision.
Proof. by intros []. Qed.
#[export] Instance stronger_decision_left_absorb : LeftAbsorb (=) Block stronger_decision.
Proof. by intros []. Qed.

Lemma stronger_decision_ub_l d e : weaker d (stronger_decision d e).
Proof. destruct d, e; cbv; lia. Qed.
Lemma stronger_decision_ub_r d e : weaker e (stronger_decision d e).
Proof. destruct d, e; cbv; lia. Qed.
#[export] Hint Resolve stronger_decision_ub_l stronger_decision_ub_r : ordin.

(** [ReviewPolicy] sorts every valid review value into exactly one of three
    outcomes: allowed (precisely when the decision is strictly below the
    threshold), escalated, or an explicit block; a block is never allowed or
    escalated whatever the threshold, and the exit code is 0 precisely for the
    allowed values and otherwise the code of the decision. *)
Theorem policy_outcomes {A} `{SupportsDecision A} (p : ReviewPolicy) (value : A) (d : Decision) :
  decision_value value = Ok d →
  ∃ a e, allows p value = Ok a ∧ requires_escalation p value = Ok e ∧
    (a = true ↔ ENFORCEMENT_ORDER d < ENFORCEMENT_ORDER (threshold_decision (fail_on p))) ∧
    (e = true ↔ a = false ∧ d ≠ Block) ∧
    (d = Block → a = false) ∧
    exit_code p value = Ok (if a then 0 else DECISION_EXIT_CODES d) ∧
    (a = true ↔ exit_code p value = Ok 0).
Proof.
  intros Hd. destruct p as [t].
  unfold allows, requires_escalation, exit_code, allows. rewrite Hd. cbn.
  rewrite decision_value_decision. cbn.
  destruct d, t; cbn; (do 2 eexists); (repeat split); naive_solver lia.
Qed.

Lemma policy_outcomes_witness :
  ∃ a e, allows {| fail_on := FailAsk |} "ask" = Ok a ∧
    requires_escalation {| fail_on := FailAsk |} "ask" = Ok e ∧
    (a = true ↔ ENFORCEMENT_ORDER Ask < ENFORCEMENT_ORDER (threshold_decision FailAsk)) ∧
    (e = true ↔ a = false ∧ Ask ≠ Block) ∧
    (Ask = Block → a = false) ∧
    exit_code {| fail_on := FailAsk |} "ask" = Ok (if a then 0 else DECISION_EXIT_CODES Ask) ∧
    (a = true ↔ exit_code {| fail_on := FailAsk |} "ask" = Ok 0).
Proof. exact (policy_outcomes {| fail_on := FailAsk |} "ask" Ask eq_refl). Defined.
