(* ===== verification/Json.v ===== *)
(** * JSON values ([ordin/_json_contracts.py])

    The values that [json.loads] produces, with objects as ordered association
    lists, and the accesses that the [from_dict] constructors make. *)
From stdpp Require Import base list strings.
From Stdlib Require Import ZArith QArith Lia.
From S2P Require Import Prelude PyStr.
#[local] Open Scope py_scope.
#[local] Open Scope nat_scope.

Inductive json :=
| JNull
| JBool (b : bool)
| JInt (z : Z)
| JFloat (q : Q)
| JStr (s : string)
| JArr (items : list json)
| JObj (members : list (string * json)).

(** [payload.get(key)] with [None] for a missing key; the last member of a name
    wins, as in [json.loads]. *)
Fixpoint assoc_last {A} (key : string) (l : list (string * A)) : option A :=
  match l with
  | [] => None
  | (k, v) :: l' =>
      match assoc_last key l' with
      | Some w => Some w
      | None => if k =s key then Some v else None
      end
  end.

Definition is_mapping (j : json) : bool :=
  match j with JObj _ => true | _ => false end.
Definition members (j : json) : list (string * json) :=
  match j with JObj m => m | _ => [] end.
Definition jget_opt (j : json) (key : string) : option json := assoc_last key (members j).
Definition jget (j : json) (key : string) : json := default JNull (jget_opt j key).
Definition jget_default (j : json) (key : string) (d : json) : json := default d (jget_opt j key).

Definition jstr (s : option string) : json :=
  match s with Some s => JStr s | None => JNull end.

(** [reject_unknown(payload, allowed, label)]. *)
Definition reject_unknown (payload : json) (allowed : list string) (label : string) : res unit :=
  match payload with
  | JObj m =>
      guard_or (forallb (λ p, mem (fst p) allowed) m)
        (ValueError (label +:+ " contains unknown fields"))
  | _ => Err (ValueError (label +:+ " must be an object"))
  end.

(** [value is not None and not isinstance(value, str)] raises; otherwise the
    value is kept. *)
Definition opt_str_field (j : json) (message : string) : res (option string) :=
  match j with
  | JNull => Ok None
  | JStr s => Ok (Some s)
  | _ => Err (ValueError message)
  end.

Lemma opt_str_jstr o message : opt_str_field (jstr o) message = Ok o.
Proof. by destruct o. Qed.
(** A field that must be an [int] or [None]; [bool] is not accepted. *)
Definition opt_int_field (j : json) (message : string) : res (option Z) :=
  match j with
  | JNull => Ok None
  | JInt z => Ok (Some z)
  | _ => Err (ValueError message)
  end.

Definition opt_bool_field (j : json) (message : string) : res (option bool) :=
  match j with
  | JNull => Ok None
  | JBool b => Ok (Some b)
  | _ => Err (ValueError message)
  end.

Lemma reject_unknown_obj m allowed label :
  Forall (λ p, fst p ∈ allowed) m → reject_unknown (JObj m) allowed label = Ok tt.
Proof.
  intros H. cbn. unfold guard_or.
  assert (forallb (λ p, mem (fst p) allowed) m = true) as ->; [|done].
  apply forallb_forall. intros p Hp. apply mem_elem_of.
  rewrite Forall_forall in H. apply H. by apply list_elem_of_In.
Qed.

(** ** Dictionaries, truth values and equality *)

(** [d[key] = value] on an ordered dictionary: a present key keeps its place. *)
Fixpoint dict_set {A} (key : string) (value : A) (l : list (string * A)) : list (string * A) :=
  match l with
  | [] => [(key, value)]
  | (k, v) :: l' =>
      if k =s key then (k, value) :: l' else (k, v) :: dict_set key value l'
  end.
(** [d.get(key)] on a dictionary with distinct keys. *)
Fixpoint dict_get {A} (key : string) (l : list (string * A)) : option A :=
  match l with
  | [] => None
  | (k, v) :: l' => if k =s key then Some v else dict_get key l'
  end.

(** Truth value of a JSON value. *)
Definition json_truthy (j : json) : bool :=
  match j with
  | JNull => false
  | JBool b => b
  | JInt z => negb (z =? 0)%Z
  | JFloat q => negb (Qeq_bool q 0)
  | JStr s => truthy s
  | JArr l => match l with [] => false | _ => true end
  | JObj m => match m with [] => false | _ => true end
  end.

(** [x or y] *)
Definition json_or (x y : json) : json := if json_truthy x then x else y.

(** The number a value is equal to under [==]; [True] equals 1. *)
Definition json_number (j : json) : option Q :=
  match j with
  | JBool b => Some (if b then 1 else 0)%Q
  | JInt z => Some (inject_Z z)
  | JFloat q => Some q
  | _ => None
  end.

(** [==] of JSON values; dictionaries are compared as mappings. *)
Fixpoint json_equal (a b : json) {struct a} : bool :=
  match a, b with
  | JNull, JNull => true
  | JStr s, JStr t => s =s t
  | JArr l, JArr k =>
      (fix go (l k : list json) : bool :=
         match l, k with
         | [], [] => true
         | x :: l', y :: k' => json_equal x y && go l' k'
         | _, _ => false
         end) l k
  | JObj m, JObj n =>
      (length m =? length n) &&
      (fix go (m : list (string * json)) : bool :=
         match m with
         | [] => true
         | (key, x) :: m' =>
             match assoc_last key n with
             | Some y => json_equal x y
             | None => false
             end && go m'
         end) m
  | _, _ =>
      match json_number a, json_number b with
      | Some x, Some y => Qeq_bool x y
      | _, _ => false
      end
  end.

(** Iteration over a value, as [for item in value] does it. *)
Definition chars_of (s : string) : list json :=
  (fix go (s : string) : list json :=
     match s with
     | EmptyString => []
     | String c s' => JStr (String c EmptyString) :: go s'
     end) s.
Definition json_iter (j : json) : res (list json) :=
  match j with
  | JArr l => Ok l
  | JStr s => Ok (chars_of s)
  | JObj m => Ok (map (λ p, JStr (fst p)) m)
  | _ => Err (TypeError "object is not iterable")
  end.

(** [[item for item in l if isinstance(item, str)]]. *)
Definition only_strings (l : list json) : list string :=
  omap (λ j, match j with JStr s => Some s | _ => None end) l.
Definition opt_of_str (j : json) : option string :=
  match j with JStr s => Some s | _ => None end.
Definition is_str (j : json) : bool := match j with JStr _ => true | _ => false end.

Lemma dict_get_set {A} key k (v : A) l :
  dict_get k (dict_set key v l) = if decide (k = key) then Some v else dict_get k l.
Proof.
  induction l as [|[k' v'] l IH]; cbn.
  - destruct (String.eqb_spec key k) as [->|Hne]; case_decide; congruence.
  - destruct (String.eqb_spec k' key) as [->|Hne]; cbn.
    + destruct (String.eqb_spec key k) as [->|]; case_decide; congruence.
    + rewrite IH. destruct (String.eqb_spec k' k) as [->|]; case_decide; congruence.
Qed.

(** ** Objects with optional members *)

(** The members that are present, in order. *)
Definition present (l : list (string * option json)) : list (string * json) :=
  omap (λ kv, (λ j, (fst kv, j)) <$> snd kv) l.

Lemma assoc_last_absent {A} key (l : list (string * A)) :
  key ∉ map fst l → assoc_last key l = None.
Proof.
  induction l as [|[k v] l IH]; cbn; [done|]. intros [Hne Hn]%not_elem_of_cons.
  rewrite (IH Hn). destruct (String.eqb_spec k key); congruence.
Qed.

Lemma present_keys l k : k ∈ map fst (present l) → k ∈ map fst l.
Proof.
  induction l as [|[k' [j|]] l IH]; cbn; [done| |].
  - intros [->|H]%elem_of_cons; [left|right; auto].
  - right. auto.
Qed.

Lemma assoc_last_present key l :
  NoDup (map fst l) → assoc_last key (present l) = dict_get key l ≫= id.
Proof.
  induction l as [|[k o] l IH]; [done|]. cbn [map fst]. intros [Hk Hnd]%NoDup_cons.
  assert (assoc_last key (present ((k, o) :: l))
    = match assoc_last key (present l) with
      | Some w => Some w
      | None => if k =s key then o else None
      end) as ->.
  { destruct o; cbn [present omap list_omap fmap option_fmap option_map fst snd assoc_last];
      fold (present l); [done|]. by destruct (assoc_last key (present l)), (k =s key). }
  rewrite IH by done. cbn. destruct (String.eqb_spec k key) as [->|Hne]; cbn.
  - rewrite <- IH by done.
    by rewrite (assoc_last_absent key) by (by intros ?%present_keys).
  - by destruct (dict_get key l ≫= id).
Qed.

(** ** Induction on values *)

Section induction.
Context (P : json → Prop).
Context (Hatom : ∀ j, (∀ l, j ≠ JArr l) → (∀ m, j ≠ JObj m) → P j).
Context (Harr : ∀ l, Forall P l → P (JArr l)).
Context (Hobj : ∀ m, Forall (λ kv, P (snd kv)) m → P (JObj m)).

(** Every item of an array and every member of an object is smaller. *)
Fixpoint json_induction (j : json) : P j :=
  match j with
  | JArr l =>
      Harr l ((fix items (l : list json) : Forall P l :=
                 match l with
                 | [] => Forall_nil_2 P
                 | x :: l' => Forall_cons_2 P x l' (json_induction x) (items l')
                 end) l)
  | JObj m =>
      Hobj m ((fix entries (m : list (string * json)) : Forall (λ kv, P (snd kv)) m :=
                 match m with
                 | [] => Forall_nil_2 _
                 | kv :: m' => Forall_cons_2 (λ kv, P (snd kv)) kv m'
                                 (match kv with (k, x) => json_induction x end) (entries m')
                 end) m)
  | JNull => Hatom JNull ltac:(done) ltac:(done)
  | JBool b => Hatom (JBool b) ltac:(done) ltac:(done)
  | JInt z => Hatom (JInt z) ltac:(done) ltac:(done)
  | JFloat q => Hatom (JFloat q) ltac:(done) ltac:(done)
  | JStr s => Hatom (JStr s) ltac:(done) ltac:(done)
  end.
End induction.
