(* ===== verification/Shell.v ===== *)
(** * Shell tokenisation and segmentation ([ordin/shell.py])

    The lexer is the standard library's [shlex.shlex] in the configuration
    that [shell_tokens] chooses: POSIX mode, [punctuation_chars=";&|<>()"],
    [whitespace_split=True] and no comment characters.  In that configuration
    every character that is not white space, a quote, the escape or a
    punctuation character starts or continues a word, so the word-character
    table of the lexer plays no role. *)
From stdpp Require Import base list strings sets gmap.
From Stdlib Require Import Bool Ascii NArith Lia.
From S2P Require Import Prelude PyStr.
#[local] Open Scope py_scope.

Definition SEGMENT_OPERATORS : list string := ["&&"; "||"; ";"; "|"; "|&"; "&"].
Definition SHELL_EXECUTABLES : list string := ["bash"; "dash"; "ksh"; "sh"; "zsh"].
Definition SUDO_OPTIONS_WITH_VALUE : list string :=
  ["-C"; "-D"; "-g"; "-h"; "-p"; "-R"; "-T"; "-u"].

Definition newline : ascii := ascii_of_N 10.
Definition backslash : ascii := "\"%char.
Definition backtick : ascii := "`"%char.
Definition is_quote (c : ascii) : bool :=
  Ascii.eqb c single_quote || Ascii.eqb c double_quote.
Definition is_quote_of (q : option ascii) (c : ascii) : bool :=
  match q with Some q => Ascii.eqb c q | None => false end.
Definition str1 (c : ascii) : string := String c EmptyString.

#[global] Arguments newline : simpl never.
#[global] Arguments backslash : simpl never.
#[global] Arguments backtick : simpl never.

(** ** Newlines outside quotes become separators *)

Fixpoint normalize_aux (quote : option ascii) (escaped : bool) (command : string) : string :=
  match command with
  | EmptyString => EmptyString
  | String char rest =>
      if escaped then String char (normalize_aux quote false rest)
      else if Ascii.eqb char backslash && negb (is_quote_of quote single_quote)
      then String char (normalize_aux quote true rest)
      else match quote with
      | Some q =>
          String char (normalize_aux (if Ascii.eqb char q then None else quote) false rest)
      | None =>
          if is_quote char then String char (normalize_aux (Some char) false rest)
          else if Ascii.eqb char newline then " ; " +:+ normalize_aux None false rest
          else String char (normalize_aux None false rest)
      end
  end.

Definition _normalize_unquoted_newlines (command : string) : string :=
  normalize_aux None false command.

(** ** The lexer *)

(** The [state] attribute of the lexer; [LEscape e] also holds the local
    [escapedstate], the state that the escaped character returns to. *)
Inductive escapedstate := EscWord | EscQuote (q : ascii).
Inductive lexstate :=
| LSpace | LWord | LPunct | LQuote (q : ascii) | LEscape (e : escapedstate).

Definition is_lex_space (c : ascii) : bool :=
  Ascii.eqb c " "%char || Ascii.eqb c (ascii_of_N 9)
  || Ascii.eqb c (ascii_of_N 13) || Ascii.eqb c newline.
Definition is_punctuation (c : ascii) : bool :=
  Ascii.eqb c ";"%char || Ascii.eqb c "&"%char || Ascii.eqb c "|"%char
  || Ascii.eqb c "<"%char || Ascii.eqb c ">"%char || Ascii.eqb c "("%char
  || Ascii.eqb c ")"%char.

(** The end of [read_token]: an unquoted empty token is [None].  The second
    component is the input left in the stream, [None] past its end. *)
Definition emit (tok : string) (quoted : bool) (rest : option string)
  : res (option string * option string) :=
  Ok (if truthy tok || quoted then Some tok else None, rest).

Definition resume (e : escapedstate) : lexstate :=
  match e with EscWord => LWord | EscQuote q => LQuote q end.
Definition escaped_text (e : escapedstate) (c : ascii) : string :=
  match e with
  | EscWord => str1 c
  | EscQuote q =>
      if Ascii.eqb c backslash || Ascii.eqb c q then str1 c
      else String backslash (str1 c)
  end.

(** [shlex.read_token].  A pushed-back character is the head of the input that
    is returned; in the one case where the loop goes on after a push-back the
    character is punctuation read in the state [LSpace], which starts a
    punctuation token. *)
Fixpoint read_token (st : lexstate) (tok : string) (quoted : bool) (inp : string)
  : res (option string * option string) :=
  match inp with
  | EmptyString =>
      match st with
      | LQuote _ => Err (ValueError "No closing quotation")
      | LEscape _ => Err (ValueError "No escaped character")
      | LSpace | LWord | LPunct => emit tok quoted None
      end
  | String c rest =>
      match st with
      | LSpace =>
          if is_lex_space c then
            if truthy tok || quoted then emit tok quoted (Some rest)
            else read_token LSpace tok quoted rest
          else if Ascii.eqb c backslash then read_token (LEscape EscWord) tok quoted rest
          else if is_punctuation c then read_token LPunct (str1 c) quoted rest
          else if is_quote c then read_token (LQuote c) tok quoted rest
          else read_token LWord (str1 c) quoted rest
      | LQuote q =>
          if Ascii.eqb c q then read_token LWord tok true rest
          else if Ascii.eqb c backslash && Ascii.eqb q double_quote
          then read_token (LEscape (EscQuote q)) tok true rest
          else read_token (LQuote q) (tok +:+ str1 c) true rest
      | LEscape e => read_token (resume e) (tok +:+ escaped_text e c) quoted rest
      | LPunct =>
          if is_lex_space c then
            if truthy tok || quoted then emit tok quoted (Some rest)
            else read_token LSpace tok quoted rest
          else if is_punctuation c then read_token LPunct (tok +:+ str1 c) quoted rest
          else emit tok quoted (Some inp)
      | LWord =>
          if is_lex_space c then
            if truthy tok || quoted then emit tok quoted (Some rest)
            else read_token LSpace tok quoted rest
          else if is_quote c then read_token (LQuote c) tok quoted rest
          else if Ascii.eqb c backslash then read_token (LEscape EscWord) tok quoted rest
          else if is_punctuation c then
            if truthy tok || quoted then emit tok quoted (Some inp)
            else read_token LPunct (str1 c) quoted rest
          else read_token LWord (tok +:+ str1 c) quoted rest
      end
  end.

(** [list(lexer)]: [fuel] bounds the number of tokens. *)
Fixpoint lex_all (fuel : nat) (inp : string) : res (list string) :=
  match fuel with
  | O => Err RecursionError
  | S fuel' =>
      r ← read_token LSpace EmptyString false inp;
      match r with
      | (None, _) => Ok []
      | (Some t, None) => Ok [t]
      | (Some t, Some rest) => ts ← lex_all fuel' rest; Ok (t :: ts)
      end
  end.

Definition shell_tokens (command : string) : res (list string) :=
  let normalized := _normalize_unquoted_newlines command in
  lex_all (S (String.length normalized)) normalized.

(** ** Segments *)

Record split_state := SplitState {
  sp_segments : list (list string);
  sp_operators : list string;
  sp_current : list string;
  sp_depth : nat }.

Definition split_step (s : split_state) (token : string) : split_state :=
  let '(SplitState segments operators current paren_depth) := s in
  if token =s "(" then SplitState segments operators (current ++ [token]) (S paren_depth)
  else if token =s ")" then
    SplitState segments operators (current ++ [token]) (paren_depth - 1)
  else if mem token SEGMENT_OPERATORS && (paren_depth =? 0) then
    match current with
    | [] => s
    | _ => SplitState (segments ++ [current]) (operators ++ [token]) [] paren_depth
    end
  else SplitState segments operators (current ++ [token]) paren_depth.

Definition split_finish (s : split_state) : list (list string) * list string :=
  let '(SplitState segments operators current _) := s in
  let segments := match current with [] => segments | _ => segments ++ [current] end in
  let operators :=
    if length segments <=? length operators
    then take (length segments - 1) operators else operators in
  (segments, operators).

Definition split_tokens (tokens : list string) : list (list string) * list string :=
  split_finish (foldl split_step (SplitState [] [] [] 0) tokens).

Definition split_shell_segments (command : string)
  : res (list (list string) * list string) :=
  tokens ← shell_tokens command; Ok (split_tokens tokens).

Definition segment_text (tokens : list string) : string := join " " tokens.

(** ** Executables and wrappers *)

(** [PurePosixPath(token).name]: the last component that is neither empty nor
    a single dot, and the empty string when there is none. *)
Definition path_name (token : string) : string :=
  default EmptyString
    (last (filter (λ p, mem p [EmptyString; "."] = false) (split_char "/"%char token))).

Definition _basename (token : string) : string :=
  if contains token "/" then path_name token else token.

Definition _is_assignment (token : string) : bool :=
  if negb (contains token "=") || startswith token "=" then false
  else
    let name := fst (split_once "="%char token) in
    truthy name && is_alnum (replace_char "_"%char "a"%char name)
    && negb (match name with String c _ => is_digit_char c | EmptyString => false end).

Fixpoint drop_assignments (l : list string) : list string :=
  match l with
  | t :: l' => if _is_assignment t then drop_assignments l' else l
  | [] => []
  end.

Fixpoint drop_sudo_options (l : list string) : list string :=
  match l with
  | option :: l' =>
      if startswith option "-" then
        if mem option SUDO_OPTIONS_WITH_VALUE then
          match l' with _ :: l'' => drop_sudo_options l'' | [] => [] end
        else drop_sudo_options l'
      else l
  | [] => []
  end.

Fixpoint drop_env_options (l : list string) : list string :=
  match l with
  | t :: l' => if startswith t "-" || _is_assignment t then drop_env_options l' else l
  | [] => []
  end.

Fixpoint drop_dashed (l : list string) : list string :=
  match l with
  | t :: l' => if startswith t "-" then drop_dashed l' else l
  | [] => []
  end.

(** One round of the [while remaining and changed] loop: [Some] when the head
    was a wrapper. *)
Definition strip_one (remaining : list string) : option (list string) :=
  match remaining with
  | [] => None
  | head :: rest =>
      let executable := _basename head in
      if executable =s "sudo" then Some (drop_sudo_options rest)
      else if executable =s "env" then Some (drop_env_options rest)
      else if executable =s "command" then Some (drop_dashed rest)
      else None
  end.

Fixpoint strip_loop (fuel : nat) (remaining : list string) : list string :=
  match fuel with
  | O => remaining
  | S fuel' =>
      match strip_one remaining with
      | Some rest => strip_loop fuel' (drop_assignments rest)
      | None => drop_assignments remaining
      end
  end.

Definition _strip_wrappers (tokens : list string) : list string :=
  strip_loop (S (length tokens)) (drop_assignments tokens).

Definition executable_name_from_tokens (tokens : list string) : option string :=
  match _strip_wrappers tokens with
  | [] => None
  | head :: args =>
      let executable := lower (_basename head) in
      match args with
      | dash_m :: module :: _ =>
          if mem executable ["python"; "python3"] && (dash_m =s "-m")
          then Some (lower (_basename module)) else Some executable
      | _ => Some executable
      end
  end.

Definition executable_name (command : string) : option string :=
  match split_shell_segments command with
  | Err _ => None
  | Ok ([], _) => None
  | Ok (segment :: _, _) => executable_name_from_tokens segment
  end.

Definition command_name_candidates (tokens : list string) : list string :=
  (match tokens with t :: _ => [lower (_basename t)] | [] => [] end)
  ++ (match executable_name_from_tokens tokens with
      | Some effective => if truthy effective then [effective] else []
      | None => []
      end).

(** The loop over [remaining[1:]]: the token after the first [-c] that has one. *)
Fixpoint after_dash_c (l : list string) : option string :=
  match l with
  | t :: l' =>
      if t =s "-c" then
        match l' with script :: _ => Some script | [] => None end
      else after_dash_c l'
  | [] => None
  end.

Definition shell_script_from_tokens (tokens : list string) : option string :=
  match _strip_wrappers tokens with
  | [] => None
  | head :: args =>
      if mem (lower (_basename head)) SHELL_EXECUTABLES then after_dash_c args else None
  end.

(** ** Nested scripts *)

(** [tokens[a:b]] for [a <= b]. *)
Definition slice {A} (a b : nat) (l : list A) : list A := take (b - a) (drop a l).

(** The loop of [grouped_subshells_from_tokens]; [previous] is
    [tokens[index - 1]], the empty string at the first index. *)
Fixpoint grouped_loop (tokens todo : list string) (index depth start : nat)
    (previous : string) : list string :=
  match todo with
  | [] => []
  | token :: todo' =>
      if token =s "(" then
        if depth =? 0 then
          if endswith previous "$"
          then grouped_loop tokens todo' (S index) depth start token
          else grouped_loop tokens todo' (S index) 1 (S index) token
        else grouped_loop tokens todo' (S index) (S depth) start token
      else if (token =s ")") && negb (depth =? 0) then
        if depth - 1 =? 0 then
          let script := strip (segment_text (slice start index tokens)) in
          (if truthy script then [script] else [])
          ++ grouped_loop tokens todo' (S index) 0 start token
        else grouped_loop tokens todo' (S index) (depth - 1) start token
      else grouped_loop tokens todo' (S index) depth start token
  end.

Definition grouped_subshells_from_tokens (tokens : list string) : list string :=
  grouped_loop tokens tokens 0 0 0 EmptyString.

(** The scan after a back quote: the text up to the closing one, and how many
    characters it has. *)
Fixpoint backtick_body (s : string) (inner_escaped : bool) : option string :=
  match s with
  | EmptyString => None
  | String inner s' =>
      if inner_escaped then String inner <$> backtick_body s' false
      else if Ascii.eqb inner backslash then String inner <$> backtick_body s' true
      else if Ascii.eqb inner backtick then Some EmptyString
      else String inner <$> backtick_body s' false
  end.

(** The scan after ["$("]: the text up to the parenthesis that closes it. *)
Fixpoint paren_body (s : string) (depth : nat) (inner_quote : option ascii)
    (inner_escaped : bool) : option string :=
  match s with
  | EmptyString => None
  | String inner s' =>
      if inner_escaped then String inner <$> paren_body s' depth inner_quote false
      else if Ascii.eqb inner backslash && negb (is_quote_of inner_quote single_quote)
      then String inner <$> paren_body s' depth inner_quote true
      else match inner_quote with
      | Some q =>
          String inner <$>
            paren_body s' depth (if Ascii.eqb inner q then None else inner_quote) false
      | None =>
          if is_quote inner then String inner <$> paren_body s' depth (Some inner) false
          else if Ascii.eqb inner "("%char then String inner <$> paren_body s' (S depth) None false
          else if Ascii.eqb inner ")"%char then
            if depth - 1 =? 0 then Some EmptyString
            else String inner <$> paren_body s' (depth - 1) None false
          else String inner <$> paren_body s' depth None false
      end
  end.

Definition report (script : string) : list string :=
  let script := strip script in if truthy script then [script] else [].

(** The loop over [index].  After a complete inner scan the code continues
    behind it; [skip] counts the characters that are still to be passed over. *)
Fixpoint substitutions_loop (command : string) (skip : nat) (quote : option ascii)
    (escaped : bool) : list string :=
  match command with
  | EmptyString => []
  | String char rest =>
      match skip with
      | S skip' => substitutions_loop rest skip' quote escaped
      | O =>
          if escaped then substitutions_loop rest 0 quote false
          else if Ascii.eqb char backslash && negb (is_quote_of quote single_quote)
          then substitutions_loop rest 0 quote true
          else if is_quote_of quote single_quote then
            substitutions_loop rest 0
              (if Ascii.eqb char single_quote then None else quote) false
          else if is_quote_of quote double_quote && Ascii.eqb char double_quote
          then substitutions_loop rest 0 None false
          else if negb (is_quote_of quote double_quote) && is_quote char
          then substitutions_loop rest 0 (Some char) false
          else if Ascii.eqb char backtick then
            match backtick_body rest false with
            | Some body =>
                report body
                ++ substitutions_loop rest (S (String.length body)) quote false
            | None => substitutions_loop rest 0 quote false
            end
          else if Ascii.eqb char "$"%char then
            match rest with
            | String next inner =>
                if Ascii.eqb next "("%char then
                  match paren_body inner 1 None false with
                  | Some body =>
                      report body
                      ++ substitutions_loop rest (S (S (String.length body))) quote false
                  | None => substitutions_loop rest 0 quote false
                  end
                else substitutions_loop rest 0 quote false
            | EmptyString => []
            end
          else substitutions_loop rest 0 quote false
      end
  end.

Definition command_substitutions (command : string) : list string :=
  substitutions_loop command 0 None false.

(** ** The lexer terminates and only raises the two quoting errors *)

Definition quoting_error (e : exn) : bool :=
  bool_decide (e = ValueError "No closing quotation")
  || bool_decide (e = ValueError "No escaped character").

(** Case analysis on the scrutinees of the equation [H], which [emit] ends. *)
Ltac emit_cases H :=
  repeat (match type of H with context [if ?b then _ else _] => destruct b end);
  unfold emit in H; try discriminate H.

Lemma read_token_le inp st tok quoted t rest :
  read_token st tok quoted inp = Ok (t, Some rest) → String.length rest ≤ String.length inp.
Proof.
  revert st tok quoted. induction inp as [|c inp IH]; intros st tok quoted H; cbn in H.
  - by destruct st.
  - destruct st as [| | |q|e]; emit_cases H;
      first [apply IH in H; cbn; lia | injection H as _ <-; cbn; lia].
Qed.

Lemma read_token_lt inp t rest :
  read_token LSpace EmptyString false inp = Ok (t, Some rest) →
  String.length rest < String.length inp.
Proof.
  induction inp as [|c inp IH]; intros H; cbn in H; [done|].
  emit_cases H; first [apply IH in H; cbn; lia | apply read_token_le in H; cbn; lia].
Qed.

Lemma read_token_err inp st tok quoted e :
  read_token st tok quoted inp = Err e → quoting_error e = true.
Proof.
  revert st tok quoted. induction inp as [|c inp IH]; intros st tok quoted H; cbn in H.
  - destruct st; try discriminate H; by injection H as <-.
  - destruct st as [| | |q|esc]; emit_cases H; by apply IH in H.
Qed.

Lemma lex_all_fuel fuel inp :
  String.length inp < fuel →
  (∃ ts, lex_all fuel inp = Ok ts) ∨ (∃ e, lex_all fuel inp = Err e ∧ quoting_error e = true).
Proof.
  revert inp. induction fuel as [|fuel IH]; intros inp Hlen; [lia|]. cbn.
  destruct (read_token LSpace EmptyString false inp) as [[[t|] [rest|]]|e] eqn:Hr;
    cbn; eauto using read_token_err.
  apply read_token_lt in Hr.
  destruct (IH rest) as [[ts ->]|(e & -> & He)]; [lia|left; cbn; eauto|right; cbn; eauto].
Qed.

(** The lexer loop does not depend on the bound once it exceeds the length. *)
Lemma lex_all_stable f1 f2 inp :
  String.length inp < f1 → String.length inp < f2 → lex_all f1 inp = lex_all f2 inp.
Proof.
  revert f2 inp. induction f1 as [|f1 IH]; intros [|f2] inp H1 H2; try lia. cbn.
  destruct (read_token LSpace EmptyString false inp) as [[[t|] [rest|]]|e] eqn:Hr;
    cbn; try done.
  apply read_token_lt in Hr.
  rewrite (IH f2); [done|lia|lia].
Qed.

(** ** Words survive tokenisation *)

Definition plain_char (c : ascii) : bool :=
  negb (is_lex_space c) && negb (is_quote c) && negb (Ascii.eqb c backslash)
  && negb (is_punctuation c).
Definition plain_word (w : string) : bool := truthy w && str_forall plain_char w.

Lemma plain_char_facts c :
  plain_char c = true →
  is_lex_space c = false ∧ is_quote c = false ∧ Ascii.eqb c backslash = false ∧
  is_punctuation c = false ∧ Ascii.eqb c newline = false.
Proof.
  unfold plain_char. intros H. split_bools. repeat split; try done.
  match goal with H : is_lex_space c = false |- _ => unfold is_lex_space in H end.
  by split_bools.
Qed.

Lemma normalize_plain s t :
  str_forall (λ c, plain_char c || Ascii.eqb c " "%char) s = true →
  normalize_aux None false (s +:+ t) = s +:+ normalize_aux None false t.
Proof.
  induction s as [|c s IH]; [done|]. intros [Hc Hs]%andb_true_iff.
  rewrite !str_app_cons. cbn. rewrite (IH Hs).
  apply orb_true_iff in Hc as [Hc%plain_char_facts|Hc].
  - destruct Hc as (_ & -> & -> & _ & ->). done.
  - apply Ascii.eqb_eq in Hc as ->. done.
Qed.

Lemma truthy_app s c : truthy (s +:+ str1 c) = true.
Proof. by destruct s. Qed.

Lemma read_token_word w tok rest :
  str_forall plain_char w = true → truthy tok = true →
  read_token LWord tok false (w +:+ String " " rest) = Ok (Some (tok +:+ w), Some rest).
Proof.
  revert tok. induction w as [|c w IH]; intros tok Hw Htok.
  - change (EmptyString +:+ String " " rest) with (String " " rest). cbn.
    unfold emit. rewrite Htok, str_app_nil_r. done.
  - cbn in Hw. apply andb_true_iff in Hw as [Hc Hw].
    apply plain_char_facts in Hc as (H1 & H2 & H3 & H4 & _).
    rewrite str_app_cons. cbn. rewrite H1, H2, H3, H4.
    rewrite IH; [|done|apply truthy_app]. by rewrite str_app_assoc.
Qed.

Lemma read_token_last w tok :
  str_forall plain_char w = true → truthy tok = true →
  read_token LWord tok false w = Ok (Some (tok +:+ w), None).
Proof.
  revert tok. induction w as [|c w IH]; intros tok Hw Htok.
  - cbn. unfold emit. by rewrite Htok, str_app_nil_r.
  - cbn in Hw. apply andb_true_iff in Hw as [Hc Hw].
    apply plain_char_facts in Hc as (H1 & H2 & H3 & H4 & _).
    cbn. rewrite H1, H2, H3, H4.
    rewrite IH; [|done|apply truthy_app]. by rewrite str_app_assoc.
Qed.

Lemma segment_text_cons2 w v ws :
  segment_text (w :: v :: ws) = w +:+ String " " (segment_text (v :: ws)).
Proof. reflexivity. Qed.

Lemma lex_all_plain fuel ws :
  length ws < fuel → Forall (λ w, plain_word w = true) ws →
  lex_all fuel (segment_text ws) = Ok ws.
Proof.
  revert ws. induction fuel as [|fuel IH]; intros ws Hf Hall; [lia|].
  destruct Hall as [|w ws Hw Hall]; [done|].
  unfold plain_word in Hw. apply andb_true_iff in Hw as [Ht Hw].
  destruct w as [|c w]; [done|]. cbn in Hw. apply andb_true_iff in Hw as [Hc Hw].
  apply plain_char_facts in Hc as (H1 & H2 & H3 & H4 & _).
  destruct ws as [|v ws].
  - change (segment_text [String c w]) with (String c w).
    cbn. rewrite H1, H3, H4, H2. rewrite read_token_last by done. done.
  - rewrite segment_text_cons2, str_app_cons.
    cbn -[segment_text]. rewrite H1, H3, H4, H2.
    rewrite read_token_word by done. cbn -[segment_text].
    rewrite IH; [done| cbn in *; lia |done].
Qed.

Lemma length_str_app (s t : string) :
  String.length (s +:+ t) = String.length s + String.length t.
Proof. induction s as [|c s IH]; [done|]. rewrite str_app_cons. cbn. by rewrite IH. Qed.

Lemma plain_words_text ws :
  Forall (λ w, plain_word w = true) ws →
  str_forall (λ c, plain_char c || Ascii.eqb c " "%char) (segment_text ws) = true
  ∧ length ws ≤ String.length (segment_text ws).
Proof.
  assert (∀ w, plain_word w = true →
    str_forall (λ c, plain_char c || Ascii.eqb c " "%char) w = true ∧ 0 < String.length w)
    as Hword.
  { intros w [Ht Hw]%andb_true_iff. split; [|destruct w; cbn in *; [done|lia]].
    clear Ht. induction w as [|c w IH]; [done|]. cbn in *.
    apply andb_true_iff in Hw as [-> Hw]. by rewrite IH. }
  assert (∀ s t, str_forall (λ c, plain_char c || Ascii.eqb c " "%char) (s +:+ t)
    = str_forall (λ c, plain_char c || Ascii.eqb c " "%char) s
      && str_forall (λ c, plain_char c || Ascii.eqb c " "%char) t) as Happ.
  { induction s as [|c s IH]; intros t; [done|]. rewrite str_app_cons. cbn.
    by rewrite IH, andb_assoc. }
  induction 1 as [|w ws Hw Hall [IH IHlen]]; [split; [done|cbn; lia]|].
  destruct (Hword w Hw) as [Hc Hlen]. destruct ws as [|v ws].
  - cbn in *. split; [done|lia].
  - rewrite segment_text_cons2, Happ, Hc, length_str_app. cbn -[segment_text] in *.
    rewrite IH. split; [done|lia].
Qed.

Lemma shell_tokens_errors command :
  (∃ tokens, shell_tokens command = Ok tokens)
  ∨ shell_tokens command = Err (ValueError "No closing quotation")
  ∨ shell_tokens command = Err (ValueError "No escaped character").
Proof.
  unfold shell_tokens. set (n := _normalize_unquoted_newlines command).
  destruct (lex_all_fuel (S (String.length n)) n) as [[ts ->]|(e & -> & He)]; [lia|eauto|].
  unfold quoting_error in He. apply orb_true_iff in He as [He|He];
    apply bool_decide_eq_true in He as ->; auto.
Qed.

Lemma split_shell_total command :
  (∃ p, split_shell_segments command = Ok p)
  ∨ ∃ message, split_shell_segments command = Err (ValueError message).
Proof.
  unfold split_shell_segments.
  destruct (shell_tokens_errors command) as [[ts ->]|[->| ->]]; cbn; eauto.
Qed.

(** Tokenising a command terminates, and the only errors it raises are the
    two [ValueError]s of the lexer: the bound of the model (one token per input
    character) is never exhausted and any larger bound gives the same result. *)
Theorem shell_tokens_total (command : string) :
  ((∃ tokens, shell_tokens command = Ok tokens)
   ∨ shell_tokens command = Err (ValueError "No closing quotation")
   ∨ shell_tokens command = Err (ValueError "No escaped character")) ∧
  ∀ fuel, String.length (_normalize_unquoted_newlines command) < fuel →
    lex_all fuel (_normalize_unquoted_newlines command) = shell_tokens command.
Proof.
  split; [apply shell_tokens_errors|].
  intros fuel Hf. apply lex_all_stable; lia.
Qed.

(** round trip: a list of words without white space, quotes, escapes or
    shell punctuation is exactly what tokenising its [segment_text] gives back.
    Nested scripts rely on it: a grouped subshell is joined and parsed again. *)
Theorem shell_tokens_segment_text (ws : list string) :
  Forall (λ w, plain_word w = true) ws → shell_tokens (segment_text ws) = Ok ws.
Proof.
  intros Hall. destruct (plain_words_text ws Hall) as [Hc Hlen].
  unfold shell_tokens, _normalize_unquoted_newlines.
  rewrite <- (str_app_nil_r (segment_text ws)), normalize_plain by done.
  change (normalize_aux None false EmptyString) with EmptyString.
  rewrite str_app_nil_r. apply lex_all_plain; [lia|done].
Qed.

Lemma shell_tokens_segment_text_witness :
  Forall (λ w, plain_word w = true) ["git"; "push"; "--force"; "origin/main"] ∧
  shell_tokens "git push --force origin/main" = Ok ["git"; "push"; "--force"; "origin/main"].
Proof.
  split; [repeat constructor|].
  apply (shell_tokens_segment_text ["git"; "push"; "--force"; "origin/main"]).
  repeat constructor.
Defined.

(** ** Segmentation *)

(** The tokens without the operators that stand outside parentheses. *)
Fixpoint drop_operators (paren_depth : nat) (tokens : list string) : list string :=
  match tokens with
  | [] => []
  | token :: tokens' =>
      if token =s "(" then token :: drop_operators (S paren_depth) tokens'
      else if token =s ")" then token :: drop_operators (paren_depth - 1) tokens'
      else if mem token SEGMENT_OPERATORS && (paren_depth =? 0)
      then drop_operators paren_depth tokens'
      else token :: drop_operators paren_depth tokens'
  end.

(** The parenthesis depth after some tokens. *)
Definition depth_step (paren_depth : nat) (token : string) : nat :=
  if token =s "(" then S paren_depth
  else if token =s ")" then paren_depth - 1 else paren_depth.
Definition depth_after : nat → list string → nat := foldl depth_step.

Lemma drop_operators_app d l k :
  drop_operators d (l ++ k) = drop_operators d l ++ drop_operators (depth_after d l) k.
Proof.
  revert d. induction l as [|t l IH]; intros d; [done|]. cbn.
  unfold depth_step. repeat case_match; rewrite ?IH; done.
Qed.

Record split_inv (seen : list string) (s : split_state) : Prop := {
  si_tokens : drop_operators 0 seen = concat (sp_segments s) ++ sp_current s;
  si_depth : sp_depth s = depth_after 0 seen;
  si_cur_depth : sp_depth s = depth_after 0 (sp_current s);
  si_operators : length (sp_operators s) = length (sp_segments s);
  si_operators_known : Forall (λ o, mem o SEGMENT_OPERATORS = true) (sp_operators s);
  si_nonempty : Forall (λ seg, seg ≠ [] ∧ drop_operators 0 seg = seg) (sp_segments s);
  si_current : drop_operators 0 (sp_current s) = sp_current s }.

Lemma split_step_inv seen s token :
  split_inv seen s → split_inv (seen ++ [token]) (split_step s token).
Proof.
  destruct s as [segs ops cur d]. intros [Htok Hd Hcd Hlen Hops Hne Hcur]; cbn in *.
  unfold split_step, depth_after in *.
  assert (∀ l, drop_operators 0 (l ++ [token])
    = drop_operators 0 l ++ drop_operators (depth_after 0 l) [token]) as Happ.
  { intros l. apply drop_operators_app. }
  unfold depth_after in Happ.
  destruct (token =s "(") eqn:E1; [|destruct (token =s ")") eqn:E2;
    [|destruct (mem token SEGMENT_OPERATORS && (d =? 0)) eqn:E3]].
  1, 2, 4: assert (∀ k, foldl depth_step 0 (k ++ [token])
      = depth_step (foldl depth_step 0 k) token) as Hstep by (intros k; by rewrite foldl_app);
    assert (∀ k, depth_step k token
      = if token =s "(" then S k else if token =s ")" then k - 1 else k) as Hone by done;
    rewrite E1 in Hone; try rewrite E2 in Hone;
    split; cbn; rewrite ?Hstep, ?Hone, <- ?Hd, <- ?Hcd, ?Happ, <- ?Hd, <- ?Hcd; cbn;
    rewrite ?E1, ?E2, ?E3, ?Htok, ?Hcur, ?app_assoc; try done.
  apply andb_true_iff in E3 as [Hop Hz]. apply Nat.eqb_eq in Hz as ->.
  assert (drop_operators 0 (seen ++ [token]) = concat segs ++ cur) as Htok'.
  { rewrite Happ, <- Hd. cbn. rewrite E1, E2, Hop. cbn. by rewrite app_nil_r. }
  assert (0 = foldl depth_step 0 (seen ++ [token])) as Hd'.
  { rewrite foldl_app, <- Hd. cbn. unfold depth_step. by rewrite E1, E2. }
  destruct cur as [|t cur]; split; cbn; try done.
  - by rewrite concat_app, Htok'; cbn; rewrite !app_nil_r.
  - rewrite !length_app. cbn. lia.
  - apply Forall_app; auto.
  - apply Forall_app; split; [done|]. by constructor.
Qed.

Lemma split_fold_inv tokens seen s :
  split_inv seen s → split_inv (seen ++ tokens) (foldl split_step s tokens).
Proof.
  revert seen s. induction tokens as [|t tokens IH]; intros seen s Hs; cbn.
  - by rewrite app_nil_r.
  - rewrite (cons_middle t seen tokens), app_assoc. apply IH. by apply split_step_inv.
Qed.

Lemma split_tokens_inv tokens :
  split_inv tokens (foldl split_step (SplitState [] [] [] 0) tokens).
Proof. apply (split_fold_inv tokens []). by split. Qed.

(** Segmentation loses and invents nothing: the segments are the tokens in
    order without the operators outside parentheses, no segment is empty or
    still holds such an operator, and exactly one known operator is kept
    between neighbouring segments. *)
Theorem split_tokens_correct (tokens : list string) :
  let '(segments, operators) := split_tokens tokens in
  concat segments = drop_operators 0 tokens ∧
  Forall (λ seg, seg ≠ [] ∧ drop_operators 0 seg = seg) segments ∧
  length operators = length segments - 1 ∧
  Forall (λ o, o ∈ SEGMENT_OPERATORS) operators.
Proof.
  pose proof (split_tokens_inv tokens) as Hinv. unfold split_tokens.
  destruct (foldl _ _ _) as [segs ops cur d].
  destruct Hinv as [Htok _ _ Hlen Hops Hne Hcur]; cbn in *.
  assert (Forall (λ o, o ∈ SEGMENT_OPERATORS) ops) as Hops'.
  { eapply Forall_impl; [exact Hops|]. intros o. apply mem_elem_of. }
  destruct cur as [|t cur]; cbn.
  - rewrite app_nil_r in Htok. case_match eqn:Hle.
    + repeat split; [done|done|rewrite length_take; lia|by apply Forall_take].
    + apply Nat.leb_gt in Hle. lia.
  - rewrite length_app; cbn. case_match eqn:Hle.
    + apply Nat.leb_le in Hle. lia.
    + repeat split; [|apply Forall_app; split; [done|by constructor]|lia|done].
      by rewrite concat_app, Htok; cbn; rewrite app_nil_r.
Qed.

(** ** Wrappers *)

Definition WRAPPERS : list string := ["sudo"; "env"; "command"].

(** The head of a stripped command is neither an assignment nor a wrapper. *)
Definition wrapper_free (tokens : list string) : Prop :=
  match tokens with
  | [] => True
  | head :: _ => _is_assignment head = false ∧ _basename head ∉ WRAPPERS
  end.

Lemma drop_assignments_suffix l : drop_assignments l `suffix_of` l.
Proof.
  induction l as [|t l IH]; [done|]. cbn. case_match; [|done].
  by apply suffix_cons_r.
Qed.
Lemma drop_env_options_suffix l : drop_env_options l `suffix_of` l.
Proof. induction l as [|t l IH]; [done|]. cbn. case_match; [|done]. by apply suffix_cons_r. Qed.
Lemma drop_dashed_suffix l : drop_dashed l `suffix_of` l.
Proof. induction l as [|t l IH]; [done|]. cbn. case_match; [|done]. by apply suffix_cons_r. Qed.
Lemma drop_sudo_options_suffix l : drop_sudo_options l `suffix_of` l.
Proof.
  induction l as [l IH] using (induction_ltof1 _ (@length string)).
  unfold ltof in IH. destruct l as [|t l]; [done|]. cbn.
  case_match; [|done]. case_match.
  - destruct l as [|v l]; [apply suffix_nil|].
    do 2 apply suffix_cons_r. apply IH. cbn. lia.
  - apply suffix_cons_r. apply IH. cbn. lia.
Qed.
#[local] Hint Resolve drop_assignments_suffix drop_env_options_suffix drop_dashed_suffix
  drop_sudo_options_suffix : ordin.

Lemma strip_one_suffix l k :
  strip_one l = Some k → ∃ head rest, l = head :: rest ∧ k `suffix_of` rest.
Proof.
  destruct l as [|t l]; [done|]. cbn. intros H. exists t, l.
  repeat case_match; simplify_eq; auto with ordin.
Qed.

Lemma strip_one_None l : strip_one l = None → ∀ head rest,
  l = head :: rest → _basename head ∉ WRAPPERS.
Proof.
  intros H head rest ->. cbn in H. repeat case_match; simplify_eq.
  rewrite <- mem_false. unfold mem, WRAPPERS. cbn.
  by repeat match goal with H : (_ =s _) = false |- _ => rewrite H; clear H end.
Qed.

Lemma drop_assignments_head l head rest :
  drop_assignments l = head :: rest → _is_assignment head = false.
Proof. induction l as [|t l IH]; cbn; [done|]. case_match; naive_solver. Qed.

Lemma drop_assignments_idemp l : drop_assignments (drop_assignments l) = drop_assignments l.
Proof. induction l as [|t l IH]; [done|]. cbn. case_match eqn:E; [done|]. cbn. by rewrite E. Qed.

Lemma strip_loop_spec fuel l :
  length l < fuel → drop_assignments l = l →
  wrapper_free (strip_loop fuel l) ∧ strip_loop fuel l `suffix_of` l.
Proof.
  revert l. induction fuel as [|fuel IH]; intros l Hlen Hl; [lia|]. cbn.
  destruct (strip_one l) as [k|] eqn:Hone.
  - apply strip_one_suffix in Hone as (head & rest & -> & Hk).
    assert (length k ≤ length rest) by by apply suffix_length.
    assert (length (drop_assignments k) ≤ length k).
    { apply suffix_length, drop_assignments_suffix. }
    destruct (IH (drop_assignments k)) as [Hfree Hsuf];
      [cbn in *; lia|apply drop_assignments_idemp|].
    split; [done|]. etrans; [exact Hsuf|]. etrans; [apply drop_assignments_suffix|].
    by apply suffix_cons_r.
  - rewrite Hl. split; [|done]. destruct l as [|head rest]; [done|]. split.
    + by apply drop_assignments_head in Hl.
    + by eapply strip_one_None.
Qed.

Lemma strip_loop_id fuel l : wrapper_free l → strip_loop fuel l = l.
Proof.
  intros Hl. destruct fuel as [|fuel]; [done|]. cbn.
  destruct l as [|head rest]; [done|]. destruct Hl as [Ha Hw]. cbn.
  apply mem_false in Hw. unfold mem, WRAPPERS in Hw. cbn in Hw. split_bools.
  repeat match goal with H : (_ =s _) = false |- _ => rewrite H; clear H end.
  by rewrite Ha.
Qed.

(** Unwrapping is complete: whatever prefix of assignments and of [sudo],
    [env] and [command] wrappers (with their options) a command carries, what
    is left is a suffix of the command that starts with neither, and unwrapping
    it again changes nothing.  Analyzers and rules therefore see the wrapped
    executable. *)
Theorem strip_wrappers_complete (tokens : list string) :
  _strip_wrappers tokens `suffix_of` tokens ∧
  wrapper_free (_strip_wrappers tokens) ∧
  _strip_wrappers (_strip_wrappers tokens) = _strip_wrappers tokens.
Proof.
  assert (length (drop_assignments tokens) ≤ length tokens) as Hlen.
  { apply suffix_length, drop_assignments_suffix. }
  destruct (strip_loop_spec (S (length tokens)) (drop_assignments tokens)) as [Hfree Hsuf];
    [lia|apply drop_assignments_idemp|].
  fold (_strip_wrappers tokens) in *. repeat split.
  - etrans; [exact Hsuf|]. apply drop_assignments_suffix.
  - done.
  - set (l := _strip_wrappers tokens) in *. unfold _strip_wrappers at 1.
    assert (drop_assignments l = l) as ->.
    { destruct l as [|head rest]; [done|]. cbn. destruct Hfree as [-> _]. done. }
    by apply strip_loop_id.
Qed.

(** ** Substitutions *)

(** Characters that no scan of [command_substitutions] reacts to outside single
    quotes, and those that the inner scan copies. *)
Definition inert_char (c : ascii) : bool :=
  negb (Ascii.eqb c backslash) && negb (is_quote c) && negb (Ascii.eqb c backtick)
  && negb (Ascii.eqb c "$"%char).
Definition inner_char (c : ascii) : bool :=
  negb (Ascii.eqb c backslash) && negb (is_quote c)
  && negb (Ascii.eqb c "("%char) && negb (Ascii.eqb c ")"%char).

Lemma substitutions_skip s t q e :
  substitutions_loop (s +:+ t) (String.length s) q e = substitutions_loop t 0 q e.
Proof. induction s as [|c s IH]; [done|]. rewrite str_app_cons. done. Qed.

Lemma is_quote_of_single q c :
  is_quote c = false → is_quote_of q single_quote = false →
  is_quote_of q double_quote && Ascii.eqb c double_quote = false.
Proof.
  unfold is_quote. intros [_ ->]%orb_false_iff _. by rewrite andb_false_r.
Qed.

Lemma substitutions_inert s t q :
  str_forall inert_char s = true → is_quote_of q single_quote = false →
  substitutions_loop (s +:+ t) 0 q false = substitutions_loop t 0 q false.
Proof.
  intros Hs Hq. induction s as [|c s IH]; [done|].
  cbn in Hs. apply andb_true_iff in Hs as [Hc Hs].
  unfold inert_char in Hc. split_bools.
  assert (is_quote_of q double_quote && Ascii.eqb c double_quote = false) as Hdq
    by by apply is_quote_of_single.
  rewrite str_app_cons. cbn.
  repeat match goal with H : _ = false |- _ => rewrite H end.
  cbn. rewrite ?Hq, ?Hdq, ?andb_false_r. by apply IH.
Qed.

Lemma paren_body_inner s t :
  str_forall inner_char s = true →
  paren_body (s +:+ String ")" t) 1 None false = Some s.
Proof.
  intros Hs. induction s as [|c s IH]; [done|].
  cbn in Hs. apply andb_true_iff in Hs as [Hc Hs]. unfold inner_char in Hc. split_bools.
  rewrite str_app_cons. cbn.
  repeat match goal with H : _ = false |- _ => rewrite H end.
  by rewrite (IH Hs).
Qed.

Lemma substitution_step body post q :
  is_quote_of q single_quote = false → str_forall inner_char body = true →
  substitutions_loop ("$(" +:+ body +:+ String ")" post) 0 q false =
  report body ++ substitutions_loop post 0 q false.
Proof.
  intros Hq Hb. rewrite !str_app_cons. cbn [String.append].
  change (substitutions_loop (String "$" (String "(" (body +:+ String ")" post))) 0 q false =
    report body ++ substitutions_loop post 0 q false).
  cbn. rewrite Hq, !andb_false_r. cbn.
  rewrite paren_body_inner by done. f_equal.
  change (String ")" post) with (str1 ")"%char +:+ post).
  rewrite <- str_app_assoc.
  replace (S (String.length body)) with (String.length (body +:+ str1 ")"%char))
    by (rewrite length_str_app; cbn; lia).
  apply substitutions_skip.
Qed.

(** a command substitution is found and its script reported, whether it
    stands in the open or between double quotes, whatever inert text precedes
    it; the search then goes on behind it.  Between single quotes nothing is
    ever reported. *)
Theorem command_substitutions_found (pre body post : string) (between_quotes : bool) :
  str_forall inert_char pre = true → str_forall inner_char body = true →
  command_substitutions
    (pre +:+ (if between_quotes then str1 double_quote else EmptyString)
     +:+ "$(" +:+ body +:+ String ")"
       ((if between_quotes then str1 double_quote else EmptyString) +:+ post)) =
  report body ++ command_substitutions post.
Proof.
  intros Hpre Hbody. unfold command_substitutions.
  rewrite substitutions_inert by done. destruct between_quotes.
  - change (substitutions_loop (String double_quote ("$(" +:+ body +:+
      String ")" (String double_quote post))) 0 None false =
      report body ++ substitutions_loop post 0 None false).
    transitivity (substitutions_loop ("$(" +:+ body +:+ String ")" (String double_quote post))
      0 (Some double_quote) false); [done|].
    by rewrite substitution_step.
  - change (EmptyString +:+ ?s) with s. by apply substitution_step.
Qed.

Lemma command_substitutions_found_witness :
  command_substitutions (String.append "echo " (String.append (str1 double_quote)
    (String.append "$(" (String.append "rm -rf /" (String ")"
      (String.append (str1 double_quote) " && ls")))))) =
  ["rm -rf /"] ++ [].
Proof.
  exact (command_substitutions_found "echo " "rm -rf /" " && ls" true eq_refl eq_refl).
Defined.

Lemma substitutions_single_quoted s t :
  str_forall (λ c, negb (Ascii.eqb c single_quote)) s = true →
  substitutions_loop (s +:+ String single_quote t) 0 (Some single_quote) false =
  substitutions_loop t 0 None false.
Proof.
  intros Hs. induction s as [|c s IH].
  - change (EmptyString +:+ ?u) with u. done.
  - cbn in Hs. apply andb_true_iff in Hs as [Hc Hs]. apply negb_true_iff in Hc.
    rewrite str_app_cons. cbn. rewrite Hc.
    by destruct (Ascii.eqb c backslash); apply IH.
Qed.

(** Text between single quotes contributes no substitution. *)
Theorem command_substitutions_quoted (pre s post : string) :
  str_forall inert_char pre = true →
  str_forall (λ c, negb (Ascii.eqb c single_quote)) s = true →
  command_substitutions (pre +:+ String single_quote (s +:+ String single_quote post)) =
  command_substitutions post.
Proof.
  intros Hpre Hs. unfold command_substitutions.
  rewrite substitutions_inert by done.
  transitivity (substitutions_loop (s +:+ String single_quote post) 0 (Some single_quote) false);
    [done|]. by apply substitutions_single_quoted.
Qed.

Lemma command_substitutions_quoted_witness :
  command_substitutions (String.append "echo " (String single_quote
    (String.append "$(id)" (String single_quote " $(pwd)")))) =
  command_substitutions " $(pwd)".
Proof. exact (command_substitutions_quoted "echo " "$(id)" " $(pwd)" eq_refl eq_refl). Defined.
