(* ===== verification/Context.v ===== *)
(** * Execution contexts and action traces ([ordin/context.py], [ordin/trace.py])

    The path functions are those of the standard library's [posixpath]. *)
From stdpp Require Import base list strings sets.
From Stdlib Require Import Bool Ascii ZArith Lia.
From S2P Require Import Prelude PyStr Json.
#[local] Open Scope py_scope.

(** ** [posixpath] *)

Definition slash : ascii := "/"%char.
#[global] Arguments slash : simpl never.

Definition isabs (path : string) : bool := startswith path "/".

(** One component of [normpath]'s loop over [new_comps]. *)
Definition norm_step (initial_slashes : nat) (new_comps : list string) (comp : string)
  : list string :=
  if mem comp [EmptyString; "."] then new_comps
  else if negb (comp =s "..")
          || ((initial_slashes =? 0) && bool_decide (new_comps = []))
          || opt_is (last new_comps) ".."
  then new_comps ++ [comp]
  else removelast new_comps.

Definition initial_slashes (path : string) : nat :=
  if startswith path "/" then
    if startswith path "//" && negb (startswith path "///") then 2 else 1
  else 0.

Definition normpath (path : string) : string :=
  if negb (truthy path) then "."
  else
    let n := initial_slashes path in
    let new_comps := foldl (norm_step n) [] (split_char slash path) in
    let result := String.append (String.concat EmptyString (replicate n "/"))
                                (join "/" new_comps) in
    if truthy result then result else ".".

Definition path_join (a b : string) : string :=
  if startswith b "/" then b
  else if negb (truthy a) || endswith a "/" then a +:+ b
  else a +:+ "/" +:+ b.

Fixpoint common_prefix (l k : list string) : list string :=
  match l, k with
  | x :: l', y :: k' => if x =s y then x :: common_prefix l' k' else []
  | _, _ => []
  end.

(** [commonpath] of two paths. *)
Definition components (path : string) : list string :=
  filter (λ c, mem c [EmptyString; "."] = false) (split_char slash path).
Definition commonpath2 (p q : string) : res string :=
  if Bool.eqb (isabs p) (isabs q) then
    Ok ((if isabs p then "/" else EmptyString)
        +:+ join "/" (common_prefix (components p) (components q)))
  else Err (ValueError "Can't mix absolute and relative paths").

(** ** [ExecutionContext] *)

Record ExecutionContext := {
  cwd : option string;
  shell : option string;
  euid : option Z;
  interactive : option bool;
  repo_root : option string;
  agent : option string }.

(** [__post_init__]: the types of the fields are those of the record, what is
    left to check is the sign of the user id. *)
Definition ExecutionContext_post_init (c : ExecutionContext) : res ExecutionContext :=
  match euid c with
  | Some u => if (u <? 0)%Z
              then Err (ValueError "context.euid must be a non-negative integer or null")
              else Ok c
  | None => Ok c
  end.

Definition opt_json {A} (f : A → json) (o : option A) : json :=
  match o with Some a => f a | None => JNull end.

Definition ExecutionContext_as_dict (c : ExecutionContext) : json :=
  JObj [("cwd", jstr (cwd c)); ("shell", jstr (shell c));
        ("euid", opt_json JInt (euid c)); ("interactive", opt_json JBool (interactive c));
        ("repo_root", jstr (repo_root c)); ("agent", jstr (agent c))].

Definition CONTEXT_FIELDS : list string :=
  ["cwd"; "shell"; "euid"; "interactive"; "repo_root"; "agent"].

Definition context_str (payload : json) (key : string) : res (option string) :=
  opt_str_field (jget payload key) ("context." +:+ key +:+ " must be a string or null").

Definition ExecutionContext_from_dict (payload : json) : res (option ExecutionContext) :=
  match payload with
  | JNull => Ok None
  | _ =>
      if negb (is_mapping payload) then Err (ValueError "context must be a JSON object") else
      _ ← reject_unknown payload CONTEXT_FIELDS "context";
      euid ← opt_int_field (jget payload "euid") "context.euid must be an integer or null";
      interactive ← opt_bool_field (jget payload "interactive")
                      "context.interactive must be a boolean or null";
      cwd ← context_str payload "cwd";
      shell ← context_str payload "shell";
      repo_root ← context_str payload "repo_root";
      agent ← context_str payload "agent";
      c ← ExecutionContext_post_init (Build_ExecutionContext cwd shell euid interactive
                                        repo_root agent);
      Ok (Some c)
  end.

Definition is_elevated (c : ExecutionContext) : option bool :=
  match euid c with None => None | Some u => Some (u =? 0)%Z end.

Definition resolve_path (c : ExecutionContext) (target : string) : option string :=
  if negb (truthy target) || mem target ["filesystem.target"; "<unknown>"] then None
  else if startswith target "~" then None
  else if isabs target then Some (normpath target)
  else match cwd c with
       | Some d => if negb (truthy d) || negb (isabs d) then None
                   else Some (normpath (path_join d target))
       | None => None
       end.

Definition path_within_repo (c : ExecutionContext) (path : string) : option bool :=
  match repo_root c with
  | None => None
  | Some root =>
      if negb (truthy root) || negb (isabs root) || negb (isabs path) then None
      else
        let normalized_path := normpath path in
        let normalized_root := normpath root in
        match commonpath2 normalized_path normalized_root with
        | Ok common => Some (common =s normalized_root)
        | Err _ => Some false
        end
  end.

(** ** [TraceAction] and [ActionTrace] *)

Definition MAX_TRACE_ACTIONS : nat := 32.
Definition ACTION_TRACE_SCHEMA_VERSION : string := "ordin.action_trace.v1".

Record TraceAction := { trace_command : string }.
Record ActionTrace := { trace_actions : list TraceAction }.

(** [__post_init__] of both classes. *)
Definition mk_TraceAction (command : string) : res TraceAction :=
  if negb (truthy (strip command))
  then Err (ValueError "trace action requires non-empty command text")
  else Ok {| trace_command := command |}.
Definition mk_ActionTrace (actions : list TraceAction) : res ActionTrace :=
  if MAX_TRACE_ACTIONS <? length actions
  then Err (ValueError "trace maximum is 32 actions")
  else Ok {| trace_actions := actions |}.

Definition TraceAction_as_dict (a : TraceAction) : json :=
  JObj [("command", JStr (trace_command a))].
Definition ActionTrace_as_dict (t : ActionTrace) : json :=
  JObj [("schema_version", JStr ACTION_TRACE_SCHEMA_VERSION);
        ("actions", JArr (map TraceAction_as_dict (trace_actions t)))].

Definition TraceAction_from_dict (payload : json) : res TraceAction :=
  if negb (is_mapping payload) then Err (ValueError "trace action must be a JSON object") else
  _ ← reject_unknown payload ["command"] "trace action";
  match jget payload "command" with
  | JStr command => mk_TraceAction command
  | _ => Err (ValueError "trace action requires non-empty command text")
  end.

Definition ActionTrace_from_dict (payload : json) : res (option ActionTrace) :=
  match payload with
  | JNull => Ok None
  | _ =>
      if negb (is_mapping payload) then Err (ValueError "trace must be a JSON object") else
      _ ← reject_unknown payload ["schema_version"; "actions"] "action trace";
      _ ← match jget payload "schema_version" with
          | JNull => Ok tt
          | JStr v => guard_or (v =s ACTION_TRACE_SCHEMA_VERSION)
                        (ValueError ("unsupported action trace schema: " +:+ repr v))
          | _ => Err (ValueError "unsupported action trace schema")
          end;
      match jget payload "actions" with
      | JArr raw_actions =>
          if MAX_TRACE_ACTIONS <? length raw_actions
          then Err (ValueError "trace contains too many actions; maximum is 32")
          else
            actions ← all_ok (map TraceAction_from_dict raw_actions);
            t ← mk_ActionTrace actions;
            Ok (Some t)
      | _ => Err (ValueError "trace.actions must be an array")
      end
  end.

(** ** [ReviewRequest] *)

Definition REVIEW_REQUEST_SCHEMA_VERSION : string := "ordin.review_request.v1".

Record ReviewRequest := {
  rq_command : string;
  rq_intent : option string;
  rq_context : option ExecutionContext;
  rq_trace : option ActionTrace }.

Definition ReviewRequest_post_init (r : ReviewRequest) : res ReviewRequest :=
  if negb (truthy (strip (rq_command r)))
  then Err (ValueError "review request requires non-empty command text")
  else Ok r.

Definition ReviewRequest_as_dict (r : ReviewRequest) : json :=
  JObj [("schema_version", JStr REVIEW_REQUEST_SCHEMA_VERSION);
        ("command", JStr (rq_command r));
        ("intent", jstr (rq_intent r));
        ("context", opt_json ExecutionContext_as_dict (rq_context r));
        ("trace", opt_json ActionTrace_as_dict (rq_trace r))].

Definition ReviewRequest_from_dict (payload : json) : res ReviewRequest :=
  if negb (is_mapping payload) then Err (ValueError "review request must be a JSON object") else
  _ ← reject_unknown payload ["schema_version"; "command"; "intent"; "context"; "trace"]
        "review request";
  _ ← match jget payload "schema_version" with
      | JNull => Ok tt
      | JStr v => guard_or (v =s REVIEW_REQUEST_SCHEMA_VERSION)
                    (ValueError ("unsupported review request schema: " +:+ repr v))
      | _ => Err (ValueError "unsupported review request schema")
      end;
  command ← match jget payload "command" with
            | JStr command =>
                if negb (truthy (strip command))
                then Err (ValueError "review request requires non-empty command text")
                else Ok command
            | _ => Err (ValueError "review request requires non-empty command text")
            end;
  intent ← opt_str_field (jget payload "intent") "review request intent must be a string or null";
  context ← ExecutionContext_from_dict (jget payload "context");
  trace ← ActionTrace_from_dict (jget payload "trace");
  ReviewRequest_post_init (Build_ReviewRequest command intent context trace).

(** ** Paths *)

Definition no_slash (s : string) : bool := str_forall (λ c, negb (Ascii.eqb c slash)) s.
(** A component that survives normalisation of an absolute path. *)
Definition solid (comp : string) : Prop :=
  no_slash comp = true ∧ comp ∉ [EmptyString; "."; ".."].

#[export] Instance solid_dec comp : base.Decision (solid comp).
Proof. unfold solid. apply _. Defined.

(** The components of a normalised path. *)
Definition norm_components (path : string) : list string :=
  foldl (norm_step (initial_slashes path)) [] (split_char slash path).

Lemma split_char_no_slash s : Forall (λ w, no_slash w = true) (split_char slash s).
Proof.
  induction s as [|a s IH]; cbn; [by repeat constructor|].
  destruct (Ascii.eqb a slash) eqn:E; [by constructor|].
  destruct (split_char slash s) as [|w ws]; constructor; try done.
  - unfold no_slash. cbn. by rewrite E.
  - apply Forall_cons in IH as [Hw _]. unfold no_slash in *. cbn. by rewrite E, Hw.
  - by apply Forall_cons in IH as [_ ?].
Qed.

Lemma split_char_app_sep w s :
  no_slash w = true → split_char slash (w +:+ String slash s) = w :: split_char slash s.
Proof.
  induction w as [|a w IH]; intros Hw.
  - change (EmptyString +:+ ?u) with u. cbn. by rewrite Ascii.eqb_refl.
  - unfold no_slash in *. cbn in Hw. apply andb_true_iff in Hw as [Ha Hw].
    apply negb_true_iff in Ha. rewrite str_app_cons. cbn. rewrite Ha.
    by rewrite (IH Hw).
Qed.

Lemma split_char_no_sep w : no_slash w = true → split_char slash w = [w].
Proof.
  induction w as [|a w IH]; intros Hw; [done|].
  unfold no_slash in *. cbn in Hw. apply andb_true_iff in Hw as [Ha Hw].
  apply negb_true_iff in Ha. cbn. by rewrite Ha, (IH Hw).
Qed.

Lemma join_cons2 w v ws : join "/" (w :: v :: ws) = w +:+ String slash (join "/" (v :: ws)).
Proof. reflexivity. Qed.

Lemma split_join comps :
  comps ≠ [] → Forall (λ w, no_slash w = true) comps →
  split_char slash (join "/" comps) = comps.
Proof.
  intros Hne Hall. induction Hall as [|w ws Hw Hall IH]; [done|].
  destruct ws as [|v ws].
  - by apply split_char_no_sep.
  - rewrite join_cons2, split_char_app_sep by done. by rewrite IH.
Qed.

Lemma norm_step_solid n acc comp : solid comp → norm_step n acc comp = acc ++ [comp].
Proof.
  intros [_ Hs]. unfold norm_step.
  assert (mem comp [EmptyString; "."] = false) as -> by (apply mem_false; set_solver).
  assert ((comp =s "..") = false) as ->; [|done].
  apply String.eqb_neq. set_solver.
Qed.

Lemma foldl_norm_solid n acc comps :
  Forall solid comps → foldl (norm_step n) acc comps = acc ++ comps.
Proof.
  intros H. revert acc. induction H as [|c comps Hc _ IH]; intros acc; cbn.
  - by rewrite app_nil_r.
  - rewrite IH, norm_step_solid by done. by rewrite <- app_assoc.
Qed.

Lemma norm_step_keeps n acc comp :
  n ≠ 0 → no_slash comp = true → Forall solid acc → Forall solid (norm_step n acc comp).
Proof.
  intros Hn Hc Hacc. unfold norm_step.
  destruct (mem comp [EmptyString; "."]) eqn:E1; [done|].
  destruct (comp =s "..") eqn:E2; cbn.
  - assert ((n =? 0) = false) as -> by by apply Nat.eqb_neq. cbn.
    assert (opt_is (last acc) ".." = false) as ->.
    { destruct (last acc) as [c|] eqn:El; [|done]. cbn.
      apply String.eqb_neq. apply last_Some in El as [acc' ->].
      apply Forall_app in Hacc as [_ [_ Hc']%Forall_singleton]. set_solver. }
    destruct (decide (acc = [])) as [->|Hne]; [done|].
    rewrite (app_removelast_last EmptyString Hne) in Hacc.
    by apply Forall_app in Hacc as [? _].
  - apply Forall_app. split; [done|]. constructor; [|done]. split; [done|].
    apply mem_false in E1. apply String.eqb_neq in E2. set_solver.
Qed.

Lemma foldl_norm_keeps n acc comps :
  n ≠ 0 → Forall (λ w, no_slash w = true) comps → Forall solid acc →
  Forall solid (foldl (norm_step n) acc comps).
Proof.
  intros Hn H. revert acc. induction H as [|c comps Hc _ IH]; intros acc Hacc; cbn; [done|].
  apply IH. by apply norm_step_keeps.
Qed.

Lemma initial_slashes_abs path : isabs path = true → initial_slashes path = 1 ∨ initial_slashes path = 2.
Proof. unfold isabs, initial_slashes. intros ->. case_match; auto. Qed.

Lemma norm_components_solid path : isabs path = true → Forall solid (norm_components path).
Proof.
  intros H%initial_slashes_abs. apply foldl_norm_keeps; [lia| |constructor].
  apply split_char_no_slash.
Qed.

(** The text of a normalised absolute path. *)
Definition render (n : nat) (comps : list string) : string :=
  String.concat EmptyString (replicate n "/") +:+ join "/" comps.

Lemma normpath_render path :
  isabs path = true → normpath path = render (initial_slashes path) (norm_components path).
Proof.
  intros Habs. pose proof (initial_slashes_abs path Habs) as Hn.
  unfold normpath. destruct path as [|c s]; [done|]. cbn [truthy negb].
  fold (norm_components (String c s)). fold (render (initial_slashes (String c s))
    (norm_components (String c s))).
  assert (truthy (render (initial_slashes (String c s)) (norm_components (String c s))) = true)
    as ->; [|done].
  unfold render. by destruct Hn as [->| ->].
Qed.

Lemma solid_join_head comps :
  Forall solid comps → startswith (join "/" comps) "/" = false.
Proof.
  intros H. destruct H as [|c comps [Hs Hc] _]; [done|].
  assert (∀ t, startswith (c +:+ t) "/" = false) as Hc'.
  { intros t. destruct c as [|a c]; [exfalso; apply Hc; left|].
    unfold no_slash in Hs. cbn in Hs. apply andb_true_iff in Hs as [Ha _].
    apply negb_true_iff, Ascii.eqb_neq in Ha.
    rewrite str_app_cons, startswith_cons. by rewrite (proj2 (Ascii.eqb_neq a "/"%char) Ha). }
  destruct comps as [|d comps].
  - rewrite <- (str_app_nil_r (join "/" [c])). apply Hc'.
  - rewrite join_cons2. apply Hc'.
Qed.

Lemma startswith_slash s : startswith (String slash s) "/" = true.
Proof. by destruct s. Qed.

Lemma render_slashes n comps :
  n = 1 ∨ n = 2 → Forall solid comps →
  initial_slashes (render n comps) = n ∧ isabs (render n comps) = true.
Proof.
  intros Hn Hs%solid_join_head. unfold render, isabs, initial_slashes.
  set (j := join "/" comps) in *. clearbody j.
  destruct Hn as [->| ->].
  - change (String.concat EmptyString (replicate 1 "/") +:+ j) with (String slash j).
    rewrite startswith_slash. split; [|done].
    change (startswith (String slash j) "//") with (startswith j "/"). by rewrite Hs.
  - change (String.concat EmptyString (replicate 2 "/") +:+ j)
      with (String slash (String slash j)).
    rewrite startswith_slash. split; [|done].
    change (startswith (String slash (String slash j)) "//")
      with (startswith (String slash j) "/").
    change (startswith (String slash (String slash j)) "///") with (startswith j "/").
    by rewrite startswith_slash, Hs.
Qed.

Lemma render_components n comps :
  n = 1 ∨ n = 2 → Forall solid comps →
  norm_components (render n comps) = comps ∧ components (render n comps) = comps.
Proof.
  intros Hn Hs. unfold norm_components. rewrite (proj1 (render_slashes n comps Hn Hs)).
  assert (∃ k, split_char slash (render n comps) = replicate (S k) EmptyString ++ comps
    ∨ comps = [] ∧ split_char slash (render n comps) = replicate (S k) EmptyString) as [k Hsplit].
  { assert (comps ≠ [] → split_char slash (join "/" comps) = comps) as Hj.
    { intros Hne. apply split_join; [done|]. eapply Forall_impl; [exact Hs|]. by intros c []. }
    unfold render. set (j := join "/" comps) in *.
    destruct Hn as [->| ->].
    - change (split_char slash (_ +:+ j)) with (EmptyString :: split_char slash j).
      destruct comps; [exists 1; by right|]. exists 0. left. rewrite Hj; done.
    - change (split_char slash (_ +:+ j)) with (EmptyString :: EmptyString :: split_char slash j).
      destruct comps; [exists 2; by right|]. exists 1. left. rewrite Hj; done. }
  assert (∀ m, foldl (norm_step n) [] (replicate m EmptyString) = []) as Hempty.
  { induction m; [done|]. cbn. done. }
  assert (∀ m, filter (λ c, mem c [EmptyString; "."] = false) (replicate m EmptyString) = [])
    as Hempty'.
  { induction m; [done|]. cbn. done. }
  assert (filter (λ c, mem c [EmptyString; "."] = false) comps = comps) as Hfilter.
  { clear -Hs. induction Hs as [|c comps [_ Hc] _ IH]; [done|].
    rewrite filter_cons_True; [by rewrite IH|]. apply mem_false. set_solver. }
  unfold components. destruct Hsplit as [->|[-> ->]].
  - rewrite foldl_app, Hempty, foldl_norm_solid, filter_app, Hempty', Hfilter by done. done.
  - by rewrite Hempty, Hempty'.
Qed.

Lemma normpath_abs_spec (path : string) :
  isabs path = true →
  isabs (normpath path) = true ∧
  Forall solid (components (normpath path)) ∧
  normpath (normpath path) = normpath path.
Proof.
  intros Habs. pose proof (initial_slashes_abs path Habs) as Hn.
  pose proof (norm_components_solid path Habs) as Hs.
  rewrite (normpath_render path Habs).
  destruct (render_slashes _ _ Hn Hs) as [Hsl Habs'].
  destruct (render_components _ _ Hn Hs) as [Hnc Hc].
  repeat split; [done|by rewrite Hc|].
  rewrite (normpath_render _ Habs'). by rewrite Hsl, Hnc.
Qed.

Lemma path_join_abs a b : isabs a = true → isabs (path_join a b) = true.
Proof.
  unfold isabs, path_join. intros Ha. destruct (startswith b "/") eqn:E; [done|].
  destruct a as [|c a]; [done|].
  assert (∀ t, startswith (String c a +:+ t) "/" = true) as Hp.
  { intros t. rewrite str_app_cons, startswith_cons. rewrite startswith_cons in Ha.
    apply andb_true_iff in Ha as [Hc _]. rewrite Hc. by destruct (a +:+ t). }
  case_match; apply Hp.
Qed.

(** where a target resolves to.  A target of a command resolves to a path
    exactly when it is a real text without a home prefix and is absolute or has
    an absolute working directory.  The result is absolute, its components are
    all proper names (no empty, ["."] or [".."] component survives, so a parent
    traversal cannot be smuggled past a later prefix test), it is normalised,
    and resolving it again, from any working directory, changes nothing. *)
Theorem resolve_path_normalised (c : ExecutionContext) (target path : string) :
  resolve_path c target = Some path →
  isabs path = true
  ∧ Forall solid (components path)
  ∧ (∀ c', resolve_path c' path = Some path)
  ∧ (isabs target = true → path = normpath target)
  ∧ (isabs target = false →
     ∃ d, cwd c = Some d ∧ isabs d = true ∧ path = normpath (path_join d target)).
Proof.
  intros H. assert (∃ raw, isabs raw = true ∧ path = normpath raw
    ∧ (isabs target = true → raw = target)
    ∧ (isabs target = false → ∃ d, cwd c = Some d ∧ isabs d = true ∧ raw = path_join d target))
    as (raw & Hraw & -> & Habs & Hrel).
  { unfold resolve_path in H. do 2 (case_match; [done|]). destruct (isabs target) eqn:Ht.
    - injection H as <-. by exists target.
    - destruct (cwd c) as [d|]; [|done]. destruct (negb (truthy d) || negb (isabs d)) eqn:Ed;
        [done|]. injection H as <-. split_bools. exists (path_join d target).
      split; [by apply path_join_abs|]. split; [done|]. split; [done|]. by exists d. }
  destruct (normpath_abs_spec raw Hraw) as (H1 & H2 & H3).
  split; [done|]. split; [done|]. split.
  - intros c'. unfold resolve_path. rewrite H1, H3.
    destruct (normpath raw) as [|ch rest] eqn:E; [done|].
    unfold isabs in H1. rewrite startswith_cons in H1.
    apply andb_true_iff in H1 as [->%Ascii.eqb_eq _]. reflexivity.
  - split; intros Ht; [by rewrite (Habs Ht)|]. destruct (Hrel Ht) as (d & ? & ? & ->). eauto.
Qed.

Lemma common_prefix_eq l k : common_prefix l k = k ↔ k `prefix_of` l.
Proof.
  revert k. induction l as [|x l IH]; intros [|y k]; cbn.
  - split; [intros _; apply prefix_nil|done].
  - split; [done|]. by intros ?%prefix_nil_inv.
  - split; [intros _; apply prefix_nil|done].
  - destruct (String.eqb_spec x y) as [->|Hne].
    + split; [intros [= H]; apply prefix_cons, IH, H|].
      intros H. f_equal. apply IH. by apply prefix_cons_inv_2 in H.
    + split; [done|]. by intros ->%prefix_cons_inv_1.
Qed.

Lemma join_solid_inj comps comps' :
  Forall solid comps → Forall solid comps' → join "/" comps = join "/" comps' → comps = comps'.
Proof.
  intros H H' Heq.
  destruct (render_components 1 comps) as [Hc _]; [auto|done|].
  destruct (render_components 1 comps') as [Hc' _]; [auto|done|].
  rewrite <- Hc, <- Hc'. unfold render. by rewrite Heq.
Qed.

(** The common path of two absolute paths is the second one exactly when its
    components are a prefix of the first one's. *)
Lemma commonpath_within path root :
  initial_slashes root = 1 → isabs path = true →
  (∃ common, commonpath2 (normpath path) (normpath root) = Ok common
   ∧ (common =s normpath root)
     = bool_decide (norm_components root `prefix_of` norm_components path)).
Proof.
  intros Hsl Hp.
  assert (isabs root = true) as Hr.
  { unfold initial_slashes in Hsl. unfold isabs. by destruct (startswith root "/"). }
  pose proof (norm_components_solid path Hp) as Hps.
  pose proof (norm_components_solid root Hr) as Hrs.
  pose proof (initial_slashes_abs path Hp) as Hpn.
  rewrite (normpath_render path Hp), (normpath_render root Hr), Hsl.
  destruct (render_components _ _ Hpn Hps) as [_ Hpc].
  destruct (render_components 1 (norm_components root)) as [_ Hrc]; [auto|done|].
  destruct (render_slashes _ _ Hpn Hps) as [_ Hpa].
  destruct (render_slashes 1 (norm_components root)) as [_ Hra]; [auto|done|].
  unfold commonpath2. rewrite Hpa, Hra, Hpc, Hrc. cbn [Bool.eqb].
  eexists. split; [reflexivity|].
  change ("/" +:+ ?s) with (String slash s).
  change (render 1 ?l) with (String slash (join "/" l)).
  set (cp := common_prefix (norm_components path) (norm_components root)).
  assert (Forall solid cp) as Hcp.
  { subst cp. clear -Hps. revert Hps. generalize (norm_components root) as k.
    generalize (norm_components path) as l.
    induction l as [|x l IH]; intros [|y k] H; cbn; try done.
    apply Forall_cons in H as [? ?]. destruct (x =s y); auto. }
  apply eq_true_iff_eq. rewrite eqb_true, bool_decide_eq_true, <- common_prefix_eq.
  fold cp. split; [|by intros ->]. intros [= H]. by apply join_solid_inj.
Qed.

(** the repository test decides containment of components: for a
    repository root written with one leading slash, a path is inside exactly
    when the normalised root's components are a prefix of the normalised
    path's, so neither [..] nor a sibling with the same name prefix passes. *)
Theorem path_within_repo_correct (c : ExecutionContext) (root path : string) :
  repo_root c = Some root → initial_slashes root = 1 → isabs path = true →
  path_within_repo c path =
    Some (bool_decide (norm_components root `prefix_of` norm_components path)).
Proof.
  intros Hroot Hsl Hp. unfold path_within_repo. rewrite Hroot.
  assert (truthy root = true) as -> by by destruct root.
  assert (isabs root = true) as ->.
  { unfold initial_slashes in Hsl. unfold isabs. by destruct (startswith root "/"). }
  rewrite Hp. cbn [negb orb].
  destruct (commonpath_within path root Hsl Hp) as (common & -> & ->). done.
Qed.

Definition sample_context : ExecutionContext :=
  {| cwd := Some "/srv/repo/src"; shell := Some "bash"; euid := Some 1000%Z;
     interactive := Some false; repo_root := Some "/srv/repo/"; agent := None |}.

Lemma resolve_path_normalised_witness :
  resolve_path sample_context "../../../etc//passwd" = Some "/etc/passwd"
  ∧ isabs "/etc/passwd" = true.
Proof.
  split; [reflexivity|].
  exact (proj1 (resolve_path_normalised sample_context "../../../etc//passwd" "/etc/passwd" eq_refl)).
Defined.

Lemma path_within_repo_correct_witness :
  path_within_repo sample_context "/srv/repo/../repo-other/x" =
    Some (bool_decide (norm_components "/srv/repo/" `prefix_of`
                       norm_components "/srv/repo/../repo-other/x")).
Proof.
  exact (path_within_repo_correct sample_context "/srv/repo/" "/srv/repo/../repo-other/x"
    eq_refl eq_refl eq_refl).
Defined.

(** ** Round trips *)

(** What the constructors establish. *)
Definition context_valid (c : ExecutionContext) : Prop :=
  ExecutionContext_post_init c = Ok c.
Definition trace_valid (t : ActionTrace) : Prop :=
  length (trace_actions t) ≤ MAX_TRACE_ACTIONS ∧
  Forall (λ a, truthy (strip (trace_command a)) = true) (trace_actions t).
Definition request_valid (r : ReviewRequest) : Prop :=
  truthy (strip (rq_command r)) = true ∧
  (∀ c, rq_context r = Some c → context_valid c) ∧
  (∀ t, rq_trace r = Some t → trace_valid t).

Lemma ExecutionContext_round_trip c :
  context_valid c → ExecutionContext_from_dict (ExecutionContext_as_dict c) = Ok (Some c).
Proof.
  unfold context_valid. destruct c as [d s u i r a]. intros Hc.
  unfold ExecutionContext_from_dict, ExecutionContext_as_dict.
  cbn -[reject_unknown ExecutionContext_post_init].
  rewrite reject_unknown_obj by (unfold CONTEXT_FIELDS; repeat constructor; set_solver).
  cbn -[ExecutionContext_post_init].
  destruct d, s, u, i, r, a; cbn -[ExecutionContext_post_init]; by rewrite Hc.
Qed.

Lemma TraceAction_round_trip a :
  truthy (strip (trace_command a)) = true → TraceAction_from_dict (TraceAction_as_dict a) = Ok a.
Proof. destruct a as [cmd]. cbn. intros H. unfold mk_TraceAction. by rewrite H. Qed.

Lemma ActionTrace_round_trip t :
  trace_valid t → ActionTrace_from_dict (ActionTrace_as_dict t) = Ok (Some t).
Proof.
  destruct t as [actions]. intros [Hlen Hall]. cbn [trace_actions] in *.
  assert (all_ok (map TraceAction_from_dict (map TraceAction_as_dict actions)) = Ok actions)
    as Hactions.
  { apply all_ok_Forall2. clear Hlen. induction Hall; cbn; constructor; [|done].
    by apply TraceAction_round_trip. }
  unfold ActionTrace_from_dict, ActionTrace_as_dict. cbn [is_mapping negb].
  rewrite reject_unknown_obj by (repeat constructor; set_solver).
  cbn -[all_ok TraceAction_from_dict TraceAction_as_dict MAX_TRACE_ACTIONS Nat.ltb].
  rewrite length_map. apply Nat.ltb_ge in Hlen. rewrite Hlen, Hactions. cbn -[MAX_TRACE_ACTIONS Nat.ltb].
  unfold mk_ActionTrace. by rewrite Hlen.
Qed.

(** Round trip of the request contract: every review request that the
    constructors accept, with its context and trace, is read back unchanged
    from the dictionary it writes. *)
Theorem ReviewRequest_round_trip (r : ReviewRequest) :
  request_valid r → ReviewRequest_from_dict (ReviewRequest_as_dict r) = Ok r.
Proof.
  destruct r as [cmd intent ctx tr]. intros (Hcmd & Hctx & Htr). cbn [rq_command rq_context rq_trace] in *.
  unfold ReviewRequest_from_dict, ReviewRequest_as_dict. cbn [is_mapping negb].
  rewrite reject_unknown_obj by (repeat constructor; set_solver).
  cbn -[ExecutionContext_from_dict ActionTrace_from_dict ExecutionContext_as_dict
        ActionTrace_as_dict ReviewRequest_post_init].
  rewrite Hcmd. cbn -[ExecutionContext_from_dict ActionTrace_from_dict ExecutionContext_as_dict
        ActionTrace_as_dict ReviewRequest_post_init].
  assert (opt_str_field (jstr intent) "review request intent must be a string or null"
    = Ok intent) as -> by by destruct intent.
  assert (ExecutionContext_from_dict (opt_json ExecutionContext_as_dict ctx) = Ok ctx) as ->.
  { destruct ctx as [c|]; [|done]. by apply ExecutionContext_round_trip, Hctx. }
  assert (ActionTrace_from_dict (opt_json ActionTrace_as_dict tr) = Ok tr) as ->.
  { destruct tr as [t|]; [|done]. by apply ActionTrace_round_trip, Htr. }
  cbn. unfold ReviewRequest_post_init. cbn. by rewrite Hcmd.
Qed.

Definition sample_request : ReviewRequest :=
  {| rq_command := "git status"; rq_intent := None; rq_context := Some sample_context;
     rq_trace := Some {| trace_actions := [{| trace_command := "ls" |}] |} |}.

Lemma ReviewRequest_round_trip_witness :
  request_valid sample_request ∧
  ReviewRequest_from_dict (ReviewRequest_as_dict sample_request) = Ok sample_request.
Proof.
  assert (request_valid sample_request) as Hv.
  { split; [reflexivity|]. split.
    - intros c [= <-]. reflexivity.
    - intros t [= <-]. split; [cbv; lia|]. by repeat constructor. }
  split; [exact Hv|]. exact (ReviewRequest_round_trip sample_request Hv).
Defined.
