(* ===== verification/JsonText.v ===== *)
(** * The text of JSON values

    [json.dumps] as the code calls it: sorted keys, with or without spaces
    after the separators, with or without escapes outside ASCII.  The text of
    a float is an argument.  The text of an execution context, the key under
    which a review keeps predictions, determines the context. *)
From stdpp Require Import base list strings pretty sorting.
From Stdlib Require Import Bool Ascii ZArith NArith QArith Lia.
From S2P Require Import Prelude PyStr Json Context.
#[local] Open Scope py_scope.
#[local] Open Scope nat_scope.

(** ** [sort_keys=True] *)

Definition key_le {A} (p q : string * A) : Prop := str_le (fst p) (fst q).
#[export] Instance key_le_dec {A} (p q : string * A) : base.Decision (key_le p q).
Proof. unfold key_le. apply _. Defined.
#[export] Instance str_le_antisymm : AntiSymm (=) str_le.
Proof.
  intros s t. unfold str_le, String.leb. rewrite (String.compare_antisym s t).
  destruct (String.compare t s) eqn:E; cbn; try done. by apply String.compare_eq_iff in E.
Qed.
#[export] Instance key_le_trans {A} : Transitive (@key_le A).
Proof. intros p q r. apply str_le_trans. Qed.
#[export] Instance key_le_total {A} : Total (@key_le A).
Proof. intros p q. apply str_le_total. Qed.

(** Sorting by distinct keys forgets the order, and nothing else. *)
Lemma sorted_members_unique {A} (a b : list (string * A)) :
  NoDup (map fst a) → StronglySorted key_le a → StronglySorted key_le b → a ≡ₚ b → a = b.
Proof.
  intros Hnd Ha Hb Hp. apply (StronglySorted_unique_strong key_le); try done.
  intros [k x] [k' y] Hx Hy H1 H2. assert (k = k') as <- by (by apply (anti_symm str_le)).
  f_equal. rewrite <- Hp in Hy. clear -Hnd Hx Hy.
  induction a as [|[j z] a IH]; [by apply elem_of_nil in Hx|].
  cbn in Hnd. apply NoDup_cons in Hnd as [Hj Hnd].
  assert (∀ v, (j, v) ∈ a → False) as Hno.
  { intros v Hv. apply Hj. apply list_elem_of_fmap. by exists (j, v). }
  apply elem_of_cons in Hx as [[= -> ->]|Hx], Hy as [Hy|Hy]; try congruence; try naive_solver.
Qed.

Fixpoint sort_keys (value : json) : json :=
  match value with
  | JObj members => JObj (merge_sort key_le (map (λ kv, (fst kv, sort_keys (snd kv))) members))
  | JArr items => JArr (map sort_keys items)
  | _ => value
  end.

(** ** Characters, strings and values *)

Definition hex_escape (c : ascii) : string :=
  "\u00" +:+ String (hex_digit (code c / 16)) (String (hex_digit (code c mod 16)) EmptyString).
Definition json_escape (ensure_ascii : bool) (c : ascii) : string :=
  if Ascii.eqb c double_quote then String "\"%char (String double_quote EmptyString)
  else if Ascii.eqb c "\"%char then "\\"
  else if Ascii.eqb c (ascii_of_N 8) then "\b"
  else if Ascii.eqb c (ascii_of_N 9) then "\t"
  else if Ascii.eqb c (ascii_of_N 10) then "\n"
  else if Ascii.eqb c (ascii_of_N 12) then "\f"
  else if Ascii.eqb c (ascii_of_N 13) then "\r"
  else if (code c <? 32)%N || (ensure_ascii && (126 <? code c)%N) then hex_escape c
  else String c EmptyString.
Fixpoint json_string_body (ensure_ascii : bool) (s : string) : string :=
  match s with
  | EmptyString => EmptyString
  | String c s' => json_escape ensure_ascii c +:+ json_string_body ensure_ascii s'
  end.
Definition json_string (ensure_ascii : bool) (s : string) : string :=
  String double_quote (json_string_body ensure_ascii s +:+ String double_quote EmptyString).

(** The separators between items and after keys. *)
Record Layout := { item_separator : string; key_separator : string; ensure_ascii : bool }.
Definition default_layout : Layout :=
  {| item_separator := ", "; key_separator := ": "; ensure_ascii := true |}.
Definition compact_layout : Layout :=
  {| item_separator := ","; key_separator := ":"; ensure_ascii := true |}.
Definition compact_utf8_layout : Layout :=
  {| item_separator := ","; key_separator := ":"; ensure_ascii := false |}.

Section text.
Context (float_repr : Q → string) (layout : Layout).

Fixpoint json_text (value : json) : string :=
  match value with
  | JNull => "null"
  | JBool b => if b then "true" else "false"
  | JInt z => pretty z
  | JFloat q => float_repr q
  | JStr s => json_string (ensure_ascii layout) s
  | JArr items => "[" +:+ join (item_separator layout) (map json_text items) +:+ "]"
  | JObj members =>
      "{" +:+ join (item_separator layout)
        (map (λ kv, json_string (ensure_ascii layout) (fst kv) +:+ key_separator layout
                      +:+ json_text (snd kv)) members) +:+ "}"
  end.
Definition json_dumps (value : json) : string := json_text (sort_keys value).
End text.

(** [.encode("utf-8")]; the code points of a text are below 256 here. *)
Definition utf8_char (c : ascii) : string :=
  if (code c <? 128)%N then String c EmptyString
  else String (ascii_of_N (192 + code c / 64)) (String (ascii_of_N (128 + code c mod 64)) EmptyString).
Fixpoint utf8 (s : string) : string :=
  match s with EmptyString => EmptyString | String c s' => utf8_char c +:+ utf8 s' end.

(** ** Reading back *)

Definition all_chars : list ascii := map ascii_of_nat (seq 0 256).
Lemma in_all_chars c : c ∈ all_chars.
Proof.
  apply list_elem_of_fmap. exists (nat_of_ascii c).
  split; [by rewrite ascii_nat_embedding|]. apply elem_of_seq. pose proof (nat_ascii_bounded c). lia.
Qed.

Lemma app_prefix (x y r r' : string) :
  x +:+ r = y +:+ r' → startswith x y || startswith y x = true.
Proof.
  revert y. induction x as [|c x IH]; intros [|c' y]; cbn; try done.
  intros [= -> E]. apply IH in E. unfold startswith in *. cbn. destruct (ascii_dec c' c'); done.
Qed.
Lemma str_app_inj (x r r' : string) : x +:+ r = x +:+ r' → r = r'.
Proof. induction x as [|c x IH]; cbn; [done|]. intros [= E]. by apply IH. Qed.

(** A code without a word that begins another one is read back. *)
Definition prefix_free (f : ascii → string) : bool :=
  forallb (λ c, forallb (λ c', Ascii.eqb c c' || negb (startswith (f c) (f c'))) all_chars) all_chars.
Lemma prefix_free_inj f c c' r r' :
  prefix_free f = true → f c +:+ r = f c' +:+ r' → c = c' ∧ r = r'.
Proof.
  intros Hall E. pose proof (app_prefix _ _ _ _ E) as Hp.
  unfold prefix_free in Hall. rewrite forallb_forall in Hall.
  assert (∀ c c', startswith (f c) (f c') = true → c = c') as Hcode.
  { intros d d' Hs. specialize (Hall d (proj1 (list_elem_of_In _ _) (in_all_chars d))).
    rewrite forallb_forall in Hall.
    specialize (Hall d' (proj1 (list_elem_of_In _ _) (in_all_chars d'))). rewrite Hs in Hall.
    rewrite orb_false_r in Hall. by apply Ascii.eqb_eq. }
  assert (c = c') as <- by (apply orb_true_iff in Hp as [Hp|Hp]; [|symmetry]; by apply Hcode).
  split; [done|]. by apply str_app_inj in E.
Qed.

(** No escaped character begins another one, or with the closing quote. *)
Lemma json_escape_codes a :
  forallb (λ c, negb (startswith (json_escape a c) (String double_quote EmptyString))
                && negb (json_escape a c =s "")) all_chars = true.
Proof. destruct a; vm_compute; reflexivity. Qed.
Lemma json_escape_inj a c c' r r' :
  json_escape a c +:+ r = json_escape a c' +:+ r' → c = c' ∧ r = r'.
Proof. apply prefix_free_inj. destruct a; vm_compute; reflexivity. Qed.
Lemma json_escape_no_quote a c r r' :
  json_escape a c +:+ r ≠ String double_quote r'.
Proof.
  intros E. pose proof (json_escape_codes a) as Hall. rewrite forallb_forall in Hall.
  specialize (Hall c (proj1 (list_elem_of_In _ _) (in_all_chars c))). split_bools.
  destruct (json_escape a c) as [|d e]; [done|]. cbn in E. injection E as -> _.
  cbn in *. destruct e; done.
Qed.

Lemma json_body_inj a s : ∀ s' r r',
  json_string_body a s +:+ String double_quote r = json_string_body a s' +:+ String double_quote r' →
  s = s' ∧ r = r'.
Proof.
  induction s as [|c s IH]; intros [|c' s'] r r' E; cbn in E; rewrite ?str_app_assoc in E.
  - by injection E.
  - by apply eq_sym, json_escape_no_quote in E.
  - by apply json_escape_no_quote in E.
  - apply json_escape_inj in E as [-> E]. by apply IH in E as [-> ->].
Qed.
Lemma json_string_app a s r :
  json_string a s +:+ r = String double_quote (json_string_body a s +:+ String double_quote r).
Proof. unfold json_string. by rewrite str_app_cons, str_app_assoc. Qed.
Lemma json_string_inj a s s' r r' :
  json_string a s +:+ r = json_string a s' +:+ r' → s = s' ∧ r = r'.
Proof. rewrite !json_string_app. intros [= E]. by apply json_body_inj in E. Qed.

Lemma utf8_inj s s' : utf8 s = utf8 s' → s = s'.
Proof.
  assert (∀ c, utf8_char c ≠ "") as Hne by (intros c; unfold utf8_char; by destruct (_ <? _)%N).
  assert (∀ c r, utf8_char c +:+ r ≠ "") as Hne'.
  { intros c r. specialize (Hne c). by destruct (utf8_char c). }
  revert s'. induction s as [|c s IH]; intros [|c' s'] E; cbn in E; try done.
  - symmetry in E. by apply Hne' in E.
  - by apply Hne' in E.
  - apply (prefix_free_inj utf8_char) in E as [-> E]; [|vm_compute; reflexivity]. f_equal. by apply IH.
Qed.

(** ** Numbers *)

Definition number_char (c : ascii) : bool := in_range 48 57 c || Ascii.eqb c "-"%char.

Lemma number_digit x : (x < 10)%N → number_char (pretty_N_char x) = true.
Proof.
  intros Hx. assert (∃ n, x = N.of_nat n ∧ n < 10) as (n & -> & Hn).
  { exists (N.to_nat x). rewrite N2Nat.id. split; [done|lia]. }
  do 10 (destruct n as [|n]; [reflexivity|]). lia.
Qed.
Lemma number_go x : ∀ s, str_forall number_char s = true →
  str_forall number_char (pretty_N_go x s) = true.
Proof.
  induction (N.lt_wf_0 x) as [x _ IH]. intros s Hs.
  destruct (decide (0 < x)%N) as [Hx|Hx].
  - rewrite pretty_N_go_step by done. apply IH; [by apply N.div_lt|].
    cbn. rewrite Hs, number_digit; [done|]. by apply N.mod_lt.
  - assert (x = 0%N) as -> by lia. by rewrite pretty_N_go_0.
Qed.
Lemma number_pretty_N (n : N) : str_forall number_char (pretty n) = true.
Proof.
  unfold pretty, pretty_N. destruct (decide _); [reflexivity|]. by apply number_go.
Qed.
Lemma number_pretty (z : Z) : str_forall number_char (pretty z) = true.
Proof. destruct z as [|x|x]; [done|apply (number_pretty_N (Npos x))|]. apply (number_pretty_N (Npos x)). Qed.

(** A text of [p]s and what follows it, which does not start with one. *)
Lemma span_inj (p : ascii → bool) s : ∀ s' c c' r r',
  str_forall p s = true → str_forall p s' = true → p c = false → p c' = false →
  s +:+ String c r = s' +:+ String c' r' → s = s' ∧ String c r = String c' r'.
Proof.
  induction s as [|d s IH]; intros [|d' s'] c c' r r' Hs Hs' Hc Hc' E; cbn in *.
  - done.
  - injection E as -> _. split_bools. congruence.
  - injection E as <- _. split_bools. congruence.
  - injection E as <- E. split_bools. by eapply IH in E as [-> ?].
Qed.
Lemma pretty_head (z : Z) : ∃ c s, pretty z = String c s ∧ number_char c = true.
Proof.
  pose proof (number_pretty z) as Hz. destruct (pretty z) as [|c s] eqn:E.
  - exfalso. assert (pretty z ≠ "") as Hne; [|done].
    destruct z as [|x|x]; [done| |done].
    change (pretty (Npos x) ≠ ""). intros Hx. unfold pretty, pretty_N in Hx.
    destruct (decide _); [done|]. rewrite pretty_N_go_step in Hx by done.
    assert (∀ n s, s ≠ "" → pretty_N_go n s ≠ "") as Hgo.
    { intros m. induction (N.lt_wf_0 m) as [m _ IH]. intros s Hs.
      destruct (decide (0 < m)%N) as [Hm|Hm].
      - rewrite pretty_N_go_step by done. apply IH; [by apply N.div_lt|done].
      - assert (m = 0%N) as -> by lia. by rewrite pretty_N_go_0. }
    by apply Hgo in Hx.
  - cbn in Hz. split_bools. eauto.
Qed.

(** ** Execution contexts *)

Section contexts.
Context (float_repr : Q → string) (layout : Layout).
#[local] Abbreviation text := (json_text float_repr layout).

Definition plain_scalar (j : json) : Prop :=
  match j with JNull | JBool _ | JInt _ | JStr _ => True | _ => False end.

Lemma scalar_text_inj j j' c c' r r' :
  plain_scalar j → plain_scalar j' → number_char c = false → number_char c' = false →
  text j +:+ String c r = text j' +:+ String c' r' → j = j' ∧ String c r = String c' r'.
Proof.
  assert (∀ (z : Z) d x y, number_char d = false → pretty z +:+ x ≠ String d y) as Hz.
  { intros z d x y Hd E. destruct (pretty_head z) as (e & s & Hp & He). rewrite Hp in E.
    injection E as -> _. congruence. }
  intros Hj Hj' Hc Hc' E.
  destruct j as [|[]|z| |s| |]; destruct j' as [|[]|z'| |s'| |]; try done; cbn -[json_string] in E;
    try (by injection E as -> ->); try (by injection E);
    rewrite ?json_string_app in E; try (by injection E);
    try (by apply Hz in E); try (by symmetry in E; apply Hz in E).
  - apply (span_inj number_char) in E as [E ?]; try done; [|apply number_pretty..]. by apply (inj pretty) in E as ->.
  - injection E as E. by apply json_body_inj in E as [-> ?].
Qed.

Definition member_text (kv : string * json) : string :=
  json_string (ensure_ascii layout) (fst kv) +:+ key_separator layout +:+ text (snd kv).

(** Members of the same names and scalar values are told apart. *)
Lemma members_text_inj m d sep : ∀ m' r r',
  item_separator layout = String d sep → number_char d = false →
  map fst m = map fst m' → Forall (λ kv, plain_scalar (snd kv)) m →
  Forall (λ kv, plain_scalar (snd kv)) m' →
  join (item_separator layout) (map member_text m) +:+ String "}"%char r
  = join (item_separator layout) (map member_text m') +:+ String "}"%char r' → m = m'.
Proof.
  induction m as [|[k v] m IH]; intros [|[k' v'] m'] r r' Hsep Hd Hk Hm Hm' E; try done.
  injection Hk as <- Hk. inversion Hm as [|? ? Hv Hms]; inversion Hm' as [|? ? Hv' Hms']; subst.
  cbn [snd] in Hv, Hv'.
  assert (∀ (x : string * json) l t, ∃ c u,
    join (item_separator layout) (map member_text (x :: l)) +:+ String "}"%char t
    = json_string (ensure_ascii layout) (fst x) +:+ key_separator layout
      +:+ text (snd x) +:+ String c u ∧ number_char c = false
    ∧ String c u = (match l with
                    | [] => String "}"%char t
                    | _ => item_separator layout
                           +:+ join (item_separator layout) (map member_text l) +:+ String "}"%char t
                    end)) as Hcons.
  { intros x [|y l] t; unfold join; cbn -[json_text json_string]; unfold member_text at 1.
    - eexists _, _. rewrite !str_app_assoc. done.
    - rewrite Hsep. cbn -[json_text json_string]. eexists _, _. rewrite !str_app_assoc. cbn. done. }
  destruct (Hcons (k, v) m r) as (c & u & E1 & Hc & Hu).
  destruct (Hcons (k, v') m' r') as (c' & u' & E1' & Hc' & Hu').
  rewrite E1, E1' in E. cbn [fst snd] in E. apply str_app_inj, str_app_inj in E.
  apply scalar_text_inj in E as [-> E]; [|done..]. f_equal.
  rewrite Hu, Hu' in E. destruct m as [|x m], m' as [|x' m']; try done.
  eapply (IH (x' :: m')); [done..|]. by apply str_app_inj in E.
Qed.
End contexts.

Definition context_members (c : ExecutionContext) : list (string * json) :=
  [("agent", jstr (agent c)); ("cwd", jstr (cwd c)); ("euid", opt_json JInt (euid c));
   ("interactive", opt_json JBool (interactive c)); ("repo_root", jstr (repo_root c));
   ("shell", jstr (shell c))].
Lemma sort_context c : sort_keys (ExecutionContext_as_dict c) = JObj (context_members c).
Proof. destruct c as [[] [] [] [] [] []]; reflexivity. Qed.
Lemma context_members_plain c : Forall (λ kv, plain_scalar (snd kv)) (context_members c).
Proof. destruct c as [[] [] [] [] [] []]; repeat constructor. Qed.
Lemma context_members_inj c c' : context_members c = context_members c' → c = c'.
Proof.
  destruct c as [d s u i r a], c' as [d' s' u' i' r' a']. intros E. injection E as Ea Ed Eu Ei Er Es.
  destruct a, a', d, d', u, u', i, i', r, r', s, s'; cbn in *; congruence.
Qed.

(** The text of a context determines it. *)
Lemma dumps_context_inj float_repr c c' :
  json_dumps float_repr default_layout (opt_json ExecutionContext_as_dict c)
  = json_dumps float_repr default_layout (opt_json ExecutionContext_as_dict c') → c = c'.
Proof.
  unfold json_dumps. destruct c as [c|], c' as [c'|]; cbn [opt_json]; rewrite ?sort_context; try done.
  intros E. f_equal. apply context_members_inj.
  assert (∀ m, json_text float_repr default_layout (JObj m)
    = "{" +:+ (join ", " (map (member_text float_repr default_layout) m) +:+ "}")) as Htext
    by reflexivity.
  rewrite !Htext in E. apply str_app_inj in E.
  eapply (members_text_inj float_repr default_layout); [done..| | | |exact E];
    [done|apply context_members_plain..].
Qed.
