(* ===== verification/JsonParse.v ===== *)
(** * Reading JSON text ([json.loads])

    The scanner and the decoder of the standard library, with a hook that
    refuses an object that has a member twice; what the writer of [JsonText]
    writes is read back.  [None] is the decoder's [ValueError].  A number with a
    fraction or an exponent is read by [float_of], an argument ([None] when it is
    not finite, which the callers refuse); an escape beyond Latin-1 is outside
    the model of text. *)
From stdpp Require Import base list strings pretty sorting.
From Stdlib Require Import Bool Ascii ZArith NArith QArith Lia.
From S2P Require Import Prelude PyStr Json JsonText.
#[local] Open Scope py_scope.
#[local] Open Scope nat_scope.

(** ** The scanner *)

Definition is_ws (c : ascii) : bool :=
  Ascii.eqb c " "%char || Ascii.eqb c (ascii_of_N 9) || Ascii.eqb c (ascii_of_N 10)
  || Ascii.eqb c (ascii_of_N 13).
Fixpoint skip_ws (s : string) : string :=
  match s with
  | String c s' => if is_ws c then skip_ws s' else s
  | EmptyString => s
  end.

Definition is_digit (c : ascii) : bool := in_range 48 57 c.
Definition hex_value (c : ascii) : option N :=
  if in_range 48 57 c then Some (code c - 48)%N
  else if in_range 97 102 c then Some (code c - 87)%N
  else if in_range 65 70 c then Some (code c - 55)%N
  else None.
(** The character of [\uXXXX], when it is below 256. *)
Definition unicode_escape (a b c d : ascii) : option ascii :=
  match hex_value a, hex_value b, hex_value c, hex_value d with
  | Some 0%N, Some 0%N, Some x, Some y => Some (ascii_of_N (16 * x + y))
  | _, _, _, _ => None
  end.
Definition simple_escape (c : ascii) : option ascii :=
  if Ascii.eqb c double_quote || Ascii.eqb c "\"%char || Ascii.eqb c "/"%char then Some c
  else if Ascii.eqb c "b"%char then Some (ascii_of_N 8)
  else if Ascii.eqb c "f"%char then Some (ascii_of_N 12)
  else if Ascii.eqb c "n"%char then Some (ascii_of_N 10)
  else if Ascii.eqb c "r"%char then Some (ascii_of_N 13)
  else if Ascii.eqb c "t"%char then Some (ascii_of_N 9)
  else None.
Definition before (c : ascii) (o : option (string * string)) : option (string * string) :=
  match o with Some (s, r) => Some (String c s, r) | None => None end.
(** [scanstring(s, end)] after the opening quote; control characters are refused. *)
Fixpoint scanstring (s : string) : option (string * string) :=
  match s with
  | EmptyString => None
  | String c s1 =>
      if Ascii.eqb c double_quote then Some (EmptyString, s1)
      else if Ascii.eqb c "\"%char then
        match s1 with
        | EmptyString => None
        | String e s2 =>
            if Ascii.eqb e "u"%char then
              match s2 with
              | String h1 (String h2 (String h3 (String h4 s6))) =>
                  match unicode_escape h1 h2 h3 h4 with
                  | Some c' => before c' (scanstring s6)
                  | None => None
                  end
              | _ => None
              end
            else match simple_escape e with
                 | Some c' => before c' (scanstring s2)
                 | None => None
                 end
        end
      else if (code c <? 32)%N then None
      else before c (scanstring s1)
  end.

(** A number of the scanner: an integer part without leading zeros, and perhaps a
    fraction and an exponent. *)
Fixpoint take_digits (s : string) : string * string :=
  match s with
  | String c s' => if is_digit c then let '(d, r) := take_digits s' in (String c d, r)
                   else (EmptyString, s)
  | EmptyString => (EmptyString, s)
  end.
Fixpoint read_digits (acc : N) (s : string) : N :=
  match s with
  | EmptyString => acc
  | String c s' => read_digits (10 * acc + (code c - 48))%N s'
  end.
Definition digits_value (s : string) : N := read_digits 0 s.
Definition unsigned_part (s : string) : option (string * string) :=
  match s with
  | String c s' =>
      if Ascii.eqb c "0"%char then Some ("0", s')
      else if is_digit c then Some (take_digits s) else None
  | EmptyString => None
  end.
Definition integer_part (s : string) : option (string * string) :=
  match s with
  | String c s' =>
      if Ascii.eqb c "-"%char then
        match unsigned_part s' with Some (d, r) => Some (String c d, r) | None => None end
      else unsigned_part s
  | EmptyString => None
  end.
Definition fraction_part (s : string) : string * string :=
  match s with
  | String c s' =>
      if Ascii.eqb c "."%char then
        match take_digits s' with (EmptyString, _) => (EmptyString, s) | (d, r) => (String c d, r) end
      else (EmptyString, s)
  | EmptyString => (EmptyString, s)
  end.
Definition exponent_digits (sign s : string) (default : string * string) : string * string :=
  match take_digits s with (EmptyString, _) => default | (d, r) => (sign +:+ d, r) end.
Definition exponent_part (s : string) : string * string :=
  match s with
  | String c s' =>
      if Ascii.eqb c "e"%char || Ascii.eqb c "E"%char then
        match s' with
        | String d s'' =>
            if Ascii.eqb d "+"%char || Ascii.eqb d "-"%char
            then exponent_digits (String c (String d EmptyString)) s'' (EmptyString, s)
            else exponent_digits (String c EmptyString) s' (EmptyString, s)
        | EmptyString => (EmptyString, s)
        end
      else (EmptyString, s)
  | EmptyString => (EmptyString, s)
  end.
(** [int(text)] of an optional sign and digits. *)
Definition int_of (s : string) : Z :=
  match s with
  | String c s' => if Ascii.eqb c "-"%char then (- Z.of_N (digits_value s'))%Z
                   else Z.of_N (digits_value s)
  | EmptyString => 0%Z
  end.

Fixpoint drop_str (n : nat) (s : string) : string :=
  match n, s with S n', String _ s' => drop_str n' s' | _, _ => s end.

Section parser.
Context (float_of : string → option Q).

Definition match_number (s : string) : option (json * string) :=
  match integer_part s with
  | Some (integer, r) =>
      let '(fraction, r1) := fraction_part r in
      let '(exponent, r2) := exponent_part r1 in
      if (fraction =s "") && (exponent =s "") then Some (JInt (int_of integer), r)
      else match float_of (integer +:+ fraction +:+ exponent) with
           | Some q => Some (JFloat q, r2)
           | None => None
           end
  | None => None
  end.

(** [_unique], the hook: a member twice is refused. *)
Definition _unique (pairs : list (string * json)) : option json :=
  if bool_decide (NoDup (map fst pairs)) then Some (JObj pairs) else None.

Definition after (word : string) (v : json) (s : string) : option (json * string) :=
  if startswith s word then Some (v, drop_str (String.length word) s) else None.

(** A value; the items of an array after the first bracket or a comma; the
    members of an object likewise. *)
Fixpoint scan_once (fuel : nat) (s : string) {struct fuel} : option (json * string) :=
  match fuel with
  | O => None
  | S f =>
      match s with
      | EmptyString => None
      | String c s' =>
          if Ascii.eqb c double_quote then
            match scanstring s' with Some (t, r) => Some (JStr t, r) | None => None end
          else if Ascii.eqb c "{"%char then
            match skip_ws s' with
            | String c' r =>
                if Ascii.eqb c' "}"%char then Some (JObj [], r)
                else match scan_members f (String c' r) with
                     | Some (m, r') =>
                         match _unique m with Some j => Some (j, r') | None => None end
                     | None => None
                     end
            | EmptyString => None
            end
          else if Ascii.eqb c "["%char then
            match skip_ws s' with
            | String c' r =>
                if Ascii.eqb c' "]"%char then Some (JArr [], r)
                else match scan_items f (String c' r) with
                     | Some (l, r') => Some (JArr l, r')
                     | None => None
                     end
            | EmptyString => None
            end
          else if Ascii.eqb c "n"%char then after "null" JNull s
          else if Ascii.eqb c "t"%char then after "true" (JBool true) s
          else if Ascii.eqb c "f"%char then after "false" (JBool false) s
          else match_number s
      end
  end
with scan_items (fuel : nat) (s : string) {struct fuel} : option (list json * string) :=
  match fuel with
  | O => None
  | S f =>
      match scan_once f s with
      | Some (v, r) =>
          match skip_ws r with
          | String c r' =>
              if Ascii.eqb c "]"%char then Some ([v], r')
              else if Ascii.eqb c ","%char then
                match scan_items f (skip_ws r') with
                | Some (l, r'') => Some (v :: l, r'')
                | None => None
                end
              else None
          | EmptyString => None
          end
      | None => None
      end
  end
with scan_members (fuel : nat) (s : string) {struct fuel}
  : option (list (string * json) * string) :=
  match fuel with
  | O => None
  | S f =>
      match s with
      | String c s' =>
          if Ascii.eqb c double_quote then
            match scanstring s' with
            | Some (k, r) =>
                match skip_ws r with
                | String c1 r1 =>
                    if Ascii.eqb c1 ":"%char then
                      match scan_once f (skip_ws r1) with
                      | Some (v, r2) =>
                          match skip_ws r2 with
                          | String c3 r3 =>
                              if Ascii.eqb c3 "}"%char then Some ([(k, v)], r3)
                              else if Ascii.eqb c3 ","%char then
                                match scan_members f (skip_ws r3) with
                                | Some (m, r4) => Some ((k, v) :: m, r4)
                                | None => None
                                end
                              else None
                          | EmptyString => None
                          end
                      | None => None
                      end
                    else None
                | EmptyString => None
                end
            | None => None
            end
          else None
      | EmptyString => None
      end
  end.

(** [json.loads(text, object_pairs_hook=_unique)]. *)
Definition loads_fuel (s : string) : nat := S (S (2 * String.length s)).
Definition loads (s : string) : option json :=
  match scan_once (loads_fuel s) (skip_ws s) with
  | Some (v, r) => match skip_ws r with EmptyString => Some v | _ => None end
  | None => None
  end.
End parser.

(** ** Enough fuel *)

Lemma skip_ws_length s : String.length (skip_ws s) ≤ String.length s.
Proof. induction s as [|c s IH]; cbn; [done|]. destruct (is_ws c); cbn; lia. Qed.
Lemma take_digits_length s : String.length (snd (take_digits s)) ≤ String.length s.
Proof.
  induction s as [|c s IH]; cbn; [done|]. destruct (is_digit c); [|done].
  destruct (take_digits s). cbn in *. lia.
Qed.
Lemma before_some c o s r : before c o = Some (s, r) → ∃ s', o = Some (s', r).
Proof. destruct o as [[]|]; [|done]. intros [= _ <-]. eauto. Qed.
Lemma scanstring_length s t r : scanstring s = Some (t, r) → String.length r < String.length s.
Proof.
  revert t r. induction s as [s IH] using (induction_ltof1 _ String.length); unfold ltof in IH.
  intros t r. destruct s as [|c s1]; [done|]. cbn [scanstring String.length].
  destruct (Ascii.eqb c double_quote); [intros [= _ <-]; lia|].
  destruct (Ascii.eqb c "\"%char).
  - destruct s1 as [|e s2]; [done|]. destruct (Ascii.eqb e "u"%char).
    + destruct s2 as [|h1 [|h2 [|h3 [|h4 s6]]]]; try done.
      destruct (unicode_escape h1 h2 h3 h4); [|done].
      intros (s' & H)%before_some. apply IH in H; cbn in *; lia.
    + destruct (simple_escape e); [|done]. intros (s' & H)%before_some. apply IH in H; cbn in *; lia.
  - destruct (code c <? 32)%N; [done|]. intros (s' & H)%before_some. apply IH in H; cbn in *; lia.
Qed.
Lemma unsigned_length s d r : unsigned_part s = Some (d, r) → String.length r < String.length s.
Proof.
  destruct s as [|c s]; [done|]. cbn [unsigned_part].
  destruct (Ascii.eqb c "0"%char); [intros [= _ <-]; cbn; lia|].
  destruct (is_digit c) eqn:E; [|done]. cbn [take_digits]. rewrite E.
  pose proof (take_digits_length s). destruct (take_digits s). intros [= _ <-]. cbn in *. lia.
Qed.
Lemma integer_length s d r : integer_part s = Some (d, r) → String.length r < String.length s.
Proof.
  destruct s as [|c s]; [done|]. unfold integer_part. destruct (Ascii.eqb c "-"%char).
  - destruct (unsigned_part s) as [[d' r']|] eqn:E; [|done]. intros [= _ <-].
    apply unsigned_length in E. cbn. lia.
  - apply unsigned_length.
Qed.
Lemma fraction_length s : String.length (snd (fraction_part s)) ≤ String.length s.
Proof.
  destruct s as [|c s]; cbn; [done|]. destruct (Ascii.eqb c "."%char); [|done].
  pose proof (take_digits_length s). destruct (take_digits s) as [[] r]; cbn in *; lia.
Qed.
Lemma exponent_digits_length sign s d n : String.length s ≤ n → String.length (snd d) ≤ n →
  String.length (snd (exponent_digits sign s d)) ≤ n.
Proof.
  unfold exponent_digits. pose proof (take_digits_length s).
  destruct (take_digits s) as [[] r]; cbn in *; lia.
Qed.
Lemma exponent_length s : String.length (snd (exponent_part s)) ≤ String.length s.
Proof.
  destruct s as [|c s]; cbn; [done|]. destruct (_ || _); [|done]. destruct s as [|d s]; [done|].
  destruct (_ || _); apply exponent_digits_length; cbn; lia.
Qed.

Section parser_facts.
Context (float_of : string → option Q).
#[local] Abbreviation scan_once := (scan_once float_of).
#[local] Abbreviation scan_items := (scan_items float_of).
#[local] Abbreviation scan_members := (scan_members float_of).

Lemma match_number_length s v r : match_number float_of s = Some (v, r) →
  String.length r < String.length s.
Proof.
  unfold match_number. destruct (integer_part s) as [[d r0]|] eqn:E; [|done].
  apply integer_length in E. pose proof (fraction_length r0). destruct (fraction_part r0) as [f r1].
  pose proof (exponent_length r1). destruct (exponent_part r1) as [e r2]. cbn in *.
  destruct (_ && _); [intros [= _ <-]; done|]. destruct (float_of _); [|done].
  intros [= _ <-]. lia.
Qed.
Lemma after_length w v s v' r : w ≠ EmptyString → after w v s = Some (v', r) →
  String.length r < String.length s.
Proof.
  intros Hw. unfold after. destruct (startswith s w) eqn:E; [|done]. intros [= _ <-].
  destruct w as [|c w]; [done|]. destruct s as [|c' s]; [done|]. cbn. clear.
  enough (String.length (drop_str (String.length w) s) ≤ String.length s) by lia.
  revert s. induction w as [|d w IH]; intros [|e s]; cbn; try done. specialize (IH s). lia.
Qed.
Lemma skip_ws_cons s c r : skip_ws s = String c r → String.length r < String.length s.
Proof. pose proof (skip_ws_length s) as H. intros E. rewrite E in H. cbn in H. lia. Qed.
Ltac shorter := repeat match goal with
  | H : skip_ws ?s = String _ _ |- _ => apply skip_ws_cons in H
  | H : scanstring _ = Some (_, _) |- _ => apply scanstring_length in H
  | |- context [skip_ws ?s] => pose proof (skip_ws_length s); generalize dependent (skip_ws s); intros
  end; cbn in *; lia.
Lemma scan_shorter f :
  (∀ s v r, scan_once f s = Some (v, r) → String.length r < String.length s) ∧
  (∀ s v r, scan_items f s = Some (v, r) → String.length r < String.length s) ∧
  (∀ s v r, scan_members f s = Some (v, r) → String.length r < String.length s).
Proof.
  induction f as [|f (IH1 & IH2 & IH3)]; [done|]. split_and!; intros s v r.
  - destruct s as [|c s]; [done|]. cbn [JsonParse.scan_once].
    repeat match goal with
    | |- (if ?b then _ else _) = _ → _ => destruct b
    end.
    + destruct (scanstring s) as [[t r']|] eqn:E; [|done]. intros [= _ <-]. shorter.
    + destruct (skip_ws s) as [|c' r'] eqn:E; [done|].
      destruct (Ascii.eqb c' _); [intros [= _ <-]; shorter|].
      destruct (scan_members f _) as [[m r1]|] eqn:Em; [|done]. destruct (_unique m); [|done].
      intros [= _ <-]. apply IH3 in Em. shorter.
    + destruct (skip_ws s) as [|c' r'] eqn:E; [done|].
      destruct (Ascii.eqb c' _); [intros [= _ <-]; shorter|].
      destruct (scan_items f _) as [[m r1]|] eqn:Em; [|done].
      intros [= _ <-]. apply IH2 in Em. shorter.
    + by apply after_length.
    + by apply after_length.
    + by apply after_length.
    + apply match_number_length.
  - cbn [JsonParse.scan_items]. destruct (scan_once f s) as [[x r0]|] eqn:E; [|done].
    apply IH1 in E. destruct (skip_ws r0) as [|c r1] eqn:E1; [done|].
    destruct (Ascii.eqb c _); [intros [= _ <-]; shorter|].
    destruct (Ascii.eqb c _); [|done].
    destruct (scan_items f _) as [[l r2]|] eqn:E2; [|done]. intros [= _ <-].
    apply IH2 in E2. pose proof (skip_ws_length r1). shorter.
  - cbn [JsonParse.scan_members]. destruct s as [|c s]; [done|].
    destruct (Ascii.eqb c _); [|done]. destruct (scanstring s) as [[k r0]|] eqn:Es; [|done].
    destruct (skip_ws r0) as [|c1 r1] eqn:E1; [done|]. destruct (Ascii.eqb c1 _); [|done].
    destruct (scan_once f _) as [[x r2]|] eqn:E; [|done]. apply IH1 in E.
    pose proof (skip_ws_length r1).
    destruct (skip_ws r2) as [|c3 r3] eqn:E3; [done|].
    destruct (Ascii.eqb c3 _); [intros [= _ <-]; shorter|].
    destruct (Ascii.eqb c3 _); [|done].
    destruct (scan_members f _) as [[l r4]|] eqn:E4; [|done]. intros [= _ <-].
    apply IH3 in E4. pose proof (skip_ws_length r3). shorter.
Qed.

(** More fuel than [loads] takes changes nothing. *)
Lemma scan_fuel n : ∀ f f' s, String.length s ≤ n →
  (2 * String.length s < f → 2 * String.length s < f' → scan_once f s = scan_once f' s) ∧
  (2 * String.length s + 1 < f → 2 * String.length s + 1 < f' →
     scan_items f s = scan_items f' s ∧ scan_members f s = scan_members f' s).
Proof.
  induction n as [n IH] using lt_wf_ind. intros f f' s Hn.
  assert (Hone : ∀ g g' s, String.length s ≤ n → 2 * String.length s < g →
            2 * String.length s < g' → scan_once g s = scan_once g' s).
  { clear f f' s Hn. intros g g' s Hn Hg Hg'. destruct g as [|g], g' as [|g']; try lia.
    destruct s as [|c s]; [done|]. cbn [JsonParse.scan_once String.length] in *.
    assert (Hin : ∀ r, String.length r ≤ String.length s →
      scan_items g r = scan_items g' r ∧ scan_members g r = scan_members g' r).
    { intros r Hr. apply (IH (String.length s)); lia. }
    repeat match goal with |- (if ?b then _ else _) = _ => destruct b end; try done.
    - destruct (skip_ws s) as [|c' r] eqn:E; [done|]. destruct (Ascii.eqb c' _); [done|].
      pose proof (skip_ws_length s) as H. rewrite E in H. cbn in H.
      by destruct (Hin (String c' r) H) as [_ ->].
    - destruct (skip_ws s) as [|c' r] eqn:E; [done|]. destruct (Ascii.eqb c' _); [done|].
      pose proof (skip_ws_length s) as H. rewrite E in H. cbn in H.
      by destruct (Hin (String c' r) H) as [-> _]. }
  split; [by apply Hone|]. intros Hf Hf'. destruct f as [|f], f' as [|f']; try lia. split.
  - cbn [JsonParse.scan_items]. rewrite (Hone f f' s) by lia.
    destruct (scan_once f' s) as [[x r0]|] eqn:E; [|done].
    apply scan_shorter in E. destruct (skip_ws r0) as [|c r1] eqn:E1; [done|].
    repeat match goal with |- (if ?b then _ else _) = _ => destruct b end; try done.
    apply skip_ws_cons in E1. pose proof (skip_ws_length r1).
    destruct (IH (String.length (skip_ws r1)) ltac:(lia) f f' (skip_ws r1) ltac:(lia)) as [_ H'].
    by destruct (H' ltac:(lia) ltac:(lia)) as [-> _].
  - cbn [JsonParse.scan_members]. destruct s as [|c s]; [done|]. cbn [String.length] in *.
    destruct (Ascii.eqb c _); [|done]. destruct (scanstring s) as [[k r0]|] eqn:Es; [|done].
    destruct (skip_ws r0) as [|c1 r1] eqn:E1; [done|]. destruct (Ascii.eqb c1 _); [|done].
    apply scanstring_length in Es. apply skip_ws_cons in E1. pose proof (skip_ws_length r1).
    rewrite (Hone f f' (skip_ws r1)) by lia.
    destruct (scan_once f' (skip_ws r1)) as [[x r2]|] eqn:E; [|done]. apply scan_shorter in E.
    destruct (skip_ws r2) as [|c3 r3] eqn:E3; [done|].
    repeat match goal with |- (if ?b then _ else _) = _ => destruct b end; try done.
    apply skip_ws_cons in E3. pose proof (skip_ws_length r3).
    destruct (IH (String.length (skip_ws r3)) ltac:(lia) f f' (skip_ws r3) ltac:(lia)) as [_ H'].
    by destruct (H' ltac:(lia) ltac:(lia)) as [_ ->].
Qed.
Lemma loads_enough s f : loads_fuel s ≤ f →
  loads float_of s = match scan_once f (skip_ws s) with
                     | Some (v, r) => match skip_ws r with EmptyString => Some v | _ => None end
                     | None => None
                     end.
Proof.
  unfold loads, loads_fuel. intros Hf. pose proof (skip_ws_length s).
  destruct (scan_fuel (String.length s) f (S (S (2 * String.length s))) (skip_ws s)) as [H' _];
    [done|]. by rewrite H' by lia.
Qed.

(** ** What the writer writes is read *)

Definition stops (rest : string) : Prop :=
  match rest with
  | EmptyString => True
  | String c _ => (is_digit c || Ascii.eqb c "."%char || Ascii.eqb c "e"%char
                   || Ascii.eqb c "E"%char) = false
  end.

Lemma scan_escape a c r : scanstring (json_escape a c +:+ r) = before c (scanstring r).
Proof. destruct a, c as [[] [] [] [] [] [] [] []]; reflexivity. Qed.
Lemma scan_json_string a s r :
  scanstring (json_string_body a s +:+ String double_quote r) = Some (s, r).
Proof.
  induction s as [|c s IH]; [reflexivity|]. cbn [json_string_body].
  by rewrite str_app_assoc, scan_escape, IH.
Qed.

Lemma digit_char n : (n < 10)%N →
  is_digit (pretty_N_char n) = true ∧ (code (pretty_N_char n) - 48 = n)%N ∧
  Ascii.eqb (pretty_N_char n) "0"%char = (n =? 0)%N.
Proof.
  intros Hn. assert (∃ k, n = N.of_nat k ∧ k < 10) as (k & -> & Hk).
  { exists (N.to_nat n). rewrite N2Nat.id. split; [done|lia]. }
  do 10 (destruct k as [|k]; [done|]). lia.
Qed.
Lemma read_pretty_go x : ∀ s, read_digits 0 (pretty_N_go x s) = read_digits x s.
Proof.
  induction (N.lt_wf_0 x) as [x _ IH]. intros s. destruct (decide (0 < x)%N) as [Hx|Hx].
  - rewrite pretty_N_go_step by done. rewrite IH by (by apply N.div_lt). cbn [read_digits].
    destruct (digit_char (x mod 10)%N) as (_ & -> & _); [by apply N.mod_lt|].
    f_equal. pose proof (N.div_mod x 10). lia.
  - assert (x = 0%N) as -> by lia. by rewrite pretty_N_go_0.
Qed.
Lemma pretty_go_head x : (0 < x)%N → ∀ s, str_forall is_digit s = true →
  ∃ c t, pretty_N_go x s = String c t ∧ is_digit c = true ∧ Ascii.eqb c "0"%char = false ∧
    str_forall is_digit t = true.
Proof.
  induction (N.lt_wf_0 x) as [x _ IH]. intros Hx s Hs. rewrite pretty_N_go_step by done.
  destruct (digit_char (x mod 10)%N) as (Hd & _ & Hz); [by apply N.mod_lt|].
  destruct (decide (0 < x / 10)%N) as [Hq|Hq].
  - apply IH; [by apply N.div_lt|done|]. cbn. by rewrite Hd, Hs.
  - assert (x / 10 = 0)%N as E by (by apply N.le_0_r, N.nlt_ge). rewrite E, pretty_N_go_0. eexists _, _.
    split; [done|]. split; [done|]. split; [|done]. rewrite Hz. apply N.eqb_neq.
    pose proof (N.div_mod x 10). lia.
Qed.
Lemma take_digits_app d rest : str_forall is_digit d = true → stops rest →
  take_digits (d +:+ rest) = (d, rest).
Proof.
  intros Hd Hr. induction d as [|c d IH]; cbn [str_forall] in *.
  - destruct rest as [|c rest]; [done|]. change (EmptyString +:+ String c rest) with (String c rest).
    unfold stops in Hr. destruct (is_digit c) eqn:E; [discriminate|]. cbn [take_digits]. by rewrite E.
  - apply andb_true_iff in Hd as [Hc Hd]. change (String c d +:+ rest) with (String c (d +:+ rest)).
    cbn [take_digits]. by rewrite Hc, (IH Hd).
Qed.
Lemma unsigned_pretty (x : N) rest : stops rest →
  unsigned_part (pretty x +:+ rest) = Some (pretty x, rest) ∧ digits_value (pretty x) = x.
Proof.
  intros Hr. unfold pretty, pretty_N. destruct (decide (x = 0%N)) as [->|Hx]; [done|].
  split.
  - destruct (pretty_go_head x ltac:(lia) "" eq_refl) as (c & t & -> & Hc & Hz & Ht).
    change (String c t +:+ rest) with (String c (t +:+ rest)). cbn [unsigned_part].
    rewrite Hz, Hc. change (String c (t +:+ rest)) with (String c t +:+ rest).
    rewrite take_digits_app; [done| |done]. cbn [str_forall]. by rewrite Hc, Ht.
  - unfold digits_value. by rewrite read_pretty_go.
Qed.
Lemma pretty_no_dash (x : N) : ∀ r, match pretty x +:+ r with
  | String c _ => Ascii.eqb c "-"%char = false | EmptyString => False end.
Proof.
  intros r. unfold pretty, pretty_N. destruct (decide (x = 0%N)) as [->|Hx]; [done|].
  destruct (pretty_go_head x ltac:(lia) "" eq_refl) as (c & t & -> & Hc & _).
  change (String c t +:+ r) with (String c (t +:+ r)).
  destruct (Ascii.eqb c "-"%char) eqn:E; [|done]. apply Ascii.eqb_eq in E as ->. discriminate Hc.
Qed.
Lemma stops_parts rest : stops rest →
  fraction_part rest = (EmptyString, rest) ∧ exponent_part rest = (EmptyString, rest).
Proof.
  destruct rest as [|c r]; [done|]. cbn [stops fraction_part exponent_part]. intros H.
  apply orb_false_elim in H as [H He]. apply orb_false_elim in H as [H He'].
  apply orb_false_elim in H as [_ Hd]. by rewrite Hd, He, He'.
Qed.
Lemma match_pretty z rest : stops rest →
  match_number float_of (pretty z +:+ rest) = Some (JInt z, rest).
Proof.
  intros Hr. destruct (stops_parts rest Hr) as [Hf He]. unfold match_number.
  assert (integer_part (pretty z +:+ rest) = Some (pretty z, rest) ∧ int_of (pretty z) = z) as [-> Hz].
  { destruct z as [|x|x].
    - by destruct rest.
    - change (pretty (Z.pos x)) with (pretty (N.pos x)).
      destruct (unsigned_pretty (N.pos x) rest Hr) as [Hu Hv].
      pose proof (pretty_no_dash (N.pos x) rest) as Hd. pose proof (pretty_no_dash (N.pos x) "") as Hd'.
      rewrite str_app_nil_r in Hd'. split.
      + unfold integer_part. destruct (pretty (N.pos x) +:+ rest); [done|]. by rewrite Hd.
      + unfold int_of. destruct (pretty (N.pos x)); [done|]. by rewrite Hd', Hv.
    - change (pretty (Z.neg x)) with (String "-"%char (pretty (N.pos x))).
      destruct (unsigned_pretty (N.pos x) rest Hr) as [Hu Hv].
      change (String "-"%char (pretty (N.pos x)) +:+ rest)
        with (String "-"%char (pretty (N.pos x) +:+ rest)).
      unfold integer_part, int_of. change (Ascii.eqb "-"%char "-"%char) with true. cbv iota.
      by rewrite Hu, Hv. }
  by rewrite Hf, He, Hz.
Qed.

Section writer.
Context (float_repr : Q → string) (layout : Layout).
#[local] Abbreviation text := (json_text float_repr layout).

(** The text of a float is a number that reads as this float. *)
Definition float_reads (q : Q) : Prop :=
  (∀ rest, stops rest → match_number float_of (float_repr q +:+ rest) = Some (JFloat q, rest)) ∧
  ∃ c s, float_repr q = String c s ∧ number_char c = true.
(** The floats read back, and no object has a member twice. *)
Fixpoint readable (v : json) : Prop :=
  match v with
  | JFloat q => float_reads q
  | JArr items => (fix all (l : list json) : Prop :=
                     match l with [] => True | x :: l' => readable x ∧ all l' end) items
  | JObj members => NoDup (map fst members) ∧
                    (fix all (l : list (string * json)) : Prop :=
                       match l with [] => True | (_, x) :: l' => readable x ∧ all l' end) members
  | _ => True
  end.

(** A separator is its character and white space. *)
Context (item_space key_space : string).
Hypothesis items_apart : item_separator layout = String ","%char item_space.
Hypothesis keys_apart : key_separator layout = String ":"%char key_space.
Hypothesis item_blank : str_forall is_ws item_space = true.
Hypothesis key_blank : str_forall is_ws key_space = true.

Lemma skip_blank w s : str_forall is_ws w = true → skip_ws (w +:+ s) = skip_ws s.
Proof.
  induction w as [|c w IH]; [done|]. cbn [str_forall]. intros [Hc Hw]%andb_true_iff.
  change (String c w +:+ s) with (String c (w +:+ s)). cbn [skip_ws]. rewrite Hc. auto.
Qed.
(** The first character of a value is not white space, nor does it close. *)
Definition opens (s : string) : Prop :=
  match s with
  | String c _ => is_ws c = false ∧ Ascii.eqb c "]"%char = false ∧ Ascii.eqb c "}"%char = false
  | EmptyString => False
  end.
Lemma number_head c : number_char c = true →
  is_ws c = false ∧ Forall (λ d, Ascii.eqb c d = false)
    [double_quote; "{"; "["; "n"; "t"; "f"; "]"; "}"]%char.
Proof. destruct c as [[] [] [] [] [] [] [] []]; try done; intros _; vm_compute; split; auto 10. Qed.
Lemma number_opens c s : number_char c = true → opens (String c s).
Proof.
  intros [Hw H]%number_head. rewrite !Forall_cons in H. by destruct H as (_&_&_&_&_&_&?&?&_).
Qed.
Lemma scan_number f c s : number_char c = true →
  scan_once (S f) (String c s) = match_number float_of (String c s).
Proof.
  intros [_ H]%number_head. rewrite !Forall_cons in H. destruct H as (H1&H2&H3&H4&H5&H6&_).
  cbn [JsonParse.scan_once]. by rewrite H1, H2, H3, H4, H5, H6.
Qed.

Lemma text_opens v rest : readable v → opens (text v +:+ rest).
Proof.
  destruct v as [| [] |z|q|s|l|m]; intros Hv; try (vm_compute; done).
  - destruct (pretty_head z) as (c & s & E & Hc). cbn [json_text]. rewrite E. by apply number_opens.
  - destruct Hv as [_ (c & s & E & Hc)]. cbn [json_text]. rewrite E. by apply number_opens.
Qed.
Lemma opens_skip s : opens s → skip_ws s = s.
Proof. destruct s as [|c s]; [done|]. intros (H & _). cbn [skip_ws]. by rewrite H. Qed.

(** A value is read from its text with the fuel of [loads]. *)
Definition reads (v : json) : Prop :=
  ∀ rest f, readable v → stops rest → 2 * String.length (text v +:+ rest) < f →
    scan_once f (text v +:+ rest) = Some (v, rest).
Lemma app_length' (s t : string) : String.length (s +:+ t) = String.length s + String.length t.
Proof. induction s as [|c s IH]; [done|]. change (String c s +:+ t) with (String c (s +:+ t)). cbn. by rewrite IH. Qed.
Lemma stops_items w : stops (item_separator layout +:+ w).
Proof. by rewrite items_apart. Qed.

Lemma join_cons sep x l t : join sep (x :: l) +:+ t
  = x +:+ match l with [] => t | _ => sep +:+ join sep l +:+ t end.
Proof.
  destruct l as [|y l]; [done|]. change (join sep (x :: y :: l)) with (x +:+ sep +:+ join sep (y :: l)).
  by rewrite !str_app_assoc.
Qed.
Definition all_readable (l : list json) : Prop := readable (JArr l).

Lemma items_read l : l ≠ [] → Forall reads l → all_readable l → ∀ rest f,
  2 * String.length (join (item_separator layout) (map text l) +:+ String "]"%char rest) + 1 < f →
  scan_items f (join (item_separator layout) (map text l) +:+ String "]"%char rest) = Some (l, rest).
Proof.
  induction l as [|x l IH]; [done|]. intros _ [Hx Hl]%Forall_cons [Rx Rl] rest f Hf.
  cbn [map] in *. rewrite join_cons in *. rewrite app_length' in Hf.
  destruct f as [|f]; [lia|]. cbn [JsonParse.scan_items].
  destruct l as [|y l]; cbn [map] in *.
  - rewrite Hx; [done|done|done|]. rewrite app_length'. lia.
  - rewrite items_apart in *.
    change (String "," item_space +:+ ?w) with (String ","%char (item_space +:+ w)) in *.
    rewrite Hx; [|done|done|rewrite app_length'; lia]. cbn [skip_ws].
    change (is_ws ",") with false. change (Ascii.eqb "," "]") with false.
    change (Ascii.eqb "," ",") with true. cbv iota.
    rewrite skip_blank by done.
    assert (opens (join (String "," item_space) (text y :: map text l) +:+ String "]" rest)) as Ho.
    { rewrite join_cons. apply text_opens, Rl. }
    rewrite opens_skip by done. rewrite IH; [done|done|done|done|].
    cbn [String.length] in Hf. rewrite (app_length' item_space) in Hf. lia.
Qed.

Lemma members_read m : m ≠ [] → Forall (λ kv, reads (snd kv)) m → all_readable (map snd m) →
  ∀ rest f,
  2 * String.length (join (item_separator layout) (map (member_text float_repr layout) m)
                     +:+ String "}"%char rest) + 1 < f →
  scan_members f (join (item_separator layout) (map (member_text float_repr layout) m)
                  +:+ String "}"%char rest) = Some (m, rest).
Proof.
  induction m as [|[k x] m IH]; [done|]. intros _ [Hx Hl]%Forall_cons [Rx Rl] rest f Hf.
  cbn [map snd] in *. rewrite join_cons in *. unfold member_text at 1 in Hf.
  unfold member_text at 1. cbn [fst snd] in *. unfold json_string in *.
  rewrite keys_apart in *. rewrite !str_app_assoc in *.
  change (String double_quote ?a +:+ ?b) with (String double_quote (a +:+ b)) in *.
  rewrite !str_app_assoc in *.
  change (String double_quote EmptyString +:+ ?b) with (String double_quote b) in *.
  change (String ":" key_space +:+ ?b) with (String ":" (key_space +:+ b)) in *.
  cbn [String.length] in Hf. rewrite !app_length' in Hf. cbn [String.length] in Hf.
  rewrite !app_length' in Hf.
  destruct f as [|f]; [lia|]. cbn [JsonParse.scan_members].
  change (Ascii.eqb double_quote double_quote) with true. cbv iota.
  rewrite scan_json_string. cbn [skip_ws]. change (is_ws ":") with false.
  change (Ascii.eqb ":" ":") with true. cbv iota.
  rewrite skip_blank, opens_skip by (done || by apply text_opens).
  destruct m as [|y m]; cbn [map] in *.
  - rewrite Hx; [done|done|done|]. rewrite app_length'. lia.
  - rewrite items_apart in *.
    change (String "," item_space +:+ ?w) with (String ","%char (item_space +:+ w)) in *.
    rewrite Hx; [|done|done|rewrite app_length'; lia]. cbn [skip_ws].
    change (is_ws ",") with false. change (Ascii.eqb "," "}") with false.
    change (Ascii.eqb "," ",") with true. cbv iota.
    rewrite skip_blank by done.
    assert (opens (join (String "," item_space)
      (member_text float_repr layout y :: map (member_text float_repr layout) m)
      +:+ String "}" rest)) as Ho by (by rewrite join_cons).
    rewrite opens_skip by done. rewrite IH; [done|done|done|done|].
    cbn [String.length] in Hf. rewrite app_length' in Hf. lia.
Qed.

Lemma readable_members m : readable (JObj m) → NoDup (map fst m) ∧ all_readable (map snd m).
Proof.
  intros [Hk Hm]. split; [done|]. clear Hk. induction m as [|[k x] m IH]; [done|].
  destruct Hm as [Hx Hm]. split; [done|]. by apply IH.
Qed.

Lemma scan_text v : reads v.
Proof.
  induction v as [v Ha Ho|l IH|m IH] using json_induction; intros rest f Hv Hr Hf;
    (destruct f as [|f]; [lia|]).
  - destruct v as [| [] |z|q|s|l|m];
      [destruct rest; reflexivity..| | | | |].
    + cbn [json_text]. destruct (pretty_head z) as (c & s & E & Hc).
      rewrite E. change (String c s +:+ rest) with (String c (s +:+ rest)).
      rewrite scan_number by done. change (String c (s +:+ rest)) with (String c s +:+ rest).
      rewrite <- E. by apply match_pretty.
    + destruct Hv as [Hq (c & s & E & Hc)]. specialize (Hq rest Hr). revert Hq. cbn [json_text].
      rewrite E. change (String c s +:+ rest) with (String c (s +:+ rest)).
      by rewrite scan_number.
    + cbn [json_text]. unfold json_string.
      change (String double_quote ?a +:+ ?b) with (String double_quote (a +:+ b)).
      rewrite str_app_assoc. cbn [JsonParse.scan_once].
      change (Ascii.eqb double_quote double_quote) with true. cbv iota.
      change (String double_quote EmptyString +:+ rest) with (String double_quote rest).
      by rewrite scan_json_string.
    + by destruct (Ha l).
    + by destruct (Ho m).
  - change (text (JArr l)) with ("[" +:+ join (item_separator layout) (map text l) +:+ "]") in *.
    rewrite !str_app_assoc in *. change ("[" +:+ ?w) with (String "[" w) in *.
    change ("]" +:+ rest) with (String "]" rest) in *. cbn [JsonParse.scan_once].
    change (Ascii.eqb "[" double_quote) with false. change (Ascii.eqb "[" "{") with false.
    change (Ascii.eqb "[" "[") with true. cbv iota. destruct l as [|x l]; [done|].
    assert (opens (join (item_separator layout) (map text (x :: l)) +:+ String "]" rest)) as Hop.
    { cbn [map]. rewrite join_cons. apply text_opens, Hv. }
    rewrite opens_skip by done. cbn [String.length] in Hf.
    destruct (join _ _ +:+ _) as [|c r] eqn:E; [done|]. destruct Hop as (_ & -> & _).
    rewrite <- E in *. by rewrite items_read by (done || lia).
  - change (text (JObj m)) with
      ("{" +:+ join (item_separator layout) (map (member_text float_repr layout) m) +:+ "}") in *.
    rewrite !str_app_assoc in *. change ("{" +:+ ?w) with (String "{" w) in *.
    change ("}" +:+ rest) with (String "}" rest) in *. cbn [JsonParse.scan_once].
    change (Ascii.eqb "{" double_quote) with false. change (Ascii.eqb "{" "{") with true.
    cbv iota. destruct m as [|x m]; [done|].
    destruct (readable_members _ Hv) as [Hk Hm].
    assert (opens (join (item_separator layout) (map (member_text float_repr layout) (x :: m))
                   +:+ String "}" rest)) as Hop by (cbn [map]; by rewrite join_cons).
    rewrite opens_skip by done. cbn [String.length] in Hf.
    destruct (join _ _ +:+ _) as [|c r] eqn:E; [done|]. destruct Hop as (_ & _ & ->).
    rewrite <- E in *. rewrite members_read by (done || lia). unfold _unique.
    by rewrite bool_decide_true.
Qed.
(** [json.loads(json.dumps(v))] without sorting. *)
Lemma loads_text v : readable v → loads float_of (text v) = Some v.
Proof.
  intros Hv. unfold loads, loads_fuel.
  pose proof (scan_text v "" (S (S (2 * String.length (text v)))) Hv I) as H.
  pose proof (text_opens v "" Hv) as Ho. rewrite str_app_nil_r in H, Ho.
  rewrite opens_skip by done. rewrite H by lia. done.
Qed.

Lemma all_readable_forall l : all_readable l ↔ Forall readable l.
Proof.
  induction l as [|x l IH]; [split; constructor|]. rewrite Forall_cons, <- IH. done.
Qed.
Lemma readable_obj m : readable (JObj m) ↔ NoDup (map fst m) ∧ Forall (λ kv, readable (snd kv)) m.
Proof.
  rewrite <- Forall_map. rewrite <- all_readable_forall. split; [apply readable_members|].
  intros [Hk Hm]. split; [done|]. clear Hk. induction m as [|[k x] m IH]; [done|].
  destruct Hm as [Hx Hm]. split; [done|]. by apply IH.
Qed.
Lemma sort_readable v : readable v → readable (sort_keys v).
Proof.
  induction v as [v Ha Ho|l IH|m IH] using json_induction; intros Hv.
  - destruct v; try done; exfalso; [by eapply Ha|by eapply Ho].
  - apply all_readable_forall. cbn [sort_keys]. apply Forall_map.
    apply all_readable_forall in Hv. rewrite !Forall_forall in *. auto.
  - cbn [sort_keys]. apply readable_obj in Hv as [Hk Hm]. apply readable_obj.
    set (sorted := map (λ kv, (fst kv, sort_keys (snd kv))) m).
    pose proof (merge_sort_Permutation key_le sorted) as Hp. split.
    + rewrite Hp. unfold sorted. by rewrite map_map.
    + rewrite Hp. apply Forall_map. rewrite !Forall_forall in *. cbn. auto.
Qed.
Lemma sort_keys_idem v : readable v → sort_keys (sort_keys v) = sort_keys v.
Proof.
  induction v as [v Ha Ho|l IH|m IH] using json_induction; intros Hv.
  - destruct v; try done; exfalso; [by eapply Ha|by eapply Ho].
  - cbn [sort_keys]. f_equal. apply all_readable_forall in Hv. rewrite map_map.
    apply map_ext_in. intros x Hx%list_elem_of_In. rewrite Forall_forall in *. auto.
  - cbn [sort_keys]. f_equal. apply readable_obj in Hv as [Hk Hm].
    set (sorted := map (λ kv, (fst kv, sort_keys (snd kv))) m).
    pose proof (merge_sort_Permutation key_le sorted) as Hp.
    assert (map (λ kv, (fst kv, sort_keys (snd kv))) (merge_sort key_le sorted)
            = merge_sort key_le sorted) as ->.
    { rewrite <- (map_id (merge_sort key_le sorted)) at 2. apply map_ext_in.
      intros [k x] Hx%list_elem_of_In. rewrite Hp in Hx. unfold sorted in Hx.
      apply list_elem_of_fmap in Hx as ([k' y] & [= -> ->] & Hy). cbn. f_equal.
      rewrite Forall_forall in *. apply (IH _ Hy (Hm _ Hy)). }
    apply sorted_members_unique; try apply StronglySorted_merge_sort; try apply _.
    + rewrite merge_sort_Permutation, Hp. unfold sorted. by rewrite map_map.
    + apply merge_sort_Permutation.
Qed.
(** What is written is read: the value with its members in order. *)
Lemma loads_dumps v : readable v →
  loads float_of (json_dumps float_repr layout v) = Some (sort_keys v).
Proof. intros Hv. by apply loads_text, sort_readable. Qed.
End writer.
End parser_facts.
