(* ===== verification/Regex.v ===== *)
(** * Regular expressions (the standard library's [re])

    The constructs that the patterns of the repository use, matched with
    [re.search] and [re.IGNORECASE].  A position of the subject is the
    character before it, when there is one, and the text behind it; [ends r p]
    lists the positions where a match of [r] that starts at [p] may end. *)
From stdpp Require Import base list strings.
From Stdlib Require Import Bool Ascii NArith Lia.
From S2P Require Import Prelude PyStr.
#[local] Open Scope py_scope.

Inductive regex :=
| REps
| RClass (p : ascii → bool)
| RSeq (r1 r2 : regex)
| RAlt (r1 r2 : regex)
| RStar (r : regex)
| RBound          (* \b *)
| RStart          (* ^ *)
| REnd.           (* $ *)

Definition position : Type := option ascii * string.

(** [\w] and [\b]. *)
Definition is_word (c : ascii) : bool := is_alnum_char c || Ascii.eqb c "_"%char.
Definition at_word (o : option ascii) : bool :=
  match o with Some c => is_word c | None => false end.
Definition next_char (s : string) : option ascii :=
  match s with EmptyString => None | String c _ => Some c end.

(** [ends_star step n p]: zero or more steps from [p], each consuming text; a
    subject of length [n] allows at most [n] of them. *)
Fixpoint ends_star (step : position → list position) (n : nat) (p : position)
  : list position :=
  match n with
  | O => [p]
  | S n' =>
      p :: flat_map (ends_star step n')
             (filter (λ q, String.length (snd q) < String.length (snd p)) (step p))
  end.

Fixpoint ends (r : regex) (p : position) : list position :=
  match r with
  | REps => [p]
  | RClass f =>
      match snd p with
      | String c s => if f c then [(Some c, s)] else []
      | EmptyString => []
      end
  | RSeq r1 r2 => flat_map (ends r2) (ends r1 p)
  | RAlt r1 r2 => ends r1 p ++ ends r2 p
  | RStar r => ends_star (ends r) (String.length (snd p)) p
  | RBound => if xorb (at_word (fst p)) (at_word (next_char (snd p))) then [p] else []
  | RStart => match fst p with None => [p] | Some _ => [] end
  | REnd =>
      match snd p with
      | EmptyString => [p]
      | String c EmptyString => if Ascii.eqb c (ascii_of_N 10) then [p] else []
      | String _ _ => []
      end
  end.

Fixpoint search_from (r : regex) (prev : option ascii) (s : string) : bool :=
  match ends r (prev, s) with
  | _ :: _ => true
  | [] => match s with
          | EmptyString => false
          | String c s' => search_from r (Some c) s'
          end
  end.

(** [re.search(pattern, text)] as a truth value. *)
Definition re_search (r : regex) (text : string) : bool := search_from r None text.

(** ** Pattern building *)

(** A literal character under [re.IGNORECASE], and literal text. *)
Definition rchar (c : ascii) : regex :=
  RClass (λ a, Ascii.eqb (lower_char a) (lower_char c)).
Fixpoint rstr (s : string) : regex :=
  match s with
  | EmptyString => REps
  | String c EmptyString => rchar c
  | String c s' => RSeq (rchar c) (rstr s')
  end.
Definition rspace : regex := RClass is_space.                                  (* \s *)
Definition rdot : regex := RClass (λ a, negb (Ascii.eqb a (ascii_of_N 10))).   (* . *)
Definition rplus (r : regex) : regex := RSeq r (RStar r).
Fixpoint ralts (l : list regex) : regex :=
  match l with
  | [] => RClass (λ _, false)
  | [r] => r
  | r :: l' => RAlt r (ralts l')
  end.
Fixpoint rseqs (l : list regex) : regex :=
  match l with
  | [] => REps
  | [r] => r
  | r :: l' => RSeq r (rseqs l')
  end.

(** ** The matcher against the meaning of the constructs *)

Inductive rmatch : regex → position → position → Prop :=
| m_eps p : rmatch REps p p
| m_class f prev c s : f c = true → rmatch (RClass f) (prev, String c s) (Some c, s)
| m_seq r1 r2 p q t : rmatch r1 p q → rmatch r2 q t → rmatch (RSeq r1 r2) p t
| m_alt_l r1 r2 p q : rmatch r1 p q → rmatch (RAlt r1 r2) p q
| m_alt_r r1 r2 p q : rmatch r2 p q → rmatch (RAlt r1 r2) p q
| m_star_nil r p : rmatch (RStar r) p p
| m_star_cons r p q t :
    rmatch r p q → String.length (snd q) < String.length (snd p) →
    rmatch (RStar r) q t → rmatch (RStar r) p t
| m_bound p : xorb (at_word (fst p)) (at_word (next_char (snd p))) = true → rmatch RBound p p
| m_start s : rmatch RStart (None, s) (None, s)
| m_end prev : rmatch REnd (prev, EmptyString) (prev, EmptyString)
| m_end_newline prev :
    rmatch REnd (prev, String (ascii_of_N 10) EmptyString)
                (prev, String (ascii_of_N 10) EmptyString).

Lemma ends_star_sound r :
  (∀ p q, q ∈ ends r p → rmatch r p q) →
  ∀ n p q, q ∈ ends_star (ends r) n p → rmatch (RStar r) p q.
Proof.
  intros IH n. induction n as [|n IHn]; intros p q; cbn.
  - intros ->%list_elem_of_singleton. constructor.
  - intros [->|Hq]%elem_of_cons; [constructor|].
    apply list_elem_of_In, in_flat_map in Hq as (t & Ht & Hq).
    apply list_elem_of_In, list_elem_of_filter in Ht as [Hlt Ht].
    econstructor; [by apply IH|done|]. apply IHn. by apply list_elem_of_In.
Qed.

Lemma ends_sound r p q : q ∈ ends r p → rmatch r p q.
Proof.
  revert p q. induction r as [|f|r1 IH1 r2 IH2|r1 IH1 r2 IH2|r IH| | |]; intros [prev s] q; cbn.
  - intros ->%list_elem_of_singleton. constructor.
  - destruct s as [|c s]; [by intros ?%not_elem_of_nil|]. destruct (f c) eqn:E.
    + intros ->%list_elem_of_singleton. by constructor.
    + by intros ?%not_elem_of_nil.
  - intros (t & Ht & Hq)%list_elem_of_In%in_flat_map.
    econstructor; [apply IH1|apply IH2]; by apply list_elem_of_In.
  - intros [Hq|Hq]%elem_of_app; [apply m_alt_l|apply m_alt_r]; auto.
  - by apply ends_star_sound.
  - case_match eqn:E; [|by intros ?%not_elem_of_nil].
    intros ->%list_elem_of_singleton. by constructor.
  - destruct prev; [by intros ?%not_elem_of_nil|].
    intros ->%list_elem_of_singleton. constructor.
  - destruct s as [|c [|c' s]]; [intros ->%list_elem_of_singleton; constructor| |
      by intros ?%not_elem_of_nil].
    destruct (Ascii.eqb _ _) eqn:E; [|by intros ?%not_elem_of_nil].
    apply Ascii.eqb_eq in E as ->. intros ->%list_elem_of_singleton. constructor.
Qed.

Lemma ends_star_complete r p q :
  (∀ p q, rmatch r p q → q ∈ ends r p) →
  rmatch (RStar r) p q → ∀ n, String.length (snd p) ≤ n → q ∈ ends_star (ends r) n p.
Proof.
  intros IH H. remember (RStar r) as rs eqn:Hrs. revert Hrs.
  induction H; intros [= ->] n Hn.
  - destruct n; left.
  - destruct n as [|n]; [lia|]. cbn. right. apply list_elem_of_In, in_flat_map.
    exists q. split; apply list_elem_of_In.
    + apply list_elem_of_filter. split; [done|]. by apply IH.
    + apply IHrmatch2; [done|lia].
Qed.

Lemma ends_complete r p q : rmatch r p q → q ∈ ends r p.
Proof.
  revert p q. induction r as [|f|r1 IH1 r2 IH2|r1 IH1 r2 IH2|r IH| | |]; intros p q H.
  5: cbn; by eapply ends_star_complete.
  all: inversion H; subst; cbn.
  - left.
  - match goal with H : f _ = true |- _ => rewrite H end. left.
  - apply list_elem_of_In, in_flat_map. eexists. split; apply list_elem_of_In; eauto.
  - apply elem_of_app. auto.
  - apply elem_of_app. auto.
  - match goal with H : xorb _ _ = true |- _ => rewrite H end. left.
  - left.
  - left.
  - left.
Qed.

(** The positions that [re.search] tries. *)
Inductive reaches (text : string) : position → Prop :=
| reaches_start : reaches text (None, text)
| reaches_next prev c s : reaches text (prev, String c s) → reaches text (Some c, s).

(** The executable search finds a match exactly when one exists somewhere. *)
Lemma re_search_correct r text :
  re_search r text = true ↔ ∃ p q, reaches text p ∧ rmatch r p q.
Proof.
  unfold re_search. split.
  - assert (∀ s prev, reaches text (prev, s) → search_from r prev s = true →
      ∃ p q, reaches text p ∧ rmatch r p q) as H; [|apply H; constructor].
    induction s as [|c s IH]; intros prev Hr; cbn.
    + destruct (ends r _) as [|q l] eqn:E; [done|]. intros _.
      exists (prev, EmptyString), q. split; [done|]. apply ends_sound. rewrite E. left.
    + destruct (ends r _) as [|q l] eqn:E.
      * apply IH. by econstructor.
      * intros _. exists (prev, String c s), q. split; [done|]. apply ends_sound. rewrite E. left.
  - intros ([prev s] & q & Hr & Hm). apply ends_complete in Hm.
    assert (search_from r prev s = true) as Hs.
    { destruct s; cbn; destruct (ends r _); try done; by apply not_elem_of_nil in Hm. }
    clear Hm. remember (prev, s) as p eqn:Hp. revert prev s Hp Hs.
    induction Hr as [|prev c s Hr IH]; intros prev' s' [= <- <-] Hs; [done|].
    apply (IH prev (String c s)); [done|]. cbn. by destruct (ends r _).
Qed.

(** ** Literal text, runs of white space and words *)

(** The character before the position reached by consuming [w]. *)
Fixpoint after (prev : option ascii) (w : string) : option ascii :=
  match w with EmptyString => prev | String c w' => after (Some c) w' end.

Lemma rmatch_rstr s prev x q :
  rmatch (rstr s) (prev, x) q ↔
  ∃ w rest, x = w +:+ rest ∧ lower w = lower s ∧ q = (after prev w, rest).
Proof.
  revert prev x q. induction s as [|c s IH]; intros prev x q.
  - cbn. split.
    + inversion 1; subst. by exists EmptyString, x.
    + intros ([|] & rest & -> & Hl & ->); [constructor|discriminate Hl].
  - assert (rmatch (rstr (String c s)) (prev, x) q ↔
            rmatch (RSeq (rchar c) (rstr s)) (prev, x) q) as ->.
    { destruct s as [|c' s]; [|done]. cbn. split.
      - intros H. econstructor; [done|constructor].
      - inversion 1; subst. by match goal with H : rmatch REps _ _ |- _ => inversion H; subst end. }
    split.
    + inversion 1 as [| |? ? ? p' ? Hc Hs| | | | | | | |]; subst. inversion Hc; subst.
      apply IH in Hs as (w & rest & -> & Hl & ->).
      exists (String c0 w), rest. repeat split; [|done..].
      match goal with H : Ascii.eqb _ _ = true |- _ => apply Ascii.eqb_eq in H; unfold lower in *;
        cbn; by rewrite H, Hl end.
    + intros ([|a w] & rest & -> & Hl & ->); [done|]. unfold lower in Hl. cbn in Hl.
      injection Hl as Ha Hl. rewrite str_app_cons. cbn [after].
      econstructor; [constructor; by apply Ascii.eqb_eq|]. apply IH. by exists w, rest.
Qed.

Lemma rmatch_star_class f prev x q :
  rmatch (RStar (RClass f)) (prev, x) q ↔
  ∃ w rest, x = w +:+ rest ∧ str_forall f w = true ∧ q = (after prev w, rest).
Proof.
  split.
  - remember (RStar (RClass f)) as r eqn:Hr. remember (prev, x) as p eqn:Hp. intros H.
    revert prev x Hr Hp. induction H; intros prev' x' Hr Hp; try discriminate.
    + subst. by exists EmptyString, x'.
    + injection Hr as ->. subst. inversion H; subst.
      destruct (IHrmatch2 _ _ eq_refl eq_refl) as (w & rest & -> & Hw & ->).
      exists (String c w), rest. cbn. by rewrite Hw, andb_true_r.
  - intros (w & rest & -> & Hw & ->). revert prev. induction w as [|c w IH]; intros prev.
    + constructor.
    + cbn in Hw. split_bools. rewrite str_app_cons. econstructor; [by constructor|cbn; lia|].
      by apply IH.
Qed.

Lemma reaches_before text p : reaches text p → fst p = None → snd p = text.
Proof. by destruct 1. Qed.

(** A property of single characters, checked on all of them. *)
Definition all_chars : list ascii := map ascii_of_nat (seq 0 256).
Lemma forall_chars (p : ascii → bool) : forallb p all_chars = true → ∀ c, p c = true.
Proof.
  rewrite forallb_forall. intros H c. apply H. unfold all_chars. apply in_map_iff.
  exists (nat_of_ascii c). split; [apply ascii_nat_embedding|].
  apply in_seq. pose proof (nat_ascii_bounded c). lia.
Qed.

Lemma is_word_lower c : is_word (lower_char c) = is_word c.
Proof.
  revert c. assert (∀ c, Bool.eqb (is_word (lower_char c)) (is_word c) = true) as H.
  { apply forall_chars. by vm_compute. }
  intros c. by apply eqb_prop.
Qed.

Lemma word_not_space c : is_word c = true → is_space c = false.
Proof.
  revert c. assert (∀ c, implb (is_word c) (negb (is_space c)) = true) as H.
  { apply forall_chars. by vm_compute. }
  intros c Hc. specialize (H c). rewrite Hc in H. by destruct (is_space c).
Qed.

Lemma str_forall_lower_word w v :
  lower w = lower v → str_forall is_word v = true → str_forall is_word w = true.
Proof.
  unfold lower. revert v. induction w as [|c w IH]; intros [|d v]; cbn; try done.
  intros [= Hc Hw] Hv. split_bools. apply andb_true_iff. split; [|by eapply IH].
  by rewrite <- is_word_lower, Hc, is_word_lower.
Qed.
