(* ===== verification/Catalog.v ===== *)
(** * The command catalog ([ordin/data.py], [ordin/packs.py])

    What the loaders return for a given catalog root and environment.  Reading
    files and their JSON is outside the model: a [Pack] is what
    [discover_packs] and the three [load_pack_*] functions read for one
    directory, a [Store] the whole catalog on disk with the optional manual
    index and the value of [ORDIN_PACKS]. *)
From stdpp Require Import base list strings sets gmap.
From Stdlib Require Import Bool Ascii Lia.
From S2P Require Import Prelude PyStr Json Regex.
#[local] Open Scope py_scope.

(** A risk rule with its compiled pattern. *)
Record RiskRule := {
  rule_id : string;
  rule_pattern : regex;
  rule_risk : string;
  rule_reason : string;
  rule_category : option string;
  rule_safer_next_step : option string }.

Record Pack := {
  pack_name : string;
  pack_enabled_by_default : bool;
  pack_commands : list json;
  pack_risk_rules : list RiskRule;
  pack_effects : list (string * json) }.

Record Store := {
  core_commands : list json;
  core_risk_rules : list RiskRule;
  core_effects : list (string * json);
  packs : list Pack;
  man_index : list json;
  pack_env : option string }.

Definition configured_pack_names (st : Store) : list string :=
  match pack_env st with
  | None => map pack_name (filter (λ p, pack_enabled_by_default p = true) (packs st))
  | Some configured =>
      let configured := strip configured in
      if configured =s "*" then map pack_name (packs st)
      else if negb (truthy configured) then []
      else map strip (filter (λ item, truthy (strip item) = true)
                             (split_char ","%char configured))
  end.

Definition enabled_packs (st : Store) : list Pack :=
  filter (λ p, mem (pack_name p) (configured_pack_names st) = true) (packs st).

Definition is_pack_enabled (st : Store) (name : string) : bool :=
  existsb (λ p, pack_name p =s name) (enabled_packs st).

Definition load_risk_rules (st : Store) : list RiskRule :=
  core_risk_rules st ++ flat_map pack_risk_rules (enabled_packs st).

(** [load_effect_catalog]: a pack may repeat a definition but not change it. *)
Definition merge_effect (pack : Pack) (effects : res (list (string * json)))
    (item : string * json) : res (list (string * json)) :=
  effects ← effects;
  let '(name, definition) := item in
  match dict_get name effects with
  | Some present =>
      if negb (json_equal present definition)
      then Err (ValueError ("enabled command pack " +:+ repr (pack_name pack)
                            +:+ " redefines effect " +:+ repr name))
      else Ok (dict_set name definition effects)
  | None => Ok (dict_set name definition effects)
  end.
Definition merge_pack (effects : res (list (string * json))) (pack : Pack)
  : res (list (string * json)) :=
  foldl (merge_effect pack) effects (pack_effects pack).
Definition load_effect_catalog (st : Store) : res (list (string * json)) :=
  foldl merge_pack (Ok (core_effects st)) (enabled_packs st).

(** [load_commands(include_man_index=True)]: an index entry is added when no
    card before it has its name. *)
Definition known_command (known : list json) (name : json) : bool :=
  existsb (json_equal name) known.
Definition add_indexed (commands : list json) (entry : json) : list json :=
  if known_command (map (λ c, jget c "command") commands) (jget entry "command")
  then commands else commands ++ [entry].
Definition load_commands (st : Store) (include_man_index : bool) : list json :=
  let commands := core_commands st ++ flat_map pack_commands (enabled_packs st) in
  if include_man_index then foldl add_indexed commands (man_index st) else commands.

(** [command.get("command", "").lower()]. *)
Definition card_name (command : json) : res string :=
  if negb (is_mapping command) then Err (AttributeError "get") else
  match jget_default command "command" (JStr EmptyString) with
  | JStr s => Ok (lower s)
  | _ => Err (AttributeError "lower")
  end.

Fixpoint find_card (normalized : string) (commands : list json) : res (option json) :=
  match commands with
  | [] => Ok None
  | command :: commands' =>
      name ← card_name command;
      if name =s normalized then Ok (Some command) else find_card normalized commands'
  end.

Definition find_command (st : Store) (command_name : string) : res (option json) :=
  find_card (lower (strip command_name)) (load_commands st true).

(** ** Facts *)

Lemma merge_pack_err packs e : foldl merge_pack (Err e) packs = Err e.
Proof.
  induction packs as [|p packs IH]; [done|]. cbn.
  assert (merge_pack (Err e) p = Err e) as ->; [|done].
  unfold merge_pack. induction (pack_effects p) as [|i l IHl]; [done|]. done.
Qed.

Lemma merge_effects_keep pack l effects effects' name :
  foldl (merge_effect pack) (Ok effects) l = Ok effects' →
  is_Some (dict_get name effects) → is_Some (dict_get name effects').
Proof.
  revert effects. induction l as [|[n d] l IH]; intros effects; cbn; [by intros [= ->]|].
  intros H Hs. assert (∃ e1, merge_effect pack (Ok effects) (n, d) = Ok e1
    ∧ is_Some (dict_get name e1)) as (e1 & Heq & He1).
  { destruct (merge_effect pack (Ok effects) (n, d)) as [e1|err] eqn:E.
    - exists e1. split; [done|]. cbn in E.
      assert (e1 = dict_set n d effects) as ->.
      { repeat case_match; by simplify_eq. }
      rewrite dict_get_set. case_decide; [eauto|done].
    - exfalso. clear -E H. revert H. cbn in E |- *. rewrite E. clear E.
      induction l as [|i l IH]; [done|]. done. }
  cbn in Heq. rewrite Heq in H. by eapply IH.
Qed.

(** The effects of the core catalog stay available whatever packs are enabled. *)
Lemma load_effect_catalog_core st cat name :
  load_effect_catalog st = Ok cat →
  is_Some (dict_get name (core_effects st)) → is_Some (dict_get name cat).
Proof.
  unfold load_effect_catalog. generalize (core_effects st) as effects.
  induction (enabled_packs st) as [|p ps IH]; intros effects; cbn; [by intros [= ->]|].
  destruct (merge_pack (Ok effects) p) as [e1|err] eqn:E.
  - intros H Hs. eapply IH; [done|]. by eapply merge_effects_keep.
  - by rewrite merge_pack_err.
Qed.
