(* ===== verification/Effects.v ===== *)
(** * Effects of a tokenised command ([ordin/graph.py], the evidence part)

    The generic path: the command card, its flags and its best matching
    subcommand name effects, and the effect catalog turns them into evidence. *)
From stdpp Require Import base list strings sets gmap.
From Stdlib Require Import Bool Ascii Lia.
From S2P Require Import Prelude PyStr Json Regex Catalog Shell.
#[local] Open Scope py_scope.

Definition VALID_RISKS : list string := ["low"; "medium"; "high"; "critical"].

Record EffectSpec := { spec_effect : string; spec_resource : option string }.

Record EffectEvidence := {
  ev_effect : string;
  ev_risk : string;
  ev_category : string;
  ev_reason : string;
  ev_source : string;
  ev_resource : option string;
  ev_safer_next_step : option string }.

#[export] Instance EffectEvidence_eq_dec : EqDecision EffectEvidence.
Proof. solve_decision. Defined.

(** [(item.effect, item.source, item.resource)]. *)
Definition evidence_key (item : EffectEvidence) : string * string * option string :=
  (ev_effect item, ev_source item, ev_resource item).

Definition effect_spec_of (value : json) : option EffectSpec :=
  match value with
  | JStr s => Some {| spec_effect := s; spec_resource := None |}
  | JObj _ =>
      match json_or (jget value "effect") (jget value "type") with
      | JStr effect =>
          if truthy effect
          then Some {| spec_effect := effect; spec_resource := opt_of_str (jget value "resource") |}
          else None
      | _ => None
      end
  | _ => None
  end.

Definition _effect_specs (raw : json) : list EffectSpec :=
  match raw with
  | JNull => []
  | JArr values => omap effect_spec_of values
  | _ => omap effect_spec_of [raw]
  end.

(** [candidate[1] in token[1:]]. *)
Definition cluster_has (token candidate : string) : bool :=
  match candidate with
  | String _ (String c EmptyString) => str_exists (Ascii.eqb c) (str_drop 1 token)
  | _ => false
  end.

Definition flag_candidate_matches (token candidate : string) : bool :=
  (token =s candidate)
  || (startswith candidate "--" && startswith token (candidate +:+ "="))
  || (startswith candidate "-" && negb (startswith candidate "--")
      && (String.length candidate =? 2)
      && startswith token "-" && negb (startswith token "--")
      && (2 <? String.length token) && cluster_has token candidate).

Definition _flag_matches (token canonical : string) (aliases : list string) : bool :=
  existsb (flag_candidate_matches token) (canonical :: aliases).

(** [max(candidates, key=length)]: the first of the longest. *)
Fixpoint longest (best : option (nat * string * json)) (l : list (nat * string * json))
  : option (nat * string * json) :=
  match l with
  | [] => best
  | c :: l' =>
      match best with
      | Some b => longest (if fst (fst b) <? fst (fst c) then Some c else best) l'
      | None => longest (Some c) l'
      end
  end.

Definition subcommand_candidate (args : list string) (member : string * json)
  : option (nat * string * json) :=
  let '(name, metadata) := member in
  if is_mapping metadata then
    let parts := split_ws name in
    if bool_decide (take (length parts) args = parts)
    then Some (length parts, name, metadata) else None
  else None.

Definition _matching_subcommand (subcommands : json) (args : list string)
  : option (string * json * nat) :=
  match subcommands with
  | JObj m =>
      match longest None (omap (subcommand_candidate args) m) with
      | Some (len, name, metadata) => Some (name, metadata, len)
      | None => None
      end
  | _ => None
  end.

Definition evidence_of_spec (source : string) (catalog : list (string * json)) (spec : EffectSpec)
  : option EffectEvidence :=
  match dict_get (spec_effect spec) catalog with
  | None => None
  | Some definition =>
      if negb (json_truthy definition) then None else
      match jget definition "risk", jget definition "category", jget definition "reason" with
      | JStr risk, JStr category, JStr reason =>
          if negb (mem risk VALID_RISKS) then None
          else Some {| ev_effect := spec_effect spec; ev_risk := risk; ev_category := category;
                       ev_reason := reason; ev_source := source;
                       ev_resource := spec_resource spec;
                       ev_safer_next_step := opt_of_str (jget definition "safer_next_step") |}
      | _, _, _ => None
      end
  end.

Definition _evidence_from_effects (raw_effects : json) (source : string)
    (catalog : list (string * json)) : list EffectEvidence :=
  omap (evidence_of_spec source catalog) (_effect_specs raw_effects).

Definition flag_evidence (args : list string) (source_prefix : string)
    (catalog : list (string * json)) (member : string * json) : res (list EffectEvidence) :=
  let '(canonical, metadata) := member in
  if is_mapping metadata then
    items ← json_iter (jget_default metadata "aliases" (JArr []));
    let aliases := only_strings items in
    Ok (if existsb (λ token, _flag_matches token canonical aliases) args
        then _evidence_from_effects (jget_default metadata "effects" (JArr []))
               (source_prefix +:+ " flag " +:+ canonical) catalog
        else [])
  else Ok [].

Definition _flag_effect_evidence (flags : json) (args : list string) (source_prefix : string)
    (catalog : list (string * json)) : res (list EffectEvidence) :=
  match flags with
  | JObj m => parts ← all_ok (map (flag_evidence args source_prefix catalog) m); Ok (concat parts)
  | _ => Ok []
  end.

(** [s.rsplit("/", 1)[-1]]. *)
Definition last_component (s : string) : string :=
  default EmptyString (last (split_char "/"%char s)).

Definition _normalized_command_tokens (tokens : list string) : list string :=
  match _strip_wrappers tokens with
  | [] => []
  | head :: args =>
      let executable := lower (last_component head) in
      match args with
      | dash_m :: module :: rest =>
          if mem executable ["python"; "python3"] && (dash_m =s "-m")
          then lower (last_component module) :: rest else executable :: args
      | _ => executable :: args
      end
  end.

Definition effects_for_tokens (st : Store) (tokens : list string) : res (list EffectEvidence) :=
  match _normalized_command_tokens tokens with
  | [] => Ok []
  | head :: args =>
      let command_name := lower head in
      entry ← find_command st command_name;
      match entry with
      | None => Ok []
      | Some entry =>
          catalog ← load_effect_catalog st;
          let base := _evidence_from_effects (jget_default entry "effects" (JArr []))
                        ("command " +:+ command_name) catalog in
          flags ← _flag_effect_evidence (jget_default entry "flags" (JObj [])) args
                    ("command " +:+ command_name) catalog;
          sub ← match _matching_subcommand (jget_default entry "subcommands" (JObj [])) args with
                | None => Ok []
                | Some (subcommand, metadata, len) =>
                    let source := "subcommand " +:+ command_name +:+ " " +:+ subcommand in
                    sub_flags ← _flag_effect_evidence (jget_default metadata "flags" (JObj []))
                                  (drop len args) source catalog;
                    Ok (_evidence_from_effects (jget_default metadata "effects" (JArr []))
                          source catalog ++ sub_flags)
                end;
          Ok (dedup_by evidence_key (base ++ flags ++ sub))
      end
  end.
