(* ===== verification/AnalyzerBase.v ===== *)
(** * Analyzer infrastructure ([ordin/analyzers/base.py], [ordin/analyzers/_domain.py]) *)
From stdpp Require Import base list strings sets gmap.
From Stdlib Require Import Bool Ascii ZArith Lia.
From S2P Require Import Prelude PyStr Json Regex Catalog Shell Context Effects.
#[local] Open Scope py_scope.

Record Invocation := {
  executable : string;
  args : list string;
  raw_tokens : list string;
  inv_context : option ExecutionContext }.

Record SemanticAnalysis := {
  an_command : string;
  an_subcommand : option string;
  an_flags : list string;
  an_targets : list string;
  an_evidence : list EffectEvidence;
  an_analyzer : string;
  an_notes : list string }.

Definition normalize_invocation (tokens : list string) (context : option ExecutionContext)
  : option Invocation :=
  match _strip_wrappers tokens with
  | [] => None
  | head :: args =>
      let executable := lower (_basename head) in
      let '(executable, args) :=
        match args with
        | dash_m :: module :: rest =>
            if mem executable ["python"; "python3"] && (dash_m =s "-m")
            then (lower (_basename module), rest) else (executable, args)
        | _ => (executable, args)
        end in
      Some {| executable := executable; args := args; raw_tokens := tokens;
              inv_context := context |}
  end.

(** [token.split("=", 1)[0]]. *)
Definition option_key (token : string) : string := fst (split_once "="%char token).

Definition token_is_flag (names : list string) (short_chars : string) (token : string) : bool :=
  mem token names
  || (startswith token "--" && mem (option_key token) names)
  || (truthy short_chars && startswith token "-" && negb (startswith token "--")
      && (1 <? String.length token)
      && str_exists (λ char, str_exists (Ascii.eqb char) (str_drop 1 token)) short_chars).

Definition flag_present (args : list string) (names : list string) (short_chars : string) : bool :=
  existsb (token_is_flag names short_chars) args.

(** The value attached to the token itself: [--name=value] or [-nvalue]. *)
Definition attached_value (names short_names : list string) (token : string) : option string :=
  match find (λ name, startswith token (name +:+ "=")) names with
  | Some name => Some (str_drop (String.length (name +:+ "=")) token)
  | None =>
      match find (λ name, (String.length name =? 2) && startswith token name
                            && negb (token =s name)) short_names with
      | Some name => Some (str_drop (String.length name) token)
      | None => None
      end
  end.

Fixpoint option_value (args : list string) (names short_names : list string) : option string :=
  match args with
  | [] => None
  | token :: args' =>
      if mem token names || mem token short_names then
        match args' with value :: _ => Some value | [] => None end
      else match attached_value names short_names token with
           | Some value => Some value
           | None => option_value args' names short_names
           end
  end.

(** [definition[key]] for a string member. *)
Definition required_str (definition : json) (key : string) : res string :=
  match jget_opt definition key with
  | None => Err (KeyError key)
  | Some (JStr s) => Ok s
  | Some _ => Err (TypeError key)
  end.

Definition evidence_in (catalog : list (string * json)) (effect_name source : string)
    (resource : option string) : res EffectEvidence :=
  match dict_get effect_name catalog with
  | None => Err (KeyError effect_name)
  | Some definition =>
      let safer := jget definition "safer_next_step" in
      risk ← required_str definition "risk";
      category ← required_str definition "category";
      reason ← required_str definition "reason";
      Ok {| ev_effect := effect_name; ev_risk := risk; ev_category := category;
            ev_reason := reason; ev_source := source; ev_resource := resource;
            ev_safer_next_step := opt_of_str safer |}
  end.

Definition evidence (st : Store) (effect_name source : string) (resource : option string)
  : res EffectEvidence :=
  catalog ← load_effect_catalog st; evidence_in catalog effect_name source resource.

Definition path_resource (invocation : Invocation) (target : string) : string :=
  match inv_context invocation with
  | Some context =>
      match resolve_path context target with
      | Some resolved => "path:" +:+ resolved
      | None => "path:" +:+ target
      end
  | None => "path:" +:+ target
  end.

Definition unique_evidence (items : list EffectEvidence) : list EffectEvidence :=
  dedup_by evidence_key items.

(** What every analyzer ends with: the findings are evaluated in order, the
    first failing catalog access is raised. *)
Definition analysis (command : string) (subcommand : option string) (flags targets : list string)
    (findings : list (res EffectEvidence)) (analyzer : string) (notes : list string)
  : res SemanticAnalysis :=
  items ← all_ok findings;
  Ok {| an_command := command; an_subcommand := subcommand; an_flags := flags;
        an_targets := targets; an_evidence := unique_evidence items;
        an_analyzer := analyzer; an_notes := notes |}.

(** ** [_domain.py] *)

Definition READ_VERBS : list string :=
  ["describe"; "get"; "head"; "info"; "list"; "lookup"; "read"; "show"].
Definition WRITE_VERBS : list string :=
  ["add"; "apply"; "associate"; "attach"; "authorize"; "copy"; "create"; "deploy";
   "disable"; "enable"; "import"; "invoke"; "modify"; "move"; "publish"; "put"; "reboot";
   "register"; "restore"; "run"; "send"; "set"; "start"; "stop"; "submit"; "sync";
   "update"; "upload"].
Definition DELETE_VERBS : list string :=
  ["delete"; "deregister"; "destroy"; "detach"; "disassociate"; "purge"; "remove";
   "terminate"].

(** [positionals(args, value_options)]. *)
Fixpoint positionals (args value_options : list string) : list string :=
  match args with
  | [] => []
  | token :: args' =>
      if token =s "--" then args'
      else if startswith token "-" then
        let key := option_key token in
        if mem key value_options && negb (contains token "=") && (token =s key) then
          match args' with _ :: args'' => positionals args'' value_options | [] => [] end
        else positionals args' value_options
      else token :: positionals args' value_options
  end.

Definition flags (args : list string) : list string :=
  filter (λ token, startswith token "-" = true) args.

(** The [_targets] helper that four analyzers define. *)
Definition _targets (args : list string) : list string :=
  filter (λ token, startswith token "-" = false) args.

Definition resource (namespace : string) (parts : list (option string)) : string :=
  let cleaned := omap (λ part, match part with
                               | Some p => if truthy p then Some p else None
                               | None => None end) parts in
  match cleaned with [] => namespace | _ => join ":" (namespace :: cleaned) end.

(** [(operands[-2], operands[-1])] when there are two. *)
Fixpoint last_two (l : list string) : option (string * string) :=
  match l with
  | x :: l' =>
      match l' with
      | [y] => Some (x, y)
      | _ => last_two l'
      end
  | [] => None
  end.

Definition cloud_direction (items : list string) (remote_prefix : string) : bool * bool :=
  match last_two (filter (λ item, startswith item "-" = false) items) with
  | None => (false, false)
  | Some (source, target) => (startswith target remote_prefix, startswith source remote_prefix)
  end.

Definition verb_effect (verb : string) : option string :=
  let normalized := replace_char "_"%char "-"%char (lower verb) in
  let candidates := normalized :: filter (λ piece, truthy piece = true)
                                         (split_char "-"%char normalized) in
  if existsb (λ c, mem c DELETE_VERBS) candidates then Some "infrastructure.delete"
  else if existsb (λ c, mem c WRITE_VERBS) candidates then Some "infrastructure.write"
  else if existsb (λ c, mem c READ_VERBS) candidates then Some "infrastructure.read"
  else None.

(** [args[i]] when it exists. *)
Definition nth_arg (i : nat) (args : list string) : option string := args !! i.
(** [notes=() if x else (text,)]. *)
Definition note_unless (present : bool) (text : string) : list string :=
  if present then [] else [text].
(** A finding that is appended under a condition. *)
Definition when (c : bool) (items : list (res EffectEvidence)) : list (res EffectEvidence) :=
  if c then items else [].

(** ** Findings and the catalog

    A finding [cites] a set of effect names when it is an [evidence] call on a
    name of the set.  Analyzers are verified through the names they cite. *)

(** The catalog loads and defines every name of [names] completely. *)
Definition complete_definition (definition : json) : bool :=
  is_str (jget definition "risk") && is_str (jget definition "category")
  && is_str (jget definition "reason").
Definition catalog_covers (st : Store) (names : list string) : bool :=
  match load_effect_catalog st with
  | Ok catalog =>
      forallb (λ name, match dict_get name catalog with
                       | Some definition => complete_definition definition
                       | None => false
                       end) names
  | Err _ => false
  end.

Definition cites (st : Store) (names : list string) (m : res EffectEvidence) : Prop :=
  ∃ name source resource, mem name names = true ∧ m = evidence st name source resource.

Lemma cites_evidence st names name source resource :
  mem name names = true → cites st names (evidence st name source resource).
Proof. intros H. by exists name, source, resource. Qed.

Lemma cites_mono st names names' m : names ⊆ names' → cites st names m → cites st names' m.
Proof.
  intros Hsub (n & s & r & Hn%mem_elem_of & ->).
  exists n, s, r. split; [by apply mem_elem_of, Hsub|done].
Qed.

Lemma required_str_ok definition key :
  is_str (jget definition key) = true → ∃ s, required_str definition key = Ok s.
Proof.
  unfold required_str, jget. destruct (jget_opt definition key) as [[]|]; cbn; eauto; done.
Qed.

Lemma cites_ok st names m : catalog_covers st names = true → cites st names m → is_ok m = true.
Proof.
  unfold catalog_covers, evidence. intros Hc (n & s & r & Hn & ->). unfold evidence.
  destruct (load_effect_catalog st) as [catalog|]; [|done]. cbn.
  rewrite forallb_forall in Hc. apply mem_elem_of, list_elem_of_In in Hn.
  specialize (Hc n Hn). unfold evidence_in. destruct (dict_get n catalog); [|done].
  unfold complete_definition in Hc. split_bools.
  edestruct required_str_ok as [? ->]; [done|]. cbn.
  edestruct required_str_ok as [? ->]; [done|]. cbn.
  by edestruct required_str_ok as [? ->].
Qed.

(** An item of evidence that copies a catalog entry. *)
Definition grounded (catalog : list (string * json)) (item : EffectEvidence) : Prop :=
  ∃ definition, dict_get (ev_effect item) catalog = Some definition
    ∧ jget_opt definition "risk" = Some (JStr (ev_risk item))
    ∧ jget_opt definition "category" = Some (JStr (ev_category item))
    ∧ jget_opt definition "reason" = Some (JStr (ev_reason item)).

Lemma required_str_inv definition key s :
  required_str definition key = Ok s → jget_opt definition key = Some (JStr s).
Proof. unfold required_str. repeat case_match; intros; by simplify_eq. Qed.

Lemma cites_grounded st names m item :
  cites st names m → m = Ok item →
  mem (ev_effect item) names = true
  ∧ ∃ catalog, load_effect_catalog st = Ok catalog ∧ grounded catalog item.
Proof.
  intros (n & s & r & Hn & ->). unfold evidence. intros H. inv_res.
  unfold evidence_in in H. case_match eqn:Hd; [|done]. inv_res.
  split; [done|]. eexists; split; [done|]. eexists; split; [done|].
  cbn. auto using required_str_inv.
Qed.

(** What the registry may rely on: with a catalog that covers [names] the
    analyzer returns, and what it returns has one item per key, each a copy of
    a catalog entry of [names]. *)
Definition well_behaved (st : Store) (names : list string) (m : res SemanticAnalysis) : Prop :=
  (catalog_covers st names = true → is_ok m = true)
  ∧ ∀ a, m = Ok a →
      NoDup (evidence_key <$> an_evidence a)
      ∧ ∀ item, item ∈ an_evidence a →
          mem (ev_effect item) names = true
          ∧ ∃ catalog, load_effect_catalog st = Ok catalog ∧ grounded catalog item.

Lemma analysis_well_behaved st names command subcommand fl targets findings analyzer notes :
  Forall (cites st names) findings →
  well_behaved st names (analysis command subcommand fl targets findings analyzer notes).
Proof.
  intros Hf. unfold analysis. split.
  - intros Hc. destruct (all_ok_is_ok findings) as [items ->]; [|done].
    eapply Forall_impl; [done|]. intros m. by apply cites_ok.
  - intros a H. inv_res. cbn. split; [apply dedup_by_NoDup|]. intros item Hi.
    apply all_ok_Forall2 in H0.
    apply dedup_by_elem, list_elem_of_lookup in Hi as [i Hi].
    destruct (Forall2_lookup_r _ _ _ _ _ H0 Hi) as (m & Hm & ->).
    eapply cites_grounded; [|done]. eapply Forall_lookup_1 in Hf; done.
Qed.

Lemma Forall_when {P : res EffectEvidence → Prop} c items :
  (c = true → Forall P items) → Forall P (when c items).
Proof. destruct c; cbn; auto. Qed.

Lemma Forall_flat_map_2 {A B} (P : B → Prop) (f : A → list B) l :
  (∀ x, Forall P (f x)) → Forall P (flat_map f l).
Proof. intros H. induction l; cbn; [constructor|]. by apply Forall_app. Qed.

Lemma Forall_map_2 {A B} (P : B → Prop) (f : A → B) l :
  (∀ x, P (f x)) → Forall P (map f l).
Proof. intros H. induction l; cbn; constructor; auto. Qed.

Lemma verb_effect_infrastructure verb effect :
  verb_effect verb = Some effect →
  effect = "infrastructure.delete" ∨ effect = "infrastructure.write"
  ∨ effect = "infrastructure.read".
Proof. unfold verb_effect. repeat case_match; intros; simplify_eq; auto. Qed.

(** An analyzer that always gives an [analysis] of cited findings. *)
Ltac solve_well_behaved :=
  cbv zeta;
  repeat match goal with
         | |- well_behaved _ _ (match ?x with _ => _ end) => destruct x
         end;
  apply analysis_well_behaved.

(** Walks through a list of findings down to its [evidence] calls. *)
Ltac solve_cites :=
  repeat match goal with
  | |- Forall _ [] => constructor
  | |- Forall _ (_ :: _) => constructor
  | |- Forall _ (_ ++ _) => apply Forall_app_2
  | |- Forall _ (when _ _) => apply Forall_when; intros
  | |- Forall _ (map _ _) => apply Forall_map_2; intros
  | |- Forall _ (flat_map _ _) => apply Forall_flat_map_2; intros
  | |- Forall _ (let _ := _ in _) => cbv zeta
  | |- Forall _ (if ?c then _ else _) => destruct c
  | |- Forall _ (match ?x with _ => _ end) => destruct x eqn:?
  | |- cites _ _ (evidence _ (if ?c then _ else _) _ _) => destruct c
  | |- cites _ _ _ => apply cites_evidence; reflexivity
  | H : verb_effect _ = Some ?e |- cites _ _ (evidence _ ?e _ _) =>
      apply verb_effect_infrastructure in H as [->|[->| ->]]
  end.

(** ** What an analysis contains *)

(** The [evidence] call with a given key. *)
Definition cite (st : Store) (k : string * string * option string) : res EffectEvidence :=
  evidence st (fst (fst k)) (snd (fst k)) (snd k).

Lemma cite_key st k item : cite st k = Ok item → evidence_key item = k.
Proof.
  destruct k as [[e s] r]. unfold cite, evidence, evidence_in. intros H. cbn in H. inv_res.
  case_match; [|done]. by inv_res.
Qed.

Lemma analysis_cited st command subcommand fl targets keys analyzer notes :
  catalog_covers st (map (λ k, fst (fst k)) keys) = true →
  ∃ a, analysis command subcommand fl targets (map (cite st) keys) analyzer notes = Ok a
    ∧ an_targets a = targets ∧ an_subcommand a = subcommand ∧ an_notes a = notes
    ∧ ∀ k, k ∈ evidence_key <$> an_evidence a ↔ k ∈ keys.
Proof.
  intros Hc. unfold analysis. destruct (all_ok_is_ok (map (cite st) keys)) as [items Hi].
  { apply Forall_map, Forall_forall. intros [[e s] r] Hk. eapply cites_ok; [done|].
    apply cites_evidence, mem_elem_of. cbn. apply list_elem_of_fmap. by exists (e, s, r). }
  rewrite Hi. cbn. eexists; split; [done|]. cbn. do 3 (split; [done|]). intros k.
  unfold unique_evidence. rewrite dedup_by_keys.
  assert (evidence_key <$> items = keys) as ->; [|done].
  apply all_ok_Forall2 in Hi. clear Hc. remember (map (cite st) keys) as l eqn:El.
  revert keys El. induction Hi as [|m x l xs Hm _ IH]; intros [|k' keys] El; try done.
  cbn in *. injection El as -> ->. f_equal; [by eapply cite_key|by apply IH].
Qed.

Lemma covers_incl st names names' :
  names ⊆ names' → catalog_covers st names' = true → catalog_covers st names = true.
Proof.
  intros Hsub. unfold catalog_covers. destruct (load_effect_catalog st); [|done].
  rewrite !forallb_forall. intros H x Hx%list_elem_of_In. apply H, list_elem_of_In. by apply Hsub.
Qed.

(** A long option [long] is given when a token spells it alone or with [=]; a
    short one when a cluster of one-letter options has one of its letters. *)
Definition long_given (long : string) (token : string) : Prop :=
  token = long ∨ ∃ value, token = long +:+ "=" +:+ value.
Definition short_given (letters : string) (token : string) : Prop :=
  startswith token "-" = true ∧ startswith token "--" = false
  ∧ ∃ letter, str_exists (Ascii.eqb letter) (str_drop 1 token) = true
              ∧ str_exists (Ascii.eqb letter) letters = true.

Lemma str_exists_iff p s :
  str_exists p s = true ↔ ∃ c, str_exists (Ascii.eqb c) s = true ∧ p c = true.
Proof.
  unfold str_exists. induction s as [|a s IH]; cbn; [naive_solver|].
  rewrite negb_andb, orb_true_iff, negb_involutive, IH. setoid_rewrite negb_andb.
  setoid_rewrite orb_true_iff. setoid_rewrite negb_involutive. setoid_rewrite Ascii.eqb_eq.
  naive_solver.
Qed.

Lemma split_once_spec c s x y :
  split_once c s = (x, y) →
  s = match y with Some y => x +:+ String c y | None => x end.
Proof.
  revert x y. induction s as [|a s IH]; intros x y; cbn; [by intros [= <- <-]|].
  destruct (Ascii.eqb_spec a c) as [->|]; [by intros [= <- <-]|].
  destruct (split_once c s) as [x' y']. intros [= <- <-].
  rewrite (IH x' y' eq_refl) at 1. by destruct y'.
Qed.

Lemma option_key_long long token :
  fst (split_once "="%char long) = long →
  (token = long ∨ (startswith token "--" = true ∧ option_key token = long)) →
  long_given long token.
Proof.
  intros Hl [->|[_ Hk]]; [by left|]. unfold option_key in Hk.
  destruct (split_once "="%char token) as [x y] eqn:E. apply split_once_spec in E. cbn in Hk.
  subst x. destruct y as [y|]; [right; by exists y|by left].
Qed.

Lemma option_key_app long value :
  option_key long = long → option_key (long +:+ "=" +:+ value) = long.
Proof.
  unfold option_key. induction long as [|c s IH]; [done|].
  rewrite str_app_cons. cbn. destruct (Ascii.eqb c "="%char); [done|].
  destruct (split_once _ s) as [x y] eqn:E. cbn. intros [= ->].
  destruct (split_once _ (s +:+ _)) as [x' y'] eqn:E'. cbn in *. by rewrite (IH eq_refl).
Qed.

(** A well-spelled long option: [--name], without [=]. *)
Definition is_long (long : string) : bool :=
  startswith long "--" && (option_key long =s long).

Lemma token_is_flag_iff names letters token :
  forallb is_long names = true →
  token_is_flag names letters token = true ↔
  (∃ long, long ∈ names ∧ long_given long token) ∨ short_given letters token.
Proof.
  intros Hn. rewrite forallb_forall in Hn.
  assert (∀ long, long ∈ names → startswith long "--" = true ∧ option_key long = long) as Hl.
  { intros long H%list_elem_of_In%Hn. unfold is_long in H. split_bools. by rewrite <- eqb_true. }
  unfold token_is_flag. rewrite !orb_true_iff. split.
  - intros [[H%mem_elem_of|H]|H].
    + left. exists token. split; [done|by left].
    + split_bools. apply mem_elem_of in H0. left. exists (option_key token).
      split; [done|]. apply option_key_long; [by apply Hl|auto].
    + split_bools. right. apply str_exists_iff in H0 as (c & ? & ?).
      repeat split; try done. exists c. apply str_exists_iff in H0 as (c' & ? & Hc).
      by apply Ascii.eqb_eq in Hc as ->.
  - intros [(long & Hin & [->|[v ->]])|(Hd & Hdd & c & Hc & Hc')].
    + left. left. by apply mem_elem_of.
    + left. right. destruct (Hl long Hin) as [Hs Hk]. rewrite option_key_app by done.
      apply andb_true_iff. split; [|by apply mem_elem_of].
      apply startswith_iff in Hs as [t ->]. rewrite str_app_assoc. apply startswith_app.
    + right. rewrite Hd, Hdd. cbn [negb].
      assert (truthy letters = true) as -> by (by destruct letters).
      assert ((1 <? String.length token) = true) as ->.
      { destruct token as [|a [|b t]]; [done|done|]. by cbn. }
      cbn [andb]. apply str_exists_iff. exists c. split; [done|].
      apply str_exists_iff. exists c. split; [done|apply Ascii.eqb_refl].
Qed.

Lemma flag_present_iff args names letters :
  forallb is_long names = true →
  flag_present args names letters = true ↔
  ∃ token, token ∈ args ∧
    ((∃ long, long ∈ names ∧ long_given long token) ∨ short_given letters token).
Proof.
  intros Hn. unfold flag_present. rewrite existsb_exists.
  setoid_rewrite (token_is_flag_iff _ _ _ Hn). by setoid_rewrite list_elem_of_In.
Qed.

Lemma flag_present_one args long letters :
  is_long long = true →
  flag_present args [long] letters = true ↔
  ∃ token, token ∈ args ∧ (long_given long token ∨ short_given letters token).
Proof.
  intros Hl. rewrite flag_present_iff by (cbn; by rewrite Hl).
  setoid_rewrite list_elem_of_singleton.
  split; intros (t & Ht & [H|?]); exists t; (split; [done|]); [|by right| |by right]; left.
  - by destruct H as (? & -> & ?).
  - by exists long.
Qed.
