(* ===== verification/AnalyzersLocal.v ===== *)
(** * Analyzers of local tools
    ([ordin/analyzers/filesystem.py], [git.py], [docker.py], [network.py], [packages.py])

    One module per source file.  A finding is an [evidence] call, as in the
    code; [analysis] evaluates the findings in the order they are appended. *)
From stdpp Require Import base list strings sets gmap.
From Stdlib Require Import Bool Ascii Lia.
From S2P Require Import Prelude PyStr Json Regex Catalog Shell Context Effects AnalyzerBase.
#[local] Open Scope py_scope.

(** ** [filesystem.py] *)
Module Filesystem.

Definition options_with_values : list string := ["--reference"; "--context"].

Fixpoint operands_loop (args : list string) (after_double_dash skip_next : bool)
  : list string :=
  match args with
  | [] => []
  | token :: args' =>
      if skip_next then operands_loop args' after_double_dash false
      else if after_double_dash then token :: operands_loop args' after_double_dash false
      else if token =s "--" then operands_loop args' true false
      else if mem token options_with_values then operands_loop args' after_double_dash true
      else if startswith token "--reference=" || startswith token "--context="
      then operands_loop args' after_double_dash false
      else if startswith token "-" then operands_loop args' after_double_dash false
      else token :: operands_loop args' after_double_dash false
  end.
Definition _operands (args : list string) : list string := operands_loop args false false.

(** [targets or ("filesystem.target",)]. *)
Definition targets_or_unknown (targets : list string) : list string :=
  match targets with [] => ["filesystem.target"] | _ => targets end.

Definition octal_mode (mode : string) : bool :=
  str_forall (in_range 48 55) mode
  && ((String.length mode =? 3) || (String.length mode =? 4)).
Definition last_char_in (s : string) (l : list string) : bool :=
  existsb (endswith s) l.

Definition _broad_permission_mode (mode : option string) : bool :=
  match mode with
  | None => false
  | Some mode =>
      if negb (truthy mode) then false
      else if octal_mode mode then
        endswith mode "777" || last_char_in mode ["6"; "7"]
      else
        let normalized := remove_char " "%char (lower mode) in
        existsb (contains normalized) ["a+rwx"; "ugo+rwx"; "o+w"; "o+rwx"; "a+w"]
  end.

Definition _chmod_mode_and_targets (args : list string) : option string * list string :=
  match _operands args with
  | [] => (None, [])
  | mode :: targets => (Some mode, targets)
  end.

Section analyzers.
Context (st : Store).
#[local] Abbreviation evidence := (evidence st).

Definition analyze_cat (invocation : Invocation) : res SemanticAnalysis :=
  let targets := _operands (args invocation) in
  let findings :=
    map (λ target, evidence "filesystem.read" "cat input file"
                     (Some (path_resource invocation target)))
        (filter (λ target, (target =s "-") = false) targets) in
  let findings :=
    match findings with
    | [] => [evidence "filesystem.read" "cat input stream" None]
    | _ => findings
    end in
  analysis "cat" None (flags (args invocation)) targets findings "cat" [].

Definition analyze_rm (invocation : Invocation) : res SemanticAnalysis :=
  let targets := _operands (args invocation) in
  let findings :=
    flat_map (λ target,
      let resource := Some (path_resource invocation target) in
      [evidence "filesystem.delete" "rm target" resource]
      ++ when (flag_present (args invocation) ["--recursive"] "rR")
           [evidence "filesystem.recursive_delete" "rm recursive flag" resource])
      (targets_or_unknown targets)
    ++ when (flag_present (args invocation) ["--force"] "f")
         [evidence "confirmation.bypass" "rm force flag" None] in
  analysis "rm" None (flags (args invocation)) targets findings "rm" [].

Definition analyze_chmod (invocation : Invocation) : res SemanticAnalysis :=
  let '(mode, targets) := _chmod_mode_and_targets (args invocation) in
  let findings :=
    flat_map (λ target,
      let resource := Some (path_resource invocation target) in
      [evidence "filesystem.permission_change" "chmod mode change" resource]
      ++ when (flag_present (args invocation) ["--recursive"] "R")
           [evidence "filesystem.recursive_permission_change" "chmod recursive flag" resource])
      (targets_or_unknown targets) in
  let notes :=
    if _broad_permission_mode mode
    then ["permission mode " +:+ repr (default EmptyString mode) +:+ " broadly grants access"]
    else [] in
  analysis "chmod" None (flags (args invocation)) targets findings "chmod" notes.

Definition analyze_chown (invocation : Invocation) : res SemanticAnalysis :=
  let operands := _operands (args invocation) in
  let owner := head operands in
  let targets := drop 1 operands in
  let findings :=
    flat_map (λ target,
      let resource := Some (path_resource invocation target) in
      [evidence "filesystem.ownership_change" "chown ownership change" resource]
      ++ when (flag_present (args invocation) ["--recursive"] "R")
           [evidence "filesystem.recursive_ownership_change" "chown recursive flag" resource])
      (targets_or_unknown targets) in
  let notes :=
    if opt_truthy owner then ["owner specification: " +:+ default EmptyString owner] else [] in
  analysis "chown" None (flags (args invocation)) targets findings "chown" notes.
End analyzers.

(** What [analyze_rm] cites, target by target. *)
Definition rm_keys (invocation : Invocation) (recursive force : bool)
  : list (string * string * option string) :=
  flat_map (λ target,
      let resource := Some (path_resource invocation target) in
      [("filesystem.delete", "rm target", resource)]
      ++ if recursive then [("filesystem.recursive_delete", "rm recursive flag", resource)]
         else [])
    (targets_or_unknown (_operands (args invocation)))
  ++ if force then [("confirmation.bypass", "rm force flag", None)] else [].

Lemma analyze_rm_keys st invocation :
  analyze_rm st invocation =
  analysis "rm" None (flags (args invocation)) (_operands (args invocation))
    (map (cite st) (rm_keys invocation (flag_present (args invocation) ["--recursive"] "rR")
                      (flag_present (args invocation) ["--force"] "f"))) "rm" [].
Proof.
  unfold analyze_rm, rm_keys. cbv zeta. f_equal.
  generalize (flag_present (args invocation) ["--recursive"] "rR") as r.
  generalize (flag_present (args invocation) ["--force"] "f") as f. intros f r.
  rewrite map_app. f_equal; [|by destruct f].
  induction (targets_or_unknown _) as [|t l IH]; [done|].
  cbn [flat_map]. rewrite map_app, IH. by destruct r.
Qed.

Lemma rm_keys_elem invocation recursive force k :
  k ∈ rm_keys invocation recursive force ↔
  (∃ target, target ∈ targets_or_unknown (_operands (args invocation)) ∧
     (k = ("filesystem.delete", "rm target", Some (path_resource invocation target))
      ∨ recursive = true
        ∧ k = ("filesystem.recursive_delete", "rm recursive flag",
               Some (path_resource invocation target))))
  ∨ force = true ∧ k = ("confirmation.bypass", "rm force flag", None).
Proof.
  unfold rm_keys. rewrite elem_of_app, list_elem_of_In, in_flat_map.
  apply Morphisms_Prop.or_iff_morphism.
  - split; intros (t & Ht & Hk); exists t; (split; [by apply list_elem_of_In|]).
    + destruct recursive; cbn in Hk; naive_solver.
    + cbn. destruct Hk as [->|[-> ->]]; [by left|right; by left].
  - destruct force; rewrite ?list_elem_of_singleton, ?elem_of_nil; naive_solver.
Qed.

Lemma operands_loop_app pre post :
  "--" ∉ pre → (∀ o, o ∈ options_with_values → o ∉ pre) →
  operands_loop (pre ++ "--" :: post) false false =
  filter (λ token, startswith token "-" = false) pre ++ post.
Proof.
  intros Hdd Hov. induction pre as [|t pre IH].
  - cbn. induction post as [|t post IH]; cbn; [done|]. by rewrite IH.
  - apply not_elem_of_cons in Hdd as [Ht Hdd].
    assert (operands_loop (pre ++ "--" :: post) false false =
            filter (λ token, startswith token "-" = false) pre ++ post) as IH'.
    { apply IH; [done|]. intros o Ho Hin. apply (Hov o Ho). by right. }
    cbn [app operands_loop].
    destruct (t =s "--") eqn:E; [by apply eqb_true in E|].
    destruct (mem t options_with_values) eqn:Em.
    { apply mem_elem_of in Em. exfalso. apply (Hov t Em). by left. }
    rewrite IH', filter_cons.
    destruct (startswith t "--reference=" || startswith t "--context=") eqn:Ea.
    + assert (startswith t "-" = true) as ->.
      { apply orb_true_iff in Ea as [[u ->]%startswith_iff|[u ->]%startswith_iff]; done. }
      done.
    + destruct (startswith t "-"); done.
Qed.

(** What an analysis [a] of an [rm] invocation promises. *)
Record rm_analysis (invocation : Invocation) (a : SemanticAnalysis) : Prop := {
  rm_targets : an_targets a = _operands (args invocation);
  rm_operands pre post :
    args invocation = pre ++ "--" :: post → "--" ∉ pre →
    (∀ o, o ∈ options_with_values → o ∉ pre) →
    an_targets a = filter (λ token, startswith token "-" = false) pre ++ post;
  rm_evidence k :
    k ∈ evidence_key <$> an_evidence a ↔
    (∃ target, target ∈ targets_or_unknown (an_targets a) ∧
       (k = ("filesystem.delete", "rm target", Some (path_resource invocation target))
        ∨ (∃ token, token ∈ args invocation
             ∧ (long_given "--recursive" token ∨ short_given "rR" token))
          ∧ k = ("filesystem.recursive_delete", "rm recursive flag",
                 Some (path_resource invocation target))))
    ∨ (∃ token, token ∈ args invocation
         ∧ (long_given "--force" token ∨ short_given "f" token))
      ∧ k = ("confirmation.bypass", "rm force flag", None) }.

Lemma analyze_rm_spec (st : Store) (invocation : Invocation) :
  catalog_covers st ["filesystem.delete"; "filesystem.recursive_delete";
                     "confirmation.bypass"] = true →
  ∃ a, analyze_rm st invocation = Ok a ∧ rm_analysis invocation a.
Proof.
  intros Hc. rewrite analyze_rm_keys.
  destruct (analysis_cited st "rm" None (flags (args invocation)) (_operands (args invocation))
    (rm_keys invocation (flag_present (args invocation) ["--recursive"] "rR")
       (flag_present (args invocation) ["--force"] "f")) "rm" [])
    as (a & Ha & Ht & _ & _ & Hk).
  { eapply covers_incl; [|exact Hc]. intros e (k & -> & Hk)%list_elem_of_fmap.
    apply rm_keys_elem in Hk as [(t & _ & [->|[_ ->]])|[_ ->]]; cbn; set_solver. }
  exists a. split; [done|]. split; [done|..]; rewrite Ht.
  - intros pre post Hargs Hdd Hov. unfold _operands. rewrite Hargs. by apply operands_loop_app.
  - intros k. rewrite Hk, rm_keys_elem. setoid_rewrite flag_present_one; done.
Qed.

(** what [rm] is reviewed for.  With a catalog that has the three effects,
    [analyze_rm] returns and its evidence is exactly: a deletion of every
    target, resolved in the caller's working directory when one is supplied; a
    recursive deletion of every target when [-r], [-R] or [--recursive] is given
    in any spelling; and a confirmation bypass when [-f] or [--force] is.  The
    targets are the words that are no options, and every word after [--]. *)
Theorem analyze_rm_evidence (st : Store) (invocation : Invocation) :
  catalog_covers st ["filesystem.delete"; "filesystem.recursive_delete";
                     "confirmation.bypass"] = true →
  ∃ a, analyze_rm st invocation = Ok a ∧ rm_analysis invocation a.
Proof. apply analyze_rm_spec. Qed.
End Filesystem.

(** ** [git.py] *)
Module Git.

Definition GLOBAL_VALUE_OPTIONS : list string :=
  ["-C"; "-c"; "--git-dir"; "--work-tree"; "--namespace"; "--super-prefix"; "--config-env"].
Definition READ_SUBCOMMANDS : list string :=
  ["status"; "diff"; "log"; "show"; "reflog"; "ls-files"; "ls-tree"; "rev-parse";
   "describe"; "blame"; "grep"].
Definition LOCAL_WRITE_SUBCOMMANDS : list string :=
  ["add"; "commit"; "checkout"; "switch"; "restore"; "merge"; "cherry-pick"; "revert";
   "stash"].
Definition HISTORY_REWRITE_SUBCOMMANDS : list string := ["rebase"; "filter-branch"].

(** The [while index < len(args)] loop, on the arguments from [index] on. *)
Fixpoint _split_git_args (args : list string) : option string * list string :=
  match args with
  | [] => (None, [])
  | token :: args' =>
      if token =s "--" then
        match args' with
        | [] => (None, [])
        | subcommand :: args'' => (Some subcommand, args'')
        end
      else if negb (startswith token "-") then (Some token, args')
      else if mem (option_key token) GLOBAL_VALUE_OPTIONS && negb (contains token "=") then
        match args' with
        | [] => (None, [])
        | _ :: args'' => _split_git_args args''
        end
      else _split_git_args args'
  end.

Section analyzer.
Context (st : Store).
#[local] Abbreviation evidence := (evidence st).

Definition git_findings (subcommand : option string) (args : list string)
  : list (res EffectEvidence) :=
  if opt_mem subcommand READ_SUBCOMMANDS then
    [evidence "git.read" ("git " +:+ fmt_opt subcommand) None]
  else if opt_is subcommand "branch" then
    let mutation := flag_present args ["-d"; "-D"; "-m"; "-M"; "-c"; "-C"] EmptyString in
    [evidence (if mutation then "git.local_write" else "git.read")
       (if mutation then "git branch mutation" else "git branch read") None]
  else if opt_is subcommand "reset" then
    [evidence "git.local_write" "git reset" None]
    ++ when (flag_present args ["--hard"] EmptyString)
         [evidence "git.history_rewrite" "git reset --hard" None]
  else if opt_is subcommand "clean" then
    [evidence "filesystem.delete" "git clean" (Some "git.working_tree")]
    ++ when (flag_present args ["-d"] "d")
         [evidence "filesystem.recursive_delete" "git clean directory flag"
            (Some "git.working_tree")]
    ++ when (flag_present args ["-f"; "--force"] "f")
         [evidence "confirmation.bypass" "git clean force flag" None]
  else if opt_is subcommand "push" then
    [evidence "git.remote_write" "git push" None]
    ++ when (flag_present args ["--force"; "--force-with-lease"] "f")
         [evidence "git.history_rewrite" "git force push" None]
  else if opt_mem subcommand LOCAL_WRITE_SUBCOMMANDS then
    [evidence "git.local_write" ("git " +:+ fmt_opt subcommand) None]
  else if opt_mem subcommand HISTORY_REWRITE_SUBCOMMANDS then
    [evidence "git.history_rewrite" ("git " +:+ fmt_opt subcommand) None]
  else if opt_is subcommand "clone" then
    [evidence "network.download" "git clone" None;
     evidence "filesystem.write" "git clone destination" None]
  else if opt_is subcommand "fetch" then
    [evidence "network.download" "git fetch" None;
     evidence "git.local_write" "git fetch references" None]
  else if opt_is subcommand "pull" then
    [evidence "network.download" "git pull" None;
     evidence "git.local_write" "git pull" None]
  else if opt_is subcommand "remote" then
    let mutation := opt_mem (head args)
      ["add"; "remove"; "rm"; "rename"; "set-head"; "set-url"; "prune"] in
    [evidence (if mutation then "git.local_write" else "git.read")
       (if mutation then "git remote mutation" else "git remote read") None]
  else if opt_is subcommand "tag" then
    let mutation := flag_present args ["-d"; "-f"; "--delete"; "--force"] "df" in
    [evidence (if mutation then "git.history_rewrite" else "git.read")
       (if mutation then "git tag mutation" else "git tag read") None]
  else if opt_is subcommand "config" then
    let read_only :=
      flag_present args ["--get"; "--get-all"; "--get-regexp"; "--list"; "-l"] "l" in
    [evidence (if read_only then "git.read" else "git.local_write")
       (if read_only then "git config read" else "git config write") None]
  else [].

Definition analyze_git (invocation : Invocation) : res SemanticAnalysis :=
  let '(subcommand, rest) := _split_git_args (args invocation) in
  analysis "git" subcommand (flags (args invocation)) (_targets rest)
    (git_findings subcommand rest) "git"
    (note_unless (opt_truthy subcommand) "git subcommand not identified").
End analyzer.

(** One global option of git, alone or with its value. *)
Inductive global_option : list string → Prop :=
| global_flag token :
    startswith token "-" = true → token ≠ "--" →
    (mem (option_key token) GLOBAL_VALUE_OPTIONS = false ∨ contains token "=" = true) →
    global_option [token]
| global_value token value :
    token ∈ GLOBAL_VALUE_OPTIONS → global_option [token; value].

Lemma split_git_global groups subcommand rest :
  Forall global_option groups → startswith subcommand "-" = false →
  _split_git_args (concat groups ++ subcommand :: rest) = (Some subcommand, rest).
Proof.
  intros Hg Hs. assert ((subcommand =s "--") = false) as Hdd.
  { destruct (subcommand =s "--") eqn:E; [|done]. by apply eqb_true in E as ->. }
  induction Hg as [|g groups Hg _ IH]; cbn [concat app].
  - cbn [_split_git_args]. by rewrite Hdd, Hs.
  - destruct Hg as [t Ht Hne Hk|t v Ht].
    + cbn [app _split_git_args]. rewrite Ht. cbn [negb].
      destruct (t =s "--") eqn:E; [by apply eqb_true in E|].
      destruct Hk as [->| ->]; rewrite ?andb_false_r; exact IH.
    + cbn [app _split_git_args].
      assert ((t =s "--") = false ∧ startswith t "-" = true
              ∧ mem (option_key t) GLOBAL_VALUE_OPTIONS = true ∧ contains t "=" = false)
        as (-> & -> & -> & ->); [|exact IH].
      unfold GLOBAL_VALUE_OPTIONS in Ht. rewrite !elem_of_cons, elem_of_nil in Ht.
      destruct Ht as [->|[->|[->|[->|[->|[->|[->|[]]]]]]]]; by vm_compute.
Qed.

(** Force pushes are seen behind global options.  Whatever global options
    precede it ([-C dir], [-c k=v], [--git-dir=...], ...), a [git push] is
    reviewed as a remote write of git, and as a history rewrite exactly when
    one of its arguments spells [--force], [--force-with-lease] or the [f] of a
    cluster of short options. *)
Theorem analyze_git_push (st : Store) (invocation : Invocation) (groups : list (list string))
    (rest : list string) :
  catalog_covers st ["git.remote_write"; "git.history_rewrite"] = true →
  Forall global_option groups →
  args invocation = concat groups ++ "push" :: rest →
  ∃ a, analyze_git st invocation = Ok a
    ∧ an_subcommand a = Some "push" ∧ an_notes a = []
    ∧ ∀ k, k ∈ evidence_key <$> an_evidence a ↔
        k = ("git.remote_write", "git push", None)
        ∨ (∃ token, token ∈ rest
             ∧ (long_given "--force" token ∨ long_given "--force-with-lease" token
                ∨ short_given "f" token))
          ∧ k = ("git.history_rewrite", "git force push", None).
Proof.
  intros Hc Hg Hargs. unfold analyze_git. rewrite Hargs, split_git_global by done.
  set (force := flag_present rest ["--force"; "--force-with-lease"] "f").
  destruct (analysis_cited st "git" (Some "push") (flags (concat groups ++ "push" :: rest))
    (_targets rest)
    (("git.remote_write", "git push", None)
     :: if force then [("git.history_rewrite", "git force push", None)] else []) "git" [])
    as (a & Ha & _ & Hs & Hn & Hk).
  { eapply covers_incl; [|exact Hc]. destruct force; cbn; set_solver. }
  exists a. split; [|split; [done|split; [done|]]].
  - rewrite <- Ha. unfold git_findings. cbn [opt_mem opt_is].
    fold force. by destruct force.
  - intros k. rewrite Hk, elem_of_cons. apply Morphisms_Prop.or_iff_morphism; [done|].
    assert (force = true ↔ ∃ token, token ∈ rest
      ∧ (long_given "--force" token ∨ long_given "--force-with-lease" token
         ∨ short_given "f" token)) as <-.
    { unfold force. rewrite flag_present_iff by done. setoid_rewrite elem_of_cons.
      setoid_rewrite list_elem_of_singleton. naive_solver. }
    destruct force; rewrite ?list_elem_of_singleton, ?elem_of_nil; naive_solver.
Qed.
End Git.

(** ** [docker.py] *)
Module Docker.

Definition GLOBAL_VALUE_OPTIONS : list string :=
  ["--config"; "-c"; "--context"; "-H"; "--host"; "-l"; "--log-level"].
Definition READ_COMMANDS : list string :=
  ["ps"; "images"; "inspect"; "info"; "version"; "stats"; "logs"; "top"; "port"].
Definition CREATE_COMMANDS : list string := ["run"; "create"; "start"; "restart"; "unpause"].
Definition DELETE_COMMANDS : list string := ["rm"; "rmi"].
Definition PRUNE_PAIRS : list (string * string) :=
  [("system", "prune"); ("image", "prune"); ("container", "prune"); ("volume", "prune");
   ("network", "prune"); ("builder", "prune")].
Definition DELETE_PAIRS : list (string * string) :=
  [("container", "rm"); ("image", "rm"); ("volume", "rm"); ("network", "rm")].

Fixpoint _split_docker_args (args : list string) : option string * list string :=
  match args with
  | [] => (None, [])
  | token :: args' =>
      if negb (startswith token "-") then (Some token, args')
      else if mem (option_key token) GLOBAL_VALUE_OPTIONS && negb (contains token "=") then
        match args' with
        | [] => (None, [])
        | _ :: args'' => _split_docker_args args''
        end
      else _split_docker_args args'
  end.

Definition pair_in (first second : option string) (l : list (string * string)) : bool :=
  existsb (λ p, opt_is first (fst p) && opt_is second (snd p)) l.

Section analyzer.
Context (st : Store).
#[local] Abbreviation evidence := (evidence st).

Definition docker_findings (subcommand : option string) (args : list string)
  : list (res EffectEvidence) :=
  let second := head args in
  if opt_mem subcommand READ_COMMANDS then
    [evidence "container.read" ("docker " +:+ fmt_opt subcommand) None]
  else if opt_mem subcommand CREATE_COMMANDS then
    [evidence "container.create" ("docker " +:+ fmt_opt subcommand) None]
    ++ when (flag_present args ["--privileged"] EmptyString)
         [evidence "privilege.escalate" "docker --privileged" None]
  else if opt_mem subcommand DELETE_COMMANDS || pair_in subcommand second DELETE_PAIRS then
    [evidence "container.delete" ("docker " +:+ fmt_opt subcommand) None]
    ++ when (flag_present args ["-f"; "--force"] "f")
         [evidence "confirmation.bypass" "docker force removal" None]
  else if pair_in subcommand second PRUNE_PAIRS then
    [evidence "container.prune" ("docker " +:+ fmt_opt subcommand +:+ " prune") None]
    ++ when (flag_present args ["-f"; "--force"] "f")
         [evidence "confirmation.bypass" "docker prune force flag" None]
  else if opt_mem subcommand ["exec"; "build"] then
    [evidence "code.execute" ("docker " +:+ fmt_opt subcommand) None]
  else if opt_is subcommand "pull" then
    [evidence "network.download" "docker pull" None]
  else if opt_is subcommand "push" then
    [evidence "network.upload" "docker push" None]
  else if opt_is subcommand "compose" then
    let compose_subcommand := second in
    let source := "docker compose " +:+ fmt_opt compose_subcommand in
    if opt_mem compose_subcommand ["ps"; "logs"; "config"; "images"] then
      [evidence "container.read" source None]
    else if opt_mem compose_subcommand ["up"; "start"; "restart"] then
      [evidence "container.create" source None]
    else if opt_mem compose_subcommand ["down"; "rm"] then
      [evidence "container.delete" source None]
    else if opt_mem compose_subcommand ["exec"; "run"] then
      [evidence "code.execute" source None]
    else []
  else [].

Definition analyze_docker (invocation : Invocation) : res SemanticAnalysis :=
  let '(subcommand, rest) := _split_docker_args (args invocation) in
  analysis "docker" subcommand (flags (args invocation)) (_targets rest)
    (docker_findings subcommand rest) "docker"
    (note_unless (opt_truthy subcommand) "docker subcommand not identified").
End analyzer.
End Docker.

(** ** [network.py] *)
Module Network.

Definition CURL_VALUE_OPTIONS : list string :=
  ["-o"; "--output"; "-d"; "--data"; "--data-raw"; "--data-binary"; "--data-urlencode";
   "-F"; "--form"; "-T"; "--upload-file"; "-X"; "--request"; "-H"; "--header"; "-A";
   "--user-agent"; "-u"; "--user"].
Definition WGET_VALUE_OPTIONS : list string :=
  ["-O"; "--output-document"; "--post-data"; "--post-file"; "--body-data"; "--body-file";
   "--header"; "--user"; "--password"].

(** [-oFILE]: a one-letter option of the set with its value attached. *)
Definition attached_short (options : list string) (token : string) : bool :=
  existsb (λ short, startswith short "-" && negb (startswith short "--")
                    && (String.length short =? 2)
                    && startswith token short && negb (token =s short)) options.

Fixpoint non_option_loop (args options : list string) (skip_next : bool) : list string :=
  match args with
  | [] => []
  | token :: args' =>
      if skip_next then non_option_loop args' options false
      else if mem (option_key token) options then
        non_option_loop args' options (negb (contains token "="))
      else if attached_short options token then non_option_loop args' options false
      else if token =s "--" then non_option_loop args' options false
      else if negb (startswith token "-") then token :: non_option_loop args' options false
      else non_option_loop args' options false
  end.
Definition _non_option_values (args options_with_values : list string) : list string :=
  non_option_loop args options_with_values false.

(** [f"path:{output}" if output else "path:remote-name"]. *)
Definition output_resource (output : option string) : string :=
  match output with
  | Some o => if truthy o then "path:" +:+ o else "path:remote-name"
  | None => "path:remote-name"
  end.

Section analyzers.
Context (st : Store).
#[local] Abbreviation evidence := (evidence st).

Definition curl_uploads (args : list string) : bool :=
  flag_present args
    ["-d"; "--data"; "--data-raw"; "--data-binary"; "--data-urlencode"; "-F"; "--form";
     "-T"; "--upload-file"] EmptyString
  || existsb (λ short, bool_decide (is_Some (option_value args [] [short])))
       ["-d"; "-F"; "-T"].

Definition analyze_curl (invocation : Invocation) : res SemanticAnalysis :=
  let targets := _non_option_values (args invocation) CURL_VALUE_OPTIONS in
  let endpoints := filter (λ t, startswith_any t ["https://"; "http://"] = true) targets in
  let findings :=
    match endpoints with
    | [] => [evidence "network.connect" "curl request" None]
    | _ => map (λ target, evidence "network.connect" "curl request"
                            (Some ("url:" +:+ target))) endpoints
    end in
  let output := option_value (args invocation) ["--output"] ["-o"] in
  let remote_name := flag_present (args invocation) ["-O"; "--remote-name"] EmptyString in
  analysis "curl" None (flags (args invocation)) targets
    (findings
     ++ when (curl_uploads (args invocation))
          [evidence "network.upload" "curl request body/upload" None]
     ++ when (bool_decide (is_Some output) || remote_name)
          [evidence "network.download" "curl output" None;
           evidence "filesystem.write" "curl output file" (Some (output_resource output))])
    "curl" [].

Definition analyze_wget (invocation : Invocation) : res SemanticAnalysis :=
  let targets := _non_option_values (args invocation) WGET_VALUE_OPTIONS in
  let spider := flag_present (args invocation) ["--spider"] EmptyString in
  let output := option_value (args invocation) ["--output-document"] ["-O"] in
  analysis "wget" None (flags (args invocation)) targets
    ([evidence "network.connect" "wget request" None]
     ++ when (negb spider) [evidence "network.download" "wget download" None]
     ++ when (negb spider && negb (opt_is output "-"))
          [evidence "filesystem.write" "wget output file" (Some (output_resource output))]
     ++ when (flag_present (args invocation)
                ["--post-data"; "--post-file"; "--body-data"; "--body-file"] EmptyString)
          [evidence "network.upload" "wget request body/upload" None])
    "wget" [].
End analyzers.
End Network.

(** ** [packages.py] *)
Module Packages.

Definition PIP_SUBCOMMANDS : list string :=
  ["install"; "uninstall"; "list"; "show"; "freeze"; "check"; "download"; "wheel"; "inspect"].
Definition NPM_SUBCOMMANDS : list string :=
  ["install"; "i"; "add"; "ci"; "uninstall"; "remove"; "rm"; "un"; "list"; "ls"; "view";
   "info"; "outdated"; "run"; "run-script"; "exec"; "pack"; "audit"].
Definition APT_SUBCOMMANDS : list string :=
  ["install"; "remove"; "purge"; "autoremove"; "update"; "upgrade"; "full-upgrade";
   "dist-upgrade"; "download"; "source"; "list"; "show"; "search"].

Fixpoint _find_subcommand (args candidates : list string) : option string * list string :=
  match args with
  | [] => (None, [])
  | token :: args' =>
      if mem token candidates then (Some token, args') else _find_subcommand args' candidates
  end.

Section analyzers.
Context (st : Store).
#[local] Abbreviation evidence := (evidence st).

Definition pip_findings (subcommand : option string) (args : list string)
  : list (res EffectEvidence) :=
  if opt_is subcommand "install" then
    if flag_present args ["--dry-run"] EmptyString then
      [evidence "package.read" "pip install --dry-run" None;
       evidence "network.connect" "pip dependency resolution" None]
    else
      [evidence "package.install" "pip install" None;
       evidence "code.execute" "pip package build/install hooks" None]
  else if opt_is subcommand "uninstall" then
    [evidence "package.remove" "pip uninstall" None]
    ++ when (flag_present args ["-y"; "--yes"] "y")
         [evidence "confirmation.bypass" "pip uninstall --yes" None]
  else if opt_mem subcommand ["list"; "show"; "freeze"; "check"; "inspect"] then
    [evidence "package.read" ("pip " +:+ fmt_opt subcommand) None]
  else if opt_is subcommand "download" then
    [evidence "network.download" "pip download" None;
     evidence "filesystem.write" "pip download destination" None]
  else if opt_is subcommand "wheel" then
    [evidence "code.execute" "pip wheel build" None;
     evidence "filesystem.write" "pip wheel output" None]
  else [].

Definition analyze_pip (invocation : Invocation) : res SemanticAnalysis :=
  let '(subcommand, rest) := _find_subcommand (args invocation) PIP_SUBCOMMANDS in
  analysis "pip" subcommand (flags (args invocation)) (_targets rest)
    (pip_findings subcommand rest) "pip" [].

Definition npm_findings (subcommand : option string) (args : list string)
  : list (res EffectEvidence) :=
  let source := "npm " +:+ fmt_opt subcommand in
  if opt_mem subcommand ["install"; "i"; "add"; "ci"] then
    if flag_present args ["--dry-run"] EmptyString then
      [evidence "package.read" "npm install --dry-run" None;
       evidence "network.connect" "npm package resolution" None]
    else
      [evidence "package.install" source None]
      ++ when (negb (flag_present args ["--ignore-scripts"] EmptyString))
           [evidence "code.execute" "npm lifecycle/package scripts" None]
  else if opt_mem subcommand ["uninstall"; "remove"; "rm"; "un"] then
    [evidence "package.remove" source None]
  else if opt_mem subcommand ["list"; "ls"; "view"; "info"; "outdated"] then
    [evidence "package.read" source None]
  else if opt_mem subcommand ["run"; "run-script"; "exec"] then
    [evidence "code.execute" source None]
  else if opt_is subcommand "pack" then
    [evidence "filesystem.write" "npm pack output" None]
  else if opt_is subcommand "audit" then
    [evidence "network.connect" "npm audit" None]
  else [].

Definition analyze_npm (invocation : Invocation) : res SemanticAnalysis :=
  let '(subcommand, rest) := _find_subcommand (args invocation) NPM_SUBCOMMANDS in
  analysis "npm" subcommand (flags (args invocation)) (_targets rest)
    (npm_findings subcommand rest) "npm" [].

(** Unlike its siblings, [analyze_apt] looks for its flags among all the
    arguments. *)
Definition apt_findings (executable : string) (subcommand : option string)
    (args : list string) : list (res EffectEvidence) :=
  let source := executable +:+ " " +:+ fmt_opt subcommand in
  let simulate :=
    flag_present args ["-s"; "--simulate"; "--dry-run"; "--just-print"; "--no-act"] "s" in
  if simulate && opt_mem subcommand ["install"; "remove"; "purge"; "autoremove"; "upgrade";
                                     "full-upgrade"; "dist-upgrade"] then
    [evidence "package.read" (executable +:+ " simulated " +:+ fmt_opt subcommand) None]
  else if opt_is subcommand "install" then
    [evidence "package.install" (executable +:+ " install") None]
  else if opt_mem subcommand ["remove"; "purge"; "autoremove"] then
    [evidence "package.remove" source None]
    ++ when (flag_present args ["-y"; "--yes"; "--assume-yes"] "y")
         [evidence "confirmation.bypass" "apt assume-yes" None]
  else if opt_is subcommand "update" then
    [evidence "network.download" (executable +:+ " update") None;
     evidence "package.read" "apt package index" None]
  else if opt_mem subcommand ["upgrade"; "full-upgrade"; "dist-upgrade"] then
    [evidence "package.install" source None]
  else if opt_mem subcommand ["download"; "source"] then
    [evidence "network.download" source None;
     evidence "filesystem.write" (source +:+ " output") None]
  else if opt_mem subcommand ["list"; "show"; "search"] then
    [evidence "package.read" source None]
  else [].

Definition analyze_apt (invocation : Invocation) : res SemanticAnalysis :=
  let '(subcommand, rest) := _find_subcommand (args invocation) APT_SUBCOMMANDS in
  analysis (executable invocation) subcommand (flags (args invocation)) (_targets rest)
    (apt_findings (executable invocation) subcommand (args invocation)) "apt" [].
End analyzers.
End Packages.
