(* ===== verification/AnalyzersCloud.v ===== *)
(** * Analyzers of remote tools
    ([ordin/analyzers/remote.py], [database.py], [aws.py], [azure.py], [gcloud.py],
     [github.py], [kubernetes.py], [systemd.py], [terraform.py])

    One module per source file; findings are listed in the order the code
    appends them. *)
From stdpp Require Import base list strings sets gmap.
From Stdlib Require Import Bool Ascii Lia.
From S2P Require Import Prelude PyStr Json Regex Catalog Shell Context Effects AnalyzerBase.
#[local] Open Scope py_scope.

(** [x or "*"] on a positional argument. *)
Definition or_star (o : option string) : string := or_default o "*".
(** [args[i].lower() if len(args) > i else None]. *)
Definition lower_arg (i : nat) (args : list string) : option string := lower <$> nth_arg i args.
(** [f"{a} {b}" if a and b else a]. *)
Definition combine (a b : option string) : option string :=
  if opt_truthy a && opt_truthy b then Some (fmt_opt a +:+ " " +:+ fmt_opt b) else a.
(** The effects of a mutating [verb_effect]. *)
Definition mutating (effect : option string) : bool :=
  opt_mem effect ["infrastructure.delete"; "infrastructure.write"].

(** ** [remote.py] *)
Module Remote.

Definition SSH_VALUE_OPTIONS : list string :=
  ["-b"; "-c"; "-D"; "-E"; "-e"; "-F"; "-I"; "-i"; "-J"; "-L"; "-l"; "-m"; "-O"; "-o";
   "-p"; "-P"; "-Q"; "-R"; "-S"; "-W"; "-w"].

Definition _remote_operand (token : string) : bool :=
  if startswith_any token ["ssh://"; "rsync://"; "scp://"] then true
  else if negb (contains token ":") then false
  else
    let head := fst (split_once ":"%char token) in
    truthy head && negb (contains head "/") && negb (mem head ["."; ".."]).

Section analyzers.
Context (st : Store).
#[local] Abbreviation evidence := (evidence st).

Definition analyze_ssh (invocation : Invocation) : res SemanticAnalysis :=
  let operands := positionals (args invocation) SSH_VALUE_OPTIONS in
  let host := head operands in
  let target := "remote:" +:+ or_star host in
  analysis "ssh" None (flags (args invocation)) operands
    (when (opt_truthy host) [evidence "network.connect" "ssh connection" (Some target)]
     ++ when (1 <? length operands)
          [evidence "remote.execute" "ssh remote command" (Some target)])
    "ssh" (note_unless (opt_truthy host) "ssh host not identified").

Definition _analyze_transfer (invocation : Invocation) : res SemanticAnalysis :=
  let executable := executable invocation in
  let operands := positionals (args invocation) SSH_VALUE_OPTIONS in
  let target := Some "remote:file-transfer" in
  let transfer :=
    match last_two operands with
    | None => []
    | Some (source, destination) =>
        let source_remote := _remote_operand source in
        let destination_remote := _remote_operand destination in
        when (source_remote && negb destination_remote)
          [evidence "network.download" (executable +:+ " download") target]
        ++ when (destination_remote && negb source_remote)
          [evidence "network.upload" (executable +:+ " upload") target]
    end in
  analysis executable None (flags (args invocation)) operands
    (when (existsb _remote_operand operands)
       [evidence "network.connect" (executable +:+ " remote transfer") target]
     ++ transfer
     ++ when ((executable =s "rsync")
              && flag_present (args invocation)
                   ["--delete"; "--delete-before"; "--delete-during"; "--delete-after"]
                   EmptyString)
          [evidence "filesystem.delete" "rsync delete synchronization" (last operands)])
    executable [].
End analyzers.
End Remote.

(** ** [database.py] *)
Module Database.

Definition keyword (words : list regex) : regex :=
  rseqs [RStart; RStar rspace; ralts words; RBound].
Definition two_words (first : string) : regex :=
  rseqs [rstr first; rplus rspace; ralts [rstr "USER"; rstr "ROLE"]].

Definition SQL_READ : regex :=
  keyword (map rstr ["SELECT"; "SHOW"; "DESCRIBE"; "DESC"; "EXPLAIN"; "PRAGMA"; "WITH"]).
Definition SQL_DELETE : regex := keyword (map rstr ["DROP"; "TRUNCATE"; "DELETE"]).
Definition SQL_PERMISSION : regex :=
  keyword [rstr "GRANT"; rstr "REVOKE"; two_words "CREATE"; two_words "ALTER"; two_words "DROP"].
Definition SQL_WRITE : regex :=
  keyword (map rstr ["INSERT"; "UPDATE"; "CREATE"; "ALTER"; "REPLACE"; "MERGE"; "UPSERT";
                     "COPY"; "VACUUM"; "REINDEX"]).
(** [\.DROP\s*\(], searched in raised text, where ignoring case changes nothing. *)
Definition DROP_CALL : regex := rseqs [rstr ".DROP"; RStar rspace; rstr "("].

Definition REDIS_READ : list string :=
  ["EXISTS"; "GET"; "HGET"; "HGETALL"; "INFO"; "KEYS"; "MGET"; "PING"; "SCAN"; "TTL"].
Definition REDIS_DELETE : list string := ["DEL"; "FLUSHALL"; "FLUSHDB"; "UNLINK"].
Definition REDIS_WRITE : list string :=
  ["EXPIRE"; "HSET"; "LPUSH"; "MSET"; "PERSIST"; "RENAME"; "RPUSH"; "SADD"; "SET"; "ZADD"].

Definition _query_and_database (invocation : Invocation) : option string * string :=
  let args := args invocation in
  let executable := executable invocation in
  if executable =s "psql" then
    (option_value args ["--command"] ["-c"],
     or_star (option_value args ["--dbname"] ["-d"]))
  else if mem executable ["mysql"; "mariadb"] then
    let operands := positionals args
      ["--database"; "--execute"; "--host"; "--port"; "--user"; "-D"; "-e"; "-h"; "-P"; "-u"] in
    (option_value args ["--execute"] ["-e"], default "*" (head operands))
  else if executable =s "sqlite3" then
    let operands := positionals args [] in
    (nth_arg 1 operands, default "*" (head operands))
  else if executable =s "mongosh" then
    let operands := positionals args ["--eval"; "--host"; "--port"; "--username"] in
    (option_value args ["--eval"] [], default "*" (head operands))
  else if executable =s "redis-cli" then
    let operands := positionals args
      ["--host"; "--pass"; "--port"; "--user"; "-a"; "-h"; "-p"] in
    (match operands with [] => None | _ => Some (join " " operands) end, "redis")
  else (None, "*").

Definition _effect_for_query (query : string) : string :=
  if re_search SQL_PERMISSION query then "identity.permission_change"
  else if re_search SQL_DELETE query then "database.delete"
  else if re_search SQL_READ query then "database.read"
  else if re_search SQL_WRITE query then "database.write"
  else
    let raised := upper (lstrip query) in
    if contains raised ".DROPDATABASE(" || re_search DROP_CALL raised then "database.delete"
    else
      let command := default EmptyString (head (split_ws raised)) in
      if mem command REDIS_READ then "database.read"
      else if mem command REDIS_DELETE then "database.delete"
      else if (command =s "ACL") && existsb (contains raised) ["SETUSER"; "DELUSER"]
      then "identity.permission_change"
      else if mem command REDIS_WRITE then "database.write"
      else "database.write".

Section analyzer.
Context (st : Store).
#[local] Abbreviation evidence := (evidence st).

Definition analyze_database (invocation : Invocation) : res SemanticAnalysis :=
  let executable := executable invocation in
  let '(query, database) := _query_and_database invocation in
  let host := or_default (option_value (args invocation) ["--host"] ["-h"]) "local" in
  let target := Some (resource "database" [Some executable; Some host; Some database]) in
  let query_findings :=
    match query with
    | Some query =>
        when (truthy query)
          (let effect_name := _effect_for_query query in
           [evidence effect_name (executable +:+ " query") target]
           ++ when (effect_name =s "identity.permission_change")
                [evidence "database.write" (executable +:+ " privilege query") target])
    | None => []
    end in
  analysis executable None (flags (args invocation)) [database]
    (when (negb (executable =s "sqlite3"))
       [evidence "network.connect" (executable +:+ " connection") target]
     ++ query_findings
     ++ when (flag_present (args invocation) ["--file"; "-f"] EmptyString)
          [evidence "database.write" (executable +:+ " script file") target])
    executable [].
End analyzer.

#[local] Arguments is_word : simpl never.
#[local] Arguments is_space : simpl never.

(** The first word of a statement, in lower case: what the SQL patterns look at. *)
Fixpoint word_prefix (s : string) : string :=
  match s with
  | String c s' => if is_word c then String c (word_prefix s') else EmptyString
  | EmptyString => EmptyString
  end.
Definition first_word (query : string) : string := lower (word_prefix (lstrip query)).

Definition at_boundary (rest : string) : Prop := at_word (next_char rest) = false.

Lemma word_prefix_app w rest :
  str_forall is_word w = true → at_boundary rest → word_prefix (w +:+ rest) = w.
Proof.
  intros Hw Hr. induction w as [|c w IH].
  - change (EmptyString +:+ rest) with rest. destruct rest as [|c rest]; [done|].
    unfold at_boundary in Hr. cbn in *. by rewrite Hr.
  - cbn in Hw. split_bools. rewrite str_app_cons. cbn. rewrite H. by rewrite IH.
Qed.

Lemma word_prefix_split s :
  ∃ rest, s = word_prefix s +:+ rest ∧ str_forall is_word (word_prefix s) = true
          ∧ at_boundary rest.
Proof.
  induction s as [|c s (rest & Hs & Hw & Hr)]; [by exists EmptyString|]. cbn.
  destruct (is_word c) eqn:E.
  - exists rest. rewrite str_app_cons, <- Hs. cbn. by rewrite E.
  - by exists (String c s).
Qed.

Lemma lstrip_split s : ∃ sp, s = sp +:+ lstrip s ∧ str_forall is_space sp = true.
Proof.
  unfold lstrip. induction s as [|c s (sp & Hs & Hsp)]; [by exists EmptyString|].
  cbn. destruct (is_space c) eqn:E; [|by exists EmptyString].
  exists (String c sp). rewrite str_app_cons, <- Hs. cbn. by rewrite E.
Qed.

Lemma lstrip_spaces sp s : str_forall is_space sp = true → lstrip (sp +:+ s) = lstrip s.
Proof.
  intros Hsp. induction sp as [|c sp IH]; [done|]. cbn in Hsp. split_bools.
  rewrite str_app_cons. unfold lstrip. cbn. rewrite H. by apply IH.
Qed.

Lemma lstrip_word w rest :
  str_forall is_word w = true → w ≠ EmptyString → lstrip (w +:+ rest) = w +:+ rest.
Proof.
  destruct w as [|c w]; [done|]. cbn. intros Hw _. split_bools. rewrite str_app_cons.
  unfold lstrip. cbn. by rewrite word_not_space.
Qed.

Lemma first_word_eq sp w rest :
  str_forall is_space sp = true → str_forall is_word w = true → w ≠ EmptyString →
  at_boundary rest → first_word (sp +:+ w +:+ rest) = lower w.
Proof.
  intros. unfold first_word. by rewrite lstrip_spaces, lstrip_word, word_prefix_app.
Qed.

Lemma rmatch_ralts l p q : rmatch (ralts l) p q ↔ ∃ r, r ∈ l ∧ rmatch r p q.
Proof.
  induction l as [|r l IH]; cbn.
  - split; [by inversion 1; subst|]. intros (r & Hr & _). by apply not_elem_of_nil in Hr.
  - destruct l as [|r' l]; [split; [intros H; exists r; split; [left|done]|]|].
    + by intros (r' & ->%list_elem_of_singleton & ?).
    + split.
      * inversion 1; subst; [exists r; split; [left|done]|].
        match goal with H : rmatch _ _ _ |- _ => apply IH in H as (r0 & ? & ?) end.
        exists r0. split; [by right|done].
      * intros (r0 & [->|Hr]%elem_of_cons & Hm); [by apply m_alt_l|].
        apply m_alt_r, IH. by exists r0.
Qed.

(** A keyword pattern matches from the start of the text only. *)
Lemma keyword_search alts query :
  re_search (keyword alts) query = true ↔
  ∃ sp x p, query = sp +:+ x ∧ str_forall is_space sp = true
    ∧ rmatch (ralts alts) (after None sp, x) p
    ∧ xorb (at_word (fst p)) (at_word (next_char (snd p))) = true.
Proof.
  rewrite re_search_correct. unfold keyword, rseqs. split.
  - intros (p & q & Hr & Hm). inversion Hm as [| |? ? ? ? ? Hs Hm1| | | | | | | |]; subst.
    inversion Hs; subst. apply reaches_before in Hr; [|done]. cbn in Hr. subst.
    inversion Hm1 as [| |? ? ? ? ? Hs1 Hm2| | | | | | | |]; subst.
    apply rmatch_star_class in Hs1 as (sp & x & -> & Hsp & ->).
    inversion Hm2 as [| |? ? ? t ? Hs2 Hb| | | | | | | |]; subst. inversion Hb; subst.
    by exists sp, x, q.
  - intros (sp & x & p & -> & Hsp & Hm & Hb). exists (None, sp +:+ x), p.
    split; [constructor|]. econstructor; [constructor|]. econstructor.
    + apply rmatch_star_class. by exists sp, x.
    + econstructor; [done|]. by constructor.
Qed.

Lemma after_word prev w :
  str_forall is_word w = true → w ≠ EmptyString → at_word (after prev w) = true.
Proof.
  revert prev. induction w as [|c w IH]; intros prev; [done|]. cbn. intros Hw _. split_bools.
  destruct w as [|d w]; [done|]. by apply IH.
Qed.

(** A list of plain keywords is found exactly when the first word is one. *)
Lemma keyword_words words query :
  Forall (λ w, str_forall is_word w = true ∧ w ≠ EmptyString) words →
  re_search (keyword (map rstr words)) query = mem (first_word query) (map lower words).
Proof.
  intros Hw. rewrite Forall_forall in Hw. apply eq_true_iff_eq.
  rewrite keyword_search, mem_elem_of, list_elem_of_fmap. split.
  - intros (sp & x & p & -> & Hsp & Hm & Hb).
    apply rmatch_ralts in Hm as (r & (word & -> & Hin)%list_elem_of_fmap & Hm).
    apply rmatch_rstr in Hm as (w & rest & -> & Hl & ->). cbn [fst snd] in Hb.
    destruct (Hw word Hin) as [Hword Hne].
    assert (str_forall is_word w = true) as Hww by by eapply str_forall_lower_word.
    assert (w ≠ EmptyString) as Hwne by (by intros ->; destruct word).
    rewrite after_word in Hb by done. exists word. split; [|done].
    rewrite first_word_eq; [done..|]. unfold at_boundary. by destruct (at_word _).
  - intros (word & Hf & Hin). destruct (Hw word Hin) as [Hword Hne].
    destruct (lstrip_split query) as (sp & Hq & Hsp).
    destruct (word_prefix_split (lstrip query)) as (rest & Hl & Hwp & Hr).
    set (w := word_prefix (lstrip query)) in *.
    assert (w ≠ EmptyString) as Hwne.
    { unfold first_word in Hf. fold w in Hf. intros E. rewrite E in Hf. by destruct word. }
    exists sp, (lstrip query), (after (after None sp) w, rest).
    split; [done|]. split; [done|]. split.
    + apply rmatch_ralts. exists (rstr word). split; [by apply list_elem_of_fmap; exists word|].
      apply rmatch_rstr. by exists w, rest.
    + cbn [fst snd]. rewrite after_word by done. unfold at_boundary in Hr. by rewrite Hr.
Qed.

Lemma two_words_first first p q :
  str_forall is_word first = true → first ≠ EmptyString →
  rmatch (two_words first) p q →
  ∃ w rest, snd p = w +:+ rest ∧ lower w = lower first ∧ at_boundary rest.
Proof.
  intros Hf Hne Hm. destruct p as [prev x]. unfold two_words, rseqs, rplus in Hm.
  inversion Hm as [| |? ? ? ? ? Hw Hm1| | | | | | | |]; subst.
  apply rmatch_rstr in Hw as (w & rest & -> & Hl & ->). exists w, rest.
  do 2 (split; [done|]).
  inversion Hm1 as [| |? ? ? ? ? Hs _| | | | | | | |]; subst.
  inversion Hs as [| |? ? ? ? ? Hc _| | | | | | | |]; subst. inversion Hc; subst.
  unfold at_boundary. cbn. destruct (is_word c) eqn:E; [|done].
  apply word_not_space in E. congruence.
Qed.

Lemma permission_first_word query :
  re_search SQL_PERMISSION query = true →
  first_word query ∈ ["grant"; "revoke"; "create"; "alter"; "drop"].
Proof.
  unfold SQL_PERMISSION. rewrite keyword_search. intros (sp & x & p & -> & Hsp & Hm & Hb).
  assert (∃ first w rest, x = w +:+ rest ∧ lower w = lower first ∧ at_boundary rest
    ∧ str_forall is_word first = true ∧ first ≠ EmptyString
    ∧ lower first ∈ ["grant"; "revoke"; "create"; "alter"; "drop"])
    as (first & w & rest & -> & Hl & Hr & Hf & Hne & Hin).
  { apply rmatch_ralts in Hm as (r & Hr & Hm). rewrite !elem_of_cons, elem_of_nil in Hr.
    destruct Hr as [->|[->|[->|[->|[->|[]]]]]].
    1,2: apply rmatch_rstr in Hm as (w & rest & -> & Hl & ->); cbn [fst snd] in Hb;
      rewrite after_word in Hb;
      [|by eapply str_forall_lower_word; [done|vm_compute]|by intros ->; discriminate Hl];
      eexists _, w, rest; split; [done|]; split; [done|];
      split; [unfold at_boundary; by destruct (at_word _)|].
    3,4,5: apply two_words_first in Hm as (w & rest & Hx & Hl & Hr); [|by vm_compute|done];
      eexists _, w, rest; split; [done|]; split; [done|]; split; [done|].
    all: split; [by vm_compute|]; split; [done|]; apply mem_elem_of; reflexivity. }
  rewrite first_word_eq; [by rewrite Hl|done| |by intros ->; destruct first|done].
  by eapply str_forall_lower_word.
Qed.

Lemma grant_permission query :
  first_word query ∈ ["grant"; "revoke"] → re_search SQL_PERMISSION query = true.
Proof.
  intros Hw. assert (re_search (keyword (map rstr ["GRANT"; "REVOKE"])) query = true) as H.
  { rewrite keyword_words; [by apply mem_elem_of|]. by repeat constructor. }
  unfold SQL_PERMISSION. rewrite keyword_search in H |- *.
  destruct H as (sp & x & p & Hq & Hsp & Hm & Hb). exists sp, x, p. split; [done|].
  split; [done|]. split; [|done]. apply rmatch_ralts in Hm as (r & Hr & Hm).
  apply rmatch_ralts. exists r. split; [|done].
  change (r ∈ [rstr "GRANT"; rstr "REVOKE"]) in Hr.
  rewrite !elem_of_cons, elem_of_nil in Hr. rewrite !elem_of_cons. tauto.
Qed.

Definition read_words : list string :=
  ["select"; "show"; "describe"; "desc"; "explain"; "pragma"; "with"].
Definition delete_words : list string := ["drop"; "truncate"; "delete"].
Definition write_words : list string :=
  ["insert"; "update"; "create"; "alter"; "replace"; "merge"; "upsert"; "copy"; "vacuum";
   "reindex"].

Lemma sql_patterns query :
  re_search SQL_READ query = mem (first_word query) read_words
  ∧ re_search SQL_DELETE query = mem (first_word query) delete_words
  ∧ re_search SQL_WRITE query = mem (first_word query) write_words.
Proof.
  split; [|split].
  all: unfold SQL_READ, SQL_DELETE, SQL_WRITE; rewrite keyword_words;
    [reflexivity|by repeat constructor].
Qed.

(** What a database statement is reviewed as.  The four patterns decide by
    the first word of the statement, whatever its case and the white space
    before it: [GRANT] and [REVOKE] change permissions, [TRUNCATE] and [DELETE]
    delete, [DROP] deletes or changes permissions, the other mutating words
    write ([CREATE] and [ALTER] may change permissions), the reading words
    read.  A statement with any other first word is reviewed as a read only
    when it is one of the Redis read commands, and the four effects are the
    only ones. *)
Theorem effect_for_query_first_word (query : string) :
  let w := first_word query in
  let effect := _effect_for_query query in
  (w ∈ ["grant"; "revoke"] → effect = "identity.permission_change")
  ∧ (w ∈ ["truncate"; "delete"] → effect = "database.delete")
  ∧ (w = "drop" → effect = "database.delete" ∨ effect = "identity.permission_change")
  ∧ (w ∈ write_words → effect = "database.write"
                       ∨ effect = "identity.permission_change" ∧ (w = "create" ∨ w = "alter"))
  ∧ (w ∈ read_words → effect = "database.read")
  ∧ (effect = "database.read" →
       w ∈ read_words ∨ ∃ command, head (split_ws (upper (lstrip query))) = Some command
                                   ∧ command ∈ REDIS_READ)
  ∧ effect ∈ ["identity.permission_change"; "database.delete"; "database.read";
              "database.write"].
Proof.
  cbv zeta. pose proof (permission_first_word query) as Hp.
  pose proof (grant_permission query) as Hg. destruct (sql_patterns query) as (Hr & Hd & Hw).
  unfold _effect_for_query. rewrite Hr, Hd, Hw. cbv zeta.
  set (w := first_word query) in *. clear Hr Hd Hw.
  split; [by intros ->%Hg|].
  assert (∀ v, w = v → v ∉ ["grant"; "revoke"; "create"; "alter"; "drop"] →
               re_search SQL_PERMISSION query = false) as Hnp.
  { intros v -> Hv. destruct (re_search SQL_PERMISSION query); [|done]. by destruct Hv; auto. }
  split.
  { rewrite elem_of_cons, list_elem_of_singleton. intros [Hv|Hv];
      (rewrite (Hnp _ Hv); [by rewrite Hv|by apply mem_false]). }
  split; [intros ->; destruct (re_search _ _); auto|].
  split.
  { unfold write_words at 1. rewrite !elem_of_cons, elem_of_nil. intros Hv.
    repeat destruct Hv as [Hv|Hv]; try done;
      first [rewrite (Hnp _ Hv); [by rewrite Hv; left|by apply mem_false]
            |rewrite Hv; destruct (re_search _ _); auto]. }
  split.
  { unfold read_words at 1. rewrite !elem_of_cons, elem_of_nil. intros Hv.
    repeat destruct Hv as [Hv|Hv]; try done;
      (rewrite (Hnp _ Hv); [by rewrite Hv|by apply mem_false]). }
  split.
  - repeat case_match; try done; intros _; [left; by apply mem_elem_of|right].
    match goal with H : mem ?c REDIS_READ = true |- _ =>
      apply mem_elem_of in H; destruct (head _) eqn:Eh; cbn [default] in H; [eauto|] end.
    exfalso. by apply mem_elem_of in H4.
  - apply mem_elem_of. repeat case_match; reflexivity.
Qed.
End Database.

(** ** [aws.py] *)
Module Aws.

Definition VALUE_OPTIONS : list string :=
  ["--ca-bundle"; "--cli-connect-timeout"; "--cli-read-timeout"; "--color";
   "--endpoint-url"; "--output"; "--profile"; "--query"; "--region"].

Section analyzer.
Context (st : Store).
#[local] Abbreviation evidence := (evidence st).

Definition aws_findings (arguments operands : list string) (service operation : option string)
    (target : option string) : list (res EffectEvidence) :=
  let s3_source := "aws s3 " +:+ fmt_opt operation in
  let source := "aws " +:+ fmt_opt service +:+ " " +:+ fmt_opt operation in
  if opt_is service "configure" then
    [evidence "secret.write" "aws configure" (Some "aws:credential");
     evidence "filesystem.write" "aws configure" (Some "path:~/.aws")]
  else if opt_is service "secretsmanager"
          && opt_mem operation ["batch-get-secret-value"; "get-secret-value"] then
    [evidence "secret.read" "aws secretsmanager read" target]
  else if opt_is service "ssm" && opt_mem operation ["get-parameter"; "get-parameters"]
          && flag_present arguments ["--with-decryption"] EmptyString then
    [evidence "secret.read" "aws ssm decrypted parameter" target]
  else if opt_is service "sts" && opt_truthy operation
          && contains (fmt_opt operation) "token" then
    [evidence "secret.read" "aws sts token" target]
  else if opt_is service "s3" && opt_mem operation ["cp"; "mv"; "sync"] then
    let '(upload, download) := cloud_direction (drop 2 operands) "s3://" in
    when upload [evidence "network.upload" s3_source target]
    ++ when download [evidence "network.download" s3_source target]
    ++ when (opt_mem operation ["mv"; "sync"])
         [evidence "infrastructure.write" s3_source target]
  else if opt_is service "s3" && opt_mem operation ["rb"; "rm"] then
    [evidence "infrastructure.delete" s3_source target]
  else if opt_is service "s3" && opt_is operation "ls" then
    [evidence "infrastructure.read" "aws s3 ls" target]
  else if opt_mem service ["iam"; "organizations"] && opt_truthy operation then
    let effect_name := verb_effect (fmt_opt operation) in
    if mutating effect_name then [evidence "identity.permission_change" source target]
    else match effect_name with
         | Some effect_name => [evidence effect_name source target]
         | None => []
         end
  else if opt_is service "lambda" && opt_is operation "invoke" then
    [evidence "remote.execute" "aws lambda invoke" target]
  else if opt_truthy operation then
    match verb_effect (fmt_opt operation) with
    | Some effect_name => [evidence effect_name source target]
    | None => []
    end
  else [].

Definition analyze_aws (invocation : Invocation) : res SemanticAnalysis :=
  let operands := positionals (args invocation) VALUE_OPTIONS in
  let service := lower_arg 0 operands in
  let operation := lower_arg 1 operands in
  let region := or_default (option_value (args invocation) ["--region"] []) "default" in
  let target := Some (resource "aws" [Some (or_star service); Some region;
                                      Some (or_star operation)]) in
  analysis "aws"
    (if opt_truthy operation then Some (fmt_opt service +:+ " " +:+ fmt_opt operation)
     else service)
    (flags (args invocation)) (drop 2 operands)
    (when (opt_truthy service && opt_truthy operation)
       [evidence "network.connect" "aws api request" target]
     ++ aws_findings (args invocation) operands service operation target)
    "aws" [].
End analyzer.
End Aws.

(** ** What [azure.py] and [gcloud.py] share *)

(** [next((item for item in lowered if verb_effect(item)), None)] with its effect. *)
Definition first_verb (lowered : list string) : option (string * string) :=
  match find (λ item, bool_decide (is_Some (verb_effect item))) lowered with
  | Some verb => (λ effect, (verb, effect)) <$> (if truthy verb then verb_effect verb else None)
  | None => None
  end.
(** [text or None]. *)
Definition text_or_none (text : string) : option string :=
  if truthy text then Some text else None.

(** ** [azure.py] *)
Module Azure.

Definition VALUE_OPTIONS : list string := ["--output"; "--query"; "--subscription"].

Section analyzer.
Context (st : Store).
#[local] Abbreviation evidence := (evidence st).

Definition azure_findings (lowered : list string) (target : option string)
  : list (res EffectEvidence) :=
  let command := take 3 lowered in
  if startswith (join " " lowered) "account get-access-token" then
    [evidence "secret.read" "az access token" (Some "azure:credential")]
  else if bool_decide (command = ["keyvault"; "secret"; "show"]) then
    [evidence "secret.read" "az keyvault secret show" target]
  else if bool_decide (command = ["keyvault"; "secret"; "set"]) then
    [evidence "secret.write" "az keyvault secret set" target]
  else if bool_decide (command = ["keyvault"; "secret"; "delete"])
          || bool_decide (command = ["keyvault"; "secret"; "purge"]) then
    [evidence "infrastructure.delete" "az keyvault secret removal" target]
  else if bool_decide (command = ["storage"; "blob"; "upload"]) then
    [evidence "network.upload" "az storage blob upload" target]
  else if bool_decide (command = ["storage"; "blob"; "download"]) then
    [evidence "network.download" "az storage blob download" target]
  else
    match first_verb lowered with
    | None => []
    | Some (verb, effect_name) =>
        if existsb (λ item, mem item ["ad"; "identity"; "role"]) lowered
           && mutating (Some effect_name)
        then [evidence "identity.permission_change" ("az " +:+ verb) target]
        else [evidence effect_name ("az " +:+ verb) target]
    end.

Definition analyze_azure (invocation : Invocation) : res SemanticAnalysis :=
  let operands := positionals (args invocation) VALUE_OPTIONS in
  let lowered := map lower operands in
  let subscription :=
    or_default (option_value (args invocation) ["--subscription"] []) "default" in
  let target := Some (resource "azure"
    [Some subscription; Some (or_star (Some (join "/" (take 4 lowered))))]) in
  analysis "az" (text_or_none (join " " (take 3 operands))) (flags (args invocation))
    (drop 3 operands)
    (match operands with
     | [] => []
     | _ => [evidence "network.connect" "az api request" target]
     end ++ azure_findings lowered target)
    "az" [].
End analyzer.
End Azure.

(** ** [gcloud.py] *)
Module Gcloud.

Definition VALUE_OPTIONS : list string :=
  ["--account"; "--billing-project"; "--configuration"; "--flags-file"; "--format";
   "--impersonate-service-account"; "--project"; "--trace-token"; "--verbosity"].

Section analyzer.
Context (st : Store).
#[local] Abbreviation evidence := (evidence st).

Definition gcloud_findings (operands lowered : list string) (target : option string)
  : list (res EffectEvidence) :=
  let joined := join " " lowered in
  let command := take 2 lowered in
  if startswith joined "auth print-access-token"
     || startswith joined "auth application-default print-access-token" then
    [evidence "secret.read" "gcloud access token" (Some "gcloud:credential")]
  else if startswith joined "auth login"
          || startswith joined "auth application-default login" then
    [evidence "secret.write" "gcloud credential login" (Some "gcloud:credential")]
  else if contains joined "secrets versions access" then
    [evidence "secret.read" "gcloud secret access" target]
  else if bool_decide (command = ["storage"; "cp"])
          || bool_decide (command = ["storage"; "rsync"]) then
    let '(upload, download) := cloud_direction (drop 2 operands) "gs://" in
    when upload [evidence "network.upload" "gcloud storage upload" target]
    ++ when download [evidence "network.download" "gcloud storage download" target]
    ++ when (opt_is (nth_arg 1 lowered) "rsync")
         [evidence "infrastructure.write" "gcloud storage rsync" target]
  else
    match first_verb lowered with
    | None => []
    | Some (verb, effect_name) =>
        let permission_scope :=
          existsb (λ item, contains item "iam" || contains item "policy"
                           || contains item "service-account") lowered in
        if permission_scope && mutating (Some effect_name)
        then [evidence "identity.permission_change" ("gcloud " +:+ verb) target]
        else [evidence effect_name ("gcloud " +:+ verb) target]
    end.

Definition analyze_gcloud (invocation : Invocation) : res SemanticAnalysis :=
  let operands := positionals (args invocation) VALUE_OPTIONS in
  let lowered := map lower operands in
  let project := or_default (option_value (args invocation) ["--project"] []) "default" in
  let target := Some (resource "gcloud"
    [Some project; Some (or_star (Some (join "/" (take 4 lowered))))]) in
  analysis "gcloud" (text_or_none (join " " (take 3 operands))) (flags (args invocation))
    (drop 3 operands)
    (match operands with
     | [] => []
     | _ => [evidence "network.connect" "gcloud api request" target]
     end ++ gcloud_findings operands lowered target)
    "gcloud" [].
End analyzer.
End Gcloud.

(** ** [github.py] *)
Module Github.

Definition VALUE_OPTIONS : list string := ["--hostname"; "--repo"; "-R"].
Definition READ_OPERATIONS : list string := ["checks"; "diff"; "list"; "status"; "view"].
Definition WRITE_OPERATIONS : list string :=
  ["close"; "create"; "disable"; "edit"; "enable"; "merge"; "reopen"].

(** The effect of the item is known before the catalog is read: [evidence]
    copies its name. *)
Definition github_finding : Type := string * string * option string.

(** The [gh api] branch, and every other branch: each finding by its effect,
    source and resource. *)
Definition api_findings (arguments : list string) (method : string) (target : option string)
  : list github_finding :=
  [("network.connect", "gh api", target)]
  ++ [(if method =s "DELETE" then ("infrastructure.delete", "gh api DELETE", target)
       else if mem method ["GET"; "HEAD"]
       then ("infrastructure.read", "gh api " +:+ method, target)
       else ("infrastructure.write", "gh api " +:+ method, target))]
  ++ (if flag_present arguments ["--input"; "--field"; "--raw-field"; "-f"; "-F"] EmptyString
      then [("network.upload", "gh api request data", target)] else []).

Definition group_findings (group operation combined : option string) (target : option string)
  : list github_finding :=
  let source := "gh " +:+ fmt_opt combined in
  if opt_is combined "auth token" then
    [("secret.read", "gh auth token", Some "github:credential")]
  else if opt_is group "auth" && opt_mem operation ["login"; "logout"; "refresh"] then
    [("identity.permission_change", source, Some "github:credential")]
  else if opt_is group "secret" then
    if opt_is operation "list" then [("infrastructure.read", source, target)]
    else if opt_is operation "set" then [("secret.write", source, target)]
    else if opt_mem operation ["delete"; "remove"] then
      [("infrastructure.delete", source, target)]
    else []
  else if opt_mem combined ["repo clone"; "release download"; "run download"] then
    [("network.download", source, target)]
  else if opt_is combined "release upload" then [("network.upload", source, target)]
  else if opt_mem operation ["delete"; "remove"] then
    [("infrastructure.delete", source, target)]
  else if opt_mem operation WRITE_OPERATIONS then [("infrastructure.write", source, target)]
  else if opt_mem operation READ_OPERATIONS
          || opt_mem combined ["auth status"; "repo view"] then
    [("infrastructure.read", source, target)]
  else [].

Section analyzer.
Context (st : Store).

Definition finding_effect (f : github_finding) : string := fst (fst f).

(** [target] is the one in force after the branch: the [gh api] branch
    assigns a new one. *)
Definition gh_findings (arguments : list string) (group operation combined : option string)
    (operands : list string) : list github_finding :=
  let target :=
    Some (if opt_is group "api"
          then resource "github" [Some "api"; Some (default "*" (nth_arg 1 operands))]
          else resource "github" [Some (or_star group);
                                  Some (default "*" (nth_arg 2 operands))]) in
  let method :=
    upper (or_default (option_value arguments ["--method"] ["-X"]) "GET") in
  let findings :=
    if opt_is group "api" then api_findings arguments method target
    else group_findings group operation combined target in
  match findings with
  | [] => []
  | _ => if existsb (λ f, finding_effect f =s "network.connect") findings then findings
         else findings ++ [("network.connect", "gh remote operation", target)]
  end.

Definition analyze_gh (invocation : Invocation) : res SemanticAnalysis :=
  let operands := positionals (args invocation) VALUE_OPTIONS in
  let group := lower_arg 0 operands in
  let operation := lower_arg 1 operands in
  let combined := combine group operation in
  analysis "gh" combined (flags (args invocation)) (drop 2 operands)
    (map (λ f : github_finding, let '(effect_name, source, target) := f in
                                evidence st effect_name source target)
       (gh_findings (args invocation) group operation combined operands))
    "gh" [].
End analyzer.
End Github.

(** ** [kubernetes.py] *)
Module Kubernetes.

Definition VALUE_OPTIONS : list string :=
  ["--as"; "--as-group"; "--cache-dir"; "--certificate-authority"; "--client-certificate";
   "--client-key"; "--cluster"; "--context"; "--kubeconfig"; "--namespace"; "--output";
   "--request-timeout"; "--selector"; "--server"; "--token"; "--user"; "-l"; "-n"; "-o"].
Definition READ_COMMANDS : list string :=
  ["api-resources"; "api-versions"; "auth"; "cluster-info"; "describe"; "explain"; "get";
   "logs"; "top"; "version"].
Definition WRITE_COMMANDS : list string :=
  ["annotate"; "apply"; "autoscale"; "cordon"; "create"; "drain"; "edit"; "expose";
   "label"; "patch"; "replace"; "rollout"; "scale"; "set"; "taint"; "uncordon"].
Definition REMOTE_EXECUTE_COMMANDS : list string := ["attach"; "debug"; "exec"].

Section analyzer.
Context (st : Store).
#[local] Abbreviation evidence := (evidence st).

Definition copy_findings (targets : list string) (target : option string)
  : list (res EffectEvidence) :=
  match last_two targets with
  | None => []
  | Some (source, destination) =>
      let source_remote := contains source ":" in
      let destination_remote := contains destination ":" in
      when (destination_remote && negb source_remote)
        [evidence "network.upload" "kubectl cp upload" target]
      ++ when (source_remote && negb destination_remote)
        [evidence "network.download" "kubectl cp download" target]
  end.

Definition kubectl_findings (arguments : list string) (subcommand : option string)
    (targets : list string) (kind : string) (target : option string)
  : list (res EffectEvidence) :=
  let source := "kubectl " +:+ fmt_opt subcommand in
  if opt_mem subcommand READ_COMMANDS then
    [evidence "infrastructure.read" source target]
    ++ when (mem kind ["secret"; "secrets"]
             && opt_truthy (option_value arguments ["--output"] ["-o"]))
         [evidence "secret.read" "kubectl secret output" target]
  else if opt_mem subcommand WRITE_COMMANDS then
    [evidence "infrastructure.write" source target]
  else if opt_is subcommand "delete" then
    [evidence "infrastructure.delete" "kubectl delete" target]
    ++ when (flag_present arguments ["--force"] EmptyString)
         [evidence "confirmation.bypass" "kubectl --force" target]
  else if opt_mem subcommand REMOTE_EXECUTE_COMMANDS then
    [evidence "network.connect" source target; evidence "remote.execute" source target]
  else if opt_mem subcommand ["port-forward"; "proxy"] then
    [evidence "network.connect" source target]
  else if opt_is subcommand "cp" then
    [evidence "network.connect" "kubectl cp" target] ++ copy_findings targets target
  else [].

Definition analyze_kubectl (invocation : Invocation) : res SemanticAnalysis :=
  let operands := positionals (args invocation) VALUE_OPTIONS in
  let subcommand := lower_arg 0 operands in
  let targets := drop 1 operands in
  let namespace :=
    or_default (option_value (args invocation) ["--namespace"] ["-n"]) "default" in
  let context := or_default (option_value (args invocation) ["--context"] []) "current" in
  let kind := default "*" (lower_arg 0 targets) in
  let name := default "*" (nth_arg 1 targets) in
  let target := Some (resource "kubernetes"
    [Some context; Some namespace; Some kind; Some name]) in
  analysis "kubectl" subcommand (flags (args invocation)) targets
    (kubectl_findings (args invocation) subcommand targets kind target)
    "kubectl" (note_unless (opt_truthy subcommand) "kubectl subcommand not identified").
End analyzer.
End Kubernetes.

(** ** [systemd.py] *)
Module Systemd.

Definition VALUE_OPTIONS : list string :=
  ["--host"; "--machine"; "--root"; "--state"; "--type"].
Definition READ_COMMANDS : list string :=
  ["cat"; "help"; "is-active"; "is-enabled"; "list-unit-files"; "list-units"; "show";
   "status"].
Definition CONTROL_COMMANDS : list string :=
  ["daemon-reload"; "disable"; "edit"; "enable"; "mask"; "reload"; "reload-or-restart";
   "restart"; "set-property"; "start"; "stop"; "try-restart"; "unmask"].
Definition CONFIG_COMMANDS : list string :=
  ["disable"; "edit"; "enable"; "mask"; "set-property"; "unmask"].
Definition POWER_COMMANDS : list string :=
  ["halt"; "hibernate"; "hybrid-sleep"; "poweroff"; "reboot"; "suspend"].

Section analyzers.
Context (st : Store).
#[local] Abbreviation evidence := (evidence st).

Definition systemctl_findings (subcommand : option string) (target : option string)
  : list (res EffectEvidence) :=
  let source := "systemctl " +:+ fmt_opt subcommand in
  if opt_mem subcommand READ_COMMANDS then [evidence "service.read" source target]
  else if opt_mem subcommand CONTROL_COMMANDS then
    [evidence "service.control" source target]
    ++ when (opt_mem subcommand CONFIG_COMMANDS)
         [evidence "system.configuration_write" source target]
  else if opt_mem subcommand POWER_COMMANDS then
    [evidence "system.power_change" source (Some "system")]
  else [].

Definition analyze_systemctl (invocation : Invocation) : res SemanticAnalysis :=
  let operands := positionals (args invocation) VALUE_OPTIONS in
  let subcommand := lower_arg 0 operands in
  let targets := drop 1 operands in
  let target := Some (resource "service" [Some (default "*" (head targets))]) in
  analysis "systemctl" subcommand (flags (args invocation)) targets
    (systemctl_findings subcommand target) "systemctl" [].

Definition analyze_journalctl (invocation : Invocation) : res SemanticAnalysis :=
  let journal := Some "system-journal" in
  analysis "journalctl" None (flags (args invocation)) []
    ([evidence "service.read" "journalctl" journal]
     ++ when (existsb (λ token, startswith token "--vacuum-") (args invocation))
          [evidence "infrastructure.delete" "journalctl vacuum" journal]
     ++ when (mem "--rotate" (args invocation))
          [evidence "service.control" "journalctl --rotate" journal])
    "journalctl" [].
End analyzers.
End Systemd.

(** ** [terraform.py] *)
Module Terraform.

Definition VALUE_OPTIONS : list string := ["-chdir"; "-var"; "-var-file"].
Definition READ_COMMANDS : list string :=
  ["graph"; "plan"; "providers"; "show"; "validate"; "version"].
Definition READ_PAIRS : list string :=
  ["state list"; "state pull"; "state show"; "workspace list"; "workspace show"].
Definition WRITE_COMMANDS : list string :=
  ["apply"; "force-unlock"; "fmt"; "import"; "refresh"; "taint"; "untaint"].
Definition WRITE_PAIRS : list string :=
  ["state mv"; "state push"; "state replace-provider"; "workspace new"; "workspace select"].
Definition DELETE_PAIRS : list string := ["state rm"; "workspace delete"].

Section analyzer.
Context (st : Store).
#[local] Abbreviation evidence := (evidence st).

Definition terraform_findings (executable : string) (arguments : list string)
    (subcommand combined target : option string) : list (res EffectEvidence) :=
  let source := executable +:+ " " +:+ fmt_opt combined in
  (if opt_mem subcommand READ_COMMANDS || opt_mem combined READ_PAIRS then
     [evidence "infrastructure.read" source target]
   else if opt_is subcommand "output" then
     [evidence "infrastructure.read" (executable +:+ " output") target]
     ++ when (flag_present arguments ["-raw"; "-json"] EmptyString)
          [evidence "secret.read" (executable +:+ " output") target]
   else if opt_is subcommand "init" then
     [evidence "network.download" (executable +:+ " init") target;
      evidence "filesystem.write" (executable +:+ " init") (Some "path:.terraform")]
   else if opt_is subcommand "destroy" || opt_mem combined DELETE_PAIRS then
     [evidence "infrastructure.delete" source target]
   else if opt_mem subcommand WRITE_COMMANDS || opt_mem combined WRITE_PAIRS then
     [evidence "infrastructure.write" source target]
   else [])
  ++ when (opt_mem subcommand ["apply"; "destroy"]
           && flag_present arguments ["-auto-approve"] EmptyString)
       [evidence "confirmation.bypass" (executable +:+ " -auto-approve") target].

Definition analyze_terraform (invocation : Invocation) : res SemanticAnalysis :=
  let executable := executable invocation in
  let operands := positionals (args invocation) VALUE_OPTIONS in
  let subcommand := lower_arg 0 operands in
  let combined := combine subcommand (lower_arg 1 operands) in
  let target := Some (resource "terraform" [Some executable; Some (or_star combined)]) in
  analysis executable combined (flags (args invocation)) (drop 1 operands)
    (terraform_findings executable (args invocation) subcommand combined target)
    executable
    (note_unless (opt_truthy subcommand) (executable +:+ " subcommand not identified")).
End analyzer.
End Terraform.
