(* ===== verification/Analyzers.v ===== *)
(** * The analyzer registry ([ordin/analyzers/__init__.py])

    The registry binds an executable to its analyzer and to the command pack
    the analyzer belongs to; [analyze_tokens] dispatches on it. *)
From stdpp Require Import base list strings sets gmap sorting.
From Stdlib Require Import Bool Ascii Lia.
From S2P Require Import Prelude PyStr Json Regex Catalog Shell Context Effects AnalyzerBase AnalyzersLocal AnalyzersCloud.
#[local] Open Scope py_scope.

Definition Analyzer : Type := Store → Invocation → res SemanticAnalysis.
Record AnalyzerRegistration := {
  reg_analyzer : Analyzer;
  reg_pack : option string }.

Definition registry : Type := list (string * AnalyzerRegistration).

(** One [register(executables, pack=pack)(analyzer)] call. *)
Definition register (executables : list string) (pack : option string) (analyzer : Analyzer)
    (r : registry) : registry :=
  foldl (λ r executable, dict_set executable {| reg_analyzer := analyzer; reg_pack := pack |} r)
    r executables.

(** The calls made when the package is imported, in the order of the imports. *)
Definition registrations : list (list string * option string * Analyzer) :=
  [(["aws"], Some "aws", Aws.analyze_aws);
   (["az"], Some "azure", Azure.analyze_azure);
   (["psql"; "mysql"; "mariadb"; "sqlite3"; "mongosh"; "redis-cli"], Some "database",
    Database.analyze_database);
   (["docker"], Some "docker", Docker.analyze_docker);
   (["cat"], None, Filesystem.analyze_cat);
   (["rm"], None, Filesystem.analyze_rm);
   (["chmod"], None, Filesystem.analyze_chmod);
   (["chown"], None, Filesystem.analyze_chown);
   (["gcloud"], Some "gcloud", Gcloud.analyze_gcloud);
   (["git"], Some "git", Git.analyze_git);
   (["gh"], Some "github", Github.analyze_gh);
   (["kubectl"], Some "kubernetes", Kubernetes.analyze_kubectl);
   (["curl"], None, Network.analyze_curl);
   (["wget"], None, Network.analyze_wget);
   (["pip"], None, Packages.analyze_pip);
   (["npm"], None, Packages.analyze_npm);
   (["apt"; "apt-get"], None, Packages.analyze_apt);
   (["ssh"], Some "remote", Remote.analyze_ssh);
   (["scp"], Some "remote", Remote._analyze_transfer);
   (["rsync"], Some "remote", Remote._analyze_transfer);
   (["systemctl"], Some "systemd", Systemd.analyze_systemctl);
   (["journalctl"], Some "systemd", Systemd.analyze_journalctl);
   (["terraform"], Some "terraform", Terraform.analyze_terraform);
   (["tofu"], Some "terraform", Terraform.analyze_terraform)].
Definition _REGISTRY : registry :=
  foldl (λ r call, let '(executables, pack, analyzer) := call in
                   register executables pack analyzer r) [] registrations.

(** [registration.pack is None or is_pack_enabled(registration.pack)]. *)
Definition registration_enabled (st : Store) (registration : AnalyzerRegistration) : bool :=
  match reg_pack registration with
  | None => true
  | Some pack => is_pack_enabled st pack
  end.

Definition analyze_tokens (st : Store) (tokens : list string) (context : option ExecutionContext)
  : res (option SemanticAnalysis) :=
  match normalize_invocation tokens context with
  | None => Ok None
  | Some invocation =>
      match dict_get (executable invocation) _REGISTRY with
      | None => Ok None
      | Some registration =>
          if negb (registration_enabled st registration) then Ok None
          else analysis ← reg_analyzer registration st invocation; Ok (Some analysis)
      end
  end.

Definition supported_analyzers (st : Store) (loaded_only : bool) : list string :=
  sorted (map fst (filter (λ r, (negb loaded_only || registration_enabled st (snd r)) = true)
                          _REGISTRY)).

(** ** Every analyzer against the catalog *)

(** The effects that the analyzers without a pack cite, with those of the git
    and docker packs, which define no effects; and the effects that the other
    packs define. *)
Definition CORE_EFFECTS : list string :=
  ["code.execute"; "confirmation.bypass"; "container.create"; "container.delete";
   "container.prune"; "container.read"; "filesystem.delete"; "filesystem.ownership_change";
   "filesystem.permission_change"; "filesystem.read"; "filesystem.recursive_delete";
   "filesystem.recursive_ownership_change"; "filesystem.recursive_permission_change";
   "filesystem.write"; "git.history_rewrite"; "git.local_write"; "git.read";
   "git.remote_write"; "network.connect"; "network.download"; "network.upload";
   "package.install"; "package.read"; "package.remove"; "privilege.escalate"; "secret.read";
   "system.configuration_write"].
Definition PACK_EFFECTS : list string :=
  ["database.delete"; "database.read"; "database.write"; "identity.permission_change";
   "infrastructure.delete"; "infrastructure.read"; "infrastructure.write"; "remote.execute";
   "secret.write"; "service.control"; "service.read"; "system.power_change"].

Definition EFFECT_PACKS : list string :=
  ["aws"; "azure"; "database"; "gcloud"; "github"; "kubernetes"; "remote"; "systemd";
   "terraform"].
Definition names_of (pack : option string) : list string :=
  if opt_mem pack EFFECT_PACKS then CORE_EFFECTS ++ PACK_EFFECTS else CORE_EFFECTS.

(** What a catalog must define for the analyzers that may run. *)
Definition analyzer_catalog_ok (st : Store) : bool :=
  catalog_covers st CORE_EFFECTS
  && (negb (existsb (is_pack_enabled st) EFFECT_PACKS) || catalog_covers st PACK_EFFECTS).

Lemma effect_for_query_known query :
  mem (Database._effect_for_query query) (CORE_EFFECTS ++ PACK_EFFECTS) = true.
Proof. unfold Database._effect_for_query. cbv zeta. repeat case_match; reflexivity. Qed.

Lemma first_verb_effect l verb effect :
  first_verb l = Some (verb, effect) → verb_effect verb = Some effect.
Proof.
  unfold first_verb. destruct (find _ l) as [v|]; [|done]. destruct (truthy v); [|done].
  destruct (verb_effect v) eqn:E; cbn; [|done]. congruence.
Qed.

Ltac solve_analyzer :=
  solve_well_behaved; solve_cites;
  try match goal with
      | H : first_verb _ = Some (_, ?e) |- cites _ _ (evidence _ ?e _ _) =>
          apply first_verb_effect in H; solve_cites
      | |- cites _ _ (evidence _ (Database._effect_for_query _) _ _) =>
          apply cites_evidence, effect_for_query_known
      end.

Definition known_finding (f : Github.github_finding) : bool :=
  mem (Github.finding_effect f) (CORE_EFFECTS ++ PACK_EFFECTS).

Lemma gh_branches_known arguments method group operation combined target :
  Forall (λ f, known_finding f = true) (Github.api_findings arguments method target)
  ∧ Forall (λ f, known_finding f = true)
      (Github.group_findings group operation combined target).
Proof.
  unfold Github.api_findings, Github.group_findings. split; cbv zeta;
    repeat match goal with
           | |- Forall _ (_ ++ _) => apply Forall_app_2
           | |- Forall _ (if ?c then _ else _) => destruct c
           | |- Forall _ _ => constructor
           end; repeat case_match; reflexivity.
Qed.

Lemma gh_findings_known arguments group operation combined operands :
  Forall (λ f, known_finding f = true)
    (Github.gh_findings arguments group operation combined operands).
Proof.
  unfold Github.gh_findings. cbv zeta.
  match goal with |- Forall _ (match ?x with _ => _ end) =>
    assert (Forall (λ f, known_finding f = true) x) as Hx
      by (destruct (opt_is group "api");
          [eapply (proj1 (gh_branches_known _ _ None None None _))
          |eapply (proj2 (gh_branches_known [] EmptyString _ _ _ _))]);
    destruct x as [|f l] eqn:E; [constructor|]; rewrite <- E in * end.
  destruct (existsb _ _); [done|]. apply Forall_app_2; [done|by constructor].
Qed.

Create HintDb analyzers.
#[local] Hint Unfold Aws.analyze_aws Aws.aws_findings Azure.analyze_azure Azure.azure_findings
  Database.analyze_database Docker.analyze_docker Docker.docker_findings
  Filesystem.analyze_cat Filesystem.analyze_rm Filesystem.analyze_chmod
  Filesystem.analyze_chown Gcloud.analyze_gcloud Gcloud.gcloud_findings Git.analyze_git
  Git.git_findings Github.analyze_gh Kubernetes.analyze_kubectl Kubernetes.kubectl_findings
  Kubernetes.copy_findings Network.analyze_curl Network.analyze_wget Packages.analyze_pip
  Packages.pip_findings Packages.analyze_npm Packages.npm_findings Packages.analyze_apt
  Packages.apt_findings Remote.analyze_ssh Remote._analyze_transfer
  Systemd.analyze_systemctl Systemd.systemctl_findings Systemd.analyze_journalctl
  Terraform.analyze_terraform Terraform.terraform_findings : analyzers.

(** Each analyzer behaves well on the names of its pack. *)
Lemma analyzers_well_behaved :
  Forall (λ call : list string * option string * Analyzer,
            let '(_, pack, analyzer) := call in
            ∀ st invocation, well_behaved st (names_of pack) (analyzer st invocation))
    registrations.
Proof.
  unfold registrations. repeat apply Forall_cons_2; [..|constructor]; intros st invocation;
    match goal with |- well_behaved _ (names_of ?p) _ =>
      let b := eval vm_compute in (names_of p) in change (names_of p) with b end;
    autounfold with analyzers.
  all: try (solve_analyzer; fail).
  - apply analysis_well_behaved. generalize (filter (λ target, (target =s "-") = false)
      (Filesystem._operands (args invocation))). intros [|t l]; cbn [map]; solve_cites.
  - apply analysis_well_behaved, Forall_map.
    eapply Forall_impl; [apply gh_findings_known|]. intros [[e s] t]. apply cites_evidence.
Qed.

Lemma dict_get_foldl_register executables pack analyzer r executable registration :
  dict_get executable (register executables pack analyzer r) = Some registration →
  (registration = {| reg_analyzer := analyzer; reg_pack := pack |})
  ∨ dict_get executable r = Some registration.
Proof.
  unfold register. revert r. induction executables as [|e es IH]; intros r; cbn; [auto|].
  intros [?|H]%IH; [auto|]. rewrite dict_get_set in H. case_decide; [left; congruence|auto].
Qed.

(** What is registered under an executable comes from one of the calls. *)
Lemma registry_from_calls executable registration :
  dict_get executable _REGISTRY = Some registration →
  ∃ executables, (executables, reg_pack registration, reg_analyzer registration)
                 ∈ registrations.
Proof.
  unfold _REGISTRY. assert (dict_get executable (@nil (string * AnalyzerRegistration)) = None)
    as H0 by done. revert H0. generalize (@nil (string * AnalyzerRegistration)) as r.
  enough (∀ r, dict_get executable (foldl (λ r call,
      let '(executables, pack, analyzer) := call in register executables pack analyzer r)
      r registrations) = Some registration →
    dict_get executable r = Some registration ∨ ∃ executables,
      (executables, reg_pack registration, reg_analyzer registration) ∈ registrations)
    as Hgen by (intros r Hr [?|?]%Hgen; [congruence|done]).
  induction registrations as [|[[es p] an] calls IH]; intros r; cbn; [auto|].
  intros [H|[es' ?]]%IH.
  - apply dict_get_foldl_register in H as [->|?]; [|by left].
    right. exists es. by left.
  - right. exists es'. by right.
Qed.

Lemma names_of_sub pack : names_of pack ⊆ CORE_EFFECTS ++ PACK_EFFECTS.
Proof. unfold names_of. destruct (opt_mem _ _); [done|]. by apply list_subseteq_app_l. Qed.

Lemma covers_app st names names' :
  catalog_covers st (names ++ names') = catalog_covers st names && catalog_covers st names'.
Proof. unfold catalog_covers. case_match; [apply forallb_app|done]. Qed.

Lemma covers_names_of st analyzer pack :
  analyzer_catalog_ok st = true →
  registration_enabled st {| reg_analyzer := analyzer; reg_pack := pack |} = true →
  catalog_covers st (names_of pack) = true.
Proof.
  unfold analyzer_catalog_ok. intros [Hcore Hpack]%andb_true_iff Hen.
  unfold names_of. destruct (opt_mem pack EFFECT_PACKS) eqn:Hm; [|done].
  destruct pack as [pack|]; [|done]. cbn in Hm, Hen. apply mem_elem_of in Hm.
  rewrite covers_app, Hcore. apply orb_true_iff in Hpack as [Hp|Hp]; [|done].
  exfalso. apply negb_true_iff in Hp. assert (existsb (is_pack_enabled st) EFFECT_PACKS = true);
    [|congruence]. apply existsb_exists. exists pack. by rewrite <- list_elem_of_In.
Qed.

Lemma registry_keys_NoDup : NoDup (map fst _REGISTRY).
Proof. apply (bool_decide_unpack _). vm_compute. done. Qed.

Lemma dict_get_elem {A} key (v : A) (l : list (string * A)) :
  NoDup (map fst l) → dict_get key l = Some v ↔ (key, v) ∈ l.
Proof.
  induction l as [|[k w] l IH]; cbn; intros Hnd; [by rewrite elem_of_nil|].
  apply NoDup_cons in Hnd as [Hk Hnd]. rewrite elem_of_cons, <- (IH Hnd).
  destruct (k =s key) eqn:E.
  - apply eqb_true in E as ->. split; [intros [= ->]; by left|].
    intros [[= ->]|H]; [done|]. exfalso. apply Hk. apply (IH Hnd) in H.
    apply list_elem_of_fmap. by exists (key, v).
  - split; [by right|]. intros [[= -> ->]|?]; [|done]. by rewrite String.eqb_refl in E.
Qed.

Lemma loaded_iff st executable :
  executable ∈ supported_analyzers st true ↔
  ∃ registration, dict_get executable _REGISTRY = Some registration
    ∧ registration_enabled st registration = true.
Proof.
  unfold supported_analyzers, sorted. rewrite (merge_sort_Permutation str_le).
  setoid_rewrite (dict_get_elem _ _ _ registry_keys_NoDup). cbn [negb orb].
  rewrite list_elem_of_fmap. setoid_rewrite list_elem_of_filter.
  split; [intros ([e r] & -> & ? & ?); by exists r|].
  intros (r & ? & ?). by exists (executable, r).
Qed.

Lemma supported_NoDup st loaded_only : NoDup (supported_analyzers st loaded_only).
Proof.
  unfold supported_analyzers, sorted. rewrite (merge_sort_Permutation str_le).
  eapply sublist_NoDup; [apply registry_keys_NoDup|].
  apply (fmap_sublist fst). apply sublist_filter.
Qed.

Lemma analyze_tokens_ok (st : Store) (tokens : list string)
    (context : option ExecutionContext) :
  analyzer_catalog_ok st = true →
  ∃ result, analyze_tokens st tokens context = Ok result
    ∧ ∀ a, result = Some a →
        NoDup (evidence_key <$> an_evidence a)
        ∧ ∀ item, item ∈ an_evidence a →
            mem (ev_effect item) (CORE_EFFECTS ++ PACK_EFFECTS) = true
            ∧ ∃ catalog, load_effect_catalog st = Ok catalog ∧ grounded catalog item.
Proof.
  intros Hcat. unfold analyze_tokens.
  destruct (normalize_invocation tokens context) as [invocation|]; [|by exists None].
  destruct (dict_get (executable invocation) _REGISTRY) as [registration|] eqn:Hr; [|by exists None].
  destruct (registration_enabled st registration) eqn:Hen; [|by exists None]. cbn [negb].
  apply registry_from_calls in Hr as [es Hes].
  destruct registration as [analyzer pack].
  pose proof analyzers_well_behaved as Hall. rewrite Forall_forall in Hall.
  destruct (Hall _ Hes st invocation) as [Hok Ha]. clear Hall Hes.
  cbn [reg_pack reg_analyzer] in Hok, Ha |- *.
  assert (is_ok (analyzer st invocation) = true) as Hret.
  { apply Hok. by eapply covers_names_of. }
  destruct (analyzer st invocation) as [a|]; [|done]. cbn.
  eexists; split; [done|]. intros a' [= <-].
  destruct (Ha a eq_refl) as [Hnd Hitems]. split; [done|].
  intros item Hi. destruct (Hitems item Hi) as [Hm Hg]. split; [|done].
  revert Hm. rewrite !mem_elem_of. apply names_of_sub.
Qed.

(** Analysis is total and grounded.  Take any catalog that defines the
    core effects and, when a pack with an effect file of its own is enabled,
    that pack's effects.  Then [analyze_tokens] never raises, whatever the
    tokens and the context: no analyzer reads an effect the catalog lacks.  The
    evidence of an analysis has one item per effect, source and resource, and
    every item copies its risk, category and reason from the catalog. *)
Theorem analyze_tokens_total (st : Store) (tokens : list string)
    (context : option ExecutionContext) :
  analyzer_catalog_ok st = true →
  ∃ result, analyze_tokens st tokens context = Ok result
    ∧ ∀ a, result = Some a →
        NoDup (evidence_key <$> an_evidence a)
        ∧ ∀ item, item ∈ an_evidence a →
            mem (ev_effect item) (CORE_EFFECTS ++ PACK_EFFECTS) = true
            ∧ ∃ catalog, load_effect_catalog st = Ok catalog ∧ grounded catalog item.
Proof. apply analyze_tokens_ok. Qed.

(** The registry decides who is analyzed.  [supported_analyzers] lists, in
    code point order and once each, the executables whose analyzer belongs to no
    pack or to an enabled one; and when the catalog covers what the analyzers
    cite, [analyze_tokens] gives an analysis exactly for the invocations of a
    loaded executable: a disabled pack is never consulted. *)
Theorem supported_analyzers_dispatch (st : Store) (context : option ExecutionContext) :
  analyzer_catalog_ok st = true →
  StronglySorted str_le (supported_analyzers st true)
  ∧ NoDup (supported_analyzers st true)
  ∧ (∀ executable, executable ∈ supported_analyzers st true ↔
       ∃ registration, dict_get executable _REGISTRY = Some registration
         ∧ registration_enabled st registration = true)
  ∧ ∀ tokens,
      (∃ a, analyze_tokens st tokens context = Ok (Some a)) ↔
      ∃ invocation, normalize_invocation tokens context = Some invocation
        ∧ executable invocation ∈ supported_analyzers st true.
Proof.
  intros Hcov. pose proof (λ e, loaded_iff st e) as Hin.
  split; [apply sorted_sorted|]. split; [apply supported_NoDup|]. split; [apply Hin|].
  intros tokens. setoid_rewrite Hin. unfold analyze_tokens.
  destruct (normalize_invocation tokens context) as [invocation|];
    [|split; [by intros [? ?]|by intros (? & ? & _)]].
  destruct (dict_get (executable invocation) _REGISTRY) as [registration|] eqn:Hr;
    [|split; [by intros [? ?]|intros (? & [= <-] & ? & ? & _); congruence]].
  destruct (registration_enabled st registration) eqn:Hen; cbn [negb];
    [|split; [by intros [? ?]|intros (? & [= <-] & ? & ? & ?); congruence]].
  split; [by eauto 8|]. intros _.
  assert (is_ok (reg_analyzer registration st invocation) = true) as Hok.
  { apply registry_from_calls in Hr as [es Hes].
    pose proof analyzers_well_behaved as Hall. rewrite Forall_forall in Hall.
    destruct (Hall _ Hes st invocation) as [Hok _]. apply Hok.
    destruct registration as [an pack]. by eapply covers_names_of. }
  destruct (reg_analyzer registration st invocation); [|done]. cbn. eauto.
Qed.
