(* ===== verification/Semantics.v ===== *)
(** * Semantic evidence of a command ([ordin/semantics.py])

    The analyzer is asked first; the typed command graph is the fallback. *)
From stdpp Require Import base list strings sets gmap.
From Stdlib Require Import Bool Ascii Lia.
From S2P Require Import Prelude PyStr Json Regex Catalog Shell Context Effects AnalyzerBase Analyzers.
#[local] Open Scope py_scope.

Record SemanticEvidenceSet := {
  evidence_items : list EffectEvidence;
  analyzer_matched : bool }.

(** The [effects] property: [tuple(dict.fromkeys(...))]. *)
Definition effects (s : SemanticEvidenceSet) : list string :=
  dedup_by id (map ev_effect (evidence_items s)).

Definition _unique_evidence (items : list EffectEvidence) : list EffectEvidence :=
  dedup_by evidence_key items.

Definition semantic_evidence_for_tokens (st : Store) (tokens : list string)
    (context : option ExecutionContext) : res SemanticEvidenceSet :=
  analysis ← analyze_tokens st tokens context;
  match analysis with
  | Some a =>
      match an_evidence a with
      | _ :: _ => Ok {| evidence_items := _unique_evidence (an_evidence a);
                        analyzer_matched := true |}
      | [] => items ← effects_for_tokens st tokens;
              Ok {| evidence_items := _unique_evidence items; analyzer_matched := true |}
      end
  | None => items ← effects_for_tokens st tokens;
            Ok {| evidence_items := _unique_evidence items; analyzer_matched := false |}
  end.

Definition semantic_evidence_for_command (st : Store) (command : string)
    (context : option ExecutionContext) : res SemanticEvidenceSet :=
  match split_shell_segments command with
  | Err (ValueError _) => Ok {| evidence_items := []; analyzer_matched := false |}
  | Err e => Err e
  | Ok (segments, _) =>
      resolved ← all_ok (map (λ segment, semantic_evidence_for_tokens st segment context)
                             segments);
      Ok {| evidence_items := _unique_evidence (flat_map evidence_items resolved);
            analyzer_matched := existsb analyzer_matched resolved |}
  end.
