(* ===== verification/Risk.v ===== *)
(** * Risk review of a shell command ([ordin/risk.py]) *)
From stdpp Require Import base list strings sets gmap.
From Stdlib Require Import Bool Ascii Lia.
From S2P Require Import Prelude PyStr Policy Json Regex Catalog Shell Context Effects AnalyzerBase Analyzers.
#[local] Open Scope py_scope.

(** [RISK_ORDER]: looking up any other text raises [KeyError]. *)
Definition RISK_ORDER (risk : string) : option nat :=
  if risk =s "unknown" then Some 0 else if risk =s "low" then Some 1
  else if risk =s "medium" then Some 2 else if risk =s "high" then Some 3
  else if risk =s "critical" then Some 4 else None.

Definition RULE_EXECUTABLES (rule : string) : list string :=
  if mem rule ["recursive_delete"; "force_delete"; "root_delete"; "root_glob_delete"]
  then ["rm"]
  else if mem rule ["chmod_recursive"; "chmod_777"] then ["chmod"]
  else if rule =s "process_kill" then ["kill"; "pkill"; "killall"]
  else if rule =s "force_push" then ["git"]
  else if rule =s "curl_shell" then ["curl"; "wget"]
  else if rule =s "sudo" then ["sudo"]
  else if rule =s "chown_recursive" then ["chown"]
  else if rule =s "package_install" then ["npm"; "pip"; "python"; "python3"]
  else if mem rule ["docker_prune"; "docker_rm_force"] then ["docker"]
  else if mem rule ["read_private_key"; "read_env_file"]
  then ["cat"; "less"; "more"; "tail"; "head"]
  else [].

Definition SENSITIVE_REDIRECT_PREFIXES : list string :=
  ["/bin/"; "/boot/"; "/etc/"; "/root/"; "/sbin/"; "/usr/"; "~/.ssh/"].
Definition PATH_MUTATING_EFFECTS : list string :=
  ["filesystem.write"; "filesystem.delete"; "filesystem.recursive_delete";
   "filesystem.permission_change"; "filesystem.recursive_permission_change";
   "filesystem.ownership_change"; "filesystem.recursive_ownership_change"].
Definition ROOT_CRITICAL_EFFECTS : list string :=
  ["filesystem.delete"; "filesystem.recursive_delete"; "system.device_write"].
Definition PRIVILEGE_SENSITIVE_EFFECTS : list string :=
  PATH_MUTATING_EFFECTS ++
  ["package.install"; "package.remove"; "git.local_write"; "git.remote_write";
   "git.history_rewrite"; "container.create"; "container.delete"; "container.prune";
   "process.signal"; "code.execute"; "code.remote_execute"; "system.configuration_write";
   "system.device_write"].

Record RiskReview := {
  rv_decision : Decision;
  rv_risk : string;
  rv_reasons : list string;
  rv_safer_next_step : option string;
  rv_matched_rules : list string;
  rv_risk_categories : list string }.

#[export] Instance RiskReview_SupportsDecision : SupportsDecision RiskReview :=
  λ r, decision_str (rv_decision r).

(** [RISK_ORDER[candidate] > RISK_ORDER[current]] looks the candidate up first. *)
Definition max_risk (current candidate : string) : res string :=
  match RISK_ORDER candidate with
  | None => Err (KeyError candidate)
  | Some c =>
      match RISK_ORDER current with
      | None => Err (KeyError current)
      | Some k => Ok (if k <? c then candidate else current)
      end
  end.

Definition decision_for_risk (risk : string) : Decision :=
  if risk =s "critical" then Block
  else if mem risk ["high"; "medium"] then Warn
  else if risk =s "unknown" then Ask
  else Allow.

Fixpoint _append_unique (target values : list string) : list string :=
  match values with
  | [] => target
  | value :: values' =>
      _append_unique (if mem value target then target else target ++ [value]) values'
  end.

Definition _rule_applies (rule : RiskRule) (tokens : list string) : bool :=
  match RULE_EXECUTABLES (rule_id rule) with
  | [] => true
  | scope => existsb (λ name, mem name scope) (command_name_candidates tokens)
  end.

Definition REDIRECTIONS : list string := [">"; ">>"; ">|"; "&>"; "&>>"; "<>"].
Definition sensitive_path (target : string) : bool :=
  mem target ["/etc"; "/boot"; "/usr"; "/bin"; "/sbin"; "/root"; "~/.ssh"]
  || existsb (startswith target) SENSITIVE_REDIRECT_PREFIXES
  || endswith (rstrip_char "/"%char target) "/.ssh".
Fixpoint _sensitive_redirection_target (tokens : list string) : option string :=
  match tokens with
  | token :: rest =>
      match rest with
      | target :: _ =>
          if mem token REDIRECTIONS && sensitive_path target then Some target
          else _sensitive_redirection_target rest
      | [] => None
      end
  | [] => None
  end.

Definition _semantic_evidence (st : Store) (tokens : list string)
    (context : option ExecutionContext)
  : res (list EffectEvidence * option SemanticAnalysis) :=
  analysis ← analyze_tokens st tokens context;
  match analysis with
  | Some a =>
      match an_evidence a with
      | _ :: _ => Ok (an_evidence a, analysis)
      | [] => items ← effects_for_tokens st tokens; Ok (items, analysis)
      end
  | None => items ← effects_for_tokens st tokens; Ok (items, analysis)
  end.

Definition _path_from_resource (resource : option string) (context : option ExecutionContext)
  : option string :=
  match resource with
  | None => None
  | Some resource =>
      if negb (truthy resource) || negb (startswith resource "path:") then None
      else
        let value := str_drop 5 resource in
        if startswith value "/" then Some value
        else match context with Some c => resolve_path c value | None => None end
  end.

(** ** The state of a segment review: the lists that the code appends to *)

Record Findings := {
  f_risk : string;
  f_reasons : list string;
  f_safer : list string;
  f_rules : list string;
  f_categories : list string }.

Definition no_findings : Findings :=
  {| f_risk := "unknown"; f_reasons := []; f_safer := []; f_rules := []; f_categories := [] |}.
Definition add_reason (f : Findings) (l : list string) : Findings :=
  {| f_risk := f_risk f; f_reasons := _append_unique (f_reasons f) l; f_safer := f_safer f;
     f_rules := f_rules f; f_categories := f_categories f |}.
Definition add_safer (f : Findings) (o : option string) : Findings :=
  {| f_risk := f_risk f; f_reasons := f_reasons f;
     f_safer := match o with
                | Some s => if truthy s then _append_unique (f_safer f) [s] else f_safer f
                | None => f_safer f end;
     f_rules := f_rules f; f_categories := f_categories f |}.
Definition add_rules (f : Findings) (l : list string) : Findings :=
  {| f_risk := f_risk f; f_reasons := f_reasons f; f_safer := f_safer f;
     f_rules := _append_unique (f_rules f) l; f_categories := f_categories f |}.
Definition add_categories (f : Findings) (l : list string) : Findings :=
  {| f_risk := f_risk f; f_reasons := f_reasons f; f_safer := f_safer f;
     f_rules := f_rules f; f_categories := _append_unique (f_categories f) l |}.
(** [risk = max_risk(risk, candidate)]. *)
Definition raise_risk (f : Findings) (candidate : string) : res Findings :=
  risk ← max_risk (f_risk f) candidate;
  Ok {| f_risk := risk; f_reasons := f_reasons f; f_safer := f_safer f;
        f_rules := f_rules f; f_categories := f_categories f |}.

(** A loop whose body may raise. *)
Fixpoint for_each {A} (body : Findings → A → res Findings) (l : list A) (f : Findings)
  : res Findings :=
  match l with
  | [] => Ok f
  | x :: l' => f ← body f x; for_each body l' f
  end.

Definition apply_rule (tokens : list string) (text : string) (f : Findings) (rule : RiskRule)
  : res Findings :=
  if (rule_id rule =s "curl_shell") || negb (_rule_applies rule tokens) then Ok f
  else if re_search (rule_pattern rule) text then
    f ← raise_risk f (rule_risk rule);
    let f := add_rules (add_reason f [rule_reason rule]) [rule_id rule] in
    let f := if opt_truthy (rule_category rule)
             then add_categories f [default EmptyString (rule_category rule)] else f in
    Ok (add_safer f (rule_safer_next_step rule))
  else Ok f.

Definition _apply_context_policy (item : EffectEvidence) (context : option ExecutionContext)
    (f : Findings) : res Findings :=
  match context with
  | None => Ok f
  | Some c =>
      let resolved_path := _path_from_resource (ev_resource item) context in
      f ← (if opt_is resolved_path "/" && mem (ev_effect item) ROOT_CRITICAL_EFFECTS then
             f ← raise_risk f "critical";
             Ok (add_categories
                   (add_reason f [ev_effect item
                      +:+ " resolves to the filesystem root in supplied context"])
                   ["root_filesystem_mutation"])
           else if opt_is resolved_path "/" && mem (ev_effect item) PATH_MUTATING_EFFECTS then
             f ← raise_risk f "high";
             Ok (add_categories
                   (add_reason f [ev_effect item
                      +:+ " targets the filesystem root in supplied context"])
                   ["root_filesystem_mutation"])
           else Ok f);
      f ← (if opt_truthy resolved_path && mem (ev_effect item) PATH_MUTATING_EFFECTS
              && bool_decide (path_within_repo c (default EmptyString resolved_path)
                              = Some false) then
             f ← raise_risk f "high";
             Ok (add_categories
                   (add_reason f ["mutation target " +:+ dquoted (fmt_opt resolved_path)
                      +:+ " is outside supplied repo root "
                      +:+ dquoted (fmt_opt (repo_root c))])
                   ["outside_repo_mutation"])
           else Ok f);
      if bool_decide (is_elevated c = Some true)
         && mem (ev_effect item) PRIVILEGE_SENSITIVE_EFFECTS then
        f ← raise_risk f "high";
        Ok (add_categories
              (add_reason f [ev_effect item +:+ " would execute with effective UID 0"])
              ["elevated_context"])
      else Ok f
  end.

Definition evidence_detail (item : EffectEvidence) : string :=
  ev_reason item +:+ " (" +:+ ev_source item
  +:+ (if opt_truthy (ev_resource item) then ", " +:+ fmt_opt (ev_resource item)
       else EmptyString)
  +:+ ")".

Definition apply_evidence (context : option ExecutionContext) (f : Findings)
    (item : EffectEvidence) : res Findings :=
  f ← raise_risk f (ev_risk item);
  let f := add_categories f [ev_category item] in
  let f := add_reason f [evidence_detail item] in
  let f := add_safer f (ev_safer_next_step item) in
  _apply_context_policy item context f.

(** Returns the findings, [has_semantic_effects] and [analyzer_matched]. *)
Definition _apply_semantic_effects (st : Store) (tokens : list string)
    (context : option ExecutionContext) (f : Findings) : res (Findings * bool * bool) :=
  '(items, analysis) ← _semantic_evidence st tokens context;
  f ← for_each (apply_evidence context) items f;
  Ok (f, match items with [] => false | _ => true end,
      match analysis with Some _ => true | None => false end).

Definition apply_redirection (tokens : list string) (f : Findings) : res Findings :=
  match _sensitive_redirection_target tokens with
  | Some redirect_target =>
      if truthy redirect_target then
        f ← raise_risk f "high";
        let f := add_reason f ["writes shell redirection to sensitive path "
                               +:+ dquoted redirect_target] in
        let f := add_rules f ["sensitive_redirection"] in
        let f := add_categories f ["sensitive_file_write"] in
        Ok (add_safer f (Some ("Write to a non-system path first and inspect the result before "
                               +:+ "replacing sensitive files.")))
      else Ok f
  | None => Ok f
  end.

(** The scripts a segment runs through grouping or a shell's [-c]. *)
Definition nested_scripts (tokens : list string) : list string :=
  grouped_subshells_from_tokens tokens
  ++ match shell_script_from_tokens tokens with Some script => [script] | None => [] end.

Definition merge_nested (f : Findings) (nested : RiskReview) : res Findings :=
  f ← raise_risk f (rv_risk nested);
  let f := add_reason f (rv_reasons nested) in
  let f := add_rules f (rv_matched_rules nested) in
  let f := add_categories f (rv_risk_categories nested) in
  Ok (add_safer f (rv_safer_next_step nested)).

(** [command.get("default_risk", "unknown")], reset to ["unknown"] when it is no
    risk; a list or an object is not hashable. *)
Definition default_risk (command : json) : res string :=
  match jget_default command "default_risk" (JStr "unknown") with
  | JStr s => Ok (match RISK_ORDER s with Some _ => s | None => "unknown" end)
  | JArr _ => Err (TypeError "unhashable type: 'list'")
  | JObj _ => Err (TypeError "unhashable type: 'dict'")
  | _ => Ok "unknown"
  end.

Definition is_none {A} (o : option A) : bool := match o with None => true | Some _ => false end.

Definition classify_executable (st : Store) (tokens : list string)
    (has_semantic_effects analyzer_matched : bool) (f : Findings) : res Findings :=
  match executable_name_from_tokens tokens with
  | Some executable =>
      if truthy executable then
        command ← find_command st executable;
        if is_none command && negb analyzer_matched then
          let f := add_reason f ["command " +:+ dquoted executable
                                 +:+ " is not classified by the command graph"] in
          let f := add_categories f ["unclassified_command"] in
          Ok (add_safer f (Some
            "Review the command semantics before execution or add a command card for it."))
        else if analyzer_matched && negb has_semantic_effects then
          Ok (add_categories
                (add_reason f ["analyzer recognized " +:+ dquoted executable
                               +:+ " but did not classify this invocation"])
                ["unclassified_command"])
        else
          match command with
          | Some command =>
              if negb has_semantic_effects then
                default_risk ← default_risk command;
                f ← raise_risk f default_risk;
                match f_rules f with
                | [] =>
                    Ok (add_reason f
                      [if default_risk =s "unknown"
                       then "command " +:+ dquoted executable
                            +:+ " has no established default risk classification"
                       else "command graph default risk for " +:+ dquoted executable
                            +:+ " is " +:+ default_risk])
                | _ => Ok f
                end
              else Ok f
          | None => Ok f
          end
      else Ok (add_categories (add_reason f ["could not identify the command executable"])
                 ["unclassified_command"])
  | None => Ok (add_categories (add_reason f ["could not identify the command executable"])
                  ["unclassified_command"])
  end.

(** [bool(nested_scripts) and tokens[0] == "(" and tokens[-1] == ")"]. *)
Definition pure_group (tokens : list string) : bool :=
  match nested_scripts tokens with [] => false | _ => true end
  && opt_is (head tokens) "(" && opt_is (last tokens) ")".

Definition review_of_findings (f : Findings) : RiskReview :=
  let reasons := match f_reasons f with
                 | [] => ["command safety could not be classified"]
                 | _ => f_reasons f end in
  {| rv_decision := decision_for_risk (f_risk f); rv_risk := f_risk f; rv_reasons := reasons;
     rv_safer_next_step := head (f_safer f); rv_matched_rules := f_rules f;
     rv_risk_categories := sorted_set (f_categories f) |}.

Section segment.
(** [check script] is [_check_command(script, depth=depth + 1)]. *)
Context (st : Store) (check : string → res RiskReview).

Definition nested_step (f : Findings) (script : string) : res Findings :=
  nested ← check script; merge_nested f nested.

Definition _review_segment (tokens : list string) (rules : list RiskRule) (depth : nat)
    (context : option ExecutionContext) : res RiskReview :=
  let text := segment_text tokens in
  f ← for_each (apply_rule tokens text) rules no_findings;
  '(f, has_semantic_effects, analyzer_matched) ← _apply_semantic_effects st tokens context f;
  f ← apply_redirection tokens f;
  f ← for_each nested_step (if 3 <=? depth then [] else nested_scripts tokens) f;
  f ← (if is_none (shell_script_from_tokens tokens) && negb (pure_group tokens)
       then classify_executable st tokens has_semantic_effects analyzer_matched f
       else Ok f);
  Ok (review_of_findings f).
End segment.

Definition pipe_review : RiskReview :=
  {| rv_decision := Warn; rv_risk := "high";
     rv_reasons := ["downloads and executes remote code"];
     rv_safer_next_step := Some "Download the script, inspect it, then run only if trusted.";
     rv_matched_rules := ["curl_shell"]; rv_risk_categories := ["remote_code_execution"] |}.

(** The segments around the operators, from the first operator on. *)
Fixpoint _pipe_findings (segments : list (list string)) (operators : list string)
  : list RiskReview :=
  match operators, segments with
  | operator :: operators', source :: rest =>
      match rest with
      | sink :: _ =>
          (if mem operator ["|"; "|&"]
              && opt_mem (executable_name_from_tokens source) ["curl"; "wget"]
              && opt_mem (executable_name_from_tokens sink) SHELL_EXECUTABLES
           then [pipe_review] else [])
          ++ _pipe_findings rest operators'
      | [] => []
      end
  | _, _ => []
  end.

Record Merge := {
  m_decision : Decision;
  m_known_risk : string;
  m_has_unknown : bool;
  m_reasons : list string;
  m_rules : list string;
  m_categories : list string;
  m_safer : option string }.

Definition merge_step (m : Merge) (review : RiskReview) : res Merge :=
  let decision := stronger_decision (m_decision m) (rv_decision review) in
  let unknown := rv_risk review =s "unknown" in
  known_risk ← (if unknown then Ok (m_known_risk m)
                else max_risk (m_known_risk m) (rv_risk review));
  Ok {| m_decision := decision; m_known_risk := known_risk;
        m_has_unknown := m_has_unknown m || unknown;
        m_reasons := _append_unique (m_reasons m) (rv_reasons review);
        m_rules := _append_unique (m_rules m) (rv_matched_rules review);
        m_categories := _append_unique (m_categories m) (rv_risk_categories review);
        m_safer := match m_safer m with
                   | Some s => Some s
                   | None => if opt_truthy (rv_safer_next_step review)
                             then rv_safer_next_step review else None
                   end |}.
Fixpoint merge_loop (reviews : list RiskReview) (m : Merge) : res Merge :=
  match reviews with
  | [] => Ok m
  | review :: reviews' => m ← merge_step m review; merge_loop reviews' m
  end.

Definition merge_start : Merge :=
  {| m_decision := Allow; m_known_risk := "low"; m_has_unknown := false; m_reasons := [];
     m_rules := []; m_categories := []; m_safer := None |}.
Definition merge_end (m : Merge) : RiskReview :=
  let risk :=
    if bool_decide (m_decision m = Ask) && m_has_unknown m && (m_known_risk m =s "low")
    then "unknown" else m_known_risk m in
  let risk :=
    if bool_decide (m_decision m = Block) && (m_known_risk m =s "critical")
    then "critical" else risk in
  {| rv_decision := m_decision m; rv_risk := risk; rv_reasons := m_reasons m;
     rv_safer_next_step := m_safer m; rv_matched_rules := m_rules m;
     rv_risk_categories := sorted_set (m_categories m) |}.
Definition _merge_reviews (reviews : list RiskReview) : res RiskReview :=
  m ← merge_loop reviews merge_start; Ok (merge_end m).

Definition empty_command_review : RiskReview :=
  {| rv_decision := Block; rv_risk := "critical";
     rv_reasons := ["empty command cannot be reviewed safely"];
     rv_safer_next_step := Some "Provide the command text before review.";
     rv_matched_rules := ["empty_command"]; rv_risk_categories := ["invalid_input"] |}.
Definition parse_error_review (message : string) : RiskReview :=
  {| rv_decision := Ask; rv_risk := "unknown";
     rv_reasons := ["shell command could not be parsed safely: " +:+ message];
     rv_safer_next_step := Some "Fix the shell quoting before review.";
     rv_matched_rules := ["shell_parse_error"]; rv_risk_categories := ["invalid_input"] |}.
Definition no_segment_review : RiskReview :=
  {| rv_decision := Ask; rv_risk := "unknown";
     rv_reasons := ["no executable command segment could be identified"];
     rv_safer_next_step := Some "Provide a complete shell command before review.";
     rv_matched_rules := ["missing_executable"]; rv_risk_categories := ["invalid_input"] |}.

(** The recursion goes through [depth], which the code bounds by 3; [fuel] makes
    it structural and [check_command_fuel] below shows that it never runs out. *)
Fixpoint _check_command (st : Store) (fuel : nat) (command : string) (rules : list RiskRule)
    (depth : nat) (context : option ExecutionContext) : res RiskReview :=
  match fuel with
  | O => Err RecursionError
  | S fuel' =>
      let normalized := strip command in
      if negb (truthy normalized) then Ok empty_command_review else
      match split_shell_segments normalized with
      | Err (ValueError message) => Ok (parse_error_review message)
      | Err e => Err e
      | Ok ([], _) => Ok no_segment_review
      | Ok (segments, operators) =>
          let check := λ script, _check_command st fuel' script rules (S depth) context in
          reviews ← all_ok (map (λ segment, _review_segment st check segment rules depth context)
                                segments);
          nested ← all_ok (map check (if depth <? 3 then command_substitutions normalized
                                      else []));
          _merge_reviews (reviews ++ _pipe_findings segments operators ++ nested)
      end
  end.

Definition check_command (st : Store) (command : string) (context : option ExecutionContext)
  : res RiskReview :=
  _check_command st 4 command (load_risk_rules st) 0 context.

(** [RiskReview.as_dict]. *)
Definition RISK_SCHEMA_VERSION : string := "ordin.risk_review.v1".
Definition RiskReview_as_dict (r : RiskReview) : json :=
  JObj [("schema_version", JStr RISK_SCHEMA_VERSION);
        ("decision", JStr (decision_str (rv_decision r)));
        ("risk", JStr (rv_risk r));
        ("reasons", JArr (map JStr (rv_reasons r)));
        ("safer_next_step", jstr (rv_safer_next_step r));
        ("matched_rules", JArr (map JStr (rv_matched_rules r)));
        ("risk_categories", JArr (map JStr (rv_risk_categories r)))].
