(* ===== verification/RiskFacts.v ===== *)
(** * Theorems about the risk review ([ordin/risk.py]) *)
From stdpp Require Import base list strings sets gmap sorting.
From Stdlib Require Import Bool Ascii Lia.
From S2P Require Import Prelude PyStr Policy Json Regex Catalog Shell Context Effects AnalyzerBase Analyzers Risk.
#[local] Open Scope py_scope.

(** ** Risks *)

Definition rank (risk : string) : nat := default 0 (RISK_ORDER risk).
Definition valid_risk (risk : string) : bool := bool_decide (is_Some (RISK_ORDER risk)).

Lemma valid_risk_cases risk :
  valid_risk risk = true ↔
  risk = "unknown" ∨ risk = "low" ∨ risk = "medium" ∨ risk = "high" ∨ risk = "critical".
Proof.
  unfold valid_risk. rewrite bool_decide_eq_true. split.
  - unfold RISK_ORDER. intros [n H]. repeat case_match; try done;
      match goal with H : (_ =s _) = true |- _ => apply eqb_true in H end; tauto.
  - intros [->|[->|[->|[->| ->]]]]; by eexists.
Qed.

Lemma max_risk_valid a b :
  valid_risk a = true → valid_risk b = true →
  max_risk a b = Ok (if rank a <? rank b then b else a).
Proof.
  unfold valid_risk, max_risk, rank. rewrite !bool_decide_eq_true.
  intros [x ->] [y ->]. done.
Qed.

Lemma max_risk_inv a b c :
  max_risk a b = Ok c →
  valid_risk a = true ∧ valid_risk b = true ∧ valid_risk c = true
  ∧ rank c = Nat.max (rank a) (rank b) ∧ (c = a ∨ c = b).
Proof.
  intros H. assert (valid_risk a = true ∧ valid_risk b = true) as [Ha Hb].
  { unfold max_risk in H. unfold valid_risk. rewrite !bool_decide_eq_true.
    destruct (RISK_ORDER b), (RISK_ORDER a); try done; eauto. }
  rewrite max_risk_valid in H by done. injection H as <-.
  do 2 (split; [done|]). destruct (Nat.ltb_spec (rank a) (rank b)).
  - split; [done|]. split; [lia|auto].
  - split; [done|]. split; [lia|auto].
Qed.

Lemma rank_inj a b :
  valid_risk a = true → valid_risk b = true → rank a = rank b → a = b.
Proof.
  rewrite !valid_risk_cases.
  intros [->|[->|[->|[->| ->]]]] [->|[->|[->|[->| ->]]]]; by vm_compute.
Qed.

(** The verdict of a known risk grows with the risk. *)
Lemma decision_for_risk_mono a b :
  valid_risk a = true → valid_risk b = true → a ≠ "unknown" → rank a ≤ rank b →
  weaker (decision_for_risk a) (decision_for_risk b).
Proof.
  rewrite !valid_risk_cases. unfold weaker.
  intros [->|[->|[->|[->| ->]]]] [->|[->|[->|[->| ->]]]] Hu; try done; vm_compute; lia.
Qed.

(** ** The state of a segment review only grows *)

Lemma append_unique_prefix target values : target `prefix_of` _append_unique target values.
Proof.
  revert target. induction values as [|v values IH]; intros target; cbn; [done|].
  etrans; [|apply IH]. case_match; [done|]. by apply prefix_app_r.
Qed.

Lemma append_unique_elem target values x :
  x ∈ _append_unique target values ↔ x ∈ target ∨ x ∈ values.
Proof.
  revert target. induction values as [|v values IH]; intros target; cbn.
  - rewrite elem_of_nil. tauto.
  - rewrite IH, elem_of_cons. case_match eqn:E.
    + apply mem_elem_of in E. split; [tauto|]. intros [?|[->|?]]; tauto.
    + rewrite elem_of_app, list_elem_of_singleton. tauto.
Qed.

Lemma append_unique_NoDup target values : NoDup target → NoDup (_append_unique target values).
Proof.
  revert target. induction values as [|v values IH]; intros target Hnd; cbn; [done|].
  apply IH. case_match eqn:E; [done|]. apply mem_false in E.
  apply NoDup_app. split; [done|]. split; [|apply NoDup_singleton].
  by intros x Hx ->%list_elem_of_singleton.
Qed.

Record extends (f g : Findings) : Prop := {
  ext_rank : rank (f_risk f) ≤ rank (f_risk g);
  ext_reasons : f_reasons f `prefix_of` f_reasons g;
  ext_safer : f_safer f `prefix_of` f_safer g;
  ext_rules : f_rules f `prefix_of` f_rules g;
  ext_categories : f_categories f `prefix_of` f_categories g;
  ext_valid : valid_risk (f_risk f) = true → valid_risk (f_risk g) = true }.

#[export] Instance extends_preorder : PreOrder extends.
Proof.
  split.
  - by intros f; split.
  - intros f g h [] []. split; [lia|by etrans..|auto].
Qed.

Lemma add_reason_extends f l : extends f (add_reason f l).
Proof. split; cbn; auto using append_unique_prefix. Qed.
Lemma add_rules_extends f l : extends f (add_rules f l).
Proof. split; cbn; auto using append_unique_prefix. Qed.
Lemma add_categories_extends f l : extends f (add_categories f l).
Proof. split; cbn; auto using append_unique_prefix. Qed.
Lemma add_safer_extends f o : extends f (add_safer f o).
Proof.
  split; cbn [f_risk f_safer f_reasons f_rules f_categories add_safer]; auto.
  destruct o as [s|]; [|done]. destruct (truthy s); [|done]. apply append_unique_prefix.
Qed.
Lemma raise_risk_inv f r g :
  raise_risk f r = Ok g →
  extends f g ∧ valid_risk r = true ∧ rank r ≤ rank (f_risk g)
  ∧ f_reasons g = f_reasons f ∧ f_rules g = f_rules f ∧ f_categories g = f_categories f
  ∧ valid_risk (f_risk g) = true ∧ (f_risk g = f_risk f ∨ f_risk g = r).
Proof.
  unfold raise_risk. intros H. inv_res. apply max_risk_inv in H0 as (? & ? & ? & ? & ?).
  cbn. split; [split; cbn; auto; lia|]. repeat split; auto; lia.
Qed.
Lemma raise_risk_ok f r :
  valid_risk (f_risk f) = true → valid_risk r = true → is_ok (raise_risk f r) = true.
Proof. intros Hf Hr. unfold raise_risk. by rewrite max_risk_valid. Qed.

Create HintDb extends.
#[export] Hint Resolve add_reason_extends add_rules_extends add_categories_extends
  add_safer_extends : extends.

(** Solves [extends f g] when [g] is [f] after some additions and inverted raises. *)
Ltac solve_extends :=
  repeat match goal with
  | H : raise_risk _ _ = Ok _ |- _ =>
      apply raise_risk_inv in H as (? & ? & ? & ? & ? & ? & ? & ?)
  end;
  repeat first
    [ reflexivity | eassumption
    | etrans; [|apply add_safer_extends] | etrans; [|apply add_categories_extends]
    | etrans; [|apply add_rules_extends] | etrans; [|apply add_reason_extends] ].

Lemma for_each_extends {A} (body : Findings → A → res Findings) l :
  (∀ f x g, x ∈ l → body f x = Ok g → extends f g) →
  ∀ f g, for_each body l f = Ok g → extends f g.
Proof.
  induction l as [|x l IH]; intros Hb f g H; cbn in H.
  - by inv_res.
  - inv_res. etrans; [eapply Hb; [left|done]|]. eapply IH; [|done].
    intros ? y ? Hy. apply Hb. by right.
Qed.

(** What one round of a loop establishes about its result survives the loop. *)
Lemma for_each_visits {A} (body : Findings → A → res Findings) l (P : A → Findings → Prop) :
  (∀ f x g, x ∈ l → body f x = Ok g → extends f g) →
  (∀ f x g, x ∈ l → body f x = Ok g → P x g) →
  (∀ x g h, P x g → extends g h → P x h) →
  ∀ f g x, for_each body l f = Ok g → x ∈ l → P x g.
Proof.
  intros Hext Hb Hmono. induction l as [|y l IH]; intros f g x H Hx;
    [by apply not_elem_of_nil in Hx|].
  cbn in H. inv_res. apply elem_of_cons in Hx as [->|Hx].
  - eapply Hmono; [eapply Hb; [left|done]|]. eapply for_each_extends; [|done].
    intros ? z ? Hz. apply Hext. by right.
  - eapply IH; [..|done|done]; intros ? z ? Hz; [apply Hext|apply Hb]; by right.
Qed.

Lemma for_each_ok {A} (body : Findings → A → res Findings) l :
  (∀ f x, x ∈ l → valid_risk (f_risk f) = true →
     ∃ g, body f x = Ok g ∧ valid_risk (f_risk g) = true) →
  ∀ f, valid_risk (f_risk f) = true →
  ∃ g, for_each body l f = Ok g ∧ valid_risk (f_risk g) = true.
Proof.
  induction l as [|x l IH]; intros Hb f Hf; cbn; [eauto|].
  destruct (Hb f x) as (g & -> & Hg); [left|done|]. cbn. apply IH; [|done].
  intros ? y Hy. apply Hb. by right.
Qed.

(** ** Every step of the segment review extends the findings *)

Lemma apply_rule_extends tokens text f rule g :
  apply_rule tokens text f rule = Ok g → extends f g.
Proof.
  unfold apply_rule. intros H. repeat case_match; inv_res; solve_extends.
Qed.

Lemma apply_context_extends item context f g :
  _apply_context_policy item context f = Ok g → extends f g.
Proof.
  unfold _apply_context_policy. destruct context as [c|]; [|by intros [= <-]].
  cbv zeta. intros H. inv_res.
  transitivity x; [|transitivity x0].
  - repeat case_match; inv_res; solve_extends.
  - repeat case_match; inv_res; solve_extends.
  - repeat case_match; inv_res; solve_extends.
Qed.

Lemma for_each_origin {A} (body : Findings → A → res Findings) l (Q : A → string → Prop) :
  (∀ f x g, x ∈ l → body f x = Ok g → f_risk g = f_risk f ∨ Q x (f_risk g)) →
  ∀ f g, for_each body l f = Ok g →
  f_risk g = f_risk f ∨ ∃ x, x ∈ l ∧ Q x (f_risk g).
Proof.
  induction l as [|x l IH]; intros Hb f g H; cbn in H.
  - inv_res. by left.
  - inv_res. destruct (IH) with (f := x0) (g := g) as [Heq|(y & Hy & HQ)]; [|done| |].
    + intros ? z ? Hz. apply Hb. by right.
    + rewrite Heq. destruct (Hb f x x0) as [->|HQ]; [left|done|by left|].
      right. exists x. split; [left|done].
    + right. exists y. split; [by right|done].
Qed.

(** What the supplied context adds to an item of evidence. *)
Definition root_path (context : option ExecutionContext) (item : EffectEvidence) : Prop :=
  _path_from_resource (ev_resource item) context = Some "/".
Definition outside_repo (context : option ExecutionContext) (item : EffectEvidence) : Prop :=
  ∃ c path, context = Some c ∧ _path_from_resource (ev_resource item) context = Some path
    ∧ truthy path = true ∧ path_within_repo c path = Some false.
Definition elevated (context : option ExecutionContext) : Prop :=
  ∃ c, context = Some c ∧ is_elevated c = Some true.

Definition context_high (context : option ExecutionContext) (item : EffectEvidence) : Prop :=
  (context ≠ None ∧ root_path context item ∨ outside_repo context item)
   ∧ ev_effect item ∈ PATH_MUTATING_EFFECTS
  ∨ elevated context ∧ ev_effect item ∈ PRIVILEGE_SENSITIVE_EFFECTS.
Definition context_critical (context : option ExecutionContext) (item : EffectEvidence) : Prop :=
  context ≠ None ∧ root_path context item ∧ ev_effect item ∈ ROOT_CRITICAL_EFFECTS.

Lemma opt_is_iff o s : opt_is o s = true ↔ o = Some s.
Proof. destruct o; cbn; [rewrite eqb_true|]; naive_solver. Qed.

Lemma rank_high_critical : rank "high" = 3 ∧ rank "critical" = 4.
Proof. done. Qed.

(** The three checks of [_apply_context_policy] as one step each. *)
Lemma context_step_inv (c : bool) f r reasons categories g :
  (if c then f ← raise_risk f r; Ok (add_categories (add_reason f reasons) categories)
   else Ok f) = Ok g →
  extends f g ∧ (c = true → rank r ≤ rank (f_risk g))
  ∧ (f_risk g = f_risk f ∨ c = true ∧ f_risk g = r).
Proof.
  destruct c; intros H; inv_res.
  - apply raise_risk_inv in H0 as (He & _ & Hr & _ & _ & _ & _ & Ho).
    split; [by do 2 (etrans; [|eauto with extends])|]. cbn. split; [done|]. tauto.
  - split; [done|]. split; [done|by left].
Qed.

Lemma apply_context_spec item context f g :
  _apply_context_policy item context f = Ok g →
  (context_critical context item → 4 ≤ rank (f_risk g))
  ∧ (context_high context item → 3 ≤ rank (f_risk g))
  ∧ (f_risk g = f_risk f
     ∨ context_critical context item ∧ f_risk g = "critical"
     ∨ context_high context item ∧ f_risk g = "high").
Proof.
  unfold _apply_context_policy, context_critical, context_high, root_path, outside_repo, elevated.
  destruct context as [c|];
    [|intros [= <-]; split; [by intros [? _]|]; split; [|by left];
      by intros [[[[? _]|(? & ? & ? & _)] _]|[(? & ? & _) _]]].
  cbv zeta. set (path := _path_from_resource (ev_resource item) (Some c)).
  set (crit := opt_is path "/" && mem (ev_effect item) ROOT_CRITICAL_EFFECTS).
  set (root := opt_is path "/" && mem (ev_effect item) PATH_MUTATING_EFFECTS).
  set (out := opt_truthy path && _ && _). set (elev := bool_decide _ && _).
  intros H. inv_res.
  assert (extends f x ∧ (crit = true → 4 ≤ rank (f_risk x))
    ∧ (root = true → 3 ≤ rank (f_risk x))
    ∧ (f_risk x = f_risk f ∨ crit = true ∧ f_risk x = "critical"
       ∨ root = true ∧ f_risk x = "high")) as (E1 & C1 & R1 & O1).
  { destruct crit eqn:Ec.
    - destruct (context_step_inv true _ _ _ _ _ H0) as (? & Hr & ?).
      specialize (Hr eq_refl). change (rank "critical") with 4 in Hr.
      split; [done|]. split; [done|]. split; [lia|tauto].
    - apply context_step_inv in H0 as (? & Hr & ?). change (rank "high") with 3 in Hr.
      split; [done|]. split; [done|]. split; [done|tauto]. }
  apply context_step_inv in H1 as (E2 & R2 & O2). apply context_step_inv in H as (E3 & R3 & O3).
  change (rank "high") with 3 in *.
  pose proof (ext_rank _ _ E2). pose proof (ext_rank _ _ E3).
  assert (crit = true ↔ path = Some "/" ∧ ev_effect item ∈ ROOT_CRITICAL_EFFECTS) as Hcrit.
  { unfold crit. by rewrite andb_true_iff, opt_is_iff, mem_elem_of. }
  assert (root = true ↔ path = Some "/" ∧ ev_effect item ∈ PATH_MUTATING_EFFECTS) as Hroot.
  { unfold root. by rewrite andb_true_iff, opt_is_iff, mem_elem_of. }
  assert (out = true ↔ (∃ c' p, Some c = Some c' ∧ path = Some p ∧ truthy p = true
    ∧ path_within_repo c' p = Some false) ∧ ev_effect item ∈ PATH_MUTATING_EFFECTS) as Hout.
  { unfold out. rewrite !andb_true_iff, mem_elem_of, bool_decide_eq_true.
    destruct path as [p|]; cbn; [|naive_solver]. split.
    - intros [[? ?] ?]. split; [|done]. by exists c, p.
    - by intros [(c' & p' & [= <-] & [= <-] & ? & ?) ?]. }
  assert (elev = true ↔ (∃ c', Some c = Some c' ∧ is_elevated c' = Some true)
    ∧ ev_effect item ∈ PRIVILEGE_SENSITIVE_EFFECTS) as Helev.
  { unfold elev. rewrite andb_true_iff, mem_elem_of, bool_decide_eq_true. naive_solver. }
  split; [|split].
  - intros (_ & Hp & He). assert (4 ≤ rank (f_risk x)) by (apply C1, Hcrit; done). lia.
  - intros [[[[_ Hp]|Ho] He]|Hv].
    + assert (3 ≤ rank (f_risk x)) by (apply R1, Hroot; done). lia.
    + assert (3 ≤ rank (f_risk x0)) by (apply R2, Hout; done). lia.
    + apply R3, Helev, Hv.
  - destruct O3 as [O3|[Hv%Helev O3]]; [|by right; right; split; [right|]].
    rewrite O3. destruct O2 as [O2|[[Ho He]%Hout O2]];
      [|right; right; split; [left; split; [by right|done]|done]].
    rewrite O2. destruct O1 as [O1|[[[Hp He]%Hcrit O1]|[[Hp He]%Hroot O1]]]; [by left| |].
    + right; left. done.
    + right; right. split; [left; split; [by left|done]|done].
Qed.

Lemma prefix_elem {A} (l k : list A) x : l `prefix_of` k → x ∈ l → x ∈ k.
Proof. intros [m ->] Hx. apply elem_of_app. by left. Qed.

(** What an item of evidence, a matched rule and a nested review leave behind. *)
Definition item_counted (context : option ExecutionContext) (item : EffectEvidence)
    (f : Findings) : Prop :=
  rank (ev_risk item) ≤ rank (f_risk f)
  ∧ evidence_detail item ∈ f_reasons f ∧ ev_category item ∈ f_categories f
  ∧ (context_high context item → 3 ≤ rank (f_risk f))
  ∧ (context_critical context item → 4 ≤ rank (f_risk f)).
Definition rule_matches (tokens : list string) (rule : RiskRule) : Prop :=
  rule_id rule ≠ "curl_shell" ∧ _rule_applies rule tokens = true
  ∧ re_search (rule_pattern rule) (segment_text tokens) = true.
Definition rule_counted (rule : RiskRule) (f : Findings) : Prop :=
  rank (rule_risk rule) ≤ rank (f_risk f)
  ∧ rule_id rule ∈ f_rules f ∧ rule_reason rule ∈ f_reasons f.
Definition nested_counted (n : RiskReview) (f : Findings) : Prop :=
  rank (rv_risk n) ≤ rank (f_risk f)
  ∧ rv_reasons n ⊆ f_reasons f ∧ rv_matched_rules n ⊆ f_rules f
  ∧ rv_risk_categories n ⊆ f_categories f.

Lemma item_counted_mono context item f g :
  item_counted context item f → extends f g → item_counted context item g.
Proof.
  intros (? & ? & ? & Hh & Hc) []. unfold item_counted.
  split; [lia|]. split; [by eapply prefix_elem|]. split; [by eapply prefix_elem|].
  split; intros H'; [specialize (Hh H')|specialize (Hc H')]; lia.
Qed.

Lemma rule_counted_mono rule f g : rule_counted rule f → extends f g → rule_counted rule g.
Proof.
  intros (? & ? & ?) []. split; [lia|]. split; by eapply prefix_elem.
Qed.

Lemma nested_counted_mono n f g : nested_counted n f → extends f g → nested_counted n g.
Proof.
  intros (? & Hr & Hm & Hc) []. split; [lia|].
  split; [|split]; intros x Hx; (eapply prefix_elem; [done|]); auto.
Qed.

Lemma add_reason_elem f l x : x ∈ f_reasons (add_reason f l) ↔ x ∈ f_reasons f ∨ x ∈ l.
Proof. apply append_unique_elem. Qed.
Lemma add_rules_elem f l x : x ∈ f_rules (add_rules f l) ↔ x ∈ f_rules f ∨ x ∈ l.
Proof. apply append_unique_elem. Qed.
Lemma add_categories_elem f l x :
  x ∈ f_categories (add_categories f l) ↔ x ∈ f_categories f ∨ x ∈ l.
Proof. apply append_unique_elem. Qed.
#[export] Hint Rewrite add_reason_elem add_rules_elem add_categories_elem : ordin.

Lemma apply_rule_spec tokens f rule g :
  apply_rule tokens (segment_text tokens) f rule = Ok g →
  (rule_matches tokens rule → rule_counted rule g)
  ∧ (f_risk g = f_risk f ∨ rule_matches tokens rule ∧ f_risk g = rule_risk rule).
Proof.
  unfold apply_rule, rule_matches, rule_counted. intros H.
  destruct (rule_id rule =s "curl_shell") eqn:Ec.
  { cbn in H. inv_res. apply eqb_true in Ec. split; [by intros [? _]|by left]. }
  assert (rule_id rule ≠ "curl_shell") as Hid by (by intros ?%eqb_true; congruence).
  destruct (_rule_applies rule tokens); cbn [orb negb] in H;
    [|inv_res; split; [by intros (_ & ? & _)|by left]].
  destruct (re_search _ _); [|inv_res; split; [by intros (_ & _ & ?)|by left]].
  inv_res. apply raise_risk_inv in H0 as (_ & _ & Hr & _ & _ & _ & _ & Ho). split.
  - intros _. split; [by destruct (opt_truthy _)|].
    destruct (opt_truthy _); cbn [add_safer f_rules f_reasons add_categories];
      rewrite ?add_reason_elem, ?add_rules_elem, list_elem_of_singleton;
      (split; [by right|]); cbn [add_rules f_reasons]; rewrite add_reason_elem,
      list_elem_of_singleton; by right.
  - destruct Ho as [Ho|Ho]; [left|right; split; [done|]]; destruct (opt_truthy _); done.
Qed.

Lemma apply_evidence_extends context f item g :
  apply_evidence context f item = Ok g → extends f g.
Proof.
  unfold apply_evidence. intros H. inv_res. apply apply_context_extends in H.
  apply raise_risk_inv in H0 as (He & _). etrans; [exact He|]. etrans; [|exact H].
  etrans; [|apply add_safer_extends]. etrans; [|apply add_reason_extends].
  apply add_categories_extends.
Qed.

Lemma apply_evidence_spec context f item g :
  apply_evidence context f item = Ok g →
  item_counted context item g
  ∧ (f_risk g = f_risk f ∨ f_risk g = ev_risk item
     ∨ context_critical context item ∧ f_risk g = "critical"
     ∨ context_high context item ∧ f_risk g = "high").
Proof.
  unfold apply_evidence. intros H. inv_res.
  pose proof (apply_context_extends _ _ _ _ H) as He.
  apply apply_context_spec in H as (Hc & Hh & Ho).
  apply raise_risk_inv in H0 as (_ & _ & Hr & _ & _ & _ & _ & Hor). split.
  - destruct He as [Hrank Hreasons _ _ Hcats _]. cbn in Hrank.
    split; [lia|]. split; [|split; [|done]].
    + eapply prefix_elem; [exact Hreasons|]. cbn [add_safer f_reasons].
      rewrite add_reason_elem, list_elem_of_singleton. by right.
    + eapply prefix_elem; [exact Hcats|]. cbn [add_safer f_categories add_reason].
      rewrite add_categories_elem, list_elem_of_singleton. by right.
  - cbn in Ho. destruct Ho as [->|[?|?]]; tauto.
Qed.

Lemma apply_redirection_spec tokens f g :
  apply_redirection tokens f = Ok g →
  extends f g
  ∧ (∀ target, _sensitive_redirection_target tokens = Some target → truthy target = true →
       3 ≤ rank (f_risk g) ∧ "sensitive_redirection" ∈ f_rules g)
  ∧ (f_risk g = f_risk f
     ∨ f_risk g = "high" ∧ is_Some (_sensitive_redirection_target tokens)).
Proof.
  unfold apply_redirection. intros H.
  destruct (_sensitive_redirection_target tokens) as [t|];
    [|inv_res; split; [done|]; split; [done|by left]].
  destruct (truthy t) eqn:Et; [|inv_res; split; [done|]; split; [|by left];
    intros ? [= <-]; congruence].
  inv_res. apply raise_risk_inv in H0 as (He & _ & Hr & _ & _ & _ & _ & Ho).
  split; [|split].
  - etrans; [exact He|]. etrans; [|apply add_safer_extends].
    etrans; [|apply add_categories_extends]. etrans; [|apply add_rules_extends].
    apply add_reason_extends.
  - intros t' [= <-] _. split; [done|]. cbn [add_safer f_rules add_categories].
    rewrite add_rules_elem, list_elem_of_singleton. by right.
  - cbn. destruct Ho as [->| ->]; [by left|right; eauto].
Qed.

Lemma merge_nested_spec f n g :
  merge_nested f n = Ok g →
  extends f g ∧ nested_counted n g ∧ (f_risk g = f_risk f ∨ f_risk g = rv_risk n).
Proof.
  unfold merge_nested. intros H. inv_res.
  apply raise_risk_inv in H0 as (He & _ & Hr & _ & _ & _ & _ & Ho). split; [|split; [|done]].
  - etrans; [exact He|]. etrans; [|apply add_safer_extends].
    etrans; [|apply add_categories_extends]. etrans; [|apply add_rules_extends].
    apply add_reason_extends.
  - split; [done|]. cbn [add_safer f_reasons f_rules f_categories add_categories add_rules
      add_reason].
    split; [|split]; intros s Hs; apply append_unique_elem; by right.
Qed.

Lemma classify_executable_spec st tokens has matched f g :
  classify_executable st tokens has matched f = Ok g →
  extends f g
  ∧ (f_risk g = f_risk f
     ∨ has = false ∧ ∃ executable command,
         executable_name_from_tokens tokens = Some executable
         ∧ find_command st executable = Ok (Some command)
         ∧ default_risk command = Ok (f_risk g)).
Proof.
  assert (∀ f l k, extends f (add_categories (add_reason f l) k)) as Hac.
  { intros. etrans; [|apply add_categories_extends]. apply add_reason_extends. }
  unfold classify_executable. intros H.
  destruct (executable_name_from_tokens tokens) as [e|]; [|inv_res; split; [done|by left]].
  destruct (truthy e); [|inv_res; split; [done|by left]].
  apply res_bind_ok in H as (command & Hfind & H).
  destruct (is_none command && negb matched).
  { inv_res. split; [|by left]. etrans; [|apply add_safer_extends]. done. }
  destruct (matched && negb has); [inv_res; split; [done|by left]|].
  destruct command as [command|]; [|inv_res; split; [done|by left]].
  destruct has; cbn in H; [inv_res; split; [done|by left]|].
  apply res_bind_ok in H as (r & Hd & H). apply res_bind_ok in H as (f1 & Hf1 & H).
  apply raise_risk_inv in Hf1 as (He & _ & _ & _ & _ & _ & _ & Ho).
  assert (extends f1 g ∧ f_risk g = f_risk f1) as [Hx Hrg].
  { destruct (f_rules f1); inv_res; (split; [|done]); [apply add_reason_extends|done]. }
  split; [by etrans|]. rewrite Hrg. destruct Ho as [->| ->]; [by left|].
  right. split; [done|]. by exists e, command.
Qed.

(** ** The review of one segment *)

Section segment_facts.
Context (st : Store) (check : string → res RiskReview).

Definition nested_run (script : string) (f : Findings) : Prop :=
  ∃ n, check script = Ok n ∧ nested_counted n f.

Lemma nested_step_spec f script g :
  nested_step check f script = Ok g →
  extends f g ∧ nested_run script g
  ∧ (f_risk g = f_risk f ∨ ∃ n, check script = Ok n ∧ f_risk g = rv_risk n).
Proof.
  unfold nested_step. intros H. apply res_bind_ok in H as (n & Hn & H).
  apply merge_nested_spec in H as (He & Hc & Ho). split; [done|].
  split; [by exists n|]. destruct Ho; [by left|right; by exists n].
Qed.

Lemma semantic_effects_spec tokens context f g has matched :
  _apply_semantic_effects st tokens context f = Ok (g, has, matched) →
  ∃ items analysis, _semantic_evidence st tokens context = Ok (items, analysis)
    ∧ has = negb (bool_decide (items = [])) ∧ matched = negb (is_none analysis)
    ∧ extends f g
    ∧ (∀ item, item ∈ items → item_counted context item g)
    ∧ (f_risk g = f_risk f ∨ ∃ item, item ∈ items ∧
         (f_risk g = ev_risk item
          ∨ context_critical context item ∧ f_risk g = "critical"
          ∨ context_high context item ∧ f_risk g = "high")).
Proof.
  unfold _apply_semantic_effects. intros H.
  apply res_bind_ok in H as ([items analysis] & Hs & H).
  apply res_bind_ok in H as (f1 & Hf & H). injection H as <- <- <-.
  exists items, analysis. split; [done|]. split; [by destruct items|].
  split; [by destruct analysis|]. split; [|split].
  - eapply for_each_extends; [|done]. intros; by eapply apply_evidence_extends.
  - intros item. eapply (for_each_visits (apply_evidence context) items (item_counted context));
      [| |apply item_counted_mono|done].
    + intros; by eapply apply_evidence_extends.
    + intros ? ? ? _ ?%apply_evidence_spec. tauto.
  - apply (for_each_origin (apply_evidence context) items (λ item r, r = ev_risk item
      ∨ context_critical context item ∧ r = "critical"
      ∨ context_high context item ∧ r = "high")); [|done].
    intros ? ? ? _ ?%apply_evidence_spec. tauto.
Qed.

(** The stages of a segment review, each with its findings. *)
Lemma review_segment_stages tokens rules depth context rv :
  _review_segment st check tokens rules depth context = Ok rv →
  ∃ f1 f2 f3 f4 f5 has matched,
    for_each (apply_rule tokens (segment_text tokens)) rules no_findings = Ok f1
    ∧ _apply_semantic_effects st tokens context f1 = Ok (f2, has, matched)
    ∧ apply_redirection tokens f2 = Ok f3
    ∧ for_each (nested_step check) (if 3 <=? depth then [] else nested_scripts tokens) f3
      = Ok f4
    ∧ extends f4 f5
    ∧ (f5 = f4 ∨ is_none (shell_script_from_tokens tokens) = true
                 ∧ classify_executable st tokens has matched f4 = Ok f5)
    ∧ rv = review_of_findings f5.
Proof.
  unfold _review_segment. cbv zeta. intros H.
  apply res_bind_ok in H as (f1 & H1 & H). apply res_bind_ok in H as ([[f2 has] m] & H2 & H).
  apply res_bind_ok in H as (f3 & H3 & H). apply res_bind_ok in H as (f4 & H4 & H).
  apply res_bind_ok in H as (f5 & H5 & H). injection H as <-.
  exists f1, f2, f3, f4, f5, has, m. do 4 (split; [done|]).
  destruct (is_none _); cbn in H5; [|inv_res; split; [done|]; split; [by left|done]].
  destruct (pure_group tokens); cbn in H5; [inv_res; split; [done|]; split; [by left|done]|].
  split; [by eapply classify_executable_spec|]. split; [by right|done].
Qed.

(** What the review [rv] of a segment promises. *)
Record segment_verdict (tokens : list string) (rules : list RiskRule) (depth : nat)
    (context : option ExecutionContext) (rv : RiskReview) : Prop := {
  verdict_of_risk : rv_decision rv = decision_for_risk (rv_risk rv);
  verdict_valid : valid_risk (rv_risk rv) = true;
  verdict_rules rule :
    rule ∈ rules → rule_matches tokens rule →
    rank (rule_risk rule) ≤ rank (rv_risk rv)
    ∧ rule_id rule ∈ rv_matched_rules rv ∧ rule_reason rule ∈ rv_reasons rv;
  verdict_evidence items analysis item :
    _semantic_evidence st tokens context = Ok (items, analysis) → item ∈ items →
    rank (ev_risk item) ≤ rank (rv_risk rv)
    ∧ evidence_detail item ∈ rv_reasons rv ∧ ev_category item ∈ rv_risk_categories rv
    ∧ (context_high context item → 3 ≤ rank (rv_risk rv))
    ∧ (context_critical context item → 4 ≤ rank (rv_risk rv));
  verdict_redirection target :
    _sensitive_redirection_target tokens = Some target → truthy target = true →
    3 ≤ rank (rv_risk rv);
  verdict_nested script :
    depth < 3 → script ∈ nested_scripts tokens →
    ∃ n, check script = Ok n ∧ rank (rv_risk n) ≤ rank (rv_risk rv)
         ∧ rv_matched_rules n ⊆ rv_matched_rules rv }.

Lemma review_segment_spec tokens rules depth context rv :
  _review_segment st check tokens rules depth context = Ok rv →
  segment_verdict tokens rules depth context rv.
Proof.
  intros H. apply review_segment_stages in H
    as (f1 & f2 & f3 & f4 & f5 & has & m & H1 & H2 & H3 & H4 & E5 & _ & ->).
  apply semantic_effects_spec in H2 as (items & an & Hs & _ & _ & E2 & Hitems & _).
  apply apply_redirection_spec in H3 as (E3 & Hredir & _).
  assert (extends no_findings f1) as E1.
  { eapply for_each_extends; [|done]. intros; by eapply apply_rule_extends. }
  assert (extends f3 f4) as E4.
  { eapply for_each_extends; [|done]. intros ? ? ? _ ?%nested_step_spec. tauto. }
  assert (extends f2 f5) as E25 by (etrans; [exact E3|]; by etrans).
  assert (f_reasons f5 ⊆ rv_reasons (review_of_findings f5)) as Hreasons.
  { cbn. destruct (f_reasons f5); [by intros ? ?%not_elem_of_nil|done]. }
  split.
  - done.
  - cbn. eapply ext_valid; [exact E25|]. eapply ext_valid; [exact E2|].
    by eapply ext_valid; [exact E1|].
  - intros rule Hin Hm. assert (rule_counted rule f1) as Hc.
    { revert Hm. apply (for_each_visits (apply_rule tokens (segment_text tokens)) rules
        (λ r f, rule_matches tokens r → rule_counted r f)) with (f := no_findings); try done.
      - intros; by eapply apply_rule_extends.
      - intros ? ? ? _ ?%apply_rule_spec. tauto.
      - intros ? ? ? Hp ? ?. eapply rule_counted_mono; auto. }
    eapply rule_counted_mono in Hc as (? & ? & ?); [|by etrans].
    split; [done|]. split; [done|by apply Hreasons].
  - intros items' an' item Hs' Hin. rewrite Hs in Hs'. injection Hs' as <- <-.
    destruct (item_counted_mono context item f2 f5) as (? & ? & ? & ? & ?); auto.
    split; [done|]. split; [by apply Hreasons|]. split; [by apply sorted_set_elem|done].
  - intros t Ht Htr. destruct (Hredir t Ht Htr) as [Hr _].
    pose proof (ext_rank _ _ E4). pose proof (ext_rank _ _ E5). cbn. lia.
  - intros script Hd Hin. destruct (Nat.leb_spec 3 depth); [lia|].
    assert (nested_run script f4) as (n & Hn & Hc).
    { apply (for_each_visits (nested_step check) (nested_scripts tokens) nested_run)
        with (f := f3); try done.
      - intros ? ? ? _ ?%nested_step_spec. tauto.
      - intros ? ? ? _ ?%nested_step_spec. tauto.
      - intros s g h (n & Hn & Hc) He. exists n. split; [done|].
        by eapply nested_counted_mono. }
    eapply nested_counted_mono in Hc as (? & _ & ? & _); [|exact E5]. by exists n.
Qed.

(** C3: no danger in a segment is lost.  When the review of one segment
    returns, its verdict is the one its risk calls for, and its risk is at
    least: the risk of every catalog rule that applies and matches; the risk
    of every item of semantic evidence, [high] when the item changes a path
    outside the supplied repository or the filesystem root, or would run with
    effective UID 0, and [critical] when it deletes the root; [high] for a
    redirection into a sensitive path; and, above the nesting bound, the risk
    of every script the segment runs through a subshell or a shell's [-c].
    The matched rules and the reasons are all reported. *)
Theorem review_segment_dominates tokens rules depth context rv :
  _review_segment st check tokens rules depth context = Ok rv →
  segment_verdict tokens rules depth context rv.
Proof. apply review_segment_spec. Qed.
End segment_facts.

(** ** Merging *)

(** A review whose verdict is the one of its risk. *)
Definition consistent (r : RiskReview) : Prop :=
  rv_decision r = decision_for_risk (rv_risk r) ∧ valid_risk (rv_risk r) = true.

(** The verdict carried by a merge: the known risk's, or [ask] for an unknown one. *)
Definition merge_inv (m : Merge) : Prop :=
  valid_risk (m_known_risk m) = true ∧ m_known_risk m ≠ "unknown"
  ∧ m_decision m = stronger_decision (decision_for_risk (m_known_risk m))
                     (if m_has_unknown m then Ask else Allow).

Lemma stronger_known a b c :
  valid_risk a = true → valid_risk b = true → a ≠ "unknown" → b ≠ "unknown" →
  max_risk a b = Ok c →
  stronger_decision (decision_for_risk a) (decision_for_risk b) = decision_for_risk c
  ∧ c ≠ "unknown".
Proof.
  rewrite !valid_risk_cases.
  intros [->|[->|[->|[->| ->]]]] [->|[->|[->|[->| ->]]]] ? ?; try done;
    intros [= <-]; by vm_compute.
Qed.

Lemma merge_step_inv m r m' :
  merge_inv m → consistent r → merge_step m r = Ok m' →
  merge_inv m' ∧ m_decision m' = stronger_decision (m_decision m) (rv_decision r)
  ∧ rank (m_known_risk m') = Nat.max (rank (m_known_risk m)) (rank (rv_risk r))
  ∧ m_rules m `prefix_of` m_rules m' ∧ rv_matched_rules r ⊆ m_rules m'.
Proof.
  intros (Hv & Hu & Hd) [Hrd Hrv] H. unfold merge_step in H.
  apply res_bind_ok in H as (k & Hk & H). injection H as <-.
  unfold merge_inv. cbn [m_known_risk m_decision m_has_unknown m_rules].
  assert (m_rules m `prefix_of` _append_unique (m_rules m) (rv_matched_rules r)
    ∧ rv_matched_rules r ⊆ _append_unique (m_rules m) (rv_matched_rules r)) as Hrules.
  { split; [apply append_unique_prefix|]. intros x Hx. apply append_unique_elem. by right. }
  destruct (rv_risk r =s "unknown") eqn:E.
  - injection Hk as <-. apply eqb_true in E. rewrite E in *.
    split; [|split; [done|split; [change (rank "unknown") with 0; lia|done]]].
    split; [done|]. split; [done|]. rewrite Hd, Hrd, orb_true_r.
    destruct (m_has_unknown m), (decision_for_risk (m_known_risk m)); done.
  - assert (rv_risk r ≠ "unknown") as Hne by (by intros ?%eqb_true; congruence).
    destruct (stronger_known _ _ _ Hv Hrv Hu Hne Hk) as [Hs Hkn].
    apply max_risk_inv in Hk as (_ & _ & Hkv & Hkr & _).
    split; [|split; [done|split; [done|done]]].
    split; [done|]. split; [done|]. rewrite orb_false_r, Hd, Hrd, <- Hs.
    by destruct (m_has_unknown m), (decision_for_risk (m_known_risk m)),
      (decision_for_risk (rv_risk r)).
Qed.

Lemma merge_loop_inv reviews m m' :
  merge_inv m → Forall consistent reviews → merge_loop reviews m = Ok m' →
  merge_inv m' ∧ weaker (m_decision m) (m_decision m')
  ∧ rank (m_known_risk m) ≤ rank (m_known_risk m')
  ∧ m_rules m `prefix_of` m_rules m'
  ∧ (∀ r, r ∈ reviews → weaker (rv_decision r) (m_decision m')
                        ∧ rank (rv_risk r) ≤ rank (m_known_risk m')
                        ∧ rv_matched_rules r ⊆ m_rules m')
  ∧ (m_decision m' = m_decision m ∨ ∃ r, r ∈ reviews ∧ m_decision m' = rv_decision r).
Proof.
  revert m. induction reviews as [|r reviews IH]; intros m Hm Hall H; cbn in H.
  - injection H as <-. split; [done|]. split; [done|]. split; [done|]. split; [done|].
    split; [|by left]. by intros r ?%not_elem_of_nil.
  - apply Forall_cons in Hall as [Hr Hall]. apply res_bind_ok in H as (m1 & H1 & H).
    destruct (merge_step_inv _ _ _ Hm Hr H1) as (Hm1 & Hd1 & Hk1 & Hp1 & Hr1).
    destruct (IH m1 Hm1 Hall H) as (Hm' & Hw & Hk & Hp & Hin & Ho).
    assert (weaker (m_decision m) (m_decision m1) ∧ weaker (rv_decision r) (m_decision m1))
      as [W1 W2].
    { rewrite Hd1. split; [apply stronger_decision_ub_l|apply stronger_decision_ub_r]. }
    split; [done|]. split; [by etrans|]. split; [lia|]. split; [by etrans|]. split.
    + intros r' [->|Hr']%elem_of_cons; [|by apply Hin].
      split; [by etrans|]. split; [lia|]. intros x Hx. eapply prefix_elem; [done|]. by apply Hr1.
    + destruct Ho as [Ho|(r' & ? & ?)]; [|right; exists r'; split; [by right|done]].
      rewrite Ho, Hd1. destruct (m_decision m), (rv_decision r) eqn:Er; cbn; auto;
        right; exists r; (split; [left|done]).
Qed.

Lemma merge_reviews_spec reviews r :
  Forall consistent reviews → _merge_reviews reviews = Ok r →
  consistent r
  ∧ (∀ c, c ∈ reviews → weaker (rv_decision c) (rv_decision r)
                        ∧ (1 < rank (rv_risk c) → rank (rv_risk c) ≤ rank (rv_risk r))
                        ∧ rv_matched_rules c ⊆ rv_matched_rules r)
  ∧ (reviews ≠ [] → ∃ c, c ∈ reviews ∧ rv_decision r = rv_decision c).
Proof.
  intros Hall H. unfold _merge_reviews in H. apply res_bind_ok in H as (m & H & Hr).
  injection Hr as <-.
  destruct (merge_loop_inv reviews merge_start m) as (Hm & _ & Hk & _ & Hin & Ho); [done..|].
  destruct Hm as (Hv & Hu & Hd).
  assert (rv_decision (merge_end m) = decision_for_risk (rv_risk (merge_end m))
    ∧ valid_risk (rv_risk (merge_end m)) = true
    ∧ (rank (m_known_risk m) ≤ rank (rv_risk (merge_end m)) ∨ rank (m_known_risk m) = 1))
    as (Hc & Hvr & Hrank).
  { unfold merge_end. cbn [rv_decision rv_risk]. rewrite Hd.
    apply valid_risk_cases in Hv as [E|[E|[E|[E|E]]]]; rewrite E in *; try done;
      destruct (m_has_unknown m); vm_compute; auto with lia. }
  split; [done|]. split.
  - intros c Hc'. destruct (Hin c Hc') as (Hw & Hrc & Hrules). split; [done|].
    split; [lia|done].
  - intros Hne. destruct Ho as [Ho|Ho]; [|done]. destruct reviews as [|c l]; [done|].
    assert (c ∈ c :: l) as Hc' by left. exists c. split; [done|].
    destruct (Hin c Hc') as [Hw _]. cbn [merge_end rv_decision]. rewrite Ho in *.
    unfold weaker in Hw. cbn in Hw |- *. destruct (rv_decision c); [done|..]; cbn in Hw; lia.
Qed.

Lemma merge_loop_ok reviews m :
  valid_risk (m_known_risk m) = true → Forall consistent reviews →
  is_ok (merge_loop reviews m) = true.
Proof.
  revert m. induction reviews as [|r reviews IH]; intros m Hm Hall; cbn; [done|].
  apply Forall_cons in Hall as [[_ Hr] Hall].
  unfold merge_step. destruct (rv_risk r =s "unknown"); cbn.
  - apply IH; [done|done].
  - rewrite max_risk_valid by done. cbn. apply IH; [|done]. cbn. by case_match.
Qed.

(** ** The review of a command *)

Lemma segment_consistent st check tokens rules depth context rv :
  _review_segment st check tokens rules depth context = Ok rv → consistent rv.
Proof. intros H. by destruct (review_segment_spec _ _ _ _ _ _ _ H). Qed.

Lemma pipe_findings_all segments operators :
  Forall (λ r, r = pipe_review) (_pipe_findings segments operators).
Proof.
  revert segments. induction operators as [|o operators IH]; intros [|s [|t rest]]; cbn; try done.
  apply Forall_app_2; [|apply (IH (t :: rest))]. destruct (_ && _ && _); [by apply Forall_singleton|done].
Qed.

Lemma all_ok_map_inv {A B} (f : A → res B) l ys :
  all_ok (map f l) = Ok ys →
  (∀ x, x ∈ l → ∃ y, f x = Ok y ∧ y ∈ ys) ∧ (∀ y, y ∈ ys → ∃ x, x ∈ l ∧ f x = Ok y).
Proof.
  rewrite all_ok_Forall2. intros H. remember (map f l) as k eqn:Ek. revert l Ek.
  induction H as [|m y k ys Hm _ IH]; intros [|x l] Ek; try done.
  - split; by intros ? ?%not_elem_of_nil.
  - injection Ek as -> ->. destruct (IH l eq_refl) as [IH1 IH2]. split.
    + intros x' [->|Hx]%elem_of_cons; [exists y; split; [done|left]|].
      destruct (IH1 x' Hx) as (y' & ? & ?). exists y'. split; [done|by right].
    + intros y' [->|Hy]%elem_of_cons; [exists x; split; [left|done]|].
      destruct (IH2 y' Hy) as (x' & ? & ?). exists x'. split; [by right|done].
Qed.

(** The reviews that a command with segments merges. *)
Definition component (st : Store) (check : string → res RiskReview) (rules : list RiskRule)
    (depth : nat) (context : option ExecutionContext) (command : string)
    (segments : list (list string)) (operators : list string) (rv : RiskReview) : Prop :=
  (∃ segment, segment ∈ segments
     ∧ _review_segment st check segment rules depth context = Ok rv)
  ∨ rv ∈ _pipe_findings segments operators
  ∨ depth < 3 ∧ ∃ script, script ∈ command_substitutions command ∧ check script = Ok rv.

Lemma check_command_merges st fuel command rules depth context r segments operators :
  _check_command st (S fuel) command rules depth context = Ok r →
  truthy (strip command) = true →
  split_shell_segments (strip command) = Ok (segments, operators) → segments ≠ [] →
  let check := λ script, _check_command st fuel script rules (S depth) context in
  ∃ reviews, _merge_reviews reviews = Ok r
    ∧ (∀ rv, rv ∈ reviews ↔
         component st check rules depth context (strip command) segments operators rv)
    ∧ (∀ segment, segment ∈ segments →
         ∃ rv, _review_segment st check segment rules depth context = Ok rv)
    ∧ (depth < 3 → ∀ script, script ∈ command_substitutions (strip command) →
         ∃ rv, check script = Ok rv).
Proof.
  intros H Ht Hs Hne. cbn [_check_command] in H. rewrite Ht, Hs in H. cbn [negb] in H.
  destruct segments as [|seg segs]; [done|]. cbv zeta. set (segments := seg :: segs) in *.
  cbv zeta in H. apply res_bind_ok in H as (reviews & H1 & H).
  apply res_bind_ok in H as (nested & H2 & H).
  apply all_ok_map_inv in H1 as [H1 H1']. apply all_ok_map_inv in H2 as [H2 H2'].
  exists (reviews ++ _pipe_findings segments operators ++ nested).
  split; [done|]. split; [|split].
  - intros rv. rewrite !elem_of_app. unfold component. split.
    + intros [Hin|[Hin|Hin]]; [left|right; by left|right; right].
      * destruct (H1' rv Hin) as (x & ? & ?). by exists x.
      * destruct (H2' rv Hin) as (x & Hx & ?). case_match eqn:Ed;
          [|by apply not_elem_of_nil in Hx]. apply Nat.ltb_lt in Ed. split; [done|by exists x].
    + intros [(x & Hx & Hrv)|[?|(Hd & x & Hx & Hrv)]]; [left|by right; left|right; right].
      * destruct (H1 x Hx) as (y & Hy & ?). congruence.
      * apply Nat.ltb_lt in Hd. rewrite Hd in H2. destruct (H2 x Hx) as (y & Hy & ?). congruence.
  - intros x Hx. destruct (H1 x Hx) as (y & ? & _). by exists y.
  - intros Hd x Hx. apply Nat.ltb_lt in Hd. rewrite Hd in H2.
    destruct (H2 x Hx) as (y & ? & _). by exists y.
Qed.

Lemma check_command_consistent st fuel : ∀ command rules depth context r,
  _check_command st fuel command rules depth context = Ok r → consistent r.
Proof.
  induction fuel as [|fuel IH]; intros command rules depth context r H; [done|].
  destruct (truthy (strip command)) eqn:Ht.
  2: { cbn [_check_command] in H. rewrite Ht in H. by injection H as <-. }
  destruct (split_shell_segments (strip command)) as [[segments operators]|e] eqn:Hs.
  2: { cbn [_check_command] in H. rewrite Ht, Hs in H. cbn in H. by destruct e; inv_res. }
  destruct (decide (segments = [])) as [->|Hne].
  { cbn [_check_command] in H. rewrite Ht, Hs in H. cbn in H. by inv_res. }
  destruct (check_command_merges _ _ _ _ _ _ _ _ _ H Ht Hs Hne) as (reviews & Hm & Hin & _).
  apply merge_reviews_spec in Hm as [? _]; [done|]. apply Forall_forall. intros rv Hrv.
  apply Hin in Hrv as [(x & _ & Hx)|[Hp|(_ & x & _ & Hx)]].
  - by eapply segment_consistent.
  - pose proof (pipe_findings_all segments operators) as Hall. rewrite Forall_forall in Hall.
    by rewrite (Hall rv Hp).
  - by eapply IH.
Qed.

(** What the review [r] of a command promises, when its text has segments. *)
Record command_verdict (st : Store) (check : string → res RiskReview) (rules : list RiskRule)
    (depth : nat) (context : option ExecutionContext) (command : string)
    (segments : list (list string)) (part : RiskReview → Prop) (r : RiskReview) : Prop := {
  parts_segments segment :
    segment ∈ segments →
    ∃ rv, _review_segment st check segment rules depth context = Ok rv ∧ part rv;
  parts_scripts script :
    depth < 3 → script ∈ command_substitutions command →
    ∃ rv, check script = Ok rv ∧ part rv;
  parts_weaker rv :
    part rv → weaker (rv_decision rv) (rv_decision r)
              ∧ rv_matched_rules rv ⊆ rv_matched_rules r
              ∧ (1 < rank (rv_risk rv) → rank (rv_risk rv) ≤ rank (rv_risk r));
  parts_attained : ∃ rv, part rv ∧ rv_decision r = rv_decision rv;
  parts_allowed rv : rv_decision r = Allow → part rv → rv_decision rv = Allow }.

Lemma check_command_spec st fuel command rules depth context r segments operators :
  _check_command st (S fuel) command rules depth context = Ok r →
  truthy (strip command) = true →
  split_shell_segments (strip command) = Ok (segments, operators) → segments ≠ [] →
  let check := λ script, _check_command st fuel script rules (S depth) context in
  command_verdict st check rules depth context (strip command) segments
    (component st check rules depth context (strip command) segments operators) r.
Proof.
  intros H Ht Hs Hne check.
  set (part := component st check rules depth context (strip command) segments operators).
  destruct (check_command_merges _ _ _ _ _ _ _ _ _ H Ht Hs Hne)
    as (reviews & Hm & Hin & Hseg & Hsub). fold check in Hin, Hseg, Hsub. fold part in Hin.
  assert (Forall consistent reviews) as Hall.
  { apply Forall_forall. intros rv [(x & _ & Hx)|[Hp|(_ & x & _ & Hx)]]%Hin.
    - by eapply segment_consistent.
    - pose proof (pipe_findings_all segments operators) as Hpipe.
      rewrite Forall_forall in Hpipe. by rewrite (Hpipe rv Hp).
    - by eapply check_command_consistent. }
  apply merge_reviews_spec in Hm as (_ & Hdom & Hatt); [|done].
  assert (∀ rv, part rv → weaker (rv_decision rv) (rv_decision r)) as Hweak.
  { intros rv ?%Hin%Hdom. tauto. }
  split.
  - intros segment Hx. destruct (Hseg segment Hx) as [rv Hrv]. exists rv. split; [done|].
    left. by exists segment.
  - intros script Hd Hx. destruct (Hsub Hd script Hx) as [rv Hrv]. exists rv. split; [done|].
    right. right. split; [done|by exists script].
  - intros rv ?%Hin%Hdom. tauto.
  - destruct Hatt as (rv & Hrv & ?).
    + intros ->. destruct segments as [|seg segs]; [done|].
      destruct (Hseg seg) as [rv Hrv]; [left|].
      assert (part rv) as ?%Hin by (left; exists seg; split; [left|done]).
      by apply not_elem_of_nil in H0.
    + exists rv. split; [by apply Hin|done].
  - intros rv Ha Hrv%Hweak. rewrite Ha in Hrv. unfold weaker in Hrv.
    destruct (rv_decision rv); cbn in Hrv; [done|lia..].
Qed.

(** C2: a verdict is the strongest of its parts.  Every review has the verdict
    that its risk calls for ([block] exactly for [critical], [warn] for [medium]
    and [high], [ask] for [unknown], [allow] for [low]).  The review of a command
    with segments is at least as strong as the review of each segment, of each
    download piped into a shell and, above the nesting bound, of each command
    substitution; it is as strong as one of them; it reports the rules they
    matched and no smaller risk above [low].  In particular a command is
    allowed only when each of its parts is. *)
Theorem check_command_dominates st fuel command rules depth context r :
  _check_command st (S fuel) command rules depth context = Ok r →
  rv_decision r = decision_for_risk (rv_risk r) ∧ valid_risk (rv_risk r) = true
  ∧ ∀ segments operators, truthy (strip command) = true →
    split_shell_segments (strip command) = Ok (segments, operators) → segments ≠ [] →
    let check := λ script, _check_command st fuel script rules (S depth) context in
    command_verdict st check rules depth context (strip command) segments
      (component st check rules depth context (strip command) segments operators) r.
Proof.
  intros H. destruct (check_command_consistent _ _ _ _ _ _ _ H) as [Hc Hv].
  split; [done|]. split; [done|]. intros. by eapply check_command_spec.
Qed.

(** ** Totality *)

(** A catalog that the review can use: the analyzers' effects are defined, every
    risk is one of the five, and the command cards have the types the code
    expects. *)
Definition flags_ok (flags : json) : bool :=
  forallb (λ p, negb (is_mapping (snd p))
                || is_ok (json_iter (jget_default (snd p) "aliases" (JArr []))))
    (members flags).
Definition card_ok (card : json) : bool :=
  is_ok (card_name card) && is_ok (default_risk card)
  && flags_ok (jget_default card "flags" (JObj []))
  && forallb (λ p, flags_ok (jget_default (snd p) "flags" (JObj [])))
       (members (jget_default card "subcommands" (JObj []))).
Definition catalog_risks_ok (st : Store) : bool :=
  match load_effect_catalog st with
  | Ok catalog =>
      forallb (λ p, match jget (snd p) "risk" with JStr r => valid_risk r | _ => true end)
        catalog
  | Err _ => false
  end.
Definition store_ok (st : Store) : bool :=
  analyzer_catalog_ok st && catalog_risks_ok st
  && forallb (λ rule, valid_risk (rule_risk rule)) (load_risk_rules st)
  && forallb card_ok (load_commands st true).

Lemma dict_get_In {A} key (v : A) l : dict_get key l = Some v → (key, v) ∈ l.
Proof.
  induction l as [|[k w] l IH]; cbn; [done|]. destruct (k =s key) eqn:E.
  - intros [= ->]. apply eqb_true in E as ->. left.
  - intros H. right. by apply IH.
Qed.

Section totality.
Context (st : Store).

Definition risky (item : EffectEvidence) : Prop := valid_risk (ev_risk item) = true.

Lemma grounded_valid catalog item :
  catalog_risks_ok st = true → load_effect_catalog st = Ok catalog →
  grounded catalog item → risky item.
Proof.
  unfold catalog_risks_ok. intros Hok Hc. rewrite Hc in Hok.
  intros (d & Hd & Hr & _). apply dict_get_In in Hd.
  rewrite forallb_forall in Hok. apply list_elem_of_In in Hd. specialize (Hok _ Hd).
  cbn in Hok. unfold jget in Hok. by rewrite Hr in Hok.
Qed.

Lemma evidence_of_spec_valid source catalog spec item :
  evidence_of_spec source catalog spec = Some item → risky item.
Proof.
  unfold evidence_of_spec, risky. intros H. repeat case_match; try done.
  injection H as <-. cbn. apply valid_risk_cases.
  match goal with H : negb (mem ?r VALID_RISKS) = false |- _ =>
    apply negb_false_iff, mem_elem_of in H; unfold VALID_RISKS in H;
    rewrite !elem_of_cons, elem_of_nil in H; tauto end.
Qed.

Lemma evidence_from_effects_valid raw source catalog :
  Forall risky (_evidence_from_effects raw source catalog).
Proof.
  unfold _evidence_from_effects. apply Forall_forall. intros item.
  rewrite list_elem_of_omap. intros (spec & _ & H). by eapply evidence_of_spec_valid.
Qed.

Lemma flag_effects_ok flags args prefix catalog :
  flags_ok flags = true →
  ∃ items, _flag_effect_evidence flags args prefix catalog = Ok items ∧ Forall risky items.
Proof.
  unfold flags_ok, _flag_effect_evidence. intros H.
  destruct flags as [| | | | | |m]; try by exists []. cbn [members] in H.
  assert (∃ parts, all_ok (map (flag_evidence args prefix catalog) m) = Ok parts
                   ∧ Forall (Forall risky) parts) as (parts & -> & Hp).
  { induction m as [|[canonical metadata] m IH]; [by exists []|].
    cbn [forallb snd] in H. apply andb_true_iff in H as [H1 H2].
    destruct (IH H2) as (parts & Hparts & Hrisky). cbn [map all_ok].
    assert (∃ items, flag_evidence args prefix catalog (canonical, metadata) = Ok items
                     ∧ Forall risky items) as (items & -> & Hi).
    { unfold flag_evidence. destruct (is_mapping metadata); [|by exists []].
      cbn in H1. destruct (json_iter _); [|done]. cbn. eexists; split; [done|].
      case_match; [apply evidence_from_effects_valid|done]. }
    cbn. rewrite Hparts. cbn. eexists; split; [done|]. by constructor. }
  cbn. eexists; split; [done|]. by apply Forall_concat.
Qed.

Lemma find_card_ok normalized cards :
  forallb card_ok cards = true →
  ∃ o, find_card normalized cards = Ok o ∧ ∀ card, o = Some card → card_ok card = true.
Proof.
  induction cards as [|card cards IH]; cbn; intros H; [by exists None|].
  apply andb_true_iff in H as [Hc H]. assert (is_ok (card_name card) = true) as Hn.
  { unfold card_ok in Hc. by split_bools. }
  destruct (card_name card) as [name|]; [|done]. cbn.
  destruct (name =s normalized); [|by apply IH].
  exists (Some card). split; [done|]. by intros ? [= <-].
Qed.

Lemma matching_subcommand_in subcommands args name metadata len :
  _matching_subcommand subcommands args = Some (name, metadata, len) →
  (name, metadata) ∈ members subcommands.
Proof.
  unfold _matching_subcommand. destruct subcommands as [| | | | | |m]; try done. cbn [members].
  assert (∀ l best c, longest best l = Some c → c ∈ l ∨ best = Some c) as Hl.
  { clear m. induction l as [|x l IH]; intros best c; cbn; [auto|].
    destruct best as [b|]; intros [?|H]%IH; rewrite ?elem_of_cons; auto.
    - case_match; auto. injection H as ->. auto.
    - injection H as ->. auto. }
  destruct (longest None _) as [[[len' n] md]|] eqn:E; [|done]. intros [= -> -> ->].
  apply Hl in E as [E|E]; [|done]. apply list_elem_of_omap in E as ([n' md'] & Hin & E).
  unfold subcommand_candidate in E. repeat case_match; try done. by injection E as _ <- <-.
Qed.

Lemma effects_for_tokens_ok tokens :
  forallb card_ok (load_commands st true) = true → is_ok (load_effect_catalog st) = true →
  ∃ items, effects_for_tokens st tokens = Ok items ∧ Forall risky items.
Proof.
  intros Hcards Hcat. unfold effects_for_tokens.
  destruct (_normalized_command_tokens tokens) as [|head args]; [by exists []|].
  cbv zeta. unfold find_command.
  destruct (find_card_ok (lower (strip (lower head))) _ Hcards) as (o & -> & Ho). cbn.
  destruct o as [entry|]; [|by exists []]. specialize (Ho entry eq_refl).
  destruct (load_effect_catalog st) as [catalog|]; [|done]. cbn.
  unfold card_ok in Ho. split_bools.
  destruct (flag_effects_ok (jget_default entry "flags" (JObj [])) args
    ("command " +:+ lower head) catalog) as (flags & -> & Hflags); [done|]. cbn.
  match goal with |- ∃ items, mbind _ ?m = _ ∧ _ =>
    assert (∃ sub, m = Ok sub ∧ Forall risky sub) as (sub & -> & Hsub) end.
  { destruct (_matching_subcommand _ args) as [[[n md] len]|] eqn:Em; [|by exists []].
    apply matching_subcommand_in in Em. rewrite forallb_forall in H0.
    apply list_elem_of_In in Em. specialize (H0 _ Em). cbn in H0.
    destruct (flag_effects_ok _ (drop len args)
      ("subcommand " +:+ lower head +:+ " " +:+ n) catalog H0) as (fl & Hf & Hr).
    cbn in Hf |- *. rewrite Hf. cbn. eexists; split; [done|].
    apply Forall_app_2; [apply evidence_from_effects_valid|done]. }
  cbn. eexists; split; [done|]. apply Forall_forall. intros item Hi%dedup_by_elem.
  revert item Hi. apply Forall_forall.
  repeat apply Forall_app_2; auto using evidence_from_effects_valid.
Qed.

Lemma semantic_evidence_total tokens context :
  store_ok st = true →
  ∃ items analysis, _semantic_evidence st tokens context = Ok (items, analysis)
                    ∧ Forall risky items.
Proof.
  unfold store_ok. intros H. split_bools.
  assert (is_ok (load_effect_catalog st) = true) as Hcat.
  { unfold catalog_risks_ok in H2. by destruct (load_effect_catalog st). }
  destruct (effects_for_tokens_ok tokens) as (generic & Hg & Hrisky); [done..|].
  destruct (analyze_tokens_ok st tokens context) as (result & Ha & Hres); [done|].
  unfold _semantic_evidence. rewrite Ha, Hg. cbn.
  destruct result as [a|]; [|by eexists _, _].
  destruct (an_evidence a) as [|item items] eqn:E; [by eexists _, _|].
  eexists _, _. split; [done|]. apply Forall_forall. intros i Hi.
  destruct (Hres a eq_refl) as [_ Hall]. rewrite E in Hall.
  destruct (Hall i Hi) as (_ & catalog & Hc & Hgr). by eapply grounded_valid.
Qed.

Definition good (m : res Findings) : Prop :=
  ∃ g, m = Ok g ∧ valid_risk (f_risk g) = true.

Lemma good_bind m k :
  good m → (∀ g, valid_risk (f_risk g) = true → good (k g)) → good (m ≫= k).
Proof. intros (g & -> & Hg) Hk. by apply Hk. Qed.

Lemma good_raise f r :
  valid_risk (f_risk f) = true → valid_risk r = true → good (raise_risk f r).
Proof.
  intros Hf Hr. unfold raise_risk. rewrite max_risk_valid by done. cbn.
  eexists; split; [done|]. cbn. by case_match.
Qed.

Lemma good_ok f : valid_risk (f_risk f) = true → good (Ok f).
Proof. intros. by exists f. Qed.

Lemma apply_rule_good tokens text f rule :
  valid_risk (f_risk f) = true → valid_risk (rule_risk rule) = true →
  good (apply_rule tokens text f rule).
Proof.
  intros. unfold apply_rule. repeat case_match; try by apply good_ok.
  all: apply good_bind; [by apply good_raise|]; intros g Hg; by apply good_ok.
Qed.

Lemma apply_evidence_good context f item :
  valid_risk (f_risk f) = true → risky item → good (apply_evidence context f item).
Proof.
  intros Hf Hr. unfold apply_evidence. apply good_bind; [by apply good_raise|].
  intros g Hg. unfold _apply_context_policy. destruct context as [c|]; [|by apply good_ok].
  cbv zeta. repeat (apply good_bind; [|intros ? ?]); repeat case_match;
    try (by apply good_ok); apply good_bind; try (by apply good_raise);
    intros ? ?; by apply good_ok.
Qed.

Lemma apply_redirection_good tokens f :
  valid_risk (f_risk f) = true → good (apply_redirection tokens f).
Proof.
  intros Hf. unfold apply_redirection. repeat case_match; try by apply good_ok.
  apply good_bind; [by apply good_raise|]. intros ? ?. by apply good_ok.
Qed.

Lemma default_risk_valid card r : default_risk card = Ok r → valid_risk r = true.
Proof.
  unfold default_risk, valid_risk. intros H. repeat case_match; simplify_eq; try done.
  rewrite bool_decide_eq_true. eauto.
Qed.

Lemma classify_good tokens has matched f :
  forallb card_ok (load_commands st true) = true → valid_risk (f_risk f) = true →
  good (classify_executable st tokens has matched f).
Proof.
  intros Hcards Hf. unfold classify_executable.
  destruct (executable_name_from_tokens tokens) as [e|]; [|by apply good_ok].
  destruct (truthy e); [|by apply good_ok]. unfold find_command.
  destruct (find_card_ok (lower (strip e)) _ Hcards) as (o & -> & Ho). cbn.
  destruct (is_none o && negb matched); [by apply good_ok|].
  destruct (matched && negb has); [by apply good_ok|].
  destruct o as [card|]; [|by apply good_ok]. destruct has; cbn; [by apply good_ok|].
  specialize (Ho card eq_refl). unfold card_ok in Ho. split_bools.
  destruct (default_risk card) as [r|] eqn:Ed; [|done]. cbn.
  apply good_bind; [apply good_raise; [done|by eapply default_risk_valid]|].
  intros ? ?. case_match; by apply good_ok.
Qed.

Lemma review_segment_total check tokens rules depth context :
  store_ok st = true → Forall (λ rule, valid_risk (rule_risk rule) = true) rules →
  (depth < 3 → ∀ script, ∃ r, check script = Ok r ∧ consistent r) →
  ∃ rv, _review_segment st check tokens rules depth context = Ok rv.
Proof.
  intros Hst Hrules Hcheck. rewrite Forall_forall in Hrules. unfold _review_segment. cbv zeta.
  destruct (for_each_ok (apply_rule tokens (segment_text tokens)) rules) with
    (f := no_findings) as (f1 & -> & Hf1); [|done|].
  { intros f rule Hin Hf. apply apply_rule_good; [done|by apply Hrules]. }
  cbn. unfold _apply_semantic_effects.
  destruct (semantic_evidence_total tokens context Hst) as (items & an & -> & Hitems). cbn.
  rewrite Forall_forall in Hitems.
  destruct (for_each_ok (apply_evidence context) items) with (f := f1)
    as (f2 & -> & Hf2); [|done|].
  { intros f item Hin Hf. apply apply_evidence_good; [done|by apply Hitems]. }
  cbn. destruct (apply_redirection_good tokens f2 Hf2) as (f3 & -> & Hf3). cbn.
  destruct (for_each_ok (nested_step check)
    (if 3 <=? depth then [] else nested_scripts tokens)) with (f := f3)
    as (f4 & H4 & Hf4); [|done|].
  { intros f script Hin Hf. destruct (Nat.leb_spec 3 depth);
      [by apply not_elem_of_nil in Hin|]. unfold nested_step.
    destruct (Hcheck ltac:(lia) script) as (n & -> & Hn). cbn. unfold merge_nested.
    apply good_bind; [apply good_raise; [done|apply Hn]|]. intros ? ?. by apply good_ok. }
  cbn in H4. rewrite H4. cbn.
  match goal with |- ∃ rv, (?m ≫= _) = _ => assert (good m) as (f5 & -> & _) end;
    [|cbn; eauto].
  destruct (is_none (shell_script_from_tokens tokens) && _); [|by apply good_ok].
  apply classify_good; [|done].
  unfold store_ok in Hst. by split_bools.
Qed.
End totality.

(** ** Fuel *)

Lemma for_each_ext {A} (b1 b2 : Findings → A → res Findings) l f :
  (∀ f x, x ∈ l → b1 f x = b2 f x) → for_each b1 l f = for_each b2 l f.
Proof.
  revert f. induction l as [|x l IH]; intros f Hb; cbn; [done|].
  rewrite Hb by left. destruct (b2 f x); [|done]. cbn. apply IH. intros ? y Hy. apply Hb.
  by right.
Qed.

Lemma review_segment_ext st check1 check2 tokens rules depth context :
  (depth < 3 → ∀ script, check1 script = check2 script) →
  _review_segment st check1 tokens rules depth context
  = _review_segment st check2 tokens rules depth context.
Proof.
  intros Hc. unfold _review_segment. cbv zeta.
  destruct (for_each _ _ no_findings) as [f1|]; [|done]. cbn [mbind res_bind].
  destruct (_apply_semantic_effects _ _ _ _) as [[[f2 has] m]|]; [|done]. cbn [mbind res_bind].
  destruct (apply_redirection _ _) as [f3|]; [|done]. cbn [mbind res_bind].
  rewrite (for_each_ext (nested_step check1) (nested_step check2)); [done|].
  intros f script Hin. destruct (Nat.leb_spec 3 depth); [by apply not_elem_of_nil in Hin|].
  unfold nested_step. by rewrite Hc.
Qed.

(** Beyond the nesting bound more fuel changes nothing. *)
Lemma check_command_fuel st f1 : ∀ f2 command rules depth context,
  0 < f1 → 0 < f2 → 4 ≤ f1 + depth → 4 ≤ f2 + depth →
  _check_command st f1 command rules depth context
  = _check_command st f2 command rules depth context.
Proof.
  induction f1 as [|f1 IH]; intros [|f2] command rules depth context H1 H2 Hd1 Hd2; try lia.
  cbn [_check_command]. destruct (negb _); [done|].
  destruct (split_shell_segments _) as [[[|seg segs] operators]|[]]; try done. cbv zeta.
  assert (depth < 3 → ∀ script, _check_command st f1 script rules (S depth) context
                              = _check_command st f2 script rules (S depth) context) as Hc.
  { intros Hd script. apply IH; lia. }
  assert (∀ l : list (list string), map (λ segment, _review_segment st
      (λ script, _check_command st f1 script rules (S depth) context) segment rules depth
      context) l = map (λ segment, _review_segment st
      (λ script, _check_command st f2 script rules (S depth) context) segment rules depth
      context) l) as ->.
  { intros l. apply map_ext. intros segment. by apply review_segment_ext. }
  assert (∀ c, map (λ script, _check_command st f1 script rules (S depth) context)
      (if depth <? 3 then command_substitutions c else [])
    = map (λ script, _check_command st f2 script rules (S depth) context)
      (if depth <? 3 then command_substitutions c else [])) as ->; [|done].
  intros c. destruct (Nat.ltb_spec depth 3); [|done]. apply map_ext. intros. by apply Hc.
Qed.

Lemma check_command_total_at st fuel : ∀ command rules depth context,
  store_ok st = true → Forall (λ rule, valid_risk (rule_risk rule) = true) rules →
  0 < fuel → 4 ≤ fuel + depth →
  ∃ r, _check_command st fuel command rules depth context = Ok r.
Proof.
  induction fuel as [|fuel IH]; intros command rules depth context Hst Hr H0 Hd; [lia|].
  cbn [_check_command]. destruct (negb _); [by eexists|].
  destruct (split_shell_segments (strip command)) as [[segments operators]|e] eqn:Hs.
  2: { destruct (split_shell_total (strip command)) as [[? Hs']|[m Hs']]; rewrite Hs' in Hs;
         [done|]. injection Hs as <-. by eexists. }
  destruct segments as [|seg segs]; [by eexists|]. cbv zeta.
  set (check := λ script, _check_command st fuel script rules (S depth) context).
  assert (depth < 3 → ∀ script, ∃ r, check script = Ok r ∧ consistent r) as Hcheck.
  { intros Hlt script. destruct (IH script rules (S depth) context) as [r Hrv]; [done..|lia|lia|].
    exists r. split; [done|]. by eapply check_command_consistent. }
  destruct (all_ok_is_ok (map (λ segment, _review_segment st check segment rules depth context)
    (seg :: segs))) as [reviews Hreviews].
  { apply Forall_map, Forall_true. intros segment. cbn.
    destruct (review_segment_total st check segment rules depth context) as [rv ->]; done. }
  destruct (all_ok_is_ok (map check (if depth <? 3 then command_substitutions (strip command)
    else []))) as [nested Hnested].
  { apply Forall_map, Forall_forall. intros script Hin.
    destruct (Nat.ltb_spec depth 3); [|by apply not_elem_of_nil in Hin].
    cbn. by destruct (Hcheck ltac:(done) script) as (r & -> & _). }
  rewrite Hreviews. cbn [mbind res_bind]. rewrite Hnested. cbn [mbind res_bind].
  assert (Forall consistent (reviews ++ _pipe_findings (seg :: segs) operators ++ nested))
    as Hall.
  { repeat apply Forall_app_2.
    - apply all_ok_map_inv in Hreviews as [_ Hi]. apply Forall_forall.
      intros rv (x & _ & ?)%Hi. by eapply segment_consistent.
    - eapply Forall_impl; [apply pipe_findings_all|]. by intros ? ->.
    - apply all_ok_map_inv in Hnested as [_ Hi]. apply Forall_forall.
      intros rv (x & _ & ?)%Hi. by eapply check_command_consistent. }
  unfold _merge_reviews.
  pose proof (merge_loop_ok _ merge_start eq_refl Hall) as Hok.
  destruct (merge_loop _ _) as [m|]; [|done]. cbn. eauto.
Qed.

Lemma check_command_ok (st : Store) (command : string) (context : option ExecutionContext) :
  store_ok st = true →
  ∃ r, check_command st command context = Ok r
    ∧ (∀ fuel, 4 ≤ fuel →
         _check_command st fuel command (load_risk_rules st) 0 context = Ok r)
    ∧ rv_decision r = decision_for_risk (rv_risk r)
    ∧ rv_risk r ∈ ["unknown"; "low"; "medium"; "high"; "critical"]
    ∧ (strip command = EmptyString → rv_decision r = Block).
Proof.
  intros Hst. assert (Forall (λ rule, valid_risk (rule_risk rule) = true) (load_risk_rules st))
    as Hr.
  { unfold store_ok in Hst. split_bools. rewrite forallb_forall in H1. apply Forall_forall.
    intros rule Hin. by apply H1, list_elem_of_In. }
  destruct (check_command_total_at st 4 command (load_risk_rules st) 0 context)
    as [r Hrv]; [done..|lia|lia|].
  exists r. split; [done|]. split.
  { intros fuel Hf. rewrite <- Hrv. apply check_command_fuel; lia. }
  destruct (check_command_consistent _ _ _ _ _ _ _ Hrv) as [Hc Hv]. split; [done|]. split.
  - apply valid_risk_cases in Hv. rewrite !elem_of_cons. tauto.
  - intros He. cbn [_check_command] in Hrv. rewrite He in Hrv. by injection Hrv as <-.
Qed.

(** C1: the review always answers.  With a usable catalog, [check_command]
    returns a review for every text and every context: no exception escapes, and
    the recursion through subshells, [-c] scripts and command substitutions ends
    within the four levels the fuel allows, so that any larger bound gives the
    same review.  Its verdict is the one of its risk, and an empty or blank
    command is blocked. *)
Theorem check_command_total (st : Store) (command : string) (context : option ExecutionContext) :
  store_ok st = true →
  ∃ r, check_command st command context = Ok r
    ∧ (∀ fuel, 4 ≤ fuel →
         _check_command st fuel command (load_risk_rules st) 0 context = Ok r)
    ∧ rv_decision r = decision_for_risk (rv_risk r)
    ∧ rv_risk r ∈ ["unknown"; "low"; "medium"; "high"; "critical"]
    ∧ (strip command = EmptyString → rv_decision r = Block).
Proof. apply check_command_ok. Qed.

(** ** What a finding in a segment means for the command *)

(** The segments of a command that the review looks at one by one. *)
Definition command_segments (command : string) (segments : list (list string)) : Prop :=
  truthy (strip command) = true
  ∧ ∃ operators, split_shell_segments (strip command) = Ok (segments, operators).

Lemma weaker_block d : weaker Block d → d = Block.
Proof. by destruct d; unfold weaker; cbn; intros; try lia. Qed.

Lemma segment_floor st command context r segments segment :
  check_command st command context = Ok r → command_segments command segments →
  segment ∈ segments →
  ∃ rv, segment_verdict st (λ script, _check_command st 3 script (load_risk_rules st) 1 context)
          segment (load_risk_rules st) 0 context rv
    ∧ weaker (rv_decision rv) (rv_decision r)
    ∧ ∀ risk, valid_risk risk = true → risk ≠ "unknown" → rank risk ≤ rank (rv_risk rv) →
        weaker (decision_for_risk risk) (rv_decision r).
Proof.
  intros H [Ht [operators Hs]] Hin.
  assert (segments ≠ []) as Hne by (by intros ->; apply not_elem_of_nil in Hin).
  pose proof (check_command_spec _ _ _ _ _ _ _ _ _ H Ht Hs Hne) as Hv.
  destruct (parts_segments _ _ _ _ _ _ _ _ _ Hv segment Hin) as (rv & Hrv & Hpart).
  destruct (parts_weaker _ _ _ _ _ _ _ _ _ Hv rv Hpart) as (Hw & _ & _).
  apply review_segment_spec in Hrv. exists rv. split; [done|]. split; [done|].
  intros risk Hr Hu Hrank. etrans; [|exact Hw]. rewrite (verdict_of_risk _ _ _ _ _ _ _ Hrv).
  apply decision_for_risk_mono; [done| |done..]. by eapply verdict_valid.
Qed.

Lemma evidence_floor_spec st command context r segments segment items analysis item :
  check_command st command context = Ok r → command_segments command segments →
  segment ∈ segments → _semantic_evidence st segment context = Ok (items, analysis) →
  item ∈ items → valid_risk (ev_risk item) = true → ev_risk item ≠ "unknown" →
  weaker (decision_for_risk (ev_risk item)) (rv_decision r)
  ∧ (context_high context item → weaker Warn (rv_decision r))
  ∧ (context_critical context item → rv_decision r = Block).
Proof.
  intros H Hc Hin Hs Hi Hv Hu.
  destruct (segment_floor _ _ _ _ _ _ H Hc Hin) as (rv & Hrv & _ & Hfloor).
  destruct (verdict_evidence _ _ _ _ _ _ _ Hrv _ _ _ Hs Hi) as (Hr & _ & _ & Hh & Hcr).
  split; [by apply Hfloor|]. split.
  - intros Hhigh%Hh. by apply (Hfloor "high").
  - intros Hcrit%Hcr. apply weaker_block. by apply (Hfloor "critical").
Qed.

(** The floor of a verdict.  Take a command whose text splits into
    segments.  Any evidence that the analyzers or the command graph give for any
    segment bounds the verdict on the whole command from below: a [medium] or
    [high] effect is at least a warning, a [critical] one blocks; supplied
    context makes path changes outside the repository and effects under UID 0
    at least a warning, and a deletion that resolves to the filesystem root a
    block.  So does every catalog rule that applies to a segment and matches
    it, and a blocked script inside a subshell or a [-c] argument blocks the
    command. *)
Theorem evidence_floor st command context r segments segment :
  check_command st command context = Ok r → command_segments command segments →
  segment ∈ segments →
  (∀ items analysis item, _semantic_evidence st segment context = Ok (items, analysis) →
     item ∈ items → valid_risk (ev_risk item) = true → ev_risk item ≠ "unknown" →
     weaker (decision_for_risk (ev_risk item)) (rv_decision r)
     ∧ (context_high context item → weaker Warn (rv_decision r))
     ∧ (context_critical context item → rv_decision r = Block))
  ∧ (∀ rule, rule ∈ load_risk_rules st → rule_matches segment rule →
     valid_risk (rule_risk rule) = true → rule_risk rule ≠ "unknown" →
     weaker (decision_for_risk (rule_risk rule)) (rv_decision r))
  ∧ (∀ script n, script ∈ nested_scripts segment →
     _check_command st 3 script (load_risk_rules st) 1 context = Ok n →
     rv_decision n = Block → rv_decision r = Block).
Proof.
  intros H Hc Hin.
  destruct (segment_floor _ _ _ _ _ _ H Hc Hin) as (rv & Hrv & Hw & Hfloor).
  split; [|split].
  - intros. by eapply evidence_floor_spec.
  - intros rule Hr Hm Hv Hu. apply Hfloor; [done..|]. by eapply verdict_rules.
  - intros script n Hs Hn Hb.
    destruct (verdict_nested _ _ _ _ _ _ _ Hrv script ltac:(lia) Hs) as (n' & Hn' & Hr & _).
    rewrite Hn in Hn'. injection Hn' as <-.
    destruct (check_command_consistent _ _ _ _ _ _ _ Hn) as [Hd Hv].
    apply weaker_block. rewrite <- Hb, Hd. apply Hfloor; [done| |done].
    intros E. rewrite E in Hd. rewrite Hb in Hd. done.
Qed.
