(* ===== verification/Shipped.v ===== *)
(** * The shipped catalog ([data/])

    The effect catalog, the risk rules, the command cards and the packs as the
    repository ships them, with the members that the review reads.  The
    patterns are the regular expressions of the rules, in the order of the
    files; every pack is enabled by default.  Concrete reviews are evaluated on
    this catalog. *)
From stdpp Require Import base list strings.
From Stdlib Require Import Bool Ascii ZArith.
From S2P Require Import Prelude PyStr Json Regex Catalog.
#[local] Open Scope py_scope.

(** [data/effects.json]. *)
Definition effects_json : list (string * json) :=
  [("code.execute", JObj [("category", JStr "code_execution"); ("risk", JStr "medium"); ("reason",
     JStr "executes project or package code"); ("safer_next_step", JStr
     "Inspect the script or entry point before executing it.")]);
   ("code.remote_execute", JObj [("category", JStr "remote_code_execution"); ("risk", JStr
     "high"); ("reason", JStr "downloads and executes remote code"); ("safer_next_step", JStr
     "Download the content, inspect it, then execute only if trusted.")]);
   ("confirmation.bypass", JObj [("category", JStr "confirmation_bypass"); ("risk", JStr
     "medium"); ("reason", JStr "bypasses a confirmation safeguard"); ("safer_next_step", JStr
     "Avoid force/non-interactive mode unless the target is already verified.")]);
   ("container.create", JObj [("category", JStr "container_create"); ("risk", JStr "medium");
     ("reason", JStr "can create or start container workloads"); ("safer_next_step", JStr
     "Inspect image, mounts, ports, and privileges before starting the container.")]);
   ("container.delete", JObj [("category", JStr "container_delete"); ("risk", JStr "high");
     ("reason", JStr "can delete container runtime resources"); ("safer_next_step", JStr
     "List the exact container resources before deleting them.")]);
   ("container.prune", JObj [("category", JStr "container_cleanup"); ("risk", JStr "high");
     ("reason", JStr "can bulk-remove container runtime resources"); ("safer_next_step", JStr
     "List resources eligible for pruning before removal.")]);
   ("container.read", JObj [("category", JStr "container_read"); ("risk", JStr "low"); ("reason",
     JStr "reads container runtime state")]);
   ("filesystem.delete", JObj [("category", JStr "filesystem_delete"); ("risk", JStr "high");
     ("reason", JStr "can delete filesystem content"); ("safer_next_step", JStr
     "Inspect the exact target path before deleting.")]);
   ("filesystem.metadata_read", JObj [("category", JStr "filesystem_metadata"); ("risk", JStr
     "low"); ("reason", JStr "reads filesystem metadata")]);
   ("filesystem.ownership_change", JObj [("category", JStr "ownership_change"); ("risk", JStr
     "high"); ("reason", JStr "changes filesystem ownership"); ("safer_next_step", JStr
     "Confirm the intended owner, group, and exact target.")]);
   ("filesystem.permission_change", JObj [("category", JStr "permission_change"); ("risk", JStr
     "medium"); ("reason", JStr "changes filesystem permissions"); ("safer_next_step", JStr
     "Use the least-permissive mode required for the task.")]);
   ("filesystem.read", JObj [("category", JStr "filesystem_read"); ("risk", JStr "low");
     ("reason", JStr "reads filesystem content")]);
   ("filesystem.recursive_delete", JObj [("category", JStr "recursive_delete"); ("risk", JStr
     "high"); ("reason", JStr "can recursively delete filesystem content"); ("safer_next_step",
     JStr "List the recursive target set before deleting.")]);
   ("filesystem.recursive_ownership_change", JObj [("category", JStr
     "recursive_ownership_change"); ("risk", JStr "high"); ("reason", JStr
     "recursively changes filesystem ownership"); ("safer_next_step", JStr
     "Restrict ownership changes to the smallest required path.")]);
   ("filesystem.recursive_permission_change", JObj [("category", JStr
     "recursive_permission_change"); ("risk", JStr "high"); ("reason", JStr
     "recursively changes filesystem permissions"); ("safer_next_step", JStr
     "Restrict permission changes to the smallest required path.")]);
   ("filesystem.write", JObj [("category", JStr "filesystem_write"); ("risk", JStr "medium");
     ("reason", JStr "can modify filesystem content"); ("safer_next_step", JStr
     "Inspect the target path and proposed changes before writing.")]);
   ("git.history_rewrite", JObj [("category", JStr "history_rewrite"); ("risk", JStr "high");
     ("reason", JStr "can rewrite or discard source-control history"); ("safer_next_step", JStr
     "Create a recoverable reference and inspect affected commits before rewriting history.")]);
   ("git.local_write", JObj [("category", JStr "source_control_write"); ("risk", JStr "medium");
     ("reason", JStr "changes local source-control state"); ("safer_next_step", JStr
     "Inspect the working tree and current branch before changing repository state.")]);
   ("git.read", JObj [("category", JStr "source_control_read"); ("risk", JStr "low"); ("reason",
     JStr "reads source-control state")]);
   ("git.remote_write", JObj [("category", JStr "source_control_remote_write"); ("risk", JStr
     "medium"); ("reason", JStr "writes source-control state to a remote"); ("safer_next_step",
     JStr "Confirm the remote, branch, and outgoing commits before pushing.")]);
   ("network.connect", JObj [("category", JStr "network_access"); ("risk", JStr "low"); ("reason",
     JStr "contacts a remote network endpoint")]);
   ("network.download", JObj [("category", JStr "network_download"); ("risk", JStr "medium");
     ("reason", JStr "downloads data from a remote endpoint"); ("safer_next_step", JStr
     "Confirm the remote source before consuming downloaded content.")]);
   ("network.upload", JObj [("category", JStr "network_upload"); ("risk", JStr "high"); ("reason",
     JStr "can upload local data to a remote endpoint"); ("safer_next_step", JStr
     "Confirm the destination and inspect the data being uploaded.")]);
   ("package.install", JObj [("category", JStr "package_install"); ("risk", JStr "medium");
     ("reason", JStr "installs package code"); ("safer_next_step", JStr
     "Confirm the package source, version, and lockfile impact before installing.")]);
   ("package.read", JObj [("category", JStr "package_metadata"); ("risk", JStr "low"); ("reason",
     JStr "reads package metadata")]);
   ("package.remove", JObj [("category", JStr "package_remove"); ("risk", JStr "medium");
     ("reason", JStr "removes installed package code"); ("safer_next_step", JStr
     "Confirm reverse dependencies and the target package before removal.")]);
   ("privilege.escalate", JObj [("category", JStr "elevated_privileges"); ("risk", JStr "medium");
     ("reason", JStr "uses elevated privileges"); ("safer_next_step", JStr
     "Confirm elevated privileges are required.")]);
   ("process.signal", JObj [("category", JStr "process_signal"); ("risk", JStr "medium");
     ("reason", JStr "can alter or terminate a running process"); ("safer_next_step", JStr
     "Confirm the target PID and signal before sending it.")]);
   ("secret.read", JObj [("category", JStr "secret_exposure"); ("risk", JStr "high"); ("reason",
     JStr "can expose secret material"); ("safer_next_step", JStr
     "Inspect metadata or variable names instead of printing secret values.")]);
   ("system.configuration_write", JObj [("category", JStr "system_configuration_write"); ("risk",
     JStr "high"); ("reason", JStr "can change system configuration"); ("safer_next_step", JStr
     "Stage and review the configuration change before replacing system files.")]);
   ("system.device_write", JObj [("category", JStr "device_write"); ("risk", JStr "critical");
     ("reason", JStr "can overwrite a system device"); ("safer_next_step", JStr
     "Do not write to a device unless the exact target and recovery plan are verified.")])].

(** [data/packs/*/effects.json]: the nine packs that have the file repeat the same text. *)
Definition pack_effects_json : list (string * json) :=
  [("database.delete", JObj [("category", JStr "database_delete"); ("risk", JStr "high");
     ("reason", JStr "can delete database data or objects"); ("safer_next_step", JStr
     "Inspect the exact database objects and take a recoverable backup before deletion.")]);
   ("database.read", JObj [("category", JStr "database_read"); ("risk", JStr "low"); ("reason",
     JStr "reads database data or metadata")]);
   ("database.write", JObj [("category", JStr "database_write"); ("risk", JStr "high"); ("reason",
     JStr "can modify database data or schema"); ("safer_next_step", JStr
     "Review the query and target database before applying the write.")]);
   ("identity.permission_change", JObj [("category", JStr "identity_permission_change"); ("risk",
     JStr "high"); ("reason", JStr "can change identities or authorization policy");
     ("safer_next_step", JStr
     "Inspect the current principal, policy, and exact permission delta before changing access.")]);
   ("infrastructure.delete", JObj [("category", JStr "infrastructure_delete"); ("risk", JStr
     "high"); ("reason", JStr "can delete infrastructure or remote service resources");
     ("safer_next_step", JStr
     "List the exact remote resources and confirm recovery options before deletion.")]);
   ("infrastructure.read", JObj [("category", JStr "infrastructure_read"); ("risk", JStr "low");
     ("reason", JStr "reads infrastructure or remote service state")]);
   ("infrastructure.write", JObj [("category", JStr "infrastructure_write"); ("risk", JStr
     "high"); ("reason", JStr "can change infrastructure or remote service state");
     ("safer_next_step", JStr
     "Inspect current state and preview the intended change before applying it.")]);
   ("remote.execute", JObj [("category", JStr "remote_execution"); ("risk", JStr "high");
     ("reason", JStr "executes a command or workload on a remote system"); ("safer_next_step",
     JStr "Confirm the remote target and inspect the exact command before execution.")]);
   ("secret.write", JObj [("category", JStr "secret_write"); ("risk", JStr "high"); ("reason",
     JStr "can create or change secret material"); ("safer_next_step", JStr
     "Confirm the secret destination and avoid exposing the value in command history or logs.")]);
   ("service.control", JObj [("category", JStr "service_control"); ("risk", JStr "high");
     ("reason", JStr "can change service runtime state"); ("safer_next_step", JStr
     "Inspect service status and dependencies before changing runtime state.")]);
   ("service.read", JObj [("category", JStr "service_read"); ("risk", JStr "low"); ("reason", JStr
     "reads service or journal state")]);
   ("system.power_change", JObj [("category", JStr "system_power_change"); ("risk", JStr
     "critical"); ("reason", JStr "can reboot, power off, halt, or suspend the system");
     ("safer_next_step", JStr
     "Confirm active workloads and recovery access before changing system power state.")])].

(** [data/risk_rules.json]. *)
Definition risk_rules_json : list RiskRule :=
  [{| rule_id := "recursive_delete"; rule_pattern := rseqs [RBound; rstr "rm"; rplus (rspace);
     RStar (rdot); rseqs [rstr "-"; ralts [rstr "r"; rstr "R"; rstr "-recursive"]]]; rule_risk :=
     "high"; rule_reason := "recursively deletes files or directories"; rule_category := Some
     "recursive_delete"; rule_safer_next_step := Some
     "Inspect the target path first with ls or find before deleting." |};
   {| rule_id := "force_delete"; rule_pattern := rseqs [RBound; rstr "rm"; rplus (rspace); RStar
     (rdot); rseqs [rstr "-"; ralts [rstr "f"; rstr "-force"]]]; rule_risk := "medium";
     rule_reason := "forces deletion without prompting"; rule_category := Some "force_delete";
     rule_safer_next_step := Some
     "Run a non-destructive listing first and avoid --force unless necessary." |};
   {| rule_id := "root_delete"; rule_pattern := rseqs [RBound; rstr "rm"; rplus (rspace); RStar
     (rdot); rspace; rstr "/"; ralts [REnd; rspace]]; rule_risk := "critical"; rule_reason :=
     "targets the filesystem root"; rule_category := Some "root_filesystem_mutation";
     rule_safer_next_step := Some "Do not run this command." |};
   {| rule_id := "root_glob_delete"; rule_pattern := rseqs [RBound; rstr "rm"; rplus (rspace);
     RStar (rdot); rspace; rstr "/*"]; rule_risk := "critical"; rule_reason :=
     "targets files directly under the filesystem root"; rule_category := Some
     "root_filesystem_mutation"; rule_safer_next_step := Some "Do not run this command." |};
   {| rule_id := "chmod_recursive"; rule_pattern := rseqs [RBound; rstr "chmod"; rplus (rspace);
     RStar (rdot); rseqs [rstr "-"; ralts [rstr "R"; rstr "-recursive"]]]; rule_risk := "high";
     rule_reason := "recursively changes permissions"; rule_category := Some
     "recursive_permission_change"; rule_safer_next_step := Some
     "Restrict permissions to the minimum file or directory needed." |};
   {| rule_id := "chmod_777"; rule_pattern := rseqs [RBound; rstr "chmod"; rplus (rspace); RStar
     (rdot); rstr "777"]; rule_risk := "high"; rule_reason :=
     "grants broad read/write/execute permissions"; rule_category := Some
     "broad_permission_change"; rule_safer_next_step := Some
     "Use the least-permissive mode that satisfies the task." |};
   {| rule_id := "process_kill"; rule_pattern := rseqs [RBound; ralts [rstr "kill"; rstr "pkill";
     rstr "killall"]; RBound]; rule_risk := "medium"; rule_reason := "can stop a running process";
     rule_category := Some "process_termination"; rule_safer_next_step := Some
     "Confirm the PID and process name before stopping it." |};
   {| rule_id := "curl_shell"; rule_pattern := rseqs [RBound; ralts [rstr "curl"; rstr "wget"];
     RBound; RStar (rdot); rstr "|"; RStar (rspace); ralts [rstr "sh"; rstr "bash"]]; rule_risk :=
     "high"; rule_reason := "downloads and executes remote code"; rule_category := Some
     "remote_code_execution"; rule_safer_next_step := Some
     "Download the script, inspect it, then run only if trusted." |};
   {| rule_id := "sudo"; rule_pattern := rseqs [RBound; rstr "sudo"; RBound]; rule_risk :=
     "medium"; rule_reason := "runs with elevated privileges"; rule_category := Some
     "elevated_privileges"; rule_safer_next_step := Some
     "Confirm the command needs elevated privileges." |};
   {| rule_id := "chown_recursive"; rule_pattern := rseqs [RBound; rstr "chown"; rplus (rspace);
     RStar (rdot); rseqs [rstr "-"; ralts [rstr "R"; rstr "-recursive"]]]; rule_risk := "high";
     rule_reason := "recursively changes file ownership"; rule_category := Some
     "recursive_ownership_change"; rule_safer_next_step := Some
     "Restrict ownership changes to the smallest required path." |};
   {| rule_id := "package_install"; rule_pattern := rseqs [RBound; ralts [rseqs [rstr "npm"; rplus
     (rspace); rstr "install"]; rseqs [rstr "pip"; rplus (rspace); rstr "install"]; rseqs [rstr
     "python"; rplus (rspace); rstr "-m"; rplus (rspace); rstr "pip"; rplus (rspace); rstr
     "install"]]; RBound]; rule_risk := "medium"; rule_reason :=
     "installs package code from a registry or local source"; rule_category := Some
     "package_install"; rule_safer_next_step := Some
     "Confirm the package name, source, and lockfile impact before installing." |};
   {| rule_id := "read_private_key"; rule_pattern := rseqs [RBound; ralts [rstr "cat"; rstr
     "less"; rstr "more"; rstr "tail"; rstr "head"]; RBound; RStar (rdot); ralts [rstr "id_rsa";
     rstr "id_ed25519"; rstr ".ssh"]]; rule_risk := "high"; rule_reason :=
     "can expose private SSH key material"; rule_category := Some "secret_exposure";
     rule_safer_next_step := Some "Avoid printing private keys; inspect file permissions instead."
     |};
   {| rule_id := "read_env_file"; rule_pattern := rseqs [RBound; ralts [rstr "cat"; rstr "less";
     rstr "more"; rstr "tail"; rstr "head"]; RBound; RStar (rdot); ralts [RStart; ralts [rspace;
     rchar "\"%char; rchar "/"%char]]; rstr ".env"; ralts [RBound; REnd]]; rule_risk := "medium";
     rule_reason := "can expose environment secrets"; rule_category := Some "secret_exposure";
     rule_safer_next_step := Some "Inspect only the variable names or use a secret scanner." |}].

(** [data/commands/*.json]. *)
Definition commands_json : list json :=
  [JObj [("command", JStr "apt-get"); ("default_risk", JStr "medium"); ("subcommands", JObj
     [("install", JObj [("effects", JArr [JObj [("effect", JStr "package.install"); ("resource",
     JStr "system.packages")]])]); ("remove", JObj [("effects", JArr [JObj [("effect", JStr
     "package.remove"); ("resource", JStr "system.packages")]])]); ("purge", JObj [("effects",
     JArr [JObj [("effect", JStr "package.remove"); ("resource", JStr "system.packages")]])]);
     ("update", JObj [("effects", JArr [JObj [("effect", JStr "network.download"); ("resource",
     JStr "package.index")]; JObj [("effect", JStr "package.read"); ("resource", JStr
     "package.index")]])])])];
   JObj [("command", JStr "apt"); ("default_risk", JStr "medium"); ("subcommands", JObj
     [("install", JObj [("effects", JArr [JObj [("effect", JStr "package.install"); ("resource",
     JStr "system.packages")]])]); ("remove", JObj [("effects", JArr [JObj [("effect", JStr
     "package.remove"); ("resource", JStr "system.packages")]])]); ("purge", JObj [("effects",
     JArr [JObj [("effect", JStr "package.remove"); ("resource", JStr "system.packages")]])]);
     ("update", JObj [("effects", JArr [JObj [("effect", JStr "network.download"); ("resource",
     JStr "package.index")]; JObj [("effect", JStr "package.read"); ("resource", JStr
     "package.index")]])]); ("list", JObj [("effects", JArr [JObj [("effect", JStr
     "package.read"); ("resource", JStr "system.packages")]])]); ("show", JObj [("effects", JArr
     [JObj [("effect", JStr "package.read"); ("resource", JStr "system.packages")]])]); ("search",
     JObj [("effects", JArr [JObj [("effect", JStr "package.read"); ("resource", JStr
     "system.packages")]])])])];
   JObj [("command", JStr "cat"); ("default_risk", JStr "low"); ("effects", JArr [JObj [("effect",
     JStr "filesystem.read"); ("resource", JStr "filesystem.target")]])];
   JObj [("command", JStr "chmod"); ("default_risk", JStr "medium"); ("effects", JArr [JObj
     [("effect", JStr "filesystem.permission_change"); ("resource", JStr "filesystem.target")]]);
     ("flags", JObj [("-R", JObj [("aliases", JArr [JStr "--recursive"]); ("effects", JArr [JObj
     [("effect", JStr "filesystem.recursive_permission_change"); ("resource", JStr
     "filesystem.target")]])])])];
   JObj [("command", JStr "chown"); ("default_risk", JStr "high"); ("effects", JArr [JObj
     [("effect", JStr "filesystem.ownership_change"); ("resource", JStr "filesystem.target")]]);
     ("flags", JObj [("-R", JObj [("aliases", JArr [JStr "--recursive"]); ("effects", JArr [JObj
     [("effect", JStr "filesystem.recursive_ownership_change"); ("resource", JStr
     "filesystem.target")]])])])];
   JObj [("command", JStr "cp"); ("default_risk", JStr "medium")];
   JObj [("command", JStr "curl"); ("default_risk", JStr "medium"); ("effects", JArr [JObj
     [("effect", JStr "network.download"); ("resource", JStr "network.remote")]]); ("flags", JObj
     [("-T", JObj [("aliases", JArr [JStr "--upload-file"]); ("effects", JArr [JObj [("effect",
     JStr "network.upload"); ("resource", JStr "network.remote")]])]); ("-d", JObj [("aliases",
     JArr [JStr "--data"; JStr "--data-binary"; JStr "--data-raw"; JStr "--data-urlencode"]);
     ("effects", JArr [JObj [("effect", JStr "network.upload"); ("resource", JStr
     "network.remote")]])]); ("-o", JObj [("aliases", JArr [JStr "--output"]); ("effects", JArr
     [JObj [("effect", JStr "filesystem.write"); ("resource", JStr "filesystem.target")]])])])];
   JObj [("command", JStr "df"); ("default_risk", JStr "low")];
   JObj [("command", JStr "dig"); ("default_risk", JStr "low")];
   JObj [("command", JStr "du"); ("default_risk", JStr "low")];
   JObj [("command", JStr "find"); ("default_risk", JStr "low"); ("effects", JArr [JObj
     [("effect", JStr "filesystem.metadata_read"); ("resource", JStr "filesystem.target")]]);
     ("flags", JObj [("-delete", JObj [("effects", JArr [JObj [("effect", JStr
     "filesystem.delete"); ("resource", JStr "filesystem.target")]])])])];
   JObj [("command", JStr "fuser"); ("default_risk", JStr "medium")];
   JObj [("command", JStr "grep"); ("default_risk", JStr "low")];
   JObj [("command", JStr "head"); ("default_risk", JStr "low")];
   JObj [("command", JStr "kill"); ("default_risk", JStr "medium"); ("effects", JArr [JObj
     [("effect", JStr "process.signal"); ("resource", JStr "process.target")]])];
   JObj [("command", JStr "ls"); ("default_risk", JStr "low")];
   JObj [("command", JStr "lsof"); ("default_risk", JStr "low"); ("effects", JArr [JObj
     [("effect", JStr "filesystem.metadata_read"); ("resource", JStr "process.open_files")]])];
   JObj [("command", JStr "mkdir"); ("default_risk", JStr "medium")];
   JObj [("command", JStr "mv"); ("default_risk", JStr "medium")];
   JObj [("command", JStr "npm"); ("default_risk", JStr "medium"); ("subcommands", JObj
     [("install", JObj [("effects", JArr [JObj [("effect", JStr "package.install"); ("resource",
     JStr "node.environment")]])]); ("ci", JObj [("effects", JArr [JObj [("effect", JStr
     "package.install"); ("resource", JStr "node.environment")]])]); ("update", JObj [("effects",
     JArr [JObj [("effect", JStr "package.install"); ("resource", JStr "node.environment")]])]);
     ("uninstall", JObj [("effects", JArr [JObj [("effect", JStr "package.remove"); ("resource",
     JStr "node.environment")]])]); ("remove", JObj [("effects", JArr [JObj [("effect", JStr
     "package.remove"); ("resource", JStr "node.environment")]])]); ("list", JObj [("effects",
     JArr [JObj [("effect", JStr "package.read"); ("resource", JStr "node.environment")]])]);
     ("ls", JObj [("effects", JArr [JObj [("effect", JStr "package.read"); ("resource", JStr
     "node.environment")]])]); ("run", JObj [("effects", JArr [JObj [("effect", JStr
     "code.execute"); ("resource", JStr "project.script")]])]); ("exec", JObj [("effects", JArr
     [JObj [("effect", JStr "code.execute"); ("resource", JStr "package.executable")]])])])];
   JObj [("command", JStr "ping"); ("default_risk", JStr "low")];
   JObj [("command", JStr "pip"); ("default_risk", JStr "medium"); ("subcommands", JObj
     [("install", JObj [("effects", JArr [JObj [("effect", JStr "package.install"); ("resource",
     JStr "python.environment")]])]); ("uninstall", JObj [("effects", JArr [JObj [("effect", JStr
     "package.remove"); ("resource", JStr "python.environment")]])]); ("list", JObj [("effects",
     JArr [JObj [("effect", JStr "package.read"); ("resource", JStr "python.environment")]])]);
     ("show", JObj [("effects", JArr [JObj [("effect", JStr "package.read"); ("resource", JStr
     "python.environment")]])]); ("freeze", JObj [("effects", JArr [JObj [("effect", JStr
     "package.read"); ("resource", JStr "python.environment")]])])])];
   JObj [("command", JStr "ps"); ("default_risk", JStr "low")];
   JObj [("command", JStr "rm"); ("default_risk", JStr "high"); ("effects", JArr [JObj [("effect",
     JStr "filesystem.delete"); ("resource", JStr "filesystem.target")]]); ("flags", JObj [("-r",
     JObj [("aliases", JArr [JStr "-R"; JStr "--recursive"]); ("effects", JArr [JObj [("effect",
     JStr "filesystem.recursive_delete"); ("resource", JStr "filesystem.target")]])]); ("-f", JObj
     [("aliases", JArr [JStr "--force"]); ("effects", JArr [JObj [("effect", JStr
     "confirmation.bypass"); ("resource", JStr "filesystem.target")]])])])];
   JObj [("command", JStr "ss"); ("default_risk", JStr "low")];
   JObj [("command", JStr "tail"); ("default_risk", JStr "low")];
   JObj [("command", JStr "tar"); ("default_risk", JStr "medium")];
   JObj [("command", JStr "touch"); ("default_risk", JStr "medium")];
   JObj [("command", JStr "unzip"); ("default_risk", JStr "medium")];
   JObj [("command", JStr "wget"); ("default_risk", JStr "medium"); ("effects", JArr [JObj
     [("effect", JStr "network.download"); ("resource", JStr "network.remote")]; JObj [("effect",
     JStr "filesystem.write"); ("resource", JStr "filesystem.target")]])];
   JObj [("command", JStr "zip"); ("default_risk", JStr "medium")]].

Definition aws_pack : Pack := {|
  pack_name := "aws"; pack_enabled_by_default := true;
  pack_commands :=
    [JObj [("command", JStr "aws"); ("default_risk", JStr "medium"); ("subcommands", JObj
      [("s3 ls", JObj [("effects", JArr [JObj [("effect", JStr "infrastructure.read");
      ("resource", JStr "aws.s3")]])]); ("s3 rm", JObj [("effects", JArr [JObj [("effect", JStr
      "infrastructure.delete"); ("resource", JStr "aws.s3")]])]); ("ec2 describe-instances", JObj
      [("effects", JArr [JObj [("effect", JStr "infrastructure.read"); ("resource", JStr
      "aws.ec2")]])]); ("ec2 terminate-instances", JObj [("effects", JArr [JObj [("effect", JStr
      "infrastructure.delete"); ("resource", JStr "aws.ec2")]])]);
      ("secretsmanager get-secret-value", JObj [("effects", JArr [JObj [("effect", JStr
      "secret.read"); ("resource", JStr "aws.secret")]])]); ("iam create-role", JObj [("effects",
      JArr [JObj [("effect", JStr "identity.permission_change"); ("resource", JStr
      "aws.iam")]])])])]];
  pack_risk_rules :=
    [];
  pack_effects := pack_effects_json |}.
Definition azure_pack : Pack := {|
  pack_name := "azure"; pack_enabled_by_default := true;
  pack_commands :=
    [JObj [("command", JStr "az"); ("default_risk", JStr "medium"); ("subcommands", JObj
      [("group list", JObj [("effects", JArr [JObj [("effect", JStr "infrastructure.read");
      ("resource", JStr "azure.resource_group")]])]); ("group delete", JObj [("effects", JArr
      [JObj [("effect", JStr "infrastructure.delete"); ("resource", JStr
      "azure.resource_group")]])]); ("keyvault secret show", JObj [("effects", JArr [JObj
      [("effect", JStr "secret.read"); ("resource", JStr "azure.secret")]])]);
      ("keyvault secret set", JObj [("effects", JArr [JObj [("effect", JStr "secret.write");
      ("resource", JStr "azure.secret")]])]); ("role assignment create", JObj [("effects", JArr
      [JObj [("effect", JStr "identity.permission_change"); ("resource", JStr
      "azure.role")]])])])]];
  pack_risk_rules :=
    [];
  pack_effects := pack_effects_json |}.
Definition database_pack : Pack := {|
  pack_name := "database"; pack_enabled_by_default := true;
  pack_commands :=
    [JObj [("command", JStr "mysql"); ("default_risk", JStr "medium")]; JObj [("command", JStr
      "psql"); ("default_risk", JStr "medium")]; JObj [("command", JStr "sqlite3");
      ("default_risk", JStr "medium")]];
  pack_risk_rules :=
    [];
  pack_effects := pack_effects_json |}.
Definition docker_pack : Pack := {|
  pack_name := "docker"; pack_enabled_by_default := true;
  pack_commands :=
    [JObj [("command", JStr "docker"); ("default_risk", JStr "medium"); ("subcommands", JObj
      [("ps", JObj [("effects", JArr [JObj [("effect", JStr "container.read"); ("resource", JStr
      "container_runtime")]])]); ("images", JObj [("effects", JArr [JObj [("effect", JStr
      "container.read"); ("resource", JStr "container_runtime")]])]); ("inspect", JObj
      [("effects", JArr [JObj [("effect", JStr "container.read"); ("resource", JStr
      "container_runtime")]])]); ("run", JObj [("effects", JArr [JObj [("effect", JStr
      "container.create"); ("resource", JStr "container_runtime")]])]); ("create", JObj
      [("effects", JArr [JObj [("effect", JStr "container.create"); ("resource", JStr
      "container_runtime")]])]); ("start", JObj [("effects", JArr [JObj [("effect", JStr
      "container.create"); ("resource", JStr "container_runtime")]])]); ("rm", JObj [("effects",
      JArr [JObj [("effect", JStr "container.delete"); ("resource", JStr
      "container_runtime")]])]); ("rmi", JObj [("effects", JArr [JObj [("effect", JStr
      "container.delete"); ("resource", JStr "container_runtime")]])]); ("volume rm", JObj
      [("effects", JArr [JObj [("effect", JStr "container.delete"); ("resource", JStr
      "container_runtime")]])]); ("network rm", JObj [("effects", JArr [JObj [("effect", JStr
      "container.delete"); ("resource", JStr "container_runtime")]])]); ("system prune", JObj
      [("effects", JArr [JObj [("effect", JStr "container.prune"); ("resource", JStr
      "container_runtime")]])]); ("image prune", JObj [("effects", JArr [JObj [("effect", JStr
      "container.prune"); ("resource", JStr "container_runtime")]])]); ("container prune", JObj
      [("effects", JArr [JObj [("effect", JStr "container.prune"); ("resource", JStr
      "container_runtime")]])]); ("volume prune", JObj [("effects", JArr [JObj [("effect", JStr
      "container.prune"); ("resource", JStr "container_runtime")]])])])]];
  pack_risk_rules :=
    [{| rule_id := "docker_prune"; rule_pattern := rseqs [RBound; rstr "docker"; rplus (rspace);
      RStar (rdot); RBound; rstr "prune"; RBound]; rule_risk := "high"; rule_reason :=
      "can remove Docker images, containers, networks, or volumes"; rule_category := Some
      "container_cleanup"; rule_safer_next_step := Some
      "List affected Docker resources before pruning." |}; {| rule_id := "docker_rm_force";
      rule_pattern := rseqs [RBound; rstr "docker"; rplus (rspace); rstr "rm"; RBound; RStar
      (rdot); rseqs [rstr "-"; ralts [rstr "f"; rstr "-force"]]]; rule_risk := "high"; rule_reason
      := "force-removes containers"; rule_category := Some "container_delete";
      rule_safer_next_step := Some "Inspect the container name and status before removal." |}];
  pack_effects := [] |}.
Definition gcloud_pack : Pack := {|
  pack_name := "gcloud"; pack_enabled_by_default := true;
  pack_commands :=
    [JObj [("command", JStr "gcloud"); ("default_risk", JStr "medium"); ("subcommands", JObj
      [("compute instances list", JObj [("effects", JArr [JObj [("effect", JStr
      "infrastructure.read"); ("resource", JStr "gcloud.compute")]])]);
      ("compute instances delete", JObj [("effects", JArr [JObj [("effect", JStr
      "infrastructure.delete"); ("resource", JStr "gcloud.compute")]])]);
      ("secrets versions access", JObj [("effects", JArr [JObj [("effect", JStr "secret.read");
      ("resource", JStr "gcloud.secret")]])]); ("storage cp", JObj [("effects", JArr [JObj
      [("effect", JStr "network.connect"); ("resource", JStr "gcloud.storage")]])])])]];
  pack_risk_rules :=
    [];
  pack_effects := pack_effects_json |}.
Definition git_pack : Pack := {|
  pack_name := "git"; pack_enabled_by_default := true;
  pack_commands :=
    [JObj [("command", JStr "git"); ("default_risk", JStr "medium"); ("subcommands", JObj
      [("status", JObj [("effects", JArr [JObj [("effect", JStr "git.read"); ("resource", JStr
      "repository")]])]); ("diff", JObj [("effects", JArr [JObj [("effect", JStr "git.read");
      ("resource", JStr "repository")]])]); ("log", JObj [("effects", JArr [JObj [("effect", JStr
      "git.read"); ("resource", JStr "repository")]])]); ("show", JObj [("effects", JArr [JObj
      [("effect", JStr "git.read"); ("resource", JStr "repository")]])]); ("add", JObj
      [("effects", JArr [JObj [("effect", JStr "git.local_write"); ("resource", JStr
      "repository")]])]); ("commit", JObj [("effects", JArr [JObj [("effect", JStr
      "git.local_write"); ("resource", JStr "repository")]])]); ("switch", JObj [("effects", JArr
      [JObj [("effect", JStr "git.local_write"); ("resource", JStr "repository")]])]);
      ("checkout", JObj [("effects", JArr [JObj [("effect", JStr "git.local_write"); ("resource",
      JStr "repository")]])]); ("push", JObj [("effects", JArr [JObj [("effect", JStr
      "git.remote_write"); ("resource", JStr "repository.remote")]]); ("flags", JObj [("--force",
      JObj [("aliases", JArr [JStr "-f"; JStr "--force-with-lease"]); ("effects", JArr [JObj
      [("effect", JStr "git.history_rewrite"); ("resource", JStr "repository.remote")]])])])]);
      ("reset", JObj [("effects", JArr [JObj [("effect", JStr "git.local_write"); ("resource",
      JStr "repository")]]); ("flags", JObj [("--hard", JObj [("effects", JArr [JObj [("effect",
      JStr "git.history_rewrite"); ("resource", JStr "repository")]])])])]); ("clean", JObj
      [("effects", JArr [JObj [("effect", JStr "filesystem.delete"); ("resource", JStr
      "repository.working_tree")]]); ("flags", JObj [("-f", JObj [("aliases", JArr [JStr
      "--force"]); ("effects", JArr [JObj [("effect", JStr "confirmation.bypass"); ("resource",
      JStr "repository.working_tree")]])])])])])]];
  pack_risk_rules :=
    [{| rule_id := "force_push"; rule_pattern := rseqs [RBound; rstr "git"; rplus (rspace); rstr
      "push"; RBound; RStar (rdot); rseqs [rstr "-"; ralts [rstr "-force"; rstr "f"]]]; rule_risk
      := "high"; rule_reason := "force-push can rewrite shared branch history"; rule_category :=
      Some "history_rewrite"; rule_safer_next_step := Some
      "Use --force-with-lease only after confirming the branch and remote." |}];
  pack_effects := [] |}.
Definition github_pack : Pack := {|
  pack_name := "github"; pack_enabled_by_default := true;
  pack_commands :=
    [JObj [("command", JStr "gh"); ("default_risk", JStr "medium"); ("subcommands", JObj
      [("repo view", JObj [("effects", JArr [JObj [("effect", JStr "infrastructure.read");
      ("resource", JStr "github.repository")]])]); ("repo delete", JObj [("effects", JArr [JObj
      [("effect", JStr "infrastructure.delete"); ("resource", JStr "github.repository")]])]);
      ("pr list", JObj [("effects", JArr [JObj [("effect", JStr "infrastructure.read");
      ("resource", JStr "github.pull_request")]])]); ("pr create", JObj [("effects", JArr [JObj
      [("effect", JStr "infrastructure.write"); ("resource", JStr "github.pull_request")]])]);
      ("pr merge", JObj [("effects", JArr [JObj [("effect", JStr "infrastructure.write");
      ("resource", JStr "github.pull_request")]])]); ("auth token", JObj [("effects", JArr [JObj
      [("effect", JStr "secret.read"); ("resource", JStr "github.credential")]])]); ("secret set",
      JObj [("effects", JArr [JObj [("effect", JStr "secret.write"); ("resource", JStr
      "github.secret")]])])])]];
  pack_risk_rules :=
    [];
  pack_effects := pack_effects_json |}.
Definition kubernetes_pack : Pack := {|
  pack_name := "kubernetes"; pack_enabled_by_default := true;
  pack_commands :=
    [JObj [("command", JStr "kubectl"); ("default_risk", JStr "medium"); ("subcommands", JObj
      [("get", JObj [("effects", JArr [JObj [("effect", JStr "infrastructure.read"); ("resource",
      JStr "kubernetes.resource")]])]); ("describe", JObj [("effects", JArr [JObj [("effect", JStr
      "infrastructure.read"); ("resource", JStr "kubernetes.resource")]])]); ("apply", JObj
      [("effects", JArr [JObj [("effect", JStr "infrastructure.write"); ("resource", JStr
      "kubernetes.resource")]])]); ("create", JObj [("effects", JArr [JObj [("effect", JStr
      "infrastructure.write"); ("resource", JStr "kubernetes.resource")]])]); ("patch", JObj
      [("effects", JArr [JObj [("effect", JStr "infrastructure.write"); ("resource", JStr
      "kubernetes.resource")]])]); ("delete", JObj [("effects", JArr [JObj [("effect", JStr
      "infrastructure.delete"); ("resource", JStr "kubernetes.resource")]])]); ("exec", JObj
      [("effects", JArr [JObj [("effect", JStr "remote.execute"); ("resource", JStr
      "kubernetes.pod")]])]); ("cp", JObj [("effects", JArr [JObj [("effect", JStr
      "network.connect"); ("resource", JStr "kubernetes.pod")]])])])]];
  pack_risk_rules :=
    [];
  pack_effects := pack_effects_json |}.
Definition remote_pack : Pack := {|
  pack_name := "remote"; pack_enabled_by_default := true;
  pack_commands :=
    [JObj [("command", JStr "rsync"); ("default_risk", JStr "medium")]; JObj [("command", JStr
      "scp"); ("default_risk", JStr "medium"); ("effects", JArr [JObj [("effect", JStr
      "network.connect"); ("resource", JStr "remote.host")]])]; JObj [("command", JStr "ssh");
      ("default_risk", JStr "medium"); ("effects", JArr [JObj [("effect", JStr "network.connect");
      ("resource", JStr "remote.host")]])]];
  pack_risk_rules :=
    [];
  pack_effects := pack_effects_json |}.
Definition systemd_pack : Pack := {|
  pack_name := "systemd"; pack_enabled_by_default := true;
  pack_commands :=
    [JObj [("command", JStr "journalctl"); ("default_risk", JStr "medium"); ("effects", JArr [JObj
      [("effect", JStr "service.read"); ("resource", JStr "system-journal")]])]; JObj [("command",
      JStr "systemctl"); ("default_risk", JStr "medium"); ("subcommands", JObj [("status", JObj
      [("effects", JArr [JObj [("effect", JStr "service.read"); ("resource", JStr
      "service.unit")]])]); ("show", JObj [("effects", JArr [JObj [("effect", JStr
      "service.read"); ("resource", JStr "service.unit")]])]); ("start", JObj [("effects", JArr
      [JObj [("effect", JStr "service.control"); ("resource", JStr "service.unit")]])]); ("stop",
      JObj [("effects", JArr [JObj [("effect", JStr "service.control"); ("resource", JStr
      "service.unit")]])]); ("restart", JObj [("effects", JArr [JObj [("effect", JStr
      "service.control"); ("resource", JStr "service.unit")]])]); ("enable", JObj [("effects",
      JArr [JObj [("effect", JStr "system.configuration_write"); ("resource", JStr
      "service.unit")]])]); ("disable", JObj [("effects", JArr [JObj [("effect", JStr
      "system.configuration_write"); ("resource", JStr "service.unit")]])]); ("reboot", JObj
      [("effects", JArr [JObj [("effect", JStr "system.power_change"); ("resource", JStr
      "system")]])]); ("poweroff", JObj [("effects", JArr [JObj [("effect", JStr
      "system.power_change"); ("resource", JStr "system")]])])])]];
  pack_risk_rules :=
    [];
  pack_effects := pack_effects_json |}.
Definition terraform_pack : Pack := {|
  pack_name := "terraform"; pack_enabled_by_default := true;
  pack_commands :=
    [JObj [("command", JStr "terraform"); ("default_risk", JStr "medium"); ("subcommands", JObj
      [("plan", JObj [("effects", JArr [JObj [("effect", JStr "infrastructure.read"); ("resource",
      JStr "terraform.state")]])]); ("show", JObj [("effects", JArr [JObj [("effect", JStr
      "infrastructure.read"); ("resource", JStr "terraform.state")]])]); ("apply", JObj
      [("effects", JArr [JObj [("effect", JStr "infrastructure.write"); ("resource", JStr
      "terraform.state")]])]); ("destroy", JObj [("effects", JArr [JObj [("effect", JStr
      "infrastructure.delete"); ("resource", JStr "terraform.state")]])]); ("state list", JObj
      [("effects", JArr [JObj [("effect", JStr "infrastructure.read"); ("resource", JStr
      "terraform.state")]])]); ("state rm", JObj [("effects", JArr [JObj [("effect", JStr
      "infrastructure.delete"); ("resource", JStr "terraform.state")]])])])]; JObj [("command",
      JStr "tofu"); ("default_risk", JStr "medium"); ("subcommands", JObj [("plan", JObj
      [("effects", JArr [JObj [("effect", JStr "infrastructure.read"); ("resource", JStr
      "terraform.state")]])]); ("show", JObj [("effects", JArr [JObj [("effect", JStr
      "infrastructure.read"); ("resource", JStr "terraform.state")]])]); ("apply", JObj
      [("effects", JArr [JObj [("effect", JStr "infrastructure.write"); ("resource", JStr
      "terraform.state")]])]); ("destroy", JObj [("effects", JArr [JObj [("effect", JStr
      "infrastructure.delete"); ("resource", JStr "terraform.state")]])])])]];
  pack_risk_rules :=
    [];
  pack_effects := pack_effects_json |}.

(** The catalog without [ORDIN_PACKS] and without a manual index. *)
Definition shipped : Store := {|
  core_commands := commands_json; core_risk_rules := risk_rules_json;
  core_effects := effects_json;
  packs := [aws_pack; azure_pack; database_pack;
            docker_pack; gcloud_pack; git_pack; github_pack; kubernetes_pack;
            remote_pack; systemd_pack; terraform_pack];
  man_index := []; pack_env := None |}.
