(* ===== verification/Temporal.v ===== *)
(** * Temporal policies ([ordin/temporal.py])

    Rules over a bounded history of actions: their validation and JSON form,
    and the state machines that evaluate them. *)
From stdpp Require Import base list strings gmap sets.
From Stdlib Require Import Bool Ascii ZArith Lia.
From S2P Require Import Prelude PyStr Policy Json Shell Context Regex Catalog Risk Semantics.
#[local] Open Scope py_scope.

Definition TEMPORAL_POLICY_SCHEMA_VERSION : string := "ordin.temporal_policy_set.v1".
Definition MAX_HISTORY_ACTIONS : nat := 32.
Definition MAX_TEMPORAL_TEXT_LENGTH : nat := Nat.pow 2 15.
Definition MAX_TEMPORAL_SIGNAL_LENGTH : nat := 256.
Definition MAX_TEMPORAL_RULES : nat := 128.
Definition MAX_TEMPORAL_STEPS : nat := 8.
Definition MAX_STEP_SIGNALS : nat := 64.
Definition MAX_STEP_VALUES : nat := 32.
Definition VALID_TEMPORAL_RISKS : list string := ["medium"; "high"; "critical"].
#[global] Arguments MAX_TEMPORAL_TEXT_LENGTH : simpl never.

Record TemporalActionEvidence := {
  ae_kind : string;
  ae_operation : string;
  ae_signals : gset string }.

Record TemporalPredicate := {
  signals_any : list string;
  kinds : list string;
  operations : list string }.

Definition fits (maximum : nat) (s : string) : bool := String.length s <=? maximum.
(** [1 <= len(s) <= maximum], as the code writes it. *)
Definition short_text (maximum : nat) (s : string) : bool := truthy s && fits maximum s.

Definition valid_signal (signal : string) : bool :=
  short_text MAX_TEMPORAL_SIGNAL_LENGTH signal
  && startswith_any signal ["effect:"; "category:"; "signal:"].
Definition mk_TemporalPredicate (p : TemporalPredicate) : res TemporalPredicate :=
  _ ← guard_or (match signals_any p with [] => false | _ => true end)
        (ValueError "temporal predicate requires at least one signal");
  _ ← guard_or (length (signals_any p) <=? MAX_STEP_SIGNALS)
        (ValueError "temporal predicate supports at most 64 signals");
  _ ← guard_or ((length (kinds p) <=? MAX_STEP_VALUES)
                && (length (operations p) <=? MAX_STEP_VALUES))
        (ValueError "temporal predicate supports at most 32 kind/operation values");
  _ ← guard_or (forallb valid_signal (signals_any p)) (ValueError "temporal predicate signal");
  Ok p.

(** [payload.get(key)] of a mapping. *)
Definition field (payload : list (string * json)) (key : string) : json :=
  default JNull (assoc_last key payload).

Definition _reject_unknown (payload : list (string * json)) (allowed : list string)
    (name : string) : res unit :=
  let unknown := sorted_set (filter (λ key, mem key allowed = false) (map fst payload)) in
  guard_or (match unknown with [] => true | _ => false end)
    (ValueError (name +:+ " contains unsupported fields: " +:+ join ", " unknown)).

(** One round of the loop of [_string_tuple]. *)
Fixpoint string_items (key : string) (items : list json) (result : list string)
  : res (list string) :=
  match items with
  | [] => Ok result
  | JStr item :: items' =>
      if negb (truthy item) then Err (ValueError (key +:+ " items must be non-empty strings"))
      else if negb (fits MAX_TEMPORAL_SIGNAL_LENGTH item)
      then Err (ValueError (key +:+ " items must be at most 256 characters"))
      else string_items key items' (if mem item result then result else result ++ [item])
  | _ :: _ => Err (ValueError (key +:+ " items must be non-empty strings"))
  end.
Definition _string_tuple (payload : list (string * json)) (key : string) (required : bool)
    (maximum : nat) : res (list string) :=
  match field payload key with
  | JNull => if required then Err (ValueError (key +:+ " is required")) else Ok []
  | JArr value =>
      _ ← guard_or (length value <=? maximum) (ValueError (key +:+ " must contain at most items"));
      result ← string_items key value [];
      match result with
      | [] => if required then Err (ValueError (key +:+ " must contain at least one value"))
              else Ok []
      | _ => Ok result
      end
  | _ => Err (ValueError (key +:+ " must be an array"))
  end.

Definition TemporalPredicate_from_dict (payload : list (string * json)) : res TemporalPredicate :=
  _ ← _reject_unknown payload ["signals_any"; "kinds"; "operations"] "temporal predicate";
  signals_any ← _string_tuple payload "signals_any" true MAX_STEP_SIGNALS;
  kinds ← _string_tuple payload "kinds" false MAX_STEP_VALUES;
  operations ← _string_tuple payload "operations" false MAX_STEP_VALUES;
  mk_TemporalPredicate (Build_TemporalPredicate signals_any kinds operations).

Definition jstrings (l : list string) : json := JArr (map JStr l).
Definition TemporalPredicate_as_dict (p : TemporalPredicate) : list (string * json) :=
  [("signals_any", jstrings (signals_any p))]
  ++ match kinds p with [] => [] | _ => [("kinds", jstrings (kinds p))] end
  ++ match operations p with [] => [] | _ => [("operations", jstrings (operations p))] end.

Definition matches (p : TemporalPredicate) (action : TemporalActionEvidence) : bool :=
  if match kinds p with [] => false | _ => true end && negb (mem (ae_kind action) (kinds p))
  then false
  else if match operations p with [] => false | _ => true end
          && negb (mem (ae_operation action) (operations p))
  then false
  else existsb (λ signal, bool_decide (signal ∈ ae_signals action)) (signals_any p).

Record TemporalRule := {
  tr_id : string;
  tr_risk : string;
  tr_category : string;
  within_actions : Z;
  pattern : list TemporalPredicate;
  tr_reason : string;
  tr_safer_next_step : option string;
  enabled : bool }.

Definition mk_TemporalRule (r : TemporalRule) : res TemporalRule :=
  _ ← guard_or (short_text 128 (tr_id r))
        (ValueError "temporal rule id must contain 1 to 128 characters");
  _ ← guard_or (mem (tr_risk r) VALID_TEMPORAL_RISKS)
        (ValueError ("unsupported temporal risk: " +:+ repr (tr_risk r)));
  _ ← guard_or (short_text 128 (tr_category r))
        (ValueError "temporal category must contain 1 to 128 characters");
  _ ← guard_or ((1 <=? within_actions r)%Z
                && (within_actions r <=? Z.of_nat MAX_HISTORY_ACTIONS)%Z)
        (ValueError "within_actions must be between 1 and 32");
  _ ← guard_or ((1 <=? length (pattern r)) && (length (pattern r) <=? MAX_TEMPORAL_STEPS))
        (ValueError "temporal pattern must contain 1 to 8 steps");
  _ ← guard_or (negb (within_actions r <? Z.of_nat (length (pattern r)))%Z)
        (ValueError "within_actions cannot be smaller than the number of pattern steps");
  _ ← guard_or (truthy (tr_reason r)) (ValueError "temporal rule reason must be non-empty");
  _ ← guard_or (fits MAX_TEMPORAL_TEXT_LENGTH (tr_reason r))
        (ValueError "temporal rule reason must be at most 32768 characters");
  _ ← guard_or (match tr_safer_next_step r with
                | Some s => fits MAX_TEMPORAL_TEXT_LENGTH s | None => true end)
        (ValueError "temporal safer_next_step must be at most 32768 characters");
  Ok r.

(** The checks of [from_dict] on the types of the members. *)
Definition as_str (j : json) (message : string) : res string :=
  match j with JStr s => Ok s | _ => Err (ValueError message) end.
Definition as_int (j : json) (message : string) : res Z :=
  match j with JInt z => Ok z | _ => Err (ValueError message) end.
Definition as_list (j : json) (message : string) : res (list json) :=
  match j with JArr l => Ok l | _ => Err (ValueError message) end.
Definition as_bool (j : json) (message : string) : res bool :=
  match j with JBool b => Ok b | _ => Err (ValueError message) end.

(** Objects of an array, each read with [f]. *)
Definition read_objects {A} (f : list (string * json) → res A) (message : string)
    (items : list json) : res (list A) :=
  all_ok (map (λ item, match item with
                       | JObj m => f m
                       | _ => Err (ValueError message)
                       end) items).

Definition TemporalRule_from_dict (payload : list (string * json)) : res TemporalRule :=
  _ ← _reject_unknown payload
        ["id"; "risk"; "category"; "within_actions"; "pattern"; "reason"; "safer_next_step";
         "enabled"] "temporal rule";
  let strings := "temporal rule requires string id, risk, and category" in
  rule_id ← as_str (field payload "id") strings;
  risk ← as_str (field payload "risk") strings;
  category ← as_str (field payload "category") strings;
  within_actions ← as_int (field payload "within_actions")
                     "temporal rule within_actions must be an integer";
  pattern_raw ← as_list (field payload "pattern") "temporal rule pattern must be an array";
  reason ← as_str (field payload "reason") "temporal rule reason must be a string";
  safer_next_step ← opt_str_field (field payload "safer_next_step")
                      "temporal safer_next_step must be a string or null";
  enabled ← as_bool (default (JBool true) (assoc_last "enabled" payload))
              "temporal rule enabled must be a boolean";
  predicates ← read_objects TemporalPredicate_from_dict
                 "temporal pattern steps must be JSON objects" pattern_raw;
  mk_TemporalRule (Build_TemporalRule rule_id risk category within_actions predicates reason
                     safer_next_step enabled).

Definition TemporalRule_as_dict (r : TemporalRule) : list (string * json) :=
  [("id", JStr (tr_id r)); ("risk", JStr (tr_risk r)); ("category", JStr (tr_category r));
   ("within_actions", JInt (within_actions r));
   ("pattern", JArr (map (λ p, JObj (TemporalPredicate_as_dict p)) (pattern r)));
   ("reason", JStr (tr_reason r)); ("safer_next_step", jstr (tr_safer_next_step r))]
  ++ if enabled r then [] else [("enabled", JBool false)].

Record TemporalPolicySet := {
  policy_id : string;
  version : string;
  rules : list TemporalRule }.

(** The ids that occur again after their first occurrence. *)
Fixpoint duplicate_ids (seen : list string) (l : list TemporalRule) : list string :=
  match l with
  | [] => []
  | rule :: l' =>
      (if mem (tr_id rule) seen then [tr_id rule] else [])
      ++ duplicate_ids (tr_id rule :: seen) l'
  end.

Definition mk_TemporalPolicySet (p : TemporalPolicySet) : res TemporalPolicySet :=
  _ ← guard_or (short_text 128 (policy_id p))
        (ValueError "temporal policy_id must contain 1 to 128 characters");
  _ ← guard_or (short_text 64 (version p))
        (ValueError "temporal policy version must contain 1 to 64 characters");
  _ ← guard_or (length (rules p) <=? MAX_TEMPORAL_RULES)
        (ValueError "temporal policy supports at most 128 rules");
  let duplicates := duplicate_ids [] (rules p) in
  _ ← guard_or (match duplicates with [] => true | _ => false end)
        (ValueError ("duplicate temporal rule ids: " +:+ join ", " (sorted_set duplicates)));
  Ok p.

Definition TemporalPolicySet_from_dict (payload : list (string * json)) : res TemporalPolicySet :=
  _ ← _reject_unknown payload ["schema_version"; "policy_id"; "version"; "rules"]
        "temporal policy set";
  _ ← guard_or (match field payload "schema_version" with
                | JStr s => s =s TEMPORAL_POLICY_SCHEMA_VERSION | _ => false end)
        (ValueError "unsupported temporal policy schema");
  let strings := "temporal policy set requires string policy_id and version" in
  policy_id ← as_str (field payload "policy_id") strings;
  version ← as_str (field payload "version") strings;
  rules_raw ← as_list (field payload "rules") "temporal policy rules must be an array";
  rules ← read_objects TemporalRule_from_dict "temporal rules must be JSON objects" rules_raw;
  mk_TemporalPolicySet (Build_TemporalPolicySet policy_id version rules).

Definition TemporalPolicySet_as_dict (p : TemporalPolicySet) : list (string * json) :=
  [("schema_version", JStr TEMPORAL_POLICY_SCHEMA_VERSION); ("policy_id", JStr (policy_id p));
   ("version", JStr (version p));
   ("rules", JArr (map (λ r, JObj (TemporalRule_as_dict r)) (rules p)))].

(** ** Evaluation *)

Record TemporalMatch := {
  tm_rule_id : string;
  tm_risk : string;
  tm_category : string;
  tm_reason : string;
  tm_safer_next_step : option string;
  matched_indices : list nat }.

Record TemporalEvaluation := {
  history_length : nat;
  te_matches : list TemporalMatch }.

Record _MachineState := {
  next_step : nat;
  start_index : nat;
  ms_matched_indices : list nat }.

Definition match_of (r : TemporalRule) (indices : list nat) : TemporalMatch :=
  {| tm_rule_id := tr_id r; tm_risk := tr_risk r; tm_category := tr_category r;
     tm_reason := tr_reason r; tm_safer_next_step := tr_safer_next_step r;
     matched_indices := indices |}.

(** [pattern[step].matches(action)]; a step past the pattern would raise, and
    no state of a run has one. *)
Definition step_matches (r : TemporalRule) (step : nat) (action : TemporalActionEvidence) : bool :=
  match pattern r !! step with Some p => matches p action | None => false end.

(** [l[-n:]] and [prior[-n:]]. *)
Definition last_n {A} (n : nat) (l : list A) : list A := drop (length l - n) l.

(** What becomes of one state at one action: a completed match, or the state
    that goes on, if any. *)
Inductive advanced := Completed (indices : list nat) | Kept (state : _MachineState) | Dropped.

Definition advance (r : TemporalRule) (final_index index : nat)
    (action : TemporalActionEvidence) (state : _MachineState) : advanced :=
  let span := index - start_index state + 1 in
  if (within_actions r <? Z.of_nat span)%Z then Dropped
  else if step_matches r (next_step state) action then
    let matched := ms_matched_indices state ++ [index] in
    let next := S (next_step state) in
    if next =? length (pattern r) then
      if index =? final_index then Completed matched else Dropped
    else Kept {| next_step := next; start_index := start_index state;
                 ms_matched_indices := matched |}
  else Kept state.

(** The loop over the states: it returns at the first completed one. *)
Fixpoint advance_all (r : TemporalRule) (final_index index : nat)
    (action : TemporalActionEvidence) (states next_states : list _MachineState)
  : list nat + list _MachineState :=
  match states with
  | [] => inr next_states
  | state :: states' =>
      match advance r final_index index action state with
      | Completed indices => inl indices
      | Kept state => advance_all r final_index index action states' (next_states ++ [state])
      | Dropped => advance_all r final_index index action states' next_states
      end
  end.

(** The loop over the actions, from [index] on. *)
Fixpoint evaluate_loop (r : TemporalRule) (final_index index : nat)
    (actions : list TemporalActionEvidence) (states : list _MachineState)
  : option (list nat) :=
  match actions with
  | [] => None
  | action :: actions' =>
      match advance_all r final_index index action states [] with
      | inl indices => Some indices
      | inr next_states =>
          if step_matches r 0 action then
            if length (pattern r) =? 1 then
              if index =? final_index then Some [index]
              else evaluate_loop r final_index (S index) actions'
                     (last_n (Z.to_nat (within_actions r)) next_states)
            else evaluate_loop r final_index (S index) actions'
                   (last_n (Z.to_nat (within_actions r))
                      (next_states ++ [{| next_step := 1; start_index := index;
                                          ms_matched_indices := [index] |}]))
          else evaluate_loop r final_index (S index) actions'
                 (last_n (Z.to_nat (within_actions r)) next_states)
      end
  end.

Definition evaluate_rule (r : TemporalRule) (actions : list TemporalActionEvidence)
  : option TemporalMatch :=
  match actions with
  | [] => None
  | _ => match_of r <$> evaluate_loop r (length actions - 1) 0 actions []
  end.

Definition compile_temporal_policy (policy : TemporalPolicySet) : list TemporalRule :=
  filter (λ r, enabled r = true) (rules policy).

Definition evaluate_policy (compiled : list TemporalRule) (prior : list TemporalActionEvidence)
    (current : TemporalActionEvidence) : TemporalEvaluation :=
  let bounded_prior := last_n MAX_HISTORY_ACTIONS prior in
  {| history_length := length bounded_prior;
     te_matches := omap (λ r, evaluate_rule r (bounded_prior ++ [current])) compiled |}.

(** [max(risks, key=RISK_ORDER)]: the first of the highest; an unknown name
    raises. *)
Fixpoint max_by_risk (best : string) (risks : list string) : res string :=
  match risks with
  | [] => Ok best
  | risk :: risks' => best ← max_risk best risk; max_by_risk best risks'
  end.
Definition highest_risk (risks : list string) : res (option string) :=
  match risks with
  | [] => Ok None
  | risk :: risks' =>
      match RISK_ORDER risk with
      | None => Err (KeyError risk)
      | Some _ => r ← max_by_risk risk risks'; Ok (Some r)
      end
  end.
Definition TemporalEvaluation_risk (e : TemporalEvaluation) : res (option string) :=
  highest_risk (map tm_risk (te_matches e)).
Definition TemporalEvaluation_categories (e : TemporalEvaluation) : list string :=
  sorted_set (map tm_category (te_matches e)).

(** ** Evidence of a shell command *)

Definition path_like (candidate : string) : bool :=
  startswith_any candidate ["./"; "../"; "/"; "~/"].

Definition _looks_like_path_execution (command : string) : bool :=
  match split_shell_segments command with
  | Err _ => false
  | Ok (segments, _) =>
      match segments with
      | [] => false
      | tokens :: _ =>
          if opt_mem (executable_name_from_tokens tokens) SHELL_EXECUTABLES
             && (1 <? length tokens)
          then match last tokens with Some candidate => path_like candidate | None => false end
          else match tokens with
               | [] => false
               | candidate :: _ => path_like candidate
               end
      end
  end.

Definition temporal_evidence_for_command (st : Store) (command : string)
    (context : option ExecutionContext) (review : option RiskReview)
  : res TemporalActionEvidence :=
  risk_review ← match review with
                | Some r => Ok r
                | None => check_command st command context
                end;
  semantics ← semantic_evidence_for_command st command context;
  let signals := map (λ effect, "effect:" +:+ effect) (effects semantics)
                 ++ map (λ category, "category:" +:+ category) (rv_risk_categories risk_review)
                 ++ if _looks_like_path_execution command
                    then ["signal:path_execution"; "effect:code.execute"] else [] in
  Ok {| ae_kind := "shell"; ae_operation := "execute"; ae_signals := list_to_set signals |}.
