(* ===== verification/TemporalFacts.v ===== *)
(** * Theorems about temporal policies ([ordin/temporal.py]) *)
From stdpp Require Import base list strings gmap sets sorting.
From Stdlib Require Import Bool Ascii ZArith Lia.
From S2P Require Import Prelude PyStr Policy Json Context Risk RiskFacts Temporal.
#[local] Open Scope py_scope.

(** ** The machine against a reference *)

Definition first_some {A} (l : list (option A)) : option A := head (omap id l).

Lemma first_some_cons {A} (o : option A) l :
  first_some (o :: l) = match o with Some x => Some x | None => first_some l end.
Proof. by destruct o. Qed.

Lemma first_some_app {A} (l k : list (option A)) :
  first_some (l ++ k) = match first_some l with Some x => Some x | None => first_some k end.
Proof.
  induction l as [|o l IH]; [done|]. cbn [app]. rewrite !first_some_cons. by destruct o.
Qed.

Lemma first_some_elem {A} (l : list (option A)) x : first_some l = Some x → Some x ∈ l.
Proof.
  induction l as [|o l IH]; [done|]. rewrite first_some_cons. destruct o as [y|].
  - intros [= ->]. left.
  - intros ?%IH. by right.
Qed.

Lemma first_some_is_Some {A} (l : list (option A)) :
  (∃ x, Some x ∈ l) → is_Some (first_some l).
Proof.
  intros [x Hx]. induction l as [|o l IH]; [by apply not_elem_of_nil in Hx|].
  rewrite first_some_cons. destruct o; [by eexists|].
  apply IH. by apply elem_of_cons in Hx as [?|?].
Qed.

Section machine.
Context (r : TemporalRule).

(** One start on its own: from action [index] on, the predicates that are left
    are matched each at its first opportunity, as long as the window that began
    at [start] is open; the last one must be matched by the last action. *)
Fixpoint follow (preds : list TemporalPredicate) (start index : nat)
    (actions : list TemporalActionEvidence) (matched : list nat) : option (list nat) :=
  match actions with
  | [] => None
  | action :: actions' =>
      if (within_actions r <? Z.of_nat (index - start + 1))%Z then None
      else match preds with
           | [] => None
           | p :: preds' =>
               if matches p action then
                 match preds' with
                 | [] => match actions' with [] => Some (matched ++ [index]) | _ => None end
                 | _ => follow preds' start (S index) actions' (matched ++ [index])
                 end
               else follow preds start (S index) actions' matched
           end
  end.

(** The starts at [index] and later. *)
Fixpoint candidates (index : nat) (actions : list TemporalActionEvidence)
  : list (option (list nat)) :=
  match actions with
  | [] => []
  | action :: actions' =>
      (if step_matches r 0 action then
         match drop 1 (pattern r) with
         | [] => match actions' with [] => Some [index] | _ => None end
         | preds => follow preds index (S index) actions' [index]
         end
       else None) :: candidates (S index) actions'
  end.

Definition follow_state (index : nat) (actions : list TemporalActionEvidence)
    (state : _MachineState) : option (list nat) :=
  follow (drop (next_step state) (pattern r)) (start_index state) index actions
    (ms_matched_indices state).

(** The states that a run can have before the action [index]. *)
Record live (index : nat) (state : _MachineState) : Prop := {
  live_step : next_step state < length (pattern r);
  live_start : start_index state < index;
  live_window : (Z.of_nat index <= Z.of_nat (start_index state) + within_actions r)%Z }.

Lemma advance_spec final index action actions state :
  live index state → index + length actions = final →
  match advance r final index action state with
  | Completed indices => actions = [] ∧ follow_state index (action :: actions) state = Some indices
  | Kept state' =>
      follow_state index (action :: actions) state = follow_state (S index) actions state'
      ∧ start_index state' = start_index state
      ∧ (live (S index) state')
  | Dropped => follow_state index (action :: actions) state = None
  end.
Proof.
  intros [Hstep Hstart Hwin] Hfinal. unfold advance, follow_state. cbn [follow].
  destruct (within_actions r <? Z.of_nat (index - start_index state + 1))%Z eqn:Ew; [done|].
  apply Z.ltb_ge in Ew.
  destruct (lookup_lt_is_Some_2 _ _ Hstep) as [p Hp].
  rewrite (drop_S _ _ _ Hp). unfold step_matches. rewrite Hp.
  destruct (matches p action).
  - destruct (Nat.eqb_spec (S (next_step state)) (length (pattern r))) as [He|Hne].
    + rewrite (drop_ge (pattern r)) by lia. destruct (Nat.eqb_spec index final) as [->|Hi].
      * assert (actions = []) as -> by (apply length_zero_iff_nil; lia). done.
      * destruct actions; [cbn in Hfinal; lia|done].
    + cbn [next_step start_index ms_matched_indices]. split; [|split; [done|]].
      * destruct (lookup_lt_is_Some_2 (pattern r) (S (next_step state))) as [q Hq]; [lia|].
        by rewrite (drop_S _ _ _ Hq).
      * split; cbn; lia.
  - split; [by rewrite (drop_S _ _ _ Hp)|]. split; [done|]. split; lia.
Qed.

Lemma advance_all_spec final index action actions states acc :
  Forall (live index) states → index + length actions = final →
  match advance_all r final index action states acc with
  | inl indices =>
      actions = [] ∧ first_some (map (follow_state index (action :: actions)) states)
                     = Some indices
  | inr next =>
      ∃ kept, next = acc ++ kept
        ∧ Forall (live (S index)) kept
        ∧ sublist (map start_index kept) (map start_index states)
        ∧ first_some (map (follow_state index (action :: actions)) states)
          = first_some (map (follow_state (S index) actions) kept)
  end.
Proof.
  intros Hall Hfinal. revert acc. induction Hall as [|state states Hs Hall IH]; intros acc.
  - cbn. exists []. rewrite app_nil_r. repeat split; constructor.
  - cbn [advance_all map]. rewrite first_some_cons.
    pose proof (advance_spec final index action actions state Hs Hfinal) as Ha.
    destruct (advance r final index action state) as [indices|state'|].
    + destruct Ha as [-> ->]. done.
    + destruct Ha as (-> & Hstart & Hlive). specialize (IH (acc ++ [state'])).
      destruct (advance_all _ _ _ _ states _) as [indices|next].
      * destruct IH as [-> ->]. done.
      * destruct IH as (kept & -> & Hk & Hsub & ->). exists (state' :: kept).
        rewrite <- app_assoc. split; [done|]. split; [by constructor|]. split.
        -- cbn. rewrite Hstart. by constructor.
        -- cbn [map]. by rewrite first_some_cons.
    + rewrite Ha. specialize (IH acc).
      destruct (advance_all _ _ _ _ states _) as [indices|next]; [done|].
      destruct IH as (kept & -> & Hk & Hsub & ->). exists kept. split; [done|].
      split; [done|]. split; [by constructor|done].
Qed.

(** Distinct starts inside the window are at most as many as the window is long. *)
Lemma starts_bounded lo hi l :
  StronglySorted lt l → Forall (λ s, lo ≤ s < hi) l → length l ≤ hi - lo.
Proof.
  intros Hs. revert lo. induction Hs as [|s l _ IH Hlt]; intros lo Hall; cbn; [lia|].
  apply Forall_cons in Hall as [? Hall].
  assert (length l ≤ hi - S s); [|lia]. apply IH.
  rewrite Forall_forall in Hlt, Hall |- *. intros x Hx. specialize (Hlt x Hx).
  specialize (Hall x Hx). lia.
Qed.

Lemma sorted_sublist {A} (R : relation A) l k : sublist l k → StronglySorted R k → StronglySorted R l.
Proof.
  induction 1 as [|x l k Hs IH|x l k Hs IH]; intros Hk; [done| |].
  - inversion Hk as [|? ? Hk' Hx]; subst. constructor; [by apply IH|].
    rewrite Forall_forall in Hx |- *. intros y Hy. apply Hx. by eapply elem_of_sublist.
  - inversion Hk; subst. by apply IH.
Qed.

Lemma live_bounded index states :
  (0 <= within_actions r)%Z →
  Forall (live index) states → StronglySorted lt (map start_index states) →
  length states ≤ Z.to_nat (within_actions r).
Proof.
  intros Hw Hall Hs. rewrite <- (length_map start_index).
  etrans; [apply (starts_bounded (index - Z.to_nat (within_actions r)) index)|lia]; [done|].
  apply Forall_map. eapply Forall_impl; [done|]. intros s [_ ? ?]. lia.
Qed.

Lemma last_n_all {A} n (l : list A) : length l ≤ n → last_n n l = l.
Proof. intros H. unfold last_n. by replace (length l - n) with 0 by lia. Qed.

Lemma step_matches_0 action :
  step_matches r 0 action = match pattern r with p :: _ => matches p action | [] => false end.
Proof. unfold step_matches. by destruct (pattern r). Qed.

(** The loop gives what the first successful start gives on its own: the
    states never interfere and the cut to the last [within_actions] of them
    never removes one. *)
Lemma evaluate_loop_spec actions : ∀ final index states,
  (1 <= within_actions r)%Z → pattern r ≠ [] →
  Forall (live index) states → StronglySorted lt (map start_index states) →
  index + length actions = S final →
  evaluate_loop r final index actions states
  = first_some (map (follow_state index actions) states ++ candidates index actions).
Proof.
  induction actions as [|action actions IH]; intros final index states Hw Hp Hl Hs Hf.
  - cbn [evaluate_loop candidates]. rewrite app_nil_r. symmetry.
    clear. induction states as [|s states IH]; [done|]. cbn [map]. by rewrite first_some_cons.
  - cbn [evaluate_loop candidates length] in *. rewrite first_some_app, first_some_cons.
    pose proof (advance_all_spec final index action actions states [] Hl ltac:(lia)) as Ha.
    destruct (advance_all r final index action states []) as [indices|next].
    { destruct Ha as [-> ->]. done. }
    destruct Ha as (kept & Hnext & Hk & Hsub & ->). cbn in Hnext. subst next.
    assert (StronglySorted lt (map start_index kept)) as Hks by by eapply sorted_sublist.
    assert (last_n (Z.to_nat (within_actions r)) kept = kept) as Hcut.
    { apply last_n_all. eapply live_bounded; [lia|done|done]. }
    destruct (step_matches r 0 action) eqn:Em.
    2: { rewrite Hcut, (IH final (S index) kept) by (try done; lia). by rewrite first_some_app. }
    destruct (pattern r) as [|p0 preds] eqn:Epat; [done|]. cbn [drop length].
    destruct preds as [|p1 preds]; cbn [length Nat.eqb].
    + destruct (Nat.eqb_spec index final) as [->|Hi].
      * assert (actions = []) as -> by (apply length_zero_iff_nil; lia).
        assert (first_some (map (follow_state (S final) []) kept) = None) as ->; [|done].
        clear. induction kept as [|s kept IH]; [done|]. cbn [map]. by rewrite first_some_cons.
      * destruct actions; [cbn in Hf; lia|].
        rewrite Hcut, (IH final (S index) kept) by (try done; lia). by rewrite first_some_app.
    + set (new := {| next_step := 1; start_index := index; ms_matched_indices := [index] |}).
      assert (Forall (live (S index)) (kept ++ [new])) as Hk'.
      { apply Forall_app. split; [done|]. constructor; [|done].
        split; cbn; rewrite ?Epat; cbn; lia. }
      assert (StronglySorted lt (map start_index (kept ++ [new]))) as Hks'.
      { rewrite map_app. apply StronglySorted_app_2; [|done|by repeat constructor].
        intros x y Hx ->%list_elem_of_singleton.
        apply list_elem_of_In, in_map_iff in Hx as (s & <- & Hin).
        cbn. assert (start_index s ∈ map start_index states) as Hin'.
        { eapply elem_of_sublist; [|exact Hsub]. apply list_elem_of_In, in_map_iff. eauto. }
        apply list_elem_of_In, in_map_iff in Hin' as (s' & <- & Hs').
        rewrite Forall_forall in Hl. apply list_elem_of_In in Hs'. by destruct (Hl _ Hs'). }
      rewrite last_n_all by (eapply live_bounded; [lia|done|done]).
      rewrite (IH final (S index) (kept ++ [new])) by (try done; lia).
      rewrite map_app, !first_some_app. cbn [map]. rewrite first_some_cons.
      unfold follow_state at 2. cbn [new next_step start_index ms_matched_indices].
      rewrite Epat. cbn [drop]. destruct (first_some (map _ kept)); [done|].
      by destruct (follow _ _ _ _ _).
Qed.
End machine.

Lemma mk_TemporalRule_bounds r :
  is_ok (mk_TemporalRule r) = true →
  (1 <= within_actions r <= 32)%Z ∧ pattern r ≠ []
  ∧ (Z.of_nat (length (pattern r)) <= within_actions r)%Z ∧ tr_risk r ∈ VALID_TEMPORAL_RISKS
  ∧ length (pattern r) ≤ 8.
Proof.
  destruct (mk_TemporalRule r) as [r'|] eqn:E; [|done]. intros _.
  unfold mk_TemporalRule in E. inv_res. split_bools.
  rewrite ?Z.leb_le, ?Z.ltb_ge in *. change (Z.of_nat MAX_HISTORY_ACTIONS) with 32%Z in *.
  split; [lia|]. split; [by destruct (pattern r')|].
  apply Nat.leb_le in H8. split; [lia|]. split; [by apply mem_elem_of|done].
Qed.

Lemma evaluate_rule_candidates (r : TemporalRule) (actions : list TemporalActionEvidence) :
  is_ok (mk_TemporalRule r) = true →
  evaluate_rule r actions = match_of r <$> first_some (candidates r 0 actions).
Proof.
  intros (Hw & Hp & _)%mk_TemporalRule_bounds. unfold evaluate_rule.
  destruct actions as [|action actions]; [done|].
  rewrite evaluate_loop_spec; [done|lia|done|constructor|constructor|cbn; lia].
Qed.

(** The state machine is the search it stands for.  For every rule that
    the constructor accepts, the loop over at most [within_actions] live states
    gives the same result as trying the starts one after the other, each with
    the remaining steps matched at their first opportunity inside the window:
    the earliest start whose run completes at the current action wins.  Running
    many states at once, and keeping only the last [within_actions] of them,
    never loses or invents a match. *)
Theorem evaluate_rule_search (r : TemporalRule) (actions : list TemporalActionEvidence) :
  is_ok (mk_TemporalRule r) = true →
  evaluate_rule r actions = match_of r <$> first_some (candidates r 0 actions).
Proof. apply evaluate_rule_candidates. Qed.

(** ** Soundness of a match *)

(** [indices] embeds the pattern: strictly increasing positions whose actions
    satisfy the steps. *)
Definition embeds (preds : list TemporalPredicate) (actions : list TemporalActionEvidence)
    (indices : list nat) : Prop :=
  StronglySorted lt indices
  ∧ Forall2 (λ p i, ∃ action, actions !! i = Some action ∧ matches p action = true)
      preds indices.

Lemma embeds_snoc preds p actions indices i :
  embeds preds actions indices → Forall (λ j, j < i) indices →
  (∃ action, actions !! i = Some action ∧ matches p action = true) →
  embeds (preds ++ [p]) actions (indices ++ [i]).
Proof.
  intros [Hs Hf] Hlt Hm. split.
  - apply StronglySorted_app_2; [|done|by repeat constructor].
    intros x y Hx ->%list_elem_of_singleton. rewrite Forall_forall in Hlt. by apply Hlt.
  - apply Forall2_app; [done|]. by constructor.
Qed.

Section soundness.
Context (r : TemporalRule) (all : list TemporalActionEvidence).

Lemma follow_sound actions : ∀ preds done_preds start index matched indices,
  drop index all = actions → start < index → preds ≠ [] →
  embeds done_preds all matched → Forall (λ j, j < index) matched → head matched = Some start →
  follow r preds start index actions matched = Some indices →
  embeds (done_preds ++ preds) all indices ∧ head indices = Some start
  ∧ last indices = Some (length all - 1)
  ∧ (Z.of_nat (length all - start) <= within_actions r)%Z.
Proof.
  induction actions as [|action actions IH];
    intros preds dp start index matched indices Hdrop Hlt Hne He Hbound Hhd Hf; [done|].
  assert (all !! index = Some action) as Hidx.
  { rewrite <- (Nat.add_0_r index), <- lookup_drop, Hdrop. done. }
  assert (drop (S index) all = actions) as Hdrop'.
  { rewrite (drop_S _ _ _ Hidx) in Hdrop. by injection Hdrop. }
  cbn [follow] in Hf.
  destruct (within_actions r <? Z.of_nat (index - start + 1))%Z eqn:Ew; [done|].
  apply Z.ltb_ge in Ew. destruct preds as [|p preds]; [done|].
  assert (Forall (λ j, j < S index) (matched ++ [index])) as Hb'.
  { apply Forall_app. split; [|by constructor; [lia|]].
    eapply Forall_impl; [exact Hbound|]. cbn. lia. }
  assert (Forall (λ j, j < S index) matched) as Hb''
    by (eapply Forall_impl; [exact Hbound|]; cbn; lia).
  destruct (matches p action) eqn:Em.
  - assert (embeds (dp ++ [p]) all (matched ++ [index])) as He'.
    { apply embeds_snoc; [done|done|]. by exists action. }
    assert (head (matched ++ [index]) = Some start) as Hhd' by (by destruct matched).
    destruct preds as [|p' preds].
    + destruct actions; [|done]. injection Hf as <-.
      apply lookup_lt_Some in Hidx as Hlen.
      assert (length all = S index) as Hall.
      { apply (f_equal length) in Hdrop'. rewrite length_drop in Hdrop'. cbn in Hdrop'. lia. }
      split; [done|]. split; [done|]. rewrite last_snoc, Hall. split; [f_equal; lia|lia].
    + replace (dp ++ p :: p' :: preds) with ((dp ++ [p]) ++ p' :: preds)
        by by rewrite <- app_assoc.
      eapply IH; [done|lia|done|exact He'|done|done|exact Hf].
  - eapply IH; [done|lia|done|exact He|done|done|exact Hf].
Qed.

Lemma candidates_sound actions : ∀ index indices,
  drop index all = actions → (1 <= within_actions r)%Z →
  Some indices ∈ candidates r index actions →
  embeds (pattern r) all indices ∧ last indices = Some (length all - 1)
  ∧ ∃ start, head indices = Some start
    ∧ (Z.of_nat (length all - start) <= within_actions r)%Z.
Proof.
  induction actions as [|action actions IH]; intros index indices Hdrop Hw Hin;
    [by apply not_elem_of_nil in Hin|].
  assert (all !! index = Some action) as Hidx.
  { rewrite <- (Nat.add_0_r index), <- lookup_drop, Hdrop. done. }
  assert (drop (S index) all = actions) as Hdrop'.
  { rewrite (drop_S _ _ _ Hidx) in Hdrop. by injection Hdrop. }
  cbn [candidates] in Hin. apply elem_of_cons in Hin as [Hin|Hin]; [|by eapply IH].
  rewrite step_matches_0 in Hin. destruct (pattern r) as [|p preds]; [done|].
  destruct (matches p action) eqn:Em; [|done]. cbn [drop] in Hin.
  assert (embeds [p] all [index]) as He.
  { split; [by repeat constructor|]. constructor; [by exists action|constructor]. }
  destruct preds as [|p' preds].
  - destruct actions; [|done]. injection Hin as ->.
    assert (length all = S index) as Hall.
    { apply lookup_lt_Some in Hidx. apply (f_equal length) in Hdrop'.
      rewrite length_drop in Hdrop'. cbn in Hdrop'. lia. }
    split; [done|]. rewrite Hall. split; [cbn; f_equal; lia|]. exists index. split; [done|]. lia.
  - symmetry in Hin. eapply (follow_sound actions (p' :: preds) [p] index (S index) [index])
      in Hin as (H1 & H2 & H3 & H4); [|done|lia|done|done|by repeat constructor|done].
    split; [done|]. split; [done|]. by exists index.
Qed.

(** ** Completeness *)

(** An embedding of steps into the actions from [index] on, up to the last one. *)
Definition ends_at_last (preds : list TemporalPredicate) (index : nat) (indices : list nat) : Prop :=
  embeds preds all indices ∧ Forall (λ j, index ≤ j) indices
  ∧ last indices = Some (length all - 1).

(** The embedding after the action [index]: its head is consumed there or not. *)
Lemma ends_at_last_next preds index action indices :
  ends_at_last preds index indices → all !! index = Some action →
  ends_at_last preds (S index) indices
  ∨ ∃ p preds' indices', preds = p :: preds' ∧ matches p action = true
      ∧ (preds' ≠ [] → ends_at_last preds' (S index) indices').
Proof.
  intros ((Hs & Hf) & Hge & Hlast) Ha. destruct Hf as [|p i preds indices Hm Hf]; [done|].
  apply Forall_cons in Hge as [Hi Hge]. apply StronglySorted_cons in Hs as [Hlt Hs].
  destruct (decide (i = index)) as [->|Hne].
  - right. exists p, preds, indices. split; [done|]. split.
    + destruct Hm as (a & Ha' & Hm). congruence.
    + intros Hne. destruct Hf as [|q k preds indices]; [done|].
      split; [by split; [|constructor]|]. split; [|done].
      eapply Forall_impl; [exact Hlt|]. cbn. lia.
  - left. split; [split; [by apply StronglySorted_cons|by constructor]|]. split; [|done].
    constructor; [lia|]. rewrite Forall_forall in Hlt |- *. intros k Hk.
    specialize (Hlt k Hk). lia.
Qed.

(** A run that is at least as far as some embedding completes with it, when the
    last step cannot be satisfied between its start and the last action. *)
Lemma follow_complete actions : ∀ preds ahead start index matched indices,
  drop index all = actions → start < index → preds ≠ [] →
  (Z.of_nat (length all - start) <= within_actions r)%Z →
  (∀ p i action, last preds = Some p → all !! i = Some action → start < i → S i < length all →
     matches p action = false) →
  ends_at_last (ahead ++ preds) index indices →
  is_Some (follow r preds start index actions matched).
Proof.
  induction actions as [|action actions IH];
    intros preds ahead start index matched indices Hdrop Hlt Hne Hwin Hlast He.
  { exfalso. destruct He as ((_ & Hf) & Hge & Hl). destruct indices as [|i indices]; [done|].
    apply Forall_cons in Hge as [Hi _]. inversion Hf as [|? ? ? ? (a & Ha & _)]; subst.
    apply lookup_lt_Some in Ha. apply (f_equal length) in Hdrop.
    rewrite length_drop in Hdrop. cbn in Hdrop. lia. }
  assert (all !! index = Some action) as Hidx.
  { rewrite <- (Nat.add_0_r index), <- lookup_drop, Hdrop. done. }
  assert (drop (S index) all = actions) as Hdrop'.
  { rewrite (drop_S _ _ _ Hidx) in Hdrop. by injection Hdrop. }
  pose proof (lookup_lt_Some _ _ _ Hidx) as Hlen.
  cbn [follow]. destruct (Z.ltb_spec (within_actions r) (Z.of_nat (index - start + 1))); [lia|].
  destruct preds as [|p preds]; [done|]. destruct (matches p action) eqn:Em.
  - destruct preds as [|p' preds].
    + destruct actions as [|a' actions]; [by eexists|]. exfalso.
      rewrite (Hlast p index action) in Em; [done|done|done|done|].
      apply (f_equal length) in Hdrop'. rewrite length_drop in Hdrop'. cbn in Hdrop'. lia.
    + destruct (ends_at_last_next _ _ _ _ He Hidx)
        as [He'|(q & qs & indices' & Hq & _ & He')].
      * eapply (IH (p' :: preds) (ahead ++ [p])); [done|lia|done|done|exact Hlast|].
        rewrite <- app_assoc. exact He'.
      * destruct ahead as [|q' ahead]; cbn in Hq; injection Hq as -> <-.
        -- eapply (IH (p' :: preds) []); [done|lia|done|done|exact Hlast|by apply He'].
        -- eapply (IH (p' :: preds) (ahead ++ [p])); [done|lia|done|done|exact Hlast|].
           rewrite <- app_assoc. apply He'. by destruct ahead.
  - destruct (ends_at_last_next _ _ _ _ He Hidx) as [He'|(q & qs & indices' & Hq & Hm & He')].
    + eapply (IH (p :: preds) ahead); [done|lia|done|done|exact Hlast|exact He'].
    + destruct ahead as [|q' ahead]; cbn in Hq; injection Hq as -> <-; [congruence|].
      eapply (IH (p :: preds) ahead); [done|lia|done|done|exact Hlast|].
      apply He'. by destruct ahead.
Qed.

Lemma candidates_elem actions : ∀ index start,
  drop index all = actions → index ≤ start → start < length all →
  ∃ o rest, candidates r start (drop start all) = o :: rest ∧ o ∈ candidates r index actions.
Proof.
  induction actions as [|action actions IH]; intros index start Hdrop Hle Hlt.
  { apply (f_equal length) in Hdrop. rewrite length_drop in Hdrop. cbn in Hdrop. lia. }
  assert (all !! index = Some action) as Hidx.
  { rewrite <- (Nat.add_0_r index), <- lookup_drop, Hdrop. done. }
  assert (drop (S index) all = actions) as Hdrop'.
  { rewrite (drop_S _ _ _ Hidx) in Hdrop. by injection Hdrop. }
  destruct (decide (start = index)) as [->|Hne].
  - rewrite Hdrop. cbn [candidates]. eexists _, _. split; [done|]. left.
  - destruct (IH (S index) start) as (o & rest & Ho & Hin); [done|lia|done|].
    exists o, rest. split; [done|]. cbn [candidates]. by right.
Qed.

Lemma candidates_complete indices start :
  (Z.of_nat (length all - start) <= within_actions r)%Z →
  (∀ p i action, last (pattern r) = Some p → all !! i = Some action → start < i →
     S i < length all → matches p action = false) →
  embeds (pattern r) all indices → head indices = Some start →
  last indices = Some (length all - 1) →
  is_Some (first_some (candidates r 0 all)).
Proof.
  intros Hwin Hlast [Hs Hf] Hhd Hl.
  destruct indices as [|i indices]; [done|]. injection Hhd as ->.
  destruct (pattern r) as [|p preds] eqn:Epat; [by inversion Hf|].
  inversion Hf as [|? ? ? ? (a & Ha & Hm) Hf']; subst.
  apply lookup_lt_Some in Ha as Hlen. apply StronglySorted_cons in Hs as [Hlt Hs].
  destruct (candidates_elem all 0 start) as (o & rest & Ho & Hin); [done|lia|done|].
  rewrite (drop_S _ _ _ Ha) in Ho. cbn [candidates] in Ho. injection Ho as Ho _.
  rewrite step_matches_0, Epat, Hm in Ho. cbn [drop] in Ho.
  assert (is_Some o) as [x ->]; [|by apply first_some_is_Some; exists x].
  rewrite <- Ho. clear Ho Hin. destruct preds as [|p' preds].
  - inversion Hf'; subst. cbn in Hl. injection Hl as Hl.
    rewrite (drop_ge all (S start)) by lia. by eexists.
  - destruct indices as [|k indices]; [inversion Hf'|].
    eapply (follow_complete _ (p' :: preds) [] start (S start) [start] (k :: indices));
      [done|lia|done|done|exact Hlast|].
    split; [split; [done|exact Hf']|]. split; [|done].
    eapply Forall_impl; [exact Hlt|]. cbn. lia.
Qed.
End soundness.

Lemma evaluate_rule_complete (r : TemporalRule) (actions : list TemporalActionEvidence)
    (indices : list nat) (start : nat) :
  is_ok (mk_TemporalRule r) = true →
  embeds (pattern r) actions indices → head indices = Some start →
  last indices = Some (length actions - 1) →
  (Z.of_nat (length actions - start) <= within_actions r)%Z →
  (∀ p i action, last (pattern r) = Some p → actions !! i = Some action → start < i →
     S i < length actions → matches p action = false) →
  is_Some (evaluate_rule r actions).
Proof.
  intros Hok He Hhd Hl Hwin Hlast. rewrite (evaluate_rule_candidates r actions Hok).
  destruct (candidates_complete r actions indices start) as [x ->]; try done.
Qed.

(** C25: matches are real, and are found.  When an accepted rule matches, the
    reported indices increase, each step is satisfied by the action at its
    index, the last one is the current action and the whole sequence fits in
    [within_actions]; risk, category and reason are the rule's.  Conversely, any
    such sequence makes the rule match, provided that no action between its
    first and the current one satisfies the last step. *)
Theorem evaluate_rule_correct (r : TemporalRule) (actions : list TemporalActionEvidence) :
  is_ok (mk_TemporalRule r) = true →
  (∀ m, evaluate_rule r actions = Some m →
     m = match_of r (matched_indices m)
     ∧ embeds (pattern r) actions (matched_indices m)
     ∧ last (matched_indices m) = Some (length actions - 1)
     ∧ ∃ start, head (matched_indices m) = Some start
         ∧ (Z.of_nat (length actions - start) <= within_actions r)%Z)
  ∧ ∀ indices start,
     embeds (pattern r) actions indices → head indices = Some start →
     last indices = Some (length actions - 1) →
     (Z.of_nat (length actions - start) <= within_actions r)%Z →
     (∀ p i action, last (pattern r) = Some p → actions !! i = Some action → start < i →
        S i < length actions → matches p action = false) →
     is_Some (evaluate_rule r actions).
Proof.
  intros Hok. destruct (mk_TemporalRule_bounds r Hok) as (Hw & _).
  split.
  - intros m Hm. rewrite (evaluate_rule_candidates r actions Hok) in Hm. destruct (first_some _) as [indices|] eqn:E; [|done]. injection Hm as <-.
    apply first_some_elem, (candidates_sound r actions) in E as (He & Hl & Hs);
      try done; lia.
  - intros indices start He Hhd Hl Hwin Hlast. by eapply evaluate_rule_complete.
Qed.

(** The policy looks back a bounded distance.  Only the last 32 prior
    actions can change an evaluation; every match is one of an enabled rule,
    ends at the current action and starts within 33 actions of it. *)
Theorem evaluate_policy_bounded (policy : TemporalPolicySet)
    (prior : list TemporalActionEvidence) (current : TemporalActionEvidence) :
  Forall (λ r, is_ok (mk_TemporalRule r) = true) (rules policy) →
  let evaluation := evaluate_policy (compile_temporal_policy policy) prior current in
  history_length evaluation = Nat.min 32 (length prior)
  ∧ (∀ older, 32 ≤ length prior →
       evaluate_policy (compile_temporal_policy policy) (older ++ prior) current = evaluation)
  ∧ ∀ m, m ∈ te_matches evaluation →
      ∃ r indices, r ∈ rules policy ∧ enabled r = true ∧ m = match_of r indices
        ∧ last indices = Some (history_length evaluation)
        ∧ length indices = length (pattern r) ∧ length indices ≤ 8.
Proof.
  intros Hall. cbv zeta. unfold evaluate_policy. cbn [history_length te_matches].
  assert (length (last_n MAX_HISTORY_ACTIONS prior) = Nat.min 32 (length prior)) as Hlen.
  { unfold last_n, MAX_HISTORY_ACTIONS. rewrite length_drop. lia. }
  split; [done|]. split.
  - intros older Hp. assert (last_n MAX_HISTORY_ACTIONS (older ++ prior)
      = last_n MAX_HISTORY_ACTIONS prior) as ->; [|done].
    unfold last_n. rewrite length_app, drop_app. f_equal.
    unfold MAX_HISTORY_ACTIONS. rewrite (drop_ge older) by lia. cbn. f_equal. lia.
  - intros m (r & Hr & Hm)%list_elem_of_omap. apply list_elem_of_filter in Hr as [Hen Hr].
    rewrite Forall_forall in Hall. specialize (Hall r Hr).
    rewrite (evaluate_rule_candidates r _ Hall) in Hm.
    destruct (first_some _) as [indices|] eqn:E; [|done]. injection Hm as <-.
    destruct (mk_TemporalRule_bounds r Hall) as (Hw & _ & _ & _ & Hsteps).
    apply first_some_elem, (candidates_sound r (last_n MAX_HISTORY_ACTIONS prior ++ [current]))
      in E as ([_ He] & Hl & _); [|done|lia..].
    apply Forall2_length in He. exists r, indices. do 3 (split; [done|]).
    rewrite length_app in Hl. cbn in Hl. split; [|lia].
    rewrite Hl. f_equal. lia.
Qed.

(** ** The JSON form *)

Definition clean_items (l : list string) : Prop :=
  NoDup l ∧ Forall (λ s, short_text MAX_TEMPORAL_SIGNAL_LENGTH s = true) l.

Lemma string_items_inv key items : ∀ result l,
  string_items key items result = Ok l → clean_items result →
  clean_items l ∧ length l ≤ length result + length items.
Proof.
  induction items as [|item items IH]; intros result l H Hr; cbn in H.
  - injection H as <-. split; [done|cbn; lia].
  - destruct item as [| | | |s| |]; try done.
    destruct (truthy s) eqn:Et; [|done]. cbn in H.
    destruct (fits MAX_TEMPORAL_SIGNAL_LENGTH s) eqn:Ef; [|done]. cbn in H.
    destruct (mem s result) eqn:Em.
    + destruct (IH _ _ H Hr) as [? ?]. split; [done|cbn; lia].
    + destruct (IH _ _ H) as [? Hl].
      * destruct Hr as [Hnd Hall]. apply mem_false in Em. split.
        -- apply NoDup_app. split; [done|]. split; [|apply NoDup_singleton].
           by intros x Hx ->%list_elem_of_singleton.
        -- apply Forall_app. split; [done|]. constructor; [|done].
           unfold short_text. by rewrite Et, Ef.
      * split; [done|]. rewrite length_app in Hl. cbn in *. lia.
Qed.

Lemma string_items_clean key l : ∀ result,
  clean_items (result ++ l) → string_items key (map JStr l) result = Ok (result ++ l).
Proof.
  induction l as [|s l IH]; intros result [Hnd Hall]; cbn; [by rewrite app_nil_r|].
  apply Forall_app in Hall as Hall'. destruct Hall' as [_ Hall'].
  apply Forall_cons in Hall' as [Hs _]. unfold short_text in Hs. split_bools.
  rewrite H, H0. cbn. assert (mem s result = false) as ->.
  { apply mem_false. apply NoDup_app in Hnd as (_ & Hd & _). intros Hin.
    apply (Hd s Hin). left. }
  rewrite IH; rewrite <- app_assoc; [done|]. by split.
Qed.

Lemma string_tuple_inv payload key required maximum l :
  _string_tuple payload key required maximum = Ok l →
  clean_items l ∧ length l ≤ maximum ∧ (required = true → l ≠ []).
Proof.
  unfold _string_tuple. intros H.
  destruct (field payload key) as [| | | | |items|]; try done.
  - destruct required; [done|]. injection H as <-. split; [by repeat constructor|].
    split; [cbn; lia|done].
  - inv_res. apply Nat.leb_le in H0. apply string_items_inv in H1 as [? ?]; [|by repeat constructor].
    cbn in *. destruct x0 as [|s l'].
    + destruct required; [done|]. injection H as <-. split; [done|]. split; [cbn; lia|done].
    + injection H as <-. split; [done|]. split; [lia|done].
Qed.

Lemma string_tuple_clean payload key required maximum l :
  clean_items l → length l ≤ maximum → l ≠ [] → field payload key = jstrings l →
  _string_tuple payload key required maximum = Ok l.
Proof.
  intros Hc Hl Hne Hf. unfold _string_tuple. rewrite Hf. unfold jstrings.
  rewrite length_map. assert ((length l <=? maximum) = true) as -> by by apply Nat.leb_le.
  cbn. rewrite string_items_clean by done. cbn. by destruct l.
Qed.

Lemma string_tuple_absent payload key maximum :
  field payload key = JNull → _string_tuple payload key false maximum = Ok [].
Proof. intros Hf. unfold _string_tuple. by rewrite Hf. Qed.

Lemma TemporalPredicate_stable payload p :
  TemporalPredicate_from_dict payload = Ok p →
  TemporalPredicate_from_dict (TemporalPredicate_as_dict p) = Ok p.
Proof.
  unfold TemporalPredicate_from_dict. intros H. inv_res.
  apply string_tuple_inv in H1 as (Hc1 & Hl1 & Hn1), H2 as (Hc2 & Hl2 & _),
    H3 as (Hc3 & Hl3 & _). specialize (Hn1 eq_refl).
  assert (p = Build_TemporalPredicate x0 x1 x2) as ->.
  { unfold mk_TemporalPredicate in H. by inv_res. }
  set (p := Build_TemporalPredicate x0 x1 x2) in *.
  assert (_reject_unknown (TemporalPredicate_as_dict p) ["signals_any"; "kinds"; "operations"]
    "temporal predicate" = Ok tt) as ->.
  { unfold TemporalPredicate_as_dict, p. by destruct x1, x2. }
  cbn [mbind res_bind].
  rewrite (string_tuple_clean _ "signals_any" true MAX_STEP_SIGNALS x0); [|done..|].
  2: { unfold TemporalPredicate_as_dict, p. by destruct x1, x2. }
  cbn [mbind res_bind].
  assert (_string_tuple (TemporalPredicate_as_dict p) "kinds" false MAX_STEP_VALUES = Ok x1) as ->.
  { destruct x1 as [|k ks] eqn:E1; [apply string_tuple_absent; by destruct x2|].
    apply string_tuple_clean; [done..|]. by destruct x2. }
  cbn [mbind res_bind].
  assert (_string_tuple (TemporalPredicate_as_dict p) "operations" false MAX_STEP_VALUES = Ok x2)
    as ->.
  { destruct x2 as [|k ks] eqn:E2; [apply string_tuple_absent; by destruct x1|].
    apply string_tuple_clean; [done..|]. by destruct x1. }
  cbn [mbind res_bind]. exact H.
Qed.

Lemma read_objects_stable {A} (f : list (string * json) → res A) (g : A → list (string * json))
    message items l :
  (∀ m x, f m = Ok x → f (g x) = Ok x) →
  read_objects f message items = Ok l →
  read_objects f message (map (λ x, JObj (g x)) l) = Ok l.
Proof.
  intros Hf H. apply all_ok_Forall2 in H. apply all_ok_Forall2. rewrite map_map.
  apply Forall2_fmap_l, Forall_Forall2_diag. apply Forall_forall. intros x Hx.
  apply list_elem_of_lookup in Hx as [i Hi].
  destruct (Forall2_lookup_r _ _ _ _ _ H Hi) as (m & Hm & Hr).
  apply list_lookup_fmap_Some in Hm as (j & -> & Hj).
  destruct j; try done. by eapply Hf.
Qed.

Lemma mk_TemporalRule_id r r' : mk_TemporalRule r = Ok r' → r' = r.
Proof. unfold mk_TemporalRule. intros H. by inv_res. Qed.

Lemma TemporalRule_stable payload r :
  TemporalRule_from_dict payload = Ok r →
  TemporalRule_from_dict (TemporalRule_as_dict r) = Ok r ∧ mk_TemporalRule r = Ok r.
Proof.
  unfold TemporalRule_from_dict. intros H. cbv zeta in H. inv_res.
  pose proof (mk_TemporalRule_id _ _ H) as Hr.
  rename x7 into en, x8 into preds, x6 into safer.
  split; [|by rewrite Hr in H |- *].
  rewrite Hr. unfold TemporalRule_as_dict. cbn [tr_id tr_risk tr_category within_actions pattern
    tr_reason tr_safer_next_step enabled].
  assert (opt_str_field (jstr safer) "temporal safer_next_step must be a string or null"
    = Ok safer) as Hsafer by by destruct safer.
  eapply (read_objects_stable _ _ _ _ _ TemporalPredicate_stable) in H9.
  rewrite <- Hr.
  destruct en; cbv zeta.
  all: match goal with |- mbind _ ?m = _ => assert (m = Ok tt) as -> by reflexivity end.
  all: cbn -[opt_str_field read_objects TemporalPredicate_from_dict TemporalPredicate_as_dict
    mk_TemporalRule].
  all: rewrite Hsafer; cbn -[read_objects TemporalPredicate_from_dict
    TemporalPredicate_as_dict mk_TemporalRule].
  all: rewrite H9; cbn -[mk_TemporalRule]; exact H.
Qed.

Lemma duplicate_ids_none l : ∀ seen,
  duplicate_ids seen l = [] →
  NoDup (map tr_id l) ∧ (∀ r, r ∈ l → tr_id r ∉ seen).
Proof.
  induction l as [|r l IH]; intros seen H; cbn in *.
  - split; [constructor|]. intros r Hr. by apply elem_of_nil in Hr.
  - destruct (mem (tr_id r) seen) eqn:Hm; [done|]. apply mem_false in Hm.
    apply IH in H as [Hnd Hs]. split.
    + constructor; [|done]. intros Hin. apply list_elem_of_fmap in Hin as (r' & He & Hr').
      apply (Hs r' Hr'). rewrite <- He. left.
    + intros r' [->|Hr']%elem_of_cons; [done|]. intros Hin. apply (Hs r' Hr'). by right.
Qed.

(** What a policy set that was read satisfies. *)
Record valid_policy (p : TemporalPolicySet) : Prop := {
  policy_rules_valid : ∀ r, r ∈ rules p → mk_TemporalRule r = Ok r;
  policy_ids_distinct : NoDup (map tr_id (rules p));
  policy_rules_bounded : length (rules p) ≤ MAX_TEMPORAL_RULES }.

Lemma read_objects_all {A} (P : A → Prop) f message items (l : list A) :
  (∀ m x, f m = Ok x → P x) → read_objects f message items = Ok l → ∀ x, x ∈ l → P x.
Proof.
  intros Hf H x Hx. apply all_ok_Forall2 in H. apply list_elem_of_lookup in Hx as [i Hi].
  destruct (Forall2_lookup_r _ _ _ _ _ H Hi) as (m & Hm & Hr).
  apply list_lookup_fmap_Some in Hm as (j & -> & Hj). destruct j; try done. by eapply Hf.
Qed.

Lemma mk_TemporalPolicySet_valid p p' :
  mk_TemporalPolicySet p = Ok p' →
  p' = p ∧ NoDup (map tr_id (rules p)) ∧ length (rules p) ≤ MAX_TEMPORAL_RULES.
Proof.
  unfold mk_TemporalPolicySet. intros H. inv_res. split; [done|].
  destruct (duplicate_ids [] (rules p')) eqn:Hd; [|done].
  split; [by apply duplicate_ids_none in Hd as [? _]|]. by apply Nat.leb_le.
Qed.

Lemma TemporalPolicySet_stable payload p :
  TemporalPolicySet_from_dict payload = Ok p →
  TemporalPolicySet_from_dict (TemporalPolicySet_as_dict p) = Ok p ∧ valid_policy p.
Proof.
  unfold TemporalPolicySet_from_dict. intros H. cbv zeta in H. inv_res.
  pose proof (mk_TemporalPolicySet_valid _ _ H) as (-> & Hnd & Hlen).
  match goal with H : read_objects _ _ _ = Ok _ |- _ =>
    pose proof (read_objects_all (λ r, mk_TemporalRule r = Ok r) _ _ _ _
      (λ m r Hr, proj2 (TemporalRule_stable m r Hr)) H);
    eapply (read_objects_stable _ TemporalRule_as_dict _ _ _
      (λ m r Hr, proj1 (TemporalRule_stable m r Hr))) in H as Hread end.
  split; [|by split].
  cbv zeta. cbn -[read_objects TemporalRule_from_dict TemporalRule_as_dict mk_TemporalPolicySet].
  cbn [rules policy_id version] in *. rewrite Hread. exact H.
Qed.

(** A temporal policy set read from JSON is stable: writing it and reading
    the result back gives the same policy set; every rule of it passes the
    rule's own checks (bounded window, 1 to 8 steps, a window no smaller than
    the pattern), the rule ids are distinct and there are at most 128. *)
Theorem policy_set_round_trip payload p :
  TemporalPolicySet_from_dict payload = Ok p →
  TemporalPolicySet_from_dict (TemporalPolicySet_as_dict p) = Ok p ∧ valid_policy p.
Proof. apply TemporalPolicySet_stable. Qed.

(** ** A concrete policy *)
Definition read_step : TemporalPredicate :=
  {| signals_any := ["category:secret_access"]; kinds := []; operations := [] |}.
Definition send_step : TemporalPredicate :=
  {| signals_any := ["effect:network.send"]; kinds := ["shell"]; operations := ["execute"] |}.
Definition exfiltration : TemporalRule :=
  {| tr_id := "secret-then-send"; tr_risk := "critical"; tr_category := "exfiltration";
     within_actions := 4; pattern := [read_step; send_step]; tr_reason := "secrets leave";
     tr_safer_next_step := None; enabled := true |}.
Definition exfiltration_policy : TemporalPolicySet :=
  {| policy_id := "default"; version := "1"; rules := [exfiltration] |}.
Definition shell_action (signals : list string) : TemporalActionEvidence :=
  {| ae_kind := "shell"; ae_operation := "execute"; ae_signals := list_to_set signals |}.
Definition reads : TemporalActionEvidence := shell_action ["category:secret_access"].
Definition sends : TemporalActionEvidence := shell_action ["effect:network.send"].
Definition idle : TemporalActionEvidence := shell_action [].

Lemma evaluate_rule_search_witness :
  evaluate_rule exfiltration [reads; idle; sends]
  = match_of exfiltration <$> first_some (candidates exfiltration 0 [reads; idle; sends]).
Proof. apply evaluate_rule_search. by vm_compute. Defined.

Lemma exfiltration_found : evaluate_rule exfiltration [reads; idle; sends]
  = Some (match_of exfiltration [0; 2]).
Proof. by vm_compute. Qed.

Lemma evaluate_rule_correct_witness :
  embeds (pattern exfiltration) [reads; idle; sends] [0; 2].
Proof.
  destruct (evaluate_rule_correct exfiltration [reads; idle; sends] ltac:(by vm_compute))
    as [Hs _].
  destruct (Hs _ exfiltration_found) as (_ & H & _). exact H.
Defined.

Lemma evaluate_policy_bounded_witness :
  history_length (evaluate_policy (compile_temporal_policy exfiltration_policy)
                    (replicate 40 idle ++ [reads]) sends) = 32.
Proof.
  destruct (evaluate_policy_bounded exfiltration_policy (replicate 40 idle ++ [reads]) sends)
    as (H & _); [|exact H].
  constructor; [|constructor]. by vm_compute.
Defined.

Lemma policy_set_round_trip_witness :
  TemporalPolicySet_from_dict (TemporalPolicySet_as_dict exfiltration_policy)
  = Ok exfiltration_policy.
Proof.
  assert (TemporalPolicySet_from_dict
    ([("rules", JArr [JObj (TemporalRule_as_dict exfiltration)]); ("version", JStr "1");
      ("policy_id", JStr "default");
      ("schema_version", JStr TEMPORAL_POLICY_SCHEMA_VERSION)]) = Ok exfiltration_policy) as H
    by (by vm_compute).
  exact (proj1 (policy_set_round_trip _ _ H)).
Defined.

(** A state that completes its pattern before the current action is dropped:
    the history [read; send] hides the pair (the old read, the current send),
    although both actions match their steps and are within the window. *)
Lemma completed_state_is_dropped :
  evaluate_rule exfiltration [reads; sends; sends] = None
  ∧ embeds (pattern exfiltration) [reads; sends; sends] [0; 2].
Proof.
  split; [by vm_compute|]. split.
  - repeat constructor.
  - constructor; [|constructor; [|constructor]]; eexists; (split; [done|by vm_compute]).
Qed.
