(* ===== verification/Review.v ===== *)
(** * The combined review and the agent gate
      ([ordin/trajectory.py], [ordin/review.py], [ordin/api.py], [ordin/agent.py])

    A command review starts from the risk review, lets the trajectory of prior
    actions and the stated intent raise it, and is turned into a disposition by
    the gate.  The command search ([ordin/search.py], a ranking over floating
    point scores) is a parameter: what it returns, and the comparison of a
    score with three quarters of another. *)
From stdpp Require Import base list strings gmap sets.
From Stdlib Require Import Bool Ascii ZArith Lia.
From S2P Require Import Prelude PyStr Policy Json Shell Context Regex Catalog Effects Analyzers Risk Semantics Temporal.
#[local] Open Scope py_scope.

(** ** Trajectories *)

Record ObservedAction := {
  oa_command : string;
  oa_effects : gset string;
  oa_categories : gset string;
  oa_risk : string }.

Record TrajectoryFinding := {
  tf_risk : string;
  tf_category : string;
  tf_reason : string;
  tf_safer_next_step : option string }.

Record TrajectoryEvaluation := {
  trace_length : nat;
  findings : list TrajectoryFinding }.

Definition TrajectoryEvaluation_risk (e : TrajectoryEvaluation) : res (option string) :=
  highest_risk (map tf_risk (findings e)).
Definition TrajectoryEvaluation_categories (e : TrajectoryEvaluation) : list string :=
  sorted_set (map tf_category (findings e)).

Definition observe_action (st : Store) (command : string) (context : option ExecutionContext)
    (review : option RiskReview) : res ObservedAction :=
  risk_review ← match review with
                | Some r => Ok r
                | None => check_command st command context
                end;
  semantics ← semantic_evidence_for_command st command context;
  Ok {| oa_command := command; oa_effects := list_to_set (effects semantics);
        oa_categories := list_to_set (rv_risk_categories risk_review);
        oa_risk := rv_risk risk_review |}.

Definition finding_of_match (m : TemporalMatch) : TrajectoryFinding :=
  {| tf_risk := tm_risk m; tf_category := tm_category m; tf_reason := tm_reason m;
     tf_safer_next_step := tm_safer_next_step m |}.

(** [policy] is [default_temporal_policy()], which is read from a data file. *)
Definition evaluate_trajectory (st : Store) (policy : list TemporalRule)
    (trace : option ActionTrace) (current_command : string)
    (context : option ExecutionContext) (current_review : option RiskReview)
  : res TrajectoryEvaluation :=
  match trace with
  | None => Ok {| trace_length := 0; findings := [] |}
  | Some t =>
      match trace_actions t with
      | [] => Ok {| trace_length := 0; findings := [] |}
      | actions =>
          prior ← all_ok (map (λ action, temporal_evidence_for_command st
                                           (trace_command action) context None) actions);
          current ← temporal_evidence_for_command st current_command context current_review;
          let evaluation := evaluate_policy policy prior current in
          Ok {| trace_length := length actions;
                findings := map finding_of_match (te_matches evaluation) |}
      end
  end.

(** ** Command reviews *)

Record CommandReview := {
  cr_intent : option string;
  cr_command : string;
  cr_decision : Decision;
  cr_risk : string;
  cr_reasons : list string;
  cr_safer_next_step : option string;
  cr_related_commands : list string;
  cr_intent_alignment : string;
  cr_context : option ExecutionContext;
  cr_trace : option ActionTrace;
  cr_trace_length : nat;
  cr_trajectory_categories : list string }.

#[export] Instance CommandReview_SupportsDecision : SupportsDecision CommandReview :=
  λ r, decision_str (cr_decision r).

Definition REVIEW_SCHEMA_VERSION : string := "ordin.review.v1".
Definition CommandReview_as_dict (r : CommandReview) : json :=
  JObj [("schema_version", JStr REVIEW_SCHEMA_VERSION); ("intent", jstr (cr_intent r));
        ("command", JStr (cr_command r)); ("decision", JStr (decision_str (cr_decision r)));
        ("risk", JStr (cr_risk r)); ("reasons", jstrings (cr_reasons r));
        ("safer_next_step", jstr (cr_safer_next_step r));
        ("related_commands", jstrings (cr_related_commands r));
        ("intent_alignment", JStr (cr_intent_alignment r));
        ("context", opt_json ExecutionContext_as_dict (cr_context r));
        ("trace", opt_json ActionTrace_as_dict (cr_trace r));
        ("trace_length", JInt (Z.of_nat (cr_trace_length r)));
        ("trajectory_categories", jstrings (cr_trajectory_categories r))].

(** The intent counts when it is a non-empty text. *)
Definition stated (intent : option string) : option string :=
  match intent with
  | Some i => if truthy i then Some i else None
  | None => None
  end.

(** [next((finding.safer_next_step for ... if ...), None)]. *)
Fixpoint first_safer (l : list TrajectoryFinding) : option string :=
  match l with
  | [] => None
  | f :: l' =>
      match tf_safer_next_step f with
      | Some s => if truthy s then Some s else first_safer l'
      | None => first_safer l'
      end
  end.

(** What the rest of the review works on. *)
Record Draft := {
  d_decision : Decision;
  d_risk : string;
  d_reasons : list string;
  d_safer : option string }.

Definition draft_of (risk : RiskReview) : Draft :=
  {| d_decision := rv_decision risk; d_risk := rv_risk risk; d_reasons := rv_reasons risk;
     d_safer := rv_safer_next_step risk |}.

(** [if trajectory.risk is not None: ...]. *)
Definition apply_trajectory (d : Draft) (trajectory : TrajectoryEvaluation) : res Draft :=
  risk ← TrajectoryEvaluation_risk trajectory;
  match risk with
  | None => Ok d
  | Some t =>
      review_risk ← max_risk (d_risk d) t;
      Ok {| d_decision := stronger_decision (d_decision d) (decision_for_risk t);
            d_risk := review_risk;
            d_reasons := _append_unique (d_reasons d) (map tf_reason (findings trajectory));
            d_safer :=
              if negb (review_risk =s d_risk d) then
                match first_safer (findings trajectory) with
                | Some s => Some s
                | None => d_safer d
                end
              else d_safer d |}
  end.

(** [if intent_alignment == "mismatch": ...]. *)
Definition apply_alignment (d : Draft) (alignment : string) (alignment_reasons : list string)
  : res Draft :=
  if alignment =s "mismatch" then
    review_risk ← max_risk (d_risk d) "medium";
    Ok {| d_decision := stronger_decision (d_decision d) Warn;
          d_risk := review_risk;
          d_reasons := _append_unique (d_reasons d) alignment_reasons;
          d_safer := d_safer d |}
  else Ok d.

Section review.
Context {score : Type}.
(** [a.score >= b.score * 0.75]. *)
Context (close_to : score → score → bool).

Record SearchResult := { sr_command : string; sr_score : score }.

(** [search(query, limit=3)]. *)
Context (search : string → res (list SearchResult)).

Definition warn_for_intent_mismatch (command : string) (intent : option string)
    (related : list SearchResult) : string * list string :=
  match stated intent with
  | None => ("not_provided", [])
  | Some intent =>
      match match executable_name command with
            | Some e => if truthy e then Some e else None
            | None => None
            end with
      | None => ("unknown", ["could not identify the command executable"])
      | Some executable =>
          match related with
          | [] => ("unknown", ["no command graph match found for intent " +:+ dquoted intent])
          | top :: _ =>
              let executable_result :=
                List.find (λ item, sr_command item =s executable) related in
              if match executable_result with
                 | Some item => (sr_command item =s sr_command top)
                                || close_to (sr_score item) (sr_score top)
                 | None => false
                 end
              then ("matched", [])
              else ("mismatch", ["command " +:+ dquoted executable
                                 +:+ " is not one of the top command matches for intent "
                                 +:+ dquoted intent])
          end
      end
  end.

Definition review_command (st : Store) (policy : list TemporalRule) (command : string)
    (intent : option string) (context : option ExecutionContext) (trace : option ActionTrace)
    (_risk_review : option RiskReview) : res CommandReview :=
  risk ← match _risk_review with
         | Some r => Ok r
         | None => check_command st command context
         end;
  related ← search (default command (stated intent));
  let related_commands := map sr_command related in
  let (intent_alignment, alignment_reasons) :=
    warn_for_intent_mismatch command intent related in
  trajectory ← evaluate_trajectory st policy trace command context (Some risk);
  d ← apply_trajectory (draft_of risk) trajectory;
  d ← apply_alignment d intent_alignment alignment_reasons;
  Ok {| cr_intent := intent; cr_command := command; cr_decision := d_decision d;
        cr_risk := d_risk d; cr_reasons := d_reasons d; cr_safer_next_step := d_safer d;
        cr_related_commands := related_commands; cr_intent_alignment := intent_alignment;
        cr_context := context; cr_trace := trace; cr_trace_length := trace_length trajectory;
        cr_trajectory_categories := TrajectoryEvaluation_categories trajectory |}.

(** ** The library entry point *)

(** The members of [Ordin] that a command review reads. *)
Record Ordin := {
  or_context : option ExecutionContext;
  or_trace : option ActionTrace;
  or_policy : ReviewPolicy }.

(** [a if a is not None else b]. *)
Definition or_else {A} (a b : option A) : option A :=
  match a with Some _ => a | None => b end.

Definition check (st : Store) (o : Ordin) (command : string)
    (context : option ExecutionContext) : res RiskReview :=
  check_command st command (or_else context (or_context o)).

Definition review (st : Store) (policy : list TemporalRule) (o : Ordin) (command : string)
    (intent : option string) (context : option ExecutionContext) (trace : option ActionTrace)
  : res CommandReview :=
  review_command st policy command intent (or_else context (or_context o))
    (or_else trace (or_trace o)) None.

(** [review_request] of a parsed request. *)
Definition review_request (st : Store) (policy : list TemporalRule) (o : Ordin)
    (parsed : ReviewRequest) : res CommandReview :=
  review_command st policy (rq_command parsed) (rq_intent parsed)
    (or_else (rq_context parsed) (or_context o)) (or_else (rq_trace parsed) (or_trace o)) None.

(** [Ordin.allows] of a command review, which has no provenance. *)
Definition Ordin_allows (o : Ordin) (r : CommandReview) : res bool := allows (or_policy o) r.

(** ** The agent gate *)

Inductive AgentDisposition := Execute | Escalate | Deny.
#[export] Instance AgentDisposition_eq_dec : EqDecision AgentDisposition.
Proof. solve_decision. Defined.

(** A decision on a command carries no approval: [evaluate] passes none, and
    approvals bind action reviews only. *)
Record AgentDecision := {
  disposition : AgentDisposition;
  ad_review : CommandReview }.

Definition _disposition (o : Ordin) (r : CommandReview) : res AgentDisposition :=
  if blocked (cr_decision r) then Ok Deny
  else a ← Ordin_allows o r;
       if a : bool then Ok Execute else Ok Escalate.

Definition evaluate (st : Store) (policy : list TemporalRule) (o : Ordin) (command : string)
    (intent : option string) (context : option ExecutionContext) (trace : option ActionTrace)
  : res AgentDecision :=
  r ← review st policy o command intent context trace;
  d ← _disposition o r;
  Ok {| disposition := d; ad_review := r |}.

(** The properties of [AgentDecision].  [approval_fulfilled] asks for an action
    review, so it is false here and every test of it is resolved. *)
Definition execution_eligibility (d : AgentDecision) : string :=
  if bool_decide (disposition d = Execute) then "eligible"
  else if bool_decide (disposition d = Deny) then "denied"
  else "approval_required".
Definition may_execute (d : AgentDecision) : bool := bool_decide (disposition d = Execute).
Definition requires_approval (d : AgentDecision) : bool :=
  bool_decide (disposition d = Escalate).
Definition denied (d : AgentDecision) : bool := bool_decide (disposition d = Deny).
End review.
