(* ===== verification/ReviewFacts.v ===== *)
(** * Theorems about the combined review and the gate
      ([ordin/review.py], [ordin/trajectory.py], [ordin/agent.py]) *)
From stdpp Require Import base list strings gmap sets.
From Stdlib Require Import Bool Ascii ZArith Lia.
From S2P Require Import Prelude PyStr Policy Json Shell Context Regex Catalog Effects AnalyzerBase Analyzers Risk RiskFacts Semantics Temporal TemporalFacts Review.
#[local] Open Scope py_scope.

(** ** The highest of a list of risks *)

Lemma max_by_risk_spec risks : ∀ best,
  valid_risk best = true → Forall (λ r, valid_risk r = true) risks →
  ∃ r, max_by_risk best risks = Ok r ∧ (r = best ∨ r ∈ risks) ∧ rank best ≤ rank r
    ∧ ∀ x, x ∈ risks → rank x ≤ rank r.
Proof.
  induction risks as [|x risks IH]; intros best Hb Hall; cbn.
  - exists best. split; [done|]. split; [auto|]. split; [done|].
    by intros x ?%elem_of_nil.
  - apply Forall_cons in Hall as [Hx Hall]. rewrite max_risk_valid by done. cbn.
    set (next := if rank best <? rank x then x else best).
    assert (valid_risk next = true ∧ rank best ≤ rank next ∧ rank x ≤ rank next
            ∧ (next = best ∨ next = x)) as (Hn & H1 & H2 & Hor).
    { subst next. destruct (Nat.ltb_spec (rank best) (rank x)); auto with lia. }
    destruct (IH next Hn Hall) as (r & Hr & Hin & Hle & Hmax).
    exists r. split; [done|]. split; [|split; [lia|]].
    + destruct Hin as [->|Hin]; [|right; by right].
      destruct Hor as [->| ->]; [by left|right; left].
    + intros y [->|Hy]%elem_of_cons; [lia|by apply Hmax].
Qed.

Lemma highest_risk_spec risks :
  Forall (λ r, valid_risk r = true) risks →
  match risks with
  | [] => highest_risk risks = Ok None
  | _ => ∃ r, highest_risk risks = Ok (Some r) ∧ r ∈ risks
           ∧ ∀ x, x ∈ risks → rank x ≤ rank r
  end.
Proof.
  intros Hall. destruct risks as [|x risks]; [done|].
  apply Forall_cons in Hall as [Hx Hall].
  destruct (max_by_risk_spec risks x Hx Hall) as (r & Hr & Hin & Hle & Hmax).
  exists r. cbn. unfold valid_risk in Hx. apply bool_decide_eq_true in Hx as [n ->].
  rewrite Hr. cbn. split; [done|]. split.
  - destruct Hin as [->|?]; [left|by right].
  - intros y [->|Hy]%elem_of_cons; [done|by apply Hmax].
Qed.

(** ** Risks a rule can give *)

(** The risks of temporal rules and of an intent mismatch. *)
Definition raising (risk : string) : Prop := risk ∈ VALID_TEMPORAL_RISKS.

Lemma raising_cases risk : raising risk → risk = "medium" ∨ risk = "high" ∨ risk = "critical".
Proof. unfold raising, VALID_TEMPORAL_RISKS. set_solver. Qed.

Lemma raising_valid risk : raising risk → valid_risk risk = true.
Proof. by intros [->|[->| ->]]%raising_cases. Qed.

Lemma rule_raising r : is_ok (mk_TemporalRule r) = true → raising (tr_risk r).
Proof.
  destruct (mk_TemporalRule r) eqn:H; [|done]. intros _.
  unfold mk_TemporalRule in H. inv_res. by apply mem_elem_of.
Qed.

(** Raising a consistent draft keeps it consistent. *)
Lemma stronger_raising a b c :
  valid_risk a = true → raising b → max_risk a b = Ok c →
  stronger_decision (decision_for_risk a) (decision_for_risk b) = decision_for_risk c.
Proof.
  rewrite valid_risk_cases. intros [->|[->|[->|[->| ->]]]] [->|[->| ->]]%raising_cases;
    intros [= <-]; by vm_compute.
Qed.

Definition draft_consistent (d : Draft) : Prop :=
  d_decision d = decision_for_risk (d_risk d) ∧ valid_risk (d_risk d) = true.

(** [e] is [d] raised to the highest of the risks [by_]. *)
Record raised (d : Draft) (by_ : list string) (e : Draft) : Prop := {
  raised_consistent : draft_consistent e;
  raised_from : rank (d_risk d) ≤ rank (d_risk e);
  raised_over : ∀ risk, risk ∈ by_ → rank risk ≤ rank (d_risk e);
  raised_source : d_risk e = d_risk d ∨ d_risk e ∈ by_;
  raised_reasons : d_reasons d `prefix_of` d_reasons e;
  raised_none : by_ = [] → e = d }.

Lemma raised_weaker d by_ e :
  draft_consistent d → Forall raising by_ → raised d by_ e →
  weaker (d_decision d) (d_decision e).
Proof.
  intros [Hd Hv] Hr [[He Hv'] Hle _ Hsrc _ _]. rewrite Hd, He.
  destruct (decide (d_risk d = "unknown")) as [Eu|Hu]; [|by apply decision_for_risk_mono].
  destruct Hsrc as [->|Hin]; [done|].
  rewrite Forall_forall in Hr. apply Hr in Hin. rewrite Eu.
  apply raising_cases in Hin as [->|[->| ->]]; vm_compute; lia.
Qed.

Lemma raised_trans d l1 e l2 f : raised d l1 e → raised e l2 f → raised d (l1 ++ l2) f.
Proof.
  intros [? ? Ho1 Hs1 Hr1 Hn1] [? ? Ho2 Hs2 Hr2 Hn2]. split; [done|lia| | | |].
  - intros risk [Hin|Hin]%elem_of_app; [apply Ho1 in Hin; lia|auto].
  - rewrite elem_of_app. destruct Hs2 as [->|?]; tauto.
  - by etrans.
  - intros [-> ->]%app_eq_nil. by rewrite Hn2, Hn1.
Qed.

Lemma apply_trajectory_spec d trajectory :
  draft_consistent d → Forall raising (map tf_risk (findings trajectory)) →
  ∃ e, apply_trajectory d trajectory = Ok e
    ∧ raised d (map tf_risk (findings trajectory)) e
    ∧ ∀ f, f ∈ findings trajectory → tf_reason f ∈ d_reasons e.
Proof.
  intros [Hd Hv] Hall.
  assert (Forall (λ r, valid_risk r = true) (map tf_risk (findings trajectory))) as Hvalid
    by (eapply Forall_impl; [exact Hall|apply raising_valid]).
  apply highest_risk_spec in Hvalid. unfold apply_trajectory, TrajectoryEvaluation_risk.
  destruct (findings trajectory) as [|f fs].
  { rewrite Hvalid. exists d. split; [done|]. split; [|by intros f ?%elem_of_nil].
    split; [done|done|by intros ? ?%elem_of_nil|auto|done|done]. }
  destruct Hvalid as (t & Ht & Hin & Hmax). cbn [map] in *. rewrite Ht. cbn [mbind res_bind].
  rewrite Forall_forall in Hall. pose proof (Hall t Hin) as Hraise.
  pose proof (raising_valid t Hraise) as Hvt.
  pose proof (max_risk_valid _ _ Hv Hvt) as Hm.
  destruct (max_risk_inv _ _ _ Hm) as (_ & _ & Hvc & Hrank & Hsrc).
  rewrite Hm. cbn [mbind res_bind]. eexists. split; [done|].
  set (c := if rank (d_risk d) <? rank t then t else d_risk d) in *.
  split; [split; cbn [d_decision d_risk d_reasons]|].
  - split; [|done]. cbn [d_decision d_risk]. rewrite Hd. by apply stronger_raising.
  - lia.
  - intros risk Hr. apply Hmax in Hr. lia.
  - destruct Hsrc as [->| ->]; auto.
  - apply append_unique_prefix.
  - done.
  - intros g Hg. cbn [d_reasons]. apply append_unique_elem. right.
    by apply (list_elem_of_fmap_2 tf_reason (f :: fs)).
Qed.

Lemma apply_alignment_spec d alignment reasons :
  draft_consistent d →
  ∃ e, apply_alignment d alignment reasons = Ok e
    ∧ raised d (if alignment =s "mismatch" then ["medium"] else []) e
    ∧ (alignment = "mismatch" → ∀ x, x ∈ reasons → x ∈ d_reasons e).
Proof.
  intros [Hd Hv]. unfold apply_alignment. destruct (alignment =s "mismatch") eqn:E.
  - pose proof (max_risk_valid _ "medium" Hv eq_refl) as Hm.
    destruct (max_risk_inv _ _ _ Hm) as (_ & _ & Hvc & Hrank & Hsrc).
    rewrite Hm. cbn [mbind res_bind]. eexists. split; [done|].
    set (c := if rank (d_risk d) <? rank "medium" then "medium" else d_risk d) in *.
    split; [split; cbn [d_decision d_risk d_reasons]|].
    + split; [|done]. cbn [d_decision d_risk]. rewrite Hd.
      apply (stronger_raising _ "medium"); [done|apply mem_elem_of; by vm_compute|done].
    + lia.
    + intros risk ->%list_elem_of_singleton. lia.
    + destruct Hsrc as [->| ->]; [by left|]. right. left.
    + apply append_unique_prefix.
    + done.
    + intros _ x Hx. cbn [d_reasons]. apply append_unique_elem. by right.
  - exists d. split; [done|]. split; [|intros ->; done].
    split; [done|done|by intros ? ?%elem_of_nil|auto|done|done].
Qed.

(** ** Evidence and trajectories always evaluate *)

Definition policy_ok (policy : list TemporalRule) : Prop :=
  Forall (λ r, is_ok (mk_TemporalRule r) = true) policy.

Lemma semantics_for_tokens_total st tokens context :
  store_ok st = true → is_ok (semantic_evidence_for_tokens st tokens context) = true.
Proof.
  intros Hst. destruct (semantic_evidence_total st tokens context Hst) as (i & a & H & _).
  unfold _semantic_evidence in H. unfold semantic_evidence_for_tokens.
  destruct (analyze_tokens st tokens context) as [[a'|]|]; cbn in *; [| |done].
  - destruct (an_evidence a'); [|done]. by destruct (effects_for_tokens st tokens).
  - by destruct (effects_for_tokens st tokens).
Qed.

Lemma semantics_for_command_total st command context :
  store_ok st = true → is_ok (semantic_evidence_for_command st command context) = true.
Proof.
  intros Hst. unfold semantic_evidence_for_command.
  destruct (split_shell_total command) as [[[segments ops] H]|[message H]];
    rewrite H; [|done].
  destruct (all_ok_is_ok (map (λ segment, semantic_evidence_for_tokens st segment context)
    segments)) as [xs Hxs].
  { apply Forall_forall. intros m (s & -> & _)%list_elem_of_fmap.
    by apply semantics_for_tokens_total. }
  by rewrite Hxs.
Qed.

Lemma temporal_evidence_total st command context review :
  store_ok st = true → is_ok (temporal_evidence_for_command st command context review) = true.
Proof.
  intros Hst. unfold temporal_evidence_for_command.
  destruct (check_command_ok st command context Hst) as (r & Hr & _).
  pose proof (semantics_for_command_total st command context Hst) as Hs.
  destruct (semantic_evidence_for_command st command context); [|done].
  destruct review; [done|]. by rewrite Hr.
Qed.

(** The trajectory of a trace: nothing without prior actions, otherwise the
    findings of the policy on the evidence of the actions. *)
Lemma evaluate_trajectory_inv st policy trace command context review t :
  evaluate_trajectory st policy trace command context review = Ok t →
  (t = {| trace_length := 0; findings := [] |}
   ∧ default [] (trace_actions <$> trace) = [])
  ∨ ∃ prior current,
      all_ok (map (λ action, temporal_evidence_for_command st (trace_command action) context None)
                (default [] (trace_actions <$> trace))) = Ok prior
      ∧ temporal_evidence_for_command st command context review = Ok current
      ∧ t = {| trace_length := length (default [] (trace_actions <$> trace));
               findings := map finding_of_match
                             (te_matches (evaluate_policy policy prior current)) |}.
Proof.
  unfold evaluate_trajectory. destruct trace as [tr|]; cbn [fmap option_fmap option_map default
    from_option id]; [|intros [= <-]; auto].
  destruct (trace_actions tr) as [|a l]; [intros [= <-]; auto|].
  intros H. inv_res. right. eauto 10.
Qed.

Lemma evaluate_trajectory_total st policy trace command context review :
  store_ok st = true →
  is_ok (evaluate_trajectory st policy trace command context review) = true.
Proof.
  intros Hst. unfold evaluate_trajectory. destruct trace as [tr|]; [|done].
  destruct (trace_actions tr) as [|a l]; [done|].
  destruct (all_ok_is_ok (map (λ action, temporal_evidence_for_command st
    (trace_command action) context None) (a :: l))) as [xs Hxs].
  { apply Forall_forall. intros m (s & -> & _)%list_elem_of_fmap.
    by apply temporal_evidence_total. }
  rewrite Hxs. cbn [mbind res_bind].
  pose proof (temporal_evidence_total st command context review Hst) as Hc.
  by destruct (temporal_evidence_for_command st command context review).
Qed.

Lemma evaluate_policy_rules policy prior current m :
  m ∈ te_matches (evaluate_policy policy prior current) →
  ∃ r indices, r ∈ policy ∧ m = match_of r indices.
Proof.
  cbn. intros (r & Hr & Hm)%list_elem_of_omap. exists r.
  unfold evaluate_rule in Hm. destruct (_ ++ _); [done|].
  destruct (evaluate_loop _ _ _ _ _); [|done]. cbn in Hm. injection Hm as <-. eauto.
Qed.

Lemma trajectory_raising st policy trace command context review t :
  policy_ok policy → evaluate_trajectory st policy trace command context review = Ok t →
  Forall raising (map tf_risk (findings t)).
Proof.
  intros Hp [[-> _]|(prior & current & _ & _ & ->)]%evaluate_trajectory_inv; [constructor|].
  cbn [findings]. rewrite map_map. apply Forall_forall.
  intros risk (m & -> & Hm)%list_elem_of_fmap.
  apply evaluate_policy_rules in Hm as (r & indices & Hr & ->). cbn.
  unfold policy_ok in Hp. rewrite Forall_forall in Hp. by apply rule_raising, Hp.
Qed.

(** ** The combined review *)
Section review.
Context {score : Type} (close_to : score → score → bool).
Context (search : string → res (list (SearchResult (score := score)))).

(** What a combined review [v] owes to the risk review [r] and to the
    trajectory [t]. *)
Record review_verdict (r : RiskReview) (t : TrajectoryEvaluation) (v : CommandReview) : Prop := {
  review_consistent : cr_decision v = decision_for_risk (cr_risk v);
  review_from_risk : rank (rv_risk r) ≤ rank (cr_risk v);
  review_weaker : weaker (rv_decision r) (cr_decision v);
  review_findings : ∀ f, f ∈ findings t →
    rank (tf_risk f) ≤ rank (cr_risk v) ∧ weaker Warn (cr_decision v)
    ∧ tf_reason f ∈ cr_reasons v;
  review_mismatch : cr_intent_alignment v = "mismatch" →
    rank "medium" ≤ rank (cr_risk v) ∧ weaker Warn (cr_decision v);
  review_source : cr_risk v = rv_risk r ∨ (∃ f, f ∈ findings t ∧ cr_risk v = tf_risk f)
    ∨ (cr_intent_alignment v = "mismatch" ∧ cr_risk v = "medium");
  review_reasons : rv_reasons r `prefix_of` cr_reasons v;
  review_alone : findings t = [] → cr_intent_alignment v ≠ "mismatch" →
    cr_decision v = rv_decision r ∧ cr_risk v = rv_risk r ∧ cr_reasons v = rv_reasons r
    ∧ cr_safer_next_step v = rv_safer_next_step r }.

Lemma weaker_warn_of_rank v risk :
  raising risk → valid_risk v = true → rank risk ≤ rank v → weaker Warn (decision_for_risk v).
Proof.
  intros Hr Hv Hle. etrans; [|apply (decision_for_risk_mono risk)].
  - apply raising_cases in Hr as [->|[->| ->]]; vm_compute; lia.
  - by apply raising_valid.
  - done.
  - by apply raising_cases in Hr as [->|[->| ->]].
  - done.
Qed.

Lemma prefix_in {A} (l k : list A) x : l `prefix_of` k → x ∈ l → x ∈ k.
Proof. intros [z ->] ?. apply elem_of_app. by left. Qed.

(** The verdict of the two raising steps. *)
Lemma steps_verdict r t alignment areasons :
  consistent r → Forall raising (map tf_risk (findings t)) →
  ∃ d e, apply_trajectory (draft_of r) t = Ok d ∧ apply_alignment d alignment areasons = Ok e
    ∧ ∀ v, cr_decision v = d_decision e → cr_risk v = d_risk e → cr_reasons v = d_reasons e →
        cr_safer_next_step v = d_safer e → cr_intent_alignment v = alignment →
        review_verdict r t v.
Proof.
  intros [Hc Hval] Hraise.
  assert (draft_consistent (draft_of r)) as Hd0 by done.
  destruct (apply_trajectory_spec _ t Hd0 Hraise) as (d & Hd & Hr1 & Hreasons).
  pose proof (raised_consistent _ _ _ Hr1) as Hd1.
  destruct (apply_alignment_spec d alignment areasons Hd1) as (e & He & Hr2 & Hmis).
  exists d, e. split; [done|]. split; [done|]. intros v H1 H2 H3 H4 H5.
  pose proof (raised_trans _ _ _ _ _ Hr1 Hr2) as Hr.
  assert (Forall raising (map tf_risk (findings t)
    ++ (if alignment =s "mismatch" then ["medium"] else []))) as Hall.
  { apply Forall_app. split; [done|]. case_match; [|constructor].
    constructor; [apply mem_elem_of; by vm_compute|constructor]. }
  destruct (raised_consistent _ _ _ Hr) as [Hdec Hvr].
  assert (∀ risk, risk ∈ map tf_risk (findings t)
    ++ (if alignment =s "mismatch" then ["medium"] else []) →
    rank risk ≤ rank (cr_risk v) ∧ weaker Warn (cr_decision v)) as Hover.
  { intros risk Hin. pose proof (raised_over _ _ _ Hr risk Hin) as Hle.
    rewrite H1, H2, Hdec. split; [done|]. rewrite Forall_forall in Hall.
    eapply weaker_warn_of_rank; [by apply Hall|done|done]. }
  split.
  - by rewrite H1, H2.
  - rewrite H2. apply (raised_from _ _ _ Hr).
  - rewrite H1. apply (raised_weaker (draft_of r) _ _ Hd0 Hall Hr).
  - intros f Hf. destruct (Hover (tf_risk f)) as [? ?];
      [apply elem_of_app; left; by apply (list_elem_of_fmap_2 tf_risk)|].
    split; [done|]. split; [done|]. rewrite H3. eapply prefix_in; [apply (raised_reasons _ _ _ Hr2)|].
    by apply Hreasons.
  - rewrite H5. intros ->. apply Hover. apply elem_of_app. right. left.
  - rewrite H2, H5. destruct (raised_source _ _ _ Hr) as [->|Hin]; [by left|].
    apply elem_of_app in Hin as [(f & Hf & Hin)%list_elem_of_fmap|Hin].
    + right. left. by exists f.
    + right. right. destruct (alignment =s "mismatch") eqn:E; [|by apply elem_of_nil in Hin].
      apply eqb_true in E. by apply list_elem_of_singleton in Hin.
  - rewrite H3. apply (raised_reasons _ _ _ Hr).
  - intros Hf Hm. rewrite H5 in Hm. destruct (alignment =s "mismatch") eqn:E;
      [by apply eqb_true in E|].
    rewrite Hf in Hr. rewrite H1, H2, H3, H4, (raised_none _ _ _ Hr eq_refl). done.
Qed.

Lemma alignment_of_review st policy command intent context trace rr v :
  review_command close_to search st policy command intent context trace rr = Ok v →
  ∃ related, search (default command (stated intent)) = Ok related
    ∧ cr_intent_alignment v = fst (warn_for_intent_mismatch close_to command intent related)
    ∧ cr_related_commands v = map sr_command related.
Proof.
  unfold review_command. intros H. inv_res. exists x0.
  destruct (warn_for_intent_mismatch close_to command intent x0) as [al ar]. inv_res.
  by split.
Qed.

Lemma review_command_spec st policy command intent context trace rr v :
  policy_ok policy →
  review_command close_to search st policy command intent context trace rr = Ok v →
  ∃ r t,
    (match rr with Some r => Ok r | None => check_command st command context end) = Ok r
    ∧ evaluate_trajectory st policy trace command context (Some r) = Ok t
    ∧ cr_trace_length v = trace_length t
    ∧ (consistent r → review_verdict r t v).
Proof.
  unfold review_command. intros Hp H. inv_res.
  rename x into r, x0 into related.
  destruct (warn_for_intent_mismatch close_to command intent related) as [al ar]. inv_res.
  rename x into t, x0 into d, x1 into e.
  exists r, t. split; [done|]. split; [done|]. split; [done|]. intros Hc.
  assert (Forall raising (map tf_risk (findings t))) as Hraise by by eapply trajectory_raising.
  destruct (steps_verdict r t al ar Hc Hraise) as (d' & e' & Hd & He & Hall).
  match goal with H : apply_trajectory _ _ = Ok d |- _ => rewrite H in Hd end.
  injection Hd as <-.
  match goal with H : apply_alignment _ _ _ = Ok e |- _ => rewrite H in He end.
  injection He as <-. by apply Hall.
Qed.

Lemma review_command_ok st policy command intent context trace :
  store_ok st = true → policy_ok policy → (∀ q, is_ok (search q) = true) →
  ∃ v r t, review_command close_to search st policy command intent context trace None = Ok v
    ∧ check_command st command context = Ok r
    ∧ evaluate_trajectory st policy trace command context (Some r) = Ok t
    ∧ review_verdict r t v.
Proof.
  intros Hst Hp Hs. destruct (check_command_ok st command context Hst) as (r & Hr & _).
  assert (consistent r) as Hc by by eapply check_command_consistent.
  pose proof (evaluate_trajectory_total st policy trace command context (Some r) Hst) as Ht.
  destruct (evaluate_trajectory st policy trace command context (Some r)) as [t|] eqn:Et; [|done].
  specialize (Hs (default command (stated intent))).
  destruct (search (default command (stated intent))) as [related|] eqn:Erel; [|done].
  destruct (warn_for_intent_mismatch close_to command intent related) as [al ar] eqn:Eal.
  assert (Forall raising (map tf_risk (findings t))) as Hraise by by eapply trajectory_raising.
  destruct (steps_verdict r t al ar Hc Hraise) as (d & e & Hd & He & _).
  assert (is_ok (review_command close_to search st policy command intent context trace None)
          = true) as Hok.
  { unfold review_command. rewrite Hr. cbn [mbind res_bind]. rewrite Erel. cbn [mbind res_bind].
    rewrite Eal, Et. cbn [mbind res_bind]. rewrite Hd. cbn [mbind res_bind]. by rewrite He. }
  destruct (review_command _ _ _ _ _ _ _ _ None) as [v|] eqn:Ev; [|done].
  destruct (review_command_spec _ _ _ _ _ _ _ _ Hp Ev) as (r' & t' & Hr' & Ht' & _ & Hv).
  rewrite Hr in Hr'. injection Hr' as <-. rewrite Et in Ht'. injection Ht' as <-.
  exists v, r, t. auto.
Qed.

(** C5: The combined review never weakens the risk review.  Under a usable
    catalog and a policy of valid rules, [review_command] returns for every
    command, intent, context and trace; its verdict is the one of its risk, its
    risk is at least the one of the risk review and of every trajectory
    finding, and at least [medium] on an intent mismatch, and it is one of
    these; the reasons of the risk review come first and are all kept; without
    findings and without a mismatch decision, risk, reasons and advice are
    those of the risk review. *)
Theorem review_command_dominates st policy command intent context trace :
  store_ok st = true → policy_ok policy → (∀ q, is_ok (search q) = true) →
  ∃ v r t, review_command close_to search st policy command intent context trace None = Ok v
    ∧ check_command st command context = Ok r
    ∧ evaluate_trajectory st policy trace command context (Some r) = Ok t
    ∧ review_verdict r t v.
Proof. apply review_command_ok. Qed.

(** ** The gate *)

Lemma disposition_ok o r :
  ∃ d, _disposition o r = Ok d
    ∧ (d = Deny ↔ cr_decision r = Block)
    ∧ (d = Execute ↔ ENFORCEMENT_ORDER (cr_decision r)
                     < ENFORCEMENT_ORDER (threshold_decision (fail_on (or_policy o)))).
Proof.
  unfold _disposition, Ordin_allows, allows, decision_value, decision_attr,
    CommandReview_SupportsDecision, blocked. rewrite validate_decision_str. cbn.
  destruct (cr_decision r), (fail_on (or_policy o)); cbn; eexists; (split; [done|]);
    split; split; intros; (done || lia).
Qed.

(** C6: The gate never executes what the review blocks.  For every command the
    gate gives exactly one of its three dispositions: deny precisely for a
    blocked review, execute precisely for a decision strictly below the
    threshold of the policy, escalate otherwise.  A command that the risk
    review blocks is denied whatever intent, trace and threshold; and when
    execution needs [allow] (the threshold [warn]) or when only blocks are
    stopped (the threshold [block]), a command that may be executed passes the
    threshold on the risk review alone. *)
Theorem gate_executes_allowed st policy o command intent context trace :
  store_ok st = true → policy_ok policy → (∀ q, is_ok (search q) = true) →
  ∃ d r, evaluate close_to search st policy o command intent context trace = Ok d
    ∧ check st o command context = Ok r
    ∧ (denied d = true ↔ cr_decision (ad_review d) = Block)
    ∧ (may_execute d = true
       ↔ ENFORCEMENT_ORDER (cr_decision (ad_review d))
         < ENFORCEMENT_ORDER (threshold_decision (fail_on (or_policy o))))
    ∧ (requires_approval d = true ↔ may_execute d = false ∧ denied d = false)
    ∧ (rv_decision r = Block → denied d = true)
    ∧ (may_execute d = true → fail_on (or_policy o) ≠ FailAsk →
       allows (or_policy o) r = Ok true).
Proof.
  intros Hst Hp Hs.
  destruct (review_command_ok st policy command intent (or_else context (or_context o))
    (or_else trace (or_trace o)) Hst Hp Hs) as (v & r & t & Hv & Hr & _ & Hverdict).
  destruct (disposition_ok o v) as (d & Hd & Hdeny & Hexec).
  exists {| disposition := d; ad_review := v |}, r.
  split. { unfold evaluate, review. rewrite Hv. cbn [mbind res_bind]. by rewrite Hd. }
  split; [done|]. unfold denied, may_execute, requires_approval. cbn [disposition ad_review].
  rewrite !bool_decide_eq_true, !bool_decide_eq_false.
  split; [done|]. split; [done|]. split; [destruct d; naive_solver|].
  pose proof (review_weaker _ _ _ Hverdict) as Hw. split.
  - intros Hb. apply Hdeny. rewrite Hb in Hw. by apply weaker_block.
  - intros He Hna. apply Hexec in He. unfold allows, decision_value, decision_attr,
      RiskReview_SupportsDecision. rewrite validate_decision_str. cbn [mbind res_bind].
    f_equal. apply Nat.ltb_lt. unfold weaker in Hw.
    destruct (rv_decision r), (cr_decision v), (fail_on (or_policy o)); cbn in *;
      (done || lia).
Qed.

(** The stated intent is compared with the search results.  Without a
    text there is no comparison; without a known executable or without results
    the answer is "unknown"; otherwise it is "matched" precisely when the first
    result for the executable is a result for the best command or its score is
    close to the best, and "mismatch" when not. *)
Theorem intent_alignment_cases command intent related :
  let alignment := fst (warn_for_intent_mismatch close_to command intent related) in
  (stated intent = None → alignment = "not_provided")
  ∧ ∀ i, stated intent = Some i →
    (executable_name command = None ∨ executable_name command = Some EmptyString
     ∨ related = [] → alignment = "unknown")
    ∧ ∀ e top, executable_name command = Some e → e ≠ EmptyString → head related = Some top →
      (alignment = "matched" ∨ alignment = "mismatch")
      ∧ (alignment = "matched" ↔
         ∃ before item after, related = before ++ item :: after ∧ sr_command item = e
           ∧ (∀ x, x ∈ before → sr_command x ≠ e)
           ∧ (sr_command item = sr_command top
              ∨ close_to (sr_score item) (sr_score top) = true)).
Proof.
  cbv zeta. unfold warn_for_intent_mismatch. split; [by intros ->|]. intros i ->. split.
  - intros [->|[->|E]]; [done|done|]. subst. by destruct (executable_name command) as [[]|].
  - intros e top -> He Htop. destruct e as [|c e]; [done|].
    destruct related as [|top' rest]; [done|]. injection Htop as ->. cbn [truthy negb].
    set (related := top :: rest). set (name := String c e).
    assert (∀ item, List.find (λ x, sr_command x =s name) related = Some item ↔
      ∃ before after, related = before ++ item :: after ∧ sr_command item = name
        ∧ ∀ x, x ∈ before → sr_command x ≠ name) as Hfind.
    { intros item. rewrite find_first. setoid_rewrite eqb_true.
      setoid_rewrite <- not_true_iff_false. by setoid_rewrite eqb_true. }
    destruct (List.find (λ x, sr_command x =s name) related) as [item|].
    + destruct ((sr_command item =s sr_command top) || close_to (sr_score item) (sr_score top))
        eqn:E; cbn; (split; [auto|]).
      * split; [|done]. intros _. apply orb_true_iff in E. rewrite eqb_true in E.
        destruct (proj1 (Hfind item) eq_refl) as (b & a & ? & ? & ?). by exists b, item, a.
      * split; [done|]. intros (b & it & a & H1 & H2 & H3 & H4).
        assert (Some item = Some it) as [= ->] by (apply Hfind; by exists b, a).
        apply orb_false_iff in E as [E1 E2]. destruct H4 as [H4|H4]; [|congruence].
        apply eqb_true in H4. congruence.
    + cbn. split; [auto|]. split; [done|]. intros (b & it & a & H1 & H2 & H3 & H4).
      assert (None = Some it) as [=] by (apply Hfind; by exists b, a).
Qed.
End review.
