(* ===== verification/Execution.v ===== *)
(** * Execution capabilities and observations ([ordin/execution.py])

    The advisory capability profile derived from the effects and resources of
    an action, and what a caller reports after an action was executed: their
    validation, their JSON forms and the derivation.  A mapping is an object
    with distinct keys. *)
From stdpp Require Import base list strings pretty.
From Stdlib Require Import Bool Ascii ZArith Lia.
From S2P Require Import Prelude PyStr Json.
#[local] Open Scope py_scope.

Definition EXECUTION_CAPABILITIES_SCHEMA_VERSION : string := "ordin.execution_capabilities.v1".
Definition ACTION_OBSERVATION_SCHEMA_VERSION : string := "ordin.action_observation.v1".
Definition OBSERVATION_HISTORY_SCHEMA_VERSION : string := "ordin.observation_history.v1".

Definition MAX_HISTORY_ITEMS : nat := 32.
Definition MAX_EFFECTS : nat := 128.
Definition MAX_RESOURCES : nat := 128.
Definition MAX_ID_LENGTH : nat := 128.
Definition MAX_METADATA_DEPTH : nat := 8.
Definition MAX_METADATA_ITEMS : nat := 128.
Definition MAX_METADATA_STRING_LENGTH : nat := Nat.pow 2 15.
Definition MAX_EFFECT_LENGTH : nat := 256.
#[global] Arguments MAX_METADATA_STRING_LENGTH : simpl never.

(** [^[a-z][a-z0-9_.-]*$] on the whole text. *)
Definition pattern_first (c : ascii) : bool := in_range 97 122 c.
Definition pattern_char (c : ascii) : bool :=
  in_range 97 122 c || in_range 48 57 c || mem (String c EmptyString) ["_"; "."; "-"].
Definition lower_pattern (s : string) : bool :=
  match s with
  | EmptyString => false
  | String c s' => pattern_first c && str_forall pattern_char s'
  end.
Definition RESOURCE_TYPE_PATTERN : string → bool := lower_pattern.
Definition EFFECT_PATTERN : string → bool := lower_pattern.

Definition FILESYSTEM_READ_ONLY_EFFECTS : list string :=
  ["filesystem.read"; "filesystem.metadata_read"].
Definition NETWORK_READ_ONLY_EFFECTS : list string := ["network.connect"; "network.download"].
Definition FILESYSTEM_RESOURCE_TYPES : list string := ["path"; "file"; "directory"].
Definition NETWORK_RESOURCE_TYPES : list string := ["url"; "host"; "network"; "endpoint"].

(** [ResourceLike]: what the derivation reads of a resource. *)
Class ResourceLike (R : Type) := {
  resource_type : R → string;
  resource_value : R → string }.

(** ** JSON values of metadata *)

Fixpoint _validate_json (path : string) (depth : nat) (value : json) {struct value} : res unit :=
  if MAX_METADATA_DEPTH <? depth
  then Err (ValueError (path +:+ " exceeds maximum nesting depth 8"))
  else
    match value with
    | JStr s =>
        guard_or (String.length s <=? MAX_METADATA_STRING_LENGTH)
          (ValueError (path +:+ " string must be at most 32768 characters"))
    | JArr items =>
        _ ← guard_or (length items <=? MAX_METADATA_ITEMS)
              (ValueError (path +:+ " must contain at most 128 items"));
        (fix items_loop (index : nat) (items : list json) : res unit :=
           match items with
           | [] => Ok tt
           | item :: items' =>
               _ ← _validate_json (path +:+ "[" +:+ pretty index +:+ "]") (S depth) item;
               items_loop (S index) items'
           end) 0 items
    | JObj members =>
        _ ← guard_or (length members <=? MAX_METADATA_ITEMS)
              (ValueError (path +:+ " must contain at most 128 properties"));
        (fix members_loop (members : list (string * json)) : res unit :=
           match members with
           | [] => Ok tt
           | (key, item) :: members' =>
               _ ← guard_or (truthy key) (ValueError (path +:+ " keys must be non-empty strings"));
               _ ← guard_or (String.length key <=? MAX_ID_LENGTH)
                     (ValueError (path +:+ " key must be at most 128 characters"));
               _ ← _validate_json (path +:+ "." +:+ key) (S depth) item;
               members_loop members'
           end) members
    | _ => Ok tt
    end.

Fixpoint _copy_json (value : json) : json :=
  match value with
  | JObj members => JObj (map (λ kv, (fst kv, _copy_json (snd kv))) members)
  | JArr items => JArr (map _copy_json items)
  | _ => value
  end.

Definition _validate_scope (scope name : string) : res string :=
  _ ← guard_or (truthy scope) (ValueError (name +:+ " must be non-empty text"));
  _ ← guard_or (String.length scope <=? MAX_METADATA_STRING_LENGTH)
        (ValueError (name +:+ " must be at most 32768 characters"));
  Ok scope.

Definition _validate_effect (effect : string) : res string :=
  _ ← guard_or (truthy effect) (ValueError "observation effects must be non-empty strings");
  _ ← guard_or (String.length effect <=? MAX_EFFECT_LENGTH)
        (ValueError "observation effect must be at most 256 characters");
  _ ← guard_or (EFFECT_PATTERN effect)
        (ValueError ("unsupported observation effect identifier: " +:+ repr effect));
  Ok effect.

(** ** [ExecutionCapabilityProfile] *)

(** [CapabilityAccess] is a literal type over [str]; the constructor checks it. *)
Definition CAPABILITY_ACCESS : list string := ["none"; "read"; "write"; "unknown"].

Record ExecutionCapabilityProfile := {
  filesystem : string;
  filesystem_scopes : list string;
  network : string;
  network_scopes : list string;
  privilege_escalation : option bool;
  process_execution : option bool }.
#[export] Instance ExecutionCapabilityProfile_eq_dec : EqDecision ExecutionCapabilityProfile.
Proof. solve_decision. Defined.

Definition mk_ExecutionCapabilityProfile (p : ExecutionCapabilityProfile)
  : res ExecutionCapabilityProfile :=
  _ ← guard_or (mem (filesystem p) CAPABILITY_ACCESS && mem (network p) CAPABILITY_ACCESS)
        (ValueError "capability access must be none, read, write, or unknown");
  _ ← guard_or (length (filesystem_scopes p) <=? MAX_RESOURCES)
        (ValueError "too many filesystem capability scopes");
  _ ← guard_or (length (network_scopes p) <=? MAX_RESOURCES)
        (ValueError "too many network capability scopes");
  _ ← all_ok (map (λ s, _validate_scope s "filesystem capability scope") (filesystem_scopes p));
  _ ← all_ok (map (λ s, _validate_scope s "network capability scope") (network_scopes p));
  Ok p.

Definition jbool (b : option bool) : json :=
  match b with Some b => JBool b | None => JNull end.
Definition ExecutionCapabilityProfile_as_dict (p : ExecutionCapabilityProfile) : json :=
  JObj [("schema_version", JStr EXECUTION_CAPABILITIES_SCHEMA_VERSION);
        ("filesystem", JStr (filesystem p));
        ("filesystem_scopes", JArr (map JStr (filesystem_scopes p)));
        ("network", JStr (network p));
        ("network_scopes", JArr (map JStr (network_scopes p)));
        ("privilege_escalation", jbool (privilege_escalation p));
        ("process_execution", jbool (process_execution p))].

(** [payload.get("schema_version") != SCHEMA] raises. *)
Definition require_schema (payload : json) (schema label : string) : res unit :=
  guard_or (match jget payload "schema_version" with JStr v => v =s schema | _ => false end)
    (ValueError ("unsupported " +:+ label +:+ " schema")).

(** [value not in {...}]; a list or an object cannot be hashed. *)
Definition capability_access (j : json) (message : string) : res string :=
  match j with
  | JStr s => _ ← guard_or (mem s CAPABILITY_ACCESS) (ValueError message); Ok s
  | JArr _ | JObj _ => Err (TypeError "unhashable type")
  | _ => Err (ValueError message)
  end.
(** A list of texts, read from an array. *)
Definition strings_of (j : json) (message : string) : res (list string) :=
  match j with
  | JArr l => _ ← guard_or (forallb is_str l) (ValueError message); Ok (only_strings l)
  | _ => Err (ValueError message)
  end.

Definition ExecutionCapabilityProfile_from_dict (payload : json)
  : res ExecutionCapabilityProfile :=
  _ ← reject_unknown payload
        ["schema_version"; "filesystem"; "filesystem_scopes"; "network"; "network_scopes";
         "privilege_escalation"; "process_execution"] "execution capabilities";
  _ ← require_schema payload EXECUTION_CAPABILITIES_SCHEMA_VERSION "execution capability";
  filesystem ← capability_access (jget payload "filesystem") "invalid filesystem capability";
  network ← capability_access (jget payload "network") "invalid network capability";
  filesystem_scopes ← strings_of (jget payload "filesystem_scopes")
                        "filesystem_scopes must be an array of strings";
  network_scopes ← strings_of (jget payload "network_scopes")
                     "network_scopes must be an array of strings";
  privilege ← opt_bool_field (jget payload "privilege_escalation")
                "privilege_escalation must be boolean or null";
  process_execution ← opt_bool_field (jget payload "process_execution")
                        "process_execution must be boolean or null";
  mk_ExecutionCapabilityProfile
    {| filesystem := filesystem; filesystem_scopes := filesystem_scopes; network := network;
       network_scopes := network_scopes; privilege_escalation := privilege;
       process_execution := process_execution |}.

(** ** Observations *)

Record ObservedResource := { or_type : string; or_value : string }.
#[export] Instance ObservedResource_eq_dec : EqDecision ObservedResource.
Proof. solve_decision. Defined.
#[export] Instance ObservedResource_ResourceLike : ResourceLike ObservedResource :=
  {| resource_type := or_type; resource_value := or_value |}.

Definition mk_ObservedResource (r : ObservedResource) : res ObservedResource :=
  _ ← guard_or (truthy (or_type r) && (String.length (or_type r) <=? 64)
                && RESOURCE_TYPE_PATTERN (or_type r))
        (ValueError "observed resource type must be a valid 1 to 64 character identifier");
  _ ← _validate_scope (or_value r) "observed resource value";
  Ok r.
Definition ObservedResource_as_dict (r : ObservedResource) : json :=
  JObj [("type", JStr (or_type r)); ("value", JStr (or_value r))].

(** [metadata] is a mapping, an object here. *)
Record ActionObservation := {
  ob_action_id : string;
  exit_code : option Z;
  ob_effects : list string;
  ob_resources : list ObservedResource;
  metadata : list (string * json) }.

(** The constructor; what [from_dict] passes as the exit code is any value. *)
Definition mk_ActionObservation (action_id : string) (exit_code : json) (effects : list string)
    (resources : list ObservedResource) (metadata : list (string * json))
  : res ActionObservation :=
  _ ← guard_or (truthy (strip action_id))
        (ValueError "observation action_id must be non-empty text");
  _ ← guard_or (String.length action_id <=? MAX_ID_LENGTH)
        (ValueError "observation action_id must be at most 128 characters");
  exit_code ← opt_int_field exit_code "observation exit_code must be an integer or null";
  _ ← guard_or (length effects <=? MAX_EFFECTS)
        (ValueError "observation supports at most 128 effects");
  _ ← all_ok (map _validate_effect effects);
  _ ← guard_or (length resources <=? MAX_RESOURCES)
        (ValueError "observation supports at most 128 resources");
  _ ← _validate_json "metadata" 0 (JObj metadata);
  Ok {| ob_action_id := action_id; exit_code := exit_code; ob_effects := effects;
        ob_resources := resources; metadata := members (_copy_json (JObj metadata)) |}.

Definition jint_opt (z : option Z) : json := match z with Some z => JInt z | None => JNull end.
Definition ActionObservation_as_dict (o : ActionObservation) : json :=
  JObj [("schema_version", JStr ACTION_OBSERVATION_SCHEMA_VERSION);
        ("action_id", JStr (ob_action_id o));
        ("exit_code", jint_opt (exit_code o));
        ("effects", JArr (map JStr (ob_effects o)));
        ("resources", JArr (map ObservedResource_as_dict (ob_resources o)));
        ("metadata", _copy_json (JObj (metadata o)))].

(** One resource of [from_dict]. *)
Definition read_resource (item : json) : res ObservedResource :=
  if negb (is_mapping item) then Err (ValueError "observation resources must be objects") else
  _ ← reject_unknown item ["type"; "value"] "observation resource";
  match jget item "type", jget item "value" with
  | JStr t, JStr v => mk_ObservedResource {| or_type := t; or_value := v |}
  | _, _ => Err (ValueError "observation resource requires string type and value")
  end.

Definition ActionObservation_from_dict (payload : json) : res ActionObservation :=
  _ ← reject_unknown payload
        ["schema_version"; "action_id"; "exit_code"; "effects"; "resources"; "metadata"]
        "action observation";
  _ ← require_schema payload ACTION_OBSERVATION_SCHEMA_VERSION "action observation";
  match jget payload "action_id" with
  | JStr action_id =>
      effects ← strings_of (jget_default payload "effects" (JArr []))
                  "observation effects must be an array of strings";
      match jget_default payload "resources" (JArr []) with
      | JArr resources_raw =>
          match jget_default payload "metadata" (JObj []) with
          | JObj metadata =>
              resources ← all_ok (map read_resource resources_raw);
              mk_ActionObservation action_id (jget payload "exit_code") effects resources metadata
          | _ => Err (ValueError "observation metadata must be an object")
          end
      | _ => Err (ValueError "observation resources must be an array")
      end
  | _ => Err (ValueError "observation requires string action_id")
  end.

Record ObservationHistory := { observations : list ActionObservation }.

Definition mk_ObservationHistory (l : list ActionObservation) : res ObservationHistory :=
  _ ← guard_or (length l <=? MAX_HISTORY_ITEMS)
        (ValueError "observation history maximum is 32");
  _ ← guard_or (bool_decide (NoDup (map ob_action_id l)))
        (ValueError "observation history action_id values must be unique");
  Ok {| observations := l |}.

Definition ObservationHistory_as_dict (h : ObservationHistory) : json :=
  JObj [("schema_version", JStr OBSERVATION_HISTORY_SCHEMA_VERSION);
        ("observations", JArr (map ActionObservation_as_dict (observations h)))].

Definition read_observation (item : json) : res ActionObservation :=
  if negb (is_mapping item) then Err (ValueError "observation history entries must be objects")
  else ActionObservation_from_dict item.

Definition ObservationHistory_from_dict (payload : json) : res ObservationHistory :=
  _ ← reject_unknown payload ["schema_version"; "observations"] "observation history";
  _ ← require_schema payload OBSERVATION_HISTORY_SCHEMA_VERSION "observation history";
  match jget payload "observations" with
  | JArr raw =>
      _ ← guard_or (length raw <=? MAX_HISTORY_ITEMS)
            (ValueError "observation history maximum is 32");
      l ← all_ok (map read_observation raw);
      mk_ObservationHistory l
  | _ => Err (ValueError "observation history observations must be an array")
  end.

(** The dictionary of [by_action_id]; the ids are distinct. *)
Definition by_action_id (h : ObservationHistory) : list (string * ActionObservation) :=
  foldl (λ d o, dict_set (ob_action_id o) o d) [] (observations h).

(** ** The derivation *)

Section derive.
Context {R : Type} `{ResourceLike R}.

Definition access_of (effects read_only : list string) : string :=
  match effects with
  | [] => "none"
  | _ => if forallb (λ e, mem e read_only) effects then "read" else "write"
  end.
Definition scopes_in (types : list string) (resources : list R) : list string :=
  sorted_set (map resource_value (List.filter (λ r, mem (resource_type r) types) resources)).

Definition derive_capabilities (action_kind : string) (effects : list string)
    (resources : list R) : res ExecutionCapabilityProfile :=
  if bool_decide (effects = []) && negb (action_kind =s "shell") then
    mk_ExecutionCapabilityProfile
      {| filesystem := "unknown"; filesystem_scopes := []; network := "unknown";
         network_scopes := []; privilege_escalation := None; process_execution := None |}
  else
    let filesystem_effects := List.filter (λ e, startswith e "filesystem.") effects in
    let network_effects := List.filter (λ e, startswith e "network.") effects in
    mk_ExecutionCapabilityProfile
      {| filesystem := access_of filesystem_effects FILESYSTEM_READ_ONLY_EFFECTS;
         filesystem_scopes := scopes_in FILESYSTEM_RESOURCE_TYPES resources;
         network := access_of network_effects NETWORK_READ_ONLY_EFFECTS;
         network_scopes := scopes_in NETWORK_RESOURCE_TYPES resources;
         privilege_escalation := Some (existsb (λ e, startswith e "privilege.") effects);
         process_execution :=
           Some ((action_kind =s "shell")
                 || existsb (λ e, startswith e "code." || startswith e "process.") effects) |}.
End derive.
