(* ===== verification/Provenance.v ===== *)
(** * Decision provenance ([ordin/provenance.py])

    The records that explain a decision: their validation, their JSON form,
    the redaction for an audit and the accumulation of records.  SHA-256 of a
    text is an argument. *)
From stdpp Require Import base list strings pretty.
From Stdlib Require Import Bool Ascii ZArith Lia.
From S2P Require Import Prelude PyStr Json Policy Execution.
#[local] Open Scope py_scope.

Definition PROVENANCE_SCHEMA_VERSION : string := "ordin.provenance.v1".
Definition MAX_PROVENANCE_RECORDS : nat := 512.
Definition MAX_PROVENANCE_TEXT : nat := Nat.pow 2 15.
Definition MAX_PROVENANCE_CODE : nat := 256.
Definition MAX_PROVENANCE_METADATA : nat := 64.
Definition MAX_PROVENANCE_INDICES : nat := 32.
#[global] Arguments MAX_PROVENANCE_TEXT : simpl never.
Definition VALID_RISKS : list string := ["unknown"; "low"; "medium"; "high"; "critical"].
Definition VALID_PROVENANCE_SOURCES : list string :=
  ["adapter"; "semantic"; "risk_rule"; "context"; "intent"; "observation"; "temporal_policy";
   "action_policy"; "decision"].
Definition VALID_PROVENANCE_KINDS : list string :=
  ["finding"; "effect"; "resource"; "rule"; "observation"; "merge"].

Record ProvenanceResource := { pr_type : string; pr_value : string }.
#[export] Instance ProvenanceResource_eq_dec : EqDecision ProvenanceResource.
Proof. solve_decision. Defined.

Definition mk_ProvenanceResource (type value : string) : res ProvenanceResource :=
  _ ← guard_or (truthy type && (String.length type <=? 64) && RESOURCE_TYPE_PATTERN type)
        (ValueError "provenance resource type must be a valid 1 to 64 character identifier");
  _ ← guard_or (truthy value) (ValueError "provenance resource value must be non-empty text");
  _ ← guard_or (String.length value <=? MAX_PROVENANCE_TEXT)
        (ValueError "provenance resource value is too long");
  Ok {| pr_type := type; pr_value := value |}.
Definition ProvenanceResource_as_dict (r : ProvenanceResource) : json :=
  JObj [("type", JStr (pr_type r)); ("value", JStr (pr_value r))].

(** A value of the metadata: [str | int | bool | None]. *)
Inductive scalar := SText (s : string) | SInt (z : Z) | SBool (b : bool) | SNone.
#[export] Instance scalar_eq_dec : EqDecision scalar.
Proof. solve_decision. Defined.
Definition scalar_json (x : scalar) : json :=
  match x with SText s => JStr s | SInt z => JInt z | SBool b => JBool b | SNone => JNull end.

Record ProvenanceRecord := {
  pv_source : string;
  pv_kind : string;
  pv_code : string;
  pv_summary : option string;
  pv_decision : option Decision;
  pv_risk : option string;
  pv_effect : option string;
  pv_resource : option ProvenanceResource;
  pv_rule_id : option string;
  pv_action_id : option string;
  pv_category : option string;
  pv_indices : list nat;
  pv_metadata : list (string * scalar) }.
#[export] Instance ProvenanceRecord_eq_dec : EqDecision ProvenanceRecord.
Proof. solve_decision. Defined.

(** A record with the given source, kind and code, and the defaults. *)
Definition blank_record (source kind code : string) : ProvenanceRecord :=
  {| pv_source := source; pv_kind := kind; pv_code := code; pv_summary := None;
     pv_decision := None; pv_risk := None; pv_effect := None; pv_resource := None;
     pv_rule_id := None; pv_action_id := None; pv_category := None; pv_indices := [];
     pv_metadata := [] |}.

Definition opt_fits (o : option string) : bool :=
  match o with Some s => String.length s <=? MAX_PROVENANCE_TEXT | None => true end.

(** The loop over the metadata. *)
Fixpoint check_metadata (l : list (string * scalar)) : res unit :=
  match l with
  | [] => Ok tt
  | (key, value) :: l' =>
      _ ← guard_or (truthy key && (String.length key <=? 128))
            (ValueError "provenance metadata keys must contain 1 to 128 characters");
      _ ← guard_or (match value with
                    | SText s => String.length s <=? MAX_PROVENANCE_TEXT | _ => true end)
            (ValueError "provenance metadata string is too long");
      check_metadata l'
  end.

Definition mk_ProvenanceRecord (r : ProvenanceRecord) : res ProvenanceRecord :=
  _ ← guard_or (mem (pv_source r) VALID_PROVENANCE_SOURCES)
        (ValueError ("unsupported provenance source: " +:+ repr (pv_source r)));
  _ ← guard_or (mem (pv_kind r) VALID_PROVENANCE_KINDS)
        (ValueError ("unsupported provenance kind: " +:+ repr (pv_kind r)));
  _ ← guard_or (truthy (pv_code r) && (String.length (pv_code r) <=? MAX_PROVENANCE_CODE))
        (ValueError "provenance code must contain 1 to 256 characters");
  _ ← all_ok (map (λ kv, guard_or (opt_fits (snd kv))
                           (ValueError ("provenance " +:+ fst kv +:+ " is invalid or too long")))
        [("summary", pv_summary r); ("effect", pv_effect r); ("rule_id", pv_rule_id r);
         ("action_id", pv_action_id r); ("category", pv_category r)]);
  _ ← guard_or (match pv_risk r with Some risk => mem risk VALID_RISKS | None => true end)
        (ValueError ("unsupported provenance risk: " +:+ fmt_opt (pv_risk r)));
  _ ← guard_or (length (pv_indices r) <=? MAX_PROVENANCE_INDICES)
        (ValueError "provenance matched_indices is too large");
  _ ← guard_or (length (pv_metadata r) <=? MAX_PROVENANCE_METADATA)
        (ValueError "provenance metadata must be a bounded mapping");
  _ ← check_metadata (pv_metadata r);
  Ok r.

Definition ProvenanceRecord_as_dict (r : ProvenanceRecord) : json :=
  JObj [("source", JStr (pv_source r)); ("kind", JStr (pv_kind r)); ("code", JStr (pv_code r));
        ("summary", jstr (pv_summary r)); ("decision", jstr (decision_str <$> pv_decision r));
        ("risk", jstr (pv_risk r)); ("effect", jstr (pv_effect r));
        ("resource", match pv_resource r with
                     | Some x => ProvenanceResource_as_dict x | None => JNull end);
        ("rule_id", jstr (pv_rule_id r)); ("action_id", jstr (pv_action_id r));
        ("category", jstr (pv_category r));
        ("matched_indices", JArr (map (λ i, JInt (Z.of_nat i)) (pv_indices r)));
        ("metadata", JObj (map (λ kv, (fst kv, scalar_json (snd kv))) (pv_metadata r)))].

Record DecisionProvenance := {
  records : list ProvenanceRecord;
  final_decision : Decision;
  final_risk : string }.

Definition mk_DecisionProvenance (p : DecisionProvenance) : res DecisionProvenance :=
  _ ← guard_or (mem (final_risk p) VALID_RISKS)
        (ValueError ("unsupported provenance final_risk: " +:+ repr (final_risk p)));
  _ ← guard_or (length (records p) <=? MAX_PROVENANCE_RECORDS)
        (ValueError "provenance supports at most 512 records");
  Ok p.

Definition DecisionProvenance_as_dict (p : DecisionProvenance) : json :=
  JObj [("schema_version", JStr PROVENANCE_SCHEMA_VERSION);
        ("records", JArr (map ProvenanceRecord_as_dict (records p)));
        ("final_decision", JStr (decision_str (final_decision p)));
        ("final_risk", JStr (final_risk p))].

(** [append]; an empty text of the final risk counts as none. *)
Definition append (p : DecisionProvenance) (new : list ProvenanceRecord)
    (decision : option Decision) (risk : option string) : res DecisionProvenance :=
  mk_DecisionProvenance
    {| records := records p ++ new;
       final_decision := default (final_decision p) decision;
       final_risk := or_default risk (final_risk p) |}.

Section audit.
Context (sha256 : string → string).

Definition redacted (r : ProvenanceResource) : res ProvenanceResource :=
  mk_ProvenanceResource (pr_type r) ("sha256:" +:+ sha256 (pr_value r)).

Definition record_for_audit (include_resource_values include_summaries include_action_ids : bool)
    (r : ProvenanceRecord) : res ProvenanceRecord :=
  resource ← match pv_resource r with
             | Some x => if include_resource_values then Ok (Some x)
                         else x ← redacted x; Ok (Some x)
             | None => Ok None
             end;
  mk_ProvenanceRecord
    {| pv_source := pv_source r; pv_kind := pv_kind r; pv_code := pv_code r;
       pv_summary := if include_summaries then pv_summary r else None;
       pv_decision := pv_decision r; pv_risk := pv_risk r; pv_effect := pv_effect r;
       pv_resource := resource; pv_rule_id := pv_rule_id r;
       pv_action_id := if include_action_ids then pv_action_id r else None;
       pv_category := pv_category r; pv_indices := pv_indices r; pv_metadata := pv_metadata r |}.

Definition for_audit (include_resource_values include_summaries include_action_ids : bool)
    (p : DecisionProvenance) : res DecisionProvenance :=
  rs ← all_ok (map (record_for_audit include_resource_values include_summaries include_action_ids)
                 (records p));
  mk_DecisionProvenance
    {| records := rs; final_decision := final_decision p; final_risk := final_risk p |}.
End audit.
