(* ===== verification/ActionModel.v ===== *)
(** * The data of action reviews ([ordin/action.py])

    Envelopes that describe an action, histories of envelopes, resources and
    the review of an action, with their validation and JSON forms.  A mapping
    of parameters is an object with distinct keys; the parameters are copied by
    the constructor, and a value is its own copy here. *)
From stdpp Require Import base list strings pretty.
From Stdlib Require Import Bool Ascii ZArith Lia.
From S2P Require Import Prelude PyStr Json Policy Context Temporal Execution Provenance.
#[local] Open Scope py_scope.

Definition ACTION_ENVELOPE_SCHEMA_VERSION : string := "ordin.action_envelope.v1".
Definition ACTION_HISTORY_SCHEMA_VERSION : string := "ordin.action_history.v1".
Definition ACTION_REVIEW_SCHEMA_VERSION : string := "ordin.action_review.v1".
Definition ACTION_KIND_PATTERN : string → bool := lower_pattern.
Definition MAX_ACTION_KIND_LENGTH : nat := 64.
Definition MAX_OPERATION_LENGTH : nat := 128.
Definition MAX_ACTION_ID_LENGTH : nat := 128.
Definition MAX_ACTION_HISTORY : nat := 32.
Definition MAX_PARAMETER_DEPTH : nat := 8.
Definition MAX_PARAMETER_ITEMS : nat := 128.
Definition MAX_PARAMETER_STRING_LENGTH : nat := Nat.pow 2 15.
#[global] Arguments MAX_PARAMETER_STRING_LENGTH : simpl never.
Definition KNOWN_ACTION_KINDS : list string :=
  ["shell"; "file"; "network"; "mcp"; "database"; "tool"].

Definition _validate_identifier (value name : string) (maximum : nat) (pattern : string → bool)
  : res string :=
  _ ← guard_or (truthy value) (ValueError (name +:+ " must be non-empty text"));
  _ ← guard_or (String.length value <=? maximum)
        (ValueError (name +:+ " must be at most " +:+ pretty maximum +:+ " characters"));
  _ ← guard_or (pattern value) (ValueError (name +:+ " contains unsupported characters"));
  Ok value.

(** A number that is not finite has no [json]. *)
Fixpoint _validate_json_value (path : string) (depth : nat) (value : json) {struct value}
  : res unit :=
  if MAX_PARAMETER_DEPTH <? depth
  then Err (ValueError (path +:+ " exceeds maximum nesting depth 8"))
  else
    match value with
    | JStr s =>
        guard_or (String.length s <=? MAX_PARAMETER_STRING_LENGTH)
          (ValueError (path +:+ " string must be at most 32768 characters"))
    | JArr items =>
        _ ← guard_or (length items <=? MAX_PARAMETER_ITEMS)
              (ValueError (path +:+ " must contain at most 128 items"));
        (fix items_loop (index : nat) (items : list json) : res unit :=
           match items with
           | [] => Ok tt
           | item :: items' =>
               _ ← _validate_json_value (path +:+ "[" +:+ pretty index +:+ "]") (S depth) item;
               items_loop (S index) items'
           end) 0 items
    | JObj members =>
        _ ← guard_or (length members <=? MAX_PARAMETER_ITEMS)
              (ValueError (path +:+ " must contain at most 128 properties"));
        (fix members_loop (members : list (string * json)) : res unit :=
           match members with
           | [] => Ok tt
           | (key, item) :: members' =>
               _ ← guard_or (truthy key) (ValueError (path +:+ " keys must be non-empty strings"));
               _ ← guard_or (String.length key <=? MAX_OPERATION_LENGTH)
                     (ValueError (path +:+ " key must be at most 128 characters"));
               _ ← _validate_json_value (path +:+ "." +:+ key) (S depth) item;
               members_loop members'
           end) members
    | _ => Ok tt
    end.

(** The local function [clone] of [_copy_json_mapping]. *)
Fixpoint clone (item : json) : json :=
  match item with
  | JObj members => JObj (map (λ kv, (fst kv, clone (snd kv))) members)
  | JArr items => JArr (map clone items)
  | _ => item
  end.
Definition _copy_json_mapping (value : list (string * json)) : list (string * json) :=
  map (λ kv, (fst kv, clone (snd kv))) value.

(** ** Resources *)

Record ActionResource := { ar_type : string; ar_value : string }.
#[export] Instance ActionResource_eq_dec : EqDecision ActionResource.
Proof. solve_decision. Defined.
#[export] Instance ActionResource_ResourceLike : ResourceLike ActionResource :=
  {| resource_type := ar_type; resource_value := ar_value |}.

Definition mk_ActionResource (type value : string) : res ActionResource :=
  _ ← _validate_identifier type "resource type" MAX_ACTION_KIND_LENGTH ACTION_KIND_PATTERN;
  _ ← guard_or (truthy value) (ValueError "resource value must be non-empty text");
  _ ← guard_or (String.length value <=? MAX_PARAMETER_STRING_LENGTH)
        (ValueError "resource value must be at most 32768 characters");
  Ok {| ar_type := type; ar_value := value |}.
Definition ActionResource_as_dict (r : ActionResource) : json :=
  JObj [("type", JStr (ar_type r)); ("value", JStr (ar_value r))].

(** ** Envelopes *)

Record ActionEnvelope := {
  ac_kind : string;
  ac_operation : string;
  ac_parameters : list (string * json);
  ac_intent : option string;
  ac_context : option ExecutionContext;
  ac_action_id : option string }.

(** [__post_init__]; the types of the fields are those of the record. *)
Definition mk_ActionEnvelope (a : ActionEnvelope) : res ActionEnvelope :=
  _ ← _validate_identifier (ac_kind a) "action kind" MAX_ACTION_KIND_LENGTH ACTION_KIND_PATTERN;
  _ ← _validate_identifier (ac_operation a) "action operation" MAX_OPERATION_LENGTH
        ACTION_KIND_PATTERN;
  _ ← match ac_action_id a with
      | Some action_id =>
          _ ← guard_or (truthy (strip action_id))
                (ValueError "action_id must be non-empty text or null");
          guard_or (String.length action_id <=? MAX_ACTION_ID_LENGTH)
            (ValueError "action_id must be at most 128 characters")
      | None => Ok tt
      end;
  _ ← _validate_json_value "parameters" 0 (JObj (ac_parameters a));
  Ok {| ac_kind := ac_kind a; ac_operation := ac_operation a;
        ac_parameters := _copy_json_mapping (ac_parameters a); ac_intent := ac_intent a;
        ac_context := ac_context a; ac_action_id := ac_action_id a |}.

Definition shell_envelope (command : string) (intent : option string)
    (context : option ExecutionContext) (action_id : option string) : res ActionEnvelope :=
  _ ← guard_or (truthy (strip command))
        (ValueError "shell action requires non-empty command text");
  mk_ActionEnvelope
    {| ac_kind := "shell"; ac_operation := "execute";
       ac_parameters := [("command", JStr command)]; ac_intent := intent;
       ac_context := context; ac_action_id := action_id |}.

Definition ActionEnvelope_as_dict (a : ActionEnvelope) : json :=
  JObj [("schema_version", JStr ACTION_ENVELOPE_SCHEMA_VERSION);
        ("action_id", jstr (ac_action_id a)); ("kind", JStr (ac_kind a));
        ("operation", JStr (ac_operation a));
        ("parameters", JObj (_copy_json_mapping (ac_parameters a)));
        ("intent", jstr (ac_intent a));
        ("context", opt_json ExecutionContext_as_dict (ac_context a))].

Definition ActionEnvelope_from_dict (payload : json) : res ActionEnvelope :=
  if negb (is_mapping payload) then Err (ValueError "action envelope must be a JSON object") else
  _ ← reject_unknown payload
        ["schema_version"; "action_id"; "kind"; "operation"; "parameters"; "intent"; "context"]
        "action envelope";
  _ ← guard_or (match jget payload "schema_version" with
                | JNull => true
                | JStr v => v =s ACTION_ENVELOPE_SCHEMA_VERSION
                | _ => false
                end) (ValueError "unsupported action envelope schema");
  kind ← as_str (jget payload "kind") "action envelope requires string kind";
  operation ← as_str (jget payload "operation") "action envelope requires string operation";
  match jget_default payload "parameters" (JObj []) with
  | JObj parameters =>
      intent ← opt_str_field (jget payload "intent")
                 "action envelope intent must be a string or null";
      action_id ← opt_str_field (jget payload "action_id")
                    "action envelope action_id must be a string or null";
      context ← ExecutionContext_from_dict (jget payload "context");
      mk_ActionEnvelope
        {| ac_kind := kind; ac_operation := operation; ac_parameters := parameters;
           ac_intent := intent; ac_context := context; ac_action_id := action_id |}
  | _ => Err (ValueError "action envelope parameters must be a JSON object")
  end.

(** ** Histories *)

Record ActionHistory := { hi_actions : list ActionEnvelope }.

Definition mk_ActionHistory (actions : list ActionEnvelope) : res ActionHistory :=
  _ ← guard_or (length actions <=? MAX_ACTION_HISTORY)
        (ValueError "action history maximum is 32");
  Ok {| hi_actions := actions |}.

Definition ActionHistory_as_dict (h : ActionHistory) : json :=
  JObj [("schema_version", JStr ACTION_HISTORY_SCHEMA_VERSION);
        ("actions", JArr (map ActionEnvelope_as_dict (hi_actions h)))].

Definition read_action (item : json) : res ActionEnvelope :=
  if negb (is_mapping item) then Err (ValueError "action history entries must be JSON objects")
  else ActionEnvelope_from_dict item.

Definition ActionHistory_from_dict (payload : json) : res ActionHistory :=
  if negb (is_mapping payload) then Err (ValueError "action history must be a JSON object") else
  _ ← reject_unknown payload ["schema_version"; "actions"] "action history";
  _ ← require_schema payload ACTION_HISTORY_SCHEMA_VERSION "action history";
  match jget payload "actions" with
  | JArr actions_raw =>
      _ ← guard_or (length actions_raw <=? MAX_ACTION_HISTORY)
            (ValueError "action history maximum is 32");
      actions ← all_ok (map read_action actions_raw);
      mk_ActionHistory actions
  | _ => Err (ValueError "action history actions must be an array")
  end.

(** ** Reviews *)

(** [policy] and [policy_matches] are what a policy records of itself. *)
Record ActionReview := {
  av_action : ActionEnvelope;
  av_decision : Decision;
  av_risk : string;
  av_reasons : list string;
  av_safer_next_step : option string;
  av_effects : list string;
  av_resources : list ActionResource;
  av_adapter : option string;
  av_capabilities : option ExecutionCapabilityProfile;
  av_provenance : option DecisionProvenance;
  av_intent_alignment : string;
  av_trajectory_categories : list string;
  av_policy : option (list (string * string));
  av_policy_matches : list json }.

#[export] Instance ActionReview_SupportsDecision : SupportsDecision ActionReview :=
  λ r, decision_str (av_decision r).

(** A review with the defaults of the last six fields. *)
Definition plain_review (action : ActionEnvelope) (decision : Decision) (risk : string)
    (reasons : list string) (safer : option string) (effects : list string)
    (resources : list ActionResource) (adapter : option string) : ActionReview :=
  {| av_action := action; av_decision := decision; av_risk := risk; av_reasons := reasons;
     av_safer_next_step := safer; av_effects := effects; av_resources := resources;
     av_adapter := adapter; av_capabilities := None; av_provenance := None;
     av_intent_alignment := "not_applicable"; av_trajectory_categories := [];
     av_policy := None; av_policy_matches := [] |}.

(** [dataclasses.replace] on one or two fields. *)
Definition with_capabilities (c : ExecutionCapabilityProfile) (r : ActionReview) : ActionReview :=
  {| av_action := av_action r; av_decision := av_decision r; av_risk := av_risk r;
     av_reasons := av_reasons r; av_safer_next_step := av_safer_next_step r;
     av_effects := av_effects r; av_resources := av_resources r; av_adapter := av_adapter r;
     av_capabilities := Some c; av_provenance := av_provenance r;
     av_intent_alignment := av_intent_alignment r;
     av_trajectory_categories := av_trajectory_categories r; av_policy := av_policy r;
     av_policy_matches := av_policy_matches r |}.
Definition with_provenance (p : DecisionProvenance) (r : ActionReview) : ActionReview :=
  {| av_action := av_action r; av_decision := av_decision r; av_risk := av_risk r;
     av_reasons := av_reasons r; av_safer_next_step := av_safer_next_step r;
     av_effects := av_effects r; av_resources := av_resources r; av_adapter := av_adapter r;
     av_capabilities := av_capabilities r; av_provenance := Some p;
     av_intent_alignment := av_intent_alignment r;
     av_trajectory_categories := av_trajectory_categories r; av_policy := av_policy r;
     av_policy_matches := av_policy_matches r |}.

Definition ActionReview_as_dict (r : ActionReview) : json :=
  JObj ([("schema_version", JStr ACTION_REVIEW_SCHEMA_VERSION);
         ("action", ActionEnvelope_as_dict (av_action r));
         ("decision", JStr (decision_str (av_decision r))); ("risk", JStr (av_risk r));
         ("reasons", jstrings (av_reasons r)); ("safer_next_step", jstr (av_safer_next_step r));
         ("effects", jstrings (av_effects r));
         ("resources", JArr (map ActionResource_as_dict (av_resources r)));
         ("adapter", jstr (av_adapter r));
         ("capabilities", opt_json ExecutionCapabilityProfile_as_dict (av_capabilities r));
         ("provenance", opt_json DecisionProvenance_as_dict (av_provenance r));
         ("intent_alignment", JStr (av_intent_alignment r));
         ("trajectory_categories", jstrings (av_trajectory_categories r))]
        ++ match av_policy r with
           | Some policy => [("policy", JObj (map (λ kv, (fst kv, JStr (snd kv))) policy))]
           | None => []
           end
        ++ match av_policy_matches r with
           | [] => []
           | matches => [("policy_matches", JArr matches)]
           end).
