(* ===== verification/RequestReaders.v ===== *)
(** * What action reviews ask about protocol requests

    The interface between the review of an action ([ordin/action.py]) and the
    readers of REST, GraphQL and JSON-RPC requests ([ordin/_rest_semantics.py],
    [ordin/runtime_requests.py], [ordin/_graphql_authority.py],
    [ordin/_request_commitment.py]).  A review only asks whether a request is
    well formed, where it goes and what it selects, and the class states that
    it may rely on nothing else. *)
From stdpp Require Import base list strings.
From Stdlib Require Import ZArith.
From S2P Require Import Prelude PyStr Json.
#[local] Open Scope py_scope.

(** What [prepare_rest] returns: endpoint, method, commitment, and whether the
    request only reads. *)
Record RestRequest := {
  rest_endpoint : string * Z * string;
  rest_method : string;
  rest_commitment : string;
  rest_reading : bool }.

(** An operation of [graphql_authorities]. *)
Record GraphQLAuthority := {
  operation_type : string;
  operation_name : option string;
  authority_fields : list string }.

Class RequestReaders := {
  prepare_rest : json → res RestRequest;
  (** operation kind, name and root fields of a query *)
  graphql_operation : json → option (string * string * list string);
  request_endpoint : json → option (string * Z * string);
  graphql_authorities : json → res (list GraphQLAuthority);
  request_commitment : json → res string;
  rpc_body_commitment : json → res string }.

(** [MCP_VERSIONS] of [runtime_requests.py]. *)
Definition MCP_VERSIONS : list string := ["2025-03-26"; "2025-06-18"; "2025-11-25"].
