(* ===== verification/Commitment.v ===== *)
(** * Commitments to request authority ([ordin/_request_commitment.py])

    A commitment hashes the typed bytes of a JSON tree.  [walk] writes the
    bytes under the limits of the code, on the sorted tree.  SHA-256 and the
    decimal that spells a float are arguments; [Decimal] values and raw bodies
    ([commitment_json]) do not reach the reviews and are not modelled. *)
From stdpp Require Import base list strings pretty sorting.
From Stdlib Require Import Bool Ascii ZArith NArith QArith Lia.
From S2P Require Import Prelude PyStr Json JsonText.
#[local] Open Scope py_scope.
#[local] Open Scope nat_scope.

Definition MAX_COMMITMENT_BYTES : nat := Nat.pow 2 20.
Definition MAX_COMMITMENT_NODES : nat := Nat.pow 2 12.
Definition MAX_COMMITMENT_DEPTH : nat := 32.
Definition MAX_COMMITMENT_ITEMS : nat := 128.
Definition MAX_COMMITMENT_TEXT_BYTES : nat := Nat.pow 2 16.
Definition MAX_NUMBER_DIGITS : nat := Nat.pow 2 10.
Definition MAX_NUMBER_EXPONENT : Z := 10000.
#[global] Arguments MAX_COMMITMENT_BYTES : simpl never.
#[global] Arguments MAX_COMMITMENT_NODES : simpl never.
#[global] Arguments MAX_COMMITMENT_TEXT_BYTES : simpl never.
#[global] Arguments MAX_NUMBER_DIGITS : simpl never.

Definition commitment_invalid : exn := ValueError "request_commitment_invalid".

(** ** Decimals *)

(** [Decimal.as_tuple()] of a finite decimal, with the digits as their number. *)
Record Decimal := { dc_negative : bool; dc_coefficient : N; dc_exponent : Z }.

Definition digit_count (n : N) : nat := String.length (pretty n).

(** The loop that takes the zeros off the coefficient. *)
Fixpoint strip_zeros (fuel : nat) (coefficient : N) (exponent : Z) : N * Z :=
  match fuel with
  | O => (coefficient, exponent)
  | S fuel =>
      if (coefficient mod 10 =? 0)%N
      then strip_zeros fuel (coefficient / 10)%N (exponent + 1)
      else (coefficient, exponent)
  end.
Definition normal_decimal (d : Decimal) : Decimal :=
  if (dc_coefficient d =? 0)%N
  then {| dc_negative := dc_negative d; dc_coefficient := 0; dc_exponent := 0 |}
  else let '(coefficient, exponent) :=
         strip_zeros (digit_count (dc_coefficient d)) (dc_coefficient d) (dc_exponent d) in
       {| dc_negative := dc_negative d; dc_coefficient := coefficient; dc_exponent := exponent |}.

Definition decimal_text (d : Decimal) : string :=
  "d" +:+ (if dc_negative d then "1" else "0") +:+ ":" +:+ pretty (dc_coefficient d)
  +:+ ":" +:+ pretty (dc_exponent d) +:+ ";".
Definition exponent_fits (e : Z) : bool := (Z.abs e <=? MAX_NUMBER_EXPONENT)%Z.
Definition _decimal_token (d : Decimal) : res string :=
  _ ← guard_or ((digit_count (dc_coefficient d) <=? MAX_NUMBER_DIGITS)
                && exponent_fits (dc_exponent d)) commitment_invalid;
  let n := normal_decimal d in
  _ ← guard_or (exponent_fits (dc_exponent n)) commitment_invalid;
  Ok (decimal_text n).

(** ** The bytes of a tree *)

(** The nodes visited and the bytes written so far. *)
Record Written := { nodes : nat; bytes : string }.

Definition write (data : string) (w : Written) : res Written :=
  let written := bytes w +:+ data in
  _ ← guard_or (String.length written <=? MAX_COMMITMENT_BYTES) commitment_invalid;
  Ok {| nodes := nodes w; bytes := written |}.

Definition text (value : string) : res string :=
  let encoded := utf8 value in
  _ ← guard_or (String.length encoded <=? MAX_COMMITMENT_TEXT_BYTES) commitment_invalid;
  Ok encoded.

(** [n] and the length-framed bytes of a text. *)
Definition framed (encoded : string) : string :=
  "s" +:+ pretty (N.of_nat (String.length encoded)) +:+ ":" +:+ encoded.

Definition enter (depth : nat) (w : Written) : res Written :=
  let w := {| nodes := S (nodes w); bytes := bytes w |} in
  _ ← guard_or ((nodes w <=? MAX_COMMITMENT_NODES) && (depth <=? MAX_COMMITMENT_DEPTH))
        commitment_invalid;
  Ok w.

(** [item.bit_length() <= 3402] and at most 1024 digits. *)
Definition int_fits (z : Z) : bool :=
  (Z.abs z <? Z.pow 2 3402)%Z && (digit_count (Z.abs_N z) <=? MAX_NUMBER_DIGITS).

Section walk.
Context (float_decimal : Q → Decimal).

Definition walk_text (value : string) (depth : nat) (w : Written) : res Written :=
  w ← enter depth w;
  encoded ← text value;
  write (framed encoded) w.

Fixpoint walk (item : json) (depth : nat) (w : Written) : res Written :=
  match item with
  | JNull => w ← enter depth w; write "n" w
  | JBool b => w ← enter depth w; write (if b then "t" else "f") w
  | JInt z =>
      w ← enter depth w;
      _ ← guard_or (int_fits z) commitment_invalid;
      write ("i" +:+ pretty z +:+ ";") w
  | JFloat q => w ← enter depth w; token ← _decimal_token (float_decimal q); write token w
  | JStr s => walk_text s depth w
  | JObj members =>
      w ← enter depth w;
      _ ← guard_or (length members <=? MAX_COMMITMENT_ITEMS) commitment_invalid;
      w ← write ("o" +:+ pretty (N.of_nat (length members)) +:+ ":") w;
      w ← (fix go (members : list (string * json)) (w : Written) : res Written :=
             match members with
             | [] => Ok w
             | (key, child) :: members' =>
                 w ← walk_text key (S depth) w; w ← walk child (S depth) w; go members' w
             end) members w;
      write ";" w
  | JArr items =>
      w ← enter depth w;
      _ ← guard_or (length items <=? MAX_COMMITMENT_ITEMS) commitment_invalid;
      w ← write ("l" +:+ pretty (N.of_nat (length items)) +:+ ":") w;
      w ← (fix go (items : list json) (w : Written) : res Written :=
             match items with
             | [] => Ok w
             | child :: items' => w ← walk child (S depth) w; go items' w
             end) items w;
      write ";" w
  end.

(** ** Commitments *)
Context (sha256 : string → string).

Definition COMMITMENT_PREFIX : string := "ordin.authority-json.v1" +:+ String (ascii_of_N 0) "".
Definition request_commitment (value : json) : res string :=
  w ← walk (sort_keys value) 0 {| nodes := 0; bytes := "" |};
  Ok (sha256 (COMMITMENT_PREFIX +:+ bytes w)).

Definition method_char (c : ascii) : bool :=
  (32 <? code c)%N && negb (code c =? 127)%N && negb (Ascii.eqb c "*"%char).

(** Every refusal of a message is the same error. *)
Definition _rpc_projection (message : json) : res json :=
  match message with
  | JObj m =>
      _ ← guard_or (forallb (λ kv, mem (fst kv) ["jsonrpc"; "id"; "method"; "params"]) m)
            commitment_invalid;
      match assoc_last "jsonrpc" m, assoc_last "method" m with
      | Some (JStr version), Some (JStr method) =>
          _ ← guard_or ((version =s "2.0") && truthy method && (String.length method <=? 128)
                        && str_forall method_char method) commitment_invalid;
          _ ← guard_or (match assoc_last "id" m with
                        | None | Some (JNull | JStr _ | JInt _ | JFloat _) => true
                        | _ => false
                        end) commitment_invalid;
          _ ← guard_or (match assoc_last "params" m with
                        | None | Some (JNull | JObj _ | JArr _) => true
                        | _ => false
                        end) commitment_invalid;
          _ ← request_commitment message;
          Ok (JObj ([("kind", JStr (match assoc_last "id" m with
                                    | Some _ => "request" | None => "notification" end));
                     ("method", JStr method)]
                    ++ match assoc_last "params" m with
                       | Some params => [("params", params)]
                       | None => []
                       end))
      | _, _ => Err commitment_invalid
      end
  | _ => Err commitment_invalid
  end.

Definition rpc_authority_commitment (message : json) : res string :=
  projection ← _rpc_projection message; request_commitment projection.

Definition rpc_body_commitment (body : json) : res string :=
  _ ← request_commitment body;
  match body with
  | JArr messages =>
      _ ← guard_or (negb (bool_decide (messages = []))
                    && (length messages <=? MAX_COMMITMENT_ITEMS)) commitment_invalid;
      projections ← all_ok (map _rpc_projection messages);
      request_commitment (JArr projections)
  | _ => projection ← _rpc_projection body; request_commitment projection
  end.
End walk.

(** ** A commitment determines the request *)

#[local] Open Scope py_scope.
#[local] Open Scope nat_scope.

(** ** Decimals *)

(** The same sign and the same number, whatever the digits and the exponent. *)
Definition same_value (d d' : Decimal) : Prop :=
  let e := Z.min (dc_exponent d) (dc_exponent d') in
  dc_negative d = dc_negative d' ∧
  (Z.of_N (dc_coefficient d) * 10 ^ (dc_exponent d - e)
   = Z.of_N (dc_coefficient d') * 10 ^ (dc_exponent d' - e))%Z.

Lemma pretty_go_bound x : ∀ s,
  (x < 10 ^ N.of_nat (String.length (pretty_N_go x s) - String.length s))%N ∧
  String.length s ≤ String.length (pretty_N_go x s).
Proof.
  induction (N.lt_wf_0 x) as [x _ IH]. intros s. destruct (decide (0 < x)%N) as [Hx|Hx].
  - rewrite pretty_N_go_step by done.
    destruct (IH (x / 10)%N (N.div_lt x 10 Hx eq_refl) (String (pretty_N_char (x mod 10)) s))
      as [Hlt Hle]. cbn [String.length] in *.
    set (n := String.length (pretty_N_go _ _)) in *. split; [|lia].
    replace (N.of_nat (n - String.length s)) with (N.succ (N.of_nat (n - S (String.length s)))) by lia.
    rewrite N.pow_succ_r'. pose proof (N.div_mod x 10 ltac:(done)).
    pose proof (N.mod_lt x 10 ltac:(done)). nia.
  - assert (x = 0%N) as -> by lia. rewrite pretty_N_go_0. split; [|done]. rewrite Nat.sub_diag. done.
Qed.
Lemma digit_count_bound n : (n < 10 ^ N.of_nat (digit_count n))%N.
Proof.
  unfold digit_count, pretty, pretty_N. destruct (decide (n = 0%N)) as [->|]; [done|].
  destruct (pretty_go_bound n "") as [H _]. cbn in H. by rewrite Nat.sub_0_r in H.
Qed.

Lemma strip_zeros_spec fuel : ∀ n e, (0 < n < 10 ^ N.of_nat fuel)%N →
  ∃ k, (n = fst (strip_zeros fuel n e) * 10 ^ k)%N
       ∧ (snd (strip_zeros fuel n e) = e + Z.of_N k)%Z
       ∧ (fst (strip_zeros fuel n e) mod 10 ≠ 0)%N.
Proof.
  induction fuel as [|fuel IH]; intros n e Hn; cbn [strip_zeros].
  - change (10 ^ N.of_nat 0)%N with 1%N in Hn. lia.
  - destruct (n mod 10 =? 0)%N eqn:Hm.
    + apply N.eqb_eq in Hm. pose proof (N.div_mod n 10 ltac:(done)) as Hd. rewrite Hm, N.add_0_r in Hd.
      replace (N.of_nat (S fuel)) with (N.succ (N.of_nat fuel)) in Hn by lia.
      rewrite N.pow_succ_r' in Hn.
      destruct (IH (n / 10)%N (e + 1)%Z ltac:(nia)) as (k & Hk & He & Hz).
      exists (N.succ k). split; [|split; [rewrite He; lia|exact Hz]].
      rewrite N.pow_succ_r', Hd, Hk at 1. lia.
    + apply N.eqb_neq in Hm. exists 0%N. cbn [fst snd]. rewrite N.pow_0_r. split; [lia|]. split; [lia|done].
Qed.

(** A coefficient without trailing zeros, or zero. *)
Lemma normal_decimal_spec d :
  dc_negative (normal_decimal d) = dc_negative d ∧
  ((dc_coefficient d = 0%N ∧ dc_coefficient (normal_decimal d) = 0%N ∧ dc_exponent (normal_decimal d) = 0%Z) ∨
   (dc_coefficient (normal_decimal d) mod 10 ≠ 0)%N ∧
   ∃ k, (dc_coefficient d = dc_coefficient (normal_decimal d) * 10 ^ k)%N ∧
        (dc_exponent (normal_decimal d) = dc_exponent d + Z.of_N k)%Z).
Proof.
  unfold normal_decimal. destruct (dc_coefficient d =? 0)%N eqn:E.
  - apply N.eqb_eq in E. split; [done|]. by left.
  - apply N.eqb_neq in E.
    destruct (strip_zeros_spec (digit_count (dc_coefficient d)) (dc_coefficient d) (dc_exponent d))
      as (k & Hk & He & Hz); [split; [lia|apply digit_count_bound]|].
    destruct (strip_zeros _ _ _) as [c e]. cbn [fst snd] in *. split; [done|]. right.
    split; [done|]. by exists k.
Qed.

Lemma unit_coefficients (a b : N) (e f m : Z) :
  (a mod 10 ≠ 0)%N → (b mod 10 ≠ 0)%N → (m ≤ e)%Z → (m ≤ f)%Z →
  (Z.of_N a * 10 ^ (e - m) = Z.of_N b * 10 ^ (f - m))%Z → a = b ∧ e = f.
Proof.
  assert (∀ a b e f, (a mod 10 ≠ 0)%N → (m ≤ e ≤ f)%Z →
    (Z.of_N a * 10 ^ (e - m) = Z.of_N b * 10 ^ (f - m))%Z → a = b ∧ e = f) as Hle.
  { clear. intros a b e f Ha Hef E.
    replace (f - m)%Z with ((f - e) + (e - m))%Z in E by lia.
    rewrite Z.pow_add_r, Z.mul_assoc, Z.mul_cancel_r in E by lia.
    destruct (Z.eq_dec e f) as [->|Hne]; [rewrite Z.sub_diag, Z.mul_1_r in E; lia|].
    exfalso. apply Ha.
    replace (f - e)%Z with (Z.succ (f - e - 1)) in E by lia. rewrite Z.pow_succ_r in E by lia.
    assert (Z.of_N a mod 10 = 0)%Z as Hz; [|apply N2Z.inj; by rewrite N2Z.inj_mod].
    rewrite E. replace (Z.of_N b * (10 * 10 ^ (f - e - 1)))%Z
      with (Z.of_N b * 10 ^ (f - e - 1) * 10)%Z by lia. by apply Z.mod_mul. }
  intros Ha Hb He Hf E. destruct (Z.le_gt_cases e f).
  - by apply Hle.
  - destruct (Hle b a f e Hb ltac:(lia) (eq_sym E)) as [-> ->]. done.
Qed.

(** What normalising means: the same sign and number. *)
Lemma normal_decimal_same d d' :
  normal_decimal d = normal_decimal d' ↔ same_value d d'.
Proof.
  destruct (normal_decimal_spec d) as [Hn Hd], (normal_decimal_spec d') as [Hn' Hd'].
  unfold same_value. set (m := Z.min _ _).
  assert (m ≤ dc_exponent d ∧ m ≤ dc_exponent d')%Z as [Hm Hm'] by (unfold m; lia). clearbody m.
  assert (normal_decimal d = normal_decimal d' ↔ dc_negative d = dc_negative d' ∧
    dc_coefficient (normal_decimal d) = dc_coefficient (normal_decimal d') ∧
    dc_exponent (normal_decimal d) = dc_exponent (normal_decimal d')) as ->.
  { rewrite <- Hn, <- Hn'. destruct (normal_decimal d), (normal_decimal d'); cbn.
    split; [by intros [= -> -> ->]|by intros (-> & -> & ->)]. }
  assert (∀ (c k : N) (e : Z), (m ≤ e)%Z →
    (Z.of_N (c * 10 ^ k) * 10 ^ (e - m) = Z.of_N c * 10 ^ (e + Z.of_N k - m))%Z) as Hpow.
  { intros c k e ?. rewrite N2Z.inj_mul, N2Z.inj_pow, <-Z.mul_assoc, <-Z.pow_add_r by lia.
    do 2 f_equal. lia. }
  assert (∀ (c : N) k, (c mod 10 ≠ 0)%N → (Z.of_N (c * 10 ^ k) ≠ 0)%Z) as Hne.
  { intros c k Hc E. apply Hc. assert (c = 0%N) as ->; [|done].
    pose proof (N.pow_nonzero 10 k ltac:(done)). nia. }
  destruct Hd as [(-> & Hc & He)|(Hc & k & Hk & He)], Hd' as [(-> & Hc' & He')|(Hc' & k' & Hk' & He')].
  - rewrite Hc, Hc', He, He'. naive_solver.
  - rewrite Hc, Hk'. split; [intros (_ & E & _); by rewrite <-E in Hc'|]. intros [_ E].
    exfalso. apply (Hne _ k' Hc'). pose proof (Z.pow_pos_nonneg 10 (dc_exponent d' - m)). nia.
  - rewrite Hc', Hk. split; [intros (_ & E & _); by rewrite E in Hc|]. intros [_ E].
    exfalso. apply (Hne _ k Hc). pose proof (Z.pow_pos_nonneg 10 (dc_exponent d - m)). nia.
  - rewrite Hk, Hk', !Hpow by done. rewrite <-He, <-He'. split.
    + intros (? & -> & ->). done.
    + intros [? E]. split; [done|]. eapply unit_coefficients; [done..| | |exact E]; lia.
Qed.

(** Dictionaries: the names of every object are distinct. *)
Fixpoint distinct_names (j : json) : Prop :=
  match j with
  | JObj m => NoDup (map fst m) ∧
              (fix go (m : list (string * json)) : Prop :=
                 match m with [] => True | (_, i) :: m => distinct_names i ∧ go m end) m
  | JArr l => (fix go (l : list json) : Prop :=
                 match l with [] => True | i :: l => distinct_names i ∧ go l end) l
  | _ => True
  end.
Lemma distinct_arr l : distinct_names (JArr l) ↔ Forall distinct_names l.
Proof. induction l as [|i l IH]; [done|]. rewrite Forall_cons, <-IH. done. Qed.
Lemma distinct_obj m :
  distinct_names (JObj m) ↔ NoDup (map fst m) ∧ Forall (λ kv, distinct_names (snd kv)) m.
Proof.
  cbn. assert (∀ m, (fix go (m : list (string * json)) : Prop :=
    match m with [] => True | (_, i) :: m => distinct_names i ∧ go m end) m
    ↔ Forall (λ kv, distinct_names (snd kv)) m) as ->; [|done].
  clear m. induction m as [|[k i] m IH]; [done|]. by rewrite Forall_cons, <-IH.
Qed.

Lemma Forall2_maps {A B C D} (f : A → C) (g : B → D) (P : C → D → Prop) l k :
  Forall2 P (map f l) (map g k) ↔ Forall2 (λ x y, P (f x) (g y)) l k.
Proof. apply Forall2_fmap. Qed.

Section facts.
Context (float_decimal : Q → Decimal).
#[local] Abbreviation walk := (walk float_decimal).

(** ** The bytes without the limits *)

Definition framed_text (s : string) : string := framed (utf8 s).
Definition float_text (q : Q) : string := decimal_text (normal_decimal (float_decimal q)).
Fixpoint encode (item : json) : string :=
  match item with
  | JNull => "n"
  | JBool b => if b then "t" else "f"
  | JInt z => "i" +:+ pretty z +:+ ";"
  | JFloat q => float_text q
  | JStr s => framed_text s
  | JObj members =>
      "o" +:+ pretty (N.of_nat (length members)) +:+ ":"
      +:+ foldr (λ kv t, framed_text (fst kv) +:+ encode (snd kv) +:+ t) ";" members
  | JArr items =>
      "l" +:+ pretty (N.of_nat (length items)) +:+ ":" +:+ foldr (λ i t, encode i +:+ t) ";" items
  end.

Lemma enter_bytes depth w w' : enter depth w = Ok w' → bytes w' = bytes w.
Proof. unfold enter. intros H. inv_res. done. Qed.
Lemma write_bytes data w w' : write data w = Ok w' → bytes w' = bytes w +:+ data.
Proof. unfold write. intros H. inv_res. done. Qed.
Lemma walk_text_bytes s depth w w' :
  walk_text s depth w = Ok w' → bytes w' = bytes w +:+ framed_text s.
Proof.
  unfold walk_text, text. intros H. inv_res.
  match goal with H : write _ _ = Ok _ |- _ => apply write_bytes in H as -> end.
  match goal with H : enter _ _ = Ok _ |- _ => by apply enter_bytes in H as -> end.
Qed.

Lemma token_text d t : _decimal_token d = Ok t → t = decimal_text (normal_decimal d).
Proof. unfold _decimal_token. intros H. inv_res. done. Qed.

Ltac written :=
  repeat match goal with
  | H : enter _ _ = Ok _ |- _ => apply enter_bytes in H
  | H : write _ _ = Ok _ |- _ => apply write_bytes in H
  | H : walk_text _ _ _ = Ok _ |- _ => apply walk_text_bytes in H
  end.

Lemma fold_tail {A} (f : A → string) l t :
  foldr (λ i t, f i +:+ t) "" l +:+ t = foldr (λ i t, f i +:+ t) t l.
Proof. induction l as [|i l IH]; cbn; [done|]. by rewrite str_app_assoc, IH. Qed.

Ltac unwritten :=
  repeat match goal with E : bytes ?a = _ |- context [bytes ?a] => rewrite E end;
  by rewrite !str_app_assoc.

Lemma walk_bytes item : ∀ depth w w',
  walk item depth w = Ok w' → bytes w' = bytes w +:+ encode item.
Proof.
  induction item as [j Ha Ho|l IH|m IH] using json_induction; intros depth w w'.
  - destruct j; cbn [Commitment.walk encode]; try (by exfalso; eapply Ha); try (by exfalso; eapply Ho);
      intros H; try (by apply walk_text_bytes); inv_res; written; try congruence.
    match goal with H : _decimal_token _ = Ok _ |- _ => apply token_text in H as -> end.
    unfold float_text. congruence.
  - cbn [Commitment.walk encode]. intros H. inv_res. written.
    match goal with H : _ = Ok ?y, H' : bytes w' = bytes ?y +:+ _ |- _ => rename H into Hgo end.
    match type of Hgo with ?go l ?x = Ok ?y =>
      assert (∀ l, Forall (λ i, ∀ depth w w', walk i depth w = Ok w' → bytes w' = bytes w +:+ encode i) l →
        ∀ a b, go l a = Ok b → bytes b = bytes a +:+ foldr (λ i t, encode i +:+ t) "" l) as Hall end.
    { clear. induction 1 as [|i l Hi _ IH]; intros a b; [intros [= <-]; by rewrite str_app_nil_r|].
      intros H. apply res_bind_ok in H as (c & Hc & H). apply IH in H as ->. apply Hi in Hc as ->.
      by rewrite str_app_assoc. }
    apply Hall in Hgo; [|exact IH]. rewrite <- (fold_tail encode). unwritten.
  - cbn [Commitment.walk encode]. intros H. inv_res. written.
    match goal with H : _ = Ok ?y, H' : bytes w' = bytes ?y +:+ _ |- _ => rename H into Hgo end.
    set (member := λ kv : string * json, framed_text (fst kv) +:+ encode (snd kv)).
    match type of Hgo with ?go m ?x = Ok ?y =>
      assert (∀ m, Forall (λ kv, ∀ depth w w', walk (snd kv) depth w = Ok w' →
                bytes w' = bytes w +:+ encode (snd kv)) m →
        ∀ a b, go m a = Ok b → bytes b = bytes a +:+ foldr (λ kv t, member kv +:+ t) "" m) as Hall end.
    { clear. induction 1 as [|[k i] m Hi _ IH]; intros a b; [intros [= <-]; by rewrite str_app_nil_r|].
      intros H. apply res_bind_ok in H as (c & Hc & H). apply res_bind_ok in H as (d & Hd & H).
      apply IH in H as ->. apply Hi in Hd as ->. apply walk_text_bytes in Hc as ->.
      unfold member. cbn. by rewrite !str_app_assoc. }
    apply Hall in Hgo; [|exact IH].
    assert (foldr (λ kv t, framed_text (fst kv) +:+ encode (snd kv) +:+ t) ";" m
            = foldr (λ kv t, member kv +:+ t) ";" m) as ->.
    { clear. induction m as [|kv m IH]; cbn; [done|]. unfold member at 1. by rewrite str_app_assoc, IH. }
    rewrite <- fold_tail. unwritten.
Qed.

(** ** Reading back *)

Definition same_decimal (q q' : Q) : Prop := same_value (float_decimal q) (float_decimal q').

(** Equal up to the spelling of decimals; [same_tree] also up to the order of
    the members of objects. *)
Fixpoint same_ordered (j j' : json) {struct j} : Prop :=
  match j, j' with
  | JNull, JNull => True
  | JBool b, JBool b' => b = b'
  | JInt z, JInt z' => z = z'
  | JFloat q, JFloat q' => same_decimal q q'
  | JStr s, JStr s' => s = s'
  | JArr l, JArr l' =>
      (fix go (l l' : list json) : Prop :=
         match l, l' with
         | [], [] => True
         | i :: l, i' :: l' => same_ordered i i' ∧ go l l'
         | _, _ => False
         end) l l'
  | JObj m, JObj m' =>
      (fix go (m m' : list (string * json)) : Prop :=
         match m, m' with
         | [], [] => True
         | (k, i) :: m, (k', i') :: m' => k = k' ∧ same_ordered i i' ∧ go m m'
         | _, _ => False
         end) m m'
  | _, _ => False
  end.
Fixpoint same_tree (j j' : json) {struct j} : Prop :=
  match j, j' with
  | JNull, JNull => True
  | JBool b, JBool b' => b = b'
  | JInt z, JInt z' => z = z'
  | JFloat q, JFloat q' => same_decimal q q'
  | JStr s, JStr s' => s = s'
  | JArr l, JArr l' =>
      (fix go (l l' : list json) : Prop :=
         match l, l' with
         | [], [] => True
         | i :: l, i' :: l' => same_tree i i' ∧ go l l'
         | _, _ => False
         end) l l'
  | JObj m, JObj m' =>
      ∃ n, n ≡ₚ m' ∧
      (fix go (m m' : list (string * json)) : Prop :=
         match m, m' with
         | [], [] => True
         | (k, i) :: m, (k', i') :: m' => k = k' ∧ same_tree i i' ∧ go m m'
         | _, _ => False
         end) m n
  | _, _ => False
  end.
#[local] Abbreviation member_rel R := (λ kv kv' : string * json, fst kv = fst kv' ∧ R (snd kv) (snd kv')).

Lemma go_list (R : json → json → Prop) l : ∀ l',
  (fix go (l l' : list json) : Prop :=
     match l, l' with
     | [], [] => True
     | i :: l, i' :: l' => R i i' ∧ go l l'
     | _, _ => False
     end) l l' ↔ Forall2 R l l'.
Proof.
  induction l as [|i l IH]; intros [|i' l']; [by repeat constructor|split; [done|by inversion 1]..|].
  rewrite IH. split; [intros [? ?]; by constructor|by inversion 1].
Qed.
Lemma go_members (R : json → json → Prop) m : ∀ m',
  (fix go (m m' : list (string * json)) : Prop :=
     match m, m' with
     | [], [] => True
     | (k, i) :: m, (k', i') :: m' => k = k' ∧ R i i' ∧ go m m'
     | _, _ => False
     end) m m' ↔ Forall2 (member_rel R) m m'.
Proof.
  induction m as [|[k i] m IH]; intros [|[k' i'] m'];
    [by repeat constructor|split; [by intros []|by inversion 1]..|].
  rewrite IH. split.
  - intros (? & ? & ?). by constructor.
  - inversion 1 as [|? ? ? ? [? ?] ?]; subst. done.
Qed.

Lemma same_ordered_arr l l' : same_ordered (JArr l) (JArr l') ↔ Forall2 same_ordered l l'.
Proof. apply go_list. Qed.
Lemma same_ordered_obj m m' :
  same_ordered (JObj m) (JObj m') ↔ Forall2 (member_rel same_ordered) m m'.
Proof. apply go_members. Qed.
Lemma same_tree_arr l l' : same_tree (JArr l) (JArr l') ↔ Forall2 same_tree l l'.
Proof. apply go_list. Qed.
Lemma same_tree_obj m m' :
  same_tree (JObj m) (JObj m') ↔ ∃ n, n ≡ₚ m' ∧ Forall2 (member_rel same_tree) m n.
Proof. cbn. split; intros (n & Hn & Hm); exists n; (split; [done|]); by apply go_members. Qed.

Lemma framed_inj s s' r r' :
  framed_text s +:+ r = framed_text s' +:+ r' → s = s' ∧ r = r'.
Proof.
  unfold framed_text, framed. rewrite !str_app_assoc. intros E. apply str_app_inj in E.
  apply (span_inj number_char) in E as [E1 E2]; [|apply number_pretty_N..|done|done].
  apply (inj pretty), Nat2N.inj in E1. injection E2 as E2.
  assert (∀ a b : string, String.length a = String.length b → ∀ x y, a +:+ x = b +:+ y → a = b ∧ x = y)
    as Happ.
  { clear. induction a as [|c a IH]; intros [|d b] Hl x y E; cbn in *; try done.
    injection E as -> E. injection Hl as Hl. by destruct (IH b Hl x y E) as [-> ->]. }
  destruct (Happ _ _ E1 _ _ E2) as [E3 ->]. by apply utf8_inj in E3.
Qed.

Lemma decimal_text_inj d d' r r' :
  decimal_text d +:+ r = decimal_text d' +:+ r' → d = d' ∧ r = r'.
Proof.
  unfold decimal_text. rewrite !str_app_assoc. intros E. apply str_app_inj in E.
  assert (dc_negative d = dc_negative d' ∧
    pretty (dc_coefficient d) +:+ ":" +:+ pretty (dc_exponent d) +:+ ";" +:+ r
    = pretty (dc_coefficient d') +:+ ":" +:+ pretty (dc_exponent d') +:+ ";" +:+ r') as [En E1].
  { destruct (dc_negative d), (dc_negative d'); by injection E. }
  apply (span_inj number_char) in E1 as [Ec E1]; [|apply number_pretty_N..|done|done].
  apply (str_app_inj ":") in E1.
  apply (span_inj number_char) in E1 as [Ee E1]; [|apply number_pretty..|done|done].
  apply (inj pretty) in Ec. apply (inj pretty) in Ee. apply (str_app_inj ";") in E1 as ->.
  destruct d, d'; cbn in *. by subst.
Qed.

(** The head of the bytes says what kind of value follows. *)
Definition kind_head (j : json) : ascii :=
  match j with
  | JNull => "n" | JBool true => "t" | JBool false => "f" | JInt _ => "i" | JFloat _ => "d"
  | JStr _ => "s" | JArr _ => "l" | JObj _ => "o"
  end%char.
Lemma encode_head j : ∃ t, encode j = String (kind_head j) t.
Proof. destruct j as [|[]| | | | |]; by eexists. Qed.
Lemma encode_kind j j' r r' : encode j +:+ r = encode j' +:+ r' → kind_head j = kind_head j'.
Proof. destruct (encode_head j) as [t ->], (encode_head j') as [t' ->]. intros E. by injection E. Qed.

Lemma encode_list_inj {A} (f : A → string) (R : A → A → Prop) l : ∀ l' r r',
  Forall (λ i, ∀ i' r r', f i +:+ r = f i' +:+ r' → R i i' ∧ r = r') l →
  length l = length l' →
  foldr (λ i t, f i +:+ t) ";" l +:+ r = foldr (λ i t, f i +:+ t) ";" l' +:+ r' →
  Forall2 R l l' ∧ r = r'.
Proof.
  induction l as [|i l IH]; intros [|i' l'] r r' Hl Hlen E; try done; cbn in E.
  - split; [constructor|]. by injection E.
  - inversion Hl as [|? ? Hi Hls]; subst. rewrite !str_app_assoc in E.
    apply Hi in E as [Hr E]. injection Hlen as Hlen.
    destruct (IH l' r r' Hls Hlen E) as [? ->]. split; [by constructor|done].
Qed.

Lemma counted_inj (n n' : nat) x x' :
  pretty (N.of_nat n) +:+ ":" +:+ x = pretty (N.of_nat n') +:+ ":" +:+ x' → n = n' ∧ x = x'.
Proof.
  intros E. apply (span_inj number_char) in E as [En E]; [|apply number_pretty_N..|done|done].
  apply (inj pretty), Nat2N.inj in En. by apply (str_app_inj ":") in E.
Qed.

Lemma encode_inj j : ∀ j' r r',
  encode j +:+ r = encode j' +:+ r' → same_ordered j j' ∧ r = r'.
Proof.
  induction j as [j Ha Ho|l IH|m IH] using json_induction; intros j' r r' E;
    pose proof (encode_kind _ _ _ _ E) as Hk.
  - destruct j as [|[]|z|q|s|l|m]; try (by exfalso; eapply Ha); try (by exfalso; eapply Ho);
      destruct j' as [|[]|z'|q'|s'|l'|m']; try discriminate Hk; cbn [encode] in E;
      try (split; [done|]; by injection E).
    + rewrite !str_app_assoc in E. apply str_app_inj in E.
      apply (span_inj number_char) in E as [Ez E]; [|apply number_pretty..|done|done].
      apply (inj pretty) in Ez as ->. split; [done|]. by injection E.
    + apply decimal_text_inj in E as [E ->]. split; [|done]. by apply normal_decimal_same.
    + by apply framed_inj in E as [-> ->].
  - destruct j' as [|[]|z'|q'|s'|l'|m']; try discriminate Hk. cbn [encode] in E.
    rewrite !str_app_assoc in E. apply str_app_inj, counted_inj in E as [Hlen E].
    rewrite same_ordered_arr. by apply (encode_list_inj encode same_ordered) in E.
  - destruct j' as [|[]|z'|q'|s'|l'|m']; try discriminate Hk. cbn [encode] in E.
    rewrite !str_app_assoc in E. apply str_app_inj, counted_inj in E as [Hlen E].
    rewrite same_ordered_obj.
    set (member := λ kv : string * json, framed_text (fst kv) +:+ encode (snd kv)).
    assert (∀ m, foldr (λ kv t, framed_text (fst kv) +:+ encode (snd kv) +:+ t) ";" m
            = foldr (λ kv t, member kv +:+ t) ";" m) as Hm.
    { clear. induction m as [|kv m IH]; cbn; [done|]. unfold member at 1. by rewrite str_app_assoc, IH. }
    rewrite !Hm in E. apply (encode_list_inj member (member_rel same_ordered)) in E; [done| |done].
    eapply Forall_impl; [exact IH|]. intros [k i] Hi [k' i'] t t'. unfold member. cbn [fst snd] in *.
    rewrite !str_app_assoc. intros Et. apply framed_inj in Et as [-> Et]. by apply Hi in Et as [? ->].
Qed.

Lemma encode_same j : ∀ j', same_ordered j j' → encode j = encode j'.
Proof.
  induction j as [j Ha Ho|l IH|m IH] using json_induction; intros j' E.
  - destruct j; try (by exfalso; eapply Ha); try (by exfalso; eapply Ho);
      destruct j'; cbn in E; try done; try (by subst). cbn. unfold float_text. f_equal. by apply normal_decimal_same.
  - destruct j' as [| | | | |l'|]; try done. rewrite same_ordered_arr in E.
    cbn. rewrite (Forall2_length _ _ _ E). do 2 f_equal.
    assert (∀ t, foldr (λ i t, encode i +:+ t) t l = foldr (λ i t, encode i +:+ t) t l') as ->; [|done].
    intros t. clear -IH E. revert IH. induction E as [|i i' l l' Hi _ IHl]; [done|].
    inversion 1; subst. cbn. rewrite IHl by done. f_equal. auto.
  - destruct j' as [| | | | | |m']; try done. rewrite same_ordered_obj in E.
    cbn. rewrite (Forall2_length _ _ _ E). do 2 f_equal.
    assert (∀ t, foldr (λ kv t, framed_text (fst kv) +:+ encode (snd kv) +:+ t) t m
               = foldr (λ kv t, framed_text (fst kv) +:+ encode (snd kv) +:+ t) t m') as ->; [|done].
    intros t. clear -IH E. revert IH. induction E as [|[k i] [k' i'] m m' [Hk Hi] _ IHm]; [done|].
    inversion 1; subst. cbn in *. rewrite IHm by done. subst. do 2 f_equal. auto.
Qed.

(** ** Sorting *)
#[local] Abbreviation sort_member := (λ kv : string * json, (fst kv, sort_keys (snd kv))).

Lemma sort_same_tree j : ∀ j', same_ordered (sort_keys j) (sort_keys j') → same_tree j j'.
Proof.
  induction j as [j Ha Ho|l IH|m IH] using json_induction; intros j' E.
  - destruct j; try (by exfalso; eapply Ha); try (by exfalso; eapply Ho); by destruct j'.
  - destruct j' as [| | | | |l'|]; try done. cbn [sort_keys] in E.
    rewrite same_ordered_arr, Forall2_maps in E. rewrite same_tree_arr.
    clear -IH E. revert IH. induction E as [|i i' l l' Hi _ IHl]; [constructor|].
    inversion 1; subst. constructor; auto.
  - destruct j' as [| | | | | |m']; try done. cbn [sort_keys] in E.
    rewrite same_ordered_obj in E. rewrite same_tree_obj.
    pose proof (merge_sort_Permutation key_le (map sort_member m)) as Hm.
    pose proof (merge_sort_Permutation key_le (map sort_member m')) as Hm'.
    destruct (Permutation_Forall2 Hm E) as (c & Hc & Hall).
    rewrite Hm' in Hc. destruct (Permutation_map_inv _ _ (symmetry Hc)) as (n & -> & Hn).
    exists n. split; [by symmetry|].
    rewrite Forall2_maps in Hall.
    clear -IH Hall. revert IH. induction Hall as [|[k i] [k' i'] m n [Hk Hi] _ IHl]; [constructor|].
    inversion 1; subst. constructor; [cbn in *; split; auto|auto].
Qed.

Lemma same_tree_sort j : ∀ j', distinct_names j → distinct_names j' →
  same_tree j j' → same_ordered (sort_keys j) (sort_keys j').
Proof.
  induction j as [j Ha Ho|l IH|m IH] using json_induction; intros j' Hd Hd' E.
  - destruct j; try (by exfalso; eapply Ha); try (by exfalso; eapply Ho); by destruct j'.
  - destruct j' as [| | | | |l'|]; try done. rewrite same_tree_arr in E.
    rewrite distinct_arr in Hd, Hd'. cbn [sort_keys].
    rewrite same_ordered_arr, Forall2_maps.
    clear -IH E Hd Hd'. revert IH Hd Hd'. induction E as [|i i' l l' Hi _ IHl]; [constructor|].
    do 3 inversion 1; subst. constructor; auto.
  - destruct j' as [| | | | | |m']; try done. rewrite same_tree_obj in E.
    destruct E as (n & Hn & E). rewrite distinct_obj in Hd, Hd'.
    destruct Hd as [Hnd Hd], Hd' as [Hnd' Hd']. rewrite <-Hn in Hd', Hnd'.
    assert (Forall2 (member_rel same_ordered) (map sort_member m) (map sort_member n)) as Hall.
    { rewrite Forall2_maps. clear -IH E Hd Hd'. revert IH Hd Hd'.
      induction E as [|[k i] [k' i'] m n [Hk Hi] _ IHl]; [constructor|].
      do 3 inversion 1; subst. constructor; [cbn in *; split; auto|auto]. }
    cbn [sort_keys]. rewrite same_ordered_obj.
    pose proof (merge_sort_Permutation key_le (map sort_member m)) as Hm.
    destruct (Permutation_Forall2 (symmetry Hm) Hall) as (c & Hc & Hall').
    assert (c = merge_sort key_le (map sort_member m')) as <-; [|done].
    assert (map fst (merge_sort key_le (map sort_member m)) = map fst c) as Hkeys.
    { clear -Hall'. induction Hall' as [|kv kv' a c [Hk _] _ IH]; [done|]. cbn. by rewrite IH, Hk. }
    apply sorted_members_unique.
    + rewrite <-Hc. rewrite map_map. cbn. done.
    + assert (∀ a b : list (string * json), map fst a = map fst b →
        StronglySorted key_le a → StronglySorted key_le b) as Hs.
      { clear. induction a as [|[k i] a IH]; intros [|[k' i'] b] Hk Ha; try done.
        - injection Hk as <- Hk. apply StronglySorted_cons in Ha as [Ha1 Ha2].
          apply StronglySorted_cons. split; [|by apply IH].
          clear -Ha1 Hk. revert b Hk. induction Ha1 as [|[l x] a Hl _ IH]; intros [|[l' y] b] Hk; try done.
          injection Hk as <- Hk. constructor; [exact Hl|by apply IH]. }
      eapply Hs; [exact Hkeys|]. apply (StronglySorted_merge_sort key_le).
    + apply (StronglySorted_merge_sort key_le).
    + rewrite (merge_sort_Permutation key_le), <-Hc. by apply Permutation_map.
Qed.

(** C33: a commitment determines the request.  Two accepted values have the same
    hashed bytes exactly when they are the same typed trees, up to the order of
    the members of objects and the spelling of decimals: an integer, a decimal,
    a text, a boolean and [null] are never confused, texts are framed by their
    length, and no nesting of arrays and objects can be read in another way. *)
Theorem commitment_injective (sha256 : string → string) (v v' : json) (h h' : string)
    (Hv : distinct_names v) (Hv' : distinct_names v')
    (Hh : request_commitment float_decimal sha256 v = Ok h)
    (Hh' : request_commitment float_decimal sha256 v' = Ok h') :
  ∃ t t', h = sha256 t ∧ h' = sha256 t' ∧ (t = t' ↔ same_tree v v').
Proof.
  unfold request_commitment in *. inv_res.
  repeat match goal with H : walk _ _ _ = Ok _ |- _ => apply walk_bytes in H; cbn in H end.
  eexists _, _. split; [reflexivity|]. split; [reflexivity|].
  repeat match goal with H : bytes _ = _ |- _ => rewrite H end. split.
  - intros E. apply str_app_inj in E. apply sort_same_tree.
    destruct (encode_inj (sort_keys v) (sort_keys v') "" "") as [Hs _]; [|exact Hs].
    by rewrite !str_app_nil_r.
  - intros E. f_equal. by apply encode_same, same_tree_sort.
Qed.
End facts.
