(* ===== verification/GraphQL.v ===== *)
(** * Selections of GraphQL requests ([ordin/_graphql_authority.py], [_GraphQLScopeParser])

    Two bounded readers: the scope parser of [runtime_requests.py], for one
    named operation without arguments, and the authority parser, for documents
    with arguments, variables, directives and several operations.  Both raise
    one error for everything they refuse, so a refusal is [None] here. *)
From stdpp Require Import base list strings gmap sets sorting.
From Stdlib Require Import Bool Ascii NArith Lia.
From S2P Require Import Prelude PyStr Json JsonText RequestReaders.
#[local] Open Scope py_scope.
#[local] Open Scope nat_scope.

(** ** Characters and texts *)

Definition name_start (c : ascii) : bool :=
  in_range 65 90 c || in_range 97 122 c || Ascii.eqb c "_"%char.
Definition ascii_digit (c : ascii) : bool := in_range 48 57 c.
Definition name_char (c : ascii) : bool := name_start c || ascii_digit c.
Definition newline (c : ascii) : bool := in_range 10 10 c || in_range 13 13 c.
Definition blank (c : ascii) : bool := in_range 32 32 c || in_range 9 9 c || newline c.

(** The longest prefix of [p]s and the rest. *)
Fixpoint span (p : ascii → bool) (s : string) : string * string :=
  match s with
  | String c s' => if p c then let '(taken, rest) := span p s' in (String c taken, rest)
                   else ("", s)
  | EmptyString => ("", "")
  end.

Definition is_name (s : string) : bool :=
  match s with String c s' => name_start c && str_forall name_char s' | EmptyString => false end.

(** A [for] loop whose body changes a state and may raise. *)
Section each.
Context {A S : Type} (f : A → S → option S).
Fixpoint each (l : list A) (s : S) : option S :=
  match l with [] => Some s | x :: l' => s ← f x s; each l' s end.
End each.

(** ** The scope parser *)
Module Scope.

(** [NAME] bounds a name by 128 characters; [on] is a name too. *)
Definition NAME (s : string) : bool := is_name s && (String.length s <=? 128).

(** [...], a name or a brace or colon at the head. *)
Definition scope_token (s : string) : option (string * string) :=
  if startswith s "..." then Some ("...", str_drop 3 s)
  else match s with
       | String c s' =>
           if name_start c then let '(taken, rest) := span name_char s in Some (taken, rest)
           else if mem (String c "") ["{"; "}"; ":"] then Some (String c "", s') else None
       | EmptyString => None
       end.

(** The loop of [__init__]; every turn takes a character. *)
Fixpoint lex (fuel count : nat) (s : string) : option (list string) :=
  match fuel with
  | O => None
  | S fuel =>
      match s with
      | EmptyString => Some []
      | String c s' =>
          if blank c || Ascii.eqb c ","%char then lex fuel count s'
          else if Ascii.eqb c "#"%char then lex fuel count (snd (span (λ c, negb (newline c)) s))
          else match scope_token s with
               | Some (token, rest) =>
                   if (128 <? String.length token) || (512 <=? count) then None
                   else tokens ← lex fuel (S count) rest; Some (token :: tokens)
               | None => None
               end
      end
  end.

Inductive Node := Field (name response : string) | Spread (name : string).

Definition take (expected : string) (ts : list string) : option (list string) :=
  match ts with t :: ts' => if t =s expected then Some ts' else None | [] => None end.
Definition name (ts : list string) : option (string * list string) :=
  match ts with t :: ts' => if NAME t then Some (t, ts') else None | [] => None end.

(** The loop of [selections] up to the closing brace, at a depth. *)
Fixpoint items (fuel depth : nat) (ts : list string) : option (list Node * list string) :=
  match fuel with
  | O => None
  | S fuel =>
      match ts with
      | t :: ts1 =>
          if t =s "}" then Some ([], ts)
          else if t =s "..." then
            '(fragment, ts2) ← name ts1;
            if fragment =s "on" then
              '(_, ts3) ← name ts2;
              if 16 <? S depth then None else
              ts4 ← take "{" ts3;
              '(inner, ts5) ← items fuel (S depth) ts4;
              ts6 ← take "}" ts5;
              if bool_decide (inner = []) then None else
              '(later, ts7) ← items fuel depth ts6;
              Some (inner ++ later, ts7)
            else '(later, ts3) ← items fuel depth ts2; Some (Spread fragment :: later, ts3)
          else
            '(response, ts2) ← name ts;
            '(field, ts3) ← match ts2 with
                            | c :: ts3 => if c =s ":" then name ts3 else Some (response, ts2)
                            | [] => Some (response, ts2)
                            end;
            '(later, ts4) ← items fuel depth ts3;
            Some (Field field response :: later, ts4)
      | [] => None
      end
  end.
Definition selections (ts : list string) : option (list Node * list string) :=
  ts1 ← take "{" ts;
  '(nodes, ts2) ← items (S (length ts1)) 0 ts1;
  ts3 ← take "}" ts2;
  if bool_decide (nodes = []) then None else Some (nodes, ts3).

Record Document := {
  dc_operation : option (string * string * list Node);
  dc_fragments : list (string * list Node) }.

(** The loop of [operation] over the definitions. *)
Fixpoint definitions (fuel : nat) (d : Document) (ts : list string) : option Document :=
  match fuel with
  | O => None
  | S fuel =>
      match ts with
      | [] => Some d
      | kind :: ts1 =>
          if mem kind ["query"; "mutation"] && bool_decide (dc_operation d = None) then
            '(n, ts2) ← name ts1;
            '(nodes, ts3) ← selections ts2;
            definitions fuel {| dc_operation := Some (kind, n, nodes);
                                dc_fragments := dc_fragments d |} ts3
          else if kind =s "fragment" then
            '(n, ts2) ← name ts1;
            if (n =s "on") || mem n (map fst (dc_fragments d)) || (128 <=? length (dc_fragments d))
            then None else
            ts3 ← take "on" ts2;
            '(_, ts4) ← name ts3;
            '(nodes, ts5) ← selections ts4;
            definitions fuel {| dc_operation := dc_operation d;
                                dc_fragments := dc_fragments d ++ [(n, nodes)] |} ts5
          else None
      end
  end.

Record Expansion := {
  ex_fields : gset string;
  ex_responses : gmap string string;
  ex_visited : gset string }.

(** The body of the loop of [expand], with [expand] of a fragment that is not
    open as an argument; at most 16 fragments are open at a time. *)
Definition expand_item (fragments : list (string * list Node)) (active : list string)
    (open_fragment : string → list Node → Expansion → option Expansion) (n : Node)
    (x : Expansion) : option Expansion :=
  match n with
  | Field value response =>
      if match ex_responses x !! response with Some other => other =s value | None => true end
      then Some {| ex_fields := {[value]} ∪ ex_fields x;
                   ex_responses := <[response := value]> (ex_responses x);
                   ex_visited := ex_visited x |}
      else None
  | Spread value =>
      match assoc_last value fragments with
      | Some inner =>
          if mem value active then None
          else if bool_decide (value ∈ ex_visited x) then Some x
          else y ← open_fragment value inner x;
               Some {| ex_fields := ex_fields y; ex_responses := ex_responses y;
                       ex_visited := {[value]} ∪ ex_visited y |}
      | None => None
      end
  end.
Fixpoint expand (fuel : nat) (fragments : list (string * list Node)) (active : list string)
    (nodes : list Node) (x : Expansion) : option Expansion :=
  match fuel with
  | O => None
  | S fuel =>
      if 16 <? length active then None
      else each (expand_item fragments active (λ value, expand fuel fragments (value :: active)))
             nodes x
  end.

Definition parse (query : string) : option Document :=
  ts ← lex (S (String.length query)) 0 query;
  definitions (S (length ts)) {| dc_operation := None; dc_fragments := [] |} ts.

Definition EXPANSION_FUEL : nat := 18.
Definition operation (query : string) : option (string * string * list string) :=
  d ← parse query;
  '(kind, n, nodes) ← dc_operation d;
  x ← expand EXPANSION_FUEL (dc_fragments d) [] nodes
        {| ex_fields := ∅; ex_responses := ∅; ex_visited := ∅ |};
  if bool_decide (ex_fields x = ∅) || (128 <? size (ex_fields x))
     || negb (bool_decide (ex_visited x = list_to_set (map fst (dc_fragments d))))
  then None else Some (kind, n, sorted (elements (ex_fields x))).
End Scope.

Definition graphql_scope (query : json) : option (string * string * list string) :=
  match query with
  | JStr s => if 4096 <? String.length s then None else Scope.operation s
  | _ => None
  end.

(** ** The authority parser *)
Module Authority.

Definition MAX_GRAPHQL_NODES : nat := Nat.pow 2 12.
#[global] Arguments MAX_GRAPHQL_NODES : simpl never.

Definition block_quote : string := String double_quote (String double_quote (String double_quote "")).

(** The body and the end of a block string: an escaped end first, any character
    that does not start an end else, as the pattern backtracks. *)
Fixpoint block_rest (s : string) : option (string * string) :=
  if startswith s block_quote then Some (block_quote, str_drop 3 s) else
  match s with
  | String c s1 =>
      let one := '(body, rest) ← block_rest s1; Some (String c body, rest) in
      match s1 with
      | String q1 (String q2 (String q3 s4)) =>
          if Ascii.eqb c "\"%char && startswith s1 block_quote then
            match block_rest s4 with
            | Some (body, rest) => Some (String c (block_quote +:+ body), rest)
            | None => one
            end
          else one
      | _ => one
      end
  | EmptyString => None
  end.

Definition hex_char (c : ascii) : bool := in_range 48 57 c || in_range 65 70 c || in_range 97 102 c.
Definition short_escape (c : ascii) : bool :=
  Ascii.eqb c double_quote || mem (String c "") ["\"; "/"; "b"; "f"; "n"; "r"; "t"].

(** The body and the end of a string. *)
Fixpoint string_rest (s : string) : option (string * string) :=
  match s with
  | EmptyString => None
  | String c s1 =>
      if Ascii.eqb c double_quote then Some (String c "", s1)
      else if Ascii.eqb c "\"%char then
        match s1 with
        | String e s2 =>
            if short_escape e then
              '(body, rest) ← string_rest s2; Some (String c (String e body), rest)
            else if Ascii.eqb e "u"%char then
              match s2 with
              | String h1 (String h2 (String h3 (String h4 s6))) =>
                  if hex_char h1 && hex_char h2 && hex_char h3 && hex_char h4 then
                    '(body, rest) ← string_rest s6;
                    Some (String c (String e (String h1 (String h2 (String h3 (String h4 body))))), rest)
                  else None
              | _ => None
              end
            else None
        | EmptyString => None
        end
      else if newline c then None
      else '(body, rest) ← string_rest s1; Some (String c body, rest)
  end.

(** A number: a sign, digits without a leading zero, a fraction, an exponent. *)
Definition optional_part (m : option (string * string)) (s : string) : string * string :=
  match m with Some taken => taken | None => ("", s) end.
Definition digits (s : string) : option (string * string) :=
  let '(taken, rest) := span ascii_digit s in if truthy taken then Some (taken, rest) else None.
Definition sign (chars : list string) (s : string) : string * string :=
  match s with
  | String c s' => if mem (String c "") chars then (String c "", s') else ("", s)
  | EmptyString => ("", s)
  end.
Definition integer_part (s : string) : option (string * string) :=
  match s with
  | String c s' => if Ascii.eqb c "0"%char then Some ("0", s')
                   else if ascii_digit c then Some (span ascii_digit s) else None
  | EmptyString => None
  end.
Definition fraction (s : string) : option (string * string) :=
  match s with
  | String c s' => if Ascii.eqb c "."%char
                   then '(d, rest) ← digits s'; Some (String c d, rest) else None
  | EmptyString => None
  end.
Definition exponent (s : string) : option (string * string) :=
  match s with
  | String c s' =>
      if mem (String c "") ["e"; "E"] then
        let '(plus, s2) := sign ["+"; "-"] s' in
        '(d, rest) ← digits s2; Some (String c (plus +:+ d), rest)
      else None
  | EmptyString => None
  end.
Definition number (s : string) : option (string * string) :=
  let '(minus, s1) := sign ["-"] s in
  '(whole, s2) ← integer_part s1;
  let '(part, s3) := optional_part (fraction s2) s2 in
  let '(power, s4) := optional_part (exponent s3) s3 in
  Some (minus +:+ whole +:+ part +:+ power, s4).

(** A token of [_TOKEN]; the byte order mark lies outside the modelled texts. *)
Definition token (s : string) : option (string * string) :=
  match s with
  | EmptyString => None
  | String c s' =>
      if blank c then Some (span blank s)
      else if Ascii.eqb c "#"%char then Some (span (λ c, negb (newline c)) s)
      else if Ascii.eqb c ","%char then Some (",", s')
      else if startswith s "..." then Some ("...", str_drop 3 s)
      else match (if startswith s block_quote
                  then '(body, rest) ← block_rest (str_drop 3 s); Some (block_quote +:+ body, rest)
                  else None) with
           | Some t => Some t
           | None =>
               if Ascii.eqb c double_quote
               then '(body, rest) ← string_rest s'; Some (String c body, rest)
               else match number s with
                    | Some t => Some t
                    | None =>
                        if name_start c then Some (span name_char s)
                        else if mem (String c "") ["!"; "$"; "("; ")"; ":"; "="; "@"; "["; "]"; "{"; "}"; "|"]
                        then Some (String c "", s') else None
                    end
           end
  end.

(** The value of hexadecimal digits. *)
Definition hex_value (c : ascii) : N :=
  if in_range 48 57 c then code c - 48
  else if in_range 65 70 c then code c - 55 else code c - 87.

(** The control characters and surrogates of a string, after its first quote. *)
Fixpoint string_fits (s : string) : bool :=
  match s with
  | EmptyString | String _ EmptyString => true
  | String c s1 =>
      negb ((code c <? 32)%N && negb (Ascii.eqb c (ascii_of_N 9)))
      && (if Ascii.eqb c "\"%char then
            match s1 with
            | String e s2 =>
                if Ascii.eqb e "u"%char then
                  match s2 with
                  | String h1 (String h2 (String h3 (String h4 s6))) =>
                      let point := (4096 * hex_value h1 + 256 * hex_value h2
                                    + 16 * hex_value h3 + hex_value h4)%N in
                      negb ((55296 <=? point) && (point <=? 57343))%N && string_fits s6
                  | _ => true
                  end
                else string_fits s2
            | EmptyString => true
            end
          else string_fits s1)
  end.

Definition number_follower (c : ascii) : bool := name_char c || Ascii.eqb c "."%char.

Definition token_fits (s t rest : string) : bool :=
  negb (startswith s block_quote && negb (startswith t block_quote))
  && match t with
     | String c t' =>
         negb ((ascii_digit c || Ascii.eqb c "-"%char)
               && match rest with String d _ => number_follower d | EmptyString => false end)
         && (negb (Ascii.eqb c double_quote) || startswith t block_quote || string_fits t')
     | EmptyString => true
     end.
Definition kept (t : string) : bool :=
  match t with
  | String c _ => negb (blank c) && negb (Ascii.eqb c "#"%char) && negb (t =s ",")
  | EmptyString => false
  end.

(** The loop of [__init__]; every token takes a character. *)
Fixpoint lex (fuel count : nat) (s : string) : option (list string) :=
  match fuel with
  | O => None
  | S fuel =>
      match s with
      | EmptyString => Some []
      | _ =>
          '(t, rest) ← token s;
          if (MAX_GRAPHQL_NODES <=? count) || negb (token_fits s t rest) then None
          else if kept t then tokens ← lex fuel (S count) rest; Some (t :: tokens)
          else lex fuel count rest
      end
  end.

(** *** The parser's state: the tokens that are left and the variables named *)

Record PState := { rest : list string; references : gset string }.
Definition parser (A : Type) : Type := PState → option (A * PState).
#[export] Instance parser_ret : MRet parser := λ A x st, Some (x, st).
#[export] Instance parser_bind : MBind parser :=
  λ A B f m st, match m st with Some (x, st') => f x st' | None => None end.

Definition refuse {A} : parser A := λ _, None.
Definition demand (c : bool) : parser unit := if c then mret tt else refuse.
Definition peek : parser (option string) := λ st, Some (head (rest st), st).
Definition at_token (t : string) : parser bool := λ st, Some (opt_is (head (rest st)) t, st).
Definition take : parser string :=
  λ st, match rest st with
        | t :: ts => Some (t, {| rest := ts; references := references st |})
        | [] => None
        end.
Definition expect (t : string) : parser unit := x ← take; demand (x =s t).
Definition name : parser string :=
  x ← take; _ ← demand ((String.length x <=? 128) && is_name x); mret x.
Definition refer (n : string) : parser unit :=
  λ st, Some (tt, {| rest := rest st; references := {[n]} ∪ references st |}).
Definition tokens_left : parser (list string) := λ st, Some (rest st, st).

(** A name, a string or a number. *)
Definition scalar_token (t : string) : bool :=
  is_name t
  || match t with
     | String c t' => Ascii.eqb c double_quote || ascii_digit c
                      || (Ascii.eqb c "-"%char
                          && match t' with String d _ => ascii_digit d | EmptyString => false end)
     | EmptyString => false
     end.

(** [value], the loop of a list value, and the loop of an object value with
    the names it has seen. *)
Fixpoint value (fuel depth : nat) (constant : bool) : parser unit :=
  match fuel with
  | O => refuse
  | S fuel =>
      _ ← demand (depth <=? 32);
      t ← take;
      if (t =s "$") && negb constant then n ← name; refer n
      else if t =s "[" then _ ← list_items fuel (S depth) constant; expect "]"
      else if t =s "{" then _ ← object_items fuel (S depth) constant []; expect "}"
      else demand (scalar_token t)
  end
with list_items (fuel depth : nat) (constant : bool) : parser unit :=
  match fuel with
  | O => refuse
  | S fuel =>
      stop ← at_token "]";
      if stop : bool then mret tt
      else _ ← value fuel depth constant; list_items fuel depth constant
  end
with object_items (fuel depth : nat) (constant : bool) (seen : list string) : parser unit :=
  match fuel with
  | O => refuse
  | S fuel =>
      stop ← at_token "}";
      if stop : bool then mret tt
      else n ← name;
           _ ← demand (negb (mem n seen));
           _ ← expect ":";
           _ ← value fuel depth constant;
           object_items fuel depth constant (n :: seen)
  end.

(** Twice the tokens that are left, and two. *)
Definition with_fuel {A} (p : nat → parser A) : parser A :=
  λ st, p (2 * length (rest st) + 2) st.

Definition Argument : Type := string * list string.

(** The loop of [arguments]; a value is the tokens it takes. *)
Fixpoint argument_items (fuel : nat) (seen : list string) : parser (list Argument) :=
  match fuel with
  | O => refuse
  | S fuel =>
      stop ← at_token ")";
      if stop : bool then mret []
      else n ← name;
           _ ← demand (negb (mem n seen));
           _ ← expect ":";
           before ← tokens_left;
           _ ← with_fuel (λ fuel, value fuel 0 false);
           after ← tokens_left;
           later ← argument_items fuel (n :: seen);
           mret ((n, list.take (length before - length after) before) :: later)
  end.
Definition arguments : parser (list Argument) :=
  start ← at_token "(";
  if start : bool then
    _ ← take;
    l ← with_fuel (λ fuel, argument_items fuel []);
    _ ← expect ")";
    _ ← demand (negb (bool_decide (l = [])));
    mret (merge_sort key_le l)
  else mret [].

Fixpoint directives_loop (fuel : nat) : parser unit :=
  match fuel with
  | O => refuse
  | S fuel =>
      more ← at_token "@";
      if more : bool then _ ← take; _ ← name; _ ← arguments; directives_loop fuel else mret tt
  end.
Definition directives : parser unit := with_fuel directives_loop.

(** Whether the type is not null. *)
Fixpoint type_ref (fuel depth : nat) : parser bool :=
  match fuel with
  | O => refuse
  | S fuel =>
      _ ← demand (depth <=? 16);
      nested ← at_token "[";
      _ ← (if nested : bool then _ ← take; _ ← type_ref fuel (S depth); expect "]"
           else _ ← name; mret tt);
      bang ← at_token "!";
      if bang : bool then _ ← take; mret true else mret false
  end.

(** The loop of [variables]: the required names and the names. *)
Fixpoint variable_items (fuel : nat) (required seen : list string)
  : parser (list string * list string) :=
  match fuel with
  | O => refuse
  | S fuel =>
      stop ← at_token ")";
      if stop : bool then mret (required, seen)
      else _ ← expect "$";
           n ← name;
           _ ← demand (negb (mem n seen));
           _ ← expect ":";
           non_null ← with_fuel (λ fuel, type_ref fuel 0);
           has_default ← at_token "=";
           _ ← (if has_default : bool then _ ← take; with_fuel (λ fuel, value fuel 0 true)
                else mret tt);
           _ ← directives;
           variable_items fuel (if non_null && negb has_default then n :: required else required)
             (n :: seen)
  end.
Definition variables : parser (list string * list string) :=
  start ← at_token "(";
  if start : bool then
    _ ← take;
    l ← with_fuel (λ fuel, variable_items fuel [] []);
    _ ← expect ")";
    _ ← demand (negb (bool_decide (snd l = [])));
    mret l
  else mret ([], []).

Inductive Node :=
  | Field (name : string) (children : list Node) (response : string) (args : list Argument)
  | Inline (children : list Node)
  | Spread (name : string).
Definition no_nodes (l : list Node) : bool := match l with [] => true | _ => false end.

(** [selection], and its loop. *)
Fixpoint selection (fuel depth : nat) : parser (list Node) :=
  match fuel with
  | O => refuse
  | S fuel =>
      _ ← demand (depth <=? 32);
      _ ← expect "{";
      l ← selection_items fuel depth;
      _ ← expect "}";
      _ ← demand (negb (no_nodes l));
      mret l
  end
with selection_items (fuel depth : nat) : parser (list Node) :=
  match fuel with
  | O => refuse
  | S fuel =>
      stop ← at_token "}";
      if stop : bool then mret [] else
      dots ← at_token "...";
      if dots : bool then
        _ ← take;
        on ← at_token "on"; directive ← at_token "@"; brace ← at_token "{";
        if on || directive || brace then
          _ ← (if on : bool then _ ← take; _ ← name; mret tt else mret tt);
          _ ← directives;
          children ← selection fuel (S depth);
          later ← selection_items fuel depth;
          mret (Inline children :: later)
        else
          n ← name;
          _ ← directives;
          later ← selection_items fuel depth;
          mret (Spread n :: later)
      else
        response ← name;
        colon ← at_token ":";
        n ← (if colon : bool then _ ← take; name else mret response);
        args ← arguments;
        _ ← directives;
        brace ← at_token "{";
        children ← (if brace : bool then selection fuel (S depth) else mret []);
        later ← selection_items fuel depth;
        mret (Field n children response args :: later)
  end.

(** *** Documents *)

Record Operation := {
  op_kind : string;
  op_name : option string;
  op_nodes : list Node;
  op_required : list string;
  op_declared : list string;
  op_references : gset string }.
Record Fragment := { fr_nodes : list Node; fr_references : gset string }.
Record Document := { fragments : list (string * Fragment); operations : list Operation }.

(** [self.references = set()] *)
Definition forget : parser unit := λ st, Some (tt, {| rest := rest st; references := ∅ |}).
Definition named : parser (gset string) := λ st, Some (references st, st).

Definition operation_definition : parser Operation :=
  short ← at_token "{";
  '(kind, n, vars) ←
    (if short : bool then mret ("query", None, ([], []))
     else kind ← take;
          _ ← demand (mem kind ["query"; "mutation"; "subscription"]);
          t ← peek;
          n ← (if existsb (opt_is t) ["("; "@"; "{"] then mret None
               else n ← name; mret (Some n));
          vars ← variables;
          _ ← directives;
          mret (kind, n, vars));
  nodes ← with_fuel (λ fuel, selection fuel 0);
  refs ← named;
  mret {| op_kind := kind; op_name := n; op_nodes := nodes; op_required := fst vars;
          op_declared := snd vars; op_references := refs |}.

Definition fragment_definition (known : list string) : parser (string * Fragment) :=
  _ ← take;
  n ← name;
  _ ← demand (negb ((n =s "on") || mem n known));
  _ ← expect "on";
  _ ← name;
  _ ← directives;
  nodes ← with_fuel (λ fuel, selection fuel 0);
  refs ← named;
  mret (n, {| fr_nodes := nodes; fr_references := refs |}).

Fixpoint definitions (fuel : nat) (d : Document) : parser Document :=
  match fuel with
  | O => refuse
  | S fuel =>
      t ← peek;
      match t with
      | None => mret d
      | Some t =>
          _ ← forget;
          if t =s "fragment" then
            f ← fragment_definition (map fst (fragments d));
            definitions fuel {| fragments := fragments d ++ [f]; operations := operations d |}
          else
            o ← operation_definition;
            definitions fuel {| fragments := fragments d; operations := operations d ++ [o] |}
      end
  end.

(** *** Expansion of the selections *)

Record Expansion := {
  ex_visits : nat;
  ex_fields : gset string;
  ex_used : gset string;
  ex_references : gset string;
  ex_responses : gmap (list string) (string * list Argument) }.

Section expand.
Context (fragments : list (string * Fragment)).

(** A visited node; a field with its response path and signature. *)
Definition visit (prefix active : list string) (x : Expansion) : option Expansion :=
  let visits := S (ex_visits x) in
  if (MAX_GRAPHQL_NODES <? visits) || (32 <? length prefix + length active) then None
  else Some {| ex_visits := visits; ex_fields := ex_fields x; ex_used := ex_used x;
               ex_references := ex_references x; ex_responses := ex_responses x |}.
Definition visit_field (path : string) (key : list string) (signature : string * list Argument)
    (x : Expansion) : option Expansion :=
  if match ex_responses x !! key with
     | Some other => bool_decide (other = signature)
     | None => true
     end
  then Some {| ex_visits := ex_visits x; ex_fields := {[path]} ∪ ex_fields x;
               ex_used := ex_used x; ex_references := ex_references x;
               ex_responses := <[key := signature]> (ex_responses x) |}
  else None.
Definition visit_spread (n : string) (f : Fragment) (x : Expansion) : Expansion :=
  {| ex_visits := ex_visits x; ex_fields := ex_fields x; ex_used := {[n]} ∪ ex_used x;
     ex_references := fr_references f ∪ ex_references x; ex_responses := ex_responses x |}.

(** [expand] of one node; fuel bounds the fragments that are open. *)
Fixpoint expand_node (fuel : nat) (n : Node) (prefix active keys : list string) (x : Expansion)
  : option Expansion :=
  match fuel with
  | O => None
  | S fuel =>
      (fix node (n : Node) (prefix keys : list string) (x : Expansion) {struct n}
         : option Expansion :=
         x ← visit prefix active x;
         match n with
         | Field name children response args =>
             x ← visit_field (join "." (prefix ++ [name])) (keys ++ [response]) (name, args) x;
             each (λ c, node c (prefix ++ [name]) (keys ++ [response])) children x
         | Inline children => each (λ c, node c prefix keys) children x
         | Spread name =>
             match assoc_last name fragments with
             | Some f =>
                 if mem name active then None
                 else each (λ c, expand_node fuel c prefix (name :: active) keys) (fr_nodes f)
                        (visit_spread name f x)
             | None => None
             end
         end) n prefix keys x
  end.

Definition EXPANSION_FUEL : nat := 34.
Definition expand (nodes : list Node) (x : Expansion) : option Expansion :=
  each (λ n, expand_node EXPANSION_FUEL n [] [] []) nodes x.

(** The loop over the operations: every one expands, and names only variables
    that it declares. *)
Definition fresh (x : Expansion) (refs : gset string) : Expansion :=
  {| ex_visits := ex_visits x; ex_fields := ∅; ex_used := ex_used x; ex_references := refs;
     ex_responses := ∅ |}.
Fixpoint expand_operations (l : list Operation) (x : Expansion) : option Expansion :=
  match l with
  | [] => Some x
  | o :: l' =>
      x ← expand (op_nodes o) (fresh x (op_references o));
      if forallb (λ n, mem n (op_declared o)) (elements (ex_references x))
      then expand_operations l' x else None
  end.
End expand.

Definition opt_name (selected : json) : option (option string) :=
  match selected with
  | JNull => Some None
  | JStr s => if is_name s then Some (Some s) else None
  | _ => None
  end.

(** [document]. *)
Definition select (d : Document) (selected : json) (variables : list (string * json))
  : option GraphQLAuthority :=
  let names := map op_name (operations d) in
  if bool_decide (names = []) || negb (bool_decide (NoDup names))
     || (bool_decide (None ∈ names) && negb (length names =? 1)) then None else
  selected ← opt_name selected;
  match List.filter (λ o, match selected with
                          | None => true
                          | Some s => bool_decide (op_name o = Some s)
                          end) (operations d) with
  | [o] =>
      if existsb (λ n, match assoc_last n variables with None | Some JNull => true | _ => false end)
           (op_required o) then None else
      x ← expand_operations (fragments d) (operations d)
            {| ex_visits := 0; ex_fields := ∅; ex_used := ∅; ex_references := ∅;
               ex_responses := ∅ |};
      if negb (bool_decide (ex_used x = list_to_set (map fst (fragments d)))) then None else
      x ← expand (fragments d) (op_nodes o) (fresh x (ex_references x));
      Some {| operation_type := op_kind o; operation_name := op_name o;
              authority_fields := sorted (elements (ex_fields x)) |}
  | _ => None
  end.

Definition parse (source : string) : option Document :=
  if Nat.pow 2 16 <? String.length (utf8 source) then None else
  ts ← lex (S (String.length source)) 0 source;
  fst <$> definitions (S (length ts)) {| fragments := []; operations := [] |}
            {| rest := ts; references := ∅ |}.

(** One message of a body. *)
Definition message_authority (message : json) : option GraphQLAuthority :=
  match message with
  | JObj m =>
      if negb (forallb (λ kv, mem (fst kv) ["query"; "variables"; "operationName"]) m) then None else
      variables ← match assoc_last "variables" m with
                  | None | Some JNull => Some []
                  | Some (JObj variables) => Some variables
                  | Some _ => None
                  end;
      match assoc_last "query" m with
      | Some (JStr source) =>
          d ← parse source;
          select d (default JNull (assoc_last "operationName" m)) variables
      | _ => None
      end
  | _ => None
  end.
End Authority.

Definition graphql_authorities_of (body : json) : res (list GraphQLAuthority) :=
  let messages := match body with JArr l => l | _ => [body] end in
  if bool_decide (length messages = 0) || (128 <? length messages)
  then Err (ValueError "graphql_authority_invalid")
  else match mapM Authority.message_authority messages with
       | Some l => Ok l
       | None => Err (ValueError "graphql_authority_invalid")
       end.
