(* ===== verification/Requests.v ===== *)
(** * Protocol requests ([ordin/_rest_semantics.py], [request_endpoint] of [ordin/runtime_requests.py])

    The endpoint of a URL as [urllib.parse.urlsplit] reads it, bounded literal
    REST requests, and the implementation of what action reviews ask of
    requests.  The check of the host between brackets, which depends on the
    version of the standard library, is an argument. *)
From stdpp Require Import base list strings.
From Stdlib Require Import Bool Ascii ZArith QArith Lia.
From S2P Require Import Prelude PyStr Json JsonText RequestReaders Commitment GraphQL.
#[local] Open Scope py_scope.
#[local] Open Scope nat_scope.

(** ** [urlsplit] *)

(** [s.partition(c)]: before, whether found, after. *)
Definition partition (c : ascii) (s : string) : string * bool * string :=
  match split_once c s with
  | (before, Some after) => (before, true, after)
  | (before, None) => (before, false, "")
  end.
(** [s.rpartition(c)]: whether found, and the part after the last [c]. *)
Definition after_last (c : ascii) (s : string) : bool * string :=
  let parts := split_char c s in (1 <? length parts, List.last parts "").

(** The first part up to one of the characters, and the rest from there. *)
Fixpoint split_at (p : ascii → bool) (s : string) : string * string :=
  match s with
  | String c s' => if p c then ("", s) else let '(a, b) := split_at p s' in (String c a, b)
  | EmptyString => ("", "")
  end.

Definition scheme_char (c : ascii) : bool :=
  in_range 97 122 c || in_range 65 90 c || in_range 48 57 c || mem (String c "") ["+"; "-"; "."].
Definition ascii_alpha (c : ascii) : bool := in_range 65 90 c || in_range 97 122 c.

Record SplitResult := { scheme : string; netloc : string; url_path : string;
                        query : string; fragment : string }.

Definition split_scheme (url : string) : string * string :=
  match split_once ":"%char url with
  | (String c before, Some after) =>
      if ascii_alpha c && str_forall scheme_char (String c before)
      then (lower (String c before), after) else ("", url)
  | _ => ("", url)
  end.

(** [None] where [urlsplit] raises [ValueError]; the texts have no blanks or
    controls, and a host outside ASCII is refused by the caller. *)
Definition urlsplit (bracketed_host : string → bool) (url : string) : option SplitResult :=
  let '(scheme, url) := split_scheme url in
  let '(netloc, url) :=
    if startswith url "//"
    then split_at (λ c, mem (String c "") ["/"; "?"; "#"]) (str_drop 2 url) else ("", url) in
  let opens := contains netloc "[" in let closes := contains netloc "]" in
  if negb (Bool.eqb opens closes) || (opens && closes && negb (bracketed_host netloc))
  then None else
  let '(url, _, fragment) := partition "#"%char url in
  let '(path, _, query) := partition "?"%char url in
  Some {| scheme := scheme; netloc := netloc; url_path := path; query := query;
          fragment := fragment |}.

Definition hostinfo (netloc : string) : string * string :=
  let host := snd (after_last "@"%char netloc) in
  let '(_, have_open, bracketed) := partition "["%char host in
  if have_open then
    let '(hostname, _, after) := partition "]"%char bracketed in
    let '(_, _, port) := partition ":"%char after in (hostname, port)
  else let '(hostname, _, port) := partition ":"%char host in (hostname, port).
(** [hostname]: lower case up to a zone. *)
Definition hostname (netloc : string) : option string :=
  let h := fst (hostinfo netloc) in
  if truthy h then
    let '(name, found, zone) := partition "%"%char h in
    Some (lower name +:+ (if found then "%" else "") +:+ zone)
  else None.
(** [port]: [None] where it raises, [Some None] without one. *)
Definition decimal (s : string) : Z :=
  (fix go (s : string) (acc : Z) : Z :=
     match s with
     | String c s' => go s' (acc * 10 + (Z.of_N (code c) - 48))%Z
     | EmptyString => acc
     end) s 0%Z.
Definition port (netloc : string) : option (option Z) :=
  let p := snd (hostinfo netloc) in
  if negb (truthy p) then Some None
  else if str_forall (in_range 48 57) p then
    let n := decimal p in if (n <=? 65535)%Z then Some (Some n) else None
  else None.
(** [username is not None]. *)
Definition has_userinfo (netloc : string) : bool := fst (after_last "@"%char netloc).

(** ** [request_endpoint] *)

Definition has_unsafe_authority_characters (value : string) : bool :=
  str_exists (λ c, (code c <=? 32)%N || (code c =? 127)%N) value.

Definition _safe_path (path : string) : bool :=
  startswith path "/" && negb (startswith path "//")
  && forallb (λ part, negb (mem part ["."; ".."])) (split_char "/"%char path)
  && negb (str_exists (λ c, (code c <? 32)%N || mem (String c "") ["*"; "?"; "$"; "`"; "\"]) path).

Definition host_char (c : ascii) : bool :=
  ascii_alpha c || in_range 48 57 c || mem (String c "") ["."; ":"; "-"].
(** The HOST pattern and lengths of [NetworkCapability]; the path is bounded as
    any text of the runtime contracts. *)
Definition network_capability (host path : string) : bool :=
  match host with
  | String c _ => (ascii_alpha c || in_range 48 57 c) && str_forall host_char host
                  && (String.length host <=? 253)
  | EmptyString => false
  end
  && (String.length path <=? Nat.pow 2 12) && negb (str_exists (λ c, (code c <? 32)%N) path).

Section requests.
Context (bracketed_host : string → bool).

Definition endpoint_of (url : json) : option (string * Z * string) :=
  match url with
  | JStr s =>
      if has_unsafe_authority_characters s then None else
      parsed ← urlsplit bracketed_host s;
      p ← port (netloc parsed);
      let host := default "" (hostname (netloc parsed)) in
      let p := default (if scheme parsed =s "https" then 443 else 80)%Z p in
      let path := if truthy (url_path parsed) then url_path parsed else "/" in
      if negb (mem (scheme parsed) ["http"; "https"]) || negb (truthy host)
         || has_userinfo (netloc parsed) || truthy (query parsed) || truthy (fragment parsed)
      then None
      else if negb (1 <=? p)%Z || negb (_safe_path path)
              || str_exists (λ c, mem (String c "") ["%"; "?"; "#"]) path || contains path "//"
      then None
      else if network_capability host path then Some (host, p, path) else None
  | _ => None
  end.

(** ** REST requests *)

Definition REST_METHODS : list string :=
  ["GET"; "HEAD"; "OPTIONS"; "POST"; "PUT"; "PATCH"; "DELETE"].
Definition READ_METHODS : list string := ["GET"; "HEAD"; "OPTIONS"].
Definition UNSUPPORTED_HEADERS : list string :=
  ["host"; "content-length"; "transfer-encoding"; "connection"; "upgrade"; "te"; "trailer";
   "authorization"; "proxy-authorization"; "cookie"].
Definition header_char (c : ascii) : bool :=
  ascii_alpha c || in_range 48 57 c
  || mem (String c "") ["!"; "#"; "$"; "%"; "&"; "'"; "*"; "+"; "."; "^"; "_"; "`"; "|"; "~"; "-"].
Definition HEADER (name : string) : bool :=
  truthy name && (String.length name <=? 128) && str_forall header_char name.

Context (float_decimal : Q → Decimal) (sha256 : string → string).

Definition rest_unsupported : exn := ValueError "rest_request_unsupported".
Definition byte_length (s : string) : nat := String.length (utf8 s).

(** The loop over the headers. *)
Fixpoint normalize_headers (headers normalized : list (string * json))
  : res (list (string * json)) :=
  match headers with
  | [] => Ok normalized
  | (name, value) :: headers' =>
      let key := lower name in
      match value with
      | JStr v =>
          _ ← guard_or (HEADER name && negb (bool_decide (is_Some (assoc_last key normalized)))
                        && negb (mem key UNSUPPORTED_HEADERS) && negb (startswith key "proxy-")
                        && (byte_length v <=? Nat.pow 2 12)
                        && negb (str_exists (λ c, (code c <? 32)%N || (code c =? 127)%N) v))
                rest_unsupported;
          normalize_headers headers' (normalized ++ [(key, JStr v)])
      | _ => Err rest_unsupported
      end
  end.

Definition rest_material (parameters : json) : res (string * Z * string * string * json * bool) :=
  match parameters with
  | JObj m =>
      let body := assoc_last "body" m in
      _ ← guard_or (forallb (λ key, bool_decide (is_Some (assoc_last key m))) ["url"; "method"]
                    && forallb (λ kv, mem (fst kv) ["url"; "method"; "headers"; "body"]) m)
            rest_unsupported;
      match assoc_last "url" m, assoc_last "method" m with
      | Some (JStr url), Some (JStr method) =>
          match endpoint_of (JStr url) with
          | Some endpoint =>
              _ ← guard_or (negb (contains url "?") && negb (contains url "#")
                            && (byte_length url <=? Nat.pow 2 12) && mem method REST_METHODS)
                    rest_unsupported;
              match default (JObj []) (assoc_last "headers" m) with
              | JObj headers =>
                  _ ← guard_or (length headers <=? 128) rest_unsupported;
                  normalized ← normalize_headers headers [];
                  _ ← guard_or (negb (bool_decide (is_Some body))
                                || match assoc_last "content-type" normalized with
                                   | Some (JStr v) => v =s "application/json"
                                   | _ => true
                                   end) rest_unsupported;
                  Ok (endpoint, method,
                      JObj ([("method", JStr method); ("url", JStr url);
                             ("headers", JObj normalized)]
                            ++ match body with Some b => [("body", b)] | None => [] end),
                      mem method READ_METHODS && negb (bool_decide (is_Some body)))
              | _ => Err rest_unsupported
              end
          | None => Err rest_unsupported
          end
      | _, _ => Err rest_unsupported
      end
  | _ => Err rest_unsupported
  end.

Definition prepare_rest_request (parameters : json) : res RestRequest :=
  '(endpoint, method, material, reading) ← rest_material parameters;
  commitment ← Commitment.request_commitment float_decimal sha256 material;
  Ok {| rest_endpoint := endpoint; rest_method := method; rest_commitment := commitment;
        rest_reading := reading |}.

(** ** What the reviews ask *)

Definition ordin_readers : RequestReaders := {|
  prepare_rest := prepare_rest_request;
  graphql_operation := graphql_scope;
  request_endpoint := endpoint_of;
  graphql_authorities := graphql_authorities_of;
  RequestReaders.request_commitment := Commitment.request_commitment float_decimal sha256;
  RequestReaders.rpc_body_commitment := Commitment.rpc_body_commitment float_decimal sha256 |}.
End requests.
