(* ===== verification/ActionProvenance.v ===== *)
(** * The provenance of an action review ([ordin/action.py])

    Resources of the evidence, and the records that a review writes about the
    adapter, the effects and resources, the risk rules, the context and the
    intent.  Every record passes the checks of its constructor. *)
From stdpp Require Import base list strings gmap sets.
From Stdlib Require Import Bool Ascii ZArith Lia.
From S2P Require Import Prelude PyStr Json Policy Effects Semantics Risk Execution Provenance ActionModel.
#[local] Open Scope py_scope.

(** [raw.partition(":")] with the fallback of an unknown type, in lower case
    with hyphens. *)
Definition resource_parts (raw : string) : string * string :=
  match split_once ":"%char raw with
  | (type, Some value) =>
      if truthy type && truthy value then (type, value) else ("unknown", raw)
  | (_, None) => ("unknown", raw)
  end.
Definition resource_type_name (type : string) : string :=
  replace_char "_"%char "-"%char (lower type).

Fixpoint resources_loop (items : list EffectEvidence) (seen : gset (string * string))
  : res (list ActionResource) :=
  match items with
  | [] => Ok []
  | item :: items' =>
      match ev_resource item with
      | None => resources_loop items' seen
      | Some raw =>
          if negb (truthy raw) then resources_loop items' seen else
          let (type, value) := resource_parts raw in
          let type := resource_type_name type in
          if bool_decide ((type, value) ∈ seen) then resources_loop items' seen
          else
            resource ← mk_ActionResource type value;
            resources ← resources_loop items' ({[(type, value)]} ∪ seen);
            Ok (resource :: resources)
      end
  end.
Definition _resources_from_evidence (resolved : SemanticEvidenceSet) : res (list ActionResource) :=
  resources_loop (evidence_items resolved) ∅.

Definition CONTEXT_PROVENANCE_CATEGORIES : list string :=
  ["root_filesystem_mutation"; "outside_repo_mutation"; "elevated_context"].

Definition _provenance_resource (raw : option string) : res (option ProvenanceResource) :=
  match raw with
  | None => Ok None
  | Some raw =>
      if negb (truthy raw) then Ok None else
      match split_once ":"%char raw with
      | (type, Some value) =>
          if truthy type && truthy value then
            let type := resource_type_name type in
            r ← (if ACTION_KIND_PATTERN type then mk_ProvenanceResource type value
                 else mk_ProvenanceResource "unknown" raw);
            Ok (Some r)
          else r ← mk_ProvenanceResource "unknown" raw; Ok (Some r)
      | (_, None) => r ← mk_ProvenanceResource "unknown" raw; Ok (Some r)
      end
  end.

(** [review.adapter or default]. *)
Definition adapter_or (review : ActionReview) (default : string) : string :=
  or_default (av_adapter review) default.

Definition adapter_rule_id (review : ActionReview) : option string :=
  match av_adapter review with
  | Some adapter =>
      if startswith adapter "tool-semantics:"
      then Some (str_drop (String.length "tool-semantics:") adapter) else None
  | None => None
  end.

(** The records in the order of the code, each before its constructor's check. *)
Definition adapter_record (review : ActionReview) : ProvenanceRecord :=
  {| pv_source := "adapter";
     pv_kind := if opt_truthy (adapter_rule_id review) then "rule" else "finding";
     pv_code := "adapter.classification";
     pv_summary := Some (if opt_truthy (av_adapter review)
                         then "classified by adapter " +:+ dquoted (adapter_or review EmptyString)
                         else "no deterministic semantic adapter classified the action");
     pv_decision := Some (av_decision review); pv_risk := Some (av_risk review);
     pv_effect := None; pv_resource := None; pv_rule_id := adapter_rule_id review;
     pv_action_id := ac_action_id (av_action review); pv_category := None; pv_indices := [];
     pv_metadata := [("adapter", SText (adapter_or review "none"))] |}.

Definition semantic_record (item : EffectEvidence) : res ProvenanceRecord :=
  resource ← _provenance_resource (ev_resource item);
  mk_ProvenanceRecord
    {| pv_source := "semantic"; pv_kind := "effect"; pv_code := "semantic.effect";
       pv_summary := Some (ev_reason item); pv_decision := None;
       pv_risk := Some (ev_risk item); pv_effect := Some (ev_effect item);
       pv_resource := resource; pv_rule_id := None; pv_action_id := None;
       pv_category := Some (ev_category item); pv_indices := [];
       pv_metadata := [("semantic_source", SText (ev_source item))] |}.

Definition effect_record (review : ActionReview) (effect : string) : ProvenanceRecord :=
  {| pv_source := "semantic"; pv_kind := "effect"; pv_code := "semantic.effect";
     pv_summary := None; pv_decision := None; pv_risk := None; pv_effect := Some effect;
     pv_resource := None; pv_rule_id := None; pv_action_id := None; pv_category := None;
     pv_indices := [];
     pv_metadata := [("semantic_source", SText (adapter_or review "action-review"))] |}.

Definition resource_record (review : ActionReview) (r : ActionResource) : res ProvenanceRecord :=
  resource ← mk_ProvenanceResource (ar_type r) (ar_value r);
  mk_ProvenanceRecord
    {| pv_source := "semantic"; pv_kind := "resource"; pv_code := "semantic.resource";
       pv_summary := None; pv_decision := None; pv_risk := None; pv_effect := None;
       pv_resource := Some resource; pv_rule_id := None; pv_action_id := None;
       pv_category := None; pv_indices := [];
       pv_metadata := [("semantic_source", SText (adapter_or review "action-review"))] |}.

Definition rule_record (rule_id : string) : ProvenanceRecord :=
  {| pv_source := "risk_rule"; pv_kind := "rule"; pv_code := "risk-rule.match";
     pv_summary := None; pv_decision := None; pv_risk := None; pv_effect := None;
     pv_resource := None; pv_rule_id := Some rule_id; pv_action_id := None;
     pv_category := None; pv_indices := []; pv_metadata := [] |}.

Definition context_record (category : string) : ProvenanceRecord :=
  {| pv_source := "context"; pv_kind := "finding"; pv_code := "context." +:+ category;
     pv_summary := None; pv_decision := None; pv_risk := None; pv_effect := None;
     pv_resource := None; pv_rule_id := None; pv_action_id := None;
     pv_category := Some category; pv_indices := []; pv_metadata := [] |}.

Definition intent_record : ProvenanceRecord :=
  {| pv_source := "intent"; pv_kind := "finding"; pv_code := "intent.mismatch";
     pv_summary := Some "the proposed action does not align with the supplied intent";
     pv_decision := Some Warn; pv_risk := Some "medium"; pv_effect := None;
     pv_resource := None; pv_rule_id := None; pv_action_id := None; pv_category := None;
     pv_indices := []; pv_metadata := [] |}.

Definition base_record (review : ActionReview) : ProvenanceRecord :=
  {| pv_source := "decision"; pv_kind := "merge"; pv_code := "decision.base";
     pv_summary := None; pv_decision := Some (av_decision review);
     pv_risk := Some (av_risk review); pv_effect := None; pv_resource := None;
     pv_rule_id := None; pv_action_id := None; pv_category := None; pv_indices := [];
     pv_metadata := [] |}.

(** The pairs of [represented_resources]. *)
Definition represented (items : list ProvenanceRecord) : gset (string * string) :=
  list_to_set (omap (λ r, (λ x, (pr_type x, pr_value x)) <$> pv_resource r) items).

Definition _base_provenance (review : ActionReview) (semantic_evidence : list EffectEvidence)
    (risk_review : option RiskReview) : res DecisionProvenance :=
  adapter ← mk_ProvenanceRecord (adapter_record review);
  semantic ← all_ok (map semantic_record semantic_evidence);
  let represented_effects := map ev_effect semantic_evidence in
  more_effects ← all_ok (map (λ e, mk_ProvenanceRecord (effect_record review e))
                    (List.filter (λ e, negb (mem e represented_effects)) (av_effects review)));
  more_resources ← all_ok (map (resource_record review)
                      (List.filter (λ r, negb (bool_decide
                         ((ar_type r, ar_value r) ∈ represented semantic)))
                         (av_resources review)));
  rules ← all_ok (map (λ id, mk_ProvenanceRecord (rule_record id))
                    (match risk_review with Some r => rv_matched_rules r | None => [] end));
  contexts ← all_ok (map (λ c, mk_ProvenanceRecord (context_record c))
                (List.filter (λ c, mem c CONTEXT_PROVENANCE_CATEGORIES)
                   (match risk_review with Some r => rv_risk_categories r | None => [] end)));
  intents ← (if av_intent_alignment review =s "mismatch"
             then r ← mk_ProvenanceRecord intent_record; Ok [r] else Ok []);
  base ← mk_ProvenanceRecord (base_record review);
  mk_DecisionProvenance
    {| records := [adapter] ++ semantic ++ more_effects ++ more_resources ++ rules ++ contexts
                  ++ intents ++ [base];
       final_decision := av_decision review; final_risk := av_risk review |}.

Definition _with_base_provenance (review : ActionReview) (semantic_evidence : list EffectEvidence)
    (risk_review : option RiskReview) : res ActionReview :=
  match av_provenance review with
  | Some _ => Ok review
  | None =>
      provenance ← _base_provenance review semantic_evidence risk_review;
      Ok (with_provenance provenance review)
  end.

Definition _with_capabilities (review : ActionReview) : res ActionReview :=
  updated ← match av_capabilities review with
            | Some _ => Ok review
            | None =>
                c ← derive_capabilities (ac_kind (av_action review)) (av_effects review)
                      (av_resources review);
                Ok (with_capabilities c review)
            end;
  _with_base_provenance updated [] None.
