(* ===== verification/ToolCalls.v ===== *)
(** * Trusted semantics of tools ([ordin/tool_calls.py])

    A registry gives exact tool identities their typed effects and the argument
    paths that name resources.  A compiled registry is a map from identities to
    rules with the risk and the reasons of their effects.  The effect catalog is
    the one of the [Store]; caching a compiled registry changes nothing while
    the catalog is the same. *)
From stdpp Require Import base list strings pretty gmap sets.
From Stdlib Require Import Bool Ascii ZArith Lia.
From S2P Require Import Prelude PyStr Json Policy Catalog Risk Temporal Execution Provenance ActionModel.
#[local] Open Scope py_scope.

Definition TOOL_SEMANTICS_SCHEMA_VERSION : string := "ordin.tool_semantics.v1".
Definition MAX_TOOL_SEMANTICS_RULES : nat := 256.
Definition MAX_TOOL_EFFECTS : nat := 64.
Definition MAX_RESOURCE_BINDINGS : nat := 64.
Definition MAX_ARGUMENT_PATH_SEGMENTS : nat := 16.
Definition MAX_NAME_LENGTH : nat := 256.
Definition MAX_ARGUMENT_PATH_LENGTH : nat := 512.

(** [(kind, scope, tool)]. *)
Definition ToolIdentity : Type := string * string * string.
Definition repr_identity (identity : option ToolIdentity) : string :=
  match identity with
  | Some (kind, scope, tool) =>
      "(" +:+ repr kind +:+ ", " +:+ repr scope +:+ ", " +:+ repr tool +:+ ")"
  | None => "None"
  end.

Definition _required_text (value name : string) (maximum : nat) : res string :=
  _ ← guard_or (truthy (strip value)) (ValueError (name +:+ " must be non-empty text"));
  _ ← guard_or (String.length value <=? maximum)
        (ValueError (name +:+ " must be at most " +:+ pretty maximum +:+ " characters"));
  Ok value.

(** ** Bindings *)

Record ToolResourceBinding := { tb_argument : string; tb_type : string }.
#[export] Instance ToolResourceBinding_eq_dec : EqDecision ToolResourceBinding.
Proof. solve_decision. Defined.

Definition mk_ToolResourceBinding (b : ToolResourceBinding) : res ToolResourceBinding :=
  _ ← _required_text (tb_type b) "resource type" MAX_NAME_LENGTH;
  _ ← _required_text (tb_argument b) "resource argument path" MAX_ARGUMENT_PATH_LENGTH;
  let parts := split_char "."%char (tb_argument b) in
  _ ← guard_or (length parts <=? MAX_ARGUMENT_PATH_SEGMENTS)
        (ValueError "resource argument path supports at most 16 segments");
  _ ← all_ok (map (λ part, _required_text part "resource argument path segment"
                             MAX_NAME_LENGTH) parts);
  Ok b.

Definition ToolResourceBinding_from_dict (payload : list (string * json))
  : res ToolResourceBinding :=
  _ ← _reject_unknown payload ["argument"; "type"] "tool resource binding";
  match field payload "argument", field payload "type" with
  | JStr argument, JStr type => mk_ToolResourceBinding {| tb_argument := argument; tb_type := type |}
  | _, _ => Err (ValueError "tool resource binding requires string argument and type")
  end.
Definition ToolResourceBinding_as_dict (b : ToolResourceBinding) : list (string * json) :=
  [("argument", JStr (tb_argument b)); ("type", JStr (tb_type b))].

(** ** Rules *)

Record ToolSemanticRule := {
  ts_id : string;
  ts_kind : string;
  ts_tool : string;
  ts_effects : list string;
  ts_runtime : option string;
  ts_server : option string;
  ts_resources : list ToolResourceBinding }.

Definition mk_ToolSemanticRule (r : ToolSemanticRule) : res ToolSemanticRule :=
  _ ← _required_text (ts_id r) "tool semantics rule id" MAX_NAME_LENGTH;
  _ ← _required_text (ts_tool r) "tool semantics tool" MAX_NAME_LENGTH;
  _ ← guard_or (mem (ts_kind r) ["tool"; "mcp"])
        (ValueError "tool semantics kind must be 'tool' or 'mcp'");
  _ ← (if ts_kind r =s "tool" then
         match ts_runtime r with
         | None => Err (ValueError "generic tool semantics require an exact runtime identity")
         | Some runtime =>
             _ ← _required_text runtime "tool semantics runtime" MAX_NAME_LENGTH;
             guard_or (bool_decide (ts_server r = None))
               (ValueError "generic tool semantics cannot declare an MCP server")
         end
       else
         match ts_server r with
         | None => Err (ValueError "MCP tool semantics require an exact server identity")
         | Some server =>
             _ ← _required_text server "tool semantics server" MAX_NAME_LENGTH;
             guard_or (bool_decide (ts_runtime r = None))
               (ValueError "MCP tool semantics cannot declare a generic runtime")
         end);
  _ ← guard_or (negb (bool_decide (ts_effects r = [])))
        (ValueError "tool semantics require at least one typed effect");
  _ ← guard_or (length (ts_effects r) <=? MAX_TOOL_EFFECTS)
        (ValueError "tool semantics support at most 64 effects");
  _ ← all_ok (map (λ effect, _required_text effect "tool semantics effect" MAX_NAME_LENGTH)
                 (ts_effects r));
  _ ← guard_or (length (ts_resources r) <=? MAX_RESOURCE_BINDINGS)
        (ValueError "tool semantics support at most 64 resources");
  Ok r.

(** The property [identity]; the constructor rules the assertion out. *)
Definition rule_identity (r : ToolSemanticRule) : res ToolIdentity :=
  match if ts_kind r =s "tool" then ts_runtime r else ts_server r with
  | Some scope => Ok (ts_kind r, scope, ts_tool r)
  | None => Err (AssertionError EmptyString)
  end.

Definition ToolSemanticRule_from_dict (payload : list (string * json)) : res ToolSemanticRule :=
  _ ← _reject_unknown payload ["id"; "kind"; "runtime"; "server"; "tool"; "effects"; "resources"]
        "tool semantics rule";
  match field payload "id", field payload "kind", field payload "tool" with
  | JStr rule_id, JStr kind, JStr tool =>
      runtime ← opt_str_field (field payload "runtime")
                  "tool semantics runtime must be a string or null";
      server ← opt_str_field (field payload "server")
                 "tool semantics server must be a string or null";
      effects_raw ← strings_of (field payload "effects")
                      "tool semantics effects must be an array of strings";
      _ ← guard_or (length effects_raw <=? MAX_TOOL_EFFECTS)
            (ValueError "tool semantics effects support at most 64 items");
      resources_raw ← as_list (default (JArr []) (assoc_last "resources" payload))
                        "tool semantics resources must be an array";
      _ ← guard_or (length resources_raw <=? MAX_RESOURCE_BINDINGS)
            (ValueError "tool semantics resources support at most 64 items");
      resources ← read_objects ToolResourceBinding_from_dict
                    "tool resource bindings must be JSON objects" resources_raw;
      mk_ToolSemanticRule
        {| ts_id := rule_id; ts_kind := kind; ts_tool := tool;
           ts_effects := dedup_by id effects_raw; ts_runtime := runtime; ts_server := server;
           ts_resources := resources |}
  | _, _, _ => Err (ValueError "tool semantics rule requires string id, kind, and tool")
  end.

Definition ToolSemanticRule_as_dict (r : ToolSemanticRule) : list (string * json) :=
  [("id", JStr (ts_id r)); ("kind", JStr (ts_kind r)); ("tool", JStr (ts_tool r));
   ("effects", jstrings (ts_effects r));
   ("resources", JArr (map (λ b, JObj (ToolResourceBinding_as_dict b)) (ts_resources r)))]
  ++ match ts_runtime r with Some runtime => [("runtime", JStr runtime)] | None => [] end
  ++ match ts_server r with Some server => [("server", JStr server)] | None => [] end.

(** ** Registries *)

Record ToolSemanticsRegistry := {
  registry_id : string;
  registry_version : string;
  tool_rules : list ToolSemanticRule }.

Section catalog.
Context (st : Store).

(** The loop of [__post_init__] over the rules. *)
Fixpoint check_rules (catalog : list (string * json)) (rule_ids : gset string)
    (identities : gset ToolIdentity) (l : list ToolSemanticRule) : res unit :=
  match l with
  | [] => Ok tt
  | rule :: l' =>
      _ ← guard_or (bool_decide (ts_id rule ∉ rule_ids))
            (ValueError ("duplicate tool semantics rule id: " +:+ ts_id rule));
      identity ← rule_identity rule;
      _ ← guard_or (bool_decide (identity ∉ identities))
            (ValueError ("duplicate tool semantics identity: " +:+ repr_identity (Some identity)));
      let unknown := sorted (List.filter (λ effect, negb (bool_decide (is_Some
                               (dict_get effect catalog)))) (ts_effects rule)) in
      _ ← guard_or (bool_decide (unknown = []))
            (ValueError ("unknown effects in tool semantics: " +:+ join ", " unknown));
      check_rules catalog ({[ts_id rule]} ∪ rule_ids) ({[identity]} ∪ identities) l'
  end.

Definition mk_ToolSemanticsRegistry (r : ToolSemanticsRegistry) : res ToolSemanticsRegistry :=
  _ ← _required_text (registry_id r) "tool semantics registry_id" MAX_NAME_LENGTH;
  _ ← _required_text (registry_version r) "tool semantics version" MAX_NAME_LENGTH;
  _ ← guard_or (length (tool_rules r) <=? MAX_TOOL_SEMANTICS_RULES)
        (ValueError "tool semantics support at most 256 rules");
  catalog ← load_effect_catalog st;
  _ ← check_rules catalog ∅ ∅ (tool_rules r);
  Ok r.

Definition ToolSemanticsRegistry_from_dict (payload : list (string * json))
  : res ToolSemanticsRegistry :=
  _ ← _reject_unknown payload ["schema_version"; "registry_id"; "version"; "rules"]
        "tool semantics registry";
  _ ← guard_or (match field payload "schema_version" with
                | JStr s => s =s TOOL_SEMANTICS_SCHEMA_VERSION | _ => false end)
        (ValueError "unsupported tool semantics schema");
  match field payload "registry_id", field payload "version" with
  | JStr id, JStr version =>
      rules_raw ← as_list (field payload "rules") "tool semantics rules must be an array";
      _ ← guard_or (length rules_raw <=? MAX_TOOL_SEMANTICS_RULES)
            (ValueError "tool semantics rules support at most 256 items");
      rules ← read_objects ToolSemanticRule_from_dict
                "tool semantics rules must be JSON objects" rules_raw;
      mk_ToolSemanticsRegistry
        {| registry_id := id; registry_version := version; tool_rules := rules |}
  | _, _ => Err (ValueError "tool semantics registry requires string registry_id and version")
  end.

Definition ToolSemanticsRegistry_as_dict (r : ToolSemanticsRegistry) : list (string * json) :=
  [("schema_version", JStr TOOL_SEMANTICS_SCHEMA_VERSION); ("registry_id", JStr (registry_id r));
   ("version", JStr (registry_version r));
   ("rules", JArr (map (λ r, JObj (ToolSemanticRule_as_dict r)) (tool_rules r)))].

(** ** Compilation *)

Record CompiledToolSemanticRule := {
  cs_rule : ToolSemanticRule;
  cs_risk : string;
  cs_reasons : list string;
  cs_safer_next_step : option string }.

Record CompiledToolSemanticsRegistry := {
  cs_registry : ToolSemanticsRegistry;
  by_identity : gmap ToolIdentity CompiledToolSemanticRule }.

(** The loop over the effects of a rule. *)
Fixpoint compile_effects (catalog : list (string * json)) (effects : list string)
    (risk : string) (reasons : list string) (safer : option string)
  : res (string * list string * option string) :=
  match effects with
  | [] => Ok (risk, reasons, safer)
  | effect :: effects' =>
      match dict_get effect catalog with
      | None => Err (KeyError effect)
      | Some definition =>
          if negb (is_mapping definition) then Err (AttributeError "get") else
          risk ← match jget definition "risk" with
                 | JStr effect_risk => max_risk risk effect_risk
                 | _ => Ok risk
                 end;
          let reasons := match jget definition "reason" with
                         | JStr reason => if mem reason reasons then reasons
                                          else reasons ++ [reason]
                         | _ => reasons
                         end in
          let safer := match safer with
                       | Some _ => safer
                       | None => opt_of_str (jget definition "safer_next_step")
                       end in
          compile_effects catalog effects' risk reasons safer
      end
  end.

Definition compile_rule (catalog : list (string * json)) (rule : ToolSemanticRule)
  : res CompiledToolSemanticRule :=
  out ← compile_effects catalog (ts_effects rule) "low" [] None;
  let '(risk, reasons, safer) := out in
  Ok {| cs_rule := rule; cs_risk := risk; cs_reasons := reasons; cs_safer_next_step := safer |}.

(** The loop over the rules. *)
Fixpoint compile_rules (catalog : list (string * json)) (rules : list ToolSemanticRule)
    (compiled : gmap ToolIdentity CompiledToolSemanticRule)
  : res (gmap ToolIdentity CompiledToolSemanticRule) :=
  match rules with
  | [] => Ok compiled
  | rule :: rules' =>
      c ← compile_rule catalog rule;
      identity ← rule_identity rule;
      compile_rules catalog rules' (<[identity := c]> compiled)
  end.

Definition compile_tool_semantics (registry : ToolSemanticsRegistry)
  : res CompiledToolSemanticsRegistry :=
  catalog ← load_effect_catalog st;
  compiled ← compile_rules catalog (tool_rules registry) ∅;
  Ok {| cs_registry := registry; by_identity := compiled |}.
End catalog.

(** ** The review of a call *)

(** A member of the parameters that is a non-empty text. *)
Definition text_parameter (a : ActionEnvelope) (key : string) : option string :=
  match field (ac_parameters a) key with
  | JStr s => if truthy s then Some s else None
  | _ => None
  end.

Definition _action_identity (a : ActionEnvelope) : option ToolIdentity :=
  if negb (ac_operation a =s "call") || negb (mem (ac_kind a) ["tool"; "mcp"]) then None else
  match text_parameter a "tool" with
  | None => None
  | Some tool =>
      if ac_kind a =s "tool" then
        match text_parameter a "runtime" with
        | Some runtime => Some ("tool", runtime, tool)
        | None => None
        end
      else
        match text_parameter a "server" with
        | Some server => Some ("mcp", server, tool)
        | None => None
        end
  end.

Definition find (c : CompiledToolSemanticsRegistry) (a : ActionEnvelope)
  : option CompiledToolSemanticRule :=
  match _action_identity a with
  | Some identity => by_identity c !! identity
  | None => None
  end.

(** The loop over the parts of the path. *)
Fixpoint lookup_parts (current : json) (parts : list string) : json :=
  match parts with
  | [] => current
  | part :: parts' =>
      match current with
      | JObj m =>
          match assoc_last part m with
          | Some value => lookup_parts value parts'
          | None => JNull
          end
      | _ => JNull
      end
  end.
Definition _lookup_argument (arguments : json) (path : string) : json :=
  lookup_parts arguments (split_char "."%char path).

(** The loop over the bindings. *)
Fixpoint bind_resources (arguments : json) (seen : gset (string * string))
    (bindings : list ToolResourceBinding) : res (list ActionResource) :=
  match bindings with
  | [] => Ok []
  | binding :: bindings' =>
      match _lookup_argument arguments (tb_argument binding) with
      | JStr value =>
          if negb (truthy value) || bool_decide ((tb_type binding, value) ∈ seen)
          then bind_resources arguments seen bindings'
          else
            resource ← mk_ActionResource (tb_type binding) value;
            resources ← bind_resources arguments ({[(tb_type binding, value)]} ∪ seen) bindings';
            Ok (resource :: resources)
      | _ => bind_resources arguments seen bindings'
      end
  end.
Definition _resources_from_bindings (a : ActionEnvelope) (bindings : list ToolResourceBinding)
  : res (list ActionResource) :=
  let arguments := field (ac_parameters a) "arguments" in
  if is_mapping arguments then bind_resources arguments ∅ bindings else Ok [].

(** [registry] is compiled; [review_tool_action] compiles the other kind. *)
Definition review_tool_action (a : ActionEnvelope) (compiled : CompiledToolSemanticsRegistry)
  : res ActionReview :=
  match find compiled a with
  | None =>
      Ok (plain_review a Ask "unknown"
            ["no trusted local semantics are registered for tool identity "
             +:+ repr_identity (_action_identity a)]
            (Some "Require explicit approval or configure trusted local tool semantics.")
            [] [] None)
  | Some c =>
      resources ← _resources_from_bindings a (ts_resources (cs_rule c));
      Ok (plain_review a (decision_for_risk (cs_risk c)) (cs_risk c)
            (match cs_reasons c with
             | [] => ["trusted local tool semantics rule " +:+ ts_id (cs_rule c) +:+ " matched"]
             | reasons => reasons
             end)
            (cs_safer_next_step c) (ts_effects (cs_rule c)) resources
            (Some ("tool-semantics:" +:+ ts_id (cs_rule c))))
  end.
