(* ===== verification/Action.v ===== *)
(** * The review of an action ([ordin/action.py])

    The review of one action by its kind, the evidence of an action for the
    temporal policy, the correlation of observations with a history, and the
    review with its history.  Runtime observations are not modelled: the
    reviews here are those without them. *)
From stdpp Require Import base list strings pretty gmap sets.
From Stdlib Require Import Bool Ascii ZArith QArith Lia.
From S2P Require Import Prelude PyStr Json JsonText Policy Context Catalog Effects Risk Semantics Temporal Review.
From S2P Require Import Execution Provenance ActionModel RequestReaders ActionProvenance ToolCalls.
#[local] Open Scope py_scope.

(** [try: m except (ValueError, TypeError): pass]; [None] goes on. *)
Definition attempt {A} (m : res (option A)) : res (option A) :=
  match m with
  | Err (ValueError _) | Err (TypeError _) => Ok None
  | _ => m
  end.

(** [set(parameters) == names] and the two other questions about the names. *)
Definition has_key (m : list (string * json)) (key : string) : bool :=
  bool_decide (is_Some (assoc_last key m)).
Definition keys_within (m : list (string * json)) (allowed : list string) : bool :=
  forallb (λ kv, mem (fst kv) allowed) m.
Definition keys_contain (m : list (string * json)) (required : list string) : bool :=
  forallb (has_key m) required.
Definition keys_equal (m : list (string * json)) (keys : list string) : bool :=
  keys_within m keys && keys_contain m keys.

(** [ActionResource(type, value)] of a value that need not be a text. *)
Definition resource_of (type : string) (value : json) : res ActionResource :=
  match value with
  | JStr s => mk_ActionResource type s
  | _ => _ ← _validate_identifier type "resource type" MAX_ACTION_KIND_LENGTH ACTION_KIND_PATTERN;
         Err (ValueError "resource value must be non-empty text")
  end.

(** [[A-Za-z0-9_.-]{1,128}] on the whole text. *)
Definition server_name (s : string) : bool :=
  truthy s && (String.length s <=? 128)
  && str_forall (λ c, is_alnum_char c && (code c <? 128)%N
                      || mem (String c EmptyString) ["_"; "."; "-"]) s.

Section action.
Context {score : Type} (close_to : score → score → bool).
Context (search : string → res (list (@SearchResult score))).
(** [default_temporal_policy()], read from a data file. *)
Context (default_policy : TemporalPolicySet).
(** The text of a float, and the digest of a policy. *)
Context (float_repr : Q → string) (digest : json → string).
Context `{RequestReaders}.
Context (st : Store).

(** What every review of a request builds: the capabilities come before the
    provenance. *)
Definition request_review (action : ActionEnvelope) (decision : Decision) (risk reason : string)
    (effects : list string) (resources : list ActionResource) (adapter : string)
  : res (option ActionReview) :=
  c ← derive_capabilities (ac_kind action) effects resources;
  r ← _with_base_provenance
        (with_capabilities c (plain_review action decision risk [reason] None effects resources
                                (Some adapter))) [] None;
  Ok (Some r).

(** A request that reads is allowed, one that writes is warned about. *)
Definition reading_review (action : ActionEnvelope) (reading : bool) (reason : string)
    (resources : list ActionResource) (adapter : string) : res (option ActionReview) :=
  request_review action (if reading then Allow else Warn) (if reading then "low" else "medium")
    reason [if reading then "network.download" else "network.upload"] resources adapter.

(** [rest_semantics] is the list of selected methods. *)
Definition rest_branch (rest_semantics : option (list string)) (action : ActionEnvelope)
  : res (option ActionReview) :=
  match rest_semantics with
  | Some methods =>
      if (ac_kind action =s "network") && (ac_operation action =s "http.request") then
        attempt
          (prepared ← prepare_rest (JObj (ac_parameters action));
           if mem (rest_method prepared) methods then
             resource ← resource_of "url" (field (ac_parameters action) "url");
             reading_review action (rest_reading prepared)
               "Host-selected literal REST semantics require exact request authority."
               [resource] "network.rest"
           else Ok None)
      else Ok None
  | None => Ok None
  end.

Definition is_mcp_request (action : ActionEnvelope) : bool :=
  (ac_kind action =s "mcp") && (ac_operation action =s "protocol.request").
Definition protocol_version (action : ActionEnvelope) : json :=
  default (JStr "2025-11-25") (assoc_last "protocol_version" (ac_parameters action)).
Definition text_in (j : json) (l : list string) : bool :=
  match j with JStr s => mem s l | _ => false end.
Definition json_server (j : json) : option string :=
  match j with JStr s => if server_name s then Some s else None | _ => None end.
Definition mcp_effect (method : json) : list string :=
  [if text_in method ["tools/list"] then "network.download" else "network.connect"].

(** The control methods with empty parameters. *)
Definition mcp_control_branch (action : ActionEnvelope) : res (option ActionReview) :=
  if negb (is_mcp_request action) then Ok None else
  let parameters := ac_parameters action in
  let method := field parameters "method" in
  match json_server (field parameters "server") with
  | Some server =>
      if keys_contain parameters ["server"; "method"]
         && keys_within parameters ["server"; "method"; "params"; "protocol_version"]
         && text_in method ["ping"; "tools/list"; "notifications/initialized"]
         && text_in (protocol_version action) MCP_VERSIONS
         && match default (JObj []) (assoc_last "params" parameters) with
            | JObj [] => true | _ => false end
      then
        resource ← mk_ActionResource "mcp_server" server;
        request_review action Allow "low"
          "Known MCP control method with empty parameters; transport authority requires host binding."
          (mcp_effect method) [resource] "mcp.protocol"
      else Ok None
  | None => Ok None
  end.

(** The condition [valid] on the parameters of [initialize] and [tools/list];
    where testing it raises, the exception is discarded and the review goes on
    as if it were false. *)
Definition mcp_params_valid (method version : json) (params : list (string * json)) : bool :=
  if text_in method ["initialize"] then
    keys_equal params ["protocolVersion"; "capabilities"; "clientInfo"]
    && json_equal (field params "protocolVersion") version
    && is_mapping (field params "capabilities")
    && is_mapping (field params "clientInfo")
    && is_str (jget (field params "clientInfo") "name")
    && is_str (jget (field params "clientInfo") "version")
  else keys_equal params ["cursor"] && is_str (field params "cursor").

Definition mcp_parameter_branch (action : ActionEnvelope) : res (option ActionReview) :=
  if negb (is_mcp_request action) then Ok None else
  let parameters := ac_parameters action in
  let method := field parameters "method" in
  let version := protocol_version action in
  match json_server (field parameters "server"), field parameters "params" with
  | Some server, JObj params =>
      if keys_within parameters ["server"; "method"; "params"; "protocol_version"]
         && text_in method ["initialize"; "tools/list"]
         && text_in version MCP_VERSIONS
         && mcp_params_valid method version params
      then
        attempt
          (_ ← rpc_body_commitment (JObj [("jsonrpc", JStr "2.0"); ("id", JInt 1);
                                          ("method", method); ("params", JObj params)]);
           resource ← mk_ActionResource "mcp_server" server;
           request_review action Allow "low"
             "Known MCP control method requires exact parameter authority enforcement."
             (mcp_effect method) [resource] "mcp.protocol")
      else Ok None
  | _, _ => Ok None
  end.

Definition graphql_invalid : exn := ValueError "graphql_authority_invalid".

(** The body that the second GraphQL reading works on. *)
Definition graphql_body (parameters : list (string * json)) : res json :=
  match assoc_last "body" parameters with
  | Some body => _ ← guard_or (keys_equal parameters ["url"; "body"]) graphql_invalid; Ok body
  | None =>
      _ ← guard_or (keys_contain parameters ["url"; "query"]
                    && keys_within parameters ["url"; "query"; "variables"; "operationName"])
            graphql_invalid;
      Ok (JObj (omap (λ k, (λ v, (k, v)) <$> assoc_last k parameters)
                  ["query"; "variables"; "operationName"]))
  end.

Definition graphql_branch (action : ActionEnvelope) : res (option ActionReview) :=
  if negb ((ac_kind action =s "network") && (ac_operation action =s "graphql.request"))
  then Ok None else
  let parameters := ac_parameters action in
  let url := field parameters "url" in
  let endpoint := request_endpoint url in
  match graphql_operation (field parameters "query"), endpoint with
  | Some (kind, _, fields), Some _ =>
      if keys_equal parameters ["url"; "query"] then
        resource ← resource_of "url" url;
        others ← all_ok (map (mk_ActionResource "graphql_field") fields);
        reading_review action (kind =s "query")
          "Named GraphQL operation with explicit root-field scope." (resource :: others)
          "network.graphql"
      else Ok None
  | _, _ => Ok None
  end ≫= λ first,
  match first with
  | Some review => Ok (Some review)
  | None =>
      attempt
        (body ← graphql_body parameters;
         operations ← graphql_authorities body;
         _ ← request_commitment body;
         match endpoint with
         | None => Ok None
         | Some _ =>
             resource ← resource_of "url" url;
             others ← all_ok (map (mk_ActionResource "graphql_field")
                                (sorted_set (flat_map authority_fields operations)));
             reading_review action
               (forallb (λ o, mem (operation_type o) ["query"; "subscription"]) operations)
               "Selected GraphQL operations require exact request authority enforcement."
               (resource :: others) "network.graphql"
         end)
  end.

Definition jsonrpc_branch (action : ActionEnvelope) : res (option ActionReview) :=
  if negb ((ac_kind action =s "network") && (ac_operation action =s "jsonrpc.request"))
  then Ok None else
  let parameters := ac_parameters action in
  attempt
    (if keys_equal parameters ["url"; "body"]
        && bool_decide (is_Some (request_endpoint (field parameters "url"))) then
       _ ← rpc_body_commitment (field parameters "body");
       resource ← resource_of "url" (field parameters "url");
       request_review action Warn "medium"
         "Generic JSON-RPC authority requires an exact approved method and parameter commitment."
         ["network.upload"] [resource] "network.jsonrpc"
     else Ok None).

(** ** Shell actions and the actions without an adapter *)

(** A command that is present: [isinstance(command, str) and command.strip()]. *)
Definition shell_command (action : ActionEnvelope) : option string :=
  match field (ac_parameters action) "command" with
  | JStr command => if truthy (strip command) then Some command else None
  | _ => None
  end.

Definition shell_review (action : ActionEnvelope) : res ActionReview :=
  match shell_command action with
  | None =>
      c ← derive_capabilities "shell" [] ([] : list ActionResource);
      _with_base_provenance
        (with_capabilities c
           (plain_review action Block "critical"
              ["shell.execute action requires non-empty parameters.command"]
              (Some "Provide the exact command text before review.") [] [] (Some "shell"))) [] None
  | Some command =>
      risk_review ← check_command st command (ac_context action);
      command_review ← review_command close_to search st (compile_temporal_policy default_policy)
                         command (ac_intent action) (ac_context action) None (Some risk_review);
      semantics ← semantic_evidence_for_command st command (ac_context action);
      resources ← _resources_from_evidence semantics;
      c ← derive_capabilities (ac_kind action) (effects semantics) resources;
      _with_base_provenance
        {| av_action := action; av_decision := cr_decision command_review;
           av_risk := cr_risk command_review; av_reasons := cr_reasons command_review;
           av_safer_next_step := cr_safer_next_step command_review;
           av_effects := effects semantics; av_resources := resources;
           av_adapter := Some "shell"; av_capabilities := Some c; av_provenance := None;
           av_intent_alignment := cr_intent_alignment command_review;
           av_trajectory_categories := cr_trajectory_categories command_review;
           av_policy := None; av_policy_matches := [] |}
        (evidence_items semantics) (Some risk_review)
  end.

Definition unknown_review (action : ActionEnvelope) : res ActionReview :=
  let reason :=
    if mem (ac_kind action) KNOWN_ACTION_KINDS
    then "no semantic adapter is registered for action "
         +:+ dquoted (ac_kind action +:+ "." +:+ ac_operation action)
    else "action kind " +:+ dquoted (ac_kind action) +:+ " is not classified by Ordin" in
  c ← derive_capabilities (ac_kind action) [] ([] : list ActionResource);
  _with_base_provenance
    (with_capabilities c
       (plain_review action Ask "unknown" [reason]
          (Some "Require explicit review or add a deterministic semantic adapter before execution.")
          [] [] None)) [] None.

Definition is_tool_call (action : ActionEnvelope) : bool :=
  mem (ac_kind action) ["tool"; "mcp"] && (ac_operation action =s "call").
Definition is_shell (action : ActionEnvelope) : bool :=
  (ac_kind action =s "shell") && (ac_operation action =s "execute").

(** The first branch that answers, else the rest. *)
Fixpoint first_answer (branches : list (res (option ActionReview))) (rest : res ActionReview)
  : res ActionReview :=
  match branches with
  | [] => rest
  | branch :: branches' =>
      answer ← branch;
      match answer with
      | Some review => Ok review
      | None => first_answer branches' rest
      end
  end.

Context (tool_semantics : option CompiledToolSemanticsRegistry).
Context (rest_semantics : option (list string)).

Definition _review_action_base (action : ActionEnvelope) : res ActionReview :=
  first_answer
    [rest_branch rest_semantics action; mcp_control_branch action; mcp_parameter_branch action;
     graphql_branch action; jsonrpc_branch action]
    (match tool_semantics with
     | Some compiled =>
         if is_tool_call action
         then review ← review_tool_action action compiled; _with_capabilities review
         else if is_shell action then shell_review action else unknown_review action
     | None => if is_shell action then shell_review action else unknown_review action
     end).

(** ** Temporal evidence of an action *)

(** The signals of what was predicted and of what was observed. *)
Definition effect_names (signals : gset string) : list string :=
  map (str_drop (String.length "effect:"))
    (List.filter (λ s, startswith s "effect:") (elements signals)).
Definition observed_signals (observation : option ActionObservation) : list string :=
  match observation with
  | None => []
  | Some o =>
      flat_map (λ e, ["effect:" +:+ e; "signal:observed-effect:" +:+ e]) (ob_effects o)
      ++ match exit_code o with
         | None => []
         | Some c => [if (c =? 0)%Z then "signal:observed-success" else "signal:observed-failure"]
         end
  end.
Definition with_observed (action : ActionEnvelope) (signals : gset string)
    (observation : option ActionObservation) : TemporalActionEvidence :=
  {| ae_kind := ac_kind action; ae_operation := ac_operation action;
     ae_signals := signals
       ∪ list_to_set (map (λ e, "signal:predicted-effect:" +:+ e) (effect_names signals))
       ∪ list_to_set (observed_signals observation) |}.

(** The predictions kept for the review, by command and context. *)
Definition Cache : Type := gmap (string * string) TemporalActionEvidence.
Definition cache_key (action : ActionEnvelope) (command : string) : string * string :=
  (command, json_dumps float_repr default_layout (opt_json ExecutionContext_as_dict (ac_context action))).

(** [reuse] and [keep] are the answers of [prediction_reuse_allowed()] before
    and after the evidence is computed. *)
Definition predicted_signals (action : ActionEnvelope) (review : option ActionReview)
    (reuse keep : bool) (cache : option Cache) : res (gset string * option Cache) :=
  if is_shell action then
    match shell_command action with
    | None => Ok (∅, cache)
    | Some command =>
        let key := cache_key action command in
        match (if reuse then cache ≫= λ m, m !! key else None) with
        | Some evidence => Ok (ae_signals evidence, cache)
        | None =>
            evidence ← temporal_evidence_for_command st command (ac_context action) None;
            Ok (ae_signals evidence,
                if keep then <[key := evidence]> <$> cache else cache)
        end
    end
  else
    base ← match review with Some r => Ok r | None => _review_action_base action end;
    Ok (list_to_set (map (λ e, "effect:" +:+ e) (av_effects base)), cache).

Definition _temporal_evidence_for_action (action : ActionEnvelope) (review : option ActionReview)
    (observation : option ActionObservation) (reuse keep : bool) (cache : option Cache)
  : res (TemporalActionEvidence * option Cache) :=
  out ← predicted_signals action review reuse keep cache;
  Ok (with_observed action (fst out) observation, snd out).

(** ** Observations *)

Definition action_ids (h : ActionHistory) : list string := omap ac_action_id (hi_actions h).
Definition id_count (h : ActionHistory) (action_id : string) : nat :=
  length (List.filter (String.eqb action_id) (action_ids h)).

Definition ObservationMap : Type := list (string * ActionObservation).

Definition _observations_for_history (history : option ActionHistory)
    (obs : option ObservationHistory) : res ObservationMap :=
  match obs with
  | None => Ok []
  | Some o =>
      match observations o with
      | [] => Ok []
      | _ =>
          match history with
          | None => Err (ValueError "observations require matching action history")
          | Some h =>
              if bool_decide (hi_actions h = [])
              then Err (ValueError "observations require matching action history") else
              let result := by_action_id o in
              let ids := map fst result in
              let unknown := sorted_set (List.filter (λ i, id_count h i =? 0) ids) in
              _ ← guard_or (bool_decide (unknown = []))
                    (ValueError ("observations reference unknown action_id values: "
                                 +:+ join ", " unknown));
              let ambiguous := sorted (List.filter (λ i, negb (id_count h i =? 1)) ids) in
              _ ← guard_or (bool_decide (ambiguous = []))
                    (ValueError ("observations require unique matching action_id values: "
                                 +:+ join ", " ambiguous));
              Ok result
          end
      end
  end.

Definition observation_record (kind code : string) (effect : option string)
    (resource : option ProvenanceResource) (action_id : string)
    (metadata : list (string * scalar)) : res ProvenanceRecord :=
  mk_ProvenanceRecord
    {| pv_source := "observation"; pv_kind := kind; pv_code := code; pv_summary := None;
       pv_decision := None; pv_risk := None; pv_effect := effect; pv_resource := resource;
       pv_rule_id := None; pv_action_id := Some action_id; pv_category := None;
       pv_indices := []; pv_metadata := metadata |}.
Definition scalar_int (z : option Z) : scalar := match z with Some z => SInt z | None => SNone end.

(** The records of one observed action of the history. *)
Definition observation_records (index : nat) (o : ActionObservation)
  : res (list ProvenanceRecord) :=
  let at_index := [("history_index", SInt (Z.of_nat index))] in
  record ← observation_record "observation" "observation.record" None None (ob_action_id o)
             (at_index ++ [("exit_code", scalar_int (exit_code o))]);
  effects ← all_ok (map (λ e, observation_record "effect" "observation.effect" (Some e) None
                                (ob_action_id o) at_index) (ob_effects o));
  resources ← all_ok (map (λ r, x ← mk_ProvenanceResource (or_type r) (or_value r);
                                observation_record "resource" "observation.resource" None (Some x)
                                  (ob_action_id o) at_index) (ob_resources o));
  Ok (record :: effects ++ resources).

(** [observation_map.get(prior.action_id)] where the id is present. *)
Definition observation_of (m : ObservationMap) (a : ActionEnvelope) : option ActionObservation :=
  match ac_action_id a with Some i => dict_get i m | None => None end.

Fixpoint history_records (m : ObservationMap) (index : nat) (actions : list ActionEnvelope)
  : res (list ProvenanceRecord) :=
  match actions with
  | [] => Ok []
  | prior :: actions' =>
      here ← match observation_of m prior with
             | Some o => observation_records index o
             | None => Ok []
             end;
      later ← history_records m (S index) actions';
      Ok (here ++ later)
  end.

(** [review.provenance or _base_provenance(review)]. *)
Definition provenance_of (review : ActionReview) : res DecisionProvenance :=
  match av_provenance review with
  | Some p => Ok p
  | None => _base_provenance review [] None
  end.

Definition _with_observation_provenance (review : ActionReview) (history : option ActionHistory)
    (m : ObservationMap) : res ActionReview :=
  match m, history with
  | _ :: _, Some h =>
      provenance ← provenance_of review;
      records ← history_records m 0 (hi_actions h);
      match records with
      | [] => Ok review
      | _ => p ← append provenance records None None; Ok (with_provenance p review)
      end
  | _, _ => Ok review
  end.

(** ** The review with its history *)

(** The records of a temporal policy carry what identifies it. *)
Definition temporal_metadata (policy : TemporalPolicySet) : list (string * scalar) :=
  [("policy_id", SText (policy_id policy)); ("policy_version", SText (version policy));
   ("policy_digest", SText (digest (JObj (TemporalPolicySet_as_dict policy))))].

Definition temporal_record (metadata : list (string * scalar)) (m : TemporalMatch)
  : ProvenanceRecord :=
  {| pv_source := "temporal_policy"; pv_kind := "rule"; pv_code := "temporal.match";
     pv_summary := Some (tm_reason m); pv_decision := Some (decision_for_risk (tm_risk m));
     pv_risk := Some (tm_risk m); pv_effect := None; pv_resource := None;
     pv_rule_id := Some (tm_rule_id m); pv_action_id := None;
     pv_category := Some (tm_category m); pv_indices := matched_indices m;
     pv_metadata := metadata |}.
Definition temporal_merge_record (base : ActionReview) (decision : Decision) (risk : string)
    (metadata : list (string * scalar)) : ProvenanceRecord :=
  {| pv_source := "decision"; pv_kind := "merge"; pv_code := "decision.temporal-merge";
     pv_summary := None; pv_decision := Some decision; pv_risk := Some risk; pv_effect := None;
     pv_resource := None; pv_rule_id := None; pv_action_id := None; pv_category := None;
     pv_indices := [];
     pv_metadata := [("previous_decision", SText (decision_str (av_decision base)));
                     ("previous_risk", SText (av_risk base))] ++ metadata |}.

(** The first non-empty next step of the matches. *)
Definition first_step (matches : list TemporalMatch) : option string :=
  head (List.filter truthy (omap tm_safer_next_step matches)).

(** [if match.reason not in reasons: reasons.append(match.reason)].  [merge]
    merges the decision of the base with the one of the highest risk matched. *)
Definition apply_matches_by (merge : Decision → Decision → Decision) (policy : TemporalPolicySet) (base : ActionReview)
    (evaluation : TemporalEvaluation) : res ActionReview :=
  provenance ← provenance_of base;
  let metadata := temporal_metadata policy in
  match te_matches evaluation with
  | [] =>
      record ← mk_ProvenanceRecord
                 {| pv_source := "temporal_policy"; pv_kind := "finding";
                    pv_code := "temporal.no-match"; pv_summary := None; pv_decision := None;
                    pv_risk := None; pv_effect := None; pv_resource := None;
                    pv_rule_id := None; pv_action_id := None; pv_category := None;
                    pv_indices := []; pv_metadata := metadata |};
      p ← append provenance [record] None None;
      Ok (with_provenance p base)
  | matches =>
      top ← TemporalEvaluation_risk evaluation;
      merged ← match top with
               | Some t => risk ← max_risk (av_risk base) t;
                           Ok (risk, merge (av_decision base) (decision_for_risk t))
               | None => Ok (av_risk base, av_decision base)
               end;
      let (risk, decision) := (merged : string * Decision) in
      let reasons := _append_unique (av_reasons base) (map tm_reason matches) in
      let safer := if negb (risk =s av_risk base)
                   then or_else (first_step matches) (av_safer_next_step base)
                   else av_safer_next_step base in
      temporal_records ← all_ok (map (λ m, mk_ProvenanceRecord (temporal_record metadata m)) matches);
      merged ← mk_ProvenanceRecord (temporal_merge_record base decision risk metadata);
      p ← append provenance (temporal_records ++ [merged]) (Some decision) (Some risk);
      Ok {| av_action := av_action base; av_decision := decision; av_risk := risk;
            av_reasons := reasons; av_safer_next_step := safer; av_effects := av_effects base;
            av_resources := av_resources base; av_adapter := av_adapter base;
            av_capabilities := av_capabilities base; av_provenance := Some p;
            av_intent_alignment := av_intent_alignment base;
            av_trajectory_categories :=
              sorted_set (av_trajectory_categories base ++ map tm_category matches);
            av_policy := av_policy base; av_policy_matches := av_policy_matches base |}
  end.

Definition apply_matches (policy : TemporalPolicySet) (base : ActionReview)
    (evaluation : TemporalEvaluation) : res ActionReview :=
  apply_matches_by stronger_decision policy base evaluation.

(** The evidence of the actions of the history, in order, with the cache going
    from one to the next. *)
Fixpoint prior_evidence (m : ObservationMap) (reuse keep : nat → bool) (index : nat)
    (actions : list ActionEnvelope) (cache : option Cache)
  : res (list TemporalActionEvidence * option Cache) :=
  match actions with
  | [] => Ok ([], cache)
  | item :: actions' =>
      out ← _temporal_evidence_for_action item None (observation_of m item) (reuse index)
              (keep index) cache;
      later ← prior_evidence m reuse keep (S index) actions' (snd out);
      Ok (fst out :: fst later, snd later)
  end.

Section review_action.
(** The answers of [prediction_reuse_allowed()]: at the start, and before and
    after the evidence of each action. *)
Context (reuse_start : bool) (reuse keep : nat → bool).

Definition review_action (action : ActionEnvelope) (history : option ActionHistory)
    (obs : option ObservationHistory) (temporal_policy : option TemporalPolicySet)
  : res ActionReview :=
  base ← _review_action_base action;
  m ← _observations_for_history history obs;
  base ← _with_observation_provenance base history m;
  match history with
  | None => Ok base
  | Some h =>
      match hi_actions h with
      | [] => Ok base
      | actions =>
          let policy := default default_policy temporal_policy in
          prior ← prior_evidence m reuse keep 0 actions (if reuse_start then Some ∅ else None);
          current ← _temporal_evidence_for_action action (Some base) None
                      (reuse (length actions)) (keep (length actions)) (snd prior);
          apply_matches policy base
            (evaluate_policy (compile_temporal_policy policy) (fst prior) (fst current))
      end
  end.
End review_action.
End action.
