(* ===== verification/ActionPolicy.v ===== *)
(** * Action policies ([ordin/action_policy.py])

    Rules that require a decision when a review meets a condition: their
    validation and JSON form, the condition, the evaluation of a compiled set
    and its application to a review.  The digest of a JSON value is an argument. *)
From stdpp Require Import base list strings pretty gmap sets.
From Stdlib Require Import Bool Ascii ZArith Lia.
From S2P Require Import Prelude PyStr Json Policy Context Temporal Execution Provenance ActionModel.
#[local] Open Scope py_scope.

Definition POLICY_SCHEMA_VERSION : string := "ordin.policy_set.v1".
Definition MAX_POLICY_RULES : nat := 256.
Definition MAX_POLICY_ID_LENGTH : nat := 128.
Definition MAX_POLICY_VERSION_LENGTH : nat := 64.
Definition MAX_RULE_ID_LENGTH : nat := 128.
Definition MAX_MATCH_VALUES : nat := 128.
Definition MAX_MATCH_VALUE_LENGTH : nat := Nat.pow 2 15.
#[global] Arguments MAX_MATCH_VALUE_LENGTH : simpl never.

(** [^[A-Za-z0-9][A-Za-z0-9_.:@/-]*$] on the whole text. *)
Definition ascii_alnum (c : ascii) : bool :=
  in_range 48 57 c || in_range 65 90 c || in_range 97 122 c.
Definition IDENTIFIER_PATTERN (s : string) : bool :=
  match s with
  | EmptyString => false
  | String c s' =>
      ascii_alnum c
      && str_forall (λ c, ascii_alnum c
                          || mem (String c EmptyString) ["_"; "."; ":"; "@"; "/"; "-"]) s'
  end.

Definition REPO_SCOPES : list string := ["inside"; "outside"; "unknown"].
Definition INTENT_STATES : list string :=
  ["present"; "absent"; "aligned"; "mismatch"; "not_applicable"].

Definition _validate_text (value name : string) (maximum : nat) : res unit :=
  _ ← guard_or (truthy value) (ValueError (name +:+ " must be non-empty text"));
  guard_or (String.length value <=? maximum)
    (ValueError (name +:+ " must be at most " +:+ pretty maximum +:+ " characters")).
Definition validate_policy_identifier (value name : string) (maximum : nat) : res unit :=
  _ ← _validate_text value name maximum;
  guard_or (IDENTIFIER_PATTERN value) (ValueError (name +:+ " contains unsupported characters")).

Definition _reject_unknown_keys (payload : list (string * json)) (allowed : list string)
    (name : string) : res unit :=
  let unknown := sorted_set (List.filter (λ key, negb (mem key allowed)) (map fst payload)) in
  guard_or (bool_decide (unknown = []))
    (ValueError (name +:+ " contains unsupported fields: " +:+ join ", " unknown)).

(** The loop of [_string_list]. *)
Fixpoint string_list_items (key : string) (items : list json) (result : list string)
  : res (list string) :=
  match items with
  | [] => Ok result
  | JStr item :: items' =>
      _ ← _validate_text item ("policy condition " +:+ key +:+ " item") MAX_MATCH_VALUE_LENGTH;
      string_list_items key items' (if mem item result then result else result ++ [item])
  | _ :: _ => Err (ValueError ("policy condition " +:+ key +:+ " items must be strings"))
  end.
Definition _string_list (payload : list (string * json)) (key : string) : res (list string) :=
  match default (JArr []) (assoc_last key payload) with
  | JArr value =>
      _ ← guard_or (length value <=? MAX_MATCH_VALUES)
            (ValueError ("policy condition " +:+ key +:+ " must contain at most 128 items"));
      string_list_items key value []
  | _ => Err (ValueError ("policy condition " +:+ key +:+ " must be an array"))
  end.

(** ** Resource matchers *)

Record PolicyResourceMatcher := {
  pm_type : string;
  pm_value : option string;
  pm_match : string }.
#[export] Instance PolicyResourceMatcher_eq_dec : EqDecision PolicyResourceMatcher.
Proof. solve_decision. Defined.

Definition mk_PolicyResourceMatcher (m : PolicyResourceMatcher) : res PolicyResourceMatcher :=
  _ ← _validate_text (pm_type m) "resource matcher type" MAX_MATCH_VALUE_LENGTH;
  _ ← match pm_value m with
      | Some value => _validate_text value "resource matcher value" MAX_MATCH_VALUE_LENGTH
      | None => Ok tt
      end;
  _ ← guard_or (mem (pm_match m) ["exact"; "prefix"])
        (ValueError ("unsupported resource match mode: " +:+ repr (pm_match m)));
  _ ← guard_or (negb (bool_decide (pm_value m = None)) || (pm_match m =s "exact"))
        (ValueError "resource matcher without a value must use exact mode");
  Ok m.

Definition PolicyResourceMatcher_from_dict (payload : list (string * json))
  : res PolicyResourceMatcher :=
  _ ← _reject_unknown_keys payload ["type"; "value"; "match"] "resource matcher";
  type ← as_str (field payload "type") "resource matcher requires string type";
  value ← opt_str_field (field payload "value") "resource matcher value must be a string or null";
  mode ← as_str (default (JStr "exact") (assoc_last "match" payload))
           "resource matcher match must be a string";
  mk_PolicyResourceMatcher {| pm_type := type; pm_value := value; pm_match := mode |}.

Definition PolicyResourceMatcher_as_dict (m : PolicyResourceMatcher) : list (string * json) :=
  [("type", JStr (pm_type m))]
  ++ match pm_value m with Some value => [("value", JStr value)] | None => [] end
  ++ if pm_match m =s "exact" then [] else [("match", JStr (pm_match m))].

Definition matcher_matches (m : PolicyResourceMatcher) (r : ActionResource) : bool :=
  if negb (ar_type r =s pm_type m) then false
  else match pm_value m with
       | None => true
       | Some value => if pm_match m =s "exact" then ar_value r =s value
                       else startswith (ar_value r) value
       end.

(** ** Conditions *)

Record ActionPolicyCondition := {
  pc_kinds : list string;
  pc_operations : list string;
  pc_effects_any : list string;
  pc_effects_all : list string;
  pc_resources_any : list PolicyResourceMatcher;
  pc_risks : list string;
  pc_decisions : list Decision;
  pc_agents : list string;
  pc_cwd_prefixes : list string;
  pc_repo_scope : option string;
  pc_privileged : option bool;
  pc_intent : option string;
  pc_trajectory_any : list string }.

(** The members that are lists of texts, in the order of the constructor. *)
Definition condition_texts (c : ActionPolicyCondition) : list (string * list string) :=
  [("kinds", pc_kinds c); ("operations", pc_operations c); ("effects_any", pc_effects_any c);
   ("effects_all", pc_effects_all c); ("risks", pc_risks c);
   ("decisions", map decision_str (pc_decisions c)); ("agents", pc_agents c);
   ("cwd_prefixes", pc_cwd_prefixes c); ("trajectory_any", pc_trajectory_any c)].

Definition opt_within (o : option string) (l : list string) : bool :=
  match o with Some s => mem s l | None => true end.

Definition mk_ActionPolicyCondition (c : ActionPolicyCondition) : res ActionPolicyCondition :=
  _ ← all_ok (map (λ kv, _string_list [(fst kv, jstrings (snd kv))] (fst kv)) (condition_texts c));
  _ ← guard_or (length (pc_resources_any c) <=? MAX_MATCH_VALUES)
        (ValueError "policy condition resources must be bounded resource matchers");
  _ ← guard_or (forallb (λ risk, mem risk VALID_RISKS) (pc_risks c))
        (ValueError "invalid policy condition risk");
  _ ← guard_or (opt_within (pc_repo_scope c) REPO_SCOPES)
        (ValueError "invalid policy repository scope");
  _ ← guard_or (opt_within (pc_intent c) INTENT_STATES)
        (ValueError "invalid policy intent selector");
  _ ← all_ok (map (λ prefix,
                 _ ← _validate_text prefix "policy cwd prefix" MAX_MATCH_VALUE_LENGTH;
                 guard_or (isabs prefix)
                   (ValueError "policy cwd prefixes require absolute POSIX paths"))
                (pc_cwd_prefixes c));
  Ok c.

(** A value of [{...}] or [None]; a list or an object cannot be hashed. *)
Definition choice_field (j : json) (choices : list string) (message : string)
  : res (option string) :=
  match j with
  | JNull => Ok None
  | JStr s => _ ← guard_or (mem s choices) (ValueError (message +:+ ": " +:+ repr s)); Ok (Some s)
  | JArr _ | JObj _ => Err (TypeError "unhashable type")
  | _ => Err (ValueError message)
  end.

(** The loop over the risks. *)
Fixpoint check_risks (l : list string) : res unit :=
  match l with
  | [] => Ok tt
  | risk :: l' =>
      _ ← guard_or (mem risk VALID_RISKS)
            (ValueError ("unsupported risk in policy condition: " +:+ repr risk));
      check_risks l'
  end.

Definition ActionPolicyCondition_from_dict (payload : list (string * json))
  : res ActionPolicyCondition :=
  _ ← _reject_unknown_keys payload
        ["kinds"; "operations"; "effects_any"; "effects_all"; "resources_any"; "risks";
         "decisions"; "agents"; "cwd_prefixes"; "repo_scope"; "privileged"; "intent";
         "trajectory_any"] "policy condition";
  decision_texts ← _string_list payload "decisions";
  decisions ← all_ok (map validate_decision decision_texts);
  resources_raw ← as_list (default (JArr []) (assoc_last "resources_any" payload))
                    "policy condition resources_any must be an array";
  _ ← guard_or (length resources_raw <=? MAX_MATCH_VALUES)
        (ValueError "policy condition resources_any must contain at most 128 items");
  resources ← read_objects PolicyResourceMatcher_from_dict
                "policy resource matchers must be JSON objects" resources_raw;
  repo_scope ← choice_field (field payload "repo_scope") REPO_SCOPES "unsupported repo_scope";
  privileged ← opt_bool_field (field payload "privileged")
                 "policy condition privileged must be a boolean or null";
  intent ← choice_field (field payload "intent") INTENT_STATES "unsupported intent condition";
  risks ← _string_list payload "risks";
  _ ← check_risks risks;
  kinds ← _string_list payload "kinds";
  operations ← _string_list payload "operations";
  effects_any ← _string_list payload "effects_any";
  effects_all ← _string_list payload "effects_all";
  agents ← _string_list payload "agents";
  cwd_prefixes ← _string_list payload "cwd_prefixes";
  trajectory_any ← _string_list payload "trajectory_any";
  mk_ActionPolicyCondition
    {| pc_kinds := kinds; pc_operations := operations; pc_effects_any := effects_any;
       pc_effects_all := effects_all; pc_resources_any := resources; pc_risks := risks;
       pc_decisions := decisions; pc_agents := agents; pc_cwd_prefixes := cwd_prefixes;
       pc_repo_scope := repo_scope; pc_privileged := privileged; pc_intent := intent;
       pc_trajectory_any := trajectory_any |}.

Definition nonempty_member (kv : string * list string) : list (string * json) :=
  match snd kv with [] => [] | l => [(fst kv, jstrings l)] end.
Definition ActionPolicyCondition_as_dict (c : ActionPolicyCondition) : list (string * json) :=
  flat_map nonempty_member (condition_texts c)
  ++ match pc_resources_any c with
     | [] => []
     | l => [("resources_any", JArr (map (λ m, JObj (PolicyResourceMatcher_as_dict m)) l))]
     end
  ++ match pc_repo_scope c with Some s => [("repo_scope", JStr s)] | None => [] end
  ++ match pc_privileged c with Some b => [("privileged", JBool b)] | None => [] end
  ++ match pc_intent c with Some s => [("intent", JStr s)] | None => [] end.

(** ** Rules and sets *)

Record ActionPolicyRule := {
  pl_id : string;
  pl_decision : Decision;
  pl_when : ActionPolicyCondition;
  pl_reason : option string;
  pl_safer_next_step : option string;
  pl_enabled : bool }.

Definition opt_text (o : option string) (name : string) : res unit :=
  match o with Some s => _validate_text s name MAX_MATCH_VALUE_LENGTH | None => Ok tt end.

Definition mk_ActionPolicyRule (r : ActionPolicyRule) : res ActionPolicyRule :=
  _ ← validate_policy_identifier (pl_id r) "policy rule id" MAX_RULE_ID_LENGTH;
  _ ← opt_text (pl_reason r) "policy rule reason";
  _ ← opt_text (pl_safer_next_step r) "policy rule safer_next_step";
  Ok r.

Definition ActionPolicyRule_from_dict (payload : list (string * json)) : res ActionPolicyRule :=
  _ ← _reject_unknown_keys payload
        ["id"; "decision"; "when"; "reason"; "safer_next_step"; "enabled"] "policy rule";
  rule_id ← as_str (field payload "id") "policy rule requires string id";
  decision ← as_str (field payload "decision") "policy rule requires string decision";
  match default (JObj []) (assoc_last "when" payload) with
  | JObj condition =>
      reason ← opt_str_field (field payload "reason")
                 "policy rule reason must be a string or null";
      safer ← opt_str_field (field payload "safer_next_step")
                "policy rule safer_next_step must be a string or null";
      enabled ← as_bool (default (JBool true) (assoc_last "enabled" payload))
                  "policy rule enabled must be a boolean";
      decision ← validate_decision decision;
      condition ← ActionPolicyCondition_from_dict condition;
      mk_ActionPolicyRule
        {| pl_id := rule_id; pl_decision := decision; pl_when := condition;
           pl_reason := reason; pl_safer_next_step := safer; pl_enabled := enabled |}
  | _ => Err (ValueError "policy rule when must be a JSON object")
  end.

Definition opt_member (key : string) (o : option string) : list (string * json) :=
  match o with Some s => [(key, JStr s)] | None => [] end.
Definition ActionPolicyRule_as_dict (r : ActionPolicyRule) : list (string * json) :=
  [("id", JStr (pl_id r)); ("decision", JStr (decision_str (pl_decision r)));
   ("when", JObj (ActionPolicyCondition_as_dict (pl_when r)))]
  ++ opt_member "reason" (pl_reason r)
  ++ opt_member "safer_next_step" (pl_safer_next_step r)
  ++ if pl_enabled r then [] else [("enabled", JBool false)].

Record ActionPolicySet := {
  ps_policy_id : string;
  ps_version : string;
  ps_rules : list ActionPolicyRule }.

(** The ids that occur again after their first occurrence. *)
Fixpoint repeated_ids (seen : list string) (l : list ActionPolicyRule) : list string :=
  match l with
  | [] => []
  | rule :: l' => (if mem (pl_id rule) seen then [pl_id rule] else [])
                  ++ repeated_ids (pl_id rule :: seen) l'
  end.

Definition mk_ActionPolicySet (p : ActionPolicySet) : res ActionPolicySet :=
  _ ← validate_policy_identifier (ps_policy_id p) "policy_id" MAX_POLICY_ID_LENGTH;
  _ ← validate_policy_identifier (ps_version p) "policy version" MAX_POLICY_VERSION_LENGTH;
  _ ← guard_or (length (ps_rules p) <=? MAX_POLICY_RULES)
        (ValueError "policy set must contain at most 256 rules");
  let duplicates := repeated_ids [] (ps_rules p) in
  _ ← guard_or (bool_decide (duplicates = []))
        (ValueError ("duplicate policy rule ids: " +:+ join ", " (sorted_set duplicates)));
  Ok p.

Definition ActionPolicySet_from_dict (payload : list (string * json)) : res ActionPolicySet :=
  _ ← _reject_unknown_keys payload ["schema_version"; "policy_id"; "version"; "rules"]
        "policy set";
  _ ← guard_or (match field payload "schema_version" with
                | JStr s => s =s POLICY_SCHEMA_VERSION | _ => false end)
        (ValueError "unsupported policy schema");
  policy_id ← as_str (field payload "policy_id") "policy set requires string policy_id";
  version ← as_str (field payload "version") "policy set requires string version";
  rules_raw ← as_list (field payload "rules") "policy set rules must be an array";
  _ ← guard_or (length rules_raw <=? MAX_POLICY_RULES)
        (ValueError "policy set must contain at most 256 rules");
  rules ← read_objects ActionPolicyRule_from_dict "policy rules must be JSON objects" rules_raw;
  mk_ActionPolicySet {| ps_policy_id := policy_id; ps_version := version; ps_rules := rules |}.

Definition ActionPolicySet_as_dict (p : ActionPolicySet) : list (string * json) :=
  [("schema_version", JStr POLICY_SCHEMA_VERSION); ("policy_id", JStr (ps_policy_id p));
   ("version", JStr (ps_version p));
   ("rules", JArr (map (λ r, JObj (ActionPolicyRule_as_dict r)) (ps_rules p)))].

(** ** Matching *)

Definition _path_within_prefix (value prefix : string) : bool :=
  if negb (isabs value) || negb (isabs prefix) then false
  else match commonpath2 (normpath value) (normpath prefix) with
       | Ok common => common =s normpath prefix
       | Err _ => false
       end.

Definition _repo_scope (review : ActionReview) : string :=
  match ac_context (av_action review) with
  | None => "unknown"
  | Some context =>
      match cwd context, repo_root context with
      | Some d, Some root =>
          if negb (truthy d) || negb (truthy root) then "unknown"
          else match path_within_repo context d with
               | None => "unknown"
               | Some inside => if inside : bool then "inside" else "outside"
               end
      | _, _ => "unknown"
      end
  end.

Definition intent_present (review : ActionReview) : bool :=
  match ac_intent (av_action review) with Some i => truthy (strip i) | None => false end.
Definition _intent_matches (expected : string) (review : ActionReview) : bool :=
  let present := intent_present review in
  if expected =s "present" then present
  else if expected =s "absent" then negb present
  else present && (av_intent_alignment review =s expected).

(** [not l or f(l)]: an empty selector selects everything. *)
Definition unless_empty {A} (l : list A) (b : bool) : bool :=
  match l with [] => true | _ => b end.
Definition intersects (l k : list string) : bool := existsb (λ s, mem s k) l.

Definition _condition_matches (c : ActionPolicyCondition) (review : ActionReview) : bool :=
  let action := av_action review in
  let context := ac_context action in
  unless_empty (pc_kinds c) (mem (ac_kind action) (pc_kinds c))
  && unless_empty (pc_operations c) (mem (ac_operation action) (pc_operations c))
  && unless_empty (pc_effects_any c) (intersects (av_effects review) (pc_effects_any c))
  && unless_empty (pc_effects_all c)
       (forallb (λ e, mem e (av_effects review)) (pc_effects_all c))
  && unless_empty (pc_resources_any c)
       (existsb (λ m, existsb (matcher_matches m) (av_resources review)) (pc_resources_any c))
  && unless_empty (pc_risks c) (mem (av_risk review) (pc_risks c))
  && unless_empty (pc_decisions c) (bool_decide (av_decision review ∈ pc_decisions c))
  && unless_empty (pc_agents c) (opt_mem (context ≫= agent) (pc_agents c))
  && unless_empty (pc_cwd_prefixes c)
       (match context ≫= cwd with
        | Some d => existsb (_path_within_prefix d) (pc_cwd_prefixes c)
        | None => false
        end)
  && match pc_repo_scope c with Some s => _repo_scope review =s s | None => true end
  && match pc_privileged c with
     | Some p => match context ≫= euid with
                 | Some u => Bool.eqb (u =? 0)%Z p
                 | None => false
                 end
     | None => true
     end
  && match pc_intent c with Some i => _intent_matches i review | None => true end
  && unless_empty (pc_trajectory_any c)
       (intersects (av_trajectory_categories review) (pc_trajectory_any c)).

(** ** Evaluation and application *)

Record PolicyMatch := {
  mt_rule_id : string;
  mt_decision : Decision;
  mt_reason : string;
  mt_safer_next_step : option string }.
Definition PolicyMatch_as_dict (m : PolicyMatch) : json :=
  JObj [("rule_id", JStr (mt_rule_id m)); ("decision", JStr (decision_str (mt_decision m)));
        ("reason", JStr (mt_reason m)); ("safer_next_step", jstr (mt_safer_next_step m))].

Record PolicyEvaluation := {
  pe_policy_id : string;
  pe_policy_version : string;
  pe_policy_digest : string;
  pe_matches : list PolicyMatch;
  pe_decision : option Decision }.
Definition PolicyEvaluation_as_dict (e : PolicyEvaluation) : json :=
  JObj [("policy_id", JStr (pe_policy_id e)); ("policy_version", JStr (pe_policy_version e));
        ("policy_digest", JStr (pe_policy_digest e));
        ("decision", jstr (decision_str <$> pe_decision e));
        ("matches", JArr (map PolicyMatch_as_dict (pe_matches e)))].

Record CompiledActionPolicySet := {
  cp_policy : ActionPolicySet;
  active_rules : list ActionPolicyRule }.
Definition compile_action_policy (p : ActionPolicySet) : CompiledActionPolicySet :=
  {| cp_policy := p; active_rules := List.filter pl_enabled (ps_rules p) |}.

Definition _match_from_rule (r : ActionPolicyRule) : PolicyMatch :=
  {| mt_rule_id := pl_id r; mt_decision := pl_decision r;
     mt_reason := or_default (pl_reason r)
                    ("rule requires decision " +:+ decision_str (pl_decision r));
     mt_safer_next_step := pl_safer_next_step r |}.

(** One round of the loop that keeps the strongest decision. *)
Definition keep_strongest (decision : option Decision) (m : PolicyMatch) : option Decision :=
  match decision with
  | None => Some (mt_decision m)
  | Some d => if ENFORCEMENT_ORDER d <? ENFORCEMENT_ORDER (mt_decision m)
              then Some (mt_decision m) else decision
  end.

Section policy.
Context (digest : json → string).

Definition evaluate (c : CompiledActionPolicySet) (review : ActionReview) : PolicyEvaluation :=
  let matches := map _match_from_rule
                   (List.filter (λ r, _condition_matches (pl_when r) review) (active_rules c)) in
  {| pe_policy_id := ps_policy_id (cp_policy c); pe_policy_version := ps_version (cp_policy c);
     pe_policy_digest := digest (JObj (ActionPolicySet_as_dict (cp_policy c)));
     pe_matches := matches; pe_decision := foldl keep_strongest None matches |}.

Definition policy_metadata (e : PolicyEvaluation) : list (string * scalar) :=
  [("policy_id", SText (pe_policy_id e)); ("policy_version", SText (pe_policy_version e));
   ("policy_digest", SText (pe_policy_digest e))].
Definition applied_policy (e : PolicyEvaluation) : list (string * string) :=
  [("policy_id", pe_policy_id e); ("version", pe_policy_version e);
   ("digest", pe_policy_digest e)].

Definition policy_match_record (metadata : list (string * scalar)) (m : PolicyMatch)
  : ProvenanceRecord :=
  {| pv_source := "action_policy"; pv_kind := "rule"; pv_code := "policy.match";
     pv_summary := Some (mt_reason m); pv_decision := Some (mt_decision m); pv_risk := None;
     pv_effect := None; pv_resource := None; pv_rule_id := Some (mt_rule_id m);
     pv_action_id := None; pv_category := None; pv_indices := []; pv_metadata := metadata |}.
Definition policy_merge_record (review : ActionReview) (final : Decision)
    (metadata : list (string * scalar)) : ProvenanceRecord :=
  {| pv_source := "decision"; pv_kind := "merge"; pv_code := "decision.policy-merge";
     pv_summary := None; pv_decision := Some final; pv_risk := Some (av_risk review);
     pv_effect := None; pv_resource := None; pv_rule_id := None; pv_action_id := None;
     pv_category := None; pv_indices := [];
     pv_metadata := ("previous_decision", SText (decision_str (av_decision review))) :: metadata |}.

Definition no_match_record (metadata : list (string * scalar)) : ProvenanceRecord :=
  {| pv_source := "action_policy"; pv_kind := "finding"; pv_code := "policy.no-match";
     pv_summary := None; pv_decision := None; pv_risk := None; pv_effect := None;
     pv_resource := None; pv_rule_id := None; pv_action_id := None; pv_category := None;
     pv_indices := []; pv_metadata := metadata |}.

Definition merge_decision (review : ActionReview) (e : PolicyEvaluation) : Decision :=
  match pe_decision e with
  | Some d => if ENFORCEMENT_ORDER (av_decision review) <? ENFORCEMENT_ORDER d
              then d else av_decision review
  | None => av_decision review
  end.

(** The next step of the first match of the evaluation's decision that has one. *)
Definition dominant_step (e : PolicyEvaluation) : option string :=
  List.find (λ _, true)
    (omap (λ m, if bool_decide (Some (mt_decision m) = pe_decision e)
                then match mt_safer_next_step m with
                     | Some s => if truthy s then Some s else None
                     | None => None
                     end
                else None) (pe_matches e)).

(** [append] to the provenance of a review that has one. *)
Definition extend_provenance (review : ActionReview) (new : list (res ProvenanceRecord))
    (decision : option Decision) (risk : option string) : res (option DecisionProvenance) :=
  match av_provenance review with
  | None => Ok None
  | Some p => rs ← all_ok new; q ← append p rs decision risk; Ok (Some q)
  end.

Definition apply (c : CompiledActionPolicySet) (review : ActionReview) : res ActionReview :=
  let e := evaluate c review in
  let metadata := policy_metadata e in
  match pe_matches e with
  | [] =>
      provenance ← extend_provenance review
        [mk_ProvenanceRecord (no_match_record metadata)] None None;
      Ok {| av_action := av_action review; av_decision := av_decision review;
            av_risk := av_risk review; av_reasons := av_reasons review;
            av_safer_next_step := av_safer_next_step review; av_effects := av_effects review;
            av_resources := av_resources review; av_adapter := av_adapter review;
            av_capabilities := av_capabilities review; av_provenance := provenance;
            av_intent_alignment := av_intent_alignment review;
            av_trajectory_categories := av_trajectory_categories review;
            av_policy := Some (applied_policy e); av_policy_matches := [] |}
  | matches =>
      let final := merge_decision review e in
      let safer := if bool_decide (final = av_decision review) then av_safer_next_step review
                   else match dominant_step e with
                        | Some s => Some s
                        | None => av_safer_next_step review
                        end in
      provenance ← extend_provenance review
        (map (λ m, mk_ProvenanceRecord (policy_match_record metadata m)) matches
         ++ [mk_ProvenanceRecord (policy_merge_record review final metadata)])
        (Some final) (Some (av_risk review));
      Ok {| av_action := av_action review; av_decision := final; av_risk := av_risk review;
            av_reasons := av_reasons review
              ++ map (λ m, "policy " +:+ mt_rule_id m +:+ ": " +:+ mt_reason m) matches;
            av_safer_next_step := safer; av_effects := av_effects review;
            av_resources := av_resources review; av_adapter := av_adapter review;
            av_capabilities := av_capabilities review; av_provenance := provenance;
            av_intent_alignment := av_intent_alignment review;
            av_trajectory_categories := av_trajectory_categories review;
            av_policy := Some (applied_policy e);
            av_policy_matches := map PolicyMatch_as_dict matches |}
  end.
End policy.
