(* ===== verification/McpContracts.v ===== *)
(** * Reviewed MCP contract pins ([ordin/mcp_contracts.py])

    The canonical contract of a tool, the locks that pin its digest, the check
    that compares a pin with a live inventory, its effect on a review, and the
    observer that builds the inventory from a paginated discovery.  The text
    of a float and SHA-256 are arguments; reading files and the JSON schema of a lock are not modelled. *)
From stdpp Require Import base list strings pretty gmap sets sorting.
From Stdlib Require Import Bool Ascii ZArith QArith Qround Qabs Lia.
From S2P Require Import Prelude PyStr Json JsonText Policy Execution Provenance ActionModel.
#[local] Open Scope py_scope.
#[local] Open Scope nat_scope.

Definition MCP_CONTRACT_LOCK_SCHEMA_VERSION : string := "ordin.mcp_contract_lock.v1".
Definition MAX_CONTRACT_BYTES : nat := Nat.pow 2 20.
Definition MAX_CONTRACT_DEPTH : nat := 32.
Definition MAX_CONTRACT_TOOLS : nat := 256.
Definition MAX_CONTRACT_ITEMS : nat := Nat.pow 2 10.
#[global] Arguments MAX_CONTRACT_BYTES : simpl never.
#[global] Arguments MAX_CONTRACT_ITEMS : simpl never.

(** [^[a-f0-9]{64}$] on the whole text. *)
Definition _DIGEST (s : string) : bool :=
  (String.length s =? 64) && str_forall (λ c, in_range 97 102 c || in_range 48 57 c) s.

Definition _SCHEMA_MAPS : list string :=
  ["properties"; "patternProperties"; "$defs"; "definitions"; "dependentSchemas"].
Definition _SCHEMA_ARRAYS : list string := ["allOf"; "anyOf"; "oneOf"; "prefixItems"].
Definition _SCHEMA_VALUES : list string :=
  ["items"; "additionalProperties"; "additionalItems"; "contains"; "not"; "if"; "then"; "else";
   "propertyNames"; "unevaluatedProperties"; "unevaluatedItems"].

(** [_text]; the values are those of a JSON object. *)
Definition _text (value : json) (label : string) : res string :=
  match value with
  | JStr s =>
      _ ← guard_or (truthy (strip s) && (String.length s <=? 256))
            (ValueError (label +:+ " requires exact bounded non-empty text"));
      Ok s
  | _ => Err (ValueError (label +:+ " requires exact bounded non-empty text"))
  end.

(** ** Canonical values *)

(** [int(value) if value.is_integer() else value]. *)
Definition canonical_float (q : Q) : res json :=
  if negb (Qle_bool (Qabs q) (inject_Z (Z.pow 2 53)))
  then Err (ValueError "MCP contract number is outside the canonical numeric range")
  else if Qeq_bool q (inject_Z (Qfloor q)) then Ok (JInt (Qfloor q)) else Ok (JFloat q).

Fixpoint _canonical (depth : nat) (value : json) : res json :=
  if MAX_CONTRACT_DEPTH <? depth then Err (ValueError "MCP contract exceeds nesting limit") else
  match value with
  | JObj members =>
      _ ← guard_or (length members <=? MAX_CONTRACT_ITEMS)
            (ValueError "MCP contract object is invalid or too large");
      members ← (fix go (members : list (string * json)) : res (list (string * json)) :=
                   match members with
                   | [] => Ok []
                   | (key, item) :: members' =>
                       item ← _canonical (S depth) item;
                       later ← go members';
                       Ok ((key, item) :: later)
                   end) members;
      Ok (JObj members)
  | JArr items =>
      _ ← guard_or (length items <=? MAX_CONTRACT_ITEMS)
            (ValueError "MCP contract array is too large");
      items ← (fix go (items : list json) : res (list json) :=
                 match items with
                 | [] => Ok []
                 | item :: items' =>
                     item ← _canonical (S depth) item;
                     later ← go items';
                     Ok (item :: later)
                 end) items;
      Ok (JArr items)
  | JFloat q => canonical_float q
  | _ => Ok value
  end.

(** ** The schema of a tool *)

(** [part.replace("~1", "/").replace("~0", "~")]. *)
Fixpoint replace_escape (digit by_char : ascii) (s : string) : string :=
  match s with
  | String c rest =>
      match rest with
      | String d rest' =>
          if Ascii.eqb c "~"%char && Ascii.eqb d digit
          then String by_char (replace_escape digit by_char rest')
          else String c (replace_escape digit by_char rest)
      | EmptyString => String c rest
      end
  | EmptyString => EmptyString
  end.
Definition pointer_part (part : string) : string :=
  replace_escape "0"%char "~"%char (replace_escape "1"%char "/"%char part).

Fixpoint follow (target : json) (parts : list string) : res json :=
  match parts with
  | [] => Ok target
  | part :: parts' =>
      match target with
      | JObj m =>
          match assoc_last (pointer_part part) m with
          | Some next => follow next parts'
          | None => Err (ValueError "MCP schema reference cannot be resolved locally")
          end
      | _ => Err (ValueError "MCP schema reference cannot be resolved locally")
      end
  end.

Definition check_reference (root item : json) : res unit :=
  match item with
  | JStr ref =>
      _ ← guard_or ((ref =s "#") || startswith ref "#/")
            (ValueError "only local MCP schema references can be verified");
      target ← follow root (if ref =s "#" then [] else split_char "/"%char (str_drop 2 ref));
      guard_or (match target with JObj _ | JBool _ => true | _ => false end)
        (ValueError "MCP schema reference does not identify a schema")
  | _ => Err (ValueError "only local MCP schema references can be verified")
  end.

Definition positive_number (j : json) : bool :=
  match j with
  | JInt z => (0 <? z)%Z
  | JFloat q => negb (Qle_bool q 0)
  | _ => false
  end.
Definition is_number (j : json) : bool :=
  match j with JInt _ | JFloat _ => true | _ => false end.
Definition is_bool (j : json) : bool := match j with JBool _ => true | _ => false end.

(** The checks of a keyword that do not descend into schemas; [required] is
    sorted. *)
Definition check_keyword (root : json) (key : string) (item : json) : res json :=
  _ ← guard_or (negb (mem key ["$dynamicRef"; "$recursiveRef"]))
        (ValueError "dynamic MCP schema references cannot be verified");
  _ ← (if key =s "$ref" then check_reference root item else Ok tt);
  _ ← guard_or (negb (key =s "$schema")
                || match item with
                   | JStr s => mem s ["https://json-schema.org/draft/2020-12/schema";
                                      "http://json-schema.org/draft-07/schema#";
                                      "https://json-schema.org/draft-07/schema#"]
                   | _ => false
                   end) (ValueError "unsupported MCP JSON schema revision");
  _ ← guard_or (negb (mem key ["minLength"; "maxLength"; "minItems"; "maxItems";
                               "minProperties"; "maxProperties"; "minContains"; "maxContains"])
                || match item with JInt z => (0 <=? z)%Z | _ => false end)
        (ValueError "MCP schema bounds must be non-negative integers");
  _ ← guard_or (negb (mem key ["minimum"; "maximum"; "exclusiveMinimum"; "exclusiveMaximum";
                               "multipleOf"])
                || (is_number item && (negb (key =s "multipleOf") || positive_number item)))
        (ValueError "invalid MCP numeric schema bound");
  _ ← guard_or (negb (mem key ["uniqueItems"; "readOnly"; "writeOnly"; "deprecated"])
                || is_bool item) (ValueError "invalid MCP schema boolean annotation");
  _ ← guard_or (negb (mem key ["pattern"; "format"; "$id"; "$anchor"]) || is_str item)
        (ValueError "invalid MCP schema string keyword");
  _ ← guard_or (negb (key =s "enum") || match item with JArr (_ :: _) => true | _ => false end)
        (ValueError "invalid MCP schema enum");
  _ ← guard_or (negb (key =s "type")
                || let types := match item with JArr l => l | _ => [item] end in
                   negb (bool_decide (length types = 0))
                   && forallb (λ t, match t with
                                    | JStr s => mem s ["null"; "boolean"; "object"; "array";
                                                       "number"; "integer"; "string"]
                                    | _ => false
                                    end) types)
        (ValueError "invalid MCP schema type");
  if key =s "required" then
    match item with
    | JArr l =>
        _ ← guard_or (forallb is_str l && bool_decide (NoDup (only_strings l)))
              (ValueError "invalid MCP schema required properties");
        Ok (JArr (map JStr (sorted (only_strings l))))
    | _ => Err (ValueError "invalid MCP schema required properties")
    end
  else Ok item.

Definition SCHEMA_PROSE : list string := ["description"; "title"; "$comment"; "examples"].

Fixpoint _schema (root : json) (depth : nat) (value : json) : res json :=
  if MAX_CONTRACT_DEPTH <? depth then Err (ValueError "MCP schema exceeds nesting limit") else
  match value with
  | JBool b => Ok (JBool b)
  | JObj members =>
      result ←
        (fix go (members : list (string * json)) : res (list (string * json)) :=
           match members with
           | [] => Ok []
           | (key, item) :: members' =>
               if mem key SCHEMA_PROSE then go members' else
               checked ← check_keyword root key item;
               new ←
                 (if mem key _SCHEMA_MAPS then
                    match item with
                    | JObj children =>
                        children ←
                          (fix each (l : list (string * json)) : res (list (string * json)) :=
                             match l with
                             | [] => Ok []
                             | (name, child) :: l' =>
                                 child ← _schema root (S depth) child;
                                 later ← each l';
                                 Ok ((name, child) :: later)
                             end) children;
                        Ok (JObj children)
                    | _ => Err (ValueError "invalid MCP schema map")
                    end
                  else if mem key _SCHEMA_ARRAYS then
                    match item with
                    | JArr ((_ :: _) as children) =>
                        children ←
                          (fix each (l : list json) : res (list json) :=
                             match l with
                             | [] => Ok []
                             | child :: l' =>
                                 child ← _schema root (S depth) child;
                                 later ← each l';
                                 Ok (child :: later)
                             end) children;
                        Ok (JArr children)
                    | _ => Err (ValueError "invalid MCP schema composition")
                    end
                  else if mem key _SCHEMA_VALUES then _schema root (S depth) item
                  else Ok checked);
               later ← go members';
               Ok ((key, new) :: later)
           end) members;
      Ok (JObj result)
  | _ => Err (ValueError "MCP schema nodes must be objects or booleans")
  end.

(** ** The contract of a tool *)

Section contract.
(** The text of a float, and SHA-256. *)
Context (float_repr : Q → string) (sha256 : string → string).

(** The bytes that [json.dumps(...)] and [encode] make of an ordered value. *)
Definition render (ordered : json) : string :=
  utf8 (json_text float_repr compact_utf8_layout ordered).

(** [canonical_json], as the ordered value and its text. *)
Definition canonical_value (value : json) : res json :=
  c ← _canonical 0 value;
  let ordered := sort_keys c in
  _ ← guard_or (String.length (render ordered) <=? MAX_CONTRACT_BYTES)
        (ValueError "MCP contract exceeds byte limit");
  Ok ordered.
Definition canonical_json (value : json) : res string := render <$> canonical_value value.

Definition HINTS : list string :=
  ["readOnlyHint"; "destructiveHint"; "idempotentHint"; "openWorldHint"].
Definition TASK_SUPPORT : list string := ["forbidden"; "optional"; "required"].

(** One schema member; [outputSchema] may be absent. *)
Definition contract_schema (parsed : list (string * json)) (field : string)
  : res (list (string * json)) :=
  match assoc_last field parsed with
  | None =>
      if field =s "outputSchema" then Ok []
      else Err (ValueError ("MCP " +:+ field +:+ " must declare an object schema"))
  | Some schema =>
      _ ← guard_or (is_mapping schema
                    && match jget schema "type" with JStr t => t =s "object" | _ => false end)
            (ValueError ("MCP " +:+ field +:+ " must declare an object schema"));
      s ← _schema schema 0 schema;
      Ok [(field, s)]
  end.

(** What [json.loads] reads from the canonical text is the ordered value. *)
Definition canonical_tool_contract (tool : json) : res json :=
  _ ← guard_or (is_mapping tool) (ValueError "MCP tool contract must be an object");
  ordered ← canonical_value tool;
  let parsed := members ordered in
  name ← _text (default JNull (assoc_last "name" parsed)) "MCP tool name";
  input ← contract_schema parsed "inputSchema";
  output ← contract_schema parsed "outputSchema";
  match default (JObj []) (assoc_last "annotations" parsed) with
  | JObj annotations =>
      _ ← guard_or (forallb (λ key, match assoc_last key annotations with
                                    | Some value => is_bool value
                                    | None => true
                                    end) HINTS)
            (ValueError "MCP invocation hints must be boolean");
      let kept := List.filter (λ kv, negb (fst kv =s "title")) annotations in
      match default (JObj []) (assoc_last "execution" parsed) with
      | JObj execution =>
          _ ← guard_or (match default (JStr "forbidden") (assoc_last "taskSupport" execution) with
                        | JStr s => mem s TASK_SUPPORT
                        | _ => false
                        end) (ValueError "invalid MCP task execution contract");
          Ok (JObj ([("name", JStr name)] ++ input ++ output
                    ++ [("annotations", JObj kept);
                        ("execution",
                         JObj (foldl (λ d kv, dict_set (fst kv) (snd kv) d)
                                 [("taskSupport", JStr "forbidden")] execution))]
                    ++ List.filter (λ kv, negb (mem (fst kv)
                          ["name"; "inputSchema"; "outputSchema"; "annotations"; "execution";
                           "title"; "description"; "icons"])) parsed))
      | _ => Err (ValueError "invalid MCP task execution contract")
      end
  | _ => Err (ValueError "MCP tool annotations must be an object")
  end.

Definition tool_contract_digest (tool : json) : res string :=
  contract ← canonical_tool_contract tool;
  text ← canonical_json contract;
  Ok (sha256 text).
End contract.

(** ** Checks *)

Definition CONTRACT_STATUSES : list string :=
  ["matched"; "missing"; "unverified"; "ambiguous"; "invalid"; "semantics_changed"; "unpinned";
   "changed"].

Record MCPContractCheck := {
  ck_server : string;
  ck_tool : string;
  ck_status : string;
  expected_digest : option string;
  observed_digest : option string }.
#[export] Instance MCPContractCheck_eq_dec : EqDecision MCPContractCheck.
Proof. solve_decision. Defined.

Definition verified (c : MCPContractCheck) : bool := ck_status c =s "matched".
Definition opt_digest (o : option string) : bool :=
  match o with Some d => _DIGEST d | None => true end.

Definition mk_MCPContractCheck (c : MCPContractCheck) : res MCPContractCheck :=
  _ ← _text (JStr (ck_server c)) "MCP server";
  _ ← _text (JStr (ck_tool c)) "MCP tool";
  _ ← guard_or (mem (ck_status c) CONTRACT_STATUSES)
        (ValueError "invalid MCP contract verification status");
  _ ← guard_or (opt_digest (expected_digest c) && opt_digest (observed_digest c))
        (ValueError "invalid contract verification digest");
  _ ← guard_or (negb (verified c)
                || (negb (bool_decide (expected_digest c = None))
                    && bool_decide (expected_digest c = observed_digest c)))
        (ValueError "a verified contract requires matching expected and observed digests");
  Ok c.

Definition text_scalar (o : option string) : scalar :=
  match o with Some s => SText s | None => SNone end.
Definition MCPContractCheck_as_dict (c : MCPContractCheck) : list (string * scalar) :=
  [("server", SText (ck_server c)); ("tool", SText (ck_tool c)); ("status", SText (ck_status c));
   ("expected_digest", text_scalar (expected_digest c));
   ("observed_digest", text_scalar (observed_digest c))].

Definition invalid_check : exn := ValueError "invalid MCP contract check fields".
Definition digest_member (j : json) : res (option string) :=
  opt_str_field j "invalid contract verification digest".

(** The constructor rejects what is not a text where a text is needed. *)
Definition MCPContractCheck_from_dict (payload : json) : res MCPContractCheck :=
  let fields := ["server"; "tool"; "status"; "expected_digest"; "observed_digest"] in
  match payload with
  | JObj m =>
      _ ← guard_or (forallb (λ kv, mem (fst kv) fields) m
                    && forallb (λ f, bool_decide (is_Some (assoc_last f m))) fields) invalid_check;
      match jget payload "status" with
      | JStr status =>
          server ← _text (jget payload "server") "MCP server";
          tool ← _text (jget payload "tool") "MCP tool";
          _ ← guard_or (mem status CONTRACT_STATUSES)
                (ValueError "invalid MCP contract verification status");
          expected ← digest_member (jget payload "expected_digest");
          observed ← digest_member (jget payload "observed_digest");
          mk_MCPContractCheck
            {| ck_server := server; ck_tool := tool; ck_status := status;
               expected_digest := expected; observed_digest := observed |}
      | _ => Err (ValueError "invalid MCP contract check status")
      end
  | _ => Err invalid_check
  end.

(** [params.get(key)] equal to a text. *)
Definition param_is (a : ActionEnvelope) (key value : string) : bool :=
  match assoc_last key (ac_parameters a) with Some (JStr s) => s =s value | _ => false end.

Definition check_record (c : MCPContractCheck) (review : ActionReview) (decision : Decision)
  : ProvenanceRecord :=
  {| pv_source := "adapter"; pv_kind := "finding"; pv_code := "mcp.contract." +:+ ck_status c;
     pv_summary := None; pv_decision := Some decision; pv_risk := None; pv_effect := None;
     pv_resource := None; pv_rule_id := None; pv_action_id := ac_action_id (av_action review);
     pv_category := None; pv_indices := []; pv_metadata := MCPContractCheck_as_dict c |}.

Definition check_decision (c : MCPContractCheck) (review : ActionReview) : Decision :=
  if verified c || blocked (av_decision review) then av_decision review else Ask.

(** [apply] of a check. *)
Definition check_apply (c : MCPContractCheck) (review : ActionReview) : res ActionReview :=
  let action := av_action review in
  let is_mcp := ac_kind action =s "mcp" in
  _ ← guard_or ((is_mcp && (ac_operation action =s "call"))
                || ((ac_kind action =s "shell") && (ac_operation action =s "execute")
                    && param_is action "source_runtime" "mcp"))
        (ValueError "contract checks require an MCP-derived action");
  _ ← guard_or (if is_mcp
                then param_is action "server" (ck_server c) && param_is action "tool" (ck_tool c)
                else param_is action "source_server" (ck_server c)
                     && param_is action "source_tool" (ck_tool c))
        (ValueError "MCP contract evidence identity does not match the action");
  let decision := check_decision c review in
  provenance ← match av_provenance review with
               | Some p => Ok p
               | None => mk_DecisionProvenance
                           {| records := []; final_decision := av_decision review;
                              final_risk := av_risk review |}
               end;
  record ← mk_ProvenanceRecord (check_record c review decision);
  provenance ← append provenance [record] (Some decision) None;
  Ok {| av_action := action; av_decision := decision; av_risk := av_risk review;
        av_reasons :=
          if verified c then av_reasons review
          else ("MCP contract verification: " +:+ ck_status c
                +:+ "; review the exact contract and local semantics before execution")
               :: av_reasons review;
        av_safer_next_step := av_safer_next_step review; av_effects := av_effects review;
        av_resources := av_resources review; av_adapter := av_adapter review;
        av_capabilities := av_capabilities review; av_provenance := Some provenance;
        av_intent_alignment := av_intent_alignment review;
        av_trajectory_categories := av_trajectory_categories review;
        av_policy := av_policy review; av_policy_matches := av_policy_matches review |}.

(** ** Locks *)

Record MCPContractLock := {
  semantics_digest : string;
  pins : gmap (string * string) string;
  protocol_revision : string }.

Definition mk_MCPContractLock (l : MCPContractLock) : res MCPContractLock :=
  _ ← guard_or (_DIGEST (semantics_digest l)) (ValueError "invalid semantics binding digest");
  _ ← guard_or (negb (bool_decide (pins l = ∅)) && (size (pins l) <=? MAX_CONTRACT_TOOLS))
        (ValueError "MCP lock requires 1 to 256 exact contract pins");
  _ ← all_ok (map (λ pin : (string * string) * string,
                 let '((server, tool), digest) := pin in
                 _ ← _text (JStr server) "MCP server";
                 _ ← _text (JStr tool) "MCP tool";
                 guard_or (_DIGEST digest) (ValueError "invalid MCP contract pin digest"))
                (map_to_list (pins l)));
  _ ← _text (JStr (protocol_revision l)) "MCP protocol revision";
  Ok l.

(** ** The observer of a discovery *)

(** [_request] is a JSON-RPC id; the dictionaries are from names to digests. *)
Record Observer := {
  ob_server : string;
  ob_lock : MCPContractLock;
  ob_semantics_digest : string;
  live : gmap string string;
  building : gmap string string;
  pending : option json;
  cursor : option string;
  seen_cursors : gset string;
  status : string }.

Definition new_observer (server : string) (lock : MCPContractLock) (digest : string) : Observer :=
  {| ob_server := server; ob_lock := lock; ob_semantics_digest := digest; live := ∅;
     building := ∅; pending := None; cursor := None; seen_cursors := ∅; status := "missing" |}.

Definition invalidate (s : string) (o : Observer) : Observer :=
  {| ob_server := ob_server o; ob_lock := ob_lock o;
     ob_semantics_digest := ob_semantics_digest o; live := ∅; building := ∅; pending := None;
     cursor := None; seen_cursors := ∅; status := s |}.

Definition set_request (o : Observer) (seen : gset string) (request : option json) : Observer :=
  {| ob_server := ob_server o; ob_lock := ob_lock o;
     ob_semantics_digest := ob_semantics_digest o; live := live o; building := building o;
     pending := request; cursor := cursor o; seen_cursors := seen; status := status o |}.

(** The state a call leaves, with the error it raises if any. *)
Definition request (request_id : json) (params : list (string * json)) (o : Observer)
  : Observer * option exn :=
  match pending o with
  | Some _ => (o, Some (ValueError "a contract discovery request is already in flight"))
  | None =>
      match default JNull (assoc_last "cursor" params) with
      | JNull => (set_request (invalidate "unverified" o) ∅ (Some request_id), None)
      | JStr c =>
          if negb (bool_decide (cursor o = Some c)) || bool_decide (c ∈ seen_cursors o)
          then (invalidate "ambiguous" o,
                Some (ValueError "MCP discovery cursor does not match the current contract inventory"))
          else if MAX_CONTRACT_TOOLS <=? size (seen_cursors o)
          then (invalidate "invalid" o, Some (ValueError "MCP discovery exceeds page limit"))
          else (set_request o ({[c]} ∪ seen_cursors o) (Some request_id), None)
      | _ => (invalidate "ambiguous" o,
              Some (ValueError "MCP discovery cursor does not match the current contract inventory"))
      end
  end.

Section observer.
(** [tool_contract_digest] and [canonical_json] of the sections above. *)
Context (digest_of : json → res string) (bounded : json → res string).

(** The loop over the tools of a page. *)
Fixpoint add_tools (building : gmap string string) (tools : list json)
  : res (gmap string string) :=
  match tools with
  | [] => Ok building
  | tool :: tools' =>
      _ ← guard_or (is_mapping tool) (ValueError "invalid MCP tool contract");
      name ← _text (jget tool "name") "MCP tool";
      _ ← guard_or (bool_decide (building !! name = None)
                    && (size building <? MAX_CONTRACT_TOOLS))
            (ValueError "duplicate or excessive MCP tool contracts");
      d ← digest_of tool;
      add_tools (<[name := d]> building) tools'
  end.

(** The page of a response: the inventory so far and the next cursor. *)
Definition read_page (o : Observer) (message : list (string * json))
  : res (gmap string string * option string) :=
  _ ← guard_or (bool_decide (assoc_last "method" message = None)
                && bool_decide (assoc_last "error" message = None))
        (ValueError "contract discovery did not return a terminal result");
  let result := default JNull (assoc_last "result" message) in
  match jget result "tools" with
  | JArr tools =>
      _ ← bounded result;
      inventory ← add_tools (building o) tools;
      match jget result "nextCursor" with
      | JNull => Ok (inventory, None)
      | JStr c =>
          _ ← guard_or (truthy c && (String.length c <=? Nat.pow 2 12)
                        && bool_decide (c ∉ seen_cursors o))
                (ValueError "invalid MCP contract pagination cursor");
          Ok (inventory, Some c)
      | _ => Err (ValueError "invalid MCP contract pagination cursor")
      end
  | _ => Err (ValueError "invalid tools/list contract response")
  end.

(** Only [ValueError] and [TypeError] are caught. *)
Definition response (request_id : json) (message : list (string * json)) (o : Observer)
  : res (Observer * bool) :=
  match pending o with
  | Some expected =>
      if negb (json_equal request_id expected) then Ok (o, false) else
      match read_page o message with
      | Ok (inventory, Some c) =>
          Ok ({| ob_server := ob_server o; ob_lock := ob_lock o;
                 ob_semantics_digest := ob_semantics_digest o; live := live o;
                 building := inventory; pending := None; cursor := Some c;
                 seen_cursors := seen_cursors o; status := status o |}, true)
      | Ok (inventory, None) =>
          Ok ({| ob_server := ob_server o; ob_lock := ob_lock o;
                 ob_semantics_digest := ob_semantics_digest o; live := inventory;
                 building := ∅; pending := None; cursor := None;
                 seen_cursors := seen_cursors o; status := "complete" |}, true)
      | Err (ValueError _) | Err (TypeError _) => Ok (invalidate "invalid" o, true)
      | Err e => Err e
      end
  | None => Ok (o, false)
  end.
End observer.

Definition check_status (o : Observer) (tool : string) : string :=
  let expected := pins (ob_lock o) !! (ob_server o, tool) in
  let observed := live o !! tool in
  if negb (ob_semantics_digest o =s semantics_digest (ob_lock o)) then "semantics_changed"
  else match expected with
       | None => "unpinned"
       | Some e =>
           if negb (status o =s "complete") then status o
           else match observed with
                | None => "missing"
                | Some d => if d =s e then "matched" else "changed"
                end
       end.
Definition check (o : Observer) (tool : string) : res MCPContractCheck :=
  mk_MCPContractCheck
    {| ck_server := ob_server o; ck_tool := tool; ck_status := check_status o tool;
       expected_digest := pins (ob_lock o) !! (ob_server o, tool);
       observed_digest := live o !! tool |}.
