(* ===== verification/Adapters.v ===== *)
(** * Adapters of tool calls ([ordin/adapters.py])

    A tool call becomes a generic action, or a shell action when the host has
    named the tool as a shell tool.  The arguments are an object with distinct
    keys; a set of names is a list. *)
From stdpp Require Import base list strings pretty.
From Stdlib Require Import Bool Ascii ZArith Lia.
From S2P Require Import Prelude PyStr Json Context Execution ActionModel.
#[local] Open Scope py_scope.

Definition MAX_ADAPTER_NAME_LENGTH : nat := 128.
Definition MAX_TOOL_NAME_LENGTH : nat := 256.
Definition MAX_SERVER_NAME_LENGTH : nat := 256.

Definition _required_text (value name : string) (maximum : nat) : res string :=
  _ ← guard_or (truthy (strip value)) (ValueError (name +:+ " must be non-empty text"));
  _ ← guard_or (String.length value <=? maximum)
        (ValueError (name +:+ " must be at most " +:+ pretty maximum +:+ " characters"));
  Ok value.
Definition _arguments (value : option (list (string * json))) : list (string * json) :=
  default [] value.

Record ToolCallAdapter := {
  ta_runtime : string;
  ta_shell_tools : list string;
  ta_command_argument : string }.
Definition mk_ToolCallAdapter (a : ToolCallAdapter) : res ToolCallAdapter :=
  _ ← _required_text (ta_runtime a) "runtime" MAX_ADAPTER_NAME_LENGTH;
  _ ← _required_text (ta_command_argument a) "command argument" MAX_ADAPTER_NAME_LENGTH;
  _ ← all_ok (map (λ t, _required_text t "shell tool name" MAX_TOOL_NAME_LENGTH)
                 (ta_shell_tools a));
  Ok a.

Record MCPAdapter := {
  ma_server : string;
  ma_shell_tools : list string;
  ma_command_argument : string }.
Definition mk_MCPAdapter (a : MCPAdapter) : res MCPAdapter :=
  _ ← _required_text (ma_server a) "MCP server" MAX_SERVER_NAME_LENGTH;
  _ ← _required_text (ma_command_argument a) "command argument" MAX_ADAPTER_NAME_LENGTH;
  _ ← all_ok (map (λ t, _required_text t "MCP shell tool name" MAX_TOOL_NAME_LENGTH)
                 (ma_shell_tools a));
  Ok a.

(** The command of a shell tool: a text that is not blank. *)
Definition command_of (args : list (string * json)) (argument message : string) : res string :=
  match dict_get argument args with
  | Some (JStr command) => _ ← guard_or (truthy (strip command)) (ValueError message); Ok command
  | _ => Err (ValueError message)
  end.

Definition shell_message (label tool argument : string) : string :=
  label +:+ " " +:+ repr tool +:+ " requires non-empty " +:+ repr argument +:+ " argument".

Section adapt.
Context (tool : string) (arguments : option (list (string * json))) (intent : option string)
        (context : option ExecutionContext) (action_id : option string).

Definition envelope (kind operation : string) (parameters : list (string * json))
  : res ActionEnvelope :=
  mk_ActionEnvelope
    {| ac_kind := kind; ac_operation := operation; ac_parameters := parameters;
       ac_intent := intent; ac_context := context; ac_action_id := action_id |}.

Definition adapt_tool (a : ToolCallAdapter) : res ActionEnvelope :=
  tool ← _required_text tool "tool name" MAX_TOOL_NAME_LENGTH;
  let args := _arguments arguments in
  if mem tool (ta_shell_tools a) then
    command ← command_of args (ta_command_argument a)
                (shell_message "shell tool" tool (ta_command_argument a));
    envelope "shell" "execute"
      [("command", JStr command); ("source_runtime", JStr (ta_runtime a));
       ("source_tool", JStr tool)]
  else
    envelope "tool" "call"
      [("runtime", JStr (ta_runtime a)); ("tool", JStr tool); ("arguments", JObj args)].

Definition adapt_mcp (a : MCPAdapter) : res ActionEnvelope :=
  tool ← _required_text tool "MCP tool" MAX_TOOL_NAME_LENGTH;
  let args := _arguments arguments in
  if mem tool (ma_shell_tools a) then
    command ← command_of args (ma_command_argument a)
                (shell_message "MCP shell tool" tool (ma_command_argument a));
    envelope "shell" "execute"
      [("command", JStr command); ("source_runtime", JStr "mcp");
       ("source_server", JStr (ma_server a)); ("source_tool", JStr tool)]
  else
    envelope "mcp" "call"
      [("server", JStr (ma_server a)); ("tool", JStr tool); ("arguments", JObj args)].
End adapt.
