(* ===== verification/GraphQLFacts.v ===== *)
(** * Theorems about the GraphQL readers

    The readers terminate: the fuel that they start with is enough, so a
    refusal is the code's.  What they select: the fields of a result are
    exactly the ones that the document selects. *)
From stdpp Require Import base list strings gmap sets sorting.
From Stdlib Require Import Bool Ascii NArith Lia.
From S2P Require Import Prelude PyStr Json JsonText RequestReaders GraphQL.
#[local] Open Scope py_scope.
#[local] Open Scope nat_scope.

(** ** Lexers *)

Lemma span_length p s : String.length (snd (span p s)) ≤ String.length s.
Proof.
  induction s as [|c s IH]; cbn; [done|]. destruct (p c); [|done].
  destruct (span p s) as [taken rest]. cbn in *. lia.
Qed.
Lemma span_head p c s :
  p c = true → String.length (snd (span p (String c s))) ≤ String.length s.
Proof.
  intros Hp. cbn. rewrite Hp. pose proof (span_length p s). by destruct (span p s).
Qed.
Lemma str_drop_length n s : String.length (str_drop n s) = String.length s - n.
Proof. revert n. induction s as [|c s IH]; intros [|n]; cbn; done. Qed.

Lemma scope_token_shorter s t rest :
  Scope.scope_token s = Some (t, rest) → String.length rest < String.length s.
Proof.
  unfold Scope.scope_token. destruct s as [|c s]; [done|].
  destruct (startswith (String c s) "...").
  - intros E. assert (rest = str_drop 3 (String c s)) as -> by congruence.
    rewrite str_drop_length. cbn. lia.
  - destruct (name_start c) eqn:Hc.
    + pose proof (span_head name_char c s) as Hs. unfold name_char at 1 in Hs. rewrite Hc in Hs.
      destruct (span name_char (String c s)) as [t' rest']. intros [= <- <-].
      specialize (Hs eq_refl). cbn in *. lia.
    + destruct (mem _ _); [|done]. intros [= <- <-]. cbn. lia.
Qed.

Lemma scope_lex_fuel f : ∀ f' count s,
  String.length s < f → String.length s < f' → Scope.lex f count s = Scope.lex f' count s.
Proof.
  induction f as [|f IH]; intros [|f'] count s Hf Hf'; try lia. cbn [Scope.lex].
  destruct s as [|c s]; [done|]. cbn [String.length] in *.
  destruct (blank c || _); [apply IH; lia|]. destruct (Ascii.eqb c "#") eqn:Hc.
  - apply Ascii.eqb_eq in Hc as ->.
    pose proof (span_head (λ c, negb (newline c)) "#"%char s eq_refl). apply IH; lia.
  - destruct (Scope.scope_token (String c s)) as [[t rest]|] eqn:Ht; [|done].
    apply scope_token_shorter in Ht. cbn in Ht. destruct (_ || _); [done|].
    by rewrite (IH f') by lia.
Qed.

(** *** Tokens of the authority parser *)

Lemma block_rest_shorter s : ∀ body rest,
  Authority.block_rest s = Some (body, rest) → String.length rest < String.length s.
Proof.
  induction s as [s IH] using (induction_ltof1 _ String.length). unfold ltof in IH.
  intros body rest. destruct s as [|c s1]; [done|]. cbn [Authority.block_rest].
  destruct (startswith (String c s1) Authority.block_quote).
  { intros E. assert (rest = str_drop 3 (String c s1)) as -> by congruence.
    rewrite str_drop_length. cbn. lia. }
  assert (∀ b r, ('(body, rest) ← Authority.block_rest s1; Some (String c body, rest)) = Some (b, r) →
    String.length r < String.length (String c s1)) as Hone.
  { intros b r. destruct (Authority.block_rest s1) as [[b1 r1]|] eqn:E1; [|done]. intros [= _ <-].
    apply IH in E1; cbn; lia. }
  destruct s1 as [|q1 [|q2 [|q3 s4]]]; try apply Hone.
  destruct (_ && _); [|apply Hone].
  destruct (Authority.block_rest s4) as [[b4 r4]|] eqn:E4; [|apply Hone].
  intros [= _ <-]. apply IH in E4; cbn in *; lia.
Qed.

Lemma string_rest_shorter s : ∀ body rest,
  Authority.string_rest s = Some (body, rest) → String.length rest < String.length s.
Proof.
  induction s as [s IH] using (induction_ltof1 _ String.length). unfold ltof in IH.
  intros body rest. destruct s as [|c s1]; [done|]. cbn [Authority.string_rest].
  assert (∀ (k : string → string) s', String.length s' < String.length (String c s1) →
    ('(body, rest) ← Authority.string_rest s'; Some (k body, rest)) = Some (body, rest) →
    String.length rest < String.length (String c s1)) as Hnext.
  { intros k s' Hl. destruct (Authority.string_rest s') as [[b r]|] eqn:E; [|done].
    intros [= _ <-]. apply IH in E; lia. }
  destruct (Ascii.eqb c double_quote); [intros [= _ <-]; cbn; lia|].
  destruct (Ascii.eqb c "\"); [|destruct (newline c); [done|apply (Hnext (String c)); cbn; lia]].
  destruct s1 as [|e s2]; [done|].
  destruct (Authority.short_escape e); [apply (Hnext (λ b, String c (String e b))); cbn; lia|].
  destruct (Ascii.eqb e "u"); [|done].
  destruct s2 as [|h1 [|h2 [|h3 [|h4 s6]]]]; try done. destruct (_ && _); [|done].
  apply (Hnext (λ b, String c (String e (String h1 (String h2 (String h3 (String h4 b))))))).
  cbn. lia.
Qed.

Lemma digits_shorter s t rest :
  Authority.digits s = Some (t, rest) → String.length rest ≤ String.length s.
Proof.
  unfold Authority.digits. pose proof (span_length ascii_digit s) as H.
  destruct (span ascii_digit s) as [a b]. destruct (truthy a); [|done]. by intros [= _ <-].
Qed.
Lemma sign_shorter chars s : String.length (snd (Authority.sign chars s)) ≤ String.length s.
Proof. destruct s as [|c s]; [done|]. cbn. destruct (mem _ _); cbn; lia. Qed.
Lemma integer_shorter s t rest :
  Authority.integer_part s = Some (t, rest) → String.length rest < String.length s.
Proof.
  destruct s as [|c s]; [done|]. cbn [Authority.integer_part].
  destruct (Ascii.eqb c "0"); [intros [= _ <-]; cbn; lia|].
  destruct (ascii_digit c) eqn:Hc; [|done]. intros E.
  pose proof (span_head ascii_digit c s Hc) as H. destruct (span ascii_digit (String c s)) as [a b].
  injection E as _ <-. cbn in *. lia.
Qed.
Lemma optional_shorter m s t rest :
  (∀ t r, m = Some (t, r) → String.length r ≤ String.length s) →
  Authority.optional_part m s = (t, rest) → String.length rest ≤ String.length s.
Proof. intros Hm. destruct m as [[a b]|]; cbn; intros [= _ <-]; [by eapply Hm|done]. Qed.
Lemma number_shorter s t rest :
  Authority.number s = Some (t, rest) → String.length rest < String.length s.
Proof.
  unfold Authority.number. pose proof (sign_shorter ["-"] s) as Hs.
  destruct (Authority.sign ["-"] s) as [m s1]. cbn in Hs.
  destruct (Authority.integer_part s1) as [[w s2]|] eqn:Ei; [|done]. cbn [mbind option_bind].
  apply integer_shorter in Ei.
  destruct (Authority.optional_part (Authority.fraction s2) s2) as [p s3] eqn:Ef.
  destruct (Authority.optional_part (Authority.exponent s3) s3) as [e s4] eqn:Ee.
  intros E. assert (rest = s4) as -> by congruence.
  apply optional_shorter in Ef, Ee; [lia| |].
  - intros a b. unfold Authority.exponent. destruct s3 as [|c s3]; [done|].
    destruct (mem _ _); [|done]. pose proof (sign_shorter ["+"; "-"] s3) as Hp.
    destruct (Authority.sign _ s3) as [pl s5]. destruct (Authority.digits s5) as [[d r]|] eqn:Ed; [|done].
    intros [= _ <-]. apply digits_shorter in Ed. cbn in *. lia.
  - intros a b. unfold Authority.fraction. destruct s2 as [|c s2]; [done|].
    destruct (Ascii.eqb c "."); [|done]. destruct (Authority.digits s2) as [[d r]|] eqn:Ed; [|done].
    intros [= _ <-]. apply digits_shorter in Ed. cbn in *. lia.
Qed.

Lemma token_shorter s t rest :
  Authority.token s = Some (t, rest) → String.length rest < String.length s.
Proof.
  destruct s as [|c s]; [done|]. unfold Authority.token.
  assert (∀ p : ascii → bool, p c = true → Some (span p (String c s)) = Some (t, rest) →
    String.length rest < String.length (String c s)) as Hspan.
  { intros p Hp E. pose proof (span_head p c s Hp) as H.
    destruct (span p (String c s)) as [a b]. injection E as _ <-. cbn in *. lia. }
  assert (∀ a b : string, Some (a, s) = Some (b, rest) → String.length rest < String.length (String c s)) as Hone.
  { intros a b [= _ <-]. cbn. lia. }
  assert (∀ n, 0 < n → String.length (str_drop n (String c s)) < String.length (String c s)) as Hdrop.
  { intros n Hn. rewrite str_drop_length. cbn. lia. }
  destruct (blank c) eqn:Hb; [by apply Hspan|].
  destruct (Ascii.eqb c "#") eqn:Hh.
  { apply Hspan. apply Ascii.eqb_eq in Hh as ->. done. }
  destruct (Ascii.eqb c ","); [apply Hone|].
  destruct (startswith (String c s) "...").
  { intros E. assert (rest = str_drop 3 (String c s)) as -> by congruence. apply Hdrop. lia. }
  match goal with |- match ?m with _ => _ end = _ → _ => destruct m as [[a b]|] eqn:Ebl end.
  { intros E. assert (rest = b) as -> by congruence.
    destruct (startswith _ Authority.block_quote); [|done].
    destruct (Authority.block_rest (str_drop 3 (String c s))) as [[b1 r1]|] eqn:E1; [|done].
    apply block_rest_shorter in E1. assert (b = r1) as -> by (cbn in Ebl; congruence).
    pose proof (Hdrop 3). lia. }
  destruct (Ascii.eqb c double_quote).
  { destruct (Authority.string_rest s) as [[b r]|] eqn:E1; [|done]. cbn [mbind option_bind].
    intros [= _ <-]. apply string_rest_shorter in E1. cbn. lia. }
  destruct (Authority.number (String c s)) as [[a b]|] eqn:En.
  { intros E. assert (rest = b) as -> by congruence. by apply number_shorter in En. }
  destruct (name_start c) eqn:Hn.
  { apply Hspan. unfold name_char. by rewrite Hn. }
  destruct (mem _ _); [apply Hone|done].
Qed.

Lemma authority_lex_fuel f : ∀ f' count s,
  String.length s < f → String.length s < f' → Authority.lex f count s = Authority.lex f' count s.
Proof.
  induction f as [|f IH]; intros [|f'] count s Hf Hf'; try lia. cbn [Authority.lex].
  destruct s as [|c s]; [done|].
  destruct (Authority.token (String c s)) as [[t rest]|] eqn:Ht; [|done]. cbn [mbind option_bind].
  apply token_shorter in Ht. destruct (_ || _); [done|].
  destruct (Authority.kept t); [by rewrite (IH f') by lia|apply IH; lia].
Qed.

(** ** The authority parser *)
Module AuthorityParser.
Import Authority.

(** A parser that takes at least [n] tokens when it returns. *)
Definition takes {A} (n : nat) (p : parser A) : Prop :=
  ∀ st x st', p st = Some (x, st') → length (rest st') + n ≤ length (rest st).

Lemma takes_bind {A B} n k (m : parser A) (f : A → parser B) :
  takes n m → (∀ x, takes k (f x)) → takes (n + k) (m ≫= f).
Proof.
  intros Hm Hf st y st'. unfold mbind, parser_bind. destruct (m st) as [[x st1]|] eqn:E; [|done].
  intros E'. apply Hm in E. apply Hf in E'. lia.
Qed.
Lemma takes_weaken {A} n k (p : parser A) : takes n p → k ≤ n → takes k p.
Proof. intros Hp Hk st x st' E. apply Hp in E. lia. Qed.
Lemma takes_ret {A} (x : A) : takes 0 (mret x).
Proof. intros st y st' [= _ <-]. lia. Qed.
Lemma takes_refuse {A} n : takes n (@refuse A).
Proof. by intros st y st'. Qed.
Lemma takes_demand c : takes 0 (demand c).
Proof. destruct c; [apply takes_ret|apply takes_refuse]. Qed.
Lemma takes_peek : takes 0 peek.
Proof. intros st y st' [= _ <-]. lia. Qed.
Lemma takes_at t : takes 0 (at_token t).
Proof. intros st y st' [= _ <-]. lia. Qed.
Lemma takes_left : takes 0 tokens_left.
Proof. intros st y st' [= _ <-]. lia. Qed.
Lemma takes_forget : takes 0 forget.
Proof. intros st y st' [= _ <-]. cbn. lia. Qed.
Lemma takes_named : takes 0 named.
Proof. intros st y st' [= _ <-]. lia. Qed.
Lemma takes_refer n : takes 0 (refer n).
Proof. intros st y st' [= _ <-]. cbn. lia. Qed.
Lemma takes_take : takes 1 take.
Proof. intros st y st'. unfold take. destruct (rest st); [done|]. intros [= _ <-]. cbn. lia. Qed.

Create HintDb takes.
#[local] Hint Resolve takes_ret takes_refuse takes_demand takes_peek takes_at takes_left takes_forget
  takes_named takes_refer takes_take : takes.

(** Tokens taken, bind by bind: what the first parser takes is enough, or what
    follows is. *)
Ltac takes :=
  repeat (first
    [ progress (auto with takes)
    | apply takes_refuse
    | eapply (takes_weaken 0); [|lia]; solve [auto with takes]
    | eapply (takes_weaken 1); [|lia]; solve [auto with takes]
    | match goal with
      | |- takes 0 (_ ≫= _) => apply (takes_bind 0 0); [|intros ?]
      | |- takes 1 (_ ≫= _) =>
          first [ apply (takes_bind 1 0); [solve [auto with takes]|intros ?]
                | apply (takes_bind 0 1); [|intros ?] ]
      | |- takes _ (if ?b then _ else _) => destruct b
      | |- takes _ (let '(_, _) := ?p in _) => destruct p
      end ]).

Lemma takes_name : takes 1 name.
Proof. unfold name. takes. Qed.
Lemma takes_expect t : takes 1 (expect t).
Proof. unfold expect. takes. Qed.
#[local] Hint Resolve takes_name takes_expect : takes.

Lemma takes_values fuel :
  (∀ depth c, takes 1 (value fuel depth c)) ∧ (∀ depth c, takes 0 (list_items fuel depth c)) ∧
  (∀ depth c seen, takes 0 (object_items fuel depth c seen)).
Proof.
  induction fuel as [|fuel (IHv & IHl & IHo)]; (split; [|split]); intros; cbn; takes.
Qed.
Lemma takes_value fuel depth c : takes 1 (value fuel depth c).
Proof. apply takes_values. Qed.
Lemma takes_list fuel depth c : takes 0 (list_items fuel depth c).
Proof. apply takes_values. Qed.
Lemma takes_object fuel depth c seen : takes 0 (object_items fuel depth c seen).
Proof. apply takes_values. Qed.
Lemma takes_fuel {A} n (p : nat → parser A) : (∀ fuel, takes n (p fuel)) → takes n (with_fuel p).
Proof. intros Hp st x st'. apply Hp. Qed.
#[local] Hint Resolve takes_value takes_list takes_object : takes.
#[local] Hint Extern 1 (takes _ (with_fuel _)) => apply takes_fuel; intros : takes.
Lemma takes_argument_items fuel : ∀ seen, takes 0 (argument_items fuel seen).
Proof. induction fuel as [|fuel IH]; intros seen; cbn; takes. Qed.
#[local] Hint Resolve takes_argument_items : takes.
Lemma takes_arguments : takes 0 arguments.
Proof. unfold arguments. takes. Qed.
#[local] Hint Resolve takes_arguments : takes.
Lemma takes_directives_loop fuel : takes 0 (directives_loop fuel).
Proof. induction fuel as [|fuel IH]; cbn; takes. Qed.
#[local] Hint Resolve takes_directives_loop : takes.
Lemma takes_directives : takes 0 directives.
Proof. unfold directives. takes. Qed.
Lemma takes_type_ref fuel : ∀ depth, takes 0 (type_ref fuel depth).
Proof. induction fuel as [|fuel IH]; intros depth; cbn; takes. Qed.
#[local] Hint Resolve takes_directives takes_type_ref : takes.
Lemma takes_variable_items fuel : ∀ required seen, takes 0 (variable_items fuel required seen).
Proof. induction fuel as [|fuel IH]; intros required seen; cbn; takes. Qed.
#[local] Hint Resolve takes_variable_items : takes.
Lemma takes_variables : takes 0 variables.
Proof. unfold variables. takes. Qed.
#[local] Hint Resolve takes_variables : takes.
Lemma takes_selections fuel :
  (∀ depth, takes 1 (selection fuel depth)) ∧ (∀ depth, takes 0 (selection_items fuel depth)).
Proof. induction fuel as [|fuel [IHs IHi]]; split; intros; cbn; takes. Qed.
Lemma takes_selection fuel depth : takes 1 (selection fuel depth).
Proof. apply takes_selections. Qed.
Lemma takes_selection_items fuel depth : takes 0 (selection_items fuel depth).
Proof. apply takes_selections. Qed.
#[local] Hint Resolve takes_selection takes_selection_items : takes.
Lemma takes_fragment known : takes 1 (fragment_definition known).
Proof. unfold fragment_definition. takes. Qed.
Lemma takes_operation : takes 1 operation_definition.
Proof. unfold operation_definition. takes. Qed.
#[local] Hint Resolve takes_fragment takes_operation : takes.

(** Two parsers that agree on at most [n] tokens. *)
Definition same_from {A} (n : nat) (p q : parser A) : Prop :=
  ∀ st, length (rest st) ≤ n → p st = q st.
Lemma same_refl {A} n (p : parser A) : same_from n p p.
Proof. by intros st _. Qed.
Lemma same_bind {A B} k n (m m' : parser A) (f f' : A → parser B) :
  takes k m → same_from n m m' → (k ≤ n → ∀ x, same_from (n - k) (f x) (f' x)) →
  same_from n (m ≫= f) (m' ≫= f').
Proof.
  intros Hk Hm Hf st Hl. unfold mbind, parser_bind. rewrite <- (Hm st Hl).
  destruct (m st) as [[x st1]|] eqn:E; [|done]. apply Hk in E. apply Hf; lia.
Qed.

Ltac same :=
  repeat (first
    [ apply same_refl
    | match goal with
      | |- same_from _ (_ ≫= _) (_ ≫= _) =>
          first [ apply (same_bind 1); [by auto with takes| |intros ? ?]
                | apply (same_bind 0); [solve [takes]| |intros _ ?; rewrite ?Nat.sub_0_r] ]
      | |- same_from _ (if ?b then _ else _) _ => destruct b
      end
    | match goal with IH : _ |- _ => apply IH; lia end ]).

Lemma values_fuel f : ∀ f' n,
  (∀ depth c, 2 * n + 1 ≤ f → 2 * n + 1 ≤ f' → same_from n (value f depth c) (value f' depth c)) ∧
  (∀ depth c, 2 * n + 2 ≤ f → 2 * n + 2 ≤ f' →
     same_from n (list_items f depth c) (list_items f' depth c)) ∧
  (∀ depth c seen, 2 * n + 2 ≤ f → 2 * n + 2 ≤ f' →
     same_from n (object_items f depth c seen) (object_items f' depth c seen)).
Proof.
  induction f as [|f IH]; intros [|f'] n; (split; [|split]); intros; try lia; cbn;
    assert (∀ n, _) as IHv by (intros m; exact (proj1 (IH f' m)));
    assert (∀ n, _) as IHl by (intros m; exact (proj1 (proj2 (IH f' m))));
    assert (∀ n, _) as IHo by (intros m; exact (proj2 (proj2 (IH f' m)))); same.
Qed.

Lemma argument_fuel f : ∀ f' n seen,
  n + 1 ≤ f → n + 1 ≤ f' → same_from n (argument_items f seen) (argument_items f' seen).
Proof. induction f as [|f IH]; intros [|f'] n seen ? ?; try lia; cbn; same. Qed.
Lemma directives_fuel f : ∀ f' n,
  n + 1 ≤ f → n + 1 ≤ f' → same_from n (directives_loop f) (directives_loop f').
Proof. induction f as [|f IH]; intros [|f'] n ? ?; try lia; cbn; same. Qed.
Lemma type_ref_fuel f : ∀ f' n depth,
  n + 1 ≤ f → n + 1 ≤ f' → same_from n (type_ref f depth) (type_ref f' depth).
Proof. induction f as [|f IH]; intros [|f'] n depth ? ?; try lia; cbn; same. Qed.
Lemma variable_fuel f : ∀ f' n required seen,
  n + 1 ≤ f → n + 1 ≤ f' →
  same_from n (variable_items f required seen) (variable_items f' required seen).
Proof. induction f as [|f IH]; intros [|f'] n required seen ? ?; try lia; cbn; same. Qed.
Lemma selections_fuel f : ∀ f' n,
  (∀ depth, 2 * n + 1 ≤ f → 2 * n + 1 ≤ f' → same_from n (selection f depth) (selection f' depth)) ∧
  (∀ depth, 2 * n + 2 ≤ f → 2 * n + 2 ≤ f' →
     same_from n (selection_items f depth) (selection_items f' depth)).
Proof.
  induction f as [|f IH]; intros [|f'] n; (split; intros; try lia; cbn);
    assert (∀ n, _) as IHs by (intros m; exact (proj1 (IH f' m)));
    assert (∀ n, _) as IHi by (intros m; exact (proj2 (IH f' m))); same.
Qed.
Lemma definitions_fuel f : ∀ f' n d,
  n + 1 ≤ f → n + 1 ≤ f' → same_from n (definitions f d) (definitions f' d).
Proof.
  induction f as [|f IH]; intros [|f'] n d ? ?; try lia; cbn. same. destruct x as [t|]; same.
Qed.
End AuthorityParser.

(** ** The scope parser *)
Module ScopeParser.
Import Scope.

Lemma take_shorter t ts ts' : take t ts = Some ts' → S (length ts') = length ts.
Proof. destruct ts as [|x ts]; [done|]. cbn. destruct (x =s t); [|done]. by intros [= ->]. Qed.
Lemma name_shorter ts x ts' : name ts = Some (x, ts') → S (length ts') = length ts.
Proof. destruct ts as [|t ts]; [done|]. cbn. destruct (NAME t); [|done]. by intros [= _ ->]. Qed.

(** Inverts the binds of a result, and keeps what they take. *)
Ltac inv_takes :=
  repeat match goal with
  | H : (match ?m with _ => _ end) = Some _ |- _ => destruct m eqn:?; try discriminate H
  | H : mbind _ ?m = Some _ |- _ =>
      destruct m as [|] eqn:?; cbn [mbind option_bind] in H; [|discriminate H]
  | H : (let '(_, _) := ?p in _) = Some _ |- _ => destruct p
  | H : take _ _ = Some _ |- _ => apply take_shorter in H
  | H : name _ = Some _ |- _ => apply name_shorter in H
  | H : Some _ = Some _ |- _ => injection H as H; subst
  end.

Lemma items_shorter f : ∀ depth ts nodes ts',
  items f depth ts = Some (nodes, ts') → length ts' ≤ length ts.
Proof.
  induction f as [|f IH]; intros depth ts nodes ts'; [done|]. cbn [items].
  destruct ts as [|t ts]; [done|].
  destruct (t =s "}"); [by intros [= _ <-]|].
  destruct (t =s "..."); intros H; inv_takes;
    repeat match goal with H : items _ _ _ = Some _ |- _ => apply IH in H end; cbn in *; lia.
Qed.

Lemma items_fuel f : ∀ f' depth ts,
  length ts < f → length ts < f' → items f depth ts = items f' depth ts.
Proof.
  induction f as [|f IH]; intros [|f'] depth ts Hf Hf'; try lia. cbn [items].
  destruct ts as [|t ts]; [done|]. cbn [length] in *.
  destruct (t =s "}"); [done|]. destruct (t =s "...").
  - destruct (name ts) as [[fragment ts2]|] eqn:E2; [|done]. cbn [mbind option_bind].
    apply name_shorter in E2. destruct (fragment =s "on"); [|by rewrite (IH f') by lia].
    destruct (name ts2) as [[? ts3]|] eqn:E3; [|done]. cbn [mbind option_bind].
    apply name_shorter in E3. destruct (16 <? S depth); [done|].
    destruct (take "{" ts3) as [ts4|] eqn:E4; [|done]. cbn [mbind option_bind].
    apply take_shorter in E4. rewrite (IH f') by lia.
    destruct (items f' (S depth) ts4) as [[inner ts5]|] eqn:E5; [|done]. cbn [mbind option_bind].
    apply items_shorter in E5. destruct (take "}" ts5) as [ts6|] eqn:E6; [|done].
    cbn [mbind option_bind]. apply take_shorter in E6.
    case_bool_decide; [done|]. by rewrite (IH f') by lia.
  - destruct (name (t :: ts)) as [[response ts2]|] eqn:E2; [|done]. cbn [mbind option_bind].
    apply name_shorter in E2. cbn in E2.
    match goal with |- mbind _ ?m = _ =>
      assert (∀ field ts3, m = Some (field, ts3) → length ts3 ≤ length ts2) as Hm;
      [|destruct m as [[field ts3]|]; [|done]] end.
    { intros field ts3. destruct ts2 as [|c ts2]; [by intros [= _ <-]|].
      destruct (c =s ":"); [|by intros [= _ <-]]. intros E%name_shorter. cbn. lia. }
    cbn [mbind option_bind]. specialize (Hm _ _ eq_refl). by rewrite (IH f') by lia.
Qed.

Lemma selections_shorter ts nodes ts' :
  selections ts = Some (nodes, ts') → length ts' < length ts.
Proof.
  unfold selections. intros H. inv_takes.
  repeat match goal with H : items _ _ _ = Some _ |- _ => apply items_shorter in H end. lia.
Qed.

Lemma scope_definitions_fuel f : ∀ f' d ts,
  length ts < f → length ts < f' → definitions f d ts = definitions f' d ts.
Proof.
  induction f as [|f IH]; intros [|f'] d ts Hf Hf'; try lia. cbn [definitions].
  destruct ts as [|kind ts]; [done|]. cbn [length] in *.
  destruct (_ && _); [|destruct (kind =s "fragment"); [|done]];
    destruct (name ts) as [[n ts2]|] eqn:E2; try done; cbn [mbind option_bind];
    apply name_shorter in E2.
  - destruct (selections ts2) as [[nodes ts3]|] eqn:E3; [|done]. cbn [mbind option_bind].
    apply selections_shorter in E3. apply IH; lia.
  - destruct (_ || _); [done|]. destruct (take "on" ts2) as [ts3|] eqn:E3; [|done].
    cbn [mbind option_bind]. apply take_shorter in E3.
    destruct (name ts3) as [[? ts4]|] eqn:E4; [|done]. cbn [mbind option_bind].
    apply name_shorter in E4.
    destruct (selections ts4) as [[nodes ts5]|] eqn:E5; [|done]. cbn [mbind option_bind].
    apply selections_shorter in E5. apply IH; lia.
Qed.
End ScopeParser.

(** ** Expansion *)

Lemma each_ext {A S} (f g : A → S → option S) l :
  (∀ x s, x ∈ l → f x s = g x s) → ∀ s, each f l s = each g l s.
Proof.
  induction l as [|x l IH]; intros Hfg s; [done|]. cbn. rewrite (Hfg x s) by left.
  destruct (g x s); [|done]. cbn. apply IH. intros; apply Hfg; by right.
Qed.
(** What every turn of a loop adds. *)
Lemma each_adds {A S B} (f : A → S → option S) (has : S → B → Prop) (adds : A → B → Prop)
    (inv : S → Prop) l :
  (∀ x s s', x ∈ l → inv s → f x s = Some s' → inv s' ∧ ∀ b, has s' b ↔ has s b ∨ adds x b) →
  ∀ s s', inv s → each f l s = Some s' →
    inv s' ∧ ∀ b, has s' b ↔ has s b ∨ ∃ x, x ∈ l ∧ adds x b.
Proof.
  induction l as [|x l IH]; intros Hf s s' Hs; cbn.
  - intros [= <-]. split; [done|]. intros b. split; [by left|]. intros [?|(? & []%elem_of_nil & _)]; done.
  - destruct (f x s) as [t|] eqn:E; [|done]. cbn. intros E'.
    destruct (Hf x s t ltac:(left) Hs E) as [Ht Hbt].
    destruct (IH (λ y u u' Hy, Hf y u u' (list_elem_of_further _ _ _ Hy)) t s' Ht E') as [Hs' Hb]. split; [done|].
    intros b. rewrite Hb, Hbt. setoid_rewrite elem_of_cons. naive_solver.
Qed.

Module ScopeFields.
Import Scope.

(** The fields of an operation at its root: named there, or in a fragment that
    is spread there. *)
Inductive root_field (fragments : list (string * list Node)) : list Node → string → Prop :=
  | root_here value response nodes :
      Field value response ∈ nodes → root_field fragments nodes value
  | root_spread name inner nodes value :
      Spread name ∈ nodes → assoc_last name fragments = Some inner →
      root_field fragments inner value → root_field fragments nodes value.

Section fields.
Context (fragments : list (string * list Node)).
#[local] Abbreviation root := (root_field fragments).

Lemma root_item nodes v : root nodes v ↔ ∃ n, n ∈ nodes ∧ root [n] v.
Proof.
  split.
  - intros [value response l Hin|name inner l value Hin Hf Hr].
    + exists (Field value response). split; [done|]. eapply root_here. left.
    + exists (Spread name). split; [done|]. eapply root_spread; [left|done..].
  - intros (n & Hin & Hr). inversion Hr as [? ? ? Hn|? ? ? ? Hn Hf Hr']; subst;
      apply list_elem_of_singleton in Hn as <-; [by eapply root_here|by eapply root_spread].
Qed.

(** The fields of the fragments that are done are there. *)
Definition visited_done (x : Expansion) : Prop :=
  ∀ n inner v, n ∈ ex_visited x → assoc_last n fragments = Some inner → root inner v → v ∈ ex_fields x.

Lemma expand_fields f : ∀ active nodes x y,
  visited_done x → expand f fragments active nodes x = Some y →
  visited_done y ∧ ∀ v, v ∈ ex_fields y ↔ v ∈ ex_fields x ∨ root nodes v.
Proof.
  induction f as [|f IH]; intros active nodes x y Hx; [done|]. cbn [expand].
  destruct (16 <? length active); [done|]. intros E.
  destruct (each_adds (expand_item fragments active
    (λ value, expand f fragments (value :: active))) (λ x v, v ∈ ex_fields x) (λ n, root [n])
    visited_done nodes) with (s := x) (s' := y) as [Hy Hf]; [|done..|].
  - clear x y Hx E. intros [value response|name] x y _ Hx; cbn [expand_item].
    + destruct (match ex_responses x !! response with Some _ => _ | None => _ end); [|done].
      intros [= <-]. cbn [ex_fields]. split.
      * intros n inner v Hn Hi Hr. cbn [ex_fields ex_visited] in *. apply elem_of_union. right. by eapply Hx.
      * intros v. rewrite elem_of_union, elem_of_singleton. split.
        -- intros [->|?]; [right|by left]. eapply root_here. left.
        -- intros [?|Hr]; [by right|]. inversion Hr as [? ? ? Hn|? ? ? ? Hn]; subst;
             apply list_elem_of_singleton in Hn; simplify_eq. by left.
    + destruct (assoc_last name fragments) as [inner|] eqn:Hi; [|done].
      assert (∀ v, root [Spread name] v ↔ root inner v) as Hspread.
      { intros v. split; [|intros Hr; eapply root_spread; [left|done..]].
        intros Hr. inversion Hr as [? ? ? Hn|? inner' ? ? Hn Hi' Hr']; subst;
          apply list_elem_of_singleton in Hn; simplify_eq. done. }
      destruct (mem name active); [done|]. case_bool_decide as Hv.
      * intros [= <-]. split; [done|]. intros v. rewrite Hspread. split; [by left|].
        intros [?|Hr]; [done|]. by eapply Hx.
      * destruct (expand f fragments (name :: active) inner x) as [z|] eqn:Ez; [|done].
        cbn [mbind option_bind]. intros [= <-]. cbn [ex_fields].
        destruct (IH _ _ _ _ Hx Ez) as [Hz Hfz]. split.
        -- intros n inner' v Hn Hi' Hr. cbn [ex_fields ex_visited] in *.
           apply elem_of_union in Hn as [->%elem_of_singleton|Hn]; [|by eapply Hz].
           apply Hfz. right. congruence.
        -- intros v. by rewrite Hspread, Hfz.
  - split; [done|]. intros v. by rewrite Hf, <-root_item.
Qed.

Lemma expand_fuel f : ∀ f' active nodes x,
  1 ≤ f → 1 ≤ f' → 18 ≤ f + length active → 18 ≤ f' + length active →
  expand f fragments active nodes x = expand f' fragments active nodes x.
Proof.
  induction f as [|f IH]; intros [|f'] active nodes x H1 H1' Hf Hf'; try lia. cbn [expand].
  destruct (Nat.ltb_spec 16 (length active)) as [|Ha]; [done|].
  apply each_ext. intros [value response|name] y _; [done|]. cbn [expand_item].
  destruct (assoc_last name fragments); [|done]. destruct (mem name active); [done|].
  case_bool_decide; [done|]. rewrite (IH f') by (cbn; lia). done.
Qed.
End fields.

(** the scope of a GraphQL request.  When the scope parser accepts a query,
    the document has one operation, a named query or mutation, and the fields
    of the result are exactly the fields at its root, through every fragment
    spread there, each once and sorted. *)
Theorem scope_fields_exact (query : json) (kind name : string) (fields : list string)
    (Haccepted : graphql_scope query = Some (kind, name, fields)) :
  ∃ source d nodes, query = JStr source ∧ parse source = Some d ∧
    dc_operation d = Some (kind, name, nodes) ∧
    (∀ v, v ∈ fields ↔ root_field (dc_fragments d) nodes v) ∧
    StronglySorted str_le fields ∧ NoDup fields ∧ 1 ≤ length fields ≤ 128.
Proof.
  destruct query as [| | | |source| |]; try done. unfold graphql_scope in Haccepted.
  destruct (4096 <? _); [done|]. unfold operation in Haccepted.
  destruct (parse source) as [d|] eqn:Hd; [|done]. cbn [mbind option_bind] in Haccepted.
  destruct (dc_operation d) as [[[k n] nodes]|] eqn:Ho; [|done]. cbn [mbind option_bind] in Haccepted.
  destruct (expand EXPANSION_FUEL (dc_fragments d) [] nodes _) as [x|] eqn:Hx; [|done].
  cbn [mbind option_bind] in Haccepted.
  destruct (bool_decide (ex_fields x = ∅) || (128 <? size (ex_fields x)) || _) eqn:Hc; [done|].
  injection Haccepted as -> -> <-. split_bools.
  apply expand_fields in Hx as [_ Hx]; [|intros ? ? ? Hn; by apply elem_of_empty in Hn].
  exists source, d, nodes. split; [done|]. split; [done|]. split; [done|].
  assert (Permutation (sorted (elements (ex_fields x))) (elements (ex_fields x))) as Hp.
  { apply (merge_sort_Permutation str_le). }
  split; [|split; [apply sorted_sorted|split]].
  - intros v. rewrite Hp, elem_of_elements, Hx. cbn. split; [|by right].
    intros [Hn|?]; [by apply elem_of_empty in Hn|done].
  - rewrite Hp. apply NoDup_elements.
  - assert (size (ex_fields x) ≠ 0) as Hne by (by rewrite size_empty_iff, leibniz_equiv_iff).
    rewrite Hp. match goal with H : (128 <? _) = false |- _ => apply Nat.ltb_ge in H end.
    change (length (elements (ex_fields x))) with (size (ex_fields x)). lia.
Qed.
End ScopeFields.

Module AuthorityFields.
Import Authority.

(** Induction on nodes and the nodes below them. *)
Fixpoint node_induction (P : Node → Prop)
    (Hfield : ∀ name children response args, Forall P children → P (Field name children response args))
    (Hinline : ∀ children, Forall P children → P (Inline children))
    (Hspread : ∀ name, P (Spread name)) (n : Node) : P n :=
  let all := fix all (l : list Node) : Forall P l :=
    match l with
    | [] => Forall_nil_2 P
    | c :: l' => Forall_cons_2 P c l' (node_induction P Hfield Hinline Hspread c) (all l')
    end in
  match n with
  | Field name children response args => Hfield name children response args (all children)
  | Inline children => Hinline children (all children)
  | Spread name => Hspread name
  end.

(** The paths that nodes select below a prefix: fields, their children, and
    the nodes of inline fragments and of spread fragments in their place. *)
Inductive selects (fragments : list (string * Fragment)) : list Node → list string → list string → Prop :=
  | selects_field name children response args nodes prefix :
      Field name children response args ∈ nodes → selects fragments nodes prefix (prefix ++ [name])
  | selects_child name children response args nodes prefix path :
      Field name children response args ∈ nodes →
      selects fragments children (prefix ++ [name]) path → selects fragments nodes prefix path
  | selects_inline children nodes prefix path :
      Inline children ∈ nodes → selects fragments children prefix path →
      selects fragments nodes prefix path
  | selects_spread name f nodes prefix path :
      Spread name ∈ nodes → assoc_last name fragments = Some f →
      selects fragments (fr_nodes f) prefix path → selects fragments nodes prefix path.

Section fields.
Context (fragments : list (string * Fragment)).
#[local] Abbreviation sel := (selects fragments).
(** The field that a path is reported as. *)
Definition reported (nodes : list Node) (prefix : list string) (field : string) : Prop :=
  ∃ path, sel nodes prefix path ∧ field = join "." path.

Lemma selects_item nodes prefix path : sel nodes prefix path ↔ ∃ n, n ∈ nodes ∧ sel [n] prefix path.
Proof.
  split.
  - intros [name ch re ar l p Hin|name ch re ar l p q Hin H|ch l p q Hin H|name f l p q Hin Hf H];
      (eexists; split; [exact Hin|]).
    + eapply selects_field. left.
    + eapply selects_child; [left|done].
    + eapply selects_inline; [left|done].
    + eapply selects_spread; [left|done..].
  - intros (n & Hin & H). inversion H; subst;
      match goal with Hn : _ ∈ [n] |- _ => apply list_elem_of_singleton in Hn as <- end.
    + by eapply selects_field.
    + by eapply selects_child.
    + by eapply selects_inline.
    + by eapply selects_spread.
Qed.
Lemma reported_item nodes prefix field :
  reported nodes prefix field ↔ ∃ n, n ∈ nodes ∧ reported [n] prefix field.
Proof.
  unfold reported. setoid_rewrite (selects_item nodes). naive_solver.
Qed.
Lemma reported_field name children response args prefix field :
  reported [Field name children response args] prefix field ↔
  field = join "." (prefix ++ [name]) ∨ reported children (prefix ++ [name]) field.
Proof.
  unfold reported. split.
  - intros (path & H & ->). inversion H; subst;
      match goal with Hn : _ ∈ [_] |- _ => apply list_elem_of_singleton in Hn; simplify_eq end; eauto.
  - intros [->|(path & H & ->)]; eexists; (split; [|done]).
    + eapply selects_field. left.
    + eapply selects_child; [left|done].
Qed.
Lemma reported_inline children prefix field :
  reported [Inline children] prefix field ↔ reported children prefix field.
Proof.
  unfold reported. split; intros (path & H & ->); eexists; (split; [|done]).
  - inversion H; subst;
      match goal with Hn : _ ∈ [_] |- _ => apply list_elem_of_singleton in Hn; simplify_eq end; done.
  - eapply selects_inline; [left|done].
Qed.
Lemma reported_spread name f prefix field :
  assoc_last name fragments = Some f →
  reported [Spread name] prefix field ↔ reported (fr_nodes f) prefix field.
Proof.
  intros Hf. unfold reported. split; intros (path & H & ->); eexists; (split; [|done]).
  - inversion H; subst;
      match goal with Hn : _ ∈ [_] |- _ => apply list_elem_of_singleton in Hn; simplify_eq end; done.
  - eapply selects_spread; [left|done..].
Qed.

Lemma visit_fields prefix active x y : visit prefix active x = Some y → ex_fields y = ex_fields x.
Proof. unfold visit. destruct (_ || _); [done|]. by intros [= <-]. Qed.

Lemma each_fields (f : Node → Expansion → option Expansion) nodes prefix x y :
  (∀ n x y, n ∈ nodes → f n x = Some y →
     ∀ s, s ∈ ex_fields y ↔ s ∈ ex_fields x ∨ reported [n] prefix s) →
  each f nodes x = Some y →
  ∀ s, s ∈ ex_fields y ↔ s ∈ ex_fields x ∨ reported nodes prefix s.
Proof.
  intros Hf E s. rewrite reported_item.
  apply (each_adds f (λ x s, s ∈ ex_fields x) (λ n, reported [n] prefix) (λ _, True) nodes)
    with (s := x) (s' := y); try done. intros n u v Hn _ Ev. split; [done|]. by apply Hf.
Qed.

Lemma expand_node_fields fuel : ∀ n prefix active keys x y,
  expand_node fragments fuel n prefix active keys x = Some y →
  ∀ s, s ∈ ex_fields y ↔ s ∈ ex_fields x ∨ reported [n] prefix s.
Proof.
  induction fuel as [|fuel IH]; intros n prefix active keys x y; [done|]. cbn [expand_node].
  revert prefix keys x y. induction n as [name children response args Hall|children Hall|name]
    using node_induction; intros prefix keys x y E s;
    apply bind_Some in E as (x1 & Hx1 & E); apply visit_fields in Hx1.
  - apply bind_Some in E as (x2 & Hx2 & E). rewrite reported_field.
    unfold visit_field in Hx2. destruct (match _ !! _ with Some _ => _ | None => _ end); [|done].
    injection Hx2 as <-.
    rewrite (each_fields _ _ (prefix ++ [name]) _ _ (λ c x y Hc, proj1 (Forall_forall _ _) Hall c Hc _ _ x y) E).
    cbn [ex_fields]. rewrite elem_of_union, elem_of_singleton, Hx1. tauto.
  - rewrite reported_inline.
    rewrite (each_fields _ _ prefix _ _ (λ c x y Hc, proj1 (Forall_forall _ _) Hall c Hc _ _ x y) E).
    by rewrite Hx1.
  - destruct (assoc_last name fragments) as [f|] eqn:Hf; [|done]. rewrite (reported_spread _ f) by done.
    destruct (mem name active); [done|].
    rewrite (each_fields _ _ prefix _ _ (λ c x y _, IH c _ _ _ x y) E). cbn [visit_spread ex_fields].
    by rewrite Hx1.
Qed.

Lemma expand_node_fuel f : ∀ f' n prefix active keys x,
  1 ≤ f → 1 ≤ f' → 34 ≤ f + length active → 34 ≤ f' + length active →
  expand_node fragments f n prefix active keys x = expand_node fragments f' n prefix active keys x.
Proof.
  induction f as [|f IH]; intros [|f'] n prefix active keys x H1 H1' Hf Hf'; try lia.
  cbn [expand_node]. revert prefix keys x.
  induction n as [name children response args Hall|children Hall|name] using node_induction;
    intros prefix keys x; destruct (visit prefix active x) as [x1|] eqn:Hv; try done;
    cbn [mbind option_bind].
  - destruct (visit_field _ _ _ _) as [x2|]; [|done]. cbn [mbind option_bind]. apply each_ext.
    intros c y Hc. by apply (proj1 (Forall_forall _ _) Hall c Hc).
  - apply each_ext. intros c y Hc. by apply (proj1 (Forall_forall _ _) Hall c Hc).
  - destruct (assoc_last name fragments) as [fr|]; [|done]. destruct (mem name active); [done|].
    apply each_ext. intros c y _. unfold visit in Hv.
    destruct ((_ <? _) || (32 <? length prefix + length active)) eqn:Hlen; [done|]. split_bools.
    match goal with H : (32 <? _) = false |- _ => apply Nat.ltb_ge in H end.
    apply IH; cbn; lia.
Qed.

Lemma expand_operations_inv l : ∀ x y, expand_operations fragments l x = Some y →
  ∀ o, o ∈ l → ∃ z w, expand fragments (op_nodes o) (fresh z (op_references o)) = Some w ∧
    ∀ n, n ∈ ex_references w → n ∈ op_declared o.
Proof.
  induction l as [|o l IH]; intros x y E p Hp; [by apply elem_of_nil in Hp|].
  cbn in E. apply bind_Some in E as (w & Hw & E).
  destruct (forallb _ _) eqn:Hall; [|done]. apply elem_of_cons in Hp as [->|Hp]; [|by eapply IH].
  exists x, w. split; [done|]. intros n Hn. rewrite forallb_forall in Hall.
  apply mem_elem_of, Hall, list_elem_of_In, elem_of_elements. done.
Qed.
End fields.

(** C34: the authority of a GraphQL request.  When a document is accepted, the
    operation that it reports is the one that the request selects, the only
    one where none is named, with every required variable given; and the
    fields are exactly the paths that it selects, through aliases, inline
    fragments and spread fragments at any depth, each once and sorted. *)
Theorem authority_fields_exact (source : string) (selected : json)
    (given : list (string * json)) (d : Document) (a : GraphQLAuthority)
    (Hparse : parse source = Some d) (Hselect : select d selected given = Some a) :
  ∃ o, o ∈ operations d ∧ operation_type a = op_kind o ∧ operation_name a = op_name o ∧
    match selected with JStr s => op_name o = Some s | _ => operations d = [o] end ∧
    (∀ n, n ∈ op_required o → ∃ v, assoc_last n given = Some v ∧ v ≠ JNull) ∧
    (∀ field, field ∈ authority_fields a ↔ reported (fragments d) (op_nodes o) [] field) ∧
    StronglySorted str_le (authority_fields a) ∧ NoDup (authority_fields a).
Proof.
  unfold select in Hselect. destruct (_ || _); [done|].
  apply bind_Some in Hselect as (name & Hname & Hselect).
  set (chosen := List.filter _ (operations d)) in Hselect.
  destruct chosen as [|o [|]] eqn:Hchosen; try done. subst chosen.
  assert (o ∈ operations d ∧ match name with Some s => op_name o = Some s | None => operations d = [o] end)
    as [Ho Hsel].
  { assert (In o (List.filter (λ o, match name with
      | None => true | Some s => bool_decide (op_name o = Some s) end) (operations d))) as Hin
      by (rewrite Hchosen; by left).
    apply filter_In in Hin as [Hin Hm]. split; [by apply list_elem_of_In|].
    destruct name as [s|]; [by apply bool_decide_eq_true in Hm|].
    rewrite <- Hchosen. symmetry. clear. induction (operations d) as [|o l IH]; cbn; [done|]. by rewrite IH. }
  destruct (existsb _ (op_required o)) eqn:Hreq; [done|].
  apply bind_Some in Hselect as (x & _ & Hselect). destruct (negb _); [done|].
  apply bind_Some in Hselect as (y & Hy & Hselect). injection Hselect as <-.
  exists o. cbn [operation_type operation_name authority_fields].
  assert (Permutation (sorted (elements (ex_fields y))) (elements (ex_fields y))) as Hp.
  { apply (merge_sort_Permutation str_le). }
  split; [done|]. split; [done|]. split; [done|]. split.
  { unfold opt_name in Hname. destruct selected; try done; simplify_eq; try done.
    destruct (is_name s); [|done]. by simplify_eq. }
  split.
  { intros n Hn. destruct (assoc_last n given) as [v|] eqn:Hv.
    - exists v. split; [done|]. intros ->. apply not_true_iff_false in Hreq. apply Hreq.
      apply existsb_exists. exists n. split; [by apply list_elem_of_In|by rewrite Hv].
    - exfalso. apply not_true_iff_false in Hreq. apply Hreq.
      apply existsb_exists. exists n. split; [by apply list_elem_of_In|by rewrite Hv]. }
  split; [|split; [apply sorted_sorted|rewrite Hp; apply NoDup_elements]].
  intros field. rewrite Hp, elem_of_elements.
  rewrite (each_fields _ _ _ [] _ _ (λ c x y _, expand_node_fields _ _ c _ _ _ x y) Hy).
  cbn [fresh ex_fields]. split; [|by right]. intros [Hn|?]; [by apply elem_of_empty in Hn|done].
Qed.
End AuthorityFields.

Module Termination.
Import Authority AuthorityParser.

(** C35: the authority parser terminates, and what it refuses is what the code
    refuses: with any more fuel than they start with, the lexer, every loop of
    the parser and the expansion of selections give the same result, whatever
    the text, the state and the fragments, also when fragments spread one
    another in a circle. *)
Theorem authority_reader_terminates (source : string) (st : PState) (k : nat) :
  lex (S (String.length source) + k) 0 source = lex (S (String.length source)) 0 source ∧
  (∀ depth c, value (2 * length (rest st) + 2 + k) depth c st
              = with_fuel (λ fuel, value fuel depth c) st) ∧
  (∀ seen, argument_items (2 * length (rest st) + 2 + k) seen st
           = with_fuel (λ fuel, argument_items fuel seen) st) ∧
  directives_loop (2 * length (rest st) + 2 + k) st = directives st ∧
  (∀ depth, type_ref (2 * length (rest st) + 2 + k) depth st
            = with_fuel (λ fuel, type_ref fuel depth) st) ∧
  (∀ required seen, variable_items (2 * length (rest st) + 2 + k) required seen st
                    = with_fuel (λ fuel, variable_items fuel required seen) st) ∧
  (∀ depth, selection (2 * length (rest st) + 2 + k) depth st
            = with_fuel (λ fuel, selection fuel depth) st) ∧
  (∀ d, definitions (S (length (rest st)) + k) d st = definitions (S (length (rest st))) d st) ∧
  (∀ fragments n x, expand_node fragments (EXPANSION_FUEL + k) n [] [] [] x
                    = expand_node fragments EXPANSION_FUEL n [] [] [] x).
Proof.
  unfold with_fuel, directives, EXPANSION_FUEL.
  split; [apply authority_lex_fuel; lia|].
  split; [intros; eapply (proj1 (values_fuel _ _ (length (rest st)))); lia|].
  split; [intros; eapply (argument_fuel _ _ (length (rest st))); lia|].
  split; [eapply (directives_fuel _ _ (length (rest st))); lia|].
  split; [intros; eapply (type_ref_fuel _ _ (length (rest st))); lia|].
  split; [intros; eapply (variable_fuel _ _ (length (rest st))); lia|].
  split; [intros; eapply (proj1 (selections_fuel _ _ (length (rest st)))); lia|].
  split; [intros; eapply (definitions_fuel _ _ (length (rest st))); lia|].
  intros. apply AuthorityFields.expand_node_fuel; cbn; lia.
Qed.

(** The same of the scope parser. *)
Lemma scope_reader_terminates (source : string) (ts : list string) (k : nat) :
  Scope.lex (S (String.length source) + k) 0 source = Scope.lex (S (String.length source)) 0 source ∧
  (∀ depth, Scope.items (S (length ts) + k) depth ts = Scope.items (S (length ts)) depth ts) ∧
  (∀ d, Scope.definitions (S (length ts) + k) d ts = Scope.definitions (S (length ts)) d ts) ∧
  (∀ fragments nodes x, Scope.expand (Scope.EXPANSION_FUEL + k) fragments [] nodes x
                        = Scope.expand Scope.EXPANSION_FUEL fragments [] nodes x).
Proof.
  unfold Scope.EXPANSION_FUEL. split; [apply scope_lex_fuel; lia|].
  split; [intros; apply ScopeParser.items_fuel; lia|].
  split; [intros; apply ScopeParser.scope_definitions_fuel; lia|].
  intros. apply ScopeFields.expand_fuel; cbn; lia.
Qed.
End Termination.
