(* ===== verification/ActionPolicyFacts.v ===== *)
(** * Facts about action policies

    What a condition selects, what applying a policy does to a review, and the
    round trip of policy sets. *)
From stdpp Require Import base list strings pretty gmap sets.
From Stdlib Require Import Bool Ascii ZArith Lia.
From S2P Require Import Prelude PyStr Json Policy Context Temporal TemporalFacts Execution Provenance ActionModel ActionPolicy.
#[local] Open Scope py_scope.

(** ** What a condition selects *)

(** An empty selector selects everything. *)
Definition selects {A} (l : list A) (P : Prop) : Prop := l = [] ∨ P.

Lemma unless_empty_iff {A} (l : list A) b P :
  (b = true ↔ P) → unless_empty l b = true ↔ selects l P.
Proof. intros H. unfold selects. destruct l; cbn; [naive_solver|]. rewrite H. naive_solver. Qed.

Lemma intersects_iff l k : intersects l k = true ↔ ∃ s, s ∈ l ∧ s ∈ k.
Proof.
  unfold intersects. rewrite existsb_exists. setoid_rewrite mem_elem_of.
  setoid_rewrite <- list_elem_of_In. done.
Qed.

(** A matcher and a resource. *)
Inductive resource_selected (m : PolicyResourceMatcher) (r : ActionResource) : Prop :=
| Any_value : ar_type r = pm_type m → pm_value m = None → resource_selected m r
| Exact_value : ar_type r = pm_type m → pm_match m = "exact" →
    pm_value m = Some (ar_value r) → resource_selected m r
| Prefix_value p rest : ar_type r = pm_type m → pm_match m ≠ "exact" →
    pm_value m = Some p → ar_value r = p +:+ rest → resource_selected m r.

Lemma matcher_matches_iff m r : matcher_matches m r = true ↔ resource_selected m r.
Proof.
  unfold matcher_matches. destruct (String.eqb_spec (ar_type r) (pm_type m)) as [Ht|Ht]; cbn.
  2: { split; [done|]. by intros []. }
  destruct (pm_value m) as [v|] eqn:Hv.
  2: { split; [by constructor|done]. }
  destruct (String.eqb_spec (pm_match m) "exact") as [Hm|Hm].
  - rewrite eqb_true. split; [intros <-; by apply Exact_value|]. intros []; congruence.
  - rewrite startswith_iff. split; [intros [t Ht']; by eapply Prefix_value|].
    intros [| |p rest]; [congruence|congruence|]. exists rest. congruence.
Qed.

(** The working directory is below a prefix, component by component. *)
Definition below (d prefix : string) : Prop :=
  isabs d = true ∧ norm_components prefix `prefix_of` norm_components d.

Lemma path_within_prefix_iff d prefix :
  initial_slashes prefix = 1 → _path_within_prefix d prefix = true ↔ below d prefix.
Proof.
  intros Hsl. unfold _path_within_prefix, below.
  assert (isabs prefix = true) as ->.
  { unfold initial_slashes in Hsl. unfold isabs. by destruct (startswith prefix "/"). }
  destruct (isabs d) eqn:Hd; cbn; [|naive_solver].
  destruct (commonpath_within d prefix Hsl Hd) as (common & -> & ->).
  rewrite bool_decide_eq_true. naive_solver.
Qed.

Definition scope_of (review : ActionReview) (scope : string) : Prop := _repo_scope review = scope.
Definition elevated (review : ActionReview) (p : bool) : Prop :=
  ∃ context u, ac_context (av_action review) = Some context ∧ euid context = Some u
    ∧ (p = true ↔ u = 0%Z).
Definition intent_state (review : ActionReview) (expected : string) : Prop :=
  if decide (expected = "present") then intent_present review = true
  else if decide (expected = "absent") then intent_present review = false
  else intent_present review = true ∧ av_intent_alignment review = expected.

(** The declarative reading of a condition. *)
Record selected (c : ActionPolicyCondition) (review : ActionReview) : Prop := {
  sel_kind : selects (pc_kinds c) (ac_kind (av_action review) ∈ pc_kinds c);
  sel_operation : selects (pc_operations c) (ac_operation (av_action review) ∈ pc_operations c);
  sel_any : selects (pc_effects_any c) (∃ e, e ∈ av_effects review ∧ e ∈ pc_effects_any c);
  sel_all : ∀ e, e ∈ pc_effects_all c → e ∈ av_effects review;
  sel_resource : selects (pc_resources_any c)
    (∃ m r, m ∈ pc_resources_any c ∧ r ∈ av_resources review ∧ resource_selected m r);
  sel_risk : selects (pc_risks c) (av_risk review ∈ pc_risks c);
  sel_decision : selects (pc_decisions c) (av_decision review ∈ pc_decisions c);
  sel_agent : selects (pc_agents c)
    (∃ context a, ac_context (av_action review) = Some context ∧ agent context = Some a
                  ∧ a ∈ pc_agents c);
  sel_cwd : selects (pc_cwd_prefixes c)
    (∃ context d prefix, ac_context (av_action review) = Some context ∧ cwd context = Some d
                         ∧ prefix ∈ pc_cwd_prefixes c ∧ below d prefix);
  sel_scope : ∀ s, pc_repo_scope c = Some s → scope_of review s;
  sel_privileged : ∀ p, pc_privileged c = Some p → elevated review p;
  sel_intent : ∀ i, pc_intent c = Some i → intent_state review i;
  sel_trajectory : selects (pc_trajectory_any c)
    (∃ t, t ∈ av_trajectory_categories review ∧ t ∈ pc_trajectory_any c) }.

Lemma cwd_test_iff c review :
  Forall (λ prefix, initial_slashes prefix = 1) (pc_cwd_prefixes c) →
  match ac_context (av_action review) ≫= cwd with
  | Some d => existsb (_path_within_prefix d) (pc_cwd_prefixes c)
  | None => false
  end = true ↔
  ∃ context d prefix, ac_context (av_action review) = Some context ∧ cwd context = Some d
                      ∧ prefix ∈ pc_cwd_prefixes c ∧ below d prefix.
Proof.
  rewrite Forall_forall. intros Hp.
  destruct (ac_context (av_action review)) as [context|]; cbn; [|naive_solver].
  destruct (cwd context) as [d|] eqn:Hd; [|naive_solver].
  rewrite existsb_exists. split.
  - intros (prefix & Hin%list_elem_of_In & Hb). exists context, d, prefix.
    rewrite <- path_within_prefix_iff by auto. auto.
  - intros (? & d' & prefix & [= <-] & Heq & Hin & Hb). exists prefix.
    rewrite path_within_prefix_iff by auto. rewrite <- list_elem_of_In. naive_solver.
Qed.

Lemma privileged_test_iff review p :
  match ac_context (av_action review) ≫= euid with
  | Some u => Bool.eqb (u =? 0)%Z p
  | None => false
  end = true ↔ elevated review p.
Proof.
  unfold elevated. destruct (ac_context (av_action review)) as [context|]; cbn; [|naive_solver].
  destruct (euid context) as [u|] eqn:Hu; [|naive_solver].
  rewrite eqb_true_iff. destruct (Z.eqb_spec u 0) as [->|]; destruct p; naive_solver.
Qed.

Lemma intent_test_iff review i : _intent_matches i review = true ↔ intent_state review i.
Proof.
  unfold _intent_matches, intent_state.
  destruct (String.eqb_spec i "present"), (decide (i = "present")); try done.
  destruct (String.eqb_spec i "absent"), (decide (i = "absent")); try done.
  - by rewrite negb_true_iff.
  - by rewrite andb_true_iff, eqb_true.
Qed.

Lemma agent_test_iff review l :
  opt_mem (ac_context (av_action review) ≫= agent) l = true ↔
  ∃ context a, ac_context (av_action review) = Some context ∧ agent context = Some a ∧ a ∈ l.
Proof.
  destruct (ac_context (av_action review)) as [context|]; cbn; [|naive_solver].
  destruct (agent context) as [a|] eqn:Ha; cbn.
  - rewrite mem_elem_of. split; [eauto|]. intros (? & ? & [= <-] & Heq & ?). congruence.
  - split; [done|]. intros (? & ? & [= <-] & Heq & ?). congruence.
Qed.

Lemma resource_test_iff review l :
  existsb (λ m, existsb (matcher_matches m) (av_resources review)) l = true ↔
  ∃ m r, m ∈ l ∧ r ∈ av_resources review ∧ resource_selected m r.
Proof.
  rewrite existsb_exists. setoid_rewrite existsb_exists. setoid_rewrite matcher_matches_iff.
  setoid_rewrite <- list_elem_of_In. naive_solver.
Qed.

Lemma effects_all_iff review l :
  unless_empty l (forallb (λ e, mem e (av_effects review)) l) = true ↔
  ∀ e, e ∈ l → e ∈ av_effects review.
Proof.
  assert (unless_empty l (forallb (λ e, mem e (av_effects review)) l)
    = forallb (λ e, mem e (av_effects review)) l) as -> by by destruct l.
  rewrite forallb_forall. setoid_rewrite mem_elem_of. by setoid_rewrite <- list_elem_of_In.
Qed.

Lemma opt_test_iff {A} (o : option A) (f : A → bool) (P : A → Prop) :
  (∀ a, f a = true ↔ P a) →
  match o with Some a => f a | None => true end = true ↔ ∀ a, o = Some a → P a.
Proof. intros H. destruct o; [rewrite H|]; naive_solver. Qed.

(** What a condition selects.  The compiled test of a condition holds
    exactly for the reviews that its declarative reading describes: every
    non-empty selector is met by kind, operation, effects, resources (exactly,
    by prefix or by type), risk, decision, agent, working directory (below a
    prefix component by component, whatever [..] it contains), repository
    scope, user id, intent state and trajectory categories; selectors on what
    the context does not say are not met. *)
Theorem condition_matches_iff (c : ActionPolicyCondition) (review : ActionReview) :
  Forall (λ prefix, initial_slashes prefix = 1) (pc_cwd_prefixes c) →
  _condition_matches c review = true ↔ selected c review.
Proof.
  intros Hp. unfold _condition_matches. rewrite !andb_true_iff, effects_all_iff.
  rewrite (unless_empty_iff _ _ _ (mem_elem_of _ _)).
  rewrite (unless_empty_iff _ _ _ (mem_elem_of _ _)).
  rewrite (unless_empty_iff _ _ _ (intersects_iff _ _)).
  rewrite (unless_empty_iff _ _ _ (resource_test_iff _ _)).
  rewrite (unless_empty_iff _ _ _ (mem_elem_of _ _)).
  rewrite (unless_empty_iff _ _ _ (bool_decide_eq_true _)).
  rewrite (unless_empty_iff _ _ _ (agent_test_iff _ _)).
  rewrite (unless_empty_iff _ _ _ (cwd_test_iff _ _ Hp)).
  rewrite (unless_empty_iff _ _ _ (intersects_iff _ _)).
  rewrite (opt_test_iff (pc_repo_scope c) _ (scope_of review)) by (intros; apply eqb_true).
  rewrite (opt_test_iff (pc_privileged c) _ (elevated review))
    by (intros; apply privileged_test_iff).
  rewrite (opt_test_iff (pc_intent c) _ (intent_state review))
    by (intros; apply intent_test_iff).
  split; [intros; destruct_and!; by split|]. by intros [].
Qed.

(** ** Applying a policy *)

(** One of the strongest decisions of a list, in the order of enforcement. *)
Definition is_strongest (d : Decision) (l : list Decision) : Prop :=
  d ∈ l ∧ ∀ e, e ∈ l → ENFORCEMENT_ORDER e ≤ ENFORCEMENT_ORDER d.
Definition enforce (d e : Decision) : Decision :=
  if ENFORCEMENT_ORDER d <? ENFORCEMENT_ORDER e then e else d.

Lemma enforce_strongest d l : is_strongest (foldl enforce d l) (d :: l).
Proof.
  revert d. induction l as [|e l IH]; intros d; cbn.
  - split; [left|]. intros e [->|[]%elem_of_nil]%elem_of_cons. done.
  - destruct (IH (enforce d e)) as [Hin Hmax]. split.
    + apply elem_of_cons in Hin as [->|Hin]; [|set_solver].
      unfold enforce. case_match; set_solver.
    + assert (ENFORCEMENT_ORDER (enforce d e) ≤ ENFORCEMENT_ORDER (foldl enforce (enforce d e) l))
        as Hle by (apply Hmax; left).
      assert (ENFORCEMENT_ORDER d ≤ ENFORCEMENT_ORDER (enforce d e)
        ∧ ENFORCEMENT_ORDER e ≤ ENFORCEMENT_ORDER (enforce d e)) as [].
      { unfold enforce. destruct (Nat.ltb_spec (ENFORCEMENT_ORDER d) (ENFORCEMENT_ORDER e)); lia. }
      intros x [->|[->|Hx]%elem_of_cons]%elem_of_cons; [lia..|].
      apply Hmax. by right.
Qed.

Lemma keep_strongest_fold d ms :
  foldl keep_strongest (Some d) ms = Some (foldl enforce d (map mt_decision ms)).
Proof.
  revert d. induction ms as [|m ms IH]; intros d; cbn -[Nat.ltb]; [done|].
  rewrite <- IH. unfold enforce. by destruct (_ <? _).
Qed.

Lemma enforce_fold d e l : enforce d (foldl enforce e l) = foldl enforce (enforce d e) l.
Proof.
  revert d e. induction l as [|x l IH]; intros d e; cbn; [done|]. rewrite IH. f_equal.
  unfold enforce. destruct d, e, x; reflexivity.
Qed.

(** The rules of a policy that a review meets, in their order. *)
Definition met (p : ActionPolicySet) (review : ActionReview) : list ActionPolicyRule :=
  List.filter (λ r, pl_enabled r && _condition_matches (pl_when r) review) (ps_rules p).

Lemma filter_twice {A} (f g : A → bool) l :
  List.filter g (List.filter f l) = List.filter (λ x, f x && g x) l.
Proof. induction l as [|x l IH]; cbn; [done|]. destruct (f x); cbn; by rewrite IH. Qed.

Lemma evaluate_matches digest p review :
  pe_matches (evaluate digest (compile_action_policy p) review)
  = map _match_from_rule (met p review).
Proof. unfold evaluate, met. cbn. by rewrite filter_twice. Qed.

Lemma evaluate_decision digest p review :
  pe_decision (evaluate digest (compile_action_policy p) review)
  = match met p review with
    | [] => None
    | r :: rs => Some (foldl enforce (pl_decision r) (map pl_decision rs))
    end.
Proof.
  unfold evaluate. cbn [pe_decision active_rules compile_action_policy].
  rewrite filter_twice. fold (met p review). destruct (met p review) as [|r rs]; [done|].
  cbn [map foldl keep_strongest]. rewrite keep_strongest_fold, map_map. done.
Qed.

Lemma merge_decision_strongest digest p review :
  is_strongest (merge_decision review (evaluate digest (compile_action_policy p) review))
    (av_decision review :: map pl_decision (met p review)).
Proof.
  unfold merge_decision. rewrite evaluate_decision. destruct (met p review) as [|r rs].
  - split; [left|]. intros e [->|[]%elem_of_nil]%elem_of_cons. done.
  - fold (enforce (av_decision review) (foldl enforce (pl_decision r) (map pl_decision rs))).
    rewrite enforce_fold. apply (enforce_strongest (av_decision review) (pl_decision r :: _)).
Qed.

(** ** When applying returns *)

(** What the constructors of a policy and its rules accept. *)
Definition policy_valid (p : ActionPolicySet) : Prop :=
  mk_ActionPolicySet p = Ok p ∧ Forall (λ r, mk_ActionPolicyRule r = Ok r) (ps_rules p).

(** The provenance of a review ends in the review's decision and risk. *)
Definition coherent (review : ActionReview) : Prop :=
  mem (av_risk review) VALID_RISKS = true ∧
  ∀ q, av_provenance review = Some q →
    final_decision q = av_decision review ∧ final_risk q = av_risk review.

Lemma guard_ok c e : c = true → guard_or c e = Ok tt.
Proof. by intros ->. Qed.

Lemma check_metadata_ok l :
  Forall (λ kv : string * scalar,
            truthy (fst kv) = true ∧ String.length (fst kv) ≤ 128 ∧
            match snd kv with SText s => String.length s ≤ MAX_PROVENANCE_TEXT | _ => True end) l →
  check_metadata l = Ok tt.
Proof.
  induction 1 as [|[key value] l (Hk & Hl & Hv) _ IH]; [done|]. cbn [check_metadata].
  cbn [fst snd] in *. apply Nat.leb_le in Hl. rewrite Hk, Hl.
  destruct value; [apply Nat.leb_le in Hv; rewrite Hv|..]; exact IH.
Qed.

Lemma validate_text_length s name maximum :
  _validate_text s name maximum = Ok tt → truthy s = true ∧ String.length s ≤ maximum.
Proof. unfold _validate_text. intros H. inv_res. apply Nat.leb_le in H. done. Qed.

Lemma small_text : 256 ≤ MAX_PROVENANCE_TEXT.
Proof.
  unfold MAX_PROVENANCE_TEXT. change 256 with (Nat.pow 2 8). apply Nat.pow_le_mono_r; lia.
Qed.

Lemma policy_metadata_ok digest p review :
  policy_valid p → (∀ j, String.length (digest j) ≤ MAX_PROVENANCE_TEXT) →
  Forall (λ kv : string * scalar,
            truthy (fst kv) = true ∧ String.length (fst kv) ≤ 128 ∧
            match snd kv with SText s => String.length s ≤ MAX_PROVENANCE_TEXT | _ => True end)
    (policy_metadata (evaluate digest (compile_action_policy p) review)).
Proof.
  intros [Hp _] Hd. unfold mk_ActionPolicySet, validate_policy_identifier in Hp. inv_res.
  repeat match goal with u : unit |- _ => destruct u end.
  repeat match goal with H : _validate_text _ _ _ = Ok tt |- _ =>
    apply validate_text_length in H as [_ H] end.
  pose proof small_text as Hbig.
  unfold MAX_POLICY_ID_LENGTH, MAX_POLICY_VERSION_LENGTH in *.
  unfold policy_metadata, evaluate, compile_action_policy.
  cbn [pe_policy_id pe_policy_version pe_policy_digest cp_policy].
  assert (∀ k s, truthy k = true → String.length k ≤ 128 → String.length s ≤ MAX_PROVENANCE_TEXT →
    truthy (fst (k, SText s)) = true ∧ String.length (fst (k, SText s)) ≤ 128 ∧
    match snd (k, SText s) with SText s => String.length s ≤ MAX_PROVENANCE_TEXT | _ => True end)
    as Hone by done.
  apply Forall_cons; split; [apply Hone; [done|apply Nat.leb_le; reflexivity|lia]|].
  apply Forall_cons; split; [apply Hone; [done|apply Nat.leb_le; reflexivity|lia]|].
  apply Forall_cons; split; [apply Hone; [done|apply Nat.leb_le; reflexivity|apply Hd]|].
  constructor.
Qed.

(** A record of a match passes the checks of its constructor. *)
Lemma match_record_ok (metadata : list (string * scalar)) m :
  String.length (mt_reason m) ≤ MAX_PROVENANCE_TEXT →
  String.length (mt_rule_id m) ≤ MAX_PROVENANCE_TEXT →
  length metadata ≤ MAX_PROVENANCE_METADATA → check_metadata metadata = Ok tt →
  mk_ProvenanceRecord (policy_match_record metadata m)
  = Ok (policy_match_record metadata m).
Proof.
  intros Hr Hi Hl Hm. apply Nat.leb_le in Hr, Hi, Hl.
  unfold mk_ProvenanceRecord, policy_match_record.
  cbn -[MAX_PROVENANCE_TEXT MAX_PROVENANCE_METADATA Nat.leb check_metadata].
  rewrite Hr, Hi. cbn -[MAX_PROVENANCE_METADATA Nat.leb check_metadata].
  rewrite Hl. cbn -[check_metadata]. by rewrite Hm.
Qed.

Lemma merge_record_ok review final metadata :
  mem (av_risk review) VALID_RISKS = true →
  S (length metadata) ≤ MAX_PROVENANCE_METADATA → check_metadata metadata = Ok tt →
  mk_ProvenanceRecord (policy_merge_record review final metadata)
  = Ok (policy_merge_record review final metadata).
Proof.
  intros Hr Hl Hm. apply Nat.leb_le in Hl.
  unfold mk_ProvenanceRecord, policy_merge_record.
  cbn -[MAX_PROVENANCE_TEXT MAX_PROVENANCE_METADATA Nat.leb check_metadata mem VALID_RISKS].
  rewrite Hr. cbn -[MAX_PROVENANCE_TEXT MAX_PROVENANCE_METADATA Nat.leb check_metadata].
  change (length (("previous_decision", SText (decision_str (av_decision review))) :: metadata))
    with (S (length metadata)).
  rewrite Hl. cbn -[MAX_PROVENANCE_TEXT Nat.leb check_metadata].
  cbn [check_metadata].
  assert ((String.length (decision_str (av_decision review)) <=? MAX_PROVENANCE_TEXT) = true) as ->.
  { apply Nat.leb_le. pose proof small_text. destruct (av_decision review); cbn; lia. }
  cbn -[check_metadata]. by rewrite Hm.
Qed.

(** The reason of a match fits when the rule is valid. *)
Lemma valid_rule_match r :
  mk_ActionPolicyRule r = Ok r →
  String.length (mt_reason (_match_from_rule r)) ≤ MAX_PROVENANCE_TEXT ∧
  String.length (mt_rule_id (_match_from_rule r)) ≤ MAX_PROVENANCE_TEXT.
Proof.
  pose proof small_text as Hbig.
  unfold mk_ActionPolicyRule, validate_policy_identifier, opt_text. intros H. inv_res.
  repeat match goal with u : unit |- _ => destruct u end.
  match goal with H : _validate_text (pl_id r) _ _ = Ok tt |- _ =>
    apply validate_text_length in H as [_ Hid] end.
  cbn [mt_reason mt_rule_id _match_from_rule]. split.
  - unfold or_default. destruct (pl_reason r) as [s|].
    + match goal with H : _validate_text s _ _ = Ok tt |- _ =>
        apply validate_text_length in H as [Ht Hs] end.
      rewrite Ht. exact Hs.
    + transitivity 256; [|done]. apply Nat.leb_le. by destruct (pl_decision r).
  - unfold MAX_RULE_ID_LENGTH in Hid. lia.
Qed.

Lemma all_ok_map_ok {A B} (f : A → res B) (g : A → B) l :
  (∀ x, x ∈ l → f x = Ok (g x)) → all_ok (map f l) = Ok (map g l).
Proof.
  induction l as [|x l IH]; intros H; cbn; [done|].
  rewrite (H x) by left. cbn. rewrite IH by (intros; apply H; by right). done.
Qed.

(** What [append] needs: a valid final risk and room for the records. *)
Lemma append_ok q rs d risk :
  mem (final_risk q) VALID_RISKS = true →
  (∀ s, risk = Some s → mem s VALID_RISKS = true) →
  append q rs d risk =
    if length (records q) + length rs <=? MAX_PROVENANCE_RECORDS then
      Ok {| records := records q ++ rs; final_decision := default (final_decision q) d;
            final_risk := default (final_risk q) risk |}
    else Err (ValueError "provenance supports at most 512 records").
Proof.
  intros Hq Hrisk. unfold append, mk_DecisionProvenance.
  cbn [final_risk records]. rewrite length_app.
  assert (or_default risk (final_risk q) = default (final_risk q) risk) as ->.
  { destruct risk as [s|]; [|done]. specialize (Hrisk s eq_refl).
    destruct s; [discriminate|done]. }
  assert (mem (default (final_risk q) risk) VALID_RISKS = true) as ->
    by (destruct risk; cbn; auto).
  cbn -[MAX_PROVENANCE_RECORDS Nat.leb]. by destruct (_ <=? _).
Qed.

(** The records that applying a policy adds. *)
Definition policy_records (metadata : list (string * scalar)) (review : ActionReview)
    (final : Decision) (matches : list PolicyMatch) : list ProvenanceRecord :=
  map (policy_match_record metadata) matches ++ [policy_merge_record review final metadata].

Lemma policy_records_ok metadata review final rs :
  Forall (λ r, mk_ActionPolicyRule r = Ok r) rs →
  mem (av_risk review) VALID_RISKS = true →
  S (length metadata) ≤ MAX_PROVENANCE_METADATA → check_metadata metadata = Ok tt →
  all_ok (map (λ m, mk_ProvenanceRecord (policy_match_record metadata m))
            (map _match_from_rule rs)
          ++ [mk_ProvenanceRecord (policy_merge_record review final metadata)])
  = Ok (policy_records metadata review final (map _match_from_rule rs)).
Proof.
  intros Hrs Hrisk Hl Hm. rewrite all_ok_app.
  rewrite (all_ok_map_ok _ (policy_match_record metadata)).
  - cbn [mbind res_bind all_ok]. by rewrite merge_record_ok.
  - intros m (r & -> & Hr)%list_elem_of_fmap. rewrite Forall_forall in Hrs.
    destruct (valid_rule_match r (Hrs r Hr)). apply match_record_ok; try done. lia.
Qed.

(** Everything a policy leaves as it is. *)
Definition same_evidence (r r' : ActionReview) : Prop :=
  av_action r' = av_action r ∧ av_risk r' = av_risk r ∧ av_effects r' = av_effects r ∧
  av_resources r' = av_resources r ∧ av_adapter r' = av_adapter r ∧
  av_capabilities r' = av_capabilities r ∧ av_intent_alignment r' = av_intent_alignment r ∧
  av_trajectory_categories r' = av_trajectory_categories r.

(** What a policy records of itself and of the rules that a review meets. *)
Definition records_policy (digest : json → string) (p : ActionPolicySet)
    (r r' : ActionReview) : Prop :=
  av_reasons r' = av_reasons r ++
    map (λ x, "policy " +:+ pl_id x +:+ ": " +:+ mt_reason (_match_from_rule x)) (met p r) ∧
  av_policy_matches r' = map (λ x, PolicyMatch_as_dict (_match_from_rule x)) (met p r) ∧
  av_policy r' = Some [("policy_id", ps_policy_id p); ("version", ps_version p);
                       ("digest", digest (JObj (ActionPolicySet_as_dict p)))] ∧
  (∀ q, av_provenance r = Some q → ∃ q' new, av_provenance r' = Some q' ∧
     records q' = records q ++ new ∧ length new = S (length (met p r))).

(** The provenance after [rs] were added to the one of a review. *)
Definition extended (review : ActionReview) (rs : list ProvenanceRecord) (final : Decision)
    (q' : option DecisionProvenance) : Prop :=
  match av_provenance review with
  | None => q' = None
  | Some q => q' = Some {| records := records q ++ rs; final_decision := final;
                           final_risk := av_risk review |}
  end.

Lemma extend_provenance_ok review new rs d risk :
  coherent review → all_ok new = Ok rs → (∀ s, risk = Some s → s = av_risk review) →
  (∃ q, av_provenance review = Some q ∧ MAX_PROVENANCE_RECORDS < length (records q) + length rs ∧
        extend_provenance review new d risk
        = Err (ValueError "provenance supports at most 512 records")) ∨
  ∃ q', extend_provenance review new d risk = Ok q' ∧
        extended review rs (default (av_decision review) d) q'.
Proof.
  intros [Hvr Hco] Hnew Hrisk. unfold extend_provenance, extended.
  destruct (av_provenance review) as [q|]; [|by right; eexists].
  destruct (Hco q eq_refl) as [Hqd Hqr]. rewrite Hnew. cbn [mbind res_bind].
  rewrite append_ok.
  2: { by rewrite Hqr. }
  2: { by intros s ->%Hrisk. }
  destruct (Nat.leb_spec (length (records q) + length rs) MAX_PROVENANCE_RECORDS) as [Hle|Hlt].
  - right. eexists. split; [reflexivity|]. rewrite Hqd, Hqr.
    destruct risk as [s|]; cbn; [by rewrite (Hrisk s)|done].
  - left. by exists q.
Qed.

Lemma no_match_record_ok metadata :
  length metadata ≤ MAX_PROVENANCE_METADATA → check_metadata metadata = Ok tt →
  mk_ProvenanceRecord (no_match_record metadata) = Ok (no_match_record metadata).
Proof.
  intros Hl Hm. apply Nat.leb_le in Hl. unfold mk_ProvenanceRecord, no_match_record.
  cbn -[MAX_PROVENANCE_METADATA Nat.leb check_metadata].
  rewrite Hl. cbn -[check_metadata]. by rewrite Hm.
Qed.

Lemma extended_coherent review rs final q' :
  extended review rs final q' →
  ∀ q, q' = Some q → final_decision q = final ∧ final_risk q = av_risk review.
Proof.
  unfold extended. destruct (av_provenance review); [|congruence]. by intros -> ? [= <-].
Qed.
Lemma extended_records review rs final q' q :
  extended review rs final q' → av_provenance review = Some q →
  ∃ p new, q' = Some p ∧ records p = records q ++ new ∧ length new = length rs.
Proof. unfold extended. intros H Hq. rewrite Hq in H. subst. eauto. Qed.

(** C29: applying a policy merges, and never weakens.  For a policy that its
    constructors accept and a review whose provenance ends in its own verdict,
    applying the policy either raises because the provenance has no room for
    one record per rule that is met and one more, or returns the review with
    the strongest decision, in the order of enforcement, among its own and the
    ones of the enabled rules it meets; evidence, risk, effects and resources
    stay, the matches and their reasons are recorded in the order of the rules,
    records are only added, and the provenance again ends in the verdict. *)
Theorem policy_apply_merges (digest : json → string) (p : ActionPolicySet) (review : ActionReview) :
  policy_valid p → coherent review →
  (∀ j, String.length (digest j) ≤ MAX_PROVENANCE_TEXT) →
  (∃ q, av_provenance review = Some q ∧
        MAX_PROVENANCE_RECORDS < length (records q) + S (length (met p review)) ∧
        apply digest (compile_action_policy p) review
        = Err (ValueError "provenance supports at most 512 records")) ∨
  (∃ review', apply digest (compile_action_policy p) review = Ok review' ∧
     is_strongest (av_decision review') (av_decision review :: map pl_decision (met p review)) ∧
     same_evidence review review' ∧ records_policy digest p review review' ∧ coherent review').
Proof.
  intros Hp Hco Hd. pose proof (policy_metadata_ok digest p review Hp Hd) as Hmeta.
  apply check_metadata_ok in Hmeta.
  pose proof (merge_decision_strongest digest p review) as Hmax.
  pose proof (evaluate_matches digest p review) as Hms.
  pose proof (evaluate_decision digest p review) as Hdec.
  unfold apply, records_policy. rewrite Hms.
  set (e := evaluate digest (compile_action_policy p) review) in *.
  assert (length (policy_metadata e) = 3) as Hlen by done.
  destruct Hp as [_ Hrules].
  destruct (met p review) as [|r rs] eqn:Hmet; cbn [map].
  - assert (all_ok [mk_ProvenanceRecord (no_match_record (policy_metadata e))]
      = Ok [no_match_record (policy_metadata e)]) as Hrec.
    { cbn [all_ok]. rewrite no_match_record_ok by (try done; rewrite Hlen; by cbv; lia). done. }
    destruct (extend_provenance_ok review _ _ None None Hco Hrec) as [(q & ? & ? & ->)|(q' & -> & Hext)];
      [done|left; by exists q|].
    right. eexists. split; [reflexivity|]. cbn [av_decision].
    unfold merge_decision in Hmax. rewrite Hdec in Hmax.
    split; [exact Hmax|]. split; [by split_and!|]. split.
    + cbn. rewrite app_nil_r. split_and!; [done..|].
      intros q Hq. exact (extended_records _ _ _ _ _ Hext Hq).
    + split; [apply Hco|]. exact (extended_coherent _ _ _ _ Hext).
  - assert (S (length (policy_metadata e)) ≤ MAX_PROVENANCE_METADATA) as Hl
      by (rewrite Hlen; cbv; lia).
    assert (Forall (λ r, mk_ActionPolicyRule r = Ok r) (r :: rs)) as Hvalid.
    { rewrite <- Hmet. unfold met. rewrite Forall_forall in Hrules |- *.
      intros x [Hx _]%list_elem_of_In%filter_In%(conj I)%proj2. apply Hrules.
      by apply list_elem_of_In. }
    pose proof (policy_records_ok (policy_metadata e) review (merge_decision review e) (r :: rs)
      Hvalid (proj1 Hco) Hl Hmeta) as Hrec.
    cbn [map] in Hrec.
    destruct (extend_provenance_ok review _ _ (Some (merge_decision review e))
      (Some (av_risk review)) Hco Hrec) as [(q & ? & Hlt & ->)|(q' & -> & Hext)];
      [by intros ? [= <-]|left; exists q|].
    { split_and!; [done| |done]. revert Hlt. unfold policy_records.
      rewrite length_app. cbn. rewrite !length_map. lia. }
    right. eexists. split; [reflexivity|]. cbn [av_decision].
    split; [exact Hmax|]. split; [by split_and!|]. split.
    + cbn [av_reasons av_policy_matches av_policy av_provenance].
      split_and!; [by rewrite map_map|by rewrite map_map|done|].
      intros q Hq. destruct (extended_records _ _ _ _ _ Hext Hq) as (q1 & new & ? & ? & Hn).
      exists q1, new. split_and!; [done..|]. rewrite Hn. unfold policy_records.
      rewrite length_app. cbn. rewrite !length_map. lia.
    + split; [apply Hco|]. exact (extended_coherent _ _ _ _ Hext).
Qed.
