(* ===== verification/ActionPolicyJson.v ===== *)
(** * Round trip of action policies

    A policy set that was read from a JSON object is read back unchanged from
    the object it writes. *)
From stdpp Require Import base list strings pretty gmap sets.
From Stdlib Require Import Bool Ascii ZArith Lia.
From S2P Require Import Prelude PyStr Json Policy Context Temporal TemporalFacts Execution Provenance ActionModel ActionPolicy.
#[local] Open Scope py_scope.

(** A member of an explicit list. *)
Ltac in_list := solve [repeat first [left | right]].

(** A list of texts as a member: absent when it is empty. *)
Definition texts (l : list string) : option json :=
  match l with [] => None | _ => Some (jstrings l) end.

(** The lists that [_string_list] returns. *)
Definition clean_texts (key : string) (l : list string) : Prop :=
  NoDup l ∧ length l ≤ MAX_MATCH_VALUES ∧
  Forall (λ s, _validate_text s ("policy condition " +:+ key +:+ " item") MAX_MATCH_VALUE_LENGTH
               = Ok tt) l.

Lemma string_list_items_inv key items : ∀ result l,
  string_list_items key items result = Ok l →
  NoDup result →
  Forall (λ s, _validate_text s ("policy condition " +:+ key +:+ " item") MAX_MATCH_VALUE_LENGTH
               = Ok tt) result →
  NoDup l ∧ length l ≤ length result + length items ∧
  Forall (λ s, _validate_text s ("policy condition " +:+ key +:+ " item") MAX_MATCH_VALUE_LENGTH
               = Ok tt) l.
Proof.
  induction items as [|item items IH]; intros result l H Hnd Hall.
  - injection H as <-. cbn. split_and!; [done|lia|done].
  - cbn [string_list_items] in H. destruct item as [| | | |s| |]; try discriminate H.
    apply res_bind_ok in H as ([] & Hs & H). destruct (mem s result) eqn:Em.
    + destruct (IH _ _ H Hnd Hall) as (? & ? & ?). cbn. split_and!; [done|lia|done].
    + apply mem_false in Em.
      destruct (IH _ _ H) as (? & Hl & ?).
      * apply NoDup_app. split; [done|]. split; [|apply NoDup_singleton].
        by intros x Hx ->%list_elem_of_singleton.
      * apply Forall_app. by repeat constructor.
      * rewrite length_app in Hl. cbn in *. split_and!; [done|lia|done].
Qed.

Lemma string_list_items_clean key l : ∀ result,
  NoDup (result ++ l) →
  Forall (λ s, _validate_text s ("policy condition " +:+ key +:+ " item") MAX_MATCH_VALUE_LENGTH
               = Ok tt) l →
  string_list_items key (map JStr l) result = Ok (result ++ l).
Proof.
  induction l as [|s l IH]; intros result Hnd Hall; cbn [map string_list_items];
    [by rewrite app_nil_r|].
  apply Forall_cons in Hall as [Hs Hall]. rewrite Hs. cbn [mbind res_bind].
  assert (mem s result = false) as ->.
  { apply mem_false. apply NoDup_app in Hnd as (_ & Hd & _). intros Hin. apply (Hd s Hin). left. }
  rewrite IH; rewrite <- ?app_assoc; done.
Qed.

Lemma string_list_inv payload key l :
  _string_list payload key = Ok l → clean_texts key l.
Proof.
  unfold _string_list, clean_texts. destruct (default _ _) as [| | | | |value|]; try done.
  intros H. apply res_bind_ok in H as (u & Hg & H). apply guard_or_ok, Nat.leb_le in Hg.
  apply string_list_items_inv in H as (? & Hl & ?); [|constructor..].
  cbn in Hl. split_and!; [done|lia|done].
Qed.

Lemma string_list_texts payload key l :
  assoc_last key payload = texts l → clean_texts key l → _string_list payload key = Ok l.
Proof.
  intros Hf (Hnd & Hl & Hall). unfold _string_list. rewrite Hf.
  assert (default (JArr []) (texts l) = jstrings l) as -> by by destruct l.
  unfold jstrings. cbv iota beta. rewrite length_map. apply Nat.leb_le in Hl. rewrite Hl.
  cbn [guard_or mbind res_bind]. by apply string_list_items_clean.
Qed.

(** The check of the constructor is the reading of the same texts. *)
Lemma string_list_one key l :
  clean_texts key l → _string_list [(key, jstrings l)] key = Ok l.
Proof.
  intros (Hnd & Hl & Hall). unfold _string_list. cbn [assoc_last].
  rewrite String.eqb_refl. unfold jstrings. cbn [from_option id]. rewrite length_map.
  apply Nat.leb_le in Hl. rewrite Hl. cbn [guard_or mbind res_bind].
  by apply string_list_items_clean.
Qed.

Lemma reject_unknown_present l allowed name :
  Forall (λ k, k ∈ allowed) (map fst l) → _reject_unknown_keys (present l) allowed name = Ok tt.
Proof.
  intros H. unfold _reject_unknown_keys.
  assert (List.filter (λ key, negb (mem key allowed)) (map fst (present l)) = []) as ->; [|done].
  assert (∀ k, k ∈ map fst (present l) → mem k allowed = true) as Hk.
  { intros k Hin%present_keys. apply mem_elem_of. rewrite Forall_forall in H. auto. }
  induction (map fst (present l)) as [|k ks IH]; [done|]. cbn.
  rewrite (Hk k) by left. cbn. apply IH. intros x Hx. apply Hk. by right.
Qed.

(** ** Matchers *)

Lemma matcher_as_dict m :
  PolicyResourceMatcher_as_dict m
  = present [("type", Some (JStr (pm_type m))); ("value", JStr <$> pm_value m);
             ("match", if pm_match m =s "exact" then None else Some (JStr (pm_match m)))].
Proof. destruct m as [t [v|] mode]; cbn; by destruct (mode =s "exact"). Qed.

Lemma opt_str_member (o : option string) message :
  opt_str_field (default JNull (JStr <$> o)) message = Ok o.
Proof. by destruct o. Qed.

Lemma PolicyResourceMatcher_stable payload m :
  PolicyResourceMatcher_from_dict payload = Ok m →
  PolicyResourceMatcher_from_dict (PolicyResourceMatcher_as_dict m) = Ok m.
Proof.
  intros H. unfold PolicyResourceMatcher_from_dict in H. inv_res.
  assert (mk_PolicyResourceMatcher m = Ok m) as Hm.
  { unfold mk_PolicyResourceMatcher in H |- *. inv_res. cbn in *.
    by repeat (match goal with E : ?x = _ |- context [?x] => rewrite E end; cbn). }
  rewrite matcher_as_dict. unfold PolicyResourceMatcher_from_dict.
  rewrite reject_unknown_present by (repeat constructor; set_solver).
  unfold field. rewrite !assoc_last_present by (cbn; repeat constructor; set_solver).
  cbn -[mk_PolicyResourceMatcher opt_str_field]. rewrite opt_str_member. cbn -[mk_PolicyResourceMatcher].
  assert (as_str (default (JStr "exact") (if pm_match m =s "exact" then None
    else Some (JStr (pm_match m)))) "resource matcher match must be a string" = Ok (pm_match m)) as ->.
  { destruct (String.eqb_spec (pm_match m) "exact") as [->|]; done. }
  cbn -[mk_PolicyResourceMatcher]. by destruct m.
Qed.

(** ** Conditions *)

Definition objects {A} (f : A → list (string * json)) (l : list A) : option json :=
  match l with [] => None | _ => Some (JArr (map (λ x, JObj (f x)) l)) end.

Lemma condition_as_dict c :
  ActionPolicyCondition_as_dict c
  = present ([("kinds", texts (pc_kinds c)); ("operations", texts (pc_operations c));
              ("effects_any", texts (pc_effects_any c));
              ("effects_all", texts (pc_effects_all c)); ("risks", texts (pc_risks c));
              ("decisions", texts (map decision_str (pc_decisions c)));
              ("agents", texts (pc_agents c)); ("cwd_prefixes", texts (pc_cwd_prefixes c));
              ("trajectory_any", texts (pc_trajectory_any c));
              ("resources_any", objects PolicyResourceMatcher_as_dict (pc_resources_any c));
              ("repo_scope", JStr <$> pc_repo_scope c);
              ("privileged", JBool <$> pc_privileged c);
              ("intent", JStr <$> pc_intent c)]).
Proof.
  assert (∀ l, flat_map nonempty_member l = present (map (λ kv, (fst kv, texts (snd kv))) l)) as Ht.
  { induction l as [|[key [|t ts]] l IH]; cbn; by rewrite ?IH. }
  assert (∀ A key (f : A → json) o, match o with Some x => [(key, f x)] | None => [] end
    = present [(key, f <$> o)]) as Ho by (by intros A key f []).
  assert (∀ l, match l with
    | [] => []
    | m :: l => [("resources_any",
                  JArr (map (λ m, JObj (PolicyResourceMatcher_as_dict m)) (m :: l)))]
    end = present [("resources_any", objects PolicyResourceMatcher_as_dict l)]) as Hl
    by (by intros []).
  unfold ActionPolicyCondition_as_dict.
  rewrite Ht, Hl, (Ho string "repo_scope" JStr), (Ho bool "privileged" JBool),
    (Ho string "intent" JStr).
  unfold present. by rewrite <- !omap_app.
Qed.

Lemma validate_decision_inv s d : validate_decision s = Ok d → s = decision_str d.
Proof.
  unfold validate_decision. intros H.
  repeat match type of H with (if ?x =s ?y then _ else _) = _ =>
    destruct (String.eqb_spec x y) as [->|]; [by injection H as <-|] end. done.
Qed.

Lemma validate_decisions_inv l ds :
  all_ok (map validate_decision l) = Ok ds → l = map decision_str ds.
Proof.
  intros H%all_ok_Forall2%Forall2_fmap_l. induction H as [|s d l ds Hs _ IH]; [done|].
  cbn. by rewrite (validate_decision_inv s d Hs), IH.
Qed.
Lemma validate_decisions_str ds : all_ok (map validate_decision (map decision_str ds)) = Ok ds.
Proof.
  induction ds as [|d ds IH]; [done|]. cbn. rewrite validate_decision_str. cbn. by rewrite IH.
Qed.

Lemma choice_member o choices message :
  opt_within o choices = true →
  choice_field (default JNull (JStr <$> o)) choices message = Ok o.
Proof. destruct o as [s|]; [|done]. cbn. by intros ->. Qed.
Lemma choice_field_inv j choices message o :
  choice_field j choices message = Ok o → opt_within o choices = true.
Proof. destruct j; cbn; intros H; by inv_res. Qed.

Lemma check_risks_ok l u : check_risks l = Ok u ↔ forallb (λ risk, mem risk VALID_RISKS) l = true.
Proof.
  induction l as [|r l IH]; cbn [check_risks forallb]; [by destruct u|].
  rewrite andb_true_iff, <- IH, res_bind_ok. setoid_rewrite guard_or_ok. naive_solver.
Qed.

Lemma objects_member {A} (f : A → list (string * json)) l message :
  as_list (default (JArr []) (objects f l)) message = Ok (map (λ x, JObj (f x)) l).
Proof. by destruct l. Qed.

(** What the reading of a condition establishes. *)
Record condition_read (c : ActionPolicyCondition) : Prop := {
  cr_texts : Forall (λ kv, clean_texts (fst kv) (snd kv)) (condition_texts c);
  cr_resources : Forall (λ m, PolicyResourceMatcher_from_dict (PolicyResourceMatcher_as_dict m)
                              = Ok m) (pc_resources_any c);
  cr_scope : opt_within (pc_repo_scope c) REPO_SCOPES = true;
  cr_intent : opt_within (pc_intent c) INTENT_STATES = true;
  cr_made : mk_ActionPolicyCondition c = Ok c }.

Lemma mk_condition_id c c' : mk_ActionPolicyCondition c = Ok c' → c' = c.
Proof. unfold mk_ActionPolicyCondition. intros H. by inv_res. Qed.

Lemma condition_from_dict_read payload c :
  ActionPolicyCondition_from_dict payload = Ok c → condition_read c.
Proof.
  unfold ActionPolicyCondition_from_dict. intros H. inv_res.
  pose proof (mk_condition_id _ _ H) as ->. 
  split; cbn [condition_texts pc_kinds pc_operations pc_effects_any pc_effects_all pc_risks
    pc_decisions pc_agents pc_cwd_prefixes pc_trajectory_any pc_resources_any pc_repo_scope
    pc_intent].
  - match goal with E : all_ok (map validate_decision _) = Ok _ |- _ =>
      apply validate_decisions_inv in E; subst end.
    repeat (apply Forall_cons; split; [by eapply string_list_inv|]). constructor.
  - match goal with E : read_objects _ _ _ = Ok ?l |- _ =>
      apply Forall_forall; eapply read_objects_all; [|exact E] end.
    intros obj matcher Hx. by eapply PolicyResourceMatcher_stable.
  - by eapply choice_field_inv.
  - by eapply choice_field_inv.
  - exact H.
Qed.

Lemma read_objects_map {A} (f : list (string * json) → res A) (g : A → list (string * json))
    message l :
  Forall (λ x, f (g x) = Ok x) l → read_objects f message (map (λ x, JObj (g x)) l) = Ok l.
Proof.
  unfold read_objects. rewrite map_map. induction 1 as [|x l Hx _ IH]; [done|].
  cbn. rewrite Hx. cbn. by rewrite IH.
Qed.

Lemma ActionPolicyCondition_stable c :
  condition_read c → ActionPolicyCondition_from_dict (ActionPolicyCondition_as_dict c) = Ok c.
Proof.
  intros [Ht Hr Hs Hi Hm]. rewrite condition_as_dict.
  unfold ActionPolicyCondition_from_dict.
  set (l := [_; _; _; _; _; _; _; _; _; _; _; _; _]).
  assert (NoDup (map fst l)) as Hnd by (apply (bool_decide_unpack _); vm_compute; exact I).
  rewrite reject_unknown_present by (repeat constructor; in_list).
  assert (∀ key o, dict_get key l = Some o → assoc_last key (present l) = o) as Hget.
  { intros key o Ho. rewrite assoc_last_present by done. by rewrite Ho. }
  assert (∀ key ts, (key, ts) ∈ condition_texts c → dict_get key l = Some (texts ts) →
    _string_list (present l) key = Ok ts) as Hlist.
  { intros key ts Hin Hd. apply string_list_texts; [by apply Hget|].
    rewrite Forall_forall in Ht. exact (Ht _ Hin). }
  assert ((length (pc_resources_any c) <=? MAX_MATCH_VALUES) = true) as Hlen.
  { revert Hm. unfold mk_ActionPolicyCondition. intros H. inv_res. done. }
  assert (forallb (λ risk, mem risk VALID_RISKS) (pc_risks c) = true) as Hrisks.
  { revert Hm. unfold mk_ActionPolicyCondition. intros H. inv_res. done. }
  cbn [mbind res_bind].
  rewrite (Hlist "decisions" (map decision_str (pc_decisions c))) by (in_list || done).
  cbn [mbind res_bind]. rewrite validate_decisions_str. cbn [mbind res_bind].
  rewrite (Hget "resources_any" _ eq_refl), objects_member. cbn [mbind res_bind].
  rewrite length_map, Hlen. cbn [guard_or mbind res_bind].
  rewrite read_objects_map by done. cbn [mbind res_bind].
  unfold field. rewrite (Hget "repo_scope" _ eq_refl), (Hget "privileged" _ eq_refl),
    (Hget "intent" _ eq_refl).
  rewrite choice_member by done. cbn [mbind res_bind].
  assert (opt_bool_field (default JNull (JBool <$> pc_privileged c))
    "policy condition privileged must be a boolean or null" = Ok (pc_privileged c)) as ->
    by (by destruct (pc_privileged c)).
  cbn [mbind res_bind]. rewrite choice_member by done. cbn [mbind res_bind].
  rewrite (Hlist "risks" (pc_risks c)) by (in_list || done). cbn [mbind res_bind].
  rewrite (proj2 (check_risks_ok (pc_risks c) tt) Hrisks). cbn [mbind res_bind].
  do 7 (erewrite Hlist; [|in_list|reflexivity]; cbn [mbind res_bind]).
  by destruct c.
Qed.

(** ** Rules and sets *)

Lemma rule_as_dict r :
  ActionPolicyRule_as_dict r
  = present [("id", Some (JStr (pl_id r))); ("decision", Some (JStr (decision_str (pl_decision r))));
             ("when", Some (JObj (ActionPolicyCondition_as_dict (pl_when r))));
             ("reason", JStr <$> pl_reason r); ("safer_next_step", JStr <$> pl_safer_next_step r);
             ("enabled", if pl_enabled r then None else Some (JBool false))].
Proof. by destruct r as [? ? ? [] [] []]. Qed.

(** What the reading of a rule establishes. *)
Definition rule_read (r : ActionPolicyRule) : Prop :=
  condition_read (pl_when r) ∧ mk_ActionPolicyRule r = Ok r.

Lemma rule_from_dict_read payload r : ActionPolicyRule_from_dict payload = Ok r → rule_read r.
Proof.
  unfold ActionPolicyRule_from_dict. intros H. inv_res.
  destruct (default _ _); try discriminate H. inv_res.
  assert (∀ r', mk_ActionPolicyRule r' = Ok r → r' = r) as Hid.
  { unfold mk_ActionPolicyRule. intros r' Hr. by inv_res. }
  pose proof (Hid _ H) as <-. split; [|exact H].
  cbn [pl_when]. by eapply condition_from_dict_read.
Qed.

Lemma ActionPolicyRule_stable r :
  rule_read r → ActionPolicyRule_from_dict (ActionPolicyRule_as_dict r) = Ok r.
Proof.
  intros [Hc%ActionPolicyCondition_stable Hr]. rewrite rule_as_dict.
  set (condition := ActionPolicyCondition_as_dict (pl_when r)) in *. clearbody condition.
  unfold ActionPolicyRule_from_dict.
  rewrite reject_unknown_present by (repeat constructor; in_list).
  unfold field.
  rewrite !assoc_last_present by (apply (bool_decide_unpack _); vm_compute; exact I).
  cbn -[mk_ActionPolicyRule ActionPolicyCondition_from_dict opt_str_field validate_decision].
  rewrite !opt_str_member.
  cbn -[mk_ActionPolicyRule ActionPolicyCondition_from_dict validate_decision].
  rewrite validate_decision_str.
  assert (as_bool (default (JBool true) (if pl_enabled r then None else Some (JBool false)))
    "policy rule enabled must be a boolean" = Ok (pl_enabled r)) as -> by by destruct (pl_enabled r).
  cbn -[mk_ActionPolicyRule ActionPolicyCondition_from_dict].
  rewrite Hc.
  cbn -[mk_ActionPolicyRule]. by destruct r.
Qed.

Lemma set_from_dict_read payload p :
  ActionPolicySet_from_dict payload = Ok p →
  mk_ActionPolicySet p = Ok p ∧ Forall rule_read (ps_rules p).
Proof.
  unfold ActionPolicySet_from_dict. intros H. inv_res.
  assert (∀ p', mk_ActionPolicySet p' = Ok p → p' = p) as Hid.
  { unfold mk_ActionPolicySet. intros p' Hp. by inv_res. }
  pose proof (Hid _ H) as <-. split; [exact H|]. cbn [ps_rules].
  match goal with E : read_objects _ _ _ = Ok _ |- _ =>
    apply Forall_forall; eapply read_objects_all; [|exact E] end.
  intros obj r Hr. by eapply rule_from_dict_read.
Qed.

(** round trip of action policies.  Every policy set that is read from a
    JSON object is read back unchanged from the object it writes, so hashing
    that object identifies the policy, and writing and reading change no rule,
    condition, matcher, order or switch. *)
Theorem action_policy_round_trip (payload : list (string * json)) (p : ActionPolicySet) :
  ActionPolicySet_from_dict payload = Ok p →
  ActionPolicySet_from_dict (ActionPolicySet_as_dict p) = Ok p.
Proof.
  intros [Hp Hr]%set_from_dict_read. unfold ActionPolicySet_from_dict, ActionPolicySet_as_dict.
  change [(?a, ?x); (?b, ?y); (?c, ?z); (?d, ?w)]
    with (present [(a, Some x); (b, Some y); (c, Some z); (d, Some w)]).
  rewrite reject_unknown_present by (repeat constructor; in_list).
  unfold field.
  rewrite !assoc_last_present by (apply (bool_decide_unpack _); vm_compute; exact I).
  cbn -[mk_ActionPolicySet read_objects ActionPolicyRule_from_dict Nat.leb].
  assert ((length (ps_rules p) <=? MAX_POLICY_RULES) = true) as Hlen.
  { revert Hp. unfold mk_ActionPolicySet. intros H. inv_res. done. }
  rewrite length_map, Hlen.
  cbn -[mk_ActionPolicySet read_objects ActionPolicyRule_from_dict].
  rewrite read_objects_map.
  - cbn -[mk_ActionPolicySet]. by destruct p.
  - eapply Forall_impl; [exact Hr|]. intros r. apply ActionPolicyRule_stable.
Qed.
