(* ===== verification/ActionFacts.v ===== *)
(** * Theorems about the review of actions ([ordin/action.py]) *)
From stdpp Require Import base list strings pretty gmap sets.
From Stdlib Require Import Bool Ascii ZArith QArith Lia.
From S2P Require Import Prelude PyStr Json JsonText Policy Context Catalog Effects Risk RiskFacts Semantics Temporal TemporalFacts Review ReviewFacts.
From S2P Require Import Execution Provenance ActionModel RequestReaders ActionProvenance ToolCalls Action ActionPolicy ActionPolicyFacts.
#[local] Open Scope py_scope.

(** The risks of a provenance are those of a review. *)
Lemma valid_risks_valid risk : mem risk VALID_RISKS = true → valid_risk risk = true.
Proof. rewrite mem_elem_of, valid_risk_cases. unfold VALID_RISKS. set_solver. Qed.

Section facts.
Context {score : Type} (close_to : score → score → bool).
Context (search : string → res (list (@SearchResult score))).
Context (default_policy : TemporalPolicySet).
Context (float_repr : Q → string) (digest : json → string).
Context `{RequestReaders}.
Context (st : Store).
Context (tool_semantics : option CompiledToolSemanticsRegistry).
Context (rest_semantics : option (list string)).

#[local] Abbreviation base_review := (_review_action_base close_to search default_policy st
                           tool_semantics rest_semantics).
#[local] Abbreviation predicted := (predicted_signals close_to search default_policy float_repr st
                         tool_semantics rest_semantics).
#[local] Abbreviation evidence_of := (_temporal_evidence_for_action close_to search default_policy float_repr st
                           tool_semantics rest_semantics).
#[local] Abbreviation priors := (prior_evidence close_to search default_policy float_repr st
                      tool_semantics rest_semantics).
#[local] Abbreviation review_of := (review_action close_to search default_policy float_repr digest st
                         tool_semantics rest_semantics).

(** ** The predictions kept during a review *)

(** Every kept prediction is the one that would be computed. *)
Definition cache_ok (cache : option Cache) : Prop :=
  ∀ m command context evidence, cache = Some m →
    m !! (command, json_dumps float_repr default_layout (opt_json ExecutionContext_as_dict context)) = Some evidence →
    temporal_evidence_for_command st command context None = Ok evidence.

Lemma predicted_signals_cached action review reuse keep cache :
  cache_ok cache →
  (fst <$> predicted action review reuse keep cache)
    = (fst <$> predicted action review false false None) ∧
  ∀ out, predicted action review reuse keep cache = Ok out → cache_ok (snd out).
Proof.
  intros Hc. unfold predicted_signals. destruct (is_shell action); cycle 1.
  { destruct review as [r|]; cbn [mbind res_bind].
    - split; [done|]. by intros out [= <-].
    - destruct (base_review action); cbn; split; try done. by intros out [= <-]. }
  destruct (shell_command action) as [command|]; [|split; [done|by intros out [= <-]]].
  destruct (if reuse then _ else _) as [evidence|] eqn:Hhit.
  - assert (temporal_evidence_for_command st command (ac_context action) None = Ok evidence) as ->.
    { destruct reuse, cache as [m|]; try done. by eapply Hc. }
    cbn. split; [done|]. by intros out [= <-].
  - destruct (temporal_evidence_for_command st command (ac_context action) None)
      as [evidence|e] eqn:Hev; cbn; split; try done.
    intros out [= <-]. cbn [snd]. destruct keep; [|done].
    destruct cache as [m|]; [|done]. intros m' command' context' evidence' Hm'.
    cbn in Hm'. injection Hm' as <-. unfold cache_key.
    intros [[[= <- Hk] <-]|[_ Hm]]%(lookup_insert_Some (M := gmap (string * string)));
      [by rewrite <- (dumps_context_inj _ _ _ Hk)|by eapply Hc].
Qed.

Lemma evidence_cached action review obs reuse keep cache reuse' keep' cache' :
  cache_ok cache → cache_ok cache' →
  (fst <$> evidence_of action review obs reuse keep cache)
    = (fst <$> evidence_of action review obs reuse' keep' cache') ∧
  ∀ out, evidence_of action review obs reuse keep cache = Ok out → cache_ok (snd out).
Proof.
  intros Hc Hc'.
  destruct (predicted_signals_cached action review reuse keep cache Hc) as [He Hk].
  destruct (predicted_signals_cached action review reuse' keep' cache' Hc') as [He' _].
  rewrite <- He' in He. clear He'. unfold _temporal_evidence_for_action.
  destruct (predicted action review reuse keep cache) as [[s c]|e],
    (predicted action review reuse' keep' cache') as [[s' c']|e']; cbn in He |- *; try done;
    [|split; [congruence|by intros]].
  injection He as ->. split; [done|]. intros out [= <-]. by apply (Hk (s', c)).
Qed.

(** Two runs over a history that agree on every action agree on the whole. *)
Lemma priors_cached m reuse keep reuse' keep' actions : ∀ index cache cache',
  cache_ok cache → cache_ok cache' →
  (fst <$> priors m reuse keep index actions cache)
    = (fst <$> priors m reuse' keep' index actions cache') ∧
  (∀ out, priors m reuse keep index actions cache = Ok out → cache_ok (snd out)) ∧
  (∀ out, priors m reuse' keep' index actions cache' = Ok out → cache_ok (snd out)).
Proof.
  induction actions as [|item actions IH]; intros index cache cache' Hc Hc';
    cbn [prior_evidence].
  { split; [done|]. split; by intros out [= <-]. }
  pose proof (evidence_cached item None (observation_of m item) (reuse index) (keep index) cache
    (reuse' index) (keep' index) cache' Hc Hc') as [He Hk].
  pose proof (evidence_cached item None (observation_of m item) (reuse' index) (keep' index)
    cache' (reuse index) (keep index) cache Hc' Hc) as [_ Hk'].
  destruct (evidence_of item None (observation_of m item) (reuse index) _ cache) as [[s c]|e],
    (evidence_of item None (observation_of m item) (reuse' index) _ cache') as [[s' c']|e'];
    cbn in He; try discriminate He; cbn [mbind res_bind fst snd]; [|split_and!; [congruence|by intros|by intros]].
  injection He as ->.
  destruct (IH (S index) c c' (Hk _ eq_refl) (Hk' _ eq_refl)) as (Hl & Ho & Ho').
  destruct (priors m reuse keep (S index) actions c) as [[l d]|e],
    (priors m reuse' keep' (S index) actions c') as [[l' d']|e']; cbn in Hl;
    try discriminate Hl; cbn [mbind res_bind fst snd]; [|split_and!; [congruence|by intros|by intros]].
  injection Hl as ->. split_and!; [done|intros out [= <-]..]; [by apply (Ho (l', d))|by apply (Ho' (l', d'))].
Qed.

(** reusing predictions changes nothing.  The evidence of a repeated pair of
    command and context is computed once and kept for the rest of the review,
    as long as the catalog snapshot allows it.  Whatever the answers about
    reuse are, before and after every action, the review is the one that
    computes all evidence anew, results and errors alike. *)
Theorem prediction_reuse_transparent reuse_start reuse keep action history obs policy :
  review_of reuse_start reuse keep action history obs policy
  = review_of false (λ _, false) (λ _, false) action history obs policy.
Proof.
  unfold review_action.
  destruct (base_review action) as [base|]; [|done]. cbn [mbind res_bind].
  destruct (_observations_for_history history obs) as [m|]; [|done]. cbn [mbind res_bind].
  destruct (_with_observation_provenance base history m) as [b|]; [|done]. cbn [mbind res_bind].
  destruct history as [h|]; [|done]. destruct (hi_actions h) as [|a l]; [done|].
  assert (∀ start : bool, cache_ok (if start then Some ∅ else None)) as Hc.
  { intros [] m' ? ? ? Hm Hl; [injection Hm as <-|done].
    by apply (lookup_empty_Some (M := gmap (string * string))) in Hl. }
  destruct (priors_cached m reuse keep (λ _, false) (λ _, false) (a :: l) 0 _ _
    (Hc reuse_start) (Hc false)) as (He & Hk & Hk').
  destruct (priors m reuse keep 0 (a :: l) _) as [[ps c]|],
    (priors m (λ _, false) (λ _, false) 0 (a :: l) _) as [[ps' c']|];
    cbn in He; try discriminate He; cbn [mbind res_bind fst snd]; [|congruence].
  injection He as ->.
  match goal with |- context [evidence_of action (Some b) None ?r ?k c] =>
    destruct (evidence_cached action (Some b) None r k c false false c' (Hk _ eq_refl)
      (Hk' _ eq_refl)) as [He1 _] end.
  destruct (evidence_of action (Some b) None _ _ c) as [[s d]|],
    (evidence_of action (Some b) None false false c') as [[s' d']|];
    cbn in He1; try discriminate He1; cbn [mbind res_bind fst snd]; [|congruence].
  by injection He1 as ->.
Qed.

(** ** The base review *)

(** A review whose provenance was just written from it. *)
Lemma with_base_provenance_inv r items rr r' :
  _with_base_provenance r items rr = Ok r' → av_provenance r = None →
  ∃ p, r' = with_provenance p r ∧ final_decision p = av_decision r ∧ final_risk p = av_risk r
    ∧ mem (av_risk r) VALID_RISKS = true.
Proof.
  unfold _with_base_provenance, _base_provenance, mk_DecisionProvenance. intros H0 Hn.
  rewrite Hn in H0. inv_res. exists {| records := [x0] ++ x1 ++ x2 ++ x3 ++ x4 ++ x5 ++ x6 ++ [x7];
    final_decision := av_decision r; final_risk := av_risk r |}. done.
Qed.

(** What every base review satisfies. *)
Definition well_reviewed (action : ActionEnvelope) (r : ActionReview) : Prop :=
  av_action r = action ∧ coherent r ∧ (∃ q, av_provenance r = Some q)
  ∧ (∃ c, av_capabilities r = Some c) ∧ av_policy r = None ∧ av_policy_matches r = [].

Lemma with_base_well_reviewed r items rr r' :
  _with_base_provenance r items rr = Ok r' → av_provenance r = None →
  (∃ c, av_capabilities r = Some c) → av_policy r = None → av_policy_matches r = [] →
  well_reviewed (av_action r) r'.
Proof.
  intros Hr Hn Hc Hp Hm.
  destruct (with_base_provenance_inv _ _ _ _ Hr Hn) as (p & -> & Hd & Hrisk & Hv).
  split_and!; try done; [split; [done|]|by exists p].
  intros q [= <-]. by rewrite Hd, Hrisk.
Qed.

Lemma request_review_well action decision risk reason effects resources adapter r :
  request_review action decision risk reason effects resources adapter = Ok (Some r) →
  well_reviewed action r.
Proof.
  unfold request_review. intros H0. inv_res.
  match goal with H : _with_base_provenance _ _ _ = Ok _ |- _ =>
    apply with_base_well_reviewed in H; eauto end.
Qed.

Lemma attempt_inv {A} (m : res (option A)) a : attempt m = Ok (Some a) → m = Ok (Some a).
Proof. destruct m as [|[]]; cbn; congruence. Qed.

Lemma tool_review_fields a c r :
  review_tool_action a c = Ok r →
  av_action r = a ∧ av_provenance r = None ∧ av_policy r = None ∧ av_policy_matches r = [].
Proof. unfold review_tool_action. intros H0. case_match; inv_res; done. Qed.

Lemma with_capabilities_well a r r' :
  av_action r = a → av_provenance r = None → av_policy r = None → av_policy_matches r = [] →
  _with_capabilities r = Ok r' → well_reviewed a r'.
Proof.
  intros <- Hn Hp Hm. unfold _with_capabilities. intros H0. inv_res.
  destruct (av_capabilities r) as [c|] eqn:Hc; inv_res;
    match goal with H : _with_base_provenance _ _ _ = Ok _ |- _ =>
      apply with_base_well_reviewed in H; eauto end.
Qed.

(** Walks down a branch to the review it builds. *)
Ltac branch_inv Hb :=
  repeat match type of Hb with
  | attempt _ = Ok (Some _) => apply attempt_inv in Hb
  | (match ?x with _ => _ end) = Ok (Some _) => destruct x eqn:?; try discriminate Hb
  | mbind _ _ = Ok (Some _) =>
      let Hx := fresh "Hx" in apply res_bind_ok in Hb as (? & Hx & Hb)
  end.

Lemma branch_well (b : res (option ActionReview)) action r :
  (b = rest_branch rest_semantics action ∨ b = mcp_control_branch action
   ∨ b = mcp_parameter_branch action ∨ b = graphql_branch action ∨ b = jsonrpc_branch action) →
  b = Ok (Some r) → well_reviewed action r.
Proof.
  intros [->|[->|[->|[->| ->]]]] Hb;
    unfold rest_branch, mcp_control_branch, mcp_parameter_branch, graphql_branch, jsonrpc_branch,
      reading_review in Hb; branch_inv Hb; try by eapply request_review_well.
  simplify_eq. branch_inv Hx. by eapply request_review_well.
Qed.

Lemma shell_review_well action r :
  shell_review close_to search default_policy st action = Ok r → well_reviewed action r.
Proof.
  unfold shell_review. destruct (shell_command action); intros H0; inv_res;
    match goal with H : _with_base_provenance _ _ _ = Ok _ |- _ =>
      apply with_base_well_reviewed in H; eauto end.
Qed.

Lemma unknown_review_well action r : unknown_review action = Ok r → well_reviewed action r.
Proof.
  unfold unknown_review. intros H0; inv_res;
    match goal with H : _with_base_provenance _ _ _ = Ok _ |- _ =>
      apply with_base_well_reviewed in H; eauto end.
Qed.

Lemma first_answer_inv branches rest r :
  first_answer branches rest = Ok r →
  (∃ b, b ∈ branches ∧ b = Ok (Some r)) ∨ rest = Ok r.
Proof.
  induction branches as [|b bs IH]; cbn; [by right|]. intros (a & Hb & Ha)%res_bind_ok.
  destruct a as [review|].
  - injection Ha as <-. left. exists b. split; [left|done].
  - destruct (IH Ha) as [(b' & Hin & ?)|?]; [left; exists b'; split; [by right|done]|by right].
Qed.

Lemma base_review_well action r : base_review action = Ok r → well_reviewed action r.
Proof.
  unfold _review_action_base.
  intros [(b & Hin & Hb)|Hr]%first_answer_inv.
  - apply (branch_well b); [|done].
    repeat (apply elem_of_cons in Hin as [->|Hin]; [tauto|]). by apply elem_of_nil in Hin.
  - destruct tool_semantics as [c|].
    + destruct (is_tool_call action).
      * apply res_bind_ok in Hr as (t & Ht & Hr). apply tool_review_fields in Ht.
        destruct_and!. by eapply with_capabilities_well.
      * destruct (is_shell action); [by apply shell_review_well|by apply unknown_review_well].
    + destruct (is_shell action); [by apply shell_review_well|by apply unknown_review_well].
Qed.

(** ** Observations and history *)

(** Only the provenance grew. *)
Definition only_provenance (r r' : ActionReview) : Prop :=
  ∃ q q' new, av_provenance r = Some q ∧ r' = with_provenance q' r ∧
    records q' = records q ++ new ∧ final_decision q' = final_decision q ∧
    final_risk q' = final_risk q.

Lemma append_inv q rs d risk q' :
  append q rs d risk = Ok q' →
  records q' = records q ++ rs ∧ final_decision q' = default (final_decision q) d ∧
  final_risk q' = or_default risk (final_risk q) ∧ mem (final_risk q') VALID_RISKS = true.
Proof. unfold append, mk_DecisionProvenance. intros H0. inv_res. done. Qed.

Lemma observation_provenance_inv r h m r' :
  _with_observation_provenance r h m = Ok r' → r' = r ∨
  ∃ q q' new, provenance_of r = Ok q ∧ r' = with_provenance q' r ∧
    records q' = records q ++ new ∧ final_decision q' = final_decision q ∧
    final_risk q' = final_risk q.
Proof.
  unfold _with_observation_provenance. intros H0.
  destruct m as [|o m], h as [h|]; try (injection H0 as <-; by left).
  inv_res. rename x into q, x0 into rs. destruct rs; [inv_res; by left|]. inv_res.
  match goal with H : append _ _ _ _ = Ok _ |- _ => apply append_inv in H as (? & ? & ? & ?) end.
  right. by eexists _, _, _.
Qed.

(** What the review with its history owes to the review without, and to the
    matches of the temporal policy. *)
Record history_verdict (metadata : list (string * scalar)) (base : ActionReview)
    (ms : list TemporalMatch) (r : ActionReview) : Prop := {
  hv_evidence : av_action r = av_action base ∧ av_effects r = av_effects base ∧
    av_resources r = av_resources base ∧ av_adapter r = av_adapter base ∧
    av_capabilities r = av_capabilities base ∧ av_intent_alignment r = av_intent_alignment base;
  hv_risk : av_risk r = av_risk base ∨ av_risk r ∈ map tm_risk ms;
  hv_base : rank (av_risk base) ≤ rank (av_risk r);
  hv_weaker : weaker (av_decision base) (av_decision r);
  hv_consistent : av_decision base = decision_for_risk (av_risk base) →
    av_decision r = decision_for_risk (av_risk r);
  hv_decision : av_decision r = av_decision base ∨
    ∃ m, m ∈ ms ∧ av_decision r = decision_for_risk (tm_risk m);
  hv_matches : ∀ m, m ∈ ms →
    rank (tm_risk m) ≤ rank (av_risk r) ∧ weaker (decision_for_risk (tm_risk m)) (av_decision r) ∧
    tm_reason m ∈ av_reasons r ∧ tm_category m ∈ av_trajectory_categories r;
  hv_reasons : av_reasons base `prefix_of` av_reasons r;
  hv_none : ms = [] → av_decision r = av_decision base ∧ av_risk r = av_risk base ∧
    av_reasons r = av_reasons base ∧ av_safer_next_step r = av_safer_next_step base;
  hv_coherent : coherent r;
  hv_recorded : ∃ q q' new, av_provenance base = Some q ∧ av_provenance r = Some q' ∧
    records q' = records q ++ new ∧ (∀ m, m ∈ ms → temporal_record metadata m ∈ new) }.

Lemma mk_record_id r r' : mk_ProvenanceRecord r = Ok r' → r' = r.
Proof. unfold mk_ProvenanceRecord. intros H0. by inv_res. Qed.
Lemma mk_records_id rs rs' : all_ok (map mk_ProvenanceRecord rs) = Ok rs' → rs' = rs.
Proof.
  intros Hr%all_ok_Forall2%Forall2_fmap_l. induction Hr as [|r r' rs rs' Hr _ IH]; [done|].
  by rewrite (mk_record_id r r' Hr), IH.
Qed.

Lemma decision_of_top a t m :
  valid_risk a = true → raising t → raising m → rank m ≤ rank t →
  ∀ d, weaker (decision_for_risk m) (stronger_decision d (decision_for_risk t)).
Proof.
  intros _ Ht Hm Hle d. etrans; [|apply stronger_decision_ub_r].
  apply raising_cases in Ht as [->|[->| ->]], Hm as [->|[->| ->]]; vm_compute in Hle |- *; lia.
Qed.

(** The matches of rules that the constructor accepts. *)
Definition matches_raising (ms : list TemporalMatch) : Prop := Forall (λ m, raising (tm_risk m)) ms.

Lemma stronger_cases d e : stronger_decision d e = d ∨ stronger_decision d e = e.
Proof. unfold stronger_decision. case_match; auto. Qed.

Lemma provenance_of_some r q : av_provenance r = Some q → provenance_of r = Ok q.
Proof. unfold provenance_of. by intros ->. Qed.

(** The review with matches, whatever merge of decisions is used. *)
Record applied (merge : Decision → Decision → Decision) (metadata : list (string * scalar))
    (b : ActionReview) (ms : list TemporalMatch) (r : ActionReview) : Prop := {
  ap_evidence : av_action r = av_action b ∧ av_effects r = av_effects b ∧
    av_resources r = av_resources b ∧ av_adapter r = av_adapter b ∧
    av_capabilities r = av_capabilities b ∧ av_intent_alignment r = av_intent_alignment b;
  ap_none : ms = [] → av_decision r = av_decision b ∧ av_risk r = av_risk b ∧
    av_reasons r = av_reasons b ∧ av_safer_next_step r = av_safer_next_step b;
  ap_merged : ms ≠ [] → ∃ t, t ∈ map tm_risk ms ∧ raising t ∧
    (∀ m, m ∈ ms → rank (tm_risk m) ≤ rank t) ∧
    av_risk r = (if rank (av_risk b) <? rank t then t else av_risk b) ∧
    av_decision r = merge (av_decision b) (decision_for_risk t);
  ap_matches : ∀ m, m ∈ ms → tm_reason m ∈ av_reasons r ∧ tm_category m ∈ av_trajectory_categories r;
  ap_reasons : av_reasons b `prefix_of` av_reasons r;
  ap_coherent : coherent r;
  ap_recorded : ∃ q q' new, av_provenance b = Some q ∧ av_provenance r = Some q' ∧
    records q' = records q ++ new ∧ (∀ m, m ∈ ms → temporal_record metadata m ∈ new) }.

Lemma apply_no_matches merge policy b r :
  coherent b → (∃ q, av_provenance b = Some q) →
  apply_matches_by digest merge policy b {| history_length := 0; te_matches := [] |} = Ok r →
  applied merge (temporal_metadata digest policy) b [] r.
Proof.
  intros [Hv Hco] [q Hq] Hr. unfold apply_matches_by in Hr.
  rewrite (provenance_of_some _ _ Hq) in Hr. cbn [mbind res_bind te_matches] in Hr. inv_res.
  match goal with H : append _ _ _ _ = Ok _ |- _ =>
    apply append_inv in H as (Hrec & Hd & Hrisk & _) end.
  cbn in Hd, Hrisk. destruct (Hco q Hq) as [Hqd Hqr].
  split; cbn -[rank]; auto 10; try done.
  - by intros m ?%elem_of_nil.
  - split; [done|]. intros p [= <-]. by rewrite Hd, Hrisk.
  - eexists q, _, _. split_and!; try done. by intros m ?%elem_of_nil.
Qed.

Lemma highest_match ms : ms ≠ [] → matches_raising ms →
  ∃ t, highest_risk (map tm_risk ms) = Ok (Some t) ∧ t ∈ map tm_risk ms ∧ raising t ∧
    ∀ m, m ∈ ms → rank (tm_risk m) ≤ rank t.
Proof.
  intros Hne Hms. destruct ms as [|m0 ms']; [done|]. set (ms := m0 :: ms') in *.
  assert (Forall (λ risk, valid_risk risk = true) (map tm_risk ms)) as Hvalid.
  { apply Forall_fmap. eapply Forall_impl; [exact Hms|]. intros m. apply raising_valid. }
  apply highest_risk_spec in Hvalid as (t & Ht & Hin & Hmax).
  exists t. split_and!; [exact Ht|exact Hin| |].
  - apply list_elem_of_fmap in Hin as (m & -> & Hm). unfold matches_raising in Hms.
    rewrite Forall_forall in Hms. by apply Hms.
  - intros m Hm. apply Hmax. by apply (list_elem_of_fmap_2 tm_risk).
Qed.

Lemma apply_matches_applied merge policy b n ms r :
  coherent b → (∃ q, av_provenance b = Some q) → matches_raising ms →
  apply_matches_by digest merge policy b {| history_length := n; te_matches := ms |} = Ok r →
  applied merge (temporal_metadata digest policy) b ms r.
Proof.
  intros Hco0 Hq0 Hms Hr. destruct ms as [|m0 ms']; [by apply apply_no_matches|].
  destruct Hco0 as [Hv Hco], Hq0 as [q Hq]. pose proof (valid_risks_valid _ Hv) as Hval.
  set (ms := m0 :: ms') in *. assert (ms ≠ []) as Hne by done.
  destruct (highest_match ms Hne Hms) as (t & Ht & Hin & Hraise & Hmax).
  pose proof (max_risk_valid _ _ Hval (raising_valid t Hraise)) as Hmr.
  destruct (max_risk_inv _ _ _ Hmr) as (_ & _ & Hvc & Hrank & Hsrc).
  set (c := if rank (av_risk b) <? rank t then t else av_risk b) in *.
  unfold apply_matches_by in Hr. rewrite (provenance_of_some _ _ Hq) in Hr.
  cbn [mbind res_bind te_matches] in Hr. unfold ms in Hr at 1. cbv iota in Hr. fold ms in Hr.
  unfold TemporalEvaluation_risk in Hr. cbn [te_matches] in Hr. rewrite Ht in Hr.
  cbn [mbind res_bind] in Hr. rewrite Hmr in Hr. cbn [mbind res_bind] in Hr.
  apply res_bind_ok in Hr as (trs & Htrs & Hr). rewrite <- map_map in Htrs.
  apply mk_records_id in Htrs as ->.
  apply res_bind_ok in Hr as (mr & Hmrr & Hr). apply mk_record_id in Hmrr as ->.
  apply res_bind_ok in Hr as (q' & Hq' & Hr). injection Hr as <-.
  apply append_inv in Hq' as (Hrec & Hd & Hrisk & Hvq). cbn [default from_option] in Hd.
  assert (final_risk q' = c) as Hrisk'.
  { rewrite Hrisk. unfold or_default. destruct c as [|a s] eqn:Ec; [|done]. by vm_compute in Hvc. }
  split; cbn [av_action av_effects av_resources av_adapter av_capabilities av_intent_alignment
    av_risk av_decision av_reasons av_trajectory_categories av_safer_next_step av_provenance].
  - done.
  - done.
  - intros _. by exists t.
  - intros m Hm. split.
    + apply (append_unique_elem (av_reasons b) (map tm_reason ms)). right.
      by apply list_elem_of_fmap_2.
    + apply sorted_set_elem, elem_of_app. right. by apply (list_elem_of_fmap_2 tm_category ms).
  - apply (append_unique_prefix (av_reasons b) (map tm_reason ms)).
  - split; [by rewrite <- Hrisk'|]. intros p [= <-]. by rewrite Hd, Hrisk'.
  - eexists q, q', _. split_and!; [done..|exact Hrec|]. intros m Hm. apply elem_of_app. left.
    by apply (list_elem_of_fmap_2 _ ms).
Qed.

(** With the stronger decision, no label of review precedence is weakened. *)
Lemma apply_matches_verdict policy b n ms r :
  coherent b → (∃ q, av_provenance b = Some q) → matches_raising ms →
  apply_matches digest policy b {| history_length := n; te_matches := ms |} = Ok r →
  history_verdict (temporal_metadata digest policy) b ms r.
Proof.
  intros Hco Hq Hms Hr.
  destruct (apply_matches_applied stronger_decision policy b n ms r Hco Hq Hms Hr)
    as [He Hn Hmg Hrm Hpre Hcr Hrec].
  pose proof (valid_risks_valid _ (proj1 Hco)) as Hval.
  destruct (decide (ms = [])) as [->|Hne].
  { destruct (Hn eq_refl) as (Hd & Hk & _ & _).
    split; try done; rewrite ?Hd, ?Hk; auto; [reflexivity|by intros m ?%elem_of_nil]. }
  destruct (Hmg Hne) as (t & Hin & Hraise & Hmax & Hrisk & Hd).
  split; try done; rewrite ?Hrisk, ?Hd.
  - case_match; auto.
  - destruct (Nat.ltb_spec (rank (av_risk b)) (rank t)); lia.
  - apply stronger_decision_ub_l.
  - intros ->. apply stronger_raising; [done..|]. by apply max_risk_valid; [|apply raising_valid].
  - apply list_elem_of_fmap in Hin as (m & -> & Hm).
    destruct (stronger_cases (av_decision b) (decision_for_risk (tm_risk m))); eauto.
  - intros m Hm. destruct (Hrm m Hm). pose proof (Hmax m Hm). split_and!; [| |done|done].
    + destruct (Nat.ltb_spec (rank (av_risk b)) (rank t)); lia.
    + apply (decision_of_top (av_risk b)); try done. unfold matches_raising in Hms.
      rewrite Forall_forall in Hms. by apply Hms.
Qed.

Lemma evaluation_raising rules prior current :
  policy_ok rules → matches_raising (te_matches (evaluate_policy rules prior current)).
Proof.
  intros Hp. apply Forall_forall. intros m (r & indices & Hr & ->)%evaluate_policy_rules.
  cbn. unfold policy_ok in Hp. rewrite Forall_forall in Hp. by apply rule_raising, Hp.
Qed.

Lemma only_provenance_verdict metadata base b ms r :
  av_provenance base ≠ None → coherent base → (∃ q, av_provenance base = Some q) →
  (b = base ∨ ∃ q q' new, provenance_of base = Ok q ∧ b = with_provenance q' base ∧
     records q' = records q ++ new ∧ final_decision q' = final_decision q ∧
     final_risk q' = final_risk q) →
  history_verdict metadata b ms r → history_verdict metadata base ms r.
Proof.
  intros _ Hco [q Hq] [->|(q0 & q' & new & Hq0 & -> & Hrec & _ & _)] Hv; [done|].
  rewrite (provenance_of_some _ _ Hq) in Hq0. injection Hq0 as <-.
  destruct Hv as [H1 H2 H3 H4 H4' H5 H6 H7 H8 H9 (p & p' & rs & Hp & Hp' & Hrs & Hms)].
  split; try done. injection Hp as <-. eexists q, p', _. split_and!; [done|done| |].
  - rewrite Hrs, Hrec, <- app_assoc. reflexivity.
  - intros m Hm. apply elem_of_app. right. by apply Hms.
Qed.

Lemma observation_coherent r h m r' :
  coherent r → (∃ q, av_provenance r = Some q) → _with_observation_provenance r h m = Ok r' →
  coherent r' ∧ ∃ q, av_provenance r' = Some q.
Proof.
  intros [Hv Hco] [q Hq] [->|(q0 & q' & new & Hq0 & -> & _ & Hd & Hr)]%observation_provenance_inv;
    [by split; [|exists q]|].
  rewrite (provenance_of_some _ _ Hq) in Hq0. injection Hq0 as <-.
  destruct (Hco q Hq) as [Hqd Hqr]. split; [|by exists q']. split; [done|].
  intros p [= <-]. by rewrite Hd, Hr.
Qed.

(** C27: history only adds to a review.  A review with a history, whatever its
    observations, is the base review of the same action with the matches of
    the temporal policy on the evidence of the prior actions and of this one:
    evidence, resources and capabilities are the base review's; the risk is
    the highest of the base risk and the matches' risks; the decision is the
    base one or one required by a match, and no label of review precedence is
    weakened; the reasons of the base come first, every match gives its reason,
    its category and a provenance record; without a match nothing but the
    provenance changes; and the provenance ends in the verdict. *)
Theorem review_action_history reuse_start reuse keep action h obs policy r :
  policy_ok (compile_temporal_policy (default default_policy policy)) → hi_actions h ≠ [] →
  review_of reuse_start reuse keep action (Some h) obs policy = Ok r →
  ∃ base m b prior current cache cache',
    base_review action = Ok base ∧ _observations_for_history (Some h) obs = Ok m ∧
    _with_observation_provenance base (Some h) m = Ok b ∧
    priors m reuse keep 0 (hi_actions h) (if reuse_start then Some ∅ else None)
      = Ok (prior, cache) ∧
    evidence_of action (Some b) None (reuse (length (hi_actions h)))
      (keep (length (hi_actions h))) cache = Ok (current, cache') ∧
    history_verdict (temporal_metadata digest (default default_policy policy)) base
      (te_matches (evaluate_policy (compile_temporal_policy (default default_policy policy))
                     prior current)) r.
Proof.
  intros Hp Hne Hr. unfold review_action in Hr.
  apply res_bind_ok in Hr as (base & Hbase & Hr). apply res_bind_ok in Hr as (m & Hm & Hr).
  apply res_bind_ok in Hr as (b & Hb & Hr). destruct (hi_actions h) as [|a l] eqn:Hacts; [done|].
  apply res_bind_ok in Hr as ([prior cache] & Hprior & Hr).
  apply res_bind_ok in Hr as ([current cache'] & Hcur & Hr). cbn [fst snd] in *.
  destruct (base_review_well _ _ Hbase) as (_ & Hco & Hprov & _).
  destruct (observation_coherent _ _ _ _ Hco Hprov Hb) as [Hcob Hprovb].
  exists base, m, b, prior, current, cache, cache'. split_and!; try done.
  eapply (only_provenance_verdict _ _ b); try done.
  - destruct Hprov as [q ->]. done.
  - by eapply observation_provenance_inv.
  - eapply apply_matches_verdict; [done|done| |exact Hr]. by apply (evaluation_raising _ prior).
Qed.
End facts.
