(* ===== verification/ActionShell.v ===== *)
(** * Shell actions agree with command reviews

    The review of a shell action with a history of shell actions reaches the
    verdict of the command review with the corresponding trace, although the
    two apply intent and history in different orders and see different
    signals.  Also: what such a review may raise. *)
From stdpp Require Import base list strings pretty gmap sets.
From Stdlib Require Import Bool Ascii ZArith QArith Lia.
From S2P Require Import Prelude PyStr Json JsonText Policy Context Catalog Effects Risk RiskFacts Semantics Temporal TemporalFacts Review ReviewFacts.
From S2P Require Import Execution Provenance ActionModel RequestReaders ActionProvenance ToolCalls Action ActionPolicy ActionPolicyFacts ActionFacts.
#[local] Open Scope py_scope.
#[local] Open Scope nat_scope.

(** ** Policies on evidence that they cannot tell apart *)

Definition alike (rules : list TemporalRule) (e e' : TemporalActionEvidence) : Prop :=
  ∀ r p, r ∈ rules → p ∈ pattern r → matches p e = matches p e'.

Lemma step_matches_alike rules r step e e' :
  alike rules e e' → r ∈ rules → step_matches r step e = step_matches r step e'.
Proof.
  intros Ha Hr. unfold step_matches. destruct (pattern r !! step) as [p|] eqn:Hp; [|done].
  apply (Ha r); [done|]. by eapply list_elem_of_lookup_2.
Qed.

Lemma advance_all_alike rules r final index e e' states acc :
  alike rules e e' → r ∈ rules →
  advance_all r final index e states acc = advance_all r final index e' states acc.
Proof.
  intros Ha Hr. revert acc. induction states as [|s states IH]; intros acc; cbn; [done|].
  assert (advance r final index e s = advance r final index e' s) as ->.
  { unfold advance. by rewrite (step_matches_alike _ _ _ _ _ Ha Hr). }
  by destruct (advance r final index e' s); rewrite ?IH.
Qed.

Lemma evaluate_loop_alike rules r final l l' : ∀ index states,
  Forall2 (alike rules) l l' → r ∈ rules →
  evaluate_loop r final index l states = evaluate_loop r final index l' states.
Proof.
  intros index states Hl Hr. revert index states.
  induction Hl as [|e e' l l' He _ IH]; intros index states; cbn; [done|].
  rewrite (advance_all_alike _ _ _ _ _ _ _ _ He Hr), (step_matches_alike _ _ _ _ _ He Hr).
  destruct (advance_all _ _ _ _ _ _); [done|].
  by repeat case_match; rewrite ?IH.
Qed.

Lemma evaluate_policy_alike rules prior prior' e e' :
  Forall2 (alike rules) prior prior' → alike rules e e' →
  evaluate_policy rules prior e = evaluate_policy rules prior' e'.
Proof.
  intros Hp He. unfold evaluate_policy, last_n.
  pose proof (Forall2_length _ _ _ Hp) as Hlen. rewrite <- Hlen.
  assert (Forall2 (alike rules) (drop (length prior - MAX_HISTORY_ACTIONS) prior ++ [e])
    (drop (length prior - MAX_HISTORY_ACTIONS) prior' ++ [e'])) as Hall.
  { apply Forall2_app; [by apply Forall2_drop|]. by repeat constructor. }
  f_equal; [by rewrite !length_drop, Hlen|].
  set (l := drop _ prior ++ _) in *. set (l' := drop _ prior' ++ _) in *. clearbody l l'.
  assert (∀ rs : list TemporalRule, (∀ r, r ∈ rs → r ∈ rules) →
    omap (λ r, evaluate_rule r l) rs = omap (λ r, evaluate_rule r l') rs) as Hext.
  { induction rs as [|r rs IH]; intros Hin; [done|].
    assert (evaluate_rule r l = evaluate_rule r l') as Heq.
    { unfold evaluate_rule. destruct Hall as [|x x' t t' Hx Ht]; [done|].
      rewrite (evaluate_loop_alike rules r _ (x :: t) (x' :: t')); [|by constructor|apply Hin; left].
      cbn. by rewrite (Forall2_length _ _ _ Ht). }
    cbn. rewrite Heq. rewrite IH; [done|]. intros; apply Hin. by right. }
  by apply Hext.
Qed.

(** A policy that names no predicted effect, as those written before actions
    had observations. *)
Definition names_no_prediction (rules : list TemporalRule) : Prop :=
  ∀ r p s, r ∈ rules → p ∈ pattern r → s ∈ signals_any p →
           startswith s "signal:predicted-effect:" = false.

Lemma with_observed_alike rules action e :
  names_no_prediction rules → ae_kind e = ac_kind action → ae_operation e = ac_operation action →
  alike rules (with_observed action (ae_signals e) None) e.
Proof.
  intros Hn Hk Ho r p Hr Hp. unfold matches, with_observed. cbn [ae_kind ae_operation ae_signals].
  rewrite Hk, Ho. destruct (_ && _); [done|]. destruct (_ && _); [done|].
  apply eq_true_iff_eq. rewrite !existsb_exists.
  assert (∀ s, In s (signals_any p) →
    (s ∈ ae_signals e ∪ list_to_set (map (λ e, "signal:predicted-effect:" +:+ e)
                                       (effect_names (ae_signals e))) ∪ list_to_set []
     ↔ s ∈ ae_signals e)) as Hs.
  { intros s Hin%list_elem_of_In. specialize (Hn r p s Hr Hp Hin).
    rewrite !elem_of_union, !elem_of_list_to_set. split; [|tauto].
    intros [[?|(x & -> & _)%list_elem_of_fmap]|[]%elem_of_nil]; [done|].
    exfalso. by rewrite startswith_app in Hn. }
  split; intros (s & Hin & Hm); exists s; (split; [done|]);
    apply bool_decide_eq_true in Hm; apply bool_decide_eq_true; by apply Hs.
Qed.

(** ** What the constructors raise *)

Lemma raises_identifier value name maximum pattern :
  value_error (ActionModel._validate_identifier value name maximum pattern).
Proof. unfold ActionModel._validate_identifier. value_errors. Qed.
#[export] Hint Resolve raises_identifier : raises.
Lemma raises_resource type value : value_error (mk_ActionResource type value).
Proof. unfold mk_ActionResource. value_errors. Qed.
Lemma raises_provenance_resource type value : value_error (mk_ProvenanceResource type value).
Proof. unfold mk_ProvenanceResource. value_errors. Qed.
Lemma raises_metadata l : value_error (check_metadata l).
Proof. induction l as [|[k v] l IH]; cbn; value_errors. Qed.
#[export] Hint Resolve raises_resource raises_provenance_resource raises_metadata : raises.
Lemma raises_record r : value_error (mk_ProvenanceRecord r).
Proof.
  unfold mk_ProvenanceRecord. repeat (apply value_error_bind; [value_errors|intros ? _]); value_errors.
Qed.
Lemma raises_provenance p : value_error (mk_DecisionProvenance p).
Proof. unfold mk_DecisionProvenance. value_errors. Qed.
Lemma raises_scope scope name : value_error (_validate_scope scope name).
Proof. unfold _validate_scope. value_errors. Qed.
#[export] Hint Resolve raises_record raises_provenance raises_scope : raises.
Lemma raises_append p rs d risk : value_error (append p rs d risk).
Proof. unfold append. value_errors. Qed.
Lemma raises_capabilities {R} `{ResourceLike R} kind effects (resources : list R) :
  value_error (derive_capabilities kind effects resources).
Proof. unfold derive_capabilities, mk_ExecutionCapabilityProfile. value_errors. Qed.
Lemma raises_resource_parts raw : value_error (_provenance_resource raw).
Proof. unfold _provenance_resource. value_errors. Qed.
#[export] Hint Resolve raises_append raises_capabilities raises_resource_parts : raises.
Lemma raises_evidence_resources resolved : value_error (_resources_from_evidence resolved).
Proof.
  unfold _resources_from_evidence. generalize (∅ : gset (string * string)).
  induction (evidence_items resolved) as [|item items IH]; intros seen; cbn; value_errors.
Qed.
Lemma raises_base_provenance review items rr : value_error (_base_provenance review items rr).
Proof.
  unfold _base_provenance, semantic_record, resource_record.
  repeat (apply value_error_bind; [value_errors|intros ? _]); value_errors.
Qed.
#[export] Hint Resolve raises_evidence_resources raises_base_provenance : raises.
Lemma raises_with_base review items rr : value_error (_with_base_provenance review items rr).
Proof. unfold _with_base_provenance. value_errors. Qed.
#[export] Hint Resolve raises_with_base : raises.

(** ** Room for the records of a history *)

(** What the records of a match take from the rule. *)
Definition recordable (m : TemporalMatch) : Prop :=
  String.length (tm_rule_id m) ≤ MAX_PROVENANCE_TEXT ∧
  String.length (tm_reason m) ≤ MAX_PROVENANCE_TEXT ∧
  String.length (tm_category m) ≤ MAX_PROVENANCE_TEXT ∧
  mem (tm_risk m) VALID_RISKS = true ∧ length (matched_indices m) ≤ MAX_PROVENANCE_INDICES.

Lemma evaluation_recordable rules prior current m :
  policy_ok rules → m ∈ te_matches (evaluate_policy rules prior current) → recordable m.
Proof.
  intros Hp (r & Hr & Hm)%list_elem_of_omap. unfold policy_ok in Hp. rewrite Forall_forall in Hp.
  specialize (Hp r Hr). destruct (mk_TemporalRule_bounds r Hp) as (Hw & _ & _ & Hrisk & Hsteps).
  rewrite (evaluate_rule_candidates r _ Hp) in Hm.
  destruct (first_some _) as [indices|] eqn:E; [|done]. injection Hm as <-.
  apply first_some_elem, (candidates_sound r (last_n MAX_HISTORY_ACTIONS prior ++ [current]))
    in E as ([_ He] & _); [|done|lia].
  apply Forall2_length in He. pose proof small_text as Hbig.
  destruct (mk_TemporalRule r) as [r'|] eqn:Er; [|done]. unfold mk_TemporalRule in Er. inv_res.
  unfold short_text, fits in *. split_bools.
  repeat match goal with H : (_ <=? _) = true |- _ => apply Nat.leb_le in H end.
  unfold recordable, match_of. cbn. split_and!; try lia.
  - done.
  - apply mem_elem_of in Hrisk. revert Hrisk. unfold VALID_TEMPORAL_RISKS, VALID_RISKS.
    rewrite !mem_elem_of. set_solver.
  - unfold MAX_PROVENANCE_INDICES. lia.
Qed.

Section records.
Context (digest : json → string) (policy : TemporalPolicySet).
Hypothesis (Hpolicy : mk_TemporalPolicySet policy = Ok policy).
Hypothesis (Hdigest : ∀ j, String.length (digest j) ≤ MAX_PROVENANCE_TEXT).
#[local] Abbreviation metadata := (temporal_metadata digest policy).

Lemma temporal_metadata_ok : check_metadata metadata = Ok tt.
Proof.
  apply check_metadata_ok. pose proof small_text as Hbig.
  unfold mk_TemporalPolicySet in Hpolicy. inv_res. unfold short_text, fits in *. split_bools.
  repeat match goal with H : (_ <=? _) = true |- _ => apply Nat.leb_le in H end.
  repeat (apply Forall_cons; split; [|]); [..|constructor];
    (split; [done|]); (split; [apply Nat.leb_le; reflexivity|]); cbn [snd]; [lia..|apply Hdigest].
Qed.
#[local] Hint Resolve temporal_metadata_ok : core.
Lemma temporal_record_ok m :
  recordable m →
  mk_ProvenanceRecord (temporal_record metadata m) = Ok (temporal_record metadata m).
Proof.
  intros (Hid%Nat.leb_le & Hre%Nat.leb_le & Hca%Nat.leb_le & Hrisk & Hin%Nat.leb_le).
  unfold mk_ProvenanceRecord, temporal_record.
  cbn -[MAX_PROVENANCE_TEXT MAX_PROVENANCE_INDICES Nat.leb check_metadata mem VALID_RISKS temporal_metadata].
  rewrite Hid, Hre, Hca, Hrisk. cbn -[MAX_PROVENANCE_INDICES Nat.leb check_metadata temporal_metadata].
  rewrite Hin. cbn -[check_metadata temporal_metadata]. by rewrite temporal_metadata_ok.
Qed.
Lemma no_temporal_match_ok :
  is_ok (mk_ProvenanceRecord
    {| pv_source := "temporal_policy"; pv_kind := "finding"; pv_code := "temporal.no-match";
       pv_summary := None; pv_decision := None; pv_risk := None; pv_effect := None;
       pv_resource := None; pv_rule_id := None; pv_action_id := None; pv_category := None;
       pv_indices := []; pv_metadata := metadata |}) = true.
Proof.
  unfold mk_ProvenanceRecord. cbn -[check_metadata temporal_metadata].
  by rewrite temporal_metadata_ok.
Qed.
Lemma temporal_merge_ok base decision risk :
  mem (av_risk base) VALID_RISKS = true → mem risk VALID_RISKS = true →
  is_ok (mk_ProvenanceRecord (temporal_merge_record base decision risk metadata)) = true.
Proof.
  intros Hb Hr. unfold mk_ProvenanceRecord, temporal_merge_record.
  cbn -[MAX_PROVENANCE_TEXT Nat.leb check_metadata mem VALID_RISKS temporal_metadata].
  rewrite Hr. cbn -[MAX_PROVENANCE_TEXT Nat.leb check_metadata temporal_metadata].
  cbn [check_metadata].
  assert (∀ s, String.length s ≤ 256 → (String.length s <=? MAX_PROVENANCE_TEXT) = true) as Hs
    by (intros s ?; apply Nat.leb_le; pose proof small_text; lia).
  rewrite (Hs (decision_str (av_decision base))) by (apply Nat.leb_le; by destruct (av_decision base)).
  rewrite (Hs (av_risk base)).
  2: { apply mem_elem_of in Hb. apply Nat.leb_le.
       assert (forallb (λ s, String.length s <=? 256) VALID_RISKS = true) as Hall by reflexivity.
       rewrite forallb_forall in Hall. by apply Hall, list_elem_of_In. }
  cbn -[check_metadata temporal_metadata]. by rewrite temporal_metadata_ok.
Qed.

(** Matches are recorded unless the provenance has no room for one record each
    and one more. *)
Lemma apply_matches_room base q ev :
  coherent base → av_provenance base = Some q → matches_raising (te_matches ev) →
  Forall recordable (te_matches ev) →
  (MAX_PROVENANCE_RECORDS < length (records q) + S (length (te_matches ev)) ∧
   apply_matches digest policy base ev
   = Err (ValueError "provenance supports at most 512 records")) ∨
  ∃ r, apply_matches digest policy base ev = Ok r.
Proof.
  intros [Hvr Hco] Hq Hms Hrec. destruct (Hco q Hq) as [_ Hfr].
  assert (mem (final_risk q) VALID_RISKS = true) as Hfinal by by rewrite Hfr.
  unfold apply_matches, apply_matches_by, TemporalEvaluation_risk.
  rewrite (provenance_of_some _ _ Hq). cbn [mbind res_bind].
  destruct (decide (te_matches ev = [])) as [E|Hne].
  { rewrite E. pose proof no_temporal_match_ok as Hno.
    destruct (mk_ProvenanceRecord _) as [record|]; [|done]. cbn [mbind res_bind].
    rewrite append_ok by done. cbn [length]. 
    destruct (Nat.leb_spec (length (records q) + 1) MAX_PROVENANCE_RECORDS); [right|left];
      cbn; eauto. }
  destruct (highest_match (te_matches ev) Hne Hms) as (t & Ht & _ & Hraise & _).
  pose proof (max_risk_valid _ _ (valid_risks_valid _ Hvr) (raising_valid t Hraise)) as Hmr.
  rewrite Ht. destruct (te_matches ev) as [|m0 ms'] eqn:E; [done|]. rewrite <- E in *.
  cbn [mbind res_bind]. rewrite Hmr. cbn [mbind res_bind].
  destruct (max_risk_inv _ _ _ Hmr) as (_ & _ & Hvc & _).
  set (risk := if _ <? _ then t else av_risk base) in *.
  assert (mem risk VALID_RISKS = true) as Hr.
  { clearbody risk. apply valid_risk_cases in Hvc. by destruct Hvc as [->|[->|[->|[->| ->]]]]. }
  rewrite (all_ok_map_ok _ (temporal_record metadata))
    by (intros m Hm; rewrite Forall_forall in Hrec; by apply temporal_record_ok, Hrec).
  cbn [mbind res_bind].
  pose proof (temporal_merge_ok base (stronger_decision (av_decision base) (decision_for_risk t))
    risk Hvr Hr) as Hmerge.
  destruct (mk_ProvenanceRecord (temporal_merge_record _ _ _ _)) as [merged|]; [|done].
  cbn [mbind res_bind]. rewrite append_ok by (try done; by intros ? [= <-]).
  rewrite length_app, length_map. cbn [length].
  destruct (Nat.leb_spec (length (records q) + (length (te_matches ev) + 1))
    MAX_PROVENANCE_RECORDS); [right|left; split; [lia|done]]. eauto.
Qed.
End records.

(** ** Agreement *)
Section shell.
Context {score : Type} (close_to : score → score → bool).
Context (search : string → res (list (@SearchResult score))).
Context (default_policy : TemporalPolicySet).
Context (float_repr : Q → string) (digest : json → string).
Context `{RequestReaders}.
Context (st : Store).
Context (tool_semantics : option CompiledToolSemanticsRegistry).
Context (rest_semantics : option (list string)).
Context (Hst : store_ok st = true).
Context (Hsearch : ∀ q, is_ok (search q) = true).
Context (Hdefault : policy_ok (compile_temporal_policy default_policy)).

#[local] Abbreviation base_review := (_review_action_base close_to search default_policy st
                                        tool_semantics rest_semantics).
#[local] Abbreviation evidence_of := (_temporal_evidence_for_action close_to search default_policy
                                        float_repr st tool_semantics rest_semantics).
#[local] Abbreviation priors := (prior_evidence close_to search default_policy float_repr st
                                   tool_semantics rest_semantics).
#[local] Abbreviation review_of := (review_action close_to search default_policy float_repr digest st
                                      tool_semantics rest_semantics false (λ _, false) (λ _, false)).
#[local] Abbreviation command_review := (review_command close_to search st).

(** A shell action with this command and this context. *)
Definition runs (context : option ExecutionContext) (a : ActionEnvelope) (command : string) : Prop :=
  is_shell a = true ∧ shell_command a = Some command ∧ ac_context a = context.

Lemma shell_base a : is_shell a = true → base_review a = shell_review close_to search default_policy st a.
Proof.
  intros Ha. pose proof Ha as Hk. unfold is_shell in Hk. split_bools.
  match goal with H : (ac_kind a =s "shell") = true |- _ => apply eqb_true in H as Hkind end.
  unfold _review_action_base, rest_branch, mcp_control_branch, mcp_parameter_branch,
    graphql_branch, jsonrpc_branch, is_mcp_request, is_tool_call.
  rewrite Hkind. cbn -[shell_review unknown_review is_shell]. rewrite Ha.
  by destruct rest_semantics, tool_semantics.
Qed.

(** The base review of a shell action carries the verdict of the command
    review without a trace. *)
Lemma shell_base_verdict context a command :
  runs context a command →
  value_error (base_review a) ∧
  ∃ rr v, check_command st command context = Ok rr ∧
    command_review (compile_temporal_policy default_policy) command (ac_intent a) context None
      (Some rr) = Ok v ∧ review_verdict rr {| trace_length := 0; findings := [] |} v ∧
    ∀ base, base_review a = Ok base →
      av_decision base = cr_decision v ∧ av_risk base = cr_risk v ∧
      av_reasons base = cr_reasons v ∧ av_intent_alignment base = cr_intent_alignment v.
Proof.
  intros (Hs & Hc & Hctx). rewrite (shell_base a Hs). unfold shell_review. rewrite Hc, Hctx.
  destruct (check_command_ok st command context Hst) as (rr & Hrr & _).
  assert (consistent rr) as Hcons by by eapply check_command_consistent.
  destruct (review_command_ok close_to search st (compile_temporal_policy default_policy) command
    (ac_intent a) context None Hst Hdefault Hsearch) as (v & rr' & t & Hv & Hrr' & Ht & Hverdict).
  rewrite Hrr in Hrr'. injection Hrr' as <-. cbn in Ht. injection Ht as <-.
  assert (command_review (compile_temporal_policy default_policy) command (ac_intent a) context
    None (Some rr) = Ok v) as Hv'.
  { revert Hv. unfold review_command. by rewrite Hrr. }
  rewrite Hrr. cbn [mbind res_bind]. rewrite Hv'. cbn [mbind res_bind].
  pose proof (semantics_for_command_total st command context Hst) as Hsem.
  destruct (semantic_evidence_for_command st command context) as [sem|]; [|done].
  cbn [mbind res_bind]. split; [value_errors|].
  exists rr, v. split_and!; try done. intros base Hb. inv_res.
  match goal with H : _with_base_provenance _ _ _ = Ok _ |- _ =>
    apply with_base_provenance_inv in H as (p & -> & _); [|done] end.
  done.
Qed.

(** The evidence of a shell action is the command's with the predictions. *)
Lemma shell_evidence context a command review :
  runs context a command →
  ∃ e, temporal_evidence_for_command st command context None = Ok e ∧
    evidence_of a review None false false None = Ok (with_observed a (ae_signals e) None, None) ∧
    ae_kind e = ac_kind a ∧ ae_operation e = ac_operation a.
Proof.
  intros (Hs & Hc & Hctx). pose proof (temporal_evidence_total st command context None Hst) as Ht.
  destruct (temporal_evidence_for_command st command context None) as [e|] eqn:He; [|done].
  exists e. split; [done|]. unfold _temporal_evidence_for_action, predicted_signals.
  rewrite Hs, Hc, Hctx, He. split; [done|].
  unfold is_shell in Hs. split_bools. rewrite !eqb_true in *.
  unfold temporal_evidence_for_command in He. inv_res. by split.
Qed.

Lemma shell_priors context rules index hs cs :
  names_no_prediction rules → Forall2 (runs context) hs cs →
  ∃ es es', all_ok (map (λ c, temporal_evidence_for_command st c context None) cs) = Ok es ∧
    priors [] (λ _, false) (λ _, false) index hs None = Ok (es', None) ∧
    Forall2 (alike rules) es' es.
Proof.
  intros Hn Hall. revert index. induction Hall as [|a c hs cs Ha _ IH]; intros index.
  { exists [], []. by split_and!. }
  destruct (shell_evidence context a c None Ha) as (e & He & Hev & Hk & Ho).
  destruct (IH (S index)) as (es & es' & Hes & Hes' & Hlike).
  exists (e :: es), (with_observed a (ae_signals e) None :: es'). cbn [map all_ok prior_evidence].
  rewrite He, Hes. cbn [mbind res_bind].
  assert (observation_of [] a = None) as -> by (unfold observation_of; by destruct (ac_action_id a)).
  rewrite Hev. cbn [mbind res_bind fst snd]. rewrite Hes'. split_and!; try done.
  constructor; [by apply with_observed_alike|done].
Qed.

(** The same maximum, reached in two orders. *)
Lemma same_risk (a b : string) :
  valid_risk a = true → valid_risk b = true → rank a ≤ rank b → rank b ≤ rank a → a = b.
Proof. intros Ha Hb H1 H2. apply rank_inj; [done|done|lia]. Qed.

Lemma apply_matches_raises policy b evaluation :
  valid_risk (av_risk b) = true → (∃ q, av_provenance b = Some q) →
  matches_raising (te_matches evaluation) →
  value_error (apply_matches digest policy b evaluation).
Proof.
  intros Hv [q Hq] Hms. unfold apply_matches, apply_matches_by, TemporalEvaluation_risk.
  rewrite (provenance_of_some _ _ Hq). cbn [mbind res_bind].
  assert (Forall (λ risk, valid_risk risk = true) (map tm_risk (te_matches evaluation))) as Hvalid.
  { apply Forall_fmap. eapply Forall_impl; [exact Hms|]. intros m. apply raising_valid. }
  pose proof Hvalid as Hspec. apply highest_risk_spec in Hspec.
  destruct (te_matches evaluation) as [|m ms]; [value_errors|].
  destruct Hspec as (t & Ht & Hin & _). cbn [map] in Ht, Hin, Hvalid |- *. rewrite Ht.
  rewrite Forall_forall in Hvalid. apply Hvalid in Hin.
  cbn [mbind res_bind]. rewrite (max_risk_valid _ _ Hv Hin). cbn [mbind res_bind].
  apply value_error_bind; [apply value_error_all|intros ? _; value_errors].
  intros x [->|(? & -> & _)%list_elem_of_fmap]%elem_of_cons; value_errors.
Qed.

(** Both verdicts are the highest of the same risks. *)
Lemma verdicts_agree rr t0 t v0 v b ms (r : ActionReview) metadata :
  consistent rr → findings t0 = [] → map tf_risk (findings t) = map tm_risk ms →
  cr_intent_alignment v0 = cr_intent_alignment v →
  review_verdict rr t0 v0 → review_verdict rr t v →
  av_decision b = cr_decision v0 → av_risk b = cr_risk v0 →
  valid_risk (cr_risk v) = true → history_verdict metadata b ms r →
  av_decision r = cr_decision v ∧ av_risk r = cr_risk v.
Proof.
  intros Hc Ht0 Hms Hal Hv0 Hv Hbd Hbr Hvv Hr.
  assert (∀ risk, risk ∈ map tm_risk ms → rank risk ≤ rank (cr_risk v)) as Hv_over.
  { intros risk. rewrite <- Hms. intros (f & -> & Hf)%list_elem_of_fmap.
    by apply (review_findings _ _ _ Hv f). }
  assert (∀ risk, risk ∈ map tm_risk ms → rank risk ≤ rank (av_risk r)) as Hr_over.
  { intros risk (m & -> & Hm)%list_elem_of_fmap. by apply (hv_matches _ _ _ _ Hr m). }
  assert (rank (av_risk b) ≤ rank (cr_risk v)) as Hb_v.
  { rewrite Hbr. destruct (review_source _ _ _ Hv0) as [->|[(f & Hf & _)|[Hm ->]]].
    - apply (review_from_risk _ _ _ Hv).
    - rewrite Ht0 in Hf. by apply elem_of_nil in Hf.
    - apply (review_mismatch _ _ _ Hv). by rewrite <- Hal. }
  assert (av_risk r = cr_risk v) as Hrisk.
  { apply same_risk.
    - apply valid_risks_valid. apply (hv_coherent _ _ _ _ Hr).
    - done.
    - destruct (hv_risk _ _ _ _ Hr) as [->|Hin]; [done|by apply Hv_over].
    - pose proof (hv_base _ _ _ _ Hr) as Hb. rewrite Hbr in Hb.
      destruct (review_source _ _ _ Hv) as [->|[(f & Hf & ->)|[Hm ->]]].
      + pose proof (review_from_risk _ _ _ Hv0). lia.
      + apply Hr_over. rewrite <- Hms. by apply list_elem_of_fmap_2.
      + rewrite <- Hal in Hm. pose proof (review_mismatch _ _ _ Hv0 Hm) as [? _]. lia. }
  split; [|done]. rewrite (review_consistent _ _ _ Hv), <- Hrisk.
  apply (hv_consistent _ _ _ _ Hr). rewrite Hbd, Hbr. apply (review_consistent _ _ _ Hv0).
Qed.

Lemma verdict_valid rr t v :
  consistent rr → Forall raising (map tf_risk (findings t)) → review_verdict rr t v →
  valid_risk (cr_risk v) = true.
Proof.
  intros [_ Hc] Ht Hv. rewrite Forall_forall in Ht.
  destruct (review_source _ _ _ Hv) as [->|[(f & Hf & ->)|[_ ->]]]; [done| |done].
  apply raising_valid, Ht. by apply list_elem_of_fmap_2.
Qed.

(** The trace that runs these commands. *)
Definition trace_of_commands (cs : list string) : option ActionTrace :=
  Some {| trace_actions := map (λ c, {| trace_command := c |}) cs |}.

Lemma shell_trajectory context rules cs es command rr e current :
  all_ok (map (λ c, temporal_evidence_for_command st c context None) cs) = Ok es →
  check_command st command context = Ok rr → current = None ∨ current = Some rr →
  temporal_evidence_for_command st command context None = Ok e → cs ≠ [] →
  evaluate_trajectory st rules (trace_of_commands cs) command context current
  = Ok {| trace_length := length cs;
          findings := map finding_of_match (te_matches (evaluate_policy rules es e)) |}.
Proof.
  intros Hes Hrr Hcurrent He Hne. unfold evaluate_trajectory, trace_of_commands. cbn [trace_actions].
  assert (all_ok (map (λ a, temporal_evidence_for_command st (trace_command a) context None)
    (map (λ c, {| trace_command := c |}) cs)) = Ok es) as Hes' by by rewrite map_map.
  destruct cs as [|c cs]; [done|]. cbn [map] in Hes' |- *. rewrite Hes'. cbn [mbind res_bind].
  assert (temporal_evidence_for_command st command context current = Ok e) as ->.
  { destruct Hcurrent as [-> | ->]; [done|].
    revert He. unfold temporal_evidence_for_command. by rewrite Hrr. }
  cbn [mbind res_bind length]. by rewrite length_map.
Qed.

Definition no_trajectory : TrajectoryEvaluation := {| trace_length := 0; findings := [] |}.

Lemma unchanged_verdict metadata base :
  coherent base → (∃ q, av_provenance base = Some q) → history_verdict metadata base [] base.
Proof.
  intros Hco [q Hq]. split; auto; try done.
  - by intros m ?%elem_of_nil.
  - exists q, q, []. rewrite app_nil_r. split_and!; try done. by intros m ?%elem_of_nil.
Qed.

(** What a shell review with history has in common with the command review. *)
Definition agrees (r : ActionReview) (v : CommandReview) : Prop :=
  av_decision r = cr_decision v ∧ av_risk r = cr_risk v ∧
  av_intent_alignment r = cr_intent_alignment v.

Lemma same_alignment context a command rr v0 rules trace v :
  command_review (compile_temporal_policy default_policy) command (ac_intent a) context None
    (Some rr) = Ok v0 →
  command_review rules command (ac_intent a) context trace None = Ok v →
  cr_intent_alignment v0 = cr_intent_alignment v.
Proof.
  intros (rel0 & Hs0 & Ha0 & _)%alignment_of_review (rel & Hs & Ha & _)%alignment_of_review.
  rewrite Hs in Hs0. injection Hs0 as <-. by rewrite Ha0, Ha.
Qed.

(** The base review and the matches of the trace give the verdict of the command
    review with the trace. *)
Section verdicts.
Context (rr : RiskReview) (v0 v : CommandReview) (base : ActionReview) (q : DecisionProvenance).
Hypothesis (Hcons : consistent rr) (Hco : coherent base) (Hq : av_provenance base = Some q).
Hypothesis (Hal : cr_intent_alignment v0 = cr_intent_alignment v).
Hypothesis (Hverdict0 : review_verdict rr no_trajectory v0).
Hypothesis (Hbase : av_decision base = cr_decision v0 ∧ av_risk base = cr_risk v0 ∧
  av_reasons base = cr_reasons v0 ∧ av_intent_alignment base = cr_intent_alignment v0).

Lemma base_agrees : review_verdict rr no_trajectory v → agrees base v.
Proof.
  intros Hverdict. destruct Hbase as (Hbd & Hbr & _ & Hba).
  destruct (verdicts_agree rr no_trajectory no_trajectory v0 v base [] base [] Hcons eq_refl
    eq_refl Hal Hverdict0 Hverdict Hbd Hbr) as [? ?];
    [|by apply unchanged_verdict; eauto|split_and!; [done..|by rewrite <- Hal]].
  by apply (verdict_valid rr no_trajectory v Hcons).
Qed.

Lemma matches_agree policy ev n r :
  matches_raising (te_matches ev) →
  review_verdict rr {| trace_length := n; findings := map finding_of_match (te_matches ev) |} v →
  apply_matches digest policy base ev = Ok r → agrees r v.
Proof.
  intros Hms Hverdict Hr. destruct Hbase as (Hbd & Hbr & _ & Hba).
  pose proof (apply_matches_verdict digest policy base (history_length ev) (te_matches ev) r Hco
    (ex_intro _ q Hq) Hms) as Hverd.
  assert ({| history_length := history_length ev; te_matches := te_matches ev |} = ev) as Eev
    by by destruct ev.
  rewrite Eev in Hverd. specialize (Hverd Hr).
  set (t := {| trace_length := n; findings := map finding_of_match (te_matches ev) |}) in *.
  assert (map tf_risk (findings t) = map tm_risk (te_matches ev)) as Hrisks
    by (unfold t; cbn [findings]; by rewrite map_map).
  destruct (verdicts_agree rr no_trajectory t v0 v base (te_matches ev) r
    (temporal_metadata digest policy) Hcons eq_refl Hrisks Hal Hverdict0
    Hverdict Hbd Hbr) as [? ?]; [|exact Hverd|].
  - apply (verdict_valid rr t v Hcons); [|exact Hverdict]. rewrite Hrisks. by apply Forall_fmap.
  - split_and!; [done..|]. destruct (hv_evidence _ _ _ _ Hverd) as (_ & _ & _ & _ & _ & ->).
    by rewrite Hba.
Qed.
End verdicts.

(** C28: the two entry points agree.  Take a shell action, a history of shell
    actions in the same context, and valid policies that name no predicted
    effects (with digests that fit a metadata text).  Either the review of the
    action raises [ValueError] on its own, and then with the history too; or the
    review with the history returns one with the decision, the risk and the
    intent alignment of the command review with the corresponding trace: what a
    command may do does not depend on the entry point, although one applies
    intent before history and the other history before intent.  The history adds
    a single reason to raise: that the provenance has no room for a record of
    each match and one more. *)
Theorem shell_history_agrees (context : option ExecutionContext) (action : ActionEnvelope)
    (command : string) (hs : list ActionEnvelope) (cs : list string)
    (policy : option TemporalPolicySet) :
  let applied := default default_policy policy in
  let rules := compile_temporal_policy applied in
  mk_TemporalPolicySet applied = Ok applied → policy_ok rules → names_no_prediction rules →
  (∀ j, String.length (digest j) ≤ MAX_PROVENANCE_TEXT) →
  runs context action command → Forall2 (runs context) hs cs →
  let with_history := review_of action (Some {| hi_actions := hs |}) None policy in
  match review_of action None None policy with
  | Err e => (∃ s, e = ValueError s) ∧ with_history = Err e
  | Ok base =>
      (∃ r v, with_history = Ok r ∧
         command_review rules command (ac_intent action) context (trace_of_commands cs) None = Ok v ∧
         agrees r v) ∨
      (∃ q t, av_provenance base = Some q ∧
         evaluate_trajectory st rules (trace_of_commands cs) command context None = Ok t ∧
         MAX_PROVENANCE_RECORDS < length (records q) + S (length (findings t)) ∧
         with_history = Err (ValueError "provenance supports at most 512 records"))
  end.
Proof.
  intros applied rules Hset Hp Hn Hd Ha Hh with_history.
  destruct (review_command_ok close_to search st rules command (ac_intent action) context
    (trace_of_commands cs) Hst Hp Hsearch) as (v & rr & t & Hv & Hrr & Ht & Hverdict).
  assert (consistent rr) as Hcons by by eapply check_command_consistent.
  destruct (shell_base_verdict context action command Ha)
    as (Hraise & rr' & v0 & Hrr' & Hv0 & Hverdict0 & Hbase).
  rewrite Hrr in Hrr'. injection Hrr' as <-.
  pose proof (same_alignment _ _ _ _ _ _ _ _ Hv0 Hv) as Hal.
  unfold with_history, review_action.
  destruct (value_error_ok _ Hraise) as [[base Hb]|[s Hb]]; rewrite Hb; [|split; [by exists s|done]].
  specialize (Hbase base Hb).
  destruct (base_review_well close_to search default_policy st tool_semantics rest_semantics
    action base Hb) as (_ & Hco & [q Hq] & _).
  cbn [mbind res_bind _observations_for_history _with_observation_provenance hi_actions].
  destruct Hh as [|h c hs cs Hhc Hh].
  { left. exists base, v. split; [done|]. split; [exact Hv|]. cbn in Ht. injection Ht as <-.
    by apply (base_agrees rr v0 v base q). }
  destruct (shell_priors context rules 0 (h :: hs) (c :: cs) Hn) as (es & es' & Hes & Hpr & Hlike);
    [by constructor|].
  destruct (shell_evidence context action command (Some base) Ha) as (e & He & Hev & Hk & Ho).
  pose proof (λ current H, shell_trajectory context rules (c :: cs) es command rr e current Hes Hrr H
    He ltac:(done)) as Htraj.
  rewrite (Htraj (Some rr)) in Ht by by right. injection Ht as <-.
  rewrite Hpr. cbn [mbind res_bind fst snd]. rewrite Hev.
  cbn [mbind res_bind fst snd]. fold applied rules.
  rewrite (evaluate_policy_alike rules es' es _ e Hlike) by (by apply with_observed_alike).
  set (ev := evaluate_policy rules es e) in *.
  assert (matches_raising (te_matches ev)) as Hms by by apply (evaluation_raising rules es e).
  assert (Forall recordable (te_matches ev)) as Hrec
    by (apply Forall_forall; intros m; by apply evaluation_recordable).
  destruct (apply_matches_room digest applied Hset Hd base q ev Hco Hq Hms Hrec)
    as [[Hroom Herr]|[r Hr]].
  { right. exists q. eexists. split; [done|]. split; [apply Htraj; by left|].
    cbn [findings]. by rewrite length_map. }
  left. exists r, v. split; [exact Hr|]. split; [exact Hv|].
  by apply (matches_agree rr v0 v base q Hcons Hco Hq Hal Hverdict0 Hbase applied ev _ r Hms Hverdict).
Qed.
End shell.
