(* ===== verification/ActionGate.v ===== *)
(** * The gate for actions ([ordin/api.py], [ordin/agent.py])

    [Ordin.review_action] applies the review, the action policy and the
    contract check in turn; the gate turns the result into a disposition.  The
    host has no audit sink, and no runtime requirements ([RuntimeReview] adds them).
    An approval is a
    value of a type of its own: whether the configured source accepts it, and
    whether it is fulfilled for a review when it is asked, are arguments. *)
From stdpp Require Import base list strings.
From Stdlib Require Import Bool Ascii ZArith QArith Lia.
From S2P Require Import Prelude PyStr Json JsonText Policy Context Catalog Risk Temporal Review.
From S2P Require Import Execution Provenance ActionModel RequestReaders ToolCalls Action.
From S2P Require Import ActionPolicy McpContracts Adapters ReviewFacts ActionPolicyFacts.
From S2P Require Import ActionFacts.
#[local] Open Scope py_scope.

(** The members of [Ordin] that an action review reads, besides those of a
    command review. *)
Record Host := {
  host : Ordin;
  host_action_policy : option CompiledActionPolicySet;
  host_temporal_policy : option TemporalPolicySet;
  host_tool_semantics : option CompiledToolSemanticsRegistry;
  host_rest_semantics : option (list string) }.

(** A contract record that is not a match. *)
Definition contract_refused (r : ProvenanceRecord) : bool :=
  startswith (pv_code r) "mcp.contract." && negb (pv_code r =s "mcp.contract.matched").

(** [Ordin.allows] of an action review. *)
Definition allows_action (h : Host) (review : ActionReview) : res bool :=
  match av_provenance review with
  | Some p => if existsb contract_refused (records p) then Ok false
              else allows (or_policy (host h)) review
  | None => allows (or_policy (host h)) review
  end.

Definition action_disposition (h : Host) (review : ActionReview) : res AgentDisposition :=
  if blocked (av_decision review) then Ok Deny
  else a ← allows_action h review;
       if a : bool then Ok Execute else Ok Escalate.

Section gate.
Context {score : Type} (close_to : score → score → bool).
Context (search : string → res (list (@SearchResult score))).
Context (default_policy : TemporalPolicySet).
Context (float_repr : Q → string) (digest : json → string).
Context `{RequestReaders}.
Context (st : Store).
(** The answers of [prediction_reuse_allowed()] during a review. *)
Context (reuse_start : bool) (reuse keep : nat → bool).

(** The action with the host's context where it has none. *)
Definition with_host_context (h : Host) (action : ActionEnvelope) : res ActionEnvelope :=
  match ac_context action, or_context (host h) with
  | None, Some context =>
      mk_ActionEnvelope
        {| ac_kind := ac_kind action; ac_operation := ac_operation action;
           ac_parameters := ac_parameters action; ac_intent := ac_intent action;
           ac_context := Some context; ac_action_id := ac_action_id action |}
  | _, _ => Ok action
  end.

Definition host_review_action (h : Host) (action : ActionEnvelope)
    (history : option ActionHistory) (obs : option ObservationHistory)
    (contract_check : option MCPContractCheck) : res ActionReview :=
  parsed ← with_host_context h action;
  result ← review_action close_to search default_policy float_repr digest st
             (host_tool_semantics h) (host_rest_semantics h) reuse_start reuse keep
             parsed history obs (host_temporal_policy h);
  result ← match host_action_policy h with
           | Some policy => apply digest policy result
           | None => Ok result
           end;
  match contract_check with
  | Some c => check_apply c result
  | None => Ok result
  end.

(** ** The gate *)

Section approvals.
Context {Proof : Type} (accepts : Proof → bool).
(** Asked at a later time than the review. *)
Context (fulfilled : Proof → ActionReview → bool).

Record ActionDecision := {
  xd_disposition : AgentDisposition;
  xd_review : ActionReview;
  xd_proof : option Proof }.

Definition evaluate_action (h : Host) (action : ActionEnvelope) (history : option ActionHistory)
    (obs : option ObservationHistory) (contract_check : option MCPContractCheck)
    (approval_satisfaction : option Proof) : res ActionDecision :=
  review ← host_review_action h action history obs contract_check;
  disposition ← action_disposition h review;
  Ok {| xd_disposition := disposition; xd_review := review;
        xd_proof := match approval_satisfaction with
                    | Some proof => if accepts proof then Some proof else None
                    | None => None
                    end |}.

Definition evaluate_tool (h : Host) (adapter : ToolCallAdapter) (tool : string)
    (arguments : option (list (string * json))) (intent : option string)
    (context : option ExecutionContext) (action_id : option string)
    (history : option ActionHistory) (obs : option ObservationHistory) : res ActionDecision :=
  action ← adapt_tool tool arguments intent context action_id adapter;
  evaluate_action h action history obs None None.

Definition evaluate_mcp (h : Host) (adapter : MCPAdapter) (tool : string)
    (arguments : option (list (string * json))) (intent : option string)
    (context : option ExecutionContext) (action_id : option string)
    (history : option ActionHistory) (obs : option ObservationHistory) : res ActionDecision :=
  action ← adapt_mcp tool arguments intent context action_id adapter;
  evaluate_action h action history obs None None.

(** The properties of the decision. *)
Definition approval_fulfilled (d : ActionDecision) : bool :=
  negb (bool_decide (xd_disposition d = Deny))
  && match xd_proof d with Some proof => fulfilled proof (xd_review d) | None => false end.
Definition action_eligibility (d : ActionDecision) : string :=
  if approval_fulfilled d then "approved"
  else if bool_decide (xd_disposition d = Execute) then "eligible"
  else if bool_decide (xd_disposition d = Deny) then "denied"
  else "approval_required".
Definition action_may_execute (d : ActionDecision) : bool :=
  bool_decide (xd_disposition d = Execute) || approval_fulfilled d.
Definition action_requires_approval (d : ActionDecision) : bool :=
  bool_decide (xd_disposition d = Escalate) && negb (approval_fulfilled d).
Definition action_denied (d : ActionDecision) : bool := bool_decide (xd_disposition d = Deny).
End approvals.
End gate.

(** ** What the gate executes *)

#[local] Open Scope py_scope.
#[local] Open Scope nat_scope.

(** ** Steps after the review *)

Lemma apply_inv digest p review review' :
  apply digest (compile_action_policy p) review = Ok review' →
  av_action review' = av_action review ∧
  is_strongest (av_decision review') (av_decision review :: map pl_decision (met p review)).
Proof.
  pose proof (merge_decision_strongest digest p review) as Hmax.
  pose proof (evaluate_decision digest p review) as Hdec.
  pose proof (evaluate_matches digest p review) as Hms.
  unfold apply. rewrite Hms. destruct (met p review) as [|r rs] eqn:Hmet; cbn [map];
    intros H; apply res_bind_ok in H as (q & _ & H); injection H as <-; (split; [done|]).
  - unfold merge_decision in Hmax. rewrite Hdec in Hmax. exact Hmax.
  - exact Hmax.
Qed.

Lemma strongest_block d l : is_strongest d l → Block ∈ l → d = Block.
Proof. intros [_ Hmax] Hb. apply Hmax in Hb. destruct d; cbn in Hb; [lia..|done]. Qed.

Lemma unmatched_code status :
  status ≠ "matched" →
  startswith ("mcp.contract." +:+ status) "mcp.contract." = true ∧
  (("mcp.contract." +:+ status) =s "mcp.contract.matched") = false.
Proof.
  intros Hs. split; [apply startswith_app|].
  destruct (String.eqb_spec ("mcp.contract." +:+ status) "mcp.contract.matched") as [He|]; [|done].
  exfalso. apply Hs. change "mcp.contract.matched" with ("mcp.contract." +:+ "matched") in He.
  cbn in He. by injection He.
Qed.

(** What a contract check leaves. *)
Lemma check_apply_inv c review review' :
  check_apply c review = Ok review' →
  av_action review' = av_action review ∧ av_decision review' = check_decision c review ∧
  (verified c = false → ∃ q r, av_provenance review' = Some q ∧ r ∈ records q ∧
     contract_refused r = true).
Proof.
  unfold check_apply. intros H. inv_res. cbn [av_action av_decision av_provenance].
  split; [done|]. split; [done|]. intros Hv.
  match goal with E : append _ _ _ _ = Ok ?q |- _ => apply append_inv in E as (Hrec & _); exists q end.
  match goal with E : mk_ProvenanceRecord _ = Ok ?r |- _ => apply mk_record_id in E as ->; eexists end.
  split; [done|]. split; [rewrite Hrec; apply elem_of_app; right; left|].
  unfold contract_refused, check_record. cbn [pv_code].
  assert (ck_status c ≠ "matched") as Hs.
  { intros Hs. unfold verified in Hv. by rewrite Hs in Hv. }
  destruct (unmatched_code _ Hs) as [-> ->]. done.
Qed.

(** [allows] of a review with its own decision. *)
Lemma allows_review p (review : ActionReview) :
  allows p review
  = Ok (ENFORCEMENT_ORDER (av_decision review) <? ENFORCEMENT_ORDER (threshold_decision (fail_on p))).
Proof.
  unfold allows, decision_value, decision_attr, ActionReview_SupportsDecision.
  by rewrite validate_decision_str.
Qed.

(** A contract record that is not a match is in the provenance. *)
Definition contract_open (review : ActionReview) : bool :=
  match av_provenance review with Some q => existsb contract_refused (records q) | None => false end.

Lemma disposition_cases h review d :
  action_disposition h review = Ok d →
  (d = Deny ↔ av_decision review = Block) ∧
  (d = Execute ↔ contract_open review = false ∧
     ENFORCEMENT_ORDER (av_decision review)
     < ENFORCEMENT_ORDER (threshold_decision (fail_on (or_policy (host h))))).
Proof.
  unfold action_disposition, allows_action, contract_open, blocked.
  intros H. case_bool_decide as Hb.
  { injection H as <-. split; [done|]. split; [done|]. rewrite Hb. intros [_ Hlt].
    destruct (fail_on _); cbn in Hlt; lia. }
  assert (∀ a : bool, (if a then Ok Execute else Ok Escalate) = Ok d →
    (d = Deny ↔ av_decision review = Block) ∧ (d = Execute ↔ a = true)) as Hcase.
  { intros [] [= <-]; naive_solver. }
  destruct (av_provenance review) as [q|]; [destruct (existsb contract_refused (records q))|].
  - apply (Hcase false) in H as [? He]. split; [done|]. rewrite He. naive_solver.
  - rewrite allows_review in H. apply Hcase in H as [? He]. split; [done|].
    rewrite He, Nat.ltb_lt. naive_solver.
  - rewrite allows_review in H. apply Hcase in H as [? He]. split; [done|].
    rewrite He, Nat.ltb_lt. naive_solver.
Qed.

Section gate.
Context {score : Type} (close_to : score → score → bool).
Context (search : string → res (list (@SearchResult score))).
Context (default_policy : TemporalPolicySet).
Context (float_repr : Q → string) (digest : json → string).
Context `{RequestReaders}.
Context (st : Store).
Context (reuse_start : bool) (reuse keep : nat → bool).
Context {Proof : Type} (accepts : Proof → bool) (fulfilled : Proof → ActionReview → bool).

#[local] Abbreviation host_review := (host_review_action close_to search default_policy float_repr
                                        digest st reuse_start reuse keep).
#[local] Abbreviation decide_action := (evaluate_action close_to search default_policy float_repr digest
                                          st reuse_start reuse keep accepts).

(** The host's temporal policies are valid. *)
Definition host_ok (h : Host) : Prop :=
  policy_ok (compile_temporal_policy (default default_policy (host_temporal_policy h))) ∧
  ∀ p, host_action_policy h = Some p → ∃ s, p = compile_action_policy s.

Lemma review_action_blocked tools rest action history obs policy base r :
  policy_ok (compile_temporal_policy (default default_policy policy)) →
  _review_action_base close_to search default_policy st tools rest action = Ok base →
  review_action close_to search default_policy float_repr digest st tools rest reuse_start reuse keep
    action history obs policy = Ok r →
  av_decision base = Block → av_decision r = Block.
Proof.
  intros Hp Hbase Hr Hb. unfold review_action in Hr. rewrite Hbase in Hr. cbn [mbind res_bind] in Hr.
  apply res_bind_ok in Hr as (m & _ & Hr). apply res_bind_ok in Hr as (b & Hob & Hr).
  destruct (base_review_well _ _ _ _ _ _ _ _ Hbase) as (_ & Hco & Hprov & _).
  destruct (observation_coherent _ _ _ _ Hco Hprov Hob) as [Hcob Hprovb].
  assert (av_decision b = Block) as Hbb.
  { apply observation_provenance_inv in Hob as [->|(? & ? & ? & _ & -> & _)]; done. }
  destruct history as [h|]; [|by injection Hr as <-].
  destruct (hi_actions h) as [|a l]; [by injection Hr as <-|].
  apply res_bind_ok in Hr as (prior & _ & Hr). apply res_bind_ok in Hr as (current & _ & Hr).
  eapply apply_matches_verdict in Hr; [|done|done|by apply evaluation_raising].
  pose proof (hv_weaker _ _ _ _ Hr) as Hw. rewrite Hbb in Hw.
  unfold weaker in Hw. destruct (av_decision r); cbn in Hw; [lia..|done].
Qed.

(** C26: the gate executes only what may run.  Whatever history, observations,
    policies, contract check and approval the caller gives, a decision of the
    gate denies exactly the blocked reviews, and an action whose base review
    blocks is denied; it executes without approval exactly when the policy
    threshold allows the review's decision and no contract record other than a
    match is in its provenance, so never with a check that failed; an approval
    counts only when the configured source accepts it, it is fulfilled for this
    very review, and the action is not denied. *)
Theorem action_gate_sound (h : Host) (action parsed : ActionEnvelope) (base : ActionReview)
    (history : option ActionHistory) (obs : option ObservationHistory)
    (check : option MCPContractCheck) (proof : option Proof) (d : ActionDecision (Proof := Proof)) :
  host_ok h → with_host_context h action = Ok parsed →
  _review_action_base close_to search default_policy st (host_tool_semantics h)
    (host_rest_semantics h) parsed = Ok base →
  decide_action h action history obs check proof = Ok d →
  (action_denied d = true ↔ av_decision (xd_review d) = Block) ∧
  (av_decision base = Block → action_denied d = true) ∧
  (xd_disposition d = Execute ↔ contract_open (xd_review d) = false ∧
     ENFORCEMENT_ORDER (av_decision (xd_review d))
     < ENFORCEMENT_ORDER (threshold_decision (fail_on (or_policy (host h))))) ∧
  (∀ c, check = Some c → verified c = false → xd_disposition d ≠ Execute) ∧
  (action_may_execute fulfilled d = true ↔
     xd_disposition d = Execute ∨
     (action_denied d = false ∧ ∃ p, proof = Some p ∧ accepts p = true ∧
                                     fulfilled p (xd_review d) = true)).
Proof using Type.
  intros [Htemporal Hpolicy] Hparsed Hbase Hd. unfold evaluate_action in Hd.
  apply res_bind_ok in Hd as (review & Hreview & Hd). apply res_bind_ok in Hd as (x & Hx & Hd).
  injection Hd as <-. cbn [xd_review xd_disposition action_denied].
  destruct (disposition_cases _ _ _ Hx) as [Hdeny Hexec].
  unfold host_review_action in Hreview. rewrite Hparsed in Hreview. cbn [mbind res_bind] in Hreview.
  apply res_bind_ok in Hreview as (r0 & Hr0 & Hreview).
  apply res_bind_ok in Hreview as (r1 & Hr1 & Hreview).
  split; [unfold action_denied; cbn; by rewrite bool_decide_eq_true|]. split.
  { intros Hb. unfold action_denied. cbn. apply bool_decide_eq_true, Hdeny.
    pose proof (review_action_blocked _ _ _ _ _ _ _ _ Htemporal Hbase Hr0 Hb) as Hb0.
    assert (av_decision r1 = Block) as Hb1.
    { destruct (host_action_policy h) as [p|] eqn:Hp; [|by injection Hr1 as <-].
      destruct (Hpolicy p eq_refl) as [s ->]. apply apply_inv in Hr1 as [_ Hs].
      eapply strongest_block; [exact Hs|]. rewrite Hb0. left. }
    destruct check as [c|]; [|by injection Hreview as <-].
    apply check_apply_inv in Hreview as (_ & -> & _). unfold check_decision, blocked.
    rewrite Hb1. by rewrite orb_true_r. }
  split; [exact Hexec|]. split.
  - intros c -> Hv He. apply Hexec in He as [Hopen _].
    apply check_apply_inv in Hreview as (_ & _ & Hrec).
    destruct (Hrec Hv) as (q & rec & Hq & Hin & Href). unfold contract_open in Hopen.
    rewrite Hq in Hopen. apply Bool.not_true_iff_false in Hopen. apply Hopen.
    apply existsb_exists. exists rec. split; [by apply list_elem_of_In|done].
  - unfold action_may_execute, approval_fulfilled, action_denied. cbn [xd_disposition xd_proof xd_review].
    rewrite orb_true_iff, andb_true_iff, bool_decide_eq_true, negb_true_iff, bool_decide_eq_false.
    destruct proof as [p|]; [|naive_solver]. destruct (accepts p) eqn:Ha; naive_solver.
Qed.
End gate.
