(* ===== verification/McpFacts.v ===== *)
(** * Theorems about contract pins ([ordin/mcp_contracts.py])

    The abstract discovery that an observer implements, and the refinement. *)
From stdpp Require Import base list strings pretty gmap sets sorting.
From Stdlib Require Import Bool Ascii ZArith QArith Lia.
From S2P Require Import Prelude PyStr Json Policy Execution Provenance ActionModel McpContracts.
#[local] Open Scope py_scope.
#[local] Open Scope nat_scope.

(** ** Digests raise nothing but [ValueError] *)

Lemma raises_text j label : value_error (_text j label).
Proof. unfold _text. value_errors. Qed.
#[export] Hint Resolve raises_text : raises.

(** A loop that maps every item raises what the items raise. *)
Lemma raises_loop {A B} (f : A → res B) l :
  Forall (λ x, value_error (f x)) l →
  value_error ((fix go (l : list A) : res (list B) :=
                  match l with
                  | [] => Ok []
                  | x :: l' => y ← f x; later ← go l'; Ok (y :: later)
                  end) l).
Proof.
  induction 1 as [|x l Hx _ IH]; [exact I|]. apply value_error_bind; [exact Hx|intros ? _].
  apply value_error_bind; [exact IH|intros; exact I].
Qed.
Lemma raises_member_loop {A B} (f : A → res B) (l : list (string * A)) :
  Forall (λ kv, value_error (f (snd kv))) l →
  value_error ((fix go (l : list (string * A)) : res (list (string * B)) :=
                  match l with
                  | [] => Ok []
                  | (k, x) :: l' => y ← f x; later ← go l'; Ok ((k, y) :: later)
                  end) l).
Proof.
  induction 1 as [|[k x] l Hx _ IH]; [exact I|]. apply value_error_bind; [exact Hx|intros ? _].
  apply value_error_bind; [exact IH|intros; exact I].
Qed.

Lemma raises_canonical value : ∀ depth, value_error (_canonical depth value).
Proof.
  induction value as [j Ha Ho|l IH|m IH] using json_induction; intros depth.
  - destruct j; cbn [_canonical]; try (by exfalso; eapply Ha); try (by exfalso; eapply Ho);
      try (unfold canonical_float); value_errors.
  - cbn [_canonical]. destruct (_ <? _); [exact I|].
    apply value_error_bind; [value_errors|intros ? _].
    apply value_error_bind; [|intros; exact I]. apply raises_loop.
    eapply Forall_impl; [exact IH|]. auto.
  - cbn [_canonical]. destruct (_ <? _); [exact I|].
    apply value_error_bind; [value_errors|intros ? _].
    apply value_error_bind; [|intros; exact I]. apply raises_member_loop.
    eapply Forall_impl; [exact IH|]. auto.
Qed.

Lemma raises_follow target parts : value_error (follow target parts).
Proof. revert target. induction parts as [|p ps IH]; intros target; cbn; value_errors. Qed.
#[export] Hint Resolve raises_canonical raises_follow : raises.
Lemma raises_keyword root key item : value_error (check_keyword root key item).
Proof.
  unfold check_keyword, check_reference.
  repeat (apply value_error_bind; [value_errors|intros ? _]); value_errors.
Qed.
#[export] Hint Resolve raises_keyword : raises.

(** The schemas that a value holds one level down. *)
Definition children_raise (root value : json) : Prop :=
  match value with
  | JObj m => Forall (λ kv, ∀ depth, value_error (_schema root depth (snd kv))) m
  | JArr l => Forall (λ x, ∀ depth, value_error (_schema root depth x)) l
  | _ => True
  end.

Lemma raises_schema_children root value :
  (∀ depth, value_error (_schema root depth value)) ∧ children_raise root value.
Proof.
  induction value as [j Ha Ho|l IH|m IH] using json_induction.
  - split; [intros depth|]; destruct j; cbn [_schema children_raise];
      try (by exfalso; eapply Ha); try (by exfalso; eapply Ho); value_errors.
  - split; [intros depth; cbn [_schema]; value_errors|].
    eapply Forall_impl; [exact IH|]. by intros x [].
  - split; [|eapply Forall_impl; [exact IH|]; by intros x []].
    intros depth. cbn [_schema]. destruct (_ <? _); [exact I|].
    apply value_error_bind; [|intros; exact I].
    induction IH as [|[key item] m [Hitem Hchildren] _ IHm]; [exact I|].
    cbn [snd] in Hitem, Hchildren.
    destruct (mem key SCHEMA_PROSE); [exact IHm|].
    apply value_error_bind; [value_errors|intros checked _].
    apply value_error_bind; [|intros; apply value_error_bind; [exact IHm|intros; exact I]].
    destruct (mem key _SCHEMA_MAPS); [|destruct (mem key _SCHEMA_ARRAYS);
      [|destruct (mem key _SCHEMA_VALUES); [apply Hitem|exact I]]].
    + destruct item as [| | | | | |children]; try exact I.
      apply value_error_bind; [|intros; exact I]. apply raises_member_loop.
      eapply Forall_impl; [exact Hchildren|]. auto.
    + destruct item as [| | | | |children|]; try exact I.
      assert (Forall (λ x, value_error (_schema root (S depth) x)) children) as Hloop.
      { eapply Forall_impl; [exact Hchildren|]. auto. }
      apply raises_loop in Hloop. destruct children; [exact I|].
      apply value_error_bind; [exact Hloop|intros; exact I].
Qed.

Lemma raises_schema root value depth : value_error (_schema root depth value).
Proof. apply raises_schema_children. Qed.
#[export] Hint Resolve raises_schema : raises.

Lemma raises_canonical_json float_repr value : value_error (canonical_json float_repr value).
Proof.
  unfold canonical_json, canonical_value.
  destruct (_canonical 0 value) as [c|e] eqn:E; cbn [mbind res_bind].
  - unfold guard_or. by destruct (_ <=? _).
  - pose proof (raises_canonical value 0) as Hr. rewrite E in Hr. exact Hr.
Qed.

Lemma raises_tool_digest float_repr sha256 tool : value_error (tool_contract_digest float_repr sha256 tool).
Proof.
  pose proof raises_canonical_json. unfold tool_contract_digest, canonical_tool_contract,
    contract_schema, canonical_value. value_errors.
Qed.

(** ** The discovery that an observer implements

    A discovery keeps the entries (tool name and contract digest) of the pages
    received so far, in order, and the cursors it has followed. *)
Inductive Discovery :=
  | Nothing (reason : string)
  | Asked (id : json) (followed : gset string) (entries : list (string * string))
  | Continues (next : string) (followed : gset string) (entries : list (string * string))
  | Completed (entries : list (string * string)).

(** An event of the connection: a [tools/list] request is forwarded, a message
    comes back, or the connection drops the inventory. *)
Inductive Event :=
  | Request (id : json) (params : list (string * json))
  | Response (id : json) (message : list (string * json))
  | Invalidate (reason : string).

Section discovery.
Context (float_repr : Q → string) (sha256 : string → string).
#[local] Abbreviation digest_of := (tool_contract_digest float_repr sha256).
#[local] Abbreviation bounded := (canonical_json float_repr).

(** A page is one array of named, digestible tools, and says where the next
    page is. *)
Definition tool_entry (tool : json) : option (string * string) :=
  if negb (is_mapping tool) then None else
  match _text (jget tool "name") "MCP tool", digest_of tool with
  | Ok name, Ok d => Some (name, d)
  | _, _ => None
  end.
Definition page_of (message : list (string * json))
  : option (list (string * string) * json) :=
  let result := default JNull (assoc_last "result" message) in
  match assoc_last "method" message, assoc_last "error" message, jget result "tools",
        bounded result with
  | None, None, JArr tools, Ok _ =>
      entries ← mapM tool_entry tools; Some (entries, jget result "nextCursor")
  | _, _, _, _ => None
  end.

(** Pages accumulate while their names are distinct and at most 256. *)
Definition accumulates (entries : list (string * string)) : bool :=
  bool_decide (NoDup (fst <$> entries)) && (length entries <=? MAX_CONTRACT_TOOLS).

Definition spec_request (id : json) (params : list (string * json)) (d : Discovery) : Discovery :=
  match d with
  | Asked _ _ _ => d
  | _ =>
      match default JNull (assoc_last "cursor" params), d with
      | JNull, _ => Asked id ∅ []
      | JStr c, Continues next followed entries =>
          if negb (c =s next) || bool_decide (c ∈ followed) then Nothing "ambiguous"
          else if MAX_CONTRACT_TOOLS <=? size followed then Nothing "invalid"
          else Asked id ({[c]} ∪ followed) entries
      | _, _ => Nothing "ambiguous"
      end
  end.
Definition spec_response (id : json) (message : list (string * json)) (d : Discovery)
  : Discovery :=
  match d with
  | Asked expected followed entries =>
      if negb (json_equal id expected) then d else
      match page_of message with
      | Some (new, next) =>
          if negb (accumulates (entries ++ new)) then Nothing "invalid" else
          match next with
          | JNull => Completed (entries ++ new)
          | JStr c =>
              if truthy c && (String.length c <=? Nat.pow 2 12) && bool_decide (c ∉ followed)
              then Continues c followed (entries ++ new) else Nothing "invalid"
          | _ => Nothing "invalid"
          end
      | None => Nothing "invalid"
      end
  | _ => d
  end.
Definition spec_step (d : Discovery) (e : Event) : Discovery :=
  match e with
  | Request id params => spec_request id params d
  | Response id message => spec_response id message d
  | Invalidate reason => Nothing reason
  end.

(** The observer under the same events; an error of [request] is the
    caller's, the state is the one it leaves. *)
Definition observer_step (o : res Observer) (e : Event) : res Observer :=
  o ← o;
  match e with
  | Request id params => Ok (fst (request id params o))
  | Response id message => fst <$> response digest_of bounded id message o
  | Invalidate reason => Ok (invalidate reason o)
  end.

Inductive observes (o : Observer) : Discovery → Prop :=
  | observes_nothing reason :
      live o = ∅ → building o = ∅ → pending o = None → cursor o = None →
      status o = reason → reason ≠ "complete" → observes o (Nothing reason)
  | observes_asked id followed entries :
      live o = ∅ → building o = list_to_map entries → accumulates entries = true →
      pending o = Some id → seen_cursors o = followed → status o = "unverified" →
      observes o (Asked id followed entries)
  | observes_continues next followed entries :
      live o = ∅ → building o = list_to_map entries → accumulates entries = true →
      pending o = None → cursor o = Some next → seen_cursors o = followed →
      status o = "unverified" → observes o (Continues next followed entries)
  | observes_completed entries :
      live o = list_to_map entries → building o = ∅ → accumulates entries = true →
      pending o = None → cursor o = None → status o = "complete" →
      observes o (Completed entries).

(** *** The loop over the tools of a page *)

Lemma accumulates_iff entries :
  accumulates entries = true ↔ NoDup (fst <$> entries) ∧ length entries <= MAX_CONTRACT_TOOLS.
Proof. unfold accumulates. by rewrite andb_true_iff, bool_decide_eq_true, Nat.leb_le. Qed.
Lemma accumulates_prefix entries new :
  accumulates (entries ++ new) = true → accumulates entries = true.
Proof.
  rewrite !accumulates_iff, fmap_app, length_app. intros [(H & _)%NoDup_app ?]. split; [done|lia].
Qed.
Lemma size_entries (entries : list (string * string)) :
  accumulates entries = true →
  size (list_to_map entries : gmap string string) = length entries.
Proof.
  intros [H _]%accumulates_iff. rewrite <-length_map_to_list.
  by rewrite (Permutation_length (map_to_list_to_map entries H)).
Qed.

Lemma tool_entry_some tool name d :
  tool_entry tool = Some (name, d) ↔
  is_mapping tool = true ∧ _text (jget tool "name") "MCP tool" = Ok name ∧ digest_of tool = Ok d.
Proof.
  unfold tool_entry. destruct (is_mapping tool); cbn [negb]; [|naive_solver].
  destruct (_text _ _), (digest_of tool); naive_solver.
Qed.

Definition accumulate (entries : list (string * string)) (tools : list json)
  : option (list (string * string)) :=
  new ← mapM tool_entry tools;
  if accumulates (entries ++ new) then Some (entries ++ new) else None.

Definition same_result {A B} (f : B → A) (m : res A) (spec : option B) : Prop :=
  match spec with Some b => m = Ok (f b) | None => ∃ s, m = Err (ValueError s) end.

Lemma accumulates_next entries name d :
  accumulates entries = true →
  accumulates (entries ++ [(name, d)]) =
  bool_decide ((list_to_map entries : gmap string string) !! name = None)
  && (size (list_to_map entries : gmap string string) <? MAX_CONTRACT_TOOLS).
Proof.
  intros Hacc. rewrite (size_entries _ Hacc). apply accumulates_iff in Hacc as [Hnd _].
  apply eq_true_iff_eq. rewrite accumulates_iff, andb_true_iff, bool_decide_eq_true, Nat.ltb_lt.
  rewrite fmap_app, length_app, NoDup_app; cbn [fmap list_fmap fst length].
  rewrite <-not_elem_of_list_to_map.
  split.
  - intros [(_ & Hd & _) ?]. split; [|lia]. intros Hin. by apply (Hd name Hin); left.
  - intros [Hn ?]. split; [|lia]. split; [done|]. split; [|apply NoDup_singleton].
    intros x Hx ->%list_elem_of_singleton. by apply Hn.
Qed.

Lemma add_tools_accumulate tools : ∀ entries,
  accumulates entries = true →
  same_result list_to_map (add_tools digest_of (list_to_map entries) tools) (accumulate entries tools).
Proof.
  unfold accumulate. induction tools as [|tool tools IH]; intros entries Hacc; cbn [add_tools mapM].
  - cbn. by rewrite app_nil_r, Hacc.
  - unfold tool_entry at 2. destruct (is_mapping tool); [|by eexists].
    cbn [negb guard_or mbind res_bind option_bind].
    pose proof (raises_text (jget tool "name") "MCP tool") as Hname.
    pose proof (raises_tool_digest float_repr sha256 tool) as Hdigest.
    destruct (_text _ _) as [name|e]; cbn [mbind res_bind];
      [|by destruct e; try done; eexists].
    destruct (digest_of tool) as [d|e] eqn:Ed; cbn [mbind res_bind option_bind].
    + pose proof (accumulates_next entries name d Hacc) as Hnext.
      rewrite <-Hnext. destruct (accumulates (entries ++ [(name, d)])) eqn:E; cbn [guard_or mbind res_bind].
      * specialize (IH _ E). symmetry in Hnext. apply andb_true_iff in Hnext as [Hn%bool_decide_eq_true _].
        rewrite list_to_map_snoc in IH by (by apply not_elem_of_list_to_map).
        destruct (mapM tool_entry tools) as [new|]; cbn [mbind option_bind mret option_ret] in *;
          [|exact IH]. by rewrite <-app_assoc in IH.
      * destruct (mapM tool_entry tools) as [new|]; cbn; [|by eexists].
        destruct (accumulates (entries ++ (name, d) :: new)) eqn:Enew; [|by eexists].
        rewrite (cons_middle (name, d) entries new), app_assoc in Enew.
        apply accumulates_prefix in Enew. congruence.
    + destruct e; try done. unfold guard_or. by destruct (_ && _); eexists.
Qed.

(** The page that [response] reads, over entries. *)
Definition spec_page (followed : gset string) (entries : list (string * string))
    (message : list (string * json)) : option (list (string * string) * option string) :=
  '(new, next) ← page_of message;
  if negb (accumulates (entries ++ new)) then None else
  match next with
  | JNull => Some (entries ++ new, None)
  | JStr c => if truthy c && (String.length c <=? Nat.pow 2 12) && bool_decide (c ∉ followed)
              then Some (entries ++ new, Some c) else None
  | _ => None
  end.

Lemma read_page_spec (o : Observer) entries message :
  building o = list_to_map entries → accumulates entries = true →
  same_result (prod_map list_to_map id) (read_page digest_of bounded o message)
    (spec_page (seen_cursors o) entries message).
Proof.
  intros Hb Hacc. unfold read_page, spec_page, page_of. rewrite Hb.
  destruct (assoc_last "method" message); cbn [bool_decide andb guard_or mbind res_bind]; [by eexists|].
  destruct (assoc_last "error" message); cbn [bool_decide andb guard_or mbind res_bind]; [by eexists|].
  set (result := default JNull (assoc_last "result" message)).
  destruct (jget result "tools") as [| | | | |tools|]; try by eexists.
  pose proof (raises_canonical_json float_repr result) as Hr.
  destruct (bounded result) as [text|e]; cbn [mbind res_bind]; [|by destruct e; try done; eexists].
  pose proof (add_tools_accumulate tools entries Hacc) as Hadd. unfold accumulate in Hadd.
  destruct (mapM tool_entry tools) as [new|]; cbn [mbind option_bind same_result] in *.
  - destruct (accumulates (entries ++ new)); cbn [negb].
    + rewrite Hadd. cbn [mbind res_bind].
      destruct (jget result "nextCursor"); cbn; try by eexists.
      by destruct (_ && _); cbn; eexists.
    + destruct Hadd as [m ->]. by eexists.
  - destruct Hadd as [m ->]. by eexists.
Qed.

(** *** The refinement *)

Lemma observes_invalidate reason o :
  reason ≠ "complete" → observes (invalidate reason o) (Nothing reason).
Proof. by constructor. Qed.

Lemma request_refines id params o d :
  observes o d → observes (fst (request id params o)) (spec_request id params d).
Proof.
  intros Ho. unfold request.
  destruct Ho as [reason Hl Hb Hp Hc Hs Hr|id' followed entries Hl Hb Hacc Hp Hf Hs
                 |next followed entries Hl Hb Hacc Hp Hc Hf Hs|entries Hl Hb Hacc Hp Hc Hs];
    rewrite Hp; cbn [fst spec_request]; [|by constructor| |];
    destruct (default JNull _) as [| | | |c| |];
    try (by apply observes_invalidate); try (by constructor); rewrite Hc;
    try (rewrite bool_decide_eq_false_2 by done; by apply observes_invalidate).
  assert (bool_decide (Some next = Some c) = (c =s next)) as ->.
  { apply eq_true_iff_eq. rewrite bool_decide_eq_true, String.eqb_eq. naive_solver. }
  rewrite Hf. destruct (negb _ || _); [by apply observes_invalidate|].
  destruct (_ <=? _); [by apply observes_invalidate|]. by constructor.
Qed.

Lemma response_refines id message o d :
  observes o d →
  ∃ o' answered, response digest_of bounded id message o = Ok (o', answered) ∧
                 observes o' (spec_response id message d).
Proof.
  intros Ho. unfold response.
  destruct Ho as [reason Hl Hb Hp Hc Hs Hr|id' followed entries Hl Hb Hacc Hp Hf Hs
                 |next followed entries Hl Hb Hacc Hp Hc Hf Hs|entries Hl Hb Hacc Hp Hc Hs];
    rewrite Hp; cbn [spec_response];
    try (eexists _, _; split; [reflexivity|by constructor]).
  destruct (json_equal id id'); cbn [negb];
    [|by eexists _, _; split; [reflexivity|constructor]].
  pose proof (read_page_spec o entries message Hb Hacc) as Hpage.
  unfold spec_page in Hpage. rewrite Hf in Hpage.
  destruct (page_of message) as [[new next]|]; cbn [mbind option_bind] in Hpage.
  2: { destruct Hpage as [s ->]. eexists _, _. split; [reflexivity|by constructor]. }
  destruct (accumulates (entries ++ new)) eqn:Hnew; cbn [negb] in *.
  2: { destruct Hpage as [s ->]. eexists _, _. split; [reflexivity|by constructor]. }
  destruct next as [| | | |c| |];
    try (destruct Hpage as [? Hpage]; rewrite Hpage; eexists _, _; split; [reflexivity|by constructor]).
  - rewrite Hpage. eexists _, _. split; [reflexivity|by constructor].
  - destruct (_ && _); [rewrite Hpage|destruct Hpage as [s ->]];
      eexists _, _; (split; [reflexivity|by constructor]).
Qed.

(** Events of a connection never report a completed discovery themselves. *)
Definition external (e : Event) : Prop :=
  match e with Invalidate reason => reason ≠ "complete" | _ => True end.

Lemma step_refines e o d :
  external e → observes o d →
  ∃ o', observer_step (Ok o) e = Ok o' ∧ observes o' (spec_step d e).
Proof.
  intros He Ho. destruct e as [id params|id message|reason]; cbn.
  - eexists. split; [done|]. by apply request_refines.
  - destruct (response_refines id message o d Ho) as (o' & answered & -> & Ho').
    by exists o'.
  - eexists. split; [done|]. by apply observes_invalidate.
Qed.

Lemma steps_refine events : ∀ o d,
  Forall external events → observes o d →
  ∃ o', foldl observer_step (Ok o) events = Ok o' ∧ observes o' (foldl spec_step d events).
Proof.
  induction events as [|e events IH]; intros o d Hext Ho; [by exists o|].
  inversion Hext as [|? ? He Hes]; subst. cbn [foldl].
  destruct (step_refines e o d He Ho) as (o' & -> & Ho'). by apply IH.
Qed.

(** No event changes what the observer compares against. *)
Definition frame (o : Observer) : string * MCPContractLock * string :=
  (ob_server o, ob_lock o, ob_semantics_digest o).

Lemma step_frame o e o' : observer_step (Ok o) e = Ok o' → frame o' = frame o.
Proof.
  destruct e as [id params|id message|reason]; cbn; [|unfold response|by intros [= <-]].
  - intros [= <-]. unfold request. by repeat case_match.
  - repeat case_match; cbn; intros; by simplify_eq.
Qed.
Lemma steps_frame events : ∀ o o',
  foldl observer_step (Ok o) events = Ok o' → frame o' = frame o.
Proof.
  induction events as [|e events IH]; intros o o'; cbn [foldl]; [by intros [= <-]|].
  destruct (observer_step (Ok o) e) as [o1|x] eqn:E.
  - intros H. rewrite (IH _ _ H). by apply (step_frame o e).
  - intros H. exfalso. revert H. clear. induction events; cbn; [done|]. by destruct a.
Qed.

(** The status that a discovery gives a tool under a lock. *)
Definition spec_status (lock : MCPContractLock) (server digest : string) (d : Discovery)
    (tool : string) : string :=
  if negb (digest =s semantics_digest lock) then "semantics_changed" else
  match pins lock !! (server, tool) with
  | None => "unpinned"
  | Some pin =>
      match d with
      | Nothing reason => reason
      | Asked _ _ _ | Continues _ _ _ => "unverified"
      | Completed entries =>
          match list_to_map (M := gmap string string) entries !! tool with
          | None => "missing"
          | Some live => if live =s pin then "matched" else "changed"
          end
      end
  end.

Lemma observes_status o d tool :
  observes o d → check_status o tool = spec_status (ob_lock o) (ob_server o) (ob_semantics_digest o) d tool.
Proof.
  intros Ho. unfold check_status, spec_status.
  destruct (negb (ob_semantics_digest o =s _)); [done|].
  destruct (pins (ob_lock o) !! _); [|done].
  destruct Ho as [reason Hl Hb Hp Hc Hs Hr|? ? ? ? ? ? ? ? Hs|? ? ? ? ? ? ? ? ? Hs|entries Hl ? ? ? ? Hs];
    rewrite Hs; try done.
  - apply String.eqb_neq in Hr. by rewrite Hr.
  - by rewrite Hl.
Qed.

(** C31: an observer refines the discovery specification: for every sequence of
    forwarded [tools/list] requests, responses (any JSON, in any order,
    correlated or not) and drops, the code's dictionaries, cursors and pending
    request never raise out of the handler, and the status it gives every tool
    is the one of the abstract discovery, which keeps only the list of entries
    of one unbroken chain of pages and starts again on any deviation. *)
Theorem observer_refines (server digest : string) (lock : MCPContractLock) (events : list Event)
    (Hexternal : Forall external events) :
  ∃ o, foldl observer_step (Ok (new_observer server lock digest)) events = Ok o ∧
       observes o (foldl spec_step (Nothing "missing") events) ∧
       ∀ tool, check_status o tool
               = spec_status lock server digest (foldl spec_step (Nothing "missing") events) tool.
Proof.
  destruct (steps_refine events (new_observer server lock digest) (Nothing "missing") Hexternal)
    as (o & Ho & Hobs); [by constructor|].
  exists o. split; [done|]. split; [done|]. intros tool.
  rewrite (observes_status o _ tool Hobs).
  pose proof (steps_frame _ _ _ Ho) as Hf. by injection Hf as -> -> ->.
Qed.

Lemma check_matched o tool c :
  check o tool = Ok c →
  verified c = (check_status o tool =s "matched") ∧
  (check_status o tool = "matched" → live o !! tool = pins (ob_lock o) !! (ob_server o, tool) ∧
                                     is_Some (live o !! tool)).
Proof.
  unfold check, mk_MCPContractCheck. intros H. inv_res.
  split; [done|]. intros Hm. unfold verified in *. cbn [ck_status expected_digest observed_digest] in *.
  rewrite Hm in *. cbn in *. split_bools.
  match goal with E : pins _ !! _ = live _ !! _ |- _ => rewrite <-E end.
  split; [done|]. by apply not_eq_None_Some.
Qed.

(** C32: a tool is verified only by the pinned contract: a check says [matched]
    exactly when the semantics digest is the lock's and the events end in a
    completed discovery (one chain of pages, no repeated name or cursor) that
    lists the tool with the digest that the lock pins. *)
Theorem verified_iff_pinned (server digest tool : string) (lock : MCPContractLock)
    (events : list Event) (o : Observer) (c : MCPContractCheck)
    (Hexternal : Forall external events)
    (Hrun : foldl observer_step (Ok (new_observer server lock digest)) events = Ok o)
    (Hcheck : check o tool = Ok c) :
  verified c = true ↔
  digest = semantics_digest lock ∧
  ∃ entries pin, foldl spec_step (Nothing "missing") events = Completed entries ∧
                 pins lock !! (server, tool) = Some pin ∧ (tool, pin) ∈ entries.
Proof.
  destruct (steps_refine events (new_observer server lock digest) (Nothing "missing") Hexternal)
    as (o' & Ho & Hobs); [by constructor|].
  rewrite Hrun in Ho. injection Ho as <-.
  pose proof (observes_status o _ tool Hobs) as Hs.
  pose proof (steps_frame _ _ _ Hrun) as Hf. injection Hf as E1 E2 E3. rewrite E1, E2, E3 in Hs.
  destruct (check_matched o tool c Hcheck) as [-> Hlive].
  rewrite String.eqb_eq, Hs. unfold spec_status.
  destruct (digest =s _) eqn:Ed; cbn [negb];
    [apply String.eqb_eq in Ed|apply String.eqb_neq in Ed; naive_solver].
  rewrite E1, E2, Hs in Hlive. unfold spec_status in Hlive. rewrite (proj2 (String.eqb_eq _ _) Ed) in Hlive.
  destruct (pins lock !! (server, tool)) as [pin|] eqn:Epin; [|naive_solver].
  destruct Hobs as [reason Hl ? ? ? <- Hr| | |entries Hl ? Hacc]; cbn [negb] in Hlive |- *.
  - rewrite Hl in Hlive. split; [|naive_solver]. intros E. exfalso.
    destruct (Hlive E) as [[=] _].
  - naive_solver.
  - naive_solver.
  - apply accumulates_iff in Hacc as [Hnd _].
    assert (∀ d, list_to_map (M := gmap string string) entries !! tool = Some d ↔ (tool, d) ∈ entries)
      as Hlook by (intros d; symmetry; by apply elem_of_list_to_map).
    specialize (Hlook pin). destruct (list_to_map entries !! tool) as [d|]; [|naive_solver].
    destruct (d =s pin) eqn:Ep; [apply String.eqb_eq in Ep|apply String.eqb_neq in Ep]; naive_solver.
Qed.
End discovery.
