(* ===== verification/JsonSchema.v ===== *)
(** * JSON schemas ([ordin/schema.py], [ordin/_runtime_schemas.py])

    The validation of a JSON value against a schema, and the schemas of the
    runtime contracts.  A schema of the code is a dictionary with known names;
    here it is a [schema], with the compiled pattern in place of its text, and
    a member that is absent is [None].  An error keeps the place and the
    member of the schema that failed, not the wording of its message. *)
From stdpp Require Import base list strings pretty.
From Stdlib Require Import Bool Ascii ZArith QArith Lia.
From stdpp Require Import base list strings.
From S2P Require Import Prelude PyStr Json Regex JsonText.
#[local] Open Scope py_scope.
#[local] Open Scope nat_scope.

Inductive schema := Schema {
  sc_type : option (list string);
  sc_const : option json;
  sc_enum : option (list json);
  sc_min_length : option nat;
  sc_max_length : option nat;
  sc_pattern : option regex;
  sc_minimum : option Z;
  sc_maximum : option Z;
  sc_unique_items : bool;
  sc_min_items : option nat;
  sc_max_items : option nat;
  sc_items : option schema;
  sc_max_properties : option nat;
  sc_required : list string;
  sc_properties : list (string * schema);
  (** additionalProperties: a truth value, or a schema *)
  sc_additional : bool;
  sc_additional_schema : option schema;
  sc_any_of : option (list schema);
  sc_one_of : option (list schema) }.

Inductive schema_error :=
| ExpectedType (path : string) (expected : list string)
| ExpectedConstant (path : string)
| NotInEnum (path : string)
| ShorterThan (path : string) (n : nat)
| LongerThan (path : string) (n : nat)
| PatternMismatch (path : string)
| BelowMinimum (path : string) (n : Z)
| AboveMaximum (path : string) (n : Z)
| DuplicateItems (path : string)
| FewerItems (path : string) (n : nat)
| MoreItems (path : string) (n : nat)
| MoreProperties (path : string) (n : nat)
| MissingProperty (path key : string)
| UnexpectedProperty (path key : string)
| NoBranch (path : string)
| NotOneBranch (path : string).

Definition _type_matches (instance : json) (expected : string) : bool :=
  if expected =s "null" then match instance with JNull => true | _ => false end
  else if expected =s "boolean" then match instance with JBool _ => true | _ => false end
  else if expected =s "integer" then match instance with JInt _ => true | _ => false end
  else if expected =s "number" then match instance with JInt _ | JFloat _ => true | _ => false end
  else if expected =s "string" then match instance with JStr _ => true | _ => false end
  else if expected =s "array" then match instance with JArr _ => true | _ => false end
  else if expected =s "object" then match instance with JObj _ => true | _ => false end
  else true.

(** The local function [key] of [uniqueItems]: values tagged with their type, so
    that a boolean is no number. *)
Fixpoint key (value : json) : json :=
  match value with
  | JObj m => JArr [JStr "object"; JObj (map (λ kv, (fst kv, key (snd kv))) m)]
  | JArr l => JArr [JStr "array"; JArr (map key l)]
  | JBool _ => JArr [JStr "boolean"; value]
  | JInt _ | JFloat _ => JArr [JStr "number"; value]
  | JStr _ => JArr [JStr "str"; value]
  | JNull => JArr [JStr "NoneType"; value]
  end.
Fixpoint has_duplicate (l : list json) : bool :=
  match l with
  | [] => false
  | x :: l' => existsb (json_equal x) l' || has_duplicate l'
  end.

(** [errors.append(e)] under a condition. *)
Definition error_if (c : bool) (e : schema_error) : list schema_error := if c then [e] else [].
Definition checked {A} (o : option A) (f : A → list schema_error) : list schema_error :=
  match o with Some x => f x | None => [] end.

Definition text_errors (s : schema) (v path : string) : list schema_error :=
  checked (sc_min_length s) (λ n, error_if (String.length v <? n) (ShorterThan path n))
  ++ checked (sc_max_length s) (λ n, error_if (n <? String.length v) (LongerThan path n))
  ++ checked (sc_pattern s) (λ r, error_if (negb (re_search r v)) (PatternMismatch path)).
Definition number_errors (s : schema) (q : Q) (path : string) : list schema_error :=
  checked (sc_minimum s) (λ n, error_if (negb (Qle_bool (inject_Z n) q)) (BelowMinimum path n))
  ++ checked (sc_maximum s) (λ n, error_if (negb (Qle_bool q (inject_Z n))) (AboveMaximum path n)).
Definition array_errors (s : schema) (items : list json) (path : string) : list schema_error :=
  error_if (sc_unique_items s && has_duplicate (map key items)) (DuplicateItems path)
  ++ checked (sc_min_items s) (λ n, error_if (length items <? n) (FewerItems path n))
  ++ checked (sc_max_items s) (λ n, error_if (n <? length items) (MoreItems path n)).
Definition object_errors (s : schema) (m : list (string * json)) (path : string)
  : list schema_error :=
  checked (sc_max_properties s) (λ n, error_if (n <? length m) (MoreProperties path n))
  ++ flat_map (λ k, error_if (negb (mem k (map fst m))) (MissingProperty path k)) (sc_required s).

Definition type_accepted (s : schema) (instance : json) : bool :=
  match sc_type s with
  | Some expected => existsb (_type_matches instance) expected
  | None => true
  end.
Definition value_errors_of (s : schema) (instance : json) (path : string) : list schema_error :=
  checked (sc_const s) (λ c, error_if (negb (json_equal instance c)) (ExpectedConstant path))
  ++ checked (sc_enum s) (λ l, error_if (negb (existsb (json_equal instance) l)) (NotInEnum path))
  ++ match instance with
     | JStr v => text_errors s v path
     | JInt z => number_errors s (inject_Z z) path
     | JFloat q => number_errors s q path
     | JArr items => array_errors s items path
     | JObj m => object_errors s m path
     | _ => []
     end.

Fixpoint validate_instance (s : schema) (instance : json) (path : string) {struct s}
  : list schema_error :=
  match s with
  | Schema _ _ _ _ _ _ _ _ _ _ _ items _ _ properties additional additional_schema any_of one_of =>
      if negb (type_accepted s instance)
      then [ExpectedType path (default [] (sc_type s))]
      else
        value_errors_of s instance path
        ++ match instance, items with
           | JArr l, Some item =>
               concat (imap (λ index value,
                 validate_instance item value (path +:+ "[" +:+ pretty index +:+ "]")) l)
           | _, _ => []
           end
        ++ match instance with
           | JObj m =>
               flat_map (λ kv : string * json,
                 (fix find (l : list (string * schema)) : list schema_error :=
                    match l with
                    | (name, property) :: l' =>
                        if name =s fst kv
                        then validate_instance property (snd kv) (path +:+ "." +:+ fst kv)
                        else find l'
                    | [] =>
                        match additional, additional_schema with
                        | false, _ => [UnexpectedProperty path (fst kv)]
                        | true, Some a => validate_instance a (snd kv) (path +:+ "." +:+ fst kv)
                        | true, None => []
                        end
                    end) properties) m
           | _ => []
           end
        ++ match any_of with
           | Some branches =>
               let errors := map (λ branch, validate_instance branch instance path) branches in
               error_if (negb (length errors =? 0)
                         && negb (existsb (λ e, length e =? 0) errors)) (NoBranch path)
           | None => []
           end
        ++ match one_of with
           | Some branches =>
               let errors := map (λ branch, validate_instance branch instance path) branches in
               error_if (negb (List.length (List.filter (λ e, length e =? 0) errors) =? 1))
                 (NotOneBranch path)
           | None => []
           end
  end.

Definition accepts (s : schema) (instance : json) : bool :=
  length (validate_instance s instance "$") =? 0.

(** ** The builders of [_runtime_schemas.py] *)

Definition scalar_schema (type : option (list string)) (const : option json)
    (enum : option (list json)) (min_length max_length : option nat) (pattern : option regex)
    (minimum maximum : option Z) : schema :=
  {| sc_type := type; sc_const := const; sc_enum := enum; sc_min_length := min_length;
     sc_max_length := max_length; sc_pattern := pattern; sc_minimum := minimum;
     sc_maximum := maximum; sc_unique_items := false; sc_min_items := None;
     sc_max_items := None; sc_items := None; sc_max_properties := None; sc_required := [];
     sc_properties := []; sc_additional := true; sc_additional_schema := None;
     sc_any_of := None; sc_one_of := None |}.

Definition text_of (maximum : nat) (nullable : bool) (pattern : option regex) : schema :=
  scalar_schema (Some (if nullable then ["string"; "null"] else ["string"])) None None (Some 1)
    (Some maximum) pattern None None.
Definition enum (values : list string) : schema :=
  scalar_schema (Some ["string"]) None (Some (map JStr values)) None None None None None.
(** [{"const": value}], with a type or without. *)
Definition constant (type : option (list string)) (value : string) : schema :=
  scalar_schema type (Some (JStr value)) None None None None None None.
(** [{"type": type, "minimum": lo, "maximum": hi}]. *)
Definition typed (type : list string) (lo hi : option Z) : schema :=
  scalar_schema (Some type) None None None None None lo hi.
Definition array_of (item : schema) (maximum : nat) : schema :=
  {| sc_type := Some ["array"]; sc_const := None; sc_enum := None; sc_min_length := None;
     sc_max_length := None; sc_pattern := None; sc_minimum := None; sc_maximum := None;
     sc_unique_items := false; sc_min_items := None; sc_max_items := Some maximum;
     sc_items := Some item; sc_max_properties := None; sc_required := []; sc_properties := [];
     sc_additional := true; sc_additional_schema := None; sc_any_of := None;
     sc_one_of := None |}.
Definition obj_with (properties : list (string * schema)) (required : list string) : schema :=
  {| sc_type := Some ["object"]; sc_const := None; sc_enum := None; sc_min_length := None;
     sc_max_length := None; sc_pattern := None; sc_minimum := None; sc_maximum := None;
     sc_unique_items := false; sc_min_items := None; sc_max_items := None; sc_items := None;
     sc_max_properties := None; sc_required := required; sc_properties := properties;
     sc_additional := false; sc_additional_schema := None; sc_any_of := None;
     sc_one_of := None |}.
Definition obj (properties : list (string * schema)) : schema :=
  obj_with properties (map fst properties).

(** ** Patterns *)

Definition lower_alpha (c : ascii) : bool := in_range 97 122 c.
Definition upper_alpha (c : ascii) : bool := in_range 65 90 c.
Definition digit (c : ascii) : bool := in_range 48 57 c.
Definition alnum (c : ascii) : bool := lower_alpha c || upper_alpha c || digit c.
Definition one_of (l : string) (c : ascii) : bool := str_exists (Ascii.eqb c) l.
Definition hex (c : ascii) : bool := in_range 97 102 c || digit c.

(** [^first rest*$]. *)
Definition word_pattern (first rest : ascii → bool) : regex :=
  rseqs [RStart; RClass first; RStar (RClass rest); REnd].
Fixpoint repeated (n : nat) (r : regex) : regex :=
  match n with O => REps | S n' => RSeq r (repeated n' r) end.
Definition digest_pattern (prefix : string) : regex :=
  rseqs (RStart :: map (λ c, RClass (Ascii.eqb c)) (String.list_ascii_of_string prefix)
         ++ [repeated 64 (RClass hex); REnd]).

(** ** The schemas of the runtime contracts *)

Definition text (maximum : nat) : schema := text_of maximum false None.
Definition MAX_TEXT : nat := Nat.pow 2 12.
#[global] Arguments MAX_TEXT : simpl never.
Definition MAX_ARRAY : nat := 128.
Definition array (item : schema) : schema := array_of item MAX_ARRAY.

Definition DIGEST : schema := text_of 64 false (Some (digest_pattern "")).
Definition DIGEST_OR_NULL : schema := text_of 64 true (Some (digest_pattern "")).
Definition IDENTIFIER : schema :=
  text_of 128 false (Some (word_pattern alnum (λ c, alnum c || one_of "_.:/@-" c))).
Definition host_pattern : regex := word_pattern alnum (λ c, alnum c || one_of ".:-" c).
Definition HOST : schema := text_of 253 true (Some host_pattern).
Definition HOST_TEXT : schema := text_of 253 false (Some host_pattern).
Definition PORT : schema := typed ["integer"; "null"] (Some 1%Z) (Some 65535%Z).
Definition PORT_NUMBER : schema := typed ["integer"] (Some 1%Z) (Some 65535%Z).
Definition BOOL : schema := typed ["boolean"; "null"] None None.
Definition EFFECT : schema :=
  text_of 256 false
    (Some (word_pattern lower_alpha (λ c, lower_alpha c || digit c || one_of "_.-" c))).

Definition FILESYSTEM : schema :=
  obj [("access", enum ["read"; "write"; "delete"; "metadata"; "execute"; "unknown"]);
       ("path", text_of MAX_TEXT true None);
       ("scope", enum ["exact"; "prefix"; "unknown"])].
Definition NETWORK : schema :=
  obj [("host", HOST); ("port", PORT);
       ("protocol", enum ["rest"; "mcp"; "json-rpc"; "graphql"; "websocket"; "tcp"; "unknown"]);
       ("access", enum ["read"; "write"; "unknown"]);
       ("methods", array_of (enum ["GET"; "HEAD"; "POST"; "PUT"; "PATCH"; "DELETE"; "OPTIONS";
                                   "CONNECT"; "TRACE"]) 32);
       ("paths", array (text MAX_TEXT)); ("tool_identity", text_of 256 true None)].
Definition TOOL : schema :=
  obj [("runtime", text 128); ("server", text_of 256 true None); ("tool", text 256);
       ("operation", constant (Some ["string"]) "call")].
Definition PROCESS : schema :=
  obj [("execution", BOOL); ("executables", array (text MAX_TEXT)); ("spawn_children", BOOL)].
Definition PRIVILEGE : schema :=
  obj [("escalation", BOOL); ("required_euid", typed ["integer"; "null"] (Some 0%Z) None)].
Definition CREDENTIAL : schema :=
  obj [("binding", IDENTIFIER); ("host", HOST_TEXT); ("port", PORT_NUMBER)].
Definition UNKNOWN : schema :=
  obj [("domain", enum ["filesystem"; "network"; "process"; "privilege"; "credential"; "tool";
                        "semantics"]);
       ("reason_code", IDENTIFIER); ("reason", text MAX_TEXT)].
Definition SOURCE : schema :=
  obj [("kind", text 64); ("operation", text 128); ("adapter", text_of 128 true None);
       ("effects", array EFFECT); ("provenance_digest", DIGEST_OR_NULL)].

Definition CAPABILITY_PROPERTIES : list (string * schema) :=
  [("schema_version", constant None "ordin.runtime_capability.v1");
   ("contract_id", text_of 67 false (Some (digest_pattern "rc:")));
   ("action_id", text_of 128 true None); ("action_digest", DIGEST);
   ("decision", enum ["allow"; "warn"; "ask"; "block"]);
   ("risk", enum ["low"; "medium"; "high"; "critical"; "unknown"]);
   ("grant_state", enum ["eligible"; "requires_approval"; "diagnostic"]);
   ("filesystem", array FILESYSTEM); ("network", array NETWORK); ("tools", array TOOL);
   ("process", PROCESS); ("privilege", PRIVILEGE); ("credentials", array CREDENTIAL);
   ("unknowns", array UNKNOWN); ("source", SOURCE)].
Definition CAPABILITY : schema :=
  obj_with (CAPABILITY_PROPERTIES ++ [("approval_execution_lease_digest", DIGEST)])
    (map fst CAPABILITY_PROPERTIES).
Definition BOUNDARY : schema :=
  obj [("schema_version", constant None "ordin.runtime_capability_boundary.v1");
       ("boundary_id", IDENTIFIER); ("filesystem", array FILESYSTEM);
       ("network", array NETWORK); ("tools", array TOOL); ("process", PROCESS);
       ("privilege", PRIVILEGE); ("credentials", array CREDENTIAL);
       ("filesystem_semantics", enum ["exact"; "lexical_prefix"]);
       ("runtime_filesystem_guarantees", typed ["boolean"] None None);
       ("allow_any_executable", typed ["boolean"] None None)].

(** ** Bounded JSON of the runtime contracts ([ordin/_runtime_json.py]) *)

#[local] Open Scope py_scope.
#[local] Open Scope nat_scope.

Definition MAX_RUNTIME_BYTES : Z := (2 ^ 20)%Z.
#[global] Arguments MAX_RUNTIME_BYTES : simpl never.
Definition MAX_RUNTIME_ITEMS : nat := MAX_ARRAY.
Definition MAX_RUNTIME_TEXT : nat := MAX_TEXT.
Definition MAX_RUNTIME_DEPTH : nat := 10.

Definition bounded_text (s : string) : bool :=
  (String.length s <=? MAX_RUNTIME_TEXT) && negb (str_exists (λ c, (code c <? 32)%N) s).

Definition freeze_text (s : string) : res unit :=
  guard_or (bounded_text s)
    (ValueError "runtime JSON contains oversized text or control characters").

(** [freeze(value, depth=depth, max_depth=max_depth, max_items=max_items)]. *)
Fixpoint freeze_within (max_depth max_items depth : nat) (value : json) {struct value}
  : res unit :=
  if max_depth <? depth
  then Err (ValueError "runtime JSON nesting limit exceeded")
  else
    match value with
    | JObj m =>
        _ ← guard_or (length m <=? max_items)
              (ValueError "runtime JSON property limit exceeded");
        _ ← guard_or (forallb (λ kv, truthy (fst kv) && (String.length (fst kv) <=? 128)) m)
              (ValueError "runtime JSON requires bounded text keys");
        (fix go (m : list (string * json)) : res unit :=
           match m with
           | [] => Ok tt
           | (_, v) :: m' => _ ← freeze_within max_depth max_items (S depth) v; go m'
           end) m
    | JArr l =>
        _ ← guard_or (length l <=? max_items)
              (ValueError "runtime JSON collection limit exceeded");
        (fix go (l : list json) : res unit :=
           match l with
           | [] => Ok tt
           | v :: l' => _ ← freeze_within max_depth max_items (S depth) v; go l'
           end) l
    | JStr s => freeze_text s
    | _ => Ok tt
    end.

Abbreviation freeze := (freeze_within MAX_RUNTIME_DEPTH).

(** [text_tuple] of a list of texts and [model_tuple] of a list of models. *)
Definition text_tuple (l : list string) : res (list string) :=
  _ ← guard_or (length l <=? MAX_RUNTIME_ITEMS)
        (ValueError "runtime text values require a bounded array");
  _ ← freeze MAX_RUNTIME_ITEMS 0 (JArr (map JStr l));
  Ok l.
Definition model_tuple {A} (l : list A) : res (list A) :=
  _ ← guard_or (length l <=? MAX_RUNTIME_ITEMS)
        (ValueError "runtime capabilities require a bounded collection");
  Ok l.

Section digests.
Context (sha256 : string → string) (float_repr : Q → string).

Definition canonical_json (value : json) : string :=
  json_dumps float_repr compact_utf8_layout value.
Definition digest (value : json) : string := sha256 (utf8 (canonical_json value)).

(** [validate(name, payload)], with the schema of the name. *)
Definition validate (name : string) (s : schema) (payload : json) : res unit :=
  _ ← freeze MAX_RUNTIME_ITEMS 0 payload;
  _ ← guard_or (Z.of_nat (String.length (utf8 (canonical_json payload))) <=? MAX_RUNTIME_BYTES)%Z
        (ValueError "runtime JSON byte limit exceeded");
  guard_or (accepts s payload)
    (ValueError ("invalid " +:+ name +:+ ": schema validation failed")).
End digests.
