(* ===== verification/RuntimeContract.v ===== *)
(** * Runtime capability contracts ([ordin/runtime_contract.py])

    The capabilities that a contract names, the contract, and its derivation
    from a review.  A contract carries no approval lease here: a lease belongs
    to the issuer of approvals.  Capabilities that the code collects in a set
    are a list without duplicates, which the derivation sorts. *)
From stdpp Require Import base list strings pretty sorting.
From Stdlib Require Import Bool Ascii ZArith QArith Lia.
From S2P Require Import Prelude PyStr Policy Json JsonText Temporal Shell Execution Provenance.
From S2P Require Import RequestReaders Requests ActionModel Regex JsonSchema.
#[local] Open Scope py_scope.
#[local] Open Scope nat_scope.

(** ** Capabilities *)

Record FilesystemCapability := {
  fc_access : string; fc_path : option string; fc_scope : string }.
Record NetworkCapability := {
  nc_host : option string; nc_port : option Z; nc_protocol : string; nc_access : string;
  nc_methods : list string; nc_paths : list string; nc_tool_identity : option string }.
Record ToolCapability := {
  tc_runtime : string; tc_server : option string; tc_tool : string; tc_operation : string }.
Record ProcessCapability := {
  pc_execution : option bool; pc_executables : list string; pc_spawn_children : option bool }.
Record PrivilegeCapability := { vc_escalation : option bool; vc_required_euid : option Z }.
Record CredentialBinding := { cb_binding : string; cb_host : string; cb_port : Z }.
Record CapabilityUnknown := { cu_domain : string; cu_reason_code : string; cu_reason : string }.

#[export] Instance FilesystemCapability_eq_dec : EqDecision FilesystemCapability.
Proof. solve_decision. Defined.
#[export] Instance NetworkCapability_eq_dec : EqDecision NetworkCapability.
Proof. solve_decision. Defined.
#[export] Instance ToolCapability_eq_dec : EqDecision ToolCapability.
Proof. solve_decision. Defined.
#[export] Instance CredentialBinding_eq_dec : EqDecision CredentialBinding.
Proof. solve_decision. Defined.
#[export] Instance CapabilityUnknown_eq_dec : EqDecision CapabilityUnknown.
Proof. solve_decision. Defined.

Definition jint_or_null (o : option Z) : json :=
  match o with Some z => JInt z | None => JNull end.
Definition jbool_or_null (o : option bool) : json :=
  match o with Some b => JBool b | None => JNull end.

Definition FilesystemCapability_as_dict (c : FilesystemCapability) : json :=
  JObj [("access", JStr (fc_access c)); ("path", jstr (fc_path c)); ("scope", JStr (fc_scope c))].
Definition NetworkCapability_as_dict (c : NetworkCapability) : json :=
  JObj [("host", jstr (nc_host c)); ("port", jint_or_null (nc_port c));
        ("protocol", JStr (nc_protocol c)); ("access", JStr (nc_access c));
        ("methods", jstrings (nc_methods c)); ("paths", jstrings (nc_paths c));
        ("tool_identity", jstr (nc_tool_identity c))].
Definition ToolCapability_as_dict (c : ToolCapability) : json :=
  JObj [("runtime", JStr (tc_runtime c)); ("server", jstr (tc_server c));
        ("tool", JStr (tc_tool c)); ("operation", JStr (tc_operation c))].
Definition ProcessCapability_as_dict (c : ProcessCapability) : json :=
  JObj [("execution", jbool_or_null (pc_execution c));
        ("executables", jstrings (pc_executables c));
        ("spawn_children", jbool_or_null (pc_spawn_children c))].
Definition PrivilegeCapability_as_dict (c : PrivilegeCapability) : json :=
  JObj [("escalation", jbool_or_null (vc_escalation c));
        ("required_euid", jint_or_null (vc_required_euid c))].
Definition CredentialBinding_as_dict (c : CredentialBinding) : json :=
  JObj [("binding", JStr (cb_binding c)); ("host", JStr (cb_host c)); ("port", JInt (cb_port c))].
Definition CapabilityUnknown_as_dict (c : CapabilityUnknown) : json :=
  JObj [("domain", JStr (cu_domain c)); ("reason_code", JStr (cu_reason_code c));
        ("reason", JStr (cu_reason c))].

(** [NetworkCapability(host, port, access=access)]. *)
Definition endpoint_capability (host : option string) (port : option Z) (access : string)
  : NetworkCapability :=
  {| nc_host := host; nc_port := port; nc_protocol := "unknown"; nc_access := access;
     nc_methods := []; nc_paths := []; nc_tool_identity := None |}.

Section contracts.
Context (sha256 : string → string) (float_repr : Q → string).
#[local] Abbreviation validate := (validate float_repr).
#[local] Abbreviation digest := (digest sha256 float_repr).

(** ** The checks of the constructors *)

Definition mk_FilesystemCapability (c : FilesystemCapability) : res FilesystemCapability :=
  _ ← validate "filesystem" FILESYSTEM (FilesystemCapability_as_dict c); Ok c.
Definition mk_NetworkCapability (c : NetworkCapability) : res NetworkCapability :=
  _ ← text_tuple (nc_methods c);
  _ ← text_tuple (nc_paths c);
  _ ← validate "network" NETWORK (NetworkCapability_as_dict c); Ok c.
Definition mk_ToolCapability (c : ToolCapability) : res ToolCapability :=
  _ ← validate "tool" TOOL (ToolCapability_as_dict c); Ok c.
Definition mk_ProcessCapability (c : ProcessCapability) : res ProcessCapability :=
  _ ← text_tuple (pc_executables c);
  _ ← validate "process" PROCESS (ProcessCapability_as_dict c); Ok c.
Definition mk_PrivilegeCapability (c : PrivilegeCapability) : res PrivilegeCapability :=
  _ ← validate "privilege" PRIVILEGE (PrivilegeCapability_as_dict c); Ok c.
Definition mk_CredentialBinding (c : CredentialBinding) : res CredentialBinding :=
  _ ← validate "credential" CREDENTIAL (CredentialBinding_as_dict c); Ok c.
Definition mk_CapabilityUnknown (c : CapabilityUnknown) : res CapabilityUnknown :=
  _ ← validate "unknown" UNKNOWN (CapabilityUnknown_as_dict c); Ok c.

(** ** The contract *)

Definition RUNTIME_CAPABILITY_SCHEMA_VERSION : string := "ordin.runtime_capability.v1".

Record RuntimeCapabilityContract := {
  rc_action_id : option string;
  rc_action_digest : string;
  rc_decision : string;
  rc_risk : string;
  rc_filesystem : list FilesystemCapability;
  rc_network : list NetworkCapability;
  rc_tools : list ToolCapability;
  rc_process : ProcessCapability;
  rc_privilege : PrivilegeCapability;
  rc_credentials : list CredentialBinding;
  rc_unknowns : list CapabilityUnknown;
  rc_source : list (string * json);
  rc_contract_id : string }.

Definition _base_grant_state (c : RuntimeCapabilityContract) : string :=
  if (rc_decision c =s "block") || negb (length (rc_unknowns c) =? 0) then "diagnostic"
  else if mem (rc_decision c) ["ask"; "warn"] then "requires_approval"
  else "eligible".

Definition material_members (c : RuntimeCapabilityContract) : list (string * json) :=
  [("schema_version", JStr RUNTIME_CAPABILITY_SCHEMA_VERSION);
   ("action_id", jstr (rc_action_id c)); ("action_digest", JStr (rc_action_digest c));
   ("decision", JStr (rc_decision c)); ("risk", JStr (rc_risk c));
   ("grant_state", JStr (_base_grant_state c));
   ("filesystem", JArr (map FilesystemCapability_as_dict (rc_filesystem c)));
   ("network", JArr (map NetworkCapability_as_dict (rc_network c)));
   ("tools", JArr (map ToolCapability_as_dict (rc_tools c)));
   ("process", ProcessCapability_as_dict (rc_process c));
   ("privilege", PrivilegeCapability_as_dict (rc_privilege c));
   ("credentials", JArr (map CredentialBinding_as_dict (rc_credentials c)));
   ("unknowns", JArr (map CapabilityUnknown_as_dict (rc_unknowns c)));
   ("source", JObj (rc_source c))].
Definition _material (c : RuntimeCapabilityContract) : json := JObj (material_members c).
Definition RuntimeCapabilityContract_as_dict (c : RuntimeCapabilityContract) : json :=
  JObj (material_members c ++ [("contract_id", JStr (rc_contract_id c))]).
Definition contract_digest (c : RuntimeCapabilityContract) : string :=
  digest (RuntimeCapabilityContract_as_dict c).

Definition with_contract_id (id : string) (c : RuntimeCapabilityContract)
  : RuntimeCapabilityContract :=
  {| rc_action_id := rc_action_id c; rc_action_digest := rc_action_digest c;
     rc_decision := rc_decision c; rc_risk := rc_risk c; rc_filesystem := rc_filesystem c;
     rc_network := rc_network c; rc_tools := rc_tools c; rc_process := rc_process c;
     rc_privilege := rc_privilege c; rc_credentials := rc_credentials c;
     rc_unknowns := rc_unknowns c; rc_source := rc_source c; rc_contract_id := id |}.

(** [__post_init__]. *)
Definition mk_RuntimeCapabilityContract (c : RuntimeCapabilityContract)
  : res RuntimeCapabilityContract :=
  _ ← model_tuple (rc_filesystem c);
  _ ← model_tuple (rc_network c);
  _ ← model_tuple (rc_tools c);
  _ ← model_tuple (rc_credentials c);
  _ ← model_tuple (rc_unknowns c);
  _ ← freeze MAX_RUNTIME_ITEMS 0 (JObj (rc_source c));
  let expected := "rc:" +:+ digest (_material c) in
  _ ← guard_or (negb (truthy (rc_contract_id c)) || (rc_contract_id c =s expected))
        (ValueError "runtime contract identity does not match its content");
  let c := with_contract_id expected c in
  _ ← validate "runtime_capability" CAPABILITY (RuntimeCapabilityContract_as_dict c);
  Ok c.

(** ** Reading a contract back

    The payload has passed the schema, so the members have the right types. *)

Definition items_of {A} (read : json → res A) (j : json) : res (list A) :=
  l ← as_list j "array"; all_ok (map read l).
Definition texts_of : json → res (list string) := items_of (λ j, as_str j "text").

Definition FilesystemCapability_from_dict (v : json) : res FilesystemCapability :=
  access ← as_str (jget v "access") "access";
  path ← opt_str_field (jget v "path") "path";
  scope ← as_str (jget v "scope") "scope";
  mk_FilesystemCapability {| fc_access := access; fc_path := path; fc_scope := scope |}.
Definition NetworkCapability_from_dict (v : json) : res NetworkCapability :=
  host ← opt_str_field (jget v "host") "host";
  port ← opt_int_field (jget v "port") "port";
  protocol ← as_str (jget v "protocol") "protocol";
  access ← as_str (jget v "access") "access";
  methods ← texts_of (jget v "methods");
  paths ← texts_of (jget v "paths");
  tool_identity ← opt_str_field (jget v "tool_identity") "tool_identity";
  mk_NetworkCapability
    {| nc_host := host; nc_port := port; nc_protocol := protocol; nc_access := access;
       nc_methods := methods; nc_paths := paths; nc_tool_identity := tool_identity |}.
Definition ToolCapability_from_dict (v : json) : res ToolCapability :=
  runtime ← as_str (jget v "runtime") "runtime";
  server ← opt_str_field (jget v "server") "server";
  tool ← as_str (jget v "tool") "tool";
  operation ← as_str (jget v "operation") "operation";
  mk_ToolCapability
    {| tc_runtime := runtime; tc_server := server; tc_tool := tool; tc_operation := operation |}.
Definition ProcessCapability_from_dict (v : json) : res ProcessCapability :=
  execution ← opt_bool_field (jget v "execution") "execution";
  executables ← texts_of (jget v "executables");
  spawn_children ← opt_bool_field (jget v "spawn_children") "spawn_children";
  mk_ProcessCapability
    {| pc_execution := execution; pc_executables := executables;
       pc_spawn_children := spawn_children |}.
Definition PrivilegeCapability_from_dict (v : json) : res PrivilegeCapability :=
  escalation ← opt_bool_field (jget v "escalation") "escalation";
  required_euid ← opt_int_field (jget v "required_euid") "required_euid";
  mk_PrivilegeCapability {| vc_escalation := escalation; vc_required_euid := required_euid |}.
Definition CredentialBinding_from_dict (v : json) : res CredentialBinding :=
  binding ← as_str (jget v "binding") "binding";
  host ← as_str (jget v "host") "host";
  port ← as_int (jget v "port") "port";
  mk_CredentialBinding {| cb_binding := binding; cb_host := host; cb_port := port |}.
Definition CapabilityUnknown_from_dict (v : json) : res CapabilityUnknown :=
  domain ← as_str (jget v "domain") "domain";
  reason_code ← as_str (jget v "reason_code") "reason_code";
  reason ← as_str (jget v "reason") "reason";
  mk_CapabilityUnknown
    {| cu_domain := domain; cu_reason_code := reason_code; cu_reason := reason |}.

Definition RuntimeCapabilityContract_from_dict (payload : json)
  : res RuntimeCapabilityContract :=
  _ ← validate "runtime_capability" CAPABILITY payload;
  _ ← guard_or (negb (mem "approval_execution_lease_digest" (map fst (members payload))))
        (ValueError "JSON cannot restore the original approval execution lease");
  action_id ← opt_str_field (jget payload "action_id") "action_id";
  action_digest ← as_str (jget payload "action_digest") "action_digest";
  decision ← as_str (jget payload "decision") "decision";
  risk ← as_str (jget payload "risk") "risk";
  filesystem ← items_of FilesystemCapability_from_dict (jget payload "filesystem");
  network ← items_of NetworkCapability_from_dict (jget payload "network");
  tools ← items_of ToolCapability_from_dict (jget payload "tools");
  process ← ProcessCapability_from_dict (jget payload "process");
  privilege ← PrivilegeCapability_from_dict (jget payload "privilege");
  credentials ← items_of CredentialBinding_from_dict (jget payload "credentials");
  unknowns ← items_of CapabilityUnknown_from_dict (jget payload "unknowns");
  contract_id ← as_str (jget payload "contract_id") "contract_id";
  result ← mk_RuntimeCapabilityContract
    {| rc_action_id := action_id; rc_action_digest := action_digest; rc_decision := decision;
       rc_risk := risk; rc_filesystem := filesystem; rc_network := network; rc_tools := tools;
       rc_process := process; rc_privilege := privilege; rc_credentials := credentials;
       rc_unknowns := unknowns; rc_source := members (jget payload "source");
       rc_contract_id := contract_id |};
  _ ← guard_or (json_equal (JStr (_base_grant_state result)) (jget payload "grant_state"))
        (ValueError "runtime contract grant state disagrees with decision/unknowns");
  Ok result.
End contracts.
