(* ===== verification/RuntimeDerive.v ===== *)
(** * Derivation of capability contracts ([derive_runtime_capability_contract] of [ordin/runtime_contract.py])

    What an action needs at least, from its review alone: the effects and
    resources give the filesystem and network capabilities, the parameters the
    tool and the process, and requirements that the host declared in the
    provenance add to them.  Whatever is not established becomes an unknown.
    The sets of the code are the lists of a [Draft]. *)
From stdpp Require Import base list strings pretty sorting.
From Stdlib Require Import Bool Ascii ZArith QArith Lia.
From S2P Require Import Prelude PyStr Policy Json JsonText Shell Execution Provenance.
From S2P Require Import RequestReaders Commitment Requests ActionModel Regex JsonSchema.
From S2P Require Import JsonSchema RuntimeContract.
#[local] Open Scope py_scope.
#[local] Open Scope nat_scope.

(** A loop whose body may raise. *)
Fixpoint fold_res {A S} (body : S → A → res S) (l : list A) (s : S) : res S :=
  match l with
  | [] => Ok s
  | x :: l' => s ← body s x; fold_res body l' s
  end.

(** [s.add(x)] of a set. *)
Definition add_new {A} `{EqDecision A} (x : A) (l : list A) : list A :=
  if bool_decide (x ∈ l) then l else l ++ [x].

Record Draft := {
  dr_filesystem : list FilesystemCapability;
  dr_network : list NetworkCapability;
  dr_tools : list ToolCapability;
  dr_unknowns : list CapabilityUnknown }.
Definition empty_draft : Draft :=
  {| dr_filesystem := []; dr_network := []; dr_tools := []; dr_unknowns := [] |}.

(** [unknown(domain, code, reason)]. *)
Definition unknown (domain code reason : string) (d : Draft) : Draft :=
  {| dr_filesystem := dr_filesystem d; dr_network := dr_network d; dr_tools := dr_tools d;
     dr_unknowns := add_new {| cu_domain := domain; cu_reason_code := code; cu_reason := reason |}
                      (dr_unknowns d) |}.
Definition unknown_if (c : bool) (domain code reason : string) (d : Draft) : Draft :=
  if c then unknown domain code reason d else d.

Definition _FILESYSTEM_EFFECTS : list (string * string) :=
  [("filesystem.read", "read"); ("filesystem.metadata_read", "metadata");
   ("filesystem.write", "write"); ("filesystem.delete", "delete");
   ("filesystem.recursive_delete", "delete"); ("filesystem.execute", "execute")].
Definition _NETWORK_EFFECTS : list (string * string) :=
  [("network.connect", "read"); ("network.download", "read"); ("network.upload", "write")].

(** [token.rsplit("/", 1)[-1]]. *)
Definition last_part (token : string) : string := List.last (split_char "/"%char token) "".

Definition parameter (review : ActionReview) (name : string) : json :=
  jget (JObj (ac_parameters (av_action review))) name.
Definition kind_of (review : ActionReview) : string := ac_kind (av_action review).
(** [review.adapter == name]. *)
Definition adapter_is (review : ActionReview) (name : string) : bool :=
  opt_is (av_adapter review) name.
Definition adapted (review : ActionReview) : bool := bool_decide (is_Some (av_adapter review)).
Definition has_effects (review : ActionReview) : bool := negb (length (av_effects review) =? 0).
Definition effects_within (family : string) (review : ActionReview) : list string :=
  remove_dups (List.filter (λ e, startswith e family) (av_effects review)).

(** ** The literal curl request *)

Record curl_scan := { cs_method : string; cs_urls : list string }.
Definition CURL_FLAGS : list string :=
  ["--silent"; "--show-error"; "--fail"; "--no-progress-meter"].
Fixpoint curl_tokens (tokens : list string) (s : curl_scan) : option curl_scan :=
  match tokens with
  | [] => Some s
  | token :: rest =>
      if mem token ["--request"; "-X"] then
        match rest with
        | value :: rest' =>
            if cs_method s =s "GET"
            then curl_tokens rest' {| cs_method := value; cs_urls := cs_urls s |} else None
        | [] => None
        end
      else if mem token CURL_FLAGS then curl_tokens rest s
      else if startswith_any token ["https://"; "http://"]
      then curl_tokens rest {| cs_method := cs_method s; cs_urls := cs_urls s ++ [token] |}
      else None
  end.

Definition newline_or_expansion (c : ascii) : bool :=
  mem (String c "") ["$"; "`"; "\"] || Ascii.eqb c (ascii_of_N 10) || Ascii.eqb c (ascii_of_N 13).

Definition _literal_http_request (review : ActionReview) : option (string * string) :=
  if negb (kind_of review =s "shell") || negb (adapted review) then None else
  match parameter review "command" with
  | JStr command =>
      if str_exists newline_or_expansion command then None else
      match split_shell_segments command with
      | Ok ([name :: option :: rest], []) =>
          if negb (last_part name =s "curl") || (length rest =? 0)
             || negb (mem option ["--disable"; "-q"]) then None else
          match curl_tokens rest {| cs_method := "GET"; cs_urls := [] |} with
          | Some {| cs_method := method; cs_urls := [url] |} =>
              if mem method ["GET"; "HEAD"; "OPTIONS"]
                 && existsb (λ r, (ar_type r =s "url") && (ar_value r =s url)) (av_resources review)
              then Some (method, url) else None
          | _ => None
          end
      | _ => None
      end
  | _ => None
  end.

(** ** MCP declarations of the host *)

(** [record.metadata.get(key)]. *)
Definition metadata (r : ProvenanceRecord) (key : string) : scalar :=
  default SNone (dict_get key (pv_metadata r)).
Definition declared (r : ProvenanceRecord) : bool :=
  (pv_source r =s "context") && json_truthy (scalar_json (metadata r "profile_digest")).
(** ... for the server of the action. *)
Definition declared_for (review : ActionReview) (code : string) (r : ProvenanceRecord) : bool :=
  declared r && (pv_code r =s code)
  && json_equal (scalar_json (metadata r "server")) (parameter review "server").
Definition provenance_records (review : ActionReview) : list ProvenanceRecord :=
  match av_provenance review with Some p => records p | None => [] end.

(** The loop over the declared versions: [None] when one is malformed. *)
Fixpoint version_scopes (l : list scalar) : option (list (list string)) :=
  match l with
  | [] => Some []
  | SText value :: l' =>
      let entries := split_char ","%char value in
      if bool_decide (NoDup entries) && forallb (λ e, mem e MCP_VERSIONS) entries
      then scopes ← version_scopes l'; Some (entries :: scopes) else None
  | _ => None
  end.
Definition _mcp_protocol_version (review : ActionReview) : option string :=
  match jget_default (JObj (ac_parameters (av_action review))) "protocol_version"
          (JStr "2025-11-25") with
  | JStr version =>
      if negb (mem version MCP_VERSIONS) then None else
      match map (λ r, metadata r "versions")
              (List.filter (declared_for review "runtime.requirement.mcp_versions")
                 (provenance_records review)) with
      | [] => if version =s "2025-11-25" then Some version else None
      | declarations =>
          scopes ← version_scopes declarations;
          if forallb (mem version) scopes then Some version else None
      end
  | _ => None
  end.

Definition mcp_urls_of (review : ActionReview) : list string :=
  if (kind_of review =s "mcp") && opt_truthy (av_adapter review) && has_effects review
  then remove_dups (omap (λ r, pr_value <$> pv_resource r)
         (List.filter (declared_for review "runtime.requirement.mcp_endpoint")
            (provenance_records review)))
  else [].

(** ** Orders of the sorted results *)

(** Tuples are compared component by component. *)
Definition then_cmp (c d : comparison) : comparison := match c with Eq => d | _ => c end.
Fixpoint texts_compare (l k : list string) : comparison :=
  match l, k with
  | [], [] => Eq
  | [], _ :: _ => Lt
  | _ :: _, [] => Gt
  | x :: l', y :: k' => then_cmp (String.compare x y) (texts_compare l' k')
  end.
Definition filesystem_compare (a b : FilesystemCapability) : comparison :=
  texts_compare [fc_access a; default "" (fc_path a); fc_scope a]
                [fc_access b; default "" (fc_path b); fc_scope b].
Definition network_compare (a b : NetworkCapability) : comparison :=
  then_cmp (String.compare (default "" (nc_host a)) (default "" (nc_host b)))
  (then_cmp (Z.compare (default 0%Z (nc_port a)) (default 0%Z (nc_port b)))
  (then_cmp (texts_compare [nc_access a; nc_protocol a] [nc_access b; nc_protocol b])
  (then_cmp (texts_compare (nc_methods a) (nc_methods b))
  (then_cmp (texts_compare (nc_paths a) (nc_paths b))
            (String.compare (default "" (nc_tool_identity a))
                            (default "" (nc_tool_identity b))))))).
Definition unknown_compare (a b : CapabilityUnknown) : comparison :=
  texts_compare [cu_domain a; cu_reason_code a; cu_reason a]
                [cu_domain b; cu_reason_code b; cu_reason b].
Definition cmp_le {A} (compare : A → A → comparison) (a b : A) : Prop := compare a b ≠ Gt.
#[export] Instance cmp_le_dec {A} (compare : A → A → comparison) a b : base.Decision (cmp_le compare a b).
Proof. unfold cmp_le. destruct (compare a b); [left|left|right]; by intros ?. Defined.
Definition sorted_by {A} (compare : A → A → comparison) (l : list A) : list A :=
  merge_sort (cmp_le compare) l.

Section derive.
Context (bracketed_host : string → bool) (float_decimal : Q → Decimal).
Context (sha256 : string → string) (float_repr : Q → string).
#[local] Abbreviation mk_FilesystemCapability := (mk_FilesystemCapability float_repr).
#[local] Abbreviation mk_NetworkCapability := (mk_NetworkCapability float_repr).
#[local] Abbreviation mk_ToolCapability := (mk_ToolCapability float_repr).
#[local] Abbreviation endpoint_of := (endpoint_of bracketed_host).
#[local] Abbreviation urlsplit := (urlsplit bracketed_host).

(** [filesystem.add(FilesystemCapability(...))], and the others. *)
Definition add_filesystem (access : string) (path : option string) (scope : string) (d : Draft)
  : res Draft :=
  c ← mk_FilesystemCapability {| fc_access := access; fc_path := path; fc_scope := scope |};
  Ok {| dr_filesystem := add_new c (dr_filesystem d); dr_network := dr_network d;
        dr_tools := dr_tools d; dr_unknowns := dr_unknowns d |}.
Definition add_network (c : NetworkCapability) (d : Draft) : res Draft :=
  c ← mk_NetworkCapability c;
  Ok {| dr_filesystem := dr_filesystem d; dr_network := add_new c (dr_network d);
        dr_tools := dr_tools d; dr_unknowns := dr_unknowns d |}.
Definition add_tool (runtime : string) (server : option string) (tool : string) (d : Draft)
  : res Draft :=
  c ← mk_ToolCapability {| tc_runtime := runtime; tc_server := server; tc_tool := tool;
                           tc_operation := "call" |};
  Ok {| dr_filesystem := dr_filesystem d; dr_network := dr_network d;
        dr_tools := dr_tools d ++ [c]; dr_unknowns := dr_unknowns d |}.

(** ** Filesystem *)

Definition semantics_part (review : ActionReview) (d : Draft) : Draft :=
  unknown_if (negb (adapted review) || (av_risk review =s "unknown"))
    "semantics" "runtime_contract_unknown_semantics"
    "Reviewed action has unknown deterministic semantics." d.

Definition paths_of (review : ActionReview) : list ActionResource :=
  List.filter (λ r, mem (ar_type r) ["path"; "file"; "directory"]) (av_resources review).

Definition filesystem_resource (effect access : string) (d : Draft) (resource : ActionResource)
  : res Draft :=
  if negb (_safe_path (ar_value resource)) then
    d ← add_filesystem access None "unknown" d;
    Ok (unknown "filesystem" "runtime_contract_malformed_resource"
          "Filesystem target is not an unambiguous absolute POSIX path." d)
  else
    add_filesystem access (Some (ar_value resource))
      (if effect =s "filesystem.recursive_delete" then "prefix" else "exact") d.

Definition filesystem_effect (paths : list ActionResource) (d : Draft) (effect : string)
  : res Draft :=
  let access := default "unknown" (dict_get effect _FILESYSTEM_EFFECTS) in
  let d := unknown_if (access =s "unknown") "filesystem" "runtime_contract_unknown_semantics"
             "Filesystem effect has no precise access mapping." d in
  d ← match paths with
      | [] =>
          d ← add_filesystem access None "unknown" d;
          Ok (unknown "filesystem" "runtime_contract_missing_resource"
                "Filesystem effect has no established resource target." d)
      | _ => Ok d
      end;
  fold_res (filesystem_resource effect access) paths d.

Definition filesystem_part (review : ActionReview) (d : Draft) : res Draft :=
  let fs_effects := effects_within "filesystem." review in
  let paths := paths_of review in
  let accesses := remove_dups (map (λ e, dict_get e _FILESYSTEM_EFFECTS) fs_effects) in
  let d := unknown_if ((1 <? length paths) && (1 <? length accesses)) "filesystem"
             "runtime_contract_ambiguous_resource"
             "Effects cannot be precisely associated with individual resource targets." d in
  fold_res (filesystem_effect paths) (sorted fs_effects) d.

(** ** Network *)

Definition add_url (resources : list ActionResource) (url : string) : res (list ActionResource) :=
  if existsb (λ r, ar_value r =s url) resources then Ok resources
  else r ← mk_ActionResource "url" url; Ok (resources ++ [r]).
Definition network_resources (review : ActionReview) : res (list ActionResource) :=
  fold_res add_url (sorted (mcp_urls_of review))
    (List.filter (λ r, mem (ar_type r) ["host"; "url"; "endpoint"]) (av_resources review)).

(** [request] and the unknown that a REST request adds. *)
Definition request_of (review : ActionReview) (d : Draft) : option (string * string) * Draft :=
  if negb (adapter_is review "network.rest") then (_literal_http_request review, d) else
  let unsupported :=
    (_literal_http_request review,
     unknown "network" "runtime_rest_request_unsupported" "REST request scope is unsupported." d) in
  match prepare_rest_request bracketed_host float_decimal sha256
          (JObj (ac_parameters (av_action review))) with
  | Ok r =>
      let effect := if rest_reading r then "network.download" else "network.upload" in
      if bool_decide (remove_dups (av_effects review) = [effect]) then
        match parameter review "url" with
        | JStr url =>
            (Some (rest_method r, url),
             unknown "network" "runtime_rest_request_commitment_required"
               "REST scheme, headers and body require separate exact request authority." d)
        | _ => unsupported
        end
      else unsupported
  | Err _ => unsupported
  end.

Definition host_text (first rest : ascii → bool) (s : string) : bool :=
  match s with
  | String c s' => first c && str_forall rest s' && (String.length s' <=? 252)
  | EmptyString => false
  end.
(** The host and port of a resource; a [ValueError] leaves both unknown. *)
Definition resource_endpoint (resource : ActionResource) : option string * option Z :=
  let value := ar_value resource in
  if ar_type resource =s "host" then
    (if host_text alnum (λ c, alnum c || one_of ".-" c) value then Some value else None, None)
  else if has_unsafe_authority_characters value then (None, None) else
  match urlsplit value with
  | None => (None, None)
  | Some url =>
      if mem (scheme url) ["http"; "https"] && negb (has_userinfo (netloc url))
         && negb (truthy (query url)) && negb (truthy (fragment url)) then
        match port (netloc url), hostname (netloc url) with
        | Some p, Some h =>
            let p := default (if scheme url =s "https" then 443 else 80)%Z p in
            if (1 <=? p)%Z && (p <=? 65535)%Z && truthy h
               && host_text alnum (λ c, alnum c || one_of ".:-" c) h
            then (Some h, Some p) else (None, None)
        | _, _ => (None, None)
        end
      else (None, None)
  end.

(** The REST capability of the request, when the resource is its URL and has a
    plain path. *)
Definition rest_capability (request : option (string * string)) (access : string)
    (resource : ActionResource) (host : string) (port : option Z)
  : res (option NetworkCapability) :=
  match request with
  | Some (method, url) =>
      if negb (ar_value resource =s url) then Ok None else
      match urlsplit (ar_value resource) with
      | None => Err (ValueError "Invalid IPv6 URL")
      | Some parsed =>
          let path := if truthy (url_path parsed) then url_path parsed else "/" in
          if _safe_path path && negb (str_exists (λ c, one_of "%?#" c) path)
          then Ok (Some {| nc_host := Some host; nc_port := port; nc_protocol := "rest";
                           nc_access := access; nc_methods := [method]; nc_paths := [path];
                           nc_tool_identity := None |})
          else Ok None
      end
  | None => Ok None
  end.

Definition protocol_of (review : ActionReview) : string :=
  if adapter_is review "network.graphql" then "graphql"
  else if adapter_is review "network.jsonrpc" then "json-rpc" else "mcp".
Definition protocol_capability (review : ActionReview) (mcp_urls : list string) (access : string)
    (resource : ActionResource) (host : string) (port : option Z) : option NetworkCapability :=
  if adapter_is review "network.graphql" || adapter_is review "network.jsonrpc"
     || mem (ar_value resource) mcp_urls then
    '(_, _, path) ← endpoint_of (JStr (ar_value resource));
    Some {| nc_host := Some host; nc_port := port; nc_protocol := protocol_of review;
            nc_access := access; nc_methods := ["POST"]; nc_paths := [path];
            nc_tool_identity := None |}
  else None.

Definition network_resource (review : ActionReview) (request : option (string * string))
    (mcp_urls : list string) (access : string) (d : Draft) (resource : ActionResource)
  : res Draft :=
  let '(host, port) := resource_endpoint resource in
  let d := unknown_if (bool_decide (host = None)) "network" "runtime_contract_malformed_resource"
             "Endpoint is malformed, ambiguous, or includes sensitive URL components." d in
  rest ← match host with
         | Some h => rest_capability request access resource h port
         | None => Ok None
         end;
  let concrete :=
    match rest, host with
    | Some c, _ => Some c
    | None, Some h => protocol_capability review mcp_urls access resource h port
    | None, None => None
    end in
  match concrete with
  | Some c => add_network c d
  | None =>
      d ← add_network (endpoint_capability host port access) d;
      Ok (unknown "network" "runtime_contract_unknown_protocol"
            "Endpoint evidence does not establish request protocol and method." d)
  end.

Definition network_part (review : ActionReview) (d : Draft) : res Draft :=
  let net_effects := effects_within "network." review in
  net_resources ← network_resources review;
  let '(request, d) := request_of review d in
  match net_effects with
  | [] => Ok d
  | _ =>
      let precise := forallb (λ e, bool_decide (is_Some (dict_get e _NETWORK_EFFECTS))) net_effects in
      let access := if precise
                    then if mem "network.upload" (av_effects review) then "write" else "read"
                    else "unknown" in
      let d := unknown_if (negb precise) "network" "runtime_contract_unknown_semantics"
                 "Network effect has no precise access mapping." d in
      d ← match net_resources with
          | [] =>
              d ← add_network (endpoint_capability None None access) d;
              Ok (unknown "network" "runtime_contract_missing_resource"
                    "Network effect has no established endpoint." d)
          | _ => Ok d
          end;
      fold_res (network_resource review request (mcp_urls_of review) access) net_resources d
  end.

(** ** Tools *)

Definition mcp_version_part (review : ActionReview) (d : Draft) : Draft :=
  unknown_if ((kind_of review =s "mcp") && opt_truthy (av_adapter review) && has_effects review
              && bool_decide (_mcp_protocol_version review = None))
    "network" "runtime_contract_mcp_version_unapproved"
    "MCP revision is not explicitly approved by the host profile." d.

Definition tool_part (review : ActionReview) (d : Draft) : res Draft :=
  if mem (kind_of review) ["mcp"; "tool"] && negb (adapter_is review "mcp.protocol") then
    let runtime := if kind_of review =s "mcp" then JStr "mcp" else parameter review "runtime" in
    match runtime, parameter review "tool" with
    | JStr runtime, JStr tool =>
        if adapted review && has_effects review then
          if runtime =s "mcp" then
            match parameter review "server" with
            | JStr server => add_tool runtime (Some server) tool d
            | _ => Ok (unknown "tool" "runtime_contract_missing_resource"
                         "Exact MCP server is missing." d)
            end
          else add_tool runtime None tool d
        else Ok (unknown "tool" "runtime_contract_unknown_semantics"
                   "Tool identity has no trusted deterministic semantic binding." d)
    | _, _ => Ok (unknown "tool" "runtime_contract_unknown_semantics"
                    "Tool identity has no trusted deterministic semantic binding." d)
    end
  else Ok d.

(** ** Process *)

Record ProcessDraft := {
  pd_execution : bool; pd_executables : list string; pd_escalation : bool }.

Definition executable_char (c : ascii) : bool := alnum c || one_of "_./+-" c.
Definition shell_process (command : json) (p : ProcessDraft) (d : Draft) : ProcessDraft * Draft :=
  let compound :=
    (p, unknown "process" "runtime_contract_unknown_semantics"
          "Compound shell execution has no single established executable scope." d) in
  match match command with
        | JStr command => split_shell_segments command | _ => Ok ([], []) end with
  | Ok ([token :: rest], []) =>
      ({| pd_execution := pd_execution p;
          pd_executables := if truthy token && str_forall executable_char token
                            then [token] else pd_executables p;
          pd_escalation := pd_escalation p || mem (last_part token) ["sudo"; "su"; "doas"] |},
       unknown_if (existsb (λ v, mem v ["<"; ">"; ">>"; "("; ")"]) (token :: rest))
         "process" "runtime_contract_unknown_semantics"
         "Shell redirections or nested execution require additional scope." d)
  | Ok _ => compound
  | Err _ => (p, unknown "process" "runtime_contract_unknown_semantics"
                   "Shell syntax is ambiguous." d)
  end.

Definition process_part (review : ActionReview) (d : Draft) : ProcessDraft * Draft :=
  let shell := kind_of review =s "shell" in
  let p := {| pd_execution :=
                shell || existsb (λ e, startswith_any e ["process."; "code."]) (av_effects review);
              pd_executables := [];
              pd_escalation := existsb (λ e, startswith e "privilege.") (av_effects review) |} in
  if shell then
    let '(p, d) := shell_process (parameter review "command") p d in
    (p, unknown_if (length (pd_executables p) =? 0) "process" "runtime_contract_missing_resource"
          "Executable identity is unknown." d)
  else (p, d).

(** ** Requirements that the host declared *)

Record Requirements := {
  rq_draft : Draft;
  rq_execution : bool;
  rq_executables : list string;
  rq_bindings : list (string * string);
  rq_children : list bool }.

(** [str(value)]. *)
Definition scalar_text (x : scalar) : string :=
  match x with
  | SText s => s
  | SInt z => pretty z
  | SBool b => if b then "True" else "False"
  | SNone => "None"
  end.

Definition with_draft (d : Draft) (r : Requirements) : Requirements :=
  {| rq_draft := d; rq_execution := rq_execution r; rq_executables := rq_executables r;
     rq_bindings := rq_bindings r; rq_children := rq_children r |}.
Definition executable_requirement (logical path : string) (r : Requirements) : Requirements :=
  let conflict :=
    match dict_get logical (rq_bindings r) with
    | Some bound => negb (bound =s path)
    | None => false
    end || (startswith logical "/" && negb (logical =s path)) in
  if conflict then
    with_draft (unknown "process" "runtime_contract_conflicting_requirement"
                  "Runtime executable bindings conflict with reviewed identity." (rq_draft r)) r
  else
    {| rq_draft := rq_draft r; rq_execution := rq_execution r;
       rq_executables := rq_executables r;
       rq_bindings := dict_set logical path (rq_bindings r); rq_children := rq_children r |}.
Definition client_requirement (path : string) (r : Requirements) : Requirements :=
  {| rq_draft := rq_draft r; rq_execution := true;
     rq_executables := sorted_set (rq_executables r ++ [path]);
     rq_bindings := rq_bindings r; rq_children := rq_children r |}.
Definition children_requirement (b : bool) (r : Requirements) : Requirements :=
  {| rq_draft := rq_draft r; rq_execution := rq_execution r; rq_executables := rq_executables r;
     rq_bindings := rq_bindings r; rq_children := add_new b (rq_children r) |}.
Definition filesystem_requirement (record : ProvenanceRecord) (path : string) (r : Requirements)
  : res Requirements :=
  if negb (_safe_path path) then
    Ok (with_draft (unknown "filesystem" "runtime_contract_malformed_resource"
                      "Runtime requirement path is ambiguous." (rq_draft r)) r)
  else
    d ← add_filesystem (scalar_text (metadata record "access")) (Some path)
          (scalar_text (metadata record "scope")) (rq_draft r);
    Ok (with_draft d r).

Definition requirement (shell : bool) (r : Requirements) (record : ProvenanceRecord)
  : res Requirements :=
  if negb (declared record) then Ok r
  else if pv_code record =s "runtime.requirement.children" then
    match metadata record "spawn_children" with
    | SBool b => Ok (children_requirement b r)
    | _ => Ok r
    end
  else
    match pv_resource record with
    | None => Ok r
    | Some resource =>
        let path := pr_value resource in
        if pv_code record =s "runtime.requirement.filesystem"
        then filesystem_requirement record path r
        else if pv_code record =s "runtime.requirement.executable" then
          match metadata record "logical_executable" with
          | SText logical => if _safe_path path then Ok (executable_requirement logical path r)
                             else Ok r
          | _ => Ok r
          end
        else if (pv_code record =s "runtime.requirement.client") && negb shell
                && _safe_path path then Ok (client_requirement path r)
        else Ok r
    end.

(** The draft, execution, executables and children after the requirements. *)
Definition requirements_part (review : ActionReview) (p : ProcessDraft) (d : Draft)
  : res (Draft * bool * list string * option bool) :=
  r ← fold_res (requirement (kind_of review =s "shell")) (provenance_records review)
        {| rq_draft := d; rq_execution := pd_execution p; rq_executables := pd_executables p;
           rq_bindings := []; rq_children := [] |};
  let executables := map (λ v, default v (dict_get v (rq_bindings r))) (rq_executables r) in
  match rq_children r with
  | [] => Ok (rq_draft r, rq_execution r, executables, None)
  | [b] => Ok (rq_draft r, rq_execution r, executables, Some b)
  | _ => Ok (unknown "process" "runtime_contract_conflicting_requirement"
               "Runtime child-process requirements conflict." (rq_draft r),
             rq_execution r, executables, None)
  end.

(** ** The contract *)

Definition compact_digest (value : json) : string :=
  sha256 (utf8 (json_dumps float_repr compact_layout value)).
Definition source_of (review : ActionReview) : list (string * json) :=
  [("kind", JStr (kind_of review)); ("operation", JStr (ac_operation (av_action review)));
   ("adapter", jstr (av_adapter review));
   ("effects", Temporal.jstrings (sorted_set (av_effects review)));
   ("provenance_digest",
    match av_provenance review with
    | Some p => JStr (compact_digest (DecisionProvenance_as_dict p))
    | None => JNull
    end)].

Definition derive_runtime_capability_contract (review : ActionReview)
  : res RuntimeCapabilityContract :=
  d ← filesystem_part review (semantics_part review empty_draft);
  d ← network_part review d;
  let d := mcp_version_part review d in
  d ← tool_part review d;
  let '(p, d) := process_part review d in
  '(d, execution, executables, spawn_children) ← requirements_part review p d;
  process ← mk_ProcessCapability float_repr
    {| pc_execution := if adapted review then Some execution else None;
       pc_executables := executables; pc_spawn_children := spawn_children |};
  privilege ← mk_PrivilegeCapability float_repr
    {| vc_escalation := if adapted review then Some (pd_escalation p) else None;
       vc_required_euid := None |};
  mk_RuntimeCapabilityContract sha256 float_repr
    {| rc_action_id := ac_action_id (av_action review);
       rc_action_digest := digest sha256 float_repr (ActionEnvelope_as_dict (av_action review));
       rc_decision := decision_str (av_decision review);
       rc_risk := av_risk review;
       rc_filesystem := sorted_by filesystem_compare (dr_filesystem d);
       rc_network := sorted_by network_compare (dr_network d);
       rc_tools := dr_tools d;
       rc_process := process; rc_privilege := privilege; rc_credentials := [];
       rc_unknowns := sorted_by unknown_compare (dr_unknowns d);
       rc_source := source_of review; rc_contract_id := "" |}.
End derive.
