(* ===== verification/RuntimeBoundary.v ===== *)
(** * Capability boundaries ([ordin/runtime_boundary.py])

    The boundary an operator allows and the check that a contract stays within
    it.  A finding of the check is its state, its code and its domain with the
    value; the check keeps going after a finding, and the strongest state wins. *)
From stdpp Require Import base list strings pretty.
From Stdlib Require Import Bool Ascii ZArith QArith Lia.
From S2P Require Import Prelude PyStr Json JsonText Temporal Requests JsonSchema RuntimeContract.
#[local] Open Scope py_scope.
#[local] Open Scope nat_scope.

Definition RUNTIME_CAPABILITY_BOUNDARY_SCHEMA_VERSION : string :=
  "ordin.runtime_capability_boundary.v1".
Definition DOMAINS : list string :=
  ["filesystem"; "network"; "tools"; "process"; "privilege"; "credentials"].
Definition FILESYSTEM_RIGHTS : list (string * list string) :=
  [("read", ["read"; "metadata"]); ("metadata", ["metadata"]); ("write", ["write"]);
   ("delete", ["delete"]); ("execute", ["execute"])].
Definition NETWORK_RIGHTS : list (string * list string) :=
  [("read", ["read"]); ("write", ["read"; "write"])].
(** [RIGHTS[access]]. *)
Definition rights (table : list (string * list string)) (access : string) : list string :=
  default [] (dict_get access table).
Definition has_rights (table : list (string * list string)) (access : string) : bool :=
  bool_decide (is_Some (dict_get access table)).
Definition issubset (l k : list string) : bool := forallb (λ x, mem x k) l.

Record RuntimeCapabilityBoundary := {
  bd_boundary_id : string;
  bd_filesystem : list FilesystemCapability;
  bd_network : list NetworkCapability;
  bd_tools : list ToolCapability;
  bd_process : ProcessCapability;
  bd_privilege : PrivilegeCapability;
  bd_credentials : list CredentialBinding;
  bd_filesystem_semantics : string;
  bd_runtime_filesystem_guarantees : bool;
  bd_allow_any_executable : bool }.

Definition RuntimeCapabilityBoundary_as_dict (b : RuntimeCapabilityBoundary) : json :=
  JObj [("schema_version", JStr RUNTIME_CAPABILITY_BOUNDARY_SCHEMA_VERSION);
        ("boundary_id", JStr (bd_boundary_id b));
        ("filesystem", JArr (map FilesystemCapability_as_dict (bd_filesystem b)));
        ("network", JArr (map NetworkCapability_as_dict (bd_network b)));
        ("tools", JArr (map ToolCapability_as_dict (bd_tools b)));
        ("process", ProcessCapability_as_dict (bd_process b));
        ("privilege", PrivilegeCapability_as_dict (bd_privilege b));
        ("credentials", JArr (map CredentialBinding_as_dict (bd_credentials b)));
        ("filesystem_semantics", JStr (bd_filesystem_semantics b));
        ("runtime_filesystem_guarantees", JBool (bd_runtime_filesystem_guarantees b));
        ("allow_any_executable", JBool (bd_allow_any_executable b))].

(** ** Paths of requests *)

(** [path.replace("/**", "/placeholder")]. *)
Fixpoint replace_wildcards (fuel : nat) (s : string) : string :=
  match fuel with
  | O => s
  | S fuel =>
      if startswith s "/**" then "/placeholder" +:+ replace_wildcards fuel (str_drop 3 s)
      else match s with
           | String c s' => String c (replace_wildcards fuel s')
           | EmptyString => EmptyString
           end
  end.
Definition count_char (c : ascii) (s : string) : nat := length (split_char c s) - 1.

Definition _request_path (path : string) (pattern : bool) : bool :=
  if has_unsafe_authority_characters path then false
  else if negb (_safe_path (if pattern then replace_wildcards (String.length path) path else path))
  then false
  else if str_exists (one_of "%#?") path || contains path "//" then false
  else negb (contains path "*")
       || (pattern && endswith path "/**" && (count_char "*"%char path =? 2)).

(** [boundary[:-2]] of a boundary that ends with [/**]. *)
Definition wildcard_base (boundary : string) : string :=
  str_take (String.length boundary - 2) boundary.
Definition _rest_path_within (candidate boundary : string) : bool :=
  (candidate =s boundary)
  || (endswith boundary "/**" && startswith candidate (wildcard_base boundary)).

(** ** Findings *)

Inductive state := Exceeds | Unsupported | Inconclusive.
#[export] Instance state_eq_dec : EqDecision state.
Proof. solve_decision. Defined.
Definition state_name (s : state) : string :=
  match s with Exceeds => "exceeds_boundary" | Unsupported => "unsupported"
             | Inconclusive => "inconclusive" end.
Definition priority (s : state) : nat :=
  match s with Exceeds => 3 | Unsupported => 2 | Inconclusive => 1 end.

Record finding := { fi_state : state; fi_code : string; fi_domain : string; fi_value : json }.
Definition fail (s : state) (code domain : string) (value : json) : finding :=
  {| fi_state := s; fi_code := code; fi_domain := domain; fi_value := value |}.
Definition fail_if (c : bool) (f : finding) : list finding := if c then [f] else [].

(** ** Filesystem *)

Definition known_target (c : FilesystemCapability) : bool :=
  has_rights FILESYSTEM_RIGHTS (fc_access c)
  && match fc_path c with Some p => _safe_path p | None => false end
  && negb (fc_scope c =s "unknown").

Inductive verdict := Matches | Unresolved | Apart.
(** One turn of the loop over the maxima. *)
Definition filesystem_maximum (b : RuntimeCapabilityBoundary) (c maximum : FilesystemCapability)
  : verdict :=
  if negb (known_target maximum) then Unresolved
  else if negb (issubset (rights FILESYSTEM_RIGHTS (fc_access c))
                         (rights FILESYSTEM_RIGHTS (fc_access maximum))) then Apart
  else
    let path := default "" (fc_path c) in
    let top := default "" (fc_path maximum) in
    if (top =s path) && ((fc_scope maximum =s "prefix") || (fc_scope c =s "exact")) then Matches
    else if (fc_scope maximum =s "prefix")
            && startswith path (rstrip_char "/"%char top +:+ "/") then
      if (bd_filesystem_semantics b =s "lexical_prefix") && bd_runtime_filesystem_guarantees b
      then Matches else Unresolved
    else Apart.
Definition is_match (v : verdict) : bool := match v with Matches => true | _ => false end.
Definition is_unresolved (v : verdict) : bool := match v with Unresolved => true | _ => false end.

Definition filesystem_findings (b : RuntimeCapabilityBoundary) (c : FilesystemCapability)
  : list finding :=
  if negb (known_target c) then
    [fail Unsupported "runtime_boundary_filesystem_scope_unsupported" "filesystem" JNull]
  else
    let verdicts := map (filesystem_maximum b c) (bd_filesystem b) in
    if existsb is_match verdicts then []
    else if existsb is_unresolved verdicts
    then [fail Unsupported "runtime_boundary_filesystem_prefix_unproven" "filesystem"
            (FilesystemCapability_as_dict c)]
    else [fail Exceeds "filesystem_access_exceeds_boundary" "filesystem"
            (FilesystemCapability_as_dict c)].

(** ** Network *)

Definition opt_eqb {A} `{EqDecision A} (a b : option A) : bool := bool_decide (a = b).

(** What the loop over the maxima of the endpoint collects: whether one covers
    the capability, whether one is not understood, and the REST maxima. *)
Record maxima_scan := {
  ms_matched : bool; ms_unmodeled : bool; ms_rest : list NetworkCapability }.
Definition scan_maximum (c : NetworkCapability) (s : maxima_scan) (m : NetworkCapability)
  : maxima_scan :=
  let unmodeled := {| ms_matched := ms_matched s; ms_unmodeled := true; ms_rest := ms_rest s |} in
  if negb (has_rights NETWORK_RIGHTS (nc_access m)) || (nc_protocol m =s "unknown") then unmodeled
  else if negb (issubset (rights NETWORK_RIGHTS (nc_access c)) (rights NETWORK_RIGHTS (nc_access m)))
  then s
  else if negb (opt_eqb (nc_tool_identity c) (nc_tool_identity m)) then s
  else if nc_protocol m =s "tcp" then
    {| ms_matched := ms_matched s
                     || ((length (nc_methods m) =? 0) && (length (nc_paths m) =? 0));
       ms_unmodeled := ms_unmodeled s; ms_rest := ms_rest s |}
  else if (nc_protocol c =s nc_protocol m) && (nc_protocol m =s "rest") then
    if existsb (λ p, negb (_request_path p true)) (nc_paths m) then unmodeled
    else {| ms_matched := ms_matched s; ms_unmodeled := ms_unmodeled s;
            ms_rest := ms_rest s ++ [m] |}
  else s.

(** The comparison of every method and path with the REST maxima, bounded by
    50,000 comparisons of paths. *)
Definition MAX_COMPARISONS : N := 50000.
Record pair_scan := { ps_covered : bool; ps_exhausted : bool; ps_count : N }.
Fixpoint allowed_loop (path : string) (allowed : list string) (count : N) : pair_scan :=
  match allowed with
  | [] => {| ps_covered := false; ps_exhausted := false; ps_count := count |}
  | a :: allowed' =>
      let count := N.succ count in
      if (MAX_COMPARISONS <? count)%N
      then {| ps_covered := false; ps_exhausted := true; ps_count := count |}
      else if _rest_path_within path a
      then {| ps_covered := true; ps_exhausted := false; ps_count := count |}
      else allowed_loop path allowed' count
  end.

Section verification.
Context (sha256 : string → string) (float_repr : Q → string).
(** The order in which a set of texts is iterated. *)
Context (set_order : list string → list string).
#[local] Abbreviation contract_digest := (contract_digest sha256 float_repr).

Definition mk_RuntimeCapabilityBoundary (b : RuntimeCapabilityBoundary)
  : res RuntimeCapabilityBoundary :=
  _ ← model_tuple (bd_filesystem b);
  _ ← model_tuple (bd_network b);
  _ ← model_tuple (bd_tools b);
  _ ← model_tuple (bd_credentials b);
  _ ← validate float_repr "runtime_capability_boundary" BOUNDARY
        (RuntimeCapabilityBoundary_as_dict b);
  Ok b.
Definition boundary_digest (b : RuntimeCapabilityBoundary) : string :=
  digest sha256 float_repr (RuntimeCapabilityBoundary_as_dict b).

Definition RuntimeCapabilityBoundary_from_dict (payload : json)
  : res RuntimeCapabilityBoundary :=
  _ ← validate float_repr "runtime_capability_boundary" BOUNDARY payload;
  boundary_id ← as_str (jget payload "boundary_id") "boundary_id";
  filesystem ← items_of (FilesystemCapability_from_dict float_repr) (jget payload "filesystem");
  network ← items_of (NetworkCapability_from_dict float_repr) (jget payload "network");
  tools ← items_of (ToolCapability_from_dict float_repr) (jget payload "tools");
  process ← ProcessCapability_from_dict float_repr (jget payload "process");
  privilege ← PrivilegeCapability_from_dict float_repr (jget payload "privilege");
  credentials ← items_of (CredentialBinding_from_dict float_repr) (jget payload "credentials");
  semantics ← as_str (jget payload "filesystem_semantics") "filesystem_semantics";
  guarantees ← as_bool (jget payload "runtime_filesystem_guarantees") "guarantees";
  any_executable ← as_bool (jget payload "allow_any_executable") "allow_any_executable";
  mk_RuntimeCapabilityBoundary
    {| bd_boundary_id := boundary_id; bd_filesystem := filesystem; bd_network := network;
       bd_tools := tools; bd_process := process; bd_privilege := privilege;
       bd_credentials := credentials; bd_filesystem_semantics := semantics;
       bd_runtime_filesystem_guarantees := guarantees;
       bd_allow_any_executable := any_executable |}.

(** ** The check of REST requests *)

Fixpoint maxima_loop (method path : string) (maxima : list NetworkCapability) (count : N)
  : pair_scan :=
  match maxima with
  | [] => {| ps_covered := false; ps_exhausted := false; ps_count := count |}
  | m :: maxima' =>
      if negb (mem method (nc_methods m)) then maxima_loop method path maxima' count
      else
        let s := allowed_loop path (set_order (nc_paths m)) count in
        if ps_covered s || ps_exhausted s then s
        else maxima_loop method path maxima' (ps_count s)
  end.
(** [all_pairs] and [exhausted] after the pairs. *)
Fixpoint pairs_loop (maxima : list NetworkCapability) (pairs : list (string * string)) (count : N)
  : bool * bool :=
  match pairs with
  | [] => (true, false)
  | (method, path) :: pairs' =>
      let s := maxima_loop method path maxima count in
      if ps_exhausted s then (false, true)
      else let '(all_pairs, exhausted) := pairs_loop maxima pairs' (ps_count s) in
           (ps_covered s && all_pairs, exhausted)
  end.

(** ** The check of a network capability *)

Definition network_exceeds (code : string) (c : NetworkCapability) : finding :=
  fail Exceeds code "network" (NetworkCapability_as_dict c).
Definition network_outcome (s : maxima_scan) (matched : bool) (c : NetworkCapability)
  : list finding :=
  if matched then []
  else if ms_unmodeled s
  then [fail Unsupported "runtime_boundary_network_scope_unsupported" "network"
          (NetworkCapability_as_dict c)]
  else [network_exceeds "network_request_exceeds_boundary" c].

Definition network_known (c : NetworkCapability) : bool :=
  bool_decide (is_Some (nc_host c)) && bool_decide (is_Some (nc_port c))
  && negb (nc_protocol c =s "unknown") && has_rights NETWORK_RIGHTS (nc_access c).
Definition tcp_restricted (c : NetworkCapability) : bool :=
  negb (length (nc_methods c) =? 0) || negb (length (nc_paths c) =? 0)
  || opt_truthy (nc_tool_identity c).
Definition rest_unscoped (c : NetworkCapability) : bool :=
  (length (nc_methods c) =? 0) || (length (nc_paths c) =? 0)
  || existsb (λ p, negb (_request_path p false)) (nc_paths c).

Definition network_findings (b : RuntimeCapabilityBoundary) (c : NetworkCapability)
  : list finding :=
  if negb (network_known c) then
    [fail Inconclusive "runtime_boundary_network_unknown" "network" JNull]
  else if negb (mem (nc_protocol c) ["rest"; "tcp"]) then
    [fail Unsupported "runtime_boundary_protocol_unsupported" "network" (JStr (nc_protocol c))]
  else if (nc_protocol c =s "tcp") && tcp_restricted c then
    [fail Unsupported "runtime_boundary_tcp_request_restriction" "network" JNull]
  else if (nc_protocol c =s "rest") && rest_unscoped c then
    [fail Unsupported "runtime_boundary_request_scope_unsupported" "network" JNull]
  else
    match List.filter (λ m, opt_eqb (nc_host m) (nc_host c) && opt_eqb (nc_port m) (nc_port c))
            (bd_network b) with
    | [] => [network_exceeds "network_endpoint_exceeds_boundary" c]
    | maxima =>
        let s := foldl (scan_maximum c)
                   {| ms_matched := false; ms_unmodeled := false; ms_rest := [] |} maxima in
        if negb (ms_matched s) && (nc_protocol c =s "rest") then
          let '(all_pairs, exhausted) :=
            pairs_loop (ms_rest s)
              (list_prod (set_order (nc_methods c)) (set_order (nc_paths c))) 0 in
          if exhausted
          then [fail Inconclusive "runtime_boundary_resource_limit" "network" JNull]
          else network_outcome s all_pairs c
        else network_outcome s (ms_matched s) c
    end.

(** ** The other domains *)

Definition decision_findings (c : RuntimeCapabilityContract) : list finding :=
  fail_if (rc_decision c =s "block")
    (fail Exceeds "runtime_boundary_blocked_decision" "process" JNull).
Definition unknown_domains (domain : string) : list string :=
  if domain =s "semantics" then DOMAINS
  else if domain =s "credential" then ["credentials"]
  else if domain =s "tool" then ["tools"] else [domain].
Definition unknown_findings (u : CapabilityUnknown) : list finding :=
  map (λ domain, fail Unsupported (cu_reason_code u) domain JNull)
    (unknown_domains (cu_domain u)).
Definition tool_findings (b : RuntimeCapabilityBoundary) (t : ToolCapability) : list finding :=
  fail_if (negb (bool_decide (t ∈ bd_tools b)))
    (fail Exceeds "tool_identity_exceeds_boundary" "tools" (ToolCapability_as_dict t)).
Definition credential_findings (b : RuntimeCapabilityBoundary) (c : CredentialBinding)
  : list finding :=
  fail_if (negb (bool_decide (c ∈ bd_credentials b)))
    (fail Exceeds "credential_binding_exceeds_boundary" "credentials"
       (CredentialBinding_as_dict c)).

Definition execution_findings (maximum : ProcessCapability) : list finding :=
  match pc_execution maximum with
  | Some false => [fail Exceeds "process_execution_exceeds_boundary" "process" JNull]
  | None => [fail Inconclusive "runtime_boundary_process_unknown" "process" JNull]
  | Some true => []
  end.
Definition executable_findings (b : RuntimeCapabilityBoundary) (p : ProcessCapability)
  : list finding :=
  if (length (pc_executables p) =? 0) || existsb (λ x, negb (_safe_path x)) (pc_executables p)
  then [fail Unsupported "runtime_boundary_binary_identity_missing" "process" JNull]
  else fail_if (negb (bd_allow_any_executable b)
                && negb (issubset (pc_executables p) (pc_executables (bd_process b))))
         (fail Exceeds "process_binary_exceeds_boundary" "process"
            (jstrings (pc_executables p))).
Definition children_findings (p maximum : ProcessCapability) : list finding :=
  if bool_decide (pc_spawn_children maximum = Some true) then [] else
  match pc_spawn_children p with
  | None => [fail Inconclusive "runtime_boundary_child_process_unknown" "process" JNull]
  | Some true => [fail Exceeds "process_children_exceeds_boundary" "process" JNull]
  | Some false => []
  end.
Definition process_findings (b : RuntimeCapabilityBoundary) (p : ProcessCapability)
  : list finding :=
  match pc_execution p with
  | None => [fail Inconclusive "runtime_boundary_process_unknown" "process" JNull]
  | Some true => execution_findings (bd_process b) ++ executable_findings b p
                 ++ children_findings p (bd_process b)
  | Some false => []
  end.
Definition privilege_findings (p maximum : PrivilegeCapability) : list finding :=
  match vc_escalation p with
  | None => [fail Inconclusive "runtime_boundary_privilege_unknown" "privilege" JNull]
  | Some e => fail_if (e && negb (bool_decide (vc_escalation maximum = Some true)))
                (fail Exceeds "privilege_escalation_exceeds_boundary" "privilege" JNull)
  end
  ++ fail_if (bool_decide (is_Some (vc_required_euid maximum))
              && negb (opt_eqb (vc_required_euid p) (vc_required_euid maximum)))
       (fail (if bool_decide (vc_required_euid p = None) then Inconclusive else Exceeds)
          "runtime_boundary_uid_unproven" "privilege" JNull).

Definition findings_of (c : RuntimeCapabilityContract) (b : RuntimeCapabilityBoundary)
  : list finding :=
  decision_findings c
  ++ flat_map unknown_findings (rc_unknowns c)
  ++ flat_map (filesystem_findings b) (rc_filesystem c)
  ++ flat_map (network_findings b) (rc_network c)
  ++ flat_map (tool_findings b) (rc_tools c)
  ++ process_findings b (rc_process c)
  ++ privilege_findings (rc_privilege c) (bd_privilege b)
  ++ flat_map (credential_findings b) (rc_credentials c).

(** ** The result *)

Record CapabilityVerificationResult := {
  vr_result : string;
  vr_reason_code : string;
  vr_contract_digest : string;
  vr_boundary_digest : string;
  vr_coverage : list (string * bool);
  vr_counterexample : option json;
  vr_unsupported_fields : list string }.

Definition mk_CapabilityVerificationResult (r : CapabilityVerificationResult)
  : res CapabilityVerificationResult :=
  _ ← guard_or (mem (vr_result r)
                  ["within_boundary"; "exceeds_boundary"; "unsupported"; "inconclusive"])
        (ValueError "invalid boundary verification state");
  _ ← guard_or (issubset (map fst (vr_coverage r)) DOMAINS
                && issubset DOMAINS (map fst (vr_coverage r)))
        (ValueError "boundary verification requires complete domain coverage flags");
  _ ← match vr_counterexample r with
      | Some x => freeze MAX_RUNTIME_ITEMS 0 x
      | None => Ok tt
      end;
  _ ← text_tuple (vr_unsupported_fields r);
  _ ← guard_or (negb (vr_result r =s "within_boundary")
                || (forallb snd (vr_coverage r) && (length (vr_unsupported_fields r) =? 0)))
        (ValueError "within_boundary requires complete coverage without unsupported fields");
  Ok r.

(** [max(findings, key=priority)]: the first of the strongest. *)
Fixpoint strongest (best : finding) (l : list finding) : finding :=
  match l with
  | [] => best
  | f :: l' => strongest (if priority (fi_state best) <? priority (fi_state f) then f else best) l'
  end.
Definition uncovers (f : finding) : bool :=
  match fi_state f with Exceeds => false | _ => true end.
Definition cover (coverage : list (string * bool)) (f : finding) : list (string * bool) :=
  if uncovers f then dict_set (fi_domain f) false coverage else coverage.

Definition verify_runtime_capability (c : RuntimeCapabilityContract)
    (b : RuntimeCapabilityBoundary) : res CapabilityVerificationResult :=
  let findings := findings_of c b in
  let '(result, code, counterexample) :=
    match findings with
    | [] => ("within_boundary", "runtime_boundary_within", None)
    | f :: rest =>
        let top := strongest f rest in
        (state_name (fi_state top), fi_code top,
         Some (JObj [("domain", JStr (fi_domain top)); ("value", fi_value top)]))
    end in
  mk_CapabilityVerificationResult
    {| vr_result := result; vr_reason_code := code; vr_contract_digest := contract_digest c;
       vr_boundary_digest := boundary_digest b;
       vr_coverage := foldl cover (map (λ d, (d, true)) DOMAINS) findings;
       vr_counterexample := counterexample;
       vr_unsupported_fields := sorted_set (map fi_code (List.filter uncovers findings)) |}.

Definition ok (r : CapabilityVerificationResult) : bool := vr_result r =s "within_boundary".
End verification.
