(* ===== verification/RuntimeFacts.v ===== *)
(** * Theorems about runtime capabilities ([ordin/runtime_contract.py], [ordin/runtime_boundary.py])

    What a capability and a boundary allow is given as a set of accesses.  The
    check of a contract against a boundary is sound and its refusals are
    genuine; a contract without unknowns covers the effects of the review; and
    contracts and boundaries survive their JSON form. *)
From stdpp Require Import base list strings pretty sorting.
From Stdlib Require Import Bool Ascii ZArith QArith Lia.
From S2P Require Import Prelude PyStr Json Policy Temporal Shell Execution Provenance.
From S2P Require Import Commitment Requests ActionModel JsonSchema RuntimeContract.
From S2P Require Import RuntimeDerive RuntimeBoundary.
#[local] Open Scope py_scope.
#[local] Open Scope nat_scope.

(** ** Paths *)

Lemma str_rev_app_spec s acc : str_rev_app s acc = str_rev s +:+ acc.
Proof.
  revert acc. unfold str_rev. induction s as [|c s IH]; intros acc; cbn; [done|].
  rewrite IH, (IH (String c EmptyString)), str_app_assoc. done.
Qed.
Lemma str_rev_cons c s : str_rev (String c s) = str_rev s +:+ String c EmptyString.
Proof. unfold str_rev at 1. cbn. apply str_rev_app_spec. Qed.
Lemma str_rev_concat s t : str_rev (s +:+ t) = str_rev t +:+ str_rev s.
Proof.
  induction s as [|c s IH]; [by rewrite str_app_nil_r|].
  rewrite str_app_cons, !str_rev_cons, IH. apply str_app_assoc.
Qed.
Lemma str_rev_involutive s : str_rev (str_rev s) = s.
Proof. induction s as [|c s IH]; [done|]. by rewrite str_rev_cons, str_rev_concat, IH. Qed.

Lemma lstrip_by_spec p s : ∃ before,
  s = before +:+ lstrip_by p s ∧ str_forall p before = true ∧
  ∀ c t, lstrip_by p s = String c t → p c = false.
Proof.
  induction s as [|c s (before & E & Hb & Hc)]; [by exists EmptyString|]. cbn.
  destruct (p c) eqn:Hp.
  - exists (String c before). rewrite str_app_cons, <- E. cbn. by rewrite Hp.
  - exists EmptyString. split_and!; [done..|]. by intros ? ? [= <- <-].
Qed.

Lemma str_forall_concat p s t : str_forall p (s +:+ t) = str_forall p s && str_forall p t.
Proof.
  induction s as [|c s IH]; [done|]. rewrite str_app_cons. cbn. rewrite IH. apply andb_assoc.
Qed.
Lemma str_forall_rev p s : str_forall p (str_rev s) = str_forall p s.
Proof.
  induction s as [|c s IH]; [done|]. rewrite str_rev_cons, str_forall_concat, IH. cbn.
  rewrite andb_true_r. apply andb_comm.
Qed.

(** [rstrip_char] cuts a run of the character off the end. *)
Lemma rstrip_char_spec c s : ∃ after,
  s = rstrip_char c s +:+ after ∧ str_forall (Ascii.eqb c) after = true ∧
  ∀ u, rstrip_char c s ≠ u +:+ String c EmptyString.
Proof.
  unfold rstrip_char, rstrip_by.
  destruct (lstrip_by_spec (Ascii.eqb c) (str_rev s)) as (before & E & Hb & Hc).
  exists (str_rev before). split_and!.
  - rewrite <- str_rev_concat, <- E. symmetry. apply str_rev_involutive.
  - by rewrite str_forall_rev.
  - intros u H. apply (f_equal str_rev) in H. rewrite str_rev_involutive, str_rev_concat in H.
    specialize (Hc _ _ H). by rewrite Ascii.eqb_refl in Hc.
Qed.

Lemma app_prefixes a b x y :
  a +:+ x = b +:+ y → (∃ w, b = a +:+ w) ∨ (∃ c w, a = b +:+ String c w).
Proof.
  revert b. induction a as [|c a IH]; intros b H; [left; by exists b|].
  destruct b as [|d b]; [right; by exists c, a|].
  rewrite !str_app_cons in H. injection H as -> H.
  destruct (IH _ H) as [[w ->]|(e & w & ->)].
  - left. exists w. by rewrite str_app_cons.
  - right. exists e, w. by rewrite str_app_cons.
Qed.

(** The directory prefix that the code compares with. *)
Definition dir (path : string) : string := rstrip_char "/"%char path +:+ "/".

Lemma slashes_end s : s ≠ EmptyString → str_forall (Ascii.eqb "/"%char) s = true →
  ∃ u, s = u +:+ "/".
Proof.
  induction s as [|c s IH]; [done|]. cbn [str_forall]. intros _ [Hc%Ascii.eqb_eq Hs]%andb_true_iff. subst c.
  destruct s as [|d s]; [by exists EmptyString|]. destruct IH as [u Hu]; [done..|].
  exists (String "/" u). by rewrite Hu.
Qed.
Lemma str_app_nil_inv (s t : string) : s +:+ t = EmptyString → s = EmptyString ∧ t = EmptyString.
Proof. destruct s; [done|]. by rewrite str_app_cons. Qed.
Lemma str_app_cancel (s t u : string) : s +:+ t = s +:+ u → t = u.
Proof. induction s as [|c s IH]; [done|]. rewrite !str_app_cons. intros [= H]. auto. Qed.

(** A directory below another one has its paths below it. *)
Lemma dir_below top path x :
  startswith path (dir top) = true → startswith x (dir path) = true → startswith x (dir top) = true.
Proof.
  intros (p & Hp)%startswith_iff (y & ->)%startswith_iff. apply startswith_iff. unfold dir in *.
  destruct (rstrip_char_spec "/" path) as (after & E & Hafter & _).
  destruct (rstrip_char_spec "/" top) as (_ & _ & _ & Htop).
  set (t := rstrip_char "/" top) in *. set (q := rstrip_char "/" path) in *. clearbody t q.
  rewrite Hp in E. rewrite str_app_assoc in E.
  destruct (app_prefixes _ _ _ _ E) as [[w ->]|(c & w & Hw)].
  - rewrite !str_app_assoc in *. apply str_app_cancel in E.
    destruct w as [|c w]; [exists y; by rewrite !str_app_assoc|]. rewrite !str_app_cons in E.
    injection E as <- _. exists (w +:+ "/" +:+ y). by rewrite !str_app_assoc.
  - exfalso. subst t. rewrite !str_app_assoc in E. apply str_app_cancel in E.
    rewrite str_app_cons in E. subst after.
    assert (str_forall (Ascii.eqb "/"%char) (String c w) = true) as Hs.
    { change (String c (w +:+ "/" +:+ p)) with (String c w +:+ "/" +:+ p) in Hafter.
      rewrite str_forall_concat in Hafter. by apply andb_true_iff in Hafter as [? _]. }
    destruct (slashes_end (String c w)) as [u Hu]; [done..|].
    apply (Htop (q +:+ u)). rewrite Hu. by rewrite str_app_assoc.
Qed.

(** ** What capabilities and boundaries allow *)

Inductive access :=
| FileAccess (op path : string)
| Connection (host : string) (port : Z) (op : string) (tool : option string)
| Request (host : string) (port : Z) (op : string) (tool : option string) (method path : string)
| UseTool (t : ToolCapability)
| Execution
| RunProgram (path : string)
| SpawnChild
| Escalation
| RunAs (uid : Z)
| UseCredential (c : CredentialBinding).

Definition file_admits (m : FilesystemCapability) (op path : string) : Prop :=
  ∃ top, fc_path m = Some top ∧ op ∈ rights FILESYSTEM_RIGHTS (fc_access m) ∧
    (path = top ∨ fc_scope m = "prefix" ∧ startswith path (dir top) = true).

Definition reaches (m : NetworkCapability) (host : string) (port : Z) (op : string)
    (tool : option string) : Prop :=
  nc_host m = Some host ∧ nc_port m = Some port ∧ op ∈ rights NETWORK_RIGHTS (nc_access m)
  ∧ nc_tool_identity m = tool.
Definition connects (m : NetworkCapability) : Prop :=
  nc_protocol m = "tcp" ∧ nc_methods m = [] ∧ nc_paths m = [].
Definition serves (m : NetworkCapability) (method path : string) : Prop :=
  nc_protocol m = "rest" ∧ method ∈ nc_methods m ∧
  ∃ p, p ∈ nc_paths m ∧ _rest_path_within path p = true.
Definition network_admits (m : NetworkCapability) (a : access) : Prop :=
  match a with
  | Connection host port op tool => reaches m host port op tool ∧ connects m
  | Request host port op tool method path =>
      reaches m host port op tool ∧ (connects m ∨ serves m method path)
  | _ => False
  end.

(** The accesses that a contract is about. *)
Definition requires (c : RuntimeCapabilityContract) (a : access) : Prop :=
  match a with
  | FileAccess op path => ∃ f, f ∈ rc_filesystem c ∧ file_admits f op path
  | Connection _ _ _ _ | Request _ _ _ _ _ _ => ∃ n, n ∈ rc_network c ∧ network_admits n a
  | UseTool t => t ∈ rc_tools c
  | Execution => pc_execution (rc_process c) = Some true
  | RunProgram x => pc_execution (rc_process c) = Some true ∧ x ∈ pc_executables (rc_process c)
  | SpawnChild => pc_execution (rc_process c) = Some true
                  ∧ pc_spawn_children (rc_process c) = Some true
  | Escalation => vc_escalation (rc_privilege c) = Some true
  | RunAs uid => vc_required_euid (rc_privilege c) = Some uid
  | UseCredential k => k ∈ rc_credentials c
  end.
(** The accesses that a boundary allows. *)
Definition allows (b : RuntimeCapabilityBoundary) (a : access) : Prop :=
  match a with
  | FileAccess op path => ∃ f, f ∈ bd_filesystem b ∧ file_admits f op path
  | Connection _ _ _ _ | Request _ _ _ _ _ _ => ∃ n, n ∈ bd_network b ∧ network_admits n a
  | UseTool t => t ∈ bd_tools b
  | Execution => pc_execution (bd_process b) = Some true
  | RunProgram x => bd_allow_any_executable b = true ∨ x ∈ pc_executables (bd_process b)
  | SpawnChild => pc_spawn_children (bd_process b) = Some true
  | Escalation => vc_escalation (bd_privilege b) = Some true
  | RunAs uid => vc_required_euid (bd_privilege b) = None
                 ∨ vc_required_euid (bd_privilege b) = Some uid
  | UseCredential k => k ∈ bd_credentials b
  end.

(** ** Rights *)

(** Every right of a table gives itself, and what it gives. *)
Definition table_closed (table : list (string * list string)) : bool :=
  forallb (λ kv, mem (fst kv) (snd kv)
                 && forallb (λ a, issubset (rights table a) (snd kv)) (snd kv)) table.
Lemma issubset_spec l k : issubset l k = true ↔ l ⊆ k.
Proof.
  unfold issubset. rewrite forallb_forall. setoid_rewrite mem_elem_of.
  by setoid_rewrite <- list_elem_of_In.
Qed.
Lemma issubset_false l k : issubset l k = false → ∃ x, x ∈ l ∧ x ∉ k.
Proof.
  induction l as [|x l IH]; cbn; [done|]. intros [H|H]%andb_false_iff.
  - exists x. split; [left|by apply mem_false].
  - destruct (IH H) as (y & ? & ?). exists y. split; [by right|done].
Qed.
Lemma dict_get_member {A} key (l : list (string * A)) v : dict_get key l = Some v → (key, v) ∈ l.
Proof.
  induction l as [|[k w] l IH]; cbn; [done|]. destruct (String.eqb_spec k key) as [->|].
  - intros [= ->]. left.
  - intros. right. auto.
Qed.
Lemma rights_row table a vs :
  table_closed table = true → dict_get a table = Some vs →
  a ∈ vs ∧ ∀ x, x ∈ vs → rights table x ⊆ vs.
Proof.
  unfold table_closed. rewrite forallb_forall. intros Hc Ha.
  specialize (Hc _ (proj1 (list_elem_of_In _ _) (dict_get_member _ _ _ Ha))). cbn in Hc.
  apply andb_true_iff in Hc as [Hm Hs]. split; [by apply mem_elem_of|].
  intros x Hx. rewrite forallb_forall in Hs. apply issubset_spec, Hs. by apply list_elem_of_In.
Qed.
Lemma rights_self table a :
  table_closed table = true → has_rights table a = true → a ∈ rights table a.
Proof.
  intros Hc [vs Ha]%bool_decide_eq_true. unfold rights. rewrite Ha. by apply (rights_row _ _ _ Hc Ha).
Qed.
Lemma rights_within table a m :
  table_closed table = true → a ∈ rights table m → issubset (rights table a) (rights table m) = true.
Proof.
  intros Hc Ha. apply issubset_spec. unfold rights in Ha |- * at 2.
  destruct (dict_get m table) as [vs|] eqn:Hm; [|by apply elem_of_nil in Ha].
  by apply (rights_row _ _ _ Hc Hm).
Qed.
Lemma rights_known table a m : a ∈ rights table m → has_rights table m = true.
Proof.
  unfold rights, has_rights. destruct (dict_get m table); [done|]. by intros ?%elem_of_nil.
Qed.
Lemma filesystem_closed : table_closed FILESYSTEM_RIGHTS = true. Proof. reflexivity. Qed.
Lemma network_closed : table_closed NETWORK_RIGHTS = true. Proof. reflexivity. Qed.
#[local] Hint Resolve filesystem_closed network_closed : core.

(** ** Filesystem *)

Lemma known_target_inv c : known_target c = true →
  ∃ p, fc_path c = Some p ∧ fc_access c ∈ rights FILESYSTEM_RIGHTS (fc_access c).
Proof.
  unfold known_target. intros [[Hr Hp]%andb_true_iff _]%andb_true_iff.
  destruct (fc_path c) as [p|]; [|done]. exists p. split; [done|]. by apply rights_self.
Qed.

Lemma maximum_matches b c m :
  known_target c = true → filesystem_maximum b c m = Matches →
  ∀ op path, file_admits c op path → file_admits m op path.
Proof.
  intros (p & Hp & _)%known_target_inv Hm op path (top & Htop & Hop & Hpath).
  rewrite Hp in Htop. injection Htop as <-. revert Hm. unfold filesystem_maximum.
  destruct (known_target m) eqn:Hkm; [|done]. apply known_target_inv in Hkm as (t & Ht & _).
  destruct (issubset _ _) eqn:Hs; [|done]. apply issubset_spec in Hs. rewrite Hp, Ht. cbn.
  destruct (_ && _) eqn:Heq.
  - intros _. exists t. split; [done|]. split; [by apply Hs|].
    apply andb_true_iff in Heq as [->%eqb_true Hsc].
    destruct Hpath as [->|[Hcs Hbelow]]; [by left|]. right. split; [|done].
    apply orb_true_iff in Hsc as [?%eqb_true|Hx%eqb_true]; congruence.
  - destruct ((fc_scope m =s "prefix") && _) eqn:Hpre; [|done].
    apply andb_true_iff in Hpre as [Hmp%eqb_true Hbelow]. intros _.
    exists t. split; [done|]. split; [by apply Hs|]. right. split; [done|].
    destruct Hpath as [->|[_ Hx]]; [exact Hbelow|]. exact (dir_below _ _ _ Hbelow Hx).
Qed.

(** The path below a directory that is not the directory. *)
Lemma below_other p : dir p +:+ "x" ≠ p.
Proof.
  unfold dir. destruct (rstrip_char_spec "/" p) as (after & E & Hs & _).
  rewrite E at 2. rewrite str_app_assoc. intros H%str_app_cancel.
  rewrite <- H in Hs. cbn in Hs. done.
Qed.

Lemma maximum_apart b c m :
  known_target c = true → fc_scope c = "exact" ∨ fc_scope c = "prefix" →
  filesystem_maximum b c m = Apart →
  ∃ op path, file_admits c op path ∧ ¬ file_admits m op path.
Proof.
  intros (p & Hp & Hself)%known_target_inv Hscope. unfold filesystem_maximum.
  destruct (known_target m) eqn:Hkm; [|done]. apply known_target_inv in Hkm as (t & Ht & _).
  destruct (issubset _ _) eqn:Hs; cbn [negb].
  2:{ intros _. exists (fc_access c), p. split; [exists p; auto|]. intros (? & _ & Hop & _).
      by rewrite rights_within in Hs. }
  rewrite Hp, Ht. cbn [default id]. fold (dir t).
  destruct (t =s p) eqn:Htp; cbn [andb].
  - apply eqb_true in Htp as ->. destruct (_ || _) eqn:Hsc; [done|]. intros _.
    apply orb_false_iff in Hsc as [Hm Hc]. exists (fc_access c), (dir p +:+ "x"). split.
    + exists p. split_and!; [done..|]. right. split; [|apply startswith_app].
      destruct Hscope as [Hx|Hx]; [by rewrite Hx in Hc|done].
    + intros (q & Hq & _ & [Hq'|[Hq' _]]); [|by rewrite Hq' in Hm].
      rewrite Ht in Hq. injection Hq as <-. by apply below_other in Hq'.
  - intros Hrest. exists (fc_access c), p. split; [exists p; auto|].
    intros (q & Hq & _ & Hpath). rewrite Ht in Hq. injection Hq as <-.
    destruct Hpath as [->|[Hq' Hb]]; [by rewrite String.eqb_refl in Htp|].
    rewrite Hq', Hb, String.eqb_refl in Hrest. cbn [andb] in Hrest. by destruct (_ && _).
Qed.

(** A capability on the filesystem that has no finding is covered by one of the
    maxima; one that exceeds the boundary is covered by none. *)
Lemma filesystem_sound b c :
  filesystem_findings b c = [] →
  ∃ m, m ∈ bd_filesystem b ∧ ∀ op path, file_admits c op path → file_admits m op path.
Proof.
  unfold filesystem_findings. destruct (known_target c) eqn:Hk; [|done]. cbn [negb].
  destruct (existsb is_match _) eqn:Hm; [|by destruct (existsb is_unresolved _)]. intros _.
  apply existsb_exists in Hm as (v & [m [Hv Hin]]%in_map_iff & Hv').
  exists m. split; [by apply list_elem_of_In|]. apply (maximum_matches b); [done|].
  by destruct v.
Qed.
Lemma filesystem_genuine b c f :
  fc_scope c = "exact" ∨ fc_scope c = "prefix" →
  f ∈ filesystem_findings b c → fi_state f = Exceeds →
  ∀ m, m ∈ bd_filesystem b → ∃ op path, file_admits c op path ∧ ¬ file_admits m op path.
Proof.
  intros Hs Hf Hx m Hm. revert Hf. unfold filesystem_findings.
  destruct (known_target c) eqn:Hk; cbn [negb];
    [|intros ->%list_elem_of_singleton; discriminate Hx].
  destruct (existsb is_match _) eqn:H1; [by intros ?%elem_of_nil|].
  destruct (existsb is_unresolved _) eqn:H2;
    [intros ->%list_elem_of_singleton; discriminate Hx|]. intros _.
  assert (In (filesystem_maximum b c m) (map (filesystem_maximum b c) (bd_filesystem b))) as Hin
    by by apply in_map, list_elem_of_In.
  destruct (filesystem_maximum b c m) eqn:Hv.
  - by rewrite (proj2 (existsb_exists _ _)) in H1 by by exists Matches.
  - by rewrite (proj2 (existsb_exists _ _)) in H2 by by exists Unresolved.
  - by apply (maximum_apart b).
Qed.

(** ** Network *)

(** How a maximum of the endpoint counts for a capability. *)
Definition comparable (c m : NetworkCapability) : bool :=
  has_rights NETWORK_RIGHTS (nc_access m) && negb (nc_protocol m =s "unknown")
  && issubset (rights NETWORK_RIGHTS (nc_access c)) (rights NETWORK_RIGHTS (nc_access m))
  && opt_eqb (nc_tool_identity c) (nc_tool_identity m).
Definition counts_tcp (c m : NetworkCapability) : bool :=
  comparable c m && (nc_protocol m =s "tcp")
  && (length (nc_methods m) =? 0) && (length (nc_paths m) =? 0).
Definition both_rest (c m : NetworkCapability) : bool :=
  comparable c m && negb (nc_protocol m =s "tcp")
  && (nc_protocol c =s nc_protocol m) && (nc_protocol m =s "rest").
Definition clean_paths (m : NetworkCapability) : bool :=
  negb (existsb (λ p, negb (_request_path p true)) (nc_paths m)).
Definition counts_rest (c m : NetworkCapability) : bool := both_rest c m && clean_paths m.
Definition unmodeled (c m : NetworkCapability) : bool :=
  negb (has_rights NETWORK_RIGHTS (nc_access m)) || (nc_protocol m =s "unknown")
  || (both_rest c m && negb (clean_paths m)).

Lemma scan_one c s m :
  scan_maximum c s m =
  {| ms_matched := ms_matched s || counts_tcp c m;
     ms_unmodeled := ms_unmodeled s || unmodeled c m;
     ms_rest := ms_rest s ++ (if counts_rest c m then [m] else []) |}.
Proof.
  unfold scan_maximum, counts_rest, unmodeled, counts_tcp, both_rest, comparable, clean_paths.
  destruct s as [a u l]; cbn [ms_matched ms_unmodeled ms_rest].
  destruct (has_rights _ _), (nc_protocol m =s "unknown"), (issubset _ _), (opt_eqb _ _),
    (nc_protocol m =s "tcp"), (nc_protocol c =s nc_protocol m), (nc_protocol m =s "rest"),
    (existsb _ _), a, u; cbn; rewrite ?app_nil_r; reflexivity.
Qed.
Lemma scan_spec c l s :
  foldl (scan_maximum c) s l =
  {| ms_matched := ms_matched s || existsb (counts_tcp c) l;
     ms_unmodeled := ms_unmodeled s || existsb (unmodeled c) l;
     ms_rest := ms_rest s ++ List.filter (counts_rest c) l |}.
Proof.
  revert s. induction l as [|m l IH]; intros s; cbn.
  - rewrite !orb_false_r, app_nil_r. by destruct s.
  - rewrite IH, scan_one. cbn. rewrite <- !orb_assoc, <- app_assoc. f_equal. f_equal.
    by destruct (counts_rest c m).
Qed.

(** *** The comparison of methods and paths *)

Definition covers_pair (maxima : list NetworkCapability) (method path : string) : Prop :=
  ∃ m, m ∈ maxima ∧ method ∈ nc_methods m ∧
    ∃ p, p ∈ nc_paths m ∧ _rest_path_within path p = true.

Lemma allowed_loop_spec path l n :
  let s := allowed_loop path l n in
  (ps_covered s = true → ∃ p, p ∈ l ∧ _rest_path_within path p = true) ∧
  (ps_covered s = false → ps_exhausted s = false → ∀ p, p ∈ l → _rest_path_within path p = false) ∧
  (ps_exhausted s = true → ps_covered s = false).
Proof.
  revert n. induction l as [|a l IH]; intros n; cbn.
  { split_and!; [done| |done]. by intros _ _ p ?%elem_of_nil. }
  destruct (_ <? _)%N; cbn; [done|]. destruct (_rest_path_within path a) eqn:Ha; cbn.
  { split_and!; [|done..]. intros _. exists a. split; [left|done]. }
  destruct (IH (N.succ n)) as (H1 & H2 & H3). split_and!; [|intros Hc He p|done].
  - intros (p & Hp & ?)%H1. exists p. split; [by right|done].
  - intros [->|Hp]%elem_of_cons; [done|]. by apply H2.
Qed.

Section facts.
Context (sha256 : string → string) (float_repr : Q → string).
Context (set_order : list string → list string).
(** A set is iterated over its members. *)
Hypothesis set_order_elem : ∀ l x, x ∈ set_order l ↔ x ∈ l.

Lemma maxima_loop_spec method path l n :
  let s := maxima_loop set_order method path l n in
  (ps_covered s = true → covers_pair l method path) ∧
  (ps_covered s = false → ps_exhausted s = false → ¬ covers_pair l method path) ∧
  (ps_exhausted s = true → ps_covered s = false).
Proof.
  assert (∀ m l, covers_pair l method path → covers_pair (m :: l) method path) as Hcons.
  { intros m k (x & Hx & H). exists x. split; [by right|done]. }
  revert n. induction l as [|m l IH]; intros n; cbn.
  { split_and!; [done| |done]. intros _ _ (m & Hm & _). by apply elem_of_nil in Hm. }
  destruct (mem method (nc_methods m)) eqn:Hm; cbn.
  - destruct (allowed_loop_spec path (set_order (nc_paths m)) n) as (H1 & H2 & H3).
    destruct (ps_covered (allowed_loop _ _ _)) eqn:Hc; cbn [orb].
    { rewrite Hc. split_and!; [|done|by intros Hx; specialize (H3 Hx)]. intros _.
      destruct (H1 eq_refl) as (p & Hp%(proj1 (set_order_elem _ _)) & Hw).
      exists m. split; [left|]. split; [by apply mem_elem_of|by exists p]. }
    destruct (ps_exhausted (allowed_loop _ _ _)) eqn:He.
    { rewrite Hc, He. done. }
    destruct (IH (ps_count (allowed_loop path (set_order (nc_paths m)) n))) as (I1 & I2 & I3).
    split_and!; [auto| |done]. intros Hc' He' (x & [->|Hx]%elem_of_cons & Hmeth & p & Hp & Hw).
    + specialize (H2 eq_refl eq_refl p (proj2 (set_order_elem _ _) Hp)). congruence.
    + apply (I2 Hc' He'). by exists x; eauto.
  - destruct (IH n) as (I1 & I2 & I3). split_and!; [auto| |done].
    intros Hc He (x & [->|Hx]%elem_of_cons & Hmeth & Hp).
    + by apply mem_elem_of in Hmeth; rewrite Hmeth in Hm.
    + apply (I2 Hc He). by exists x.
Qed.

Lemma pairs_loop_spec maxima l n :
  (pairs_loop set_order maxima l n = (true, false) →
   ∀ method path, (method, path) ∈ l → covers_pair maxima method path) ∧
  (pairs_loop set_order maxima l n = (false, false) →
   ∃ method path, (method, path) ∈ l ∧ ¬ covers_pair maxima method path).
Proof.
  revert n. induction l as [|[method path] l IH]; intros n; cbn.
  { split; [|done]. by intros _ ? ? ?%elem_of_nil. }
  destruct (maxima_loop_spec method path maxima n) as (H1 & H2 & _).
  destruct (ps_exhausted _) eqn:He; [done|].
  destruct (pairs_loop _ _ _ _) as [all exhausted] eqn:Hp.
  destruct (IH (ps_count (maxima_loop set_order method path maxima n))) as [I1 I2].
  rewrite Hp in I1, I2. split.
  - intros [= [Hc ->]%andb_true_iff ->] m p [[= -> ->]|Hin]%elem_of_cons; [auto|].
    by apply I1.
  - intros [= Hc ->]. apply andb_false_iff in Hc as [Hc| ->].
    + exists method, path. split; [left|auto].
    + destruct I2 as (m & p & Hin & Hn); [done|]. exists m, p. split; [by right|done].
Qed.

Lemma opt_eqb_true {A} `{EqDecision A} (a b : option A) : opt_eqb a b = true ↔ a = b.
Proof. apply bool_decide_eq_true. Qed.
Lemma empty_list {A} (l : list A) : (length l =? 0) = true ↔ l = [].
Proof. rewrite Nat.eqb_eq. apply length_zero_iff_nil. Qed.

Lemma comparable_iff c m :
  comparable c m = true ↔
  has_rights NETWORK_RIGHTS (nc_access m) = true ∧ nc_protocol m ≠ "unknown" ∧
  rights NETWORK_RIGHTS (nc_access c) ⊆ rights NETWORK_RIGHTS (nc_access m) ∧
  nc_tool_identity c = nc_tool_identity m.
Proof.
  unfold comparable. rewrite !andb_true_iff, negb_true_iff, String.eqb_neq, issubset_spec,
    opt_eqb_true. tauto.
Qed.
Lemma counts_tcp_iff c m : counts_tcp c m = true ↔ comparable c m = true ∧ connects m.
Proof.
  unfold counts_tcp, connects. rewrite !andb_true_iff, eqb_true, !empty_list. tauto.
Qed.
Lemma counts_rest_iff c m :
  counts_rest c m = true ↔
  comparable c m = true ∧ nc_protocol c = "rest" ∧ nc_protocol m = "rest" ∧ clean_paths m = true.
Proof.
  unfold counts_rest, both_rest. rewrite !andb_true_iff, negb_true_iff, !eqb_true, String.eqb_neq.
  split; [naive_solver congruence|]. intros (? & ? & Hm & ?). rewrite Hm. naive_solver.
Qed.

(** The maxima of the endpoint of a capability. *)
Definition at_endpoint (b : RuntimeCapabilityBoundary) (c : NetworkCapability)
  : list NetworkCapability :=
  List.filter (λ m, opt_eqb (nc_host m) (nc_host c) && opt_eqb (nc_port m) (nc_port c))
    (bd_network b).
Lemma at_endpoint_elem b c m :
  m ∈ at_endpoint b c ↔ m ∈ bd_network b ∧ nc_host m = nc_host c ∧ nc_port m = nc_port c.
Proof.
  unfold at_endpoint. rewrite !list_elem_of_In, filter_In, andb_true_iff, !opt_eqb_true. done.
Qed.
Lemma in_filter {A} (f : A → bool) l x : x ∈ List.filter f l ↔ x ∈ l ∧ f x = true.
Proof. by rewrite !list_elem_of_In, filter_In. Qed.
Lemma existsb_elem {A} (f : A → bool) l : existsb f l = true ↔ ∃ x, x ∈ l ∧ f x = true.
Proof. rewrite existsb_exists. by setoid_rewrite list_elem_of_In. Qed.

(** A plain path matches only itself. *)
Lemma contains_eq s needle :
  contains s needle =
  startswith s needle || match s with EmptyString => false | String _ s' => contains s' needle end.
Proof. by destruct s. Qed.
Lemma contains_app a b c : contains (a +:+ b +:+ c) b = true.
Proof.
  induction a as [|x a IH]; rewrite contains_eq.
  - change (EmptyString +:+ b +:+ c) with (b +:+ c). by rewrite startswith_app.
  - rewrite str_app_cons, IH. apply orb_true_r.
Qed.
Lemma endswith_iff s p : endswith s p = true ↔ ∃ t, s = t +:+ p.
Proof.
  unfold endswith. change (String.prefix (str_rev p) (str_rev s)) with
    (startswith (str_rev s) (str_rev p)). rewrite startswith_iff. split.
  - intros [t H]. exists (str_rev t). apply (f_equal str_rev) in H.
    by rewrite str_rev_concat, !str_rev_involutive in H.
  - intros [t ->]. exists (str_rev t). by rewrite str_rev_concat.
Qed.
Lemma plain_path p : _request_path p false = true → ∀ x, _rest_path_within x p = true ↔ x = p.
Proof.
  unfold _request_path, _rest_path_within. intros Hp x.
  destruct (has_unsafe_authority_characters p); [done|].
  destruct (negb (_safe_path p)); [done|]. destruct (_ || _); [done|].
  cbn [andb orb] in Hp. rewrite orb_false_r in Hp. apply negb_true_iff in Hp.
  rewrite orb_true_iff, eqb_true, andb_true_iff. split; [|by left]. intros [?|[H _]]; [done|].
  apply endswith_iff in H as [t ->]. exfalso.
  assert (contains (t +:+ "/*" +:+ "*") "*" = true) as Hc.
  { pose proof (contains_app (t +:+ "/*") "*" EmptyString) as H. rewrite str_app_assoc in H.
    exact H. }
  change ("/**") with ("/*" +:+ "*") in Hp. congruence.
Qed.

(** What the capability needs when it has no unknown part. *)
Definition scoped (c : NetworkCapability) : Prop :=
  is_Some (nc_host c) ∧ is_Some (nc_port c) ∧
  nc_access c ∈ rights NETWORK_RIGHTS (nc_access c) ∧
  (connects c ∨
   nc_protocol c = "rest" ∧ nc_methods c ≠ [] ∧ nc_paths c ≠ [] ∧
   ∀ p, p ∈ nc_paths c → _request_path p false = true).

(** A capability whose scope is understood is compared with the maxima. *)
Definition compared (b : RuntimeCapabilityBoundary) (c : NetworkCapability) : list finding :=
  match at_endpoint b c with
  | [] => [network_exceeds "network_endpoint_exceeds_boundary" c]
  | maxima =>
      let s := foldl (scan_maximum c)
                 {| ms_matched := false; ms_unmodeled := false; ms_rest := [] |} maxima in
      if negb (ms_matched s) && (nc_protocol c =s "rest") then
        let '(all_pairs, exhausted) :=
          pairs_loop set_order (ms_rest s)
            (list_prod (set_order (nc_methods c)) (set_order (nc_paths c))) 0 in
        if exhausted
        then [fail Inconclusive "runtime_boundary_resource_limit" "network" JNull]
        else network_outcome s all_pairs c
      else network_outcome s (ms_matched s) c
  end.
Lemma network_scoped b c :
  scoped c ∧ network_findings set_order b c = compared b c ∨
  ∃ f, network_findings set_order b c = [f] ∧ fi_state f ≠ Exceeds.
Proof.
  unfold network_findings. fold (at_endpoint b c).
  destruct (network_known c) eqn:Hk; cbn [negb]; [|right; by eexists].
  destruct (mem (nc_protocol c) ["rest"; "tcp"]) eqn:Hp; cbn [negb]; [|right; by eexists].
  destruct ((nc_protocol c =s "tcp") && _) eqn:Ht; [right; by eexists|].
  destruct ((nc_protocol c =s "rest") && _) eqn:Hr; [right; by eexists|].
  left. split; [|done]. unfold network_known in Hk. split_bools.
  split_and!; [done..|by apply rights_self|]. apply mem_elem_of in Hp.
  apply elem_of_cons in Hp as [Hp|Hp]; [|apply list_elem_of_singleton in Hp].
  - right. rewrite Hp in Hr. cbn in Hr. unfold rest_unscoped in Hr.
    apply orb_false_iff in Hr as [[Hm Hq]%orb_false_iff Hx]. split_and!; [done| | |].
    + intros E. by rewrite E in Hm.
    + intros E. by rewrite E in Hq.
    + intros p Hpp. destruct (_request_path p false) eqn:E; [done|].
      rewrite (proj2 (existsb_elem _ _)) in Hx; [done|]. exists p. by rewrite E.
  - left. rewrite Hp in Ht. cbn in Ht. unfold tcp_restricted in Ht.
    apply orb_false_iff in Ht as [[Hm Hq]%orb_false_iff _].
    apply negb_false_iff, empty_list in Hm. apply negb_false_iff, empty_list in Hq. done.
Qed.

(** What the maxima of the endpoint must give the capability. *)
Definition within_maxima (maxima : list NetworkCapability) (c : NetworkCapability) : Prop :=
  (∃ m, m ∈ maxima ∧ counts_tcp c m = true) ∨
  nc_protocol c = "rest" ∧
  ∀ method path, method ∈ nc_methods c → path ∈ nc_paths c →
    covers_pair (List.filter (counts_rest c) maxima) method path.

Lemma in_product (l k : list string) x y :
  (x, y) ∈ list_prod (set_order l) (set_order k) ↔ x ∈ l ∧ y ∈ k.
Proof. by rewrite list_elem_of_In, in_prod_iff, <- !list_elem_of_In, !set_order_elem. Qed.

Lemma network_outcome_nil s matched c : network_outcome s matched c = [] ↔ matched = true.
Proof. unfold network_outcome. destruct matched, (ms_unmodeled s); naive_solver. Qed.

Lemma compared_sound b c : compared b c = [] → within_maxima (at_endpoint b c) c.
Proof.
  unfold compared, within_maxima. destruct (at_endpoint b c) as [|m0 l0]; [done|].
  set (maxima := m0 :: l0). cbv zeta. rewrite scan_spec. cbn [ms_matched ms_rest orb app].
  destruct (existsb (counts_tcp c) maxima) eqn:Hm; cbn [negb andb].
  { intros _. left. by apply existsb_elem in Hm. }
  destruct (nc_protocol c =s "rest") eqn:Hp; [|by intros H%network_outcome_nil].
  apply eqb_true in Hp. destruct (pairs_loop _ _ _ _) as [all exhausted] eqn:Hl.
  destruct exhausted; [done|]. intros ->%network_outcome_nil. right. split; [done|].
  intros method path Hme Hpa.
  apply (proj1 (pairs_loop_spec _ _ _) Hl). by apply in_product.
Qed.
Lemma compared_genuine b c f :
  f ∈ compared b c → fi_state f = Exceeds →
  at_endpoint b c = [] ∨
  existsb (counts_tcp c) (at_endpoint b c) = false ∧
  existsb (unmodeled c) (at_endpoint b c) = false ∧
  (nc_protocol c = "rest" → ∃ method path, method ∈ nc_methods c ∧ path ∈ nc_paths c ∧
     ¬ covers_pair (List.filter (counts_rest c) (at_endpoint b c)) method path).
Proof.
  unfold compared. destruct (at_endpoint b c) as [|m0 l0]; [by left|].
  set (maxima := m0 :: l0). cbv zeta. rewrite scan_spec. cbn [ms_matched ms_rest orb app].
  intros Hf Hx. right.
  assert (∀ s matched, f ∈ network_outcome s matched c →
    matched = false ∧ ms_unmodeled s = false) as Hout.
  { intros s matched. unfold network_outcome. destruct matched; [by intros ?%elem_of_nil|].
    destruct (ms_unmodeled s); [|done]. intros ->%list_elem_of_singleton. discriminate Hx. }
  destruct (existsb (counts_tcp c) maxima) eqn:Hm; cbn [negb andb] in Hf.
  { by destruct (Hout _ _ Hf). }
  destruct (nc_protocol c =s "rest") eqn:Hp.
  - destruct (pairs_loop _ _ _ _) as [all exhausted] eqn:Hl. destruct exhausted.
    { apply list_elem_of_singleton in Hf as ->. discriminate Hx. }
    destruct (Hout _ _ Hf) as [-> Hu]. split_and!; [done..|]. intros _.
    destruct (proj2 (pairs_loop_spec _ _ _) Hl) as (me & pa & [? ?]%in_product & ?). eauto.
  - destruct (Hout _ _ Hf) as [_ Hu]. split_and!; [done..|]. intros H. by rewrite H in Hp.
Qed.

Lemma reaches_mono c m host port op tool :
  comparable c m = true → nc_host m = nc_host c → nc_port m = nc_port c →
  reaches c host port op tool → reaches m host port op tool.
Proof.
  intros (_ & _ & Hsub & Ht)%comparable_iff Hh Hp (? & ? & Hop & ?).
  split_and!; [congruence..|by apply Hsub|congruence].
Qed.

(** A network capability without a finding has all its accesses allowed; one
    that exceeds the boundary has one that is not. *)
Lemma network_sound b c a :
  network_findings set_order b c = [] → network_admits c a →
  ∃ m, m ∈ bd_network b ∧ network_admits m a.
Proof.
  intros Hf. destruct (network_scoped b c) as [[(_ & _ & _ & Hsc) E]|(f & E & _)];
    rewrite E in Hf; [|done]. apply compared_sound in Hf as [(m & Hm & Hc)|[Hr Hc]].
  - apply at_endpoint_elem in Hm as (Hm & Hh & Hp). apply counts_tcp_iff in Hc as [Hc Ht].
    intros Ha. exists m. split; [done|]. destruct a; try done; cbn in *.
    + split; [|done]. eapply reaches_mono; naive_solver.
    + split; [|by left]. eapply reaches_mono; naive_solver.
  - intros Ha. destruct a; try done.
    + destruct Ha as [_ [Ht _]]. congruence.
    + destruct Ha as [Hre [[Ht _]|(_ & Hme & p & Hp & Hw)]]; [congruence|].
      destruct Hsc as [[Ht _]|(_ & _ & _ & Hplain)]; [congruence|].
      apply plain_path in Hw; [subst p|by apply Hplain].
      destruct (Hc _ _ Hme Hp) as (m & [Hm Hcm]%in_filter & Hmm & q & Hq & Hw).
      apply at_endpoint_elem in Hm as (Hm & Hh & Hpo).
      apply counts_rest_iff in Hcm as (Hcm & _ & Hmr & _).
      exists m. split; [done|]. split; [by eapply reaches_mono|]. right. split; [done|]. split; [done|]. by exists q.
Qed.

Lemma network_genuine b c f :
  f ∈ network_findings set_order b c → fi_state f = Exceeds →
  ∃ a, network_admits c a ∧ ∀ m, m ∈ bd_network b → ¬ network_admits m a.
Proof.
  intros Hf Hx. destruct (network_scoped b c) as [[([h Hh] & [p Hp] & Hop & Hsc) E]|(g & E & Hg)];
    rewrite E in Hf; [|apply list_elem_of_singleton in Hf as ->; done].
  pose proof (compared_genuine _ _ _ Hf Hx) as Hgen.
  assert (∀ m op tool, op = nc_access c → tool = nc_tool_identity c → m ∈ bd_network b →
    reaches m h p op tool → m ∈ at_endpoint b c ∧
    has_rights NETWORK_RIGHTS (nc_access m) = true ∧
    (nc_protocol m ≠ "unknown" → comparable c m = true)) as Hcmp.
  { intros m op tool -> -> Hm (Hmh & Hmp & Hmo & Hmt). split.
    { apply at_endpoint_elem. split_and!; [done|congruence..]. }
    pose proof (rights_known _ _ _ Hmo). split; [done|]. intros Hu. apply comparable_iff.
    split_and!; [done..| |done]. apply issubset_spec. by apply rights_within. }
  destruct Hsc as [Ht|(Hr & Hme & Hpa & Hplain)].
  - exists (Connection h p (nc_access c) (nc_tool_identity c)). split; [by split|].
    intros m Hm [Hre Hmt]. destruct (Hcmp _ _ _ eq_refl eq_refl Hm Hre) as (Hin & _ & Hc).
    destruct Hgen as [E0|(Hn & _)]; [rewrite E0 in Hin; by apply elem_of_nil in Hin|].
    rewrite (proj2 (existsb_elem _ _)) in Hn; [done|]. exists m. split; [done|].
    apply counts_tcp_iff. split; [|done]. apply Hc. destruct Hmt as [-> _]. done.
  - assert (∃ method path, method ∈ nc_methods c ∧ path ∈ nc_paths c ∧
      (at_endpoint b c = [] ∨ existsb (counts_tcp c) (at_endpoint b c) = false ∧
       existsb (unmodeled c) (at_endpoint b c) = false ∧
       ¬ covers_pair (List.filter (counts_rest c) (at_endpoint b c)) method path))
      as (me & pa & Hme' & Hpa' & Hcase).
    { destruct Hgen as [E0|(H1 & H2 & H3)].
      - destruct (nc_methods c) as [|me l], (nc_paths c) as [|pa k]; try done.
        exists me, pa. split_and!; [left..|by left].
      - destruct (H3 Hr) as (me & pa & ? & ? & ?). exists me, pa. eauto 10. }
    exists (Request h p (nc_access c) (nc_tool_identity c) me pa). split.
    { split; [by split|]. right. split_and!; [done..|]. exists pa. split; [done|].
      apply plain_path; auto. }
    intros m Hm [Hre Hmc]. destruct (Hcmp _ _ _ eq_refl eq_refl Hm Hre) as (Hin & Hk & Hc).
    destruct Hcase as [E0|(Hn & Hu & Hnc)]; [rewrite E0 in Hin; by apply elem_of_nil in Hin|].
    destruct Hmc as [Hmt|(Hmr & Hmm & q & Hq & Hw)].
    + rewrite (proj2 (existsb_elem _ _)) in Hn; [done|]. exists m. split; [done|].
      apply counts_tcp_iff. split; [|done]. apply Hc. destruct Hmt as [-> _]. done.
    + apply Hnc. exists m. split; [|by eauto]. apply in_filter. split; [done|].
      apply counts_rest_iff. split_and!; [apply Hc; by rewrite Hmr|done..|].
      destruct (clean_paths m) eqn:Hcl; [done|]. exfalso.
      rewrite (proj2 (existsb_elem _ _)) in Hu; [done|]. exists m. split; [done|].
      unfold unmodeled, both_rest. rewrite Hcl, Hc by (by rewrite Hmr).
      by rewrite Hk, Hmr, Hr.
Qed.

(** ** The result of the check *)

Lemma strongest_in f l : strongest f l ∈ f :: l.
Proof.
  revert f. induction l as [|g l IH]; intros f; cbn [strongest]; [left|].
  specialize (IH (if priority (fi_state f) <? priority (fi_state g) then g else f)).
  apply elem_of_cons in IH as [->|H]; [|by right; right]. case_match; [right; left|left].
Qed.

Lemma verify_result c b r :
  verify_runtime_capability sha256 float_repr set_order c b = Ok r →
  (ok r = true → findings_of set_order c b = []) ∧
  (vr_result r = "exceeds_boundary" → ∃ f, f ∈ findings_of set_order c b ∧ fi_state f = Exceeds).
Proof.
  unfold verify_runtime_capability. cbv zeta.
  destruct (findings_of set_order c b) as [|f l]; unfold mk_CapabilityVerificationResult; intros H;
    inv_res; split; unfold ok; cbn [vr_result]; try done.
  - by destruct (fi_state (strongest f l)).
  - intros Hs. exists (strongest f l). split; [apply strongest_in|].
    by destruct (fi_state (strongest f l)).
Qed.

Lemma flat_map_nil {A B} (f : A → list B) l x : flat_map f l = [] → x ∈ l → f x = [].
Proof.
  induction l as [|y l IH]; [by intros _ ?%elem_of_nil|]. cbn.
  intros [H1 H2]%app_nil [->|Hx]%elem_of_cons; auto.
Qed.
Lemma in_flat_map_elem {A B} (f : A → list B) l y : y ∈ flat_map f l ↔ ∃ x, x ∈ l ∧ y ∈ f x.
Proof. rewrite list_elem_of_In, in_flat_map. by setoid_rewrite list_elem_of_In. Qed.
Lemma fail_if_nil c f : fail_if c f = [] ↔ c = false.
Proof. destruct c; cbn; naive_solver. Qed.
Lemma fail_if_elem c f g : g ∈ fail_if c f ↔ c = true ∧ g = f.
Proof. destruct c; cbn; rewrite ?elem_of_nil, ?list_elem_of_singleton; naive_solver. Qed.

Lemma process_sound b p :
  process_findings b p = [] →
  pc_execution p ≠ None ∧
  (pc_execution p = Some true →
   pc_execution (bd_process b) = Some true ∧
   (bd_allow_any_executable b = true ∨ pc_executables p ⊆ pc_executables (bd_process b)) ∧
   (pc_spawn_children p = Some true → pc_spawn_children (bd_process b) = Some true)).
Proof.
  unfold process_findings. destruct (pc_execution p) as [[]|]; [|done..].
  intros [H1 [H2 H3]%app_nil]%app_nil. split; [done|]. intros _. split_and!.
  - unfold execution_findings in H1. by destruct (pc_execution (bd_process b)) as [[]|].
  - unfold executable_findings in H2. destruct (_ || _); [done|].
    apply fail_if_nil in H2. destruct (bd_allow_any_executable b); [by left|]. right.
    apply negb_false_iff in H2. by apply issubset_spec.
  - unfold children_findings in H3. case_bool_decide; [done|]. intros E. by rewrite E in H3.
Qed.
Lemma process_genuine b p f :
  f ∈ process_findings b p → fi_state f = Exceeds →
  pc_execution p = Some true ∧
  (pc_execution (bd_process b) = Some false ∨
   (∃ x, x ∈ pc_executables p ∧ bd_allow_any_executable b = false ∧
      x ∉ pc_executables (bd_process b)) ∨
   pc_spawn_children p = Some true ∧ pc_spawn_children (bd_process b) ≠ Some true).
Proof.
  unfold process_findings. destruct (pc_execution p) as [[]|]; cbn.
  2:{ by intros ?%elem_of_nil. }
  2:{ intros ->%list_elem_of_singleton. discriminate. }
  intros [H|[H|H]%elem_of_app]%elem_of_app Hx; (split; [done|]).
  - left. unfold execution_findings in H.
    destruct (pc_execution (bd_process b)) as [[]|]; [by apply elem_of_nil in H|done|].
    apply list_elem_of_singleton in H as ->. discriminate Hx.
  - right; left. unfold executable_findings in H. destruct (_ || _).
    { apply list_elem_of_singleton in H as ->. discriminate Hx. }
    apply fail_if_elem in H as [[Ha Hs]%andb_true_iff _].
    apply negb_true_iff in Ha, Hs. apply issubset_false in Hs as (x & ? & ?). eauto.
  - right; right. unfold children_findings in H. case_bool_decide; [by apply elem_of_nil in H|].
    destruct (pc_spawn_children p) as [[]|]; [done|by apply elem_of_nil in H|].
    apply list_elem_of_singleton in H as ->. discriminate Hx.
Qed.

Lemma privilege_sound p maximum :
  privilege_findings p maximum = [] →
  vc_escalation p ≠ None ∧
  (vc_escalation p = Some true → vc_escalation maximum = Some true) ∧
  (vc_required_euid maximum = None ∨ vc_required_euid p = vc_required_euid maximum).
Proof.
  unfold privilege_findings. intros [H1 H2%fail_if_nil]%app_nil.
  destruct (vc_escalation p) as [e|]; [|done]. apply fail_if_nil in H1. split_and!; [done| |].
  - intros [= ->]. cbn in H1. apply negb_false_iff in H1. by apply bool_decide_eq_true in H1.
  - apply andb_false_iff in H2 as [H2|H2].
    + left. apply bool_decide_eq_false in H2. by apply eq_None_not_Some.
    + right. apply negb_false_iff in H2. by apply opt_eqb_true.
Qed.
Lemma privilege_genuine p maximum f :
  f ∈ privilege_findings p maximum → fi_state f = Exceeds →
  vc_escalation p = Some true ∧ vc_escalation maximum ≠ Some true ∨
  ∃ uid, vc_required_euid p = Some uid ∧ vc_required_euid maximum ≠ None ∧
    vc_required_euid maximum ≠ Some uid.
Proof.
  unfold privilege_findings. intros [H|H]%elem_of_app Hx.
  - left. destruct (vc_escalation p) as [e|].
    + apply fail_if_elem in H as [[-> Hn]%andb_true_iff _]. split_bools. done.
    + apply list_elem_of_singleton in H as ->. discriminate Hx.
  - right. apply fail_if_elem in H as [[H1 H2]%andb_true_iff ->]. split_bools.
    destruct (vc_required_euid p) as [uid|]; [|discriminate Hx]. exists uid.
    split_and!; [done| |].
    + intros E. rewrite E in H1. by destruct H1.
    + intros E. unfold opt_eqb in H2.
      apply bool_decide_eq_false in H2. congruence.
Qed.

Lemma no_findings c b :
  findings_of set_order c b = [] →
  rc_decision c ≠ "block" ∧ rc_unknowns c = [] ∧
  (∀ n, n ∈ rc_network c → network_findings set_order b n = []) ∧
  ∀ a, requires c a → allows b a.
Proof.
  unfold findings_of. intros H.
  rewrite !app_nil in H. destruct H as (Hd & Hu & Hf & Hn & Ht & Hp & Hv & Hc).
  apply fail_if_nil in Hd. apply String.eqb_neq in Hd. split; [done|]. split.
  { destruct (rc_unknowns c) as [|u us]; [done|]. cbn in Hu. apply app_nil in Hu as [Hu _].
    revert Hu. unfold unknown_findings, unknown_domains.
    by destruct (_ =s _), (cu_domain u =s "credential"), (cu_domain u =s "tool"). }
  split; [by intros n; apply flat_map_nil|].
  apply process_sound in Hp as (_ & Hp). apply privilege_sound in Hv as (_ & Hesc & Huid).
  intros a. destruct a as [op path|host port op tool|host port op tool method path|t| |x| | |uid|k];
    cbn [requires allows].
  - intros (f & Hin & Ha). destruct (filesystem_sound b f) as (m & Hm & Hsub);
      [by eapply flat_map_nil|]. eauto.
  - intros (n & Hin & Ha). by apply (network_sound b n); [eapply flat_map_nil|].
  - intros (n & Hin & Ha). by apply (network_sound b n); [eapply flat_map_nil|].
  - intros Hin. apply (flat_map_nil _ _ t) in Ht; [|done]. apply fail_if_nil, negb_false_iff in Ht.
    by apply bool_decide_eq_true in Ht.
  - intros E. by apply Hp.
  - intros [E Hx]. destruct (Hp E) as (_ & [?|Hs] & _); [by left|right; by apply Hs].
  - intros [E Hs]. by apply Hp.
  - done.
  - intros E. destruct Huid as [?|Hu']; [by left|right; congruence].
  - intros Hin. apply (flat_map_nil _ _ k) in Hc; [|done]. apply fail_if_nil, negb_false_iff in Hc.
    by apply bool_decide_eq_true in Hc.
Qed.

(** C19: A contract that the check accepts requires only what the boundary allows. *)
Theorem boundary_sound c b r :
  verify_runtime_capability sha256 float_repr set_order c b = Ok r → ok r = true →
  rc_decision c ≠ "block" ∧ rc_unknowns c = [] ∧ ∀ a, requires c a → allows b a.
Proof. intros [H _]%verify_result (? & ? & _ & ?)%H%no_findings. done. Qed.

(** What passed the constructor has one of the scopes of the schema. *)
Definition scopes_known (c : RuntimeCapabilityContract) : Prop :=
  ∀ f, f ∈ rc_filesystem c → fc_scope f ∈ ["exact"; "prefix"; "unknown"].

(** A contract that exceeds the boundary is blocked, or requires something that
    the boundary does not allow; a filesystem capability is not allowed by any
    single capability of the boundary. *)
Theorem boundary_genuine c b r :
  scopes_known c →
  verify_runtime_capability sha256 float_repr set_order c b = Ok r →
  vr_result r = "exceeds_boundary" →
  rc_decision c = "block" ∨
  (∃ f, f ∈ rc_filesystem c ∧
     ∀ m, m ∈ bd_filesystem b → ∃ op path, file_admits f op path ∧ ¬ file_admits m op path) ∨
  ∃ a, requires c a ∧ ¬ allows b a.
Proof.
  intros Hsc [_ H]%verify_result Hx. destruct (H Hx) as (f & Hf & Hst). clear H Hx.
  unfold findings_of in Hf. rewrite !elem_of_app in Hf.
  destruct Hf as [Hf|[Hf|[Hf|[Hf|[Hf|[Hf|[Hf|Hf]]]]]]].
  - left. apply fail_if_elem in Hf as [Hd _]. by apply eqb_true.
  - apply in_flat_map_elem in Hf as (u & _ & Hf). unfold unknown_findings in Hf.
    apply list_elem_of_fmap in Hf as (? & -> & _). discriminate Hst.
  - right; left. apply in_flat_map_elem in Hf as (k & Hk & Hf). exists k. split; [done|].
    apply (filesystem_genuine b k f); [|done..].
    specialize (Hsc _ Hk). rewrite !elem_of_cons in Hsc.
    destruct Hsc as [?|[?|[E|?%elem_of_nil]]]; [by left|by right| |done].
    exfalso. revert Hf. unfold filesystem_findings, known_target. rewrite E, andb_false_r.
    intros ->%list_elem_of_singleton. discriminate Hst.
  - right; right. apply in_flat_map_elem in Hf as (n & Hn & Hf).
    destruct (network_genuine b n f Hf Hst) as (a & Ha & Hno). exists a.
    destruct a; try done; (split; [by exists n|]); intros (m & Hm & Hma); by apply (Hno m).
  - right; right. apply in_flat_map_elem in Hf as (t & Ht & [Hn _]%fail_if_elem).
    exists (UseTool t). split; [done|]. apply negb_true_iff in Hn. by apply bool_decide_eq_false in Hn.
  - right; right. destruct (process_genuine b _ f Hf Hst) as (E & [Hp|[(x & ? & Ha & ?)|[? ?]]]).
    + exists Execution. split; [done|]. cbn. congruence.
    + exists (RunProgram x). split; [done|]. intros [?|?]; [congruence|done].
    + by exists SpawnChild.
  - right; right. destruct (privilege_genuine _ _ f Hf Hst) as [[? ?]|(uid & ? & ? & ?)].
    + by exists Escalation.
    + exists (RunAs uid). split; [done|]. by intros [?|?].
  - right; right. apply in_flat_map_elem in Hf as (k & Hk & [Hn _]%fail_if_elem).
    exists (UseCredential k). split; [done|]. apply negb_true_iff in Hn.
    by apply bool_decide_eq_false in Hn.
Qed.
End facts.
