(* ===== verification/RuntimeDeriveFacts.v ===== *)
(** * Theorems about the derivation of contracts ([derive_runtime_capability_contract])

    Every part of the derivation only adds to the draft, and adds either the
    capability that the evidence gives or an unknown.  So a contract without
    unknowns covers the effects of the review. *)
From stdpp Require Import base list strings pretty sorting.
From Stdlib Require Import Bool Ascii ZArith QArith Lia.
From S2P Require Import Prelude PyStr Json Policy Shell Execution Provenance.
From S2P Require Import Commitment Requests ActionModel JsonSchema RuntimeContract.
From S2P Require Import RuntimeDerive RuntimeBoundary RuntimeFacts.
#[local] Open Scope py_scope.
#[local] Open Scope nat_scope.

(** ** Drafts grow *)

Definition grows (d d' : Draft) : Prop :=
  dr_filesystem d ⊆ dr_filesystem d' ∧ dr_network d ⊆ dr_network d' ∧
  dr_tools d ⊆ dr_tools d' ∧ dr_unknowns d ⊆ dr_unknowns d'.
#[export] Instance grows_preorder : PreOrder grows.
Proof.
  split; [by intros d|]. intros a b c (? & ? & ? & ?) (? & ? & ? & ?). split_and!; by etrans.
Qed.
(** Nothing is unknown. *)
Definition settled (d : Draft) : Prop := dr_unknowns d = [].
Lemma settled_before d d' : grows d d' → settled d' → settled d.
Proof.
  intros (_ & _ & _ & Hu) Hs. unfold settled in *. rewrite Hs in Hu.
  destruct (dr_unknowns d) as [|u us]; [done|]. exfalso. eapply (not_elem_of_nil u), Hu. left.
Qed.

Lemma add_new_elem {A} `{EqDecision A} (x y : A) l : y ∈ add_new x l ↔ y = x ∨ y ∈ l.
Proof.
  unfold add_new. case_bool_decide; [|rewrite elem_of_app, list_elem_of_singleton]; naive_solver.
Qed.
Lemma add_new_sub {A} `{EqDecision A} (x : A) l : l ⊆ add_new x l.
Proof. intros y Hy. apply add_new_elem. by right. Qed.

Lemma unknown_grows domain code reason d : grows d (unknown domain code reason d).
Proof. split_and!; try done. cbn. apply add_new_sub. Qed.
Lemma unknown_unsettled domain code reason d : ¬ settled (unknown domain code reason d).
Proof.
  unfold settled, unknown. cbn. intros H.
  eapply not_elem_of_nil. rewrite <- H. apply add_new_elem. by left.
Qed.
Lemma unknown_if_grows c domain code reason d : grows d (unknown_if c domain code reason d).
Proof. unfold unknown_if. destruct c; [apply unknown_grows|done]. Qed.
Lemma unknown_if_settled c domain code reason d :
  settled (unknown_if c domain code reason d) → c = false.
Proof. unfold unknown_if. destruct c; [by intros ?%unknown_unsettled|done]. Qed.
#[local] Hint Resolve unknown_grows unknown_if_grows : core.
#[local] Hint Extern 1 (grows ?d ?d) => reflexivity : core.

(** A loop over elements that each establish what growth keeps. *)
Lemma fold_res_spec {A S} (body : S → A → res S) (R : S → S → Prop) `{!PreOrder R}
    (Q : A → S → Prop) l s s' :
  (∀ s x s', body s x = Ok s' → R s s' ∧ Q x s') →
  (∀ x s s', Q x s → R s s' → Q x s') →
  fold_res body l s = Ok s' → R s s' ∧ ∀ x, x ∈ l → Q x s'.
Proof.
  intros Hbody Hmono. revert s. induction l as [|x l IH]; intros s H; cbn in H; inv_res.
  { split; [done|]. by intros x ?%elem_of_nil. }
  rename x0 into t. destruct (Hbody _ _ _ ltac:(eassumption)) as [H1 H2].
  destruct (IH _ H) as [H3 H4]. split; [by etrans|].
  intros y [->|Hy]%elem_of_cons; [by eapply Hmono|by apply H4].
Qed.
Lemma fold_res_grows {A} (body : Draft → A → res Draft) l d d' :
  (∀ d x d', body d x = Ok d' → grows d d') → fold_res body l d = Ok d' → grows d d'.
Proof.
  intros Hb H. eapply (fold_res_spec body grows (λ _ _, True)) in H as [H _]; [done| |done].
  intros s x s' Hs. split; [by eapply Hb|done].
Qed.

Section derive.
Context (bracketed_host : string → bool) (float_decimal : Q → Decimal).
Context (sha256 : string → string) (float_repr : Q → string).
#[local] Abbreviation filesystem_part := (filesystem_part float_repr).
#[local] Abbreviation network_part := (network_part bracketed_host float_decimal sha256 float_repr).
#[local] Abbreviation derive :=
  (derive_runtime_capability_contract bracketed_host float_decimal sha256 float_repr).

Lemma add_filesystem_inv access path scope d d' :
  add_filesystem float_repr access path scope d = Ok d' →
  grows d d' ∧ {| fc_access := access; fc_path := path; fc_scope := scope |} ∈ dr_filesystem d'.
Proof.
  unfold add_filesystem, mk_FilesystemCapability. intros H. inv_res. cbn.
  split; [split_and!; try done; apply add_new_sub|]. apply add_new_elem. by left.
Qed.
Lemma add_network_inv c d d' :
  add_network float_repr c d = Ok d' → grows d d' ∧ c ∈ dr_network d'.
Proof.
  unfold add_network, mk_NetworkCapability. intros H. inv_res. cbn.
  split; [split_and!; try done; apply add_new_sub|]. apply add_new_elem. by left.
Qed.
Lemma add_tool_inv runtime server tool d d' :
  add_tool float_repr runtime server tool d = Ok d' →
  grows d d' ∧ {| tc_runtime := runtime; tc_server := server; tc_tool := tool;
                  tc_operation := "call" |} ∈ dr_tools d'.
Proof.
  unfold add_tool, mk_ToolCapability. intros H. inv_res. cbn. split.
  - split_and!; try done. intros x Hx. apply elem_of_app. by left.
  - apply elem_of_app. right. by apply list_elem_of_singleton.
Qed.

(** ** Filesystem *)

(** The scope of an effect: a recursive deletion is of the whole subtree. *)
Definition effect_scope (effect : string) : string :=
  if effect =s "filesystem.recursive_delete" then "prefix" else "exact".
(** What a target of an effect gives. *)
Definition target_covered (effect access : string) (resource : ActionResource) (d : Draft) : Prop :=
  _safe_path (ar_value resource) = true ∧
  {| fc_access := access; fc_path := Some (ar_value resource); fc_scope := effect_scope effect |}
    ∈ dr_filesystem d.
Definition effect_covered (paths : list ActionResource) (effect : string) (d : Draft) : Prop :=
  settled d → paths ≠ [] ∧ ∃ access, dict_get effect _FILESYSTEM_EFFECTS = Some access ∧
    ∀ r, r ∈ paths → target_covered effect access r d.

Lemma target_covered_grows effect access r d d' :
  target_covered effect access r d → grows d d' → target_covered effect access r d'.
Proof. intros [? Hin] (Hf & _). split; [done|]. by apply Hf. Qed.
Lemma effect_covered_grows paths effect d d' :
  effect_covered paths effect d → grows d d' → effect_covered paths effect d'.
Proof.
  intros H Hg Hs. destruct (H (settled_before _ _ Hg Hs)) as (? & a & ? & Hc).
  split; [done|]. exists a. split; [done|]. intros r Hr. by eapply target_covered_grows; [apply Hc|].
Qed.

Lemma filesystem_resource_spec effect access d r d' :
  filesystem_resource float_repr effect access d r = Ok d' →
  grows d d' ∧ (settled d' → target_covered effect access r d').
Proof.
  unfold filesystem_resource. destruct (_safe_path (ar_value r)) eqn:Hp; cbn [negb].
  - intros [Hg Hin]%add_filesystem_inv. by split.
  - intros H. inv_res. destruct (add_filesystem_inv _ _ _ _ _ ltac:(eassumption)) as [Hg _].
    split; [etrans; [exact Hg|done]|]. by intros ?%unknown_unsettled.
Qed.

Lemma filesystem_effect_spec paths d effect d' :
  filesystem_effect float_repr paths d effect = Ok d' →
  grows d d' ∧ effect_covered paths effect d'.
Proof.
  unfold filesystem_effect. intros H. apply res_bind_ok in H as (d1 & H1 & H2).
  set (d0 := unknown_if _ _ _ _ d) in H1.
  assert (grows d0 d1 ∧ (settled d1 → paths ≠ [])) as [Hg1 Hne].
  { destruct paths as [|p ps]; inv_res; [|split; done].
    destruct (add_filesystem_inv _ _ _ _ _ ltac:(eassumption)) as [Hg _].
    split; [etrans; [exact Hg|done]|]. by intros ?%unknown_unsettled. }
  apply (fold_res_spec _ grows
    (λ r d, settled d → target_covered effect (default "unknown" (dict_get effect _FILESYSTEM_EFFECTS)) r d))
    in H2 as [Hg2 Hall].
  - split; [etrans; [|exact Hg2]; etrans; [|exact Hg1]; apply unknown_if_grows|]. intros Hs.
    pose proof (settled_before _ _ Hg2 Hs) as Hs1.
    pose proof (unknown_if_settled _ _ _ _ _ (settled_before _ _ Hg1 Hs1)) as Hknown.
    split; [by apply Hne|]. destruct (dict_get effect _FILESYSTEM_EFFECTS) as [a|]; [|done].
    exists a. split; [done|]. intros r Hr. by apply Hall.
  - intros s r s' Hr. by apply filesystem_resource_spec in Hr.
  - intros r s s' Hq Hg Hs. eapply target_covered_grows; [|exact Hg].
    apply Hq. by eapply settled_before.
Qed.

Lemma in_sorted s l : s ∈ sorted l ↔ s ∈ l.
Proof. unfold sorted. by rewrite (merge_sort_Permutation str_le). Qed.
Lemma effects_within_elem family review e :
  e ∈ effects_within family review ↔ e ∈ av_effects review ∧ startswith e family = true.
Proof. unfold effects_within. by rewrite elem_of_remove_dups, in_filter. Qed.

Lemma filesystem_part_spec review d d' :
  filesystem_part review d = Ok d' →
  grows d d' ∧ ∀ e, e ∈ av_effects review → startswith e "filesystem." = true →
    effect_covered (paths_of review) e d'.
Proof.
  unfold RuntimeDerive.filesystem_part. cbv zeta. intros H.
  apply (fold_res_spec _ grows (effect_covered (paths_of review))) in H as [Hg Hall].
  - split; [etrans; [|exact Hg]; apply unknown_if_grows|]. intros e He Hp. apply Hall.
    by apply in_sorted, effects_within_elem.
  - intros s e s' He. by apply filesystem_effect_spec.
  - intros e s s'. apply effect_covered_grows.
Qed.

(** ** Network *)

Definition PROTOCOLS : list string := ["rest"; "graphql"; "json-rpc"; "mcp"].
(** The request [request] goes to the resource, with this method and path. *)
Definition request_to (request : option (string * string)) (resource : ActionResource)
    (method path : string) : Prop :=
  request = Some (method, ar_value resource) ∧
  ∃ url, urlsplit bracketed_host (ar_value resource) = Some url ∧
    path = if truthy (url_path url) then url_path url else "/".
(** A REST capability has the method and the path of the request. *)
Definition rest_of (request : option (string * string)) (resource : ActionResource)
    (n : NetworkCapability) : Prop :=
  nc_protocol n = "rest" →
  ∃ method path, nc_methods n = [method] ∧ nc_paths n = [path] ∧
    request_to request resource method path.
(** What an endpoint gives: a capability for requests to it. *)
Definition endpoint_covered (request : option (string * string)) (access : string)
    (resource : ActionResource) (d : Draft) : Prop :=
  ∃ n host, n ∈ dr_network d ∧ nc_access n = access ∧ nc_protocol n ∈ PROTOCOLS ∧
    resource_endpoint bracketed_host resource = (Some host, nc_port n) ∧ nc_host n = Some host ∧
    rest_of request resource n.
Lemma endpoint_covered_grows request access r d d' :
  endpoint_covered request access r d → grows d d' → endpoint_covered request access r d'.
Proof.
  intros (n & h & Hn & H) (_ & Hg & _). exists n, h. split; [by apply Hg|exact H].
Qed.

(** A capability that the request or the protocol of the action establishes. *)
Definition concrete_for (request : option (string * string)) (access host : string)
    (port : option Z) (resource : ActionResource) (n : NetworkCapability) : Prop :=
  nc_access n = access ∧ nc_protocol n ∈ PROTOCOLS ∧ nc_host n = Some host ∧ nc_port n = port ∧
  rest_of request resource n.
Lemma rest_capability_concrete request access r host port n :
  rest_capability bracketed_host request access r host port = Ok (Some n) →
  concrete_for request access host port r n.
Proof.
  unfold rest_capability. destruct request as [[method url]|]; [|done].
  destruct (String.eqb_spec (ar_value r) url) as [<-|]; [|done]. cbn [negb].
  destruct (urlsplit _ _) as [u|] eqn:Hu; [|done]. cbv zeta.
  destruct (_ && _); [|done]. intros [= <-]. split_and!; try done; [left|].
  intros _. eexists _, _. split_and!; [done..|]. split; [done|]. by exists u.
Qed.
Lemma protocol_capability_concrete request review urls access r host port n :
  protocol_capability bracketed_host review urls access r host port = Some n →
  concrete_for request access host port r n.
Proof.
  unfold protocol_capability. destruct (_ || _); [|done].
  destruct (endpoint_of _ _) as [[[h p] path]|]; [|done]. intros [= <-].
  assert (protocol_of review ∈ tail PROTOCOLS) as Hp.
  { unfold protocol_of, PROTOCOLS. cbn [tail].
    destruct (adapter_is review "network.graphql"); [left|].
    destruct (adapter_is review "network.jsonrpc"); [by do 1 right; left|by do 2 right; left]. }
  split_and!; try done; [by right|]. intros E. cbn in E. rewrite E in Hp.
  by apply mem_elem_of in Hp.
Qed.

Lemma network_resource_spec review request urls access d r d' :
  network_resource bracketed_host float_repr review request urls access d r = Ok d' →
  grows d d' ∧ (settled d' → endpoint_covered request access r d').
Proof.
  unfold network_resource. destruct (resource_endpoint bracketed_host r) as [host port] eqn:Hr.
  intros H. apply res_bind_ok in H as (rest & Hrest & H). cbv zeta in H.
  set (d0 := unknown_if _ _ _ _ d) in H.
  assert (grows d d0) as Hd0 by apply unknown_if_grows.
  set (concrete := match rest with Some _ => _ | None => _ end) in H.
  assert (∀ n, concrete = Some n → ∃ h, host = Some h ∧ concrete_for request access h port r n) as Hc.
  { unfold concrete. intros n. destruct rest as [c|], host as [h|]; try done.
    - intros [= <-]. exists h. split; [done|]. by eapply rest_capability_concrete.
    - intros Hn. exists h. split; [done|]. by eapply protocol_capability_concrete. }
  destruct concrete as [n|].
  - apply add_network_inv in H as [Hg Hin]. split; [by etrans|]. intros _.
    destruct (Hc n eq_refl) as (h & -> & Ha & Hp & Hh & <- & Hm).
    exists n, h. rewrite Hr. by split_and!.
  - inv_res. destruct (add_network_inv _ _ _ ltac:(eassumption)) as [Hg _].
    split; [etrans; [exact Hd0|]; etrans; [exact Hg|done]|]. by intros ?%unknown_unsettled.
Qed.

Definition network_access (review : ActionReview) : string :=
  if mem "network.upload" (av_effects review) then "write" else "read".
Definition is_endpoint (r : ActionResource) : bool := mem (ar_type r) ["host"; "url"; "endpoint"].

Lemma network_resources_sub review l :
  network_resources review = Ok l → List.filter is_endpoint (av_resources review) ⊆ l.
Proof.
  intros H. eapply (fold_res_spec add_url (⊆) (λ _ _, True)) in H as [H _]; [exact H| |done].
  unfold add_url. intros s x s'. destruct (existsb _ _); intros Hx; inv_res; (split; [|done]); [done|].
  intros y Hy. apply elem_of_app. by left.
Qed.
Lemma request_of_grows review d :
  grows d (snd (request_of bracketed_host float_decimal sha256 review d)).
Proof.
  unfold request_of. destruct (negb _); [done|]. cbv zeta.
  repeat (case_match; try apply unknown_grows; try done).
Qed.

(** The request is the literal one: that of a REST action is left unknown. *)
Lemma request_of_literal review d :
  settled (snd (request_of bracketed_host float_decimal sha256 review d)) →
  fst (request_of bracketed_host float_decimal sha256 review d) = _literal_http_request review.
Proof.
  unfold request_of. destruct (negb _); [done|]. cbv zeta.
  repeat (case_match; try done); by intros ?%unknown_unsettled.
Qed.

Lemma network_part_spec review d d' :
  network_part review d = Ok d' →
  grows d d' ∧ ∀ e, e ∈ av_effects review → startswith e "network." = true → settled d' →
    is_Some (dict_get e _NETWORK_EFFECTS) ∧
    ∃ l, network_resources review = Ok l ∧ l ≠ [] ∧
      ∀ r, r ∈ l →
        endpoint_covered (_literal_http_request review) (network_access review) r d'.
Proof.
  unfold RuntimeDerive.network_part. cbv zeta. intros H.
  apply res_bind_ok in H as (l & Hl & H).
  pose proof (request_of_grows review d) as Hrq. pose proof (request_of_literal review d) as Hlit.
  destruct (request_of _ _ _ review d) as [request d0]. cbn in Hrq, Hlit.
  assert (∀ e, e ∈ av_effects review → startswith e "network." = true →
    e ∈ effects_within "network." review) as Hin by (intros; by apply effects_within_elem).
  destruct (effects_within "network." review) as [|e0 es].
  { inv_res. split; [done|]. intros e He Hp _. specialize (Hin _ He Hp).
    by apply elem_of_nil in Hin. }
  set (precise := forallb _ _) in H. set (d1 := unknown_if _ _ _ _ d0) in H.
  assert (grows d0 d1) as Hd1 by apply unknown_if_grows.
  apply res_bind_ok in H as (d2 & H2 & H).
  assert (grows d1 d2 ∧ (settled d2 → l ≠ [])) as [Hg2 Hne].
  { destruct l as [|r rs]; inv_res; [|done].
    destruct (add_network_inv _ _ _ ltac:(eassumption)) as [Hg _].
    split; [etrans; [exact Hg|done]|]. by intros ?%unknown_unsettled. }
  set (access := if precise then _ else _) in H.
  apply (fold_res_spec _ grows (λ r d, settled d → endpoint_covered request access r d)) in H as [Hg3 Hall].
  - split; [etrans; [exact Hrq|]; etrans; [exact Hd1|]; by etrans|].
    intros e He Hp Hs. pose proof (settled_before _ _ Hg3 Hs) as Hs2.
    pose proof (settled_before _ _ Hg2 Hs2) as Hs1.
    pose proof (unknown_if_settled _ _ _ _ _ Hs1) as Hpr. apply negb_false_iff in Hpr.
    rewrite <- (Hlit (settled_before _ _ Hd1 Hs1)). split.
    + unfold precise in Hpr. rewrite forallb_forall in Hpr.
      specialize (Hpr e (proj1 (list_elem_of_In _ _) (Hin _ He Hp))). by case_bool_decide.
    + exists l. split_and!; [done|by apply Hne|]. intros r Hr.
      unfold access in Hall. rewrite Hpr in Hall. by apply Hall.
  - intros s r s' Hr. by eapply network_resource_spec.
  - intros r s s' Hq Hg Hs. eapply endpoint_covered_grows; [|exact Hg].
    apply Hq. by eapply settled_before.
Qed.

(** ** Tools, process, requirements *)

Lemma mcp_version_grows review d : grows d (mcp_version_part review d).
Proof. apply unknown_if_grows. Qed.

(** The tool that an action names. *)
Definition tool_covered (review : ActionReview) (d : Draft) : Prop :=
  adapted review = true ∧ ∃ runtime tool server,
    parameter review "tool" = JStr tool ∧
    (kind_of review = "mcp" → runtime = "mcp") ∧
    (kind_of review = "tool" → parameter review "runtime" = JStr runtime) ∧
    (runtime = "mcp" → ∃ s, server = Some s ∧ parameter review "server" = JStr s) ∧
    {| tc_runtime := runtime; tc_server := server; tc_tool := tool; tc_operation := "call" |}
      ∈ dr_tools d.
Lemma tool_part_spec review d d' :
  tool_part float_repr review d = Ok d' →
  grows d d' ∧
  (kind_of review ∈ ["mcp"; "tool"] → av_adapter review ≠ Some "mcp.protocol" → settled d' →
   tool_covered review d').
Proof.
  unfold tool_part. destruct (_ && _) eqn:Hc.
  2:{ intros H. inv_res. split; [done|]. intros Hk Ha _. exfalso.
      apply andb_false_iff in Hc as [Hc|Hc]; [by apply mem_false in Hc|].
      apply negb_false_iff in Hc. unfold adapter_is, opt_is in Hc.
      destruct (av_adapter review) as [a|]; [|done]. apply eqb_true in Hc. congruence. }
  cbv zeta. set (runtime := if _ =s "mcp" then _ else _).
  assert (∀ domain code reason, grows d (unknown domain code reason d) ∧
    (kind_of review ∈ ["mcp"; "tool"] → av_adapter review ≠ Some "mcp.protocol" →
     settled (unknown domain code reason d) → tool_covered review (unknown domain code reason d)))
    as Hu by (intros; split; [done|by intros _ _ ?%unknown_unsettled]).
  destruct runtime as [| | | |rt| |] eqn:Hrt, (parameter review "tool") as [| | | |tool| |] eqn:Htool;
    try (intros [= <-]; apply Hu).
  destruct (adapted review && has_effects review) eqn:Ha; [|intros H; inv_res; apply Hu].
  apply andb_true_iff in Ha as [Ha _].
  assert ((kind_of review = "mcp" → rt = "mcp") ∧
          (kind_of review = "tool" → parameter review "runtime" = JStr rt)) as [Hm Ht].
  { unfold runtime in Hrt. destruct (kind_of review =s "mcp") eqn:Hk.
    - apply eqb_true in Hk. rewrite Hk. by injection Hrt as <-.
    - split; [|done]. intros E. by rewrite E in Hk. }
  destruct (rt =s "mcp") eqn:Hr.
  - destruct (parameter review "server") as [| | | |server| |] eqn:Hsv;
      try (intros [= <-]; apply Hu). intros [Hg Hin]%add_tool_inv. split; [done|]. intros _ _ _.
    split; [done|]. exists rt, tool, (Some server). split_and!; try done. eauto.
  - intros [Hg Hin]%add_tool_inv. split; [done|]. intros _ _ _. split; [done|].
    exists rt, tool, None. split_and!; try done. intros E. by rewrite E in Hr.
Qed.

Lemma shell_process_grows command p d : grows d (snd (shell_process command p d)).
Proof. unfold shell_process. repeat (case_match; try done); cbn [snd]; auto. Qed.
(** The review finds that the action runs a process, or code. *)
Definition runs_process (review : ActionReview) : Prop :=
  kind_of review = "shell" ∨
  ∃ e, e ∈ av_effects review ∧ (startswith e "process." = true ∨ startswith e "code." = true).
(** The program of the only segment of a shell action. *)
Definition runs_token (review : ActionReview) (token : string) : Prop :=
  ∃ command rest, parameter review "command" = JStr command ∧
    split_shell_segments command = Ok ([token :: rest], []).
(** The review finds that the action raises its privilege. *)
Definition escalates (review : ActionReview) : Prop :=
  (∃ e, e ∈ av_effects review ∧ startswith e "privilege." = true) ∨
  kind_of review = "shell" ∧
    ∃ token, runs_token review token ∧ last_part token ∈ ["sudo"; "su"; "doas"].

(** The segment that a settled shell action has. *)
Lemma shell_process_spec review p d :
  settled (snd (shell_process (parameter review "command") p d)) →
  let p' := fst (shell_process (parameter review "command") p d) in
  pd_execution p' = pd_execution p ∧
  ∃ token, runs_token review token ∧
    (pd_executables p' = [token] ∨ pd_executables p' = pd_executables p) ∧
    pd_escalation p' = pd_escalation p || mem (last_part token) ["sudo"; "su"; "doas"].
Proof.
  unfold shell_process, runs_token. cbv zeta. intros H.
  destruct (parameter review "command") as [| | | |command| |] eqn:Hc;
    try (by apply unknown_unsettled in H).
  destruct (split_shell_segments command) as [[[|[|token rest] [|]] [|]]|] eqn:Hs;
    try (by apply unknown_unsettled in H).
  split; [done|]. exists token. split; [by exists command, rest|]. split; [|done].
  cbn. case_match; [by left|by right].
Qed.

Lemma process_part_spec review d :
  let '(p, d') := process_part review d in
  grows d d' ∧ (settled d' →
    (runs_process review → pd_execution p = true) ∧
    (escalates review → pd_escalation p = true) ∧
    (kind_of review = "shell" →
       ∃ token, runs_token review token ∧ pd_executables p = [token])).
Proof.
  unfold process_part. cbv zeta. set (p0 := {| pd_execution := _ |}).
  assert (∀ e family, e ∈ av_effects review → startswith e family = true →
    existsb (λ e, startswith e family) (av_effects review) = true) as Hex
    by (intros e family ??; apply existsb_elem; eauto).
  assert (runs_process review → pd_execution p0 = true) as Hp0.
  { cbn. intros [->|(e & He & Hpre)]; [done|]. apply orb_true_iff. right.
    apply existsb_elem. exists e. split; [done|]. unfold startswith_any. cbn.
    destruct Hpre as [-> | ->]; [done|by rewrite orb_true_r]. }
  destruct (String.eqb_spec (kind_of review) "shell") as [Hk|Hk].
  - pose proof (shell_process_grows (parameter review "command") p0 d) as Hg.
    pose proof (shell_process_spec review p0 d) as Hspec.
    destruct (shell_process _ _ _) as [p d0]. cbn [fst snd] in *.
    split; [etrans; [exact Hg|apply unknown_if_grows]|]. intros Hs.
    destruct (Hspec (settled_before _ _ (unknown_if_grows _ _ _ _ _) Hs))
      as (He & token & Ht & Hx & Hesc).
    apply unknown_if_settled in Hs. split; [by rewrite He|]. split.
    + rewrite Hesc. cbn [pd_escalation p0]. intros [(e & Hin & Hpre)|(_ & t & Ht' & Hm)];
        apply orb_true_iff; [left; by eapply Hex|right].
      destruct Ht as (c & rest & Hc & Hsp), Ht' as (c' & rest' & Hc' & Hsp').
      rewrite Hc in Hc'. injection Hc' as <-. rewrite Hsp in Hsp'. injection Hsp' as <- _.
      by apply mem_elem_of.
    + intros _. exists token. split; [done|]. destruct Hx as [->|Hx]; [done|].
      rewrite Hx in Hs. done.
  - split; [done|]. intros _. split; [done|]. split; [|done].
    intros [(e & Hin & Hpre)|[Hk' _]]; [|done]. cbn. by eapply Hex.
Qed.

Lemma requirement_grows shell r record r' :
  requirement float_repr shell r record = Ok r' → grows (rq_draft r) (rq_draft r').
Proof.
  unfold requirement, filesystem_requirement, executable_requirement. cbv zeta.
  repeat (case_match; intros; inv_res; try done; try apply unknown_grows).
  all: destruct (add_filesystem_inv _ _ _ _ _ ltac:(eassumption)); done.
Qed.

(** A record of the host that binds the program [token] to the path [x]. *)
Definition binds_program (token x : string) (record : ProvenanceRecord) : Prop :=
  declared record = true ∧ pv_code record = "runtime.requirement.executable" ∧
  metadata record "logical_executable" = SText token ∧
  ∃ resource, pv_resource record = Some resource ∧ pr_value resource = x.
(** The program that the review names, or the one to which the host binds it. *)
Definition program_of (review : ActionReview) (token x : string) : Prop :=
  x = token ∨ ∃ record, record ∈ provenance_records review ∧ binds_program token x record.

(** A requirement adds to the draft and does not take execution away; one for a
    shell action leaves the executables, and binds none but as it says. *)
Definition extends (r r' : Requirements) : Prop :=
  grows (rq_draft r) (rq_draft r') ∧ (rq_execution r = true → rq_execution r' = true).
#[local] Instance extends_preorder : PreOrder extends.
Proof. split; [by intros r|]. intros a b c (? & ?) (? & ?). split; [by etrans|auto]. Qed.
Lemma requirement_extends shell r record r' :
  requirement float_repr shell r record = Ok r' → extends r r'.
Proof.
  intros H. split; [by eapply requirement_grows|]. revert H.
  unfold requirement, filesystem_requirement, executable_requirement. cbv zeta.
  repeat (case_match; intros; inv_res; try done).
Qed.
Lemma shell_requirement r record r' :
  requirement float_repr true r record = Ok r' →
  rq_executables r' = rq_executables r ∧
  ∀ k v, dict_get k (rq_bindings r') = Some v →
    dict_get k (rq_bindings r) = Some v ∨ binds_program k v record.
Proof.
  unfold requirement, filesystem_requirement, executable_requirement. cbv zeta.
  destruct (declared record) eqn:Hd; cbn [negb]; [|intros [= <-]; auto].
  repeat (case_match; intros; inv_res; auto);
    try match goal with H : _ && false && _ = true |- _ => by rewrite andb_false_r in H end.
  all: split; [done|]; cbn; intros k v Hk.
  all: rewrite dict_get_set in Hk; case_decide; [injection Hk as <-; right|by left].
  all: repeat match goal with H : (_ =s _) = true |- _ => apply eqb_true in H end; subst.
  all: split_and!; try done; eauto.
Qed.
Lemma shell_requirements l : ∀ r r',
  fold_res (requirement float_repr true) l r = Ok r' →
  rq_executables r' = rq_executables r ∧
  ∀ k v, dict_get k (rq_bindings r') = Some v →
    dict_get k (rq_bindings r) = Some v ∨ ∃ record, record ∈ l ∧ binds_program k v record.
Proof.
  induction l as [|x l IH]; intros r r' H; cbn in H; inv_res; [auto|].
  match goal with H : requirement _ _ _ _ = Ok _ |- _ => apply shell_requirement in H as [E1 B1] end.
  destruct (IH _ _ H) as [-> B2]. split; [done|]. intros k v Hk.
  destruct (B2 k v Hk) as [Hk1|(y & Hy & Hb)]; [|right; exists y; split; [by right|done]].
  destruct (B1 k v Hk1) as [?|?]; [by left|]. right. exists x. split; [left|done].
Qed.
Lemma requirements_part_spec review p d d' execution executables children :
  requirements_part float_repr review p d = Ok (d', execution, executables, children) →
  grows d d' ∧ (pd_execution p = true → execution = true) ∧
  (kind_of review = "shell" → ∀ token, token ∈ pd_executables p →
     ∃ x, x ∈ executables ∧ program_of review token x).
Proof.
  unfold requirements_part. intros H. apply res_bind_ok in H as (r & Hr & H). cbv zeta in H.
  assert (grows (rq_draft r) d' ∧ execution = rq_execution r ∧
    executables = map (λ v, default v (dict_get v (rq_bindings r))) (rq_executables r))
    as (Hd & -> & ->).
  { destruct (rq_children r) as [|b [|b' bs]]; inv_res; split_and!; done. }
  clear H. pose proof Hr as Hr'.
  apply (fold_res_spec _ extends (λ _ _, True)) in Hr as [(Hg & He) _];
    [|by intros; split; [eapply requirement_extends|]|done].
  cbn [rq_draft rq_execution] in Hg, He. split_and!; [by etrans|done|].
  intros Hk token Hin. rewrite Hk in Hr'. cbn [String.eqb] in Hr'.
  apply shell_requirements in Hr' as [Hx Hb]. cbn in Hx, Hb. rewrite Hx.
  eexists. split; [by apply (list_elem_of_fmap_2 (λ v, default v _))|].
  destruct (dict_get token (rq_bindings r)) as [x|] eqn:E; [|by left].
  destruct (Hb _ _ E) as [?|(y & ? & ?)]; [done|]. right. by exists y.
Qed.

(** ** The contract *)

Lemma in_sorted_by {A} (compare : A → A → comparison) l x : x ∈ sorted_by compare l ↔ x ∈ l.
Proof. unfold sorted_by. by rewrite (merge_sort_Permutation (cmp_le compare)). Qed.
Lemma sorted_by_nil {A} (compare : A → A → comparison) l : sorted_by compare l = [] → l = [].
Proof.
  intros E. destruct l as [|x l]; [done|]. exfalso. apply (not_elem_of_nil x). rewrite <- E.
  apply in_sorted_by. left.
Qed.
Lemma mk_contract_inv c c' :
  mk_RuntimeCapabilityContract sha256 float_repr c = Ok c' →
  ∃ id, c' = with_contract_id id c.
Proof. unfold mk_RuntimeCapabilityContract. intros H. inv_res. eauto. Qed.

(** The stages of a derivation. *)
Record derivation (review : ActionReview) (c : RuntimeCapabilityContract)
    (p : ProcessDraft) (before after : Draft) (execution : bool) (executables : list string)
    (children : option bool) : Prop := {
  de_before : ∃ d1 d2 d4,
    filesystem_part review (semantics_part review empty_draft) = Ok d1 ∧
    network_part review d1 = Ok d2 ∧
    tool_part float_repr review (mcp_version_part review d2) = Ok d4 ∧
    process_part review d4 = (p, before);
  de_requirements :
    requirements_part float_repr review p before = Ok (after, execution, executables, children);
  de_id : rc_action_id c = ac_action_id (av_action review);
  de_digest : rc_action_digest c
    = digest sha256 float_repr (ActionEnvelope_as_dict (av_action review));
  de_decision : rc_decision c = decision_str (av_decision review);
  de_risk : rc_risk c = av_risk review;
  de_filesystem : rc_filesystem c = sorted_by filesystem_compare (dr_filesystem after);
  de_network : rc_network c = sorted_by network_compare (dr_network after);
  de_tools : rc_tools c = dr_tools after;
  de_process : rc_process c =
    {| pc_execution := if adapted review then Some execution else None;
       pc_executables := executables; pc_spawn_children := children |};
  de_privilege : rc_privilege c =
    {| vc_escalation := if adapted review then Some (pd_escalation p) else None;
       vc_required_euid := None |};
  de_unknowns : rc_unknowns c = sorted_by unknown_compare (dr_unknowns after) }.
Lemma derive_parts review c :
  derive review = Ok c →
  ∃ p before after execution executables children,
    derivation review c p before after execution executables children.
Proof.
  unfold derive_runtime_capability_contract, mk_ProcessCapability, mk_PrivilegeCapability.
  intros H. apply res_bind_ok in H as (d1 & H1 & H). apply res_bind_ok in H as (d2 & H2 & H).
  cbv zeta in H. apply res_bind_ok in H as (d4 & H4 & H).
  destruct (process_part review d4) as [p d6] eqn:H6.
  apply res_bind_ok in H as ([[[d7 execution] executables] children] & H7 & H).
  apply res_bind_ok in H as (process & Hp & H). apply res_bind_ok in H as (privilege & Hv & H).
  apply mk_contract_inv in H as [id ->]. inv_res.
  exists p, d6, d7, execution, executables, children. split; try done. by exists d1, d2, d4.
Qed.

(** The stages of a derivation without unknowns. *)
Lemma derive_stages review c :
  derive review = Ok c → rc_unknowns c = [] →
  ∃ d1 d2 d4 p d6 execution,
    filesystem_part review (semantics_part review empty_draft) = Ok d1 ∧
    network_part review d1 = Ok d2 ∧
    tool_part float_repr review (mcp_version_part review d2) = Ok d4 ∧
    process_part review d4 = (p, d6) ∧
    settled d6 ∧ grows d6 {| dr_filesystem := rc_filesystem c; dr_network := rc_network c;
                             dr_tools := rc_tools c; dr_unknowns := [] |} ∧
    (pd_execution p = true → execution = true) ∧
    (kind_of review = "shell" → ∀ token, token ∈ pd_executables p →
       ∃ x, x ∈ pc_executables (rc_process c) ∧ program_of review token x) ∧
    pc_execution (rc_process c) = (if adapted review then Some execution else None) ∧
    vc_escalation (rc_privilege c) = (if adapted review then Some (pd_escalation p) else None) ∧
    rc_decision c = decision_str (av_decision review).
Proof.
  intros (p & d6 & d7 & execution & executables & children & D)%derive_parts Hn.
  destruct (de_before _ _ _ _ _ _ _ _ D) as (d1 & d2 & d4 & H1 & H2 & H4 & H6).
  pose proof (de_requirements _ _ _ _ _ _ _ _ D) as (Hg & He & Hx)%requirements_part_spec.
  pose proof (de_unknowns _ _ _ _ _ _ _ _ D) as Hun. rewrite Hn in Hun.
  symmetry in Hun. apply sorted_by_nil in Hun.
  rewrite (de_filesystem _ _ _ _ _ _ _ _ D), (de_network _ _ _ _ _ _ _ _ D),
    (de_tools _ _ _ _ _ _ _ _ D), (de_process _ _ _ _ _ _ _ _ D),
    (de_privilege _ _ _ _ _ _ _ _ D), (de_decision _ _ _ _ _ _ _ _ D).
  exists d1, d2, d4, p, d6, execution. split_and!; try done.
  - by eapply settled_before.
  - destruct Hg as (Hf & Hw & Ht & Hu). split_and!; cbn; intros y Hi.
    + apply in_sorted_by. by apply Hf.
    + apply in_sorted_by. by apply Hw.
    + by apply Ht.
    + rewrite <- Hun. by apply Hu.
Qed.

(** What a contract without unknowns says of the review. *)
Record covers (review : ActionReview) (c : RuntimeCapabilityContract) : Prop := {
  cv_semantics : adapted review = true ∧ av_risk review ≠ "unknown";
  cv_filesystem e : e ∈ av_effects review → startswith e "filesystem." = true →
    paths_of review ≠ [] ∧ ∃ access, dict_get e _FILESYSTEM_EFFECTS = Some access ∧
    ∀ r, r ∈ paths_of review → _safe_path (ar_value r) = true ∧
      {| fc_access := access; fc_path := Some (ar_value r); fc_scope := effect_scope e |}
        ∈ rc_filesystem c;
  cv_network e : e ∈ av_effects review → startswith e "network." = true →
    is_Some (dict_get e _NETWORK_EFFECTS) ∧
    ∃ l, network_resources review = Ok l ∧ l ≠ [] ∧
    ∀ r, r ∈ l →
      ∃ n host, n ∈ rc_network c ∧ nc_access n = network_access review ∧
        nc_protocol n ∈ PROTOCOLS ∧ nc_host n = Some host ∧
        resource_endpoint bracketed_host r = (Some host, nc_port n) ∧
        rest_of (_literal_http_request review) r n;
  cv_tool : kind_of review ∈ ["mcp"; "tool"] → av_adapter review ≠ Some "mcp.protocol" →
    ∃ t, t ∈ rc_tools c ∧ parameter review "tool" = JStr (tc_tool t) ∧
      (kind_of review = "mcp" → tc_runtime t = "mcp") ∧
      (kind_of review = "tool" → parameter review "runtime" = JStr (tc_runtime t)) ∧
      (tc_runtime t = "mcp" → ∃ s, tc_server t = Some s ∧ parameter review "server" = JStr s);
  cv_process : runs_process review → pc_execution (rc_process c) = Some true;
  cv_escalation : escalates review → vc_escalation (rc_privilege c) = Some true;
  cv_shell : kind_of review = "shell" → ∃ token x,
    runs_token review token ∧ x ∈ pc_executables (rc_process c) ∧ program_of review token x }.

Lemma derive_covers review c :
  derive review = Ok c → rc_unknowns c = [] → covers review c.
Proof.
  intros H Hn. destruct (derive_stages _ _ H Hn) as
    (d1 & d2 & d4 & p & d6 & execution & H1 & H2 & H4 & H6 & Hs6 & Hc & He & Hx & Hpe & Hve & _).
  pose proof (process_part_spec review d4) as Hp. rewrite H6 in Hp. destruct Hp as [Hg6 Hsh].
  apply tool_part_spec in H4 as [Hg4 Htool]. apply network_part_spec in H2 as [Hg2 Hnet].
  apply filesystem_part_spec in H1 as [Hg1 Hfs].
  pose proof (settled_before _ _ Hg6 Hs6) as Hs4.
  pose proof (settled_before _ _ (transitivity (mcp_version_grows review d2) Hg4) Hs4) as Hs2.
  pose proof (settled_before _ _ Hg2 Hs2) as Hs1.
  assert (grows d2 d6) as Hg26 by (etrans; [apply (mcp_version_grows review)|by etrans]).
  pose proof (unknown_if_settled _ _ _ _ _ (settled_before _ _ Hg1 Hs1)) as Hsem.
  apply orb_false_iff in Hsem as [Had%negb_false_iff Hrisk%String.eqb_neq].
  rewrite Had in Hpe, Hve. destruct (Hsh Hs6) as (Hrun & Hesc & Htok).
  destruct Hc as (Hcf & Hcn & Hct & _). cbn in Hcf, Hcn, Hct.
  split; [done| | | | | |].
  - intros e Hin Hpre. destruct (Hfs e Hin Hpre Hs1) as (Hne & access & Ha & Hall).
    split; [done|]. exists access. split; [done|]. intros r Hr.
    destruct (Hall r Hr) as [Hsafe Hf]. split; [done|]. apply Hcf, Hg26, Hg2, Hf.
  - intros e Hin Hpre. destruct (Hnet e Hin Hpre Hs2) as (Hk & l & Hl & Hne & Hall).
    split; [done|]. exists l. split_and!; [done..|]. intros r Hr.
    destruct (Hall r Hr) as (n & h & Hnn & Ha & Hpro & Hre & Hh & Hrest).
    exists n, h. split_and!; try done. by apply Hcn, Hg26.
  - intros Hk Had'. destruct (Htool Hk Had' Hs4) as (_ & rt & tool & sv & Ht & Hm & Hto & Hsv & Hin).
    eexists. split; [apply Hct, Hg6, Hin|]. done.
  - intros Hr. rewrite Hpe. f_equal. by apply He, Hrun.
  - intros Hr. rewrite Hve. f_equal. by apply Hesc.
  - intros Hk. destruct (Htok Hk) as (token & Ht & Hpx).
    destruct (Hx Hk token) as (x & Hin & Hprog); [rewrite Hpx; left|]. by exists token, x.
Qed.

(** ** A review within a boundary *)

Lemma effect_access e a :
  dict_get e _FILESYSTEM_EFFECTS = Some a → a ∈ rights FILESYSTEM_RIGHTS a.
Proof.
  intros Ha%dict_get_member%list_elem_of_In.
  assert (forallb (λ kv, mem (snd kv) (rights FILESYSTEM_RIGHTS (snd kv))) _FILESYSTEM_EFFECTS = true)
    as H by reflexivity.
  rewrite forallb_forall in H. by apply mem_elem_of, (H _ Ha).
Qed.
Lemma pcov_not_tcp n : nc_protocol n ∈ PROTOCOLS → ¬ connects n.
Proof.
  intros H (E & _). rewrite E in H. apply mem_elem_of in H. discriminate H.
Qed.

Section boundary.
Context (set_order : list string → list string).
Hypothesis set_order_elem : ∀ l x, x ∈ set_order l ↔ x ∈ l.

(** The paths that an effect touches: the target, and for a recursive deletion
    everything below it. *)
Definition touches (effect top path : string) : Prop :=
  path = top ∨ effect = "filesystem.recursive_delete" ∧ startswith path (dir top) = true.

(** C18: When the contract derived from a review is within the boundary, then
    the review was neither a block nor of unknown risk, and what its evidence
    says that the action does is allowed by the boundary: every filesystem
    effect on every listed path, for a recursive deletion also on everything
    below; a network effect as the literal HTTP request of the action, with its
    method and path, on the one endpoint every listed resource is; the tool; the
    execution, when a process or code effect or a shell command runs something;
    the program of the shell command, or the path to which the host binds it;
    and the escalation, when a privilege effect or [sudo], [su] or [doas] as the
    program asks for it. *)
Theorem review_within_boundary review c b r :
  derive review = Ok c →
  verify_runtime_capability sha256 float_repr set_order c b = Ok r → ok r = true →
  (av_decision review ≠ Block ∧ adapted review = true ∧ av_risk review ≠ "unknown") ∧
  (∀ e, e ∈ av_effects review → startswith e "filesystem." = true →
     paths_of review ≠ [] ∧
     ∃ access, dict_get e _FILESYSTEM_EFFECTS = Some access ∧
       ∀ p path, p ∈ paths_of review → touches e (ar_value p) path →
         allows b (FileAccess access path)) ∧
  (∀ e, e ∈ av_effects review → startswith e "network." = true →
     ∃ l, network_resources review = Ok l ∧ l ≠ [] ∧
     ∀ p, p ∈ l → ∃ host port method path tool,
       resource_endpoint bracketed_host p = (Some host, Some port) ∧
       request_to (_literal_http_request review) p method path ∧
       allows b (Request host port (network_access review) tool method path)) ∧
  (kind_of review ∈ ["mcp"; "tool"] → av_adapter review ≠ Some "mcp.protocol" →
     ∃ t, parameter review "tool" = JStr (tc_tool t) ∧ allows b (UseTool t)) ∧
  (runs_process review → allows b Execution) ∧
  (kind_of review = "shell" →
     ∃ token x, runs_token review token ∧ program_of review token x ∧ allows b (RunProgram x)) ∧
  (escalates review → allows b Escalation).
Proof.
  intros Hd [Hv _]%verify_result Hok.
  destruct (no_findings _ set_order_elem _ _ (Hv Hok)) as (Hb & Hu & Hn & Hall).
  destruct (derive_stages _ _ Hd Hu) as (_ & _ & _ & _ & _ & _ & _ & _ & _ & _ & _ & _ & _ & _ & _ & _ & Hdec).
  destruct (derive_covers _ _ Hd Hu) as [[? ?] Hfs Hnet Htool Hrun Hesc Hsh].
  assert (av_decision review ≠ Block) as Hblock by (intros E; by rewrite Hdec, E in Hb).
  split_and!; try done.
  - intros e He Hp. destruct (Hfs e He Hp) as (Hne & a & Ha & Hf). split; [done|].
    exists a. split; [done|]. intros p path Hin Ht. apply Hall. destruct (Hf p Hin) as [_ Hfin].
    eexists. split; [exact Hfin|]. eexists. split_and!; [done|by eapply effect_access|].
    destruct Ht as [->|[-> Ht]]; [by left|by right].
  - intros e He Hp. destruct (Hnet e He Hp) as (_ & l & Hl & Hne & Hcov).
    exists l. split_and!; [done..|]. intros p Hin.
    destruct (Hcov p Hin) as (n & host & Hnin & Hacc & Hpro & Hhost & Hre & Hrest).
    destruct (network_scoped set_order b n) as [[(_ & [port Hport] & Hop & Hsc) _]|(f & E & _)];
      [|by rewrite (Hn n Hnin) in E].
    destruct Hsc as [Ht|(Hr & _ & _ & Hplain)]; [by apply pcov_not_tcp in Ht|].
    destruct (Hrest Hr) as (method & path & Hms & Hps & Hto). rewrite Hps in Hplain.
    exists host, port, method, path, (nc_tool_identity n).
    split_and!; [by rewrite Hre, Hport|done|].
    apply Hall. exists n. split; [done|]. split; [by rewrite <- Hacc|]. right.
    split_and!; [done|rewrite Hms; left|]. exists path. rewrite Hps. split; [left|].
    apply plain_path; [apply Hplain; left|done].
  - intros Hk Had. destruct (Htool Hk Had) as (t & Hin & Ht & _). exists t. split; [done|].
    by apply (Hall (UseTool t)).
  - intros Hr. by apply (Hall Execution), Hrun.
  - intros Hk. destruct (Hsh Hk) as (token & x & Ht & Hx & Hprog). exists token, x.
    split_and!; [done..|]. apply (Hall (RunProgram x)). split; [|done]. apply Hrun. by left.
  - intros He. by apply (Hall Escalation), Hesc.
Qed.
End boundary.
End derive.
