(* ===== verification/RuntimeRoundTrip.v ===== *)
(** * Contracts and boundaries as JSON ([ordin/runtime_contract.py], [ordin/runtime_boundary.py])

    A contract or a boundary whose parts passed their constructors reads back
    from its JSON form, and a derived contract has such parts. *)
From stdpp Require Import base list strings pretty sorting.
From Stdlib Require Import Bool Ascii ZArith QArith Lia.
From S2P Require Import Prelude PyStr Json Policy Temporal Shell Execution Provenance.
From S2P Require Import Commitment Requests ActionModel JsonSchema RuntimeContract.
From S2P Require Import RuntimeDerive RuntimeBoundary RuntimeFacts RuntimeDeriveFacts.
#[local] Open Scope py_scope.
#[local] Open Scope nat_scope.

Section round_trip.
Context (sha256 : string → string) (float_repr : Q → string).
#[local] Abbreviation mk_contract := (mk_RuntimeCapabilityContract sha256 float_repr).

(** ** Parts that passed their constructors *)

Record made (c : RuntimeCapabilityContract) : Prop := {
  made_filesystem f : f ∈ rc_filesystem c → mk_FilesystemCapability float_repr f = Ok f;
  made_network n : n ∈ rc_network c → mk_NetworkCapability float_repr n = Ok n;
  made_tools t : t ∈ rc_tools c → mk_ToolCapability float_repr t = Ok t;
  made_process : mk_ProcessCapability float_repr (rc_process c) = Ok (rc_process c);
  made_privilege : mk_PrivilegeCapability float_repr (rc_privilege c) = Ok (rc_privilege c);
  made_credentials k : k ∈ rc_credentials c → mk_CredentialBinding float_repr k = Ok k;
  made_unknowns u : u ∈ rc_unknowns c → mk_CapabilityUnknown float_repr u = Ok u }.

Lemma items_of_map {A} (read : json → res A) (write : A → json) l :
  (∀ x, x ∈ l → read (write x) = Ok x) → items_of read (JArr (map write l)) = Ok l.
Proof.
  unfold items_of. cbn. induction l as [|x l IH]; intros H; cbn; [done|].
  rewrite (H x) by left. cbn. rewrite IH by (intros y Hy; apply H; by right). done.
Qed.
Lemma texts_of_map l : texts_of (jstrings l) = Ok l.
Proof. by apply (items_of_map (λ j, as_str j "text") JStr). Qed.

Lemma opt_int_json o message : opt_int_field (jint_or_null o) message = Ok o.
Proof. by destruct o. Qed.
Lemma opt_bool_json o message : opt_bool_field (jbool_or_null o) message = Ok o.
Proof. by destruct o. Qed.

Lemma filesystem_reads f : mk_FilesystemCapability float_repr f = Ok f →
  FilesystemCapability_from_dict float_repr (FilesystemCapability_as_dict f) = Ok f.
Proof. destruct f as [access [path|] scope]; exact id. Qed.
Lemma network_reads n : mk_NetworkCapability float_repr n = Ok n →
  NetworkCapability_from_dict float_repr (NetworkCapability_as_dict n) = Ok n.
Proof.
  intros H. unfold NetworkCapability_from_dict.
  assert (texts_of (jget (NetworkCapability_as_dict n) "methods") = Ok (nc_methods n)) as ->
    by apply texts_of_map.
  assert (texts_of (jget (NetworkCapability_as_dict n) "paths") = Ok (nc_paths n)) as ->
    by apply texts_of_map.
  destruct n as [[host|] [port|] protocol access methods paths [tool|]]; exact H.
Qed.
Lemma tool_reads t : mk_ToolCapability float_repr t = Ok t →
  ToolCapability_from_dict float_repr (ToolCapability_as_dict t) = Ok t.
Proof. destruct t as [runtime [server|] tool operation]; exact id. Qed.
Lemma process_reads p : mk_ProcessCapability float_repr p = Ok p →
  ProcessCapability_from_dict float_repr (ProcessCapability_as_dict p) = Ok p.
Proof.
  intros H. unfold ProcessCapability_from_dict.
  assert (texts_of (jget (ProcessCapability_as_dict p) "executables") = Ok (pc_executables p)) as ->
    by apply texts_of_map.
  destruct p as [[execution|] executables [children|]]; exact H.
Qed.
Lemma privilege_reads p : mk_PrivilegeCapability float_repr p = Ok p →
  PrivilegeCapability_from_dict float_repr (PrivilegeCapability_as_dict p) = Ok p.
Proof. destruct p as [[escalation|] [uid|]]; exact id. Qed.
Lemma credential_reads k : mk_CredentialBinding float_repr k = Ok k →
  CredentialBinding_from_dict float_repr (CredentialBinding_as_dict k) = Ok k.
Proof. destruct k; exact id. Qed.
Lemma unknown_reads u : mk_CapabilityUnknown float_repr u = Ok u →
  CapabilityUnknown_from_dict float_repr (CapabilityUnknown_as_dict u) = Ok u.
Proof. destruct u; exact id. Qed.

(** ** Contracts *)

(** What the constructor checks last. *)
Lemma mk_contract_valid c c' :
  mk_contract c = Ok c' →
  with_contract_id (rc_contract_id c') c = c' ∧
  validate float_repr "runtime_capability" CAPABILITY (RuntimeCapabilityContract_as_dict c') = Ok tt.
Proof.
  unfold mk_RuntimeCapabilityContract. cbv zeta. intros H.
  do 6 apply res_bind_ok in H as (_ & _ & H). apply res_bind_ok in H as (_ & _ & H).
  apply res_bind_ok in H as ([] & Hv & H). injection H as <-. split; [done|exact Hv].
Qed.

Lemma contract_reads c :
  made c → mk_contract c = Ok c →
  RuntimeCapabilityContract_from_dict sha256 float_repr (RuntimeCapabilityContract_as_dict c) = Ok c.
Proof.
  intros Hm Hc. unfold RuntimeCapabilityContract_from_dict.
  set (payload := RuntimeCapabilityContract_as_dict c).
  assert (validate float_repr "runtime_capability" CAPABILITY payload = Ok tt) as ->.
  { apply mk_contract_valid in Hc as [E Hv]. unfold payload. exact Hv. }
  change (map fst (members payload)) with
    (map fst (material_members c) ++ ["contract_id"]).
  cbn [map fst material_members app mem existsb].
  assert (items_of (FilesystemCapability_from_dict float_repr) (jget payload "filesystem")
          = Ok (rc_filesystem c)) as -> by (apply items_of_map; intros; by apply filesystem_reads, Hm).
  assert (items_of (NetworkCapability_from_dict float_repr) (jget payload "network")
          = Ok (rc_network c)) as -> by (apply items_of_map; intros; by apply network_reads, Hm).
  assert (items_of (ToolCapability_from_dict float_repr) (jget payload "tools")
          = Ok (rc_tools c)) as -> by (apply items_of_map; intros; by apply tool_reads, Hm).
  assert (ProcessCapability_from_dict float_repr (jget payload "process") = Ok (rc_process c)) as ->
    by apply process_reads, Hm.
  assert (PrivilegeCapability_from_dict float_repr (jget payload "privilege")
          = Ok (rc_privilege c)) as -> by apply privilege_reads, Hm.
  assert (items_of (CredentialBinding_from_dict float_repr) (jget payload "credentials")
          = Ok (rc_credentials c)) as -> by (apply items_of_map; intros; by apply credential_reads, Hm).
  assert (items_of (CapabilityUnknown_from_dict float_repr) (jget payload "unknowns")
          = Ok (rc_unknowns c)) as -> by (apply items_of_map; intros; by apply unknown_reads, Hm).
  change (jget payload "grant_state") with (JStr (_base_grant_state c)).
  change (jget payload "source") with (JObj (rc_source c)).
  change (jget payload "action_id") with (jstr (rc_action_id c)).
  change (jget payload "action_digest") with (JStr (rc_action_digest c)).
  change (jget payload "decision") with (JStr (rc_decision c)).
  change (jget payload "risk") with (JStr (rc_risk c)).
  change (jget payload "contract_id") with (JStr (rc_contract_id c)).
  rewrite opt_str_jstr. cbn [mbind res_bind as_str members guard_or].
  change (mem _ _) with false. cbn [negb guard_or mbind res_bind].
  assert ({| rc_action_id := rc_action_id c; rc_action_digest := rc_action_digest c;
             rc_decision := rc_decision c; rc_risk := rc_risk c;
             rc_filesystem := rc_filesystem c; rc_network := rc_network c;
             rc_tools := rc_tools c; rc_process := rc_process c;
             rc_privilege := rc_privilege c; rc_credentials := rc_credentials c;
             rc_unknowns := rc_unknowns c; rc_source := rc_source c;
             rc_contract_id := rc_contract_id c |} = c) as -> by by destruct c.
  rewrite Hc. cbn [mbind res_bind json_equal]. by rewrite String.eqb_refl.
Qed.
(** The constructor keeps the contract that it made. *)
Lemma mk_contract_stable c c' : mk_contract c = Ok c' → mk_contract c' = Ok c'.
Proof.
  unfold mk_RuntimeCapabilityContract. cbv zeta. intros H.
  apply res_bind_ok in H as (? & H1 & H). apply res_bind_ok in H as (? & H2 & H).
  apply res_bind_ok in H as (? & H3 & H). apply res_bind_ok in H as (? & H4 & H).
  apply res_bind_ok in H as (? & H5 & H). apply res_bind_ok in H as (? & H6 & H).
  apply res_bind_ok in H as (_ & _ & H). apply res_bind_ok in H as (? & H8 & H).
  injection H as <-. set (id := "rc:" +:+ _) in *.
  cbn [rc_filesystem rc_network rc_tools rc_credentials rc_unknowns rc_source with_contract_id].
  rewrite H1, H2, H3, H4, H5, H6. cbn [mbind res_bind rc_contract_id with_contract_id].
  change (_material (with_contract_id id c)) with (_material c). fold id.
  rewrite String.eqb_refl, orb_true_r. cbn [guard_or mbind res_bind].
  change (with_contract_id id (with_contract_id id c)) with (with_contract_id id c).
  by rewrite H8.
Qed.

(** ** Boundaries *)

Record made_boundary (b : RuntimeCapabilityBoundary) : Prop := {
  mb_filesystem f : f ∈ bd_filesystem b → mk_FilesystemCapability float_repr f = Ok f;
  mb_network n : n ∈ bd_network b → mk_NetworkCapability float_repr n = Ok n;
  mb_tools t : t ∈ bd_tools b → mk_ToolCapability float_repr t = Ok t;
  mb_process : mk_ProcessCapability float_repr (bd_process b) = Ok (bd_process b);
  mb_privilege : mk_PrivilegeCapability float_repr (bd_privilege b) = Ok (bd_privilege b);
  mb_credentials k : k ∈ bd_credentials b → mk_CredentialBinding float_repr k = Ok k }.

Lemma boundary_reads b :
  made_boundary b → mk_RuntimeCapabilityBoundary float_repr b = Ok b →
  RuntimeCapabilityBoundary_from_dict float_repr (RuntimeCapabilityBoundary_as_dict b) = Ok b.
Proof.
  intros Hm Hb. unfold RuntimeCapabilityBoundary_from_dict.
  set (payload := RuntimeCapabilityBoundary_as_dict b).
  assert (validate float_repr "runtime_capability_boundary" BOUNDARY payload = Ok tt) as ->.
  { revert Hb. unfold mk_RuntimeCapabilityBoundary. intros H.
    do 4 apply res_bind_ok in H as (_ & _ & H). by apply res_bind_ok in H as ([] & Hv & _). }
  assert (items_of (FilesystemCapability_from_dict float_repr) (jget payload "filesystem")
          = Ok (bd_filesystem b)) as -> by (apply items_of_map; intros; by apply filesystem_reads, Hm).
  assert (items_of (NetworkCapability_from_dict float_repr) (jget payload "network")
          = Ok (bd_network b)) as -> by (apply items_of_map; intros; by apply network_reads, Hm).
  assert (items_of (ToolCapability_from_dict float_repr) (jget payload "tools")
          = Ok (bd_tools b)) as -> by (apply items_of_map; intros; by apply tool_reads, Hm).
  assert (ProcessCapability_from_dict float_repr (jget payload "process") = Ok (bd_process b)) as ->
    by apply process_reads, Hm.
  assert (PrivilegeCapability_from_dict float_repr (jget payload "privilege")
          = Ok (bd_privilege b)) as -> by apply privilege_reads, Hm.
  assert (items_of (CredentialBinding_from_dict float_repr) (jget payload "credentials")
          = Ok (bd_credentials b)) as -> by (apply items_of_map; intros; by apply credential_reads, Hm).
  change (jget payload "boundary_id") with (JStr (bd_boundary_id b)).
  change (jget payload "filesystem_semantics") with (JStr (bd_filesystem_semantics b)).
  change (jget payload "runtime_filesystem_guarantees") with
    (JBool (bd_runtime_filesystem_guarantees b)).
  change (jget payload "allow_any_executable") with (JBool (bd_allow_any_executable b)).
  destruct b; exact Hb.
Qed.

(** ** Derived contracts *)

Record made_draft (d : Draft) : Prop := {
  md_filesystem f : f ∈ dr_filesystem d → mk_FilesystemCapability float_repr f = Ok f;
  md_network n : n ∈ dr_network d → mk_NetworkCapability float_repr n = Ok n;
  md_tools t : t ∈ dr_tools d → mk_ToolCapability float_repr t = Ok t;
  md_unknowns u : u ∈ dr_unknowns d → mk_CapabilityUnknown float_repr u = Ok u;
  (** no request is bound to a tool *)
  md_untagged n : n ∈ dr_network d → nc_tool_identity n = None }.

Lemma empty_made : made_draft empty_draft.
Proof. by split; intros x ?%elem_of_nil. Qed.
Lemma unknown_made domain code reason d :
  is_ok (mk_CapabilityUnknown float_repr
           {| cu_domain := domain; cu_reason_code := code; cu_reason := reason |}) = true →
  made_draft d → made_draft (unknown domain code reason d).
Proof.
  intros Hu [Hf Hn Ht Hx Hg]. split; try done. intros u [->|?]%add_new_elem; [|by apply Hx].
  revert Hu. unfold mk_CapabilityUnknown. by destruct (validate _ _ _ _).
Qed.
Lemma unknown_if_made c domain code reason d :
  is_ok (mk_CapabilityUnknown float_repr
           {| cu_domain := domain; cu_reason_code := code; cu_reason := reason |}) = true →
  made_draft d → made_draft (unknown_if c domain code reason d).
Proof. intros Hu Hd. unfold unknown_if. destruct c; [by apply unknown_made|done]. Qed.

Lemma mk_filesystem_id c c' : mk_FilesystemCapability float_repr c = Ok c' → c' = c.
Proof. unfold mk_FilesystemCapability. intros H. by inv_res. Qed.
Lemma mk_network_id c c' : mk_NetworkCapability float_repr c = Ok c' → c' = c.
Proof. unfold mk_NetworkCapability. intros H. by inv_res. Qed.
Lemma mk_tool_id c c' : mk_ToolCapability float_repr c = Ok c' → c' = c.
Proof. unfold mk_ToolCapability. intros H. by inv_res. Qed.

Lemma mk_process_id p p' : mk_ProcessCapability float_repr p = Ok p' → p' = p.
Proof. unfold mk_ProcessCapability. intros H. by inv_res. Qed.
Lemma mk_privilege_id p p' : mk_PrivilegeCapability float_repr p = Ok p' → p' = p.
Proof. unfold mk_PrivilegeCapability. intros H. by inv_res. Qed.

Lemma add_filesystem_made access path scope d d' :
  add_filesystem float_repr access path scope d = Ok d' → made_draft d → made_draft d'.
Proof.
  unfold add_filesystem. intros (c & Hc & H)%res_bind_ok [Hf Hn Ht Hx Hg]. injection H as <-.
  pose proof (mk_filesystem_id _ _ Hc) as ->.
  split; try done. by intros f [->|?]%add_new_elem; [|apply Hf].
Qed.
Lemma add_network_made n d d' :
  add_network float_repr n d = Ok d' → nc_tool_identity n = None → made_draft d → made_draft d'.
Proof.
  unfold add_network. intros (c & Hc & H)%res_bind_ok Hn0 [Hf Hn Ht Hx Hg]. injection H as <-.
  pose proof (mk_network_id _ _ Hc) as ->.
  split; try done; intros f [->|?]%add_new_elem; auto.
Qed.
Lemma add_tool_made runtime server tool d d' :
  add_tool float_repr runtime server tool d = Ok d' → made_draft d → made_draft d'.
Proof.
  unfold add_tool. intros (c & Hc & H)%res_bind_ok [Hf Hn Ht Hx Hg]. injection H as <-.
  pose proof (mk_tool_id _ _ Hc) as ->.
  split; try done. by intros f [?| ->%list_elem_of_singleton]%elem_of_app; [apply Ht|].
Qed.

Lemma fold_made {A} (body : Draft → A → res Draft) l d d' :
  (∀ d x d', body d x = Ok d' → made_draft d → made_draft d') →
  fold_res body l d = Ok d' → made_draft d → made_draft d'.
Proof.
  intros Hb. revert d. induction l as [|x l IH]; intros d H Hd; cbn in H; inv_res; [done|].
  eapply IH; [exact H|]. by eapply Hb.
Qed.

(** Walks through a part: matches, unknowns with a constant text, additions. *)
Ltac made_step :=
  first
    [ assumption
    | apply unknown_made; [vm_compute; reflexivity|]
    | apply unknown_if_made; [vm_compute; reflexivity|]
    | match goal with
      | H : add_filesystem _ _ _ _ _ = Ok ?d |- made_draft ?d => apply (add_filesystem_made _ _ _ _ _ H)
      | H : add_network _ _ _ = Ok ?d |- made_draft ?d =>
          apply (add_network_made _ _ _ H); [try reflexivity|]
      | H : add_tool _ _ _ _ _ = Ok ?d |- made_draft ?d => apply (add_tool_made _ _ _ _ _ H)
      end ].

Lemma filesystem_resource_made effect access d r d' :
  filesystem_resource float_repr effect access d r = Ok d' → made_draft d → made_draft d'.
Proof. unfold filesystem_resource. intros H Hd. revert H. repeat (case_match; intros; inv_res); repeat made_step. Qed.
Lemma filesystem_effect_made paths d effect d' :
  filesystem_effect float_repr paths d effect = Ok d' → made_draft d → made_draft d'.
Proof.
  unfold filesystem_effect. intros (d1 & H1 & H)%res_bind_ok Hd.
  eapply fold_made in H; [exact H|apply filesystem_resource_made|]. clear H.
  destruct paths; inv_res; repeat made_step.
Qed.
Lemma filesystem_part_made review d d' :
  filesystem_part float_repr review d = Ok d' → made_draft d → made_draft d'.
Proof.
  unfold filesystem_part. cbv zeta. intros H Hd.
  eapply fold_made in H; [exact H|apply filesystem_effect_made|]. repeat made_step.
Qed.

Section derived.
Context (bracketed_host : string → bool) (float_decimal : Q → Decimal).

Lemma rest_capability_untagged request access r host port n :
  rest_capability bracketed_host request access r host port = Ok (Some n) →
  nc_tool_identity n = None.
Proof.
  unfold rest_capability. destruct request as [[method url]|]; [|done].
  destruct (negb _); [done|]. destruct (urlsplit _ _); [|done]. cbv zeta.
  destruct (_ && _); [|done]. by intros [= <-].
Qed.
Lemma protocol_capability_untagged review urls access r host port n :
  protocol_capability bracketed_host review urls access r host port = Some n →
  nc_tool_identity n = None.
Proof.
  unfold protocol_capability. destruct (_ || _); [|done].
  destruct (endpoint_of _ _) as [[[h p] path]|]; [|done]. by intros [= <-].
Qed.
Lemma network_resource_made review request urls access d r d' :
  network_resource bracketed_host float_repr review request urls access d r = Ok d' →
  made_draft d → made_draft d'.
Proof.
  unfold network_resource. destruct (resource_endpoint _ r) as [host port].
  cbv zeta. intros (rest & Hrest & H)%res_bind_ok Hd. revert H.
  set (d0 := unknown_if _ _ _ _ d). assert (made_draft d0) as Hd0 by repeat made_step.
  set (concrete := match rest with Some _ => _ | None => _ end).
  assert (∀ n, concrete = Some n → nc_tool_identity n = None) as Hc.
  { unfold concrete. intros n. destruct rest as [c|], host as [h|]; try done.
    - intros [= <-]. by eapply rest_capability_untagged.
    - apply protocol_capability_untagged. }
  clearbody d0 concrete.
  destruct concrete; intros; inv_res; repeat made_step. by apply Hc.
Qed.
Lemma request_of_made review d :
  made_draft d → made_draft (snd (request_of bracketed_host float_decimal sha256 review d)).
Proof.
  intros Hd. unfold request_of. cbv zeta. repeat (case_match; cbn [snd]); repeat made_step.
Qed.
Lemma network_part_made review d d' :
  network_part bracketed_host float_decimal sha256 float_repr review d = Ok d' →
  made_draft d → made_draft d'.
Proof.
  unfold network_part. cbv zeta. intros (l & _ & H)%res_bind_ok Hd.
  pose proof (request_of_made review d Hd) as Hr.
  destruct (request_of _ _ _ review d) as [request d0]. cbn [snd] in Hr.
  destruct (effects_within _ _); [by inv_res|]. apply res_bind_ok in H as (d2 & H2 & H).
  eapply fold_made in H; [exact H|intros; by eapply network_resource_made|]. clear H.
  destruct l; inv_res; repeat made_step.
Qed.
Lemma tool_part_made review d d' :
  tool_part float_repr review d = Ok d' → made_draft d → made_draft d'.
Proof.
  unfold tool_part. cbv zeta. intros H Hd. revert H.
  repeat (case_match; intros; inv_res); repeat made_step.
Qed.
Lemma process_part_made review d :
  made_draft d → made_draft (snd (process_part review d)).
Proof.
  intros Hd. unfold process_part. cbv zeta. destruct (kind_of review =s "shell"); [|done].
  set (p0 := {| pd_execution := _ |}).
  assert (made_draft (snd (shell_process (parameter review "command") p0 d))) as H.
  { unfold shell_process. repeat (case_match; cbn [snd]); repeat made_step. }
  destruct (shell_process _ _ _) as [p d0]. cbn [snd] in *. repeat made_step.
Qed.
Lemma requirement_made shell r record r' :
  requirement float_repr shell r record = Ok r' → made_draft (rq_draft r) → made_draft (rq_draft r').
Proof.
  unfold requirement, filesystem_requirement, executable_requirement. cbv zeta.
  intros H Hd. revert H.
  repeat (case_match; intros; inv_res); cbn [rq_draft with_draft children_requirement
    client_requirement]; repeat made_step.
Qed.
Lemma requirements_part_made review p d d' execution executables children :
  requirements_part float_repr review p d = Ok (d', execution, executables, children) →
  made_draft d → made_draft d'.
Proof.
  unfold requirements_part. intros (r & Hr & H)%res_bind_ok Hd.
  assert (made_draft (rq_draft r)) as Hr'.
  { revert Hr. set (r0 := {| rq_draft := d |}). assert (made_draft (rq_draft r0)) as H0 by done.
    clearbody r0. clear H. revert r0 H0. induction (provenance_records review) as [|x l IH];
      intros r0 H0 H; cbn in H; inv_res; [done|]. eapply IH; [|exact H]. by eapply requirement_made. }
  cbv zeta in H. repeat (case_match; intros; inv_res); repeat made_step.
Qed.

Lemma derived_made review c :
  derive_runtime_capability_contract bracketed_host float_decimal sha256 float_repr review = Ok c →
  mk_contract c = Ok c ∧ made c ∧ ∀ n, n ∈ rc_network c → nc_tool_identity n = None.
Proof.
  unfold derive_runtime_capability_contract. intros H.
  apply res_bind_ok in H as (d1 & H1 & H). apply res_bind_ok in H as (d2 & H2 & H).
  cbv zeta in H. apply res_bind_ok in H as (d4 & H4 & H).
  destruct (process_part review d4) as [p d6] eqn:H6.
  apply res_bind_ok in H as ([[[d7 execution] executables] children] & H7 & H).
  apply res_bind_ok in H as (process & Hp & H). apply res_bind_ok in H as (privilege & Hv & H).
  assert (made_draft d7) as Hd.
  { apply requirements_part_made in H7; [done|].
    pose proof (process_part_made review d4) as Hpp. rewrite H6 in Hpp. apply Hpp.
    apply tool_part_made in H4; [done|]. unfold mcp_version_part. made_step.
    apply network_part_made in H2; [done|]. apply filesystem_part_made in H1; [done|].
    unfold semantics_part. made_step. apply empty_made. }
  split; [by eapply mk_contract_stable|]. apply mk_contract_inv in H as [id ->]. split; [split; cbn|].
  - intros f Hf%in_sorted_by. by apply Hd.
  - intros n Hn%in_sorted_by. by apply Hd.
  - apply Hd.
  - by rewrite <- (mk_process_id _ _ Hp) in Hp at 1.
  - by rewrite <- (mk_privilege_id _ _ Hv) in Hv at 1.
  - by intros k ?%elem_of_nil.
  - intros u Hu%in_sorted_by. by apply Hd.
  - intros n Hn%in_sorted_by. by apply Hd.
Qed.

(** C30: A contract that is derived from a review is well formed, each of its parts
    accepted by its schema, and reads back unchanged from its JSON form. *)
Theorem derived_round_trip review c :
  derive_runtime_capability_contract bracketed_host float_decimal sha256 float_repr review = Ok c →
  made c ∧
  RuntimeCapabilityContract_from_dict sha256 float_repr (RuntimeCapabilityContract_as_dict c) = Ok c.
Proof.
  intros (Hc & Hm & _)%derived_made. split; [done|]. by apply contract_reads.
Qed.
End derived.
End round_trip.
