(* ===== verification/ShippedRuntime.v ===== *)
(** * Runtime contracts at concrete reviews

    The contracts of commands reviewed under the shipped catalog, checked
    against a boundary that allows one request and against one that does not. *)
From stdpp Require Import base list strings gmap.
From Stdlib Require Import Bool Ascii ZArith Lia.
From S2P Require Import Prelude PyStr Json Policy Shipped ShippedReview Execution Provenance.
From S2P Require Import RequestReaders Commitment Requests ActionModel Action ShippedAction.
From S2P Require Import JsonSchema RuntimeContract RuntimeDerive RuntimeBoundary.
From S2P Require Import RuntimeFacts RuntimeDeriveFacts RuntimeRoundTrip.
#[local] Open Scope py_scope.
#[local] Open Scope nat_scope.
#[local] Existing Instance sample_readers.

(** A digest of the right form, and sets iterated in the order of insertion. *)
Definition sample_digest64 (s : string) : string :=
  "aaaaaaaaaaaaaaaaaaaaaaaaaaaaaaaaaaaaaaaaaaaaaaaaaaaaaaaaaaaaaaaa".
Definition in_order (l : list string) : list string := l.
Lemma in_order_elem l (x : string) : x ∈ in_order l ↔ x ∈ l.
Proof. done. Defined.

Definition review_of_command (command : string) : res ActionReview :=
  _review_action_base sample_close sample_search shipped_temporal shipped None None
    (shell_action command None).
Definition contract_of (command : string) : res RuntimeCapabilityContract :=
  r ← review_of_command command;
  derive_runtime_capability_contract (λ _, true) no_decimal sample_digest64 no_float r.

Definition no_privilege : PrivilegeCapability :=
  {| vc_escalation := Some false; vc_required_euid := None |}.
Definition item_reader : RuntimeCapabilityBoundary :=
  {| bd_boundary_id := "reader"; bd_filesystem := [];
     bd_network :=
       [{| nc_host := Some "example.com"; nc_port := Some 443%Z; nc_protocol := "rest";
           nc_access := "read"; nc_methods := ["GET"; "HEAD"]; nc_paths := ["/items/**"; "/items"];
           nc_tool_identity := None |}];
     bd_tools := [];
     bd_process := {| pc_execution := Some true; pc_executables := ["/usr/bin/curl"];
                      pc_spawn_children := Some true |};
     bd_privilege := no_privilege; bd_credentials := []; bd_filesystem_semantics := "exact";
     bd_runtime_filesystem_guarantees := false; bd_allow_any_executable := false |}.
Definition checked (command : string) (b : RuntimeCapabilityBoundary)
  : res CapabilityVerificationResult :=
  c ← contract_of command;
  verify_runtime_capability sample_digest64 no_float in_order c b.

Example item_read_within :
  (vr_result <$> checked "/usr/bin/curl -q https://example.com/items/4" item_reader)
  = Ok "within_boundary".
Proof. vm_compute. reflexivity. Qed.
Example other_host_exceeds :
  (vr_reason_code <$> checked "/usr/bin/curl -q https://example.org/items/4" item_reader)
  = Ok "network_endpoint_exceeds_boundary".
Proof. vm_compute. reflexivity. Qed.
Example removal_exceeds :
  (vr_reason_code <$> checked "/usr/bin/rm -rf /srv/data" item_reader)
  = Ok "filesystem_access_exceeds_boundary".
Proof. vm_compute. reflexivity. Qed.

Definition item_command : string := "/usr/bin/curl -q https://example.com/items/4".

(** What the pipeline computes. *)
Ltac ok_value m := let x := eval vm_compute in m in match x with Ok ?v => exact v end.
Definition item_review : ActionReview := ltac:(ok_value (review_of_command item_command)).
Definition item_contract : RuntimeCapabilityContract := ltac:(ok_value (contract_of item_command)).
Definition item_result : CapabilityVerificationResult :=
  ltac:(ok_value (checked item_command item_reader)).
Definition removal_contract : RuntimeCapabilityContract :=
  ltac:(ok_value (contract_of "/usr/bin/rm -rf /srv/data")).
Definition removal_result : CapabilityVerificationResult :=
  ltac:(ok_value (checked "/usr/bin/rm -rf /srv/data" item_reader)).

Lemma item_reviewed : review_of_command item_command = Ok item_review.
Proof. vm_compute. reflexivity. Defined.
Lemma item_derived :
  derive_runtime_capability_contract (λ _, true) no_decimal sample_digest64 no_float item_review
  = Ok item_contract.
Proof. vm_compute. reflexivity. Defined.
Lemma item_verified :
  verify_runtime_capability sample_digest64 no_float in_order item_contract item_reader
  = Ok item_result.
Proof. vm_compute. reflexivity. Defined.

Lemma boundary_sound_witness :
  contract_of item_command = Ok item_contract ∧ requires item_contract (RunProgram "/usr/bin/curl") ∧
  allows item_reader (RunProgram "/usr/bin/curl").
Proof.
  destruct (boundary_sound sample_digest64 no_float in_order in_order_elem item_contract item_reader
    item_result item_verified eq_refl) as (_ & _ & H).
  assert (requires item_contract (RunProgram "/usr/bin/curl")) as Hr by (split; [done|left]).
  split; [vm_compute; reflexivity|]. split; [exact Hr|]. exact (H _ Hr).
Defined.

Lemma boundary_genuine_witness :
  contract_of "/usr/bin/rm -rf /srv/data" = Ok removal_contract ∧
  (rc_decision removal_contract = "block" ∨
   (∃ f, f ∈ rc_filesystem removal_contract ∧ ∀ m, m ∈ bd_filesystem item_reader →
      ∃ op path, file_admits f op path ∧ ¬ file_admits m op path) ∨
   ∃ a, requires removal_contract a ∧ ¬ allows item_reader a).
Proof.
  split; [vm_compute; reflexivity|].
  apply (boundary_genuine sample_digest64 no_float in_order in_order_elem removal_contract item_reader
    removal_result); [|vm_compute; reflexivity|reflexivity].
  intros f Hf. apply mem_elem_of. revert Hf. unfold removal_contract. cbn [rc_filesystem].
  intros [->|[->|?%elem_of_nil]%elem_of_cons]%elem_of_cons; [reflexivity..|done].
Defined.

(** A boundary that allows one subtree to be removed. *)
Definition data_remover : RuntimeCapabilityBoundary :=
  {| bd_boundary_id := "remover";
     bd_filesystem := [{| fc_access := "delete"; fc_path := Some "/srv/data"; fc_scope := "prefix" |}];
     bd_network := []; bd_tools := [];
     bd_process := {| pc_execution := Some true; pc_executables := ["/usr/bin/rm"];
                      pc_spawn_children := Some true |};
     bd_privilege := no_privilege; bd_credentials := []; bd_filesystem_semantics := "exact";
     bd_runtime_filesystem_guarantees := false; bd_allow_any_executable := false |}.
Definition removal_review : ActionReview :=
  ltac:(ok_value (review_of_command "/usr/bin/rm -rf /srv/data")).
Definition removal_within : CapabilityVerificationResult :=
  ltac:(ok_value (checked "/usr/bin/rm -rf /srv/data" data_remover)).
Lemma removal_derived :
  derive_runtime_capability_contract (λ _, true) no_decimal sample_digest64 no_float removal_review
  = Ok removal_contract.
Proof. vm_compute. reflexivity. Defined.
Lemma removal_verified :
  verify_runtime_capability sample_digest64 no_float in_order removal_contract data_remover
  = Ok removal_within.
Proof. vm_compute. reflexivity. Defined.

Lemma review_within_boundary_witness :
  allows data_remover (FileAccess "delete" "/srv/data/cache/old") ∧
  (∃ host port method path tool,
     request_to (λ _, true) (Some ("GET", "https://example.com/items/4"))
       {| ar_type := "url"; ar_value := "https://example.com/items/4" |} method path ∧
     allows item_reader (Request host port "read" tool method path)) ∧
  allows item_reader Execution.
Proof.
  destruct (review_within_boundary (λ _, true) no_decimal sample_digest64 no_float in_order
    in_order_elem removal_review removal_contract data_remover removal_within removal_derived
    removal_verified eq_refl) as (_ & Hfs & _).
  destruct (review_within_boundary (λ _, true) no_decimal sample_digest64 no_float in_order
    in_order_elem item_review item_contract item_reader item_result item_derived item_verified eq_refl)
    as (_ & _ & Hnet & _ & Hrun & _).
  split; [|split].
  - destruct (Hfs "filesystem.recursive_delete") as (_ & access & [= <-] & H);
      [apply (bool_decide_unpack _); vm_compute; exact I|reflexivity|].
    apply (H {| ar_type := "path"; ar_value := "/srv/data" |});
      [apply (bool_decide_unpack _); vm_compute; exact I|].
    right. split; reflexivity.
  - destruct (Hnet "network.connect") as (l & Hl & _ & H); [left|reflexivity|].
    vm_compute in Hl. injection Hl as <-.
    destruct (H {| ar_type := "url"; ar_value := "https://example.com/items/4" |})
      as (host & port & method & path & tool & _ & Hto & Hallow); [left|].
    exists host, port, method, path, tool. split; [exact Hto|exact Hallow].
  - apply Hrun. left. reflexivity.
Defined.

Lemma derived_round_trip_witness :
  RuntimeCapabilityContract_from_dict sample_digest64 no_float
    (RuntimeCapabilityContract_as_dict item_contract) = Ok item_contract
  ∧ rc_decision item_contract = "allow".
Proof.
  split; [|reflexivity].
  exact (proj2 (derived_round_trip sample_digest64 no_float (λ _, true) no_decimal item_review
    item_contract item_derived)).
Defined.
