(* ===== verification/Approval.v ===== *)
(** * The issuer of approvals ([ordin/approval.py])

    An [ApprovalSource] turns a human resolution into a satisfaction, reserves
    one execution lease for it, and lets the lease begin once.  A method that
    asks the host's lifecycle verifier releases its lock meanwhile: it is two
    critical sections, with the question in between, and other calls can come
    between them.  Objects that the code compares with [is] carry a reference.
    The host's objects (the evidence source, the profile, the maximum, the
    clock, the receipt it records) are read at the time of a section; the check
    that an action is within the operator's maximum is an argument.  Times are
    integers, in units of the least double. *)
From stdpp Require Import base list strings gmap.
From Stdlib Require Import Bool Ascii ZArith QArith Lia.
From S2P Require Import Prelude State PyStr Policy Json JsonText Execution Provenance.
From S2P Require Import Commitment Requests ActionModel JsonSchema RuntimeContract RuntimeDerive.
#[local] Open Scope py_scope.
#[local] Open Scope Z_scope.

Definition ref : Type := positive.

(** ** Scopes *)

Record ApprovalScope := {
  as_context_digest : string;
  as_policy_digest : string;
  as_policy_epoch : Z;
  as_scope_digest : string;
  as_operator_maximum_digest : string;
  as_owner_fence : Z;
  as_revocation_epoch : Z;
  as_budget_digest : string;
  as_delegation_digest : string;
  as_capabilities_digest : string }.

Definition hex_digest (value : string) : bool :=
  (String.length value =? 64)%nat && str_forall hex value.
Definition _hex (value : string) : res unit :=
  guard_or (hex_digest value) (ValueError "exact approval binding digest required").
Definition bounded_epoch (value : Z) : res unit :=
  guard_or ((0 <=? value) && (value <=? 2 ^ 63 - 1))
    (ValueError "invalid bounded approval epoch or ownership fence").

Definition mk_ApprovalScope (s : ApprovalScope) : res ApprovalScope :=
  _ ← _hex (as_context_digest s);
  _ ← _hex (as_policy_digest s);
  _ ← _hex (as_scope_digest s);
  _ ← _hex (as_operator_maximum_digest s);
  _ ← _hex (as_budget_digest s);
  _ ← _hex (as_delegation_digest s);
  _ ← _hex (as_capabilities_digest s);
  _ ← bounded_epoch (as_policy_epoch s);
  _ ← bounded_epoch (as_owner_fence s);
  _ ← bounded_epoch (as_revocation_epoch s);
  Ok s.
Definition ApprovalScope_as_dict (s : ApprovalScope) : json :=
  JObj [("context_digest", JStr (as_context_digest s));
        ("policy_digest", JStr (as_policy_digest s)); ("policy_epoch", JInt (as_policy_epoch s));
        ("scope_digest", JStr (as_scope_digest s));
        ("operator_maximum_digest", JStr (as_operator_maximum_digest s));
        ("owner_fence", JInt (as_owner_fence s));
        ("revocation_epoch", JInt (as_revocation_epoch s));
        ("budget_digest", JStr (as_budget_digest s));
        ("delegation_digest", JStr (as_delegation_digest s));
        ("capabilities_digest", JStr (as_capabilities_digest s))].

(** ** Objects *)

Record ScopeObj := { sc_ref : ref; sc : ApprovalScope }.
Record ApprovalSatisfaction := {
  sat_ref : ref; satisfaction_id : string; sat_source : ref }.
Record ApprovalExecutionLease := { lease_ref : ref; lease_id : string; lease_source : ref }.
(** The receipt that the host recorded, with its digest. *)
Record NativeReceipt := { nr_ref : ref; nr_digest : string }.

(** [_Satisfaction], with its payload and the two members of the payload that are
    read back. *)
Record _Satisfaction := {
  sn_ref : ref;
  sn_scope : ScopeObj;
  sn_action_digest : string;
  sn_review_digest : string;
  sn_configuration_digest : string;
  sn_approval : NativeReceipt;
  sn_expires_at : Z;
  sn_generation : Z;
  sn_satisfaction_id : string;
  sn_host_approval_digest : string;
  sn_payload : json }.

Record _Execution := {
  ex_satisfaction : ApprovalSatisfaction;
  ex_base_contract_digest : string;
  ex_broker : ref;
  ex_executor : option ref;
  ex_job : option ref;
  ex_state : string;
  ex_lease_id : string;
  ex_payload : json }.

Record ApprovalSource := {
  self_ref : ref;
  _operator : ref;
  _maximum_digest : string;
  _host_digest : string;
  _profile_digest : string;
  _nonce : string;
  _limit : nat;
  _generation : Z;
  _last_now : Z;
  _scopes : gmap ref string;
  _issued : gmap ref _Satisfaction;
  _leases : gmap ref _Execution;
  _used : gset ref;
  next_ref : ref }.

Definition set_last_now (v : Z) (s : ApprovalSource) : ApprovalSource :=
  {| self_ref := self_ref s; _operator := _operator s; _maximum_digest := _maximum_digest s;
     _host_digest := _host_digest s; _profile_digest := _profile_digest s; _nonce := _nonce s;
     _limit := _limit s; _generation := _generation s; _last_now := v; _scopes := _scopes s;
     _issued := _issued s; _leases := _leases s; _used := _used s; next_ref := next_ref s |}.
Definition set_generation (v : Z) (s : ApprovalSource) : ApprovalSource :=
  {| self_ref := self_ref s; _operator := _operator s; _maximum_digest := _maximum_digest s;
     _host_digest := _host_digest s; _profile_digest := _profile_digest s; _nonce := _nonce s;
     _limit := _limit s; _generation := v; _last_now := _last_now s; _scopes := _scopes s;
     _issued := _issued s; _leases := _leases s; _used := _used s; next_ref := next_ref s |}.
Definition set_leases (v : gmap ref _Execution) (s : ApprovalSource) : ApprovalSource :=
  {| self_ref := self_ref s; _operator := _operator s; _maximum_digest := _maximum_digest s;
     _host_digest := _host_digest s; _profile_digest := _profile_digest s; _nonce := _nonce s;
     _limit := _limit s; _generation := _generation s; _last_now := _last_now s;
     _scopes := _scopes s; _issued := _issued s; _leases := v; _used := _used s;
     next_ref := next_ref s |}.
Definition set_used (v : gset ref) (s : ApprovalSource) : ApprovalSource :=
  {| self_ref := self_ref s; _operator := _operator s; _maximum_digest := _maximum_digest s;
     _host_digest := _host_digest s; _profile_digest := _profile_digest s; _nonce := _nonce s;
     _limit := _limit s; _generation := _generation s; _last_now := _last_now s;
     _scopes := _scopes s; _issued := _issued s; _leases := _leases s; _used := v;
     next_ref := next_ref s |}.
Definition set_scopes (v : gmap ref string) (s : ApprovalSource) : ApprovalSource :=
  {| self_ref := self_ref s; _operator := _operator s; _maximum_digest := _maximum_digest s;
     _host_digest := _host_digest s; _profile_digest := _profile_digest s; _nonce := _nonce s;
     _limit := _limit s; _generation := _generation s; _last_now := _last_now s;
     _scopes := v; _issued := _issued s; _leases := _leases s; _used := _used s;
     next_ref := next_ref s |}.
Definition set_issued (v : gmap ref _Satisfaction) (s : ApprovalSource) : ApprovalSource :=
  {| self_ref := self_ref s; _operator := _operator s; _maximum_digest := _maximum_digest s;
     _host_digest := _host_digest s; _profile_digest := _profile_digest s; _nonce := _nonce s;
     _limit := _limit s; _generation := _generation s; _last_now := _last_now s;
     _scopes := _scopes s; _issued := v; _leases := _leases s; _used := _used s;
     next_ref := next_ref s |}.
(** A reference is taken for a new object. *)
Definition advance (s : ApprovalSource) : ApprovalSource :=
  {| self_ref := self_ref s; _operator := _operator s; _maximum_digest := _maximum_digest s;
     _host_digest := _host_digest s; _profile_digest := _profile_digest s; _nonce := _nonce s;
     _limit := _limit s; _generation := _generation s; _last_now := _last_now s;
     _scopes := _scopes s; _issued := _issued s; _leases := _leases s; _used := _used s;
     next_ref := Pos.succ (next_ref s) |}.

(** What the host's objects are when a section reads them; a clock reading
    that is not a finite number is [None]. *)
Record Surroundings := {
  en_maximum_digest : string;
  en_profile_digest : string;
  en_host_digest : string;
  en_host_epoch : Z;
  en_profile_ok : bool;
  en_clock : option Z;
  en_uuid : string;
  en_recorded : res NativeReceipt }.

#[local] Abbreviation M := (ST ApprovalSource).

(** ** Doubles, as multiples of the least one *)

(** The nearest double, ties to even. *)
Definition float_round (z : Z) : Z :=
  let k := Z.log2 (Z.abs z) - 52 in
  if k <=? 0 then z
  else let q := z / 2 ^ k in
       let r := z mod 2 ^ k in
       let half := 2 ^ (k - 1) in
       (if (half <? r) || ((half =? r) && Z.odd q) then q + 1 else q) * 2 ^ k.
Definition float_add (x y : Z) : Z := float_round (x + y).
Definition seconds (n : Z) : Z := n * 2 ^ 1074.
Definition json_time (z : Z) : json := JFloat (Qmake z (2 ^ 1074)).
#[global] Arguments seconds : simpl never.
#[global] Arguments json_time : simpl never.
#[global] Arguments float_round : simpl never.

Definition _configuration (e : Surroundings) : M unit :=
  _ ← demands (λ s, (en_maximum_digest e =s _maximum_digest s)
                    && (en_profile_digest e =s _profile_digest s)
                    && (en_host_digest e =s _host_digest s))
        (ValueError "protected approval configuration changed");
  demands (λ _, en_profile_ok e)
    (ValueError "host evidence source does not match selected profile").

(** A reading that [float] cannot represent, an [OverflowError], does not occur. *)
Definition _now (e : Surroundings) : M Z :=
  let unavailable := ValueError "approval clock unavailable or moved backward" in
  match en_clock e with
  | None => raises unavailable
  | Some now => _ ← demands (λ s, negb (now <? _last_now s)) unavailable;
                _ ← assigns (set_last_now (float_round now));
                mret (float_round now)
  end.

Definition _operator_check (operator : ref) : M unit :=
  demands (λ s, bool_decide (operator = _operator s))
    (ValueError "original protected approval operator capability required").

(** A new object. *)
Definition allocate : M ref :=
  n ← gets next_ref;
  _ ← assigns advance;
  mret n.

(** ** The questions to the lifecycle verifier, and the calls in flight

    [_lifecycle] answers [false] also when the verifier raises or answers
    anything but [True]. *)

Record question := { q_satisfaction_id : string; q_scope : ScopeObj; q_stage : string }.

(** What a call still has to do after the answer: the locals it kept. *)
Inductive pending :=
| PIssue (action : ActionEnvelope) (review : ActionReview) (configuration_digest : string)
    (scope : ScopeObj) (satisfaction_id : string) (lifetime : Z)
    (contract : RuntimeCapabilityContract) (generation : Z)
| PVerify (proof : ApprovalSatisfaction) (row : _Satisfaction)
| PHostReceipt (proof : ApprovalSatisfaction) (row : _Satisfaction)
| PHostApproval (proof : ApprovalSatisfaction) (row : _Satisfaction)
| PReserve (proof : ApprovalSatisfaction) (row : _Satisfaction)
    (contract : RuntimeCapabilityContract) (broker : ref)
| PBegin (lease : ApprovalExecutionLease) (satisfaction : ApprovalSatisfaction)
    (proof : _Satisfaction) (executor job : option ref)
| PVerifyExecution (lease : ApprovalExecutionLease) (satisfaction : ApprovalSatisfaction)
    (proof : _Satisfaction) (executor job : option ref).

(** What a call returns. *)
Inductive answer :=
| Nothing
| Affirmed (b : bool)
| ScopeIs (scope : ScopeObj)
| Proof_ (proof : ApprovalSatisfaction)
| Lease_ (lease : ApprovalExecutionLease)
| Receipt (native : NativeReceipt)
| Payload (payload : json).

Inductive outcome :=
| Answered (a : answer)
| Asked (q : question) (p : pending).

Definition asked (proof : ApprovalSatisfaction) (row : _Satisfaction) (stage : string)
    (p : pending) : outcome :=
  Asked {| q_satisfaction_id := satisfaction_id proof; q_scope := sn_scope row;
           q_stage := stage |} p.

Definition is_proof (proof p : ApprovalSatisfaction) : bool :=
  bool_decide (sat_ref proof = sat_ref p).
Definition used (proof : ApprovalSatisfaction) (s : ApprovalSource) : bool :=
  bool_decide (sat_ref proof ∈ _used s).
Definition from_self (r : ref) (s : ApprovalSource) : bool := bool_decide (r = self_ref s).
Definition some_lease (f : _Execution → bool) (s : ApprovalSource) : bool :=
  existsb (λ kv, f (snd kv)) (map_to_list (_leases s)).
Definition leased (proof : ApprovalSatisfaction) : ApprovalSource → bool :=
  some_lease (λ row, is_proof (ex_satisfaction row) proof).
Definition forwarding_or_unused (proof : ApprovalSatisfaction) (s : ApprovalSource) : bool :=
  negb (used proof s)
  || some_lease (λ row, is_proof (ex_satisfaction row) proof && (ex_state row =s "forwarding")) s.
Definition stage_of (proof : ApprovalSatisfaction) (s : ApprovalSource) : string :=
  if used proof s then "execution" else "review".

Definition with_state (state : string) (row : _Execution) : _Execution :=
  {| ex_satisfaction := ex_satisfaction row;
     ex_base_contract_digest := ex_base_contract_digest row; ex_broker := ex_broker row;
     ex_executor := ex_executor row; ex_job := ex_job row; ex_state := state;
     ex_lease_id := ex_lease_id row; ex_payload := ex_payload row |}.
Definition with_job (executor job : option ref) (row : _Execution) : _Execution :=
  {| ex_satisfaction := ex_satisfaction row;
     ex_base_contract_digest := ex_base_contract_digest row; ex_broker := ex_broker row;
     ex_executor := executor; ex_job := job; ex_state := ex_state row;
     ex_lease_id := ex_lease_id row; ex_payload := ex_payload row |}.

(** [self._issued.get(proof)], [self._leases.get(lease)]. *)
Definition issued_row (proof : ApprovalSatisfaction) : M (option _Satisfaction) :=
  gets (λ s, _issued s !! sat_ref proof).
Definition lease_row (lease : ApprovalExecutionLease) : M (option _Execution) :=
  gets (λ s, _leases s !! lease_ref lease).
(** [self._issued[proof]]. *)
Definition issued_item (proof : ApprovalSatisfaction) : M _Satisfaction :=
  asks (λ s, match _issued s !! sat_ref proof with
             | Some row => Ok row
             | None => Err (KeyError (satisfaction_id proof))
             end).

Section source.
Context (bracketed_host : string → bool) (float_decimal : Q → Decimal).
Context (sha256 : string → string) (float_repr : Q → string).
(** [_verify_operation_authority(complete, self.maximum).ok], for the complete
    request contract of a review. *)
Context (within_maximum : ActionReview → RuntimeCapabilityContract → res bool).
#[local] Abbreviation digest := (digest sha256 float_repr).
#[local] Abbreviation contract_digest := (contract_digest sha256 float_repr).

Definition scope_digest (s : ApprovalScope) : string := digest (ApprovalScope_as_dict s).
Definition action_digest_of (a : ActionEnvelope) : string := digest (ActionEnvelope_as_dict a).
Definition review_digest_of (r : ActionReview) : string := digest (ActionReview_as_dict r).

(** [self._scopes.get(scope) == scope.digest]. *)
Definition scope_unchanged (scope : ScopeObj) (s : ApprovalSource) : bool :=
  bool_decide (_scopes s !! sc_ref scope = Some (scope_digest (sc scope))).

Definition binding_digest (e : Surroundings) : M string :=
  _ ← _configuration e;
  gets (λ s, digest (JArr [JStr (_nonce s); JInt (_generation s); JStr (_host_digest s);
                           JStr (_profile_digest s); JStr (_maximum_digest s)])).

Definition create_scope (e : Surroundings) (operator : ref) (bindings : ApprovalScope)
  : M outcome :=
  _ ← _operator_check operator;
  _ ← _configuration e;
  _ ← demands (λ s, negb (_limit s <=? size (_scopes s))%nat)
        (ValueError "approval scope capacity reached");
  scope ← lifts (mk_ApprovalScope bindings);
  _ ← demands (λ s, (as_policy_epoch scope =? en_host_epoch e)
                    && (as_operator_maximum_digest scope =s _maximum_digest s))
        (ValueError "approval scope exceeds current host epoch or operator maximum");
  r ← allocate;
  _ ← assigns (λ s, set_scopes (<[r := scope_digest scope]> (_scopes s)) s);
  mret (Answered (ScopeIs {| sc_ref := r; sc := scope |})).

Definition _base_contract (action : ActionEnvelope) (review : ActionReview)
  : res RuntimeCapabilityContract :=
  _ ← guard_or (action_digest_of action =s action_digest_of (av_action review))
        (ValueError "approval requires the exact original normalized review");
  contract ← derive_runtime_capability_contract bracketed_host float_decimal sha256 float_repr
               review;
  _ ← guard_or (negb ((decision_str (av_decision review) =s "block")
                      || negb (length (rc_unknowns contract) =? 0)%nat
                      || (_base_grant_state contract =s "diagnostic")))
        (ValueError "approval cannot satisfy a block or missing action semantics");
  Ok contract.

Definition satisfaction_char (c : ascii) : bool := alnum c || one_of "_-" c.
Definition satisfaction_identity (value : string) : bool :=
  (1 <=? String.length value)%nat && (String.length value <=? 64)%nat
  && str_forall satisfaction_char value.
Definition lifetime_ok (lifetime : Z) : bool := (0 <? lifetime) && (lifetime <=? seconds 300).
Definition identity_taken (id : string) (s : ApprovalSource) : bool :=
  existsb (λ kv, sn_satisfaction_id (snd kv) =s id) (map_to_list (_issued s)).
Definition can_issue (id : string) (s : ApprovalSource) : bool :=
  negb ((_limit s <=? size (_issued s))%nat || identity_taken id s).

(** [issue], up to the question. *)
Definition issue (e : Surroundings) (operator : ref) (action : ActionEnvelope)
    (review : ActionReview) (configuration_digest : string) (scope : ScopeObj) (id : string)
    (lifetime : option Z) : M outcome :=
  _ ← _operator_check operator;
  _ ← lifts (_hex configuration_digest);
  _ ← lifts (guard_or (satisfaction_identity id)
               (ValueError "bounded original human resolution identity required"));
  lifetime ← lifts (match lifetime with
                    | Some v => if lifetime_ok v then Ok v else
                        Err (ValueError "approval lifetime must be at most 300 seconds")
                    | None => Err (ValueError "approval lifetime must be at most 300 seconds")
                    end);
  contract ← lifts (_base_contract action review);
  within ← lifts (within_maximum review contract);
  _ ← lifts (guard_or within
       (ValueError "approved action exceeds actual operator maximum or verifier coverage"));
  _ ← _configuration e;
  _ ← demands (λ s, scope_unchanged scope s
                    && (as_capabilities_digest (sc scope) =s contract_digest contract))
        (ValueError "original exact approval capability scope required");
  generation ← gets _generation;
  _ ← demands (can_issue id)
        (ValueError "approval receipt identity reused or capacity reached");
  mret (Asked {| q_satisfaction_id := id; q_scope := scope; q_stage := "issue" |}
          (PIssue action review configuration_digest scope id lifetime contract generation)).

Definition satisfaction_payload (id action_digest review_digest configuration_digest : string)
    (scope : ApprovalScope) (binding native_digest : string) (expiry : Z) : json :=
  JObj [("schema_version", JStr "ordin.approval_satisfaction.v1");
        ("satisfaction_id", JStr id); ("action_digest", JStr action_digest);
        ("review_digest", JStr review_digest);
        ("configuration_digest", JStr configuration_digest);
        ("scope", ApprovalScope_as_dict scope); ("source_binding", JStr binding);
        ("host_approval_digest", JStr native_digest); ("expires_at", json_time expiry);
        ("fulfilled_obligation", JStr "operator_review");
        ("execution_authority", JBool false)].

Definition issue_resumed (e : Surroundings) (affirmed : bool) (action : ActionEnvelope)
    (review : ActionReview) (configuration_digest : string) (scope : ScopeObj) (id : string)
    (lifetime : Z) (contract : RuntimeCapabilityContract) (generation : Z) : M answer :=
  _ ← lifts (guard_or affirmed
               (ValueError "original committed human resolution is unavailable"));
  _ ← _configuration e;
  _ ← demands (λ s, (generation =? _generation s) && can_issue id s)
        (ValueError "approval issuer changed or receipt identity raced");
  again ← lifts (_base_contract action review);
  _ ← demands (λ s, (contract_digest again =s contract_digest contract)
                    && scope_unchanged scope s)
        (ValueError "action, review or scope changed during human approval issuance");
  r ← allocate;
  native ← lifts (en_recorded e);
  now ← _now e;
  let expiry := float_add now lifetime in
  binding ← binding_digest e;
  row_ref ← allocate;
  let row :=
    {| sn_ref := row_ref; sn_scope := scope;
       sn_action_digest := action_digest_of action;
       sn_review_digest := review_digest_of review;
       sn_configuration_digest := configuration_digest;
       sn_approval := native; sn_expires_at := expiry; sn_generation := generation;
       sn_satisfaction_id := id; sn_host_approval_digest := nr_digest native;
       sn_payload := satisfaction_payload id (action_digest_of action)
         (review_digest_of review) configuration_digest (sc scope) binding
         (nr_digest native) expiry |} in
  _ ← assigns (λ s, set_issued (<[r := row]> (_issued s)) s);
  self ← gets self_ref;
  mret (Proof_ {| sat_ref := r; satisfaction_id := id; sat_source := self |}).

(** ** Whether a satisfaction is alive *)

Definition _alive (e : Surroundings) (proof : ApprovalSatisfaction) (row : _Satisfaction)
  : M bool :=
  _ ← _configuration e;
  same ← gets (λ s, from_self (sat_source proof) s
                    && (satisfaction_id proof =s sn_satisfaction_id row)
                    && (sn_generation row =? _generation s));
  if negb same then mret false else
  now ← _now e;
  gets (λ s, (now <? sn_expires_at row) && scope_unchanged (sn_scope row) s
             && forwarding_or_unused proof s).

Definition scope_for (e : Surroundings) (proof : ApprovalSatisfaction) : M outcome :=
  row ← issued_row proof;
  let refused := ValueError "original current approval scope required" in
  match row with
  | Some row =>
      _ ← demands (from_self (sat_source proof)) refused;
      alive ← _alive e proof row;
      _ ← lifts (guard_or alive refused);
      mret (Answered (ScopeIs (sn_scope row)))
  | None => raises refused
  end.

Definition describe (proof : ApprovalSatisfaction) : M json :=
  row ← issued_row proof;
  let refused := ValueError "original protected approval satisfaction required" in
  match row with
  | Some row =>
      _ ← demands (from_self (sat_source proof)) refused;
      _ ← lifts (freeze MAX_RUNTIME_ITEMS 0 (sn_payload row));
      mret (sn_payload row)
  | None => raises refused
  end.

Definition row_matches (action : ActionEnvelope) (review : ActionReview)
    (configuration_digest : string) (contract : RuntimeCapabilityContract)
    (row : _Satisfaction) : bool :=
  (action_digest_of action =s sn_action_digest row)
  && (review_digest_of review =s sn_review_digest row)
  && (configuration_digest =s sn_configuration_digest row)
  && (contract_digest contract =s as_capabilities_digest (sc (sn_scope row))).

(** [verify], up to the question, inside its [try]. *)
Definition verify (e : Surroundings) (proof : ApprovalSatisfaction) (action : ActionEnvelope)
    (review : ActionReview) (configuration_digest : string) (scope : option ScopeObj)
  : M outcome :=
  let no := Answered (Affirmed false) in
  catches (
    row ← issued_row proof;
    match row with
    | Some row =>
        if negb (bool_decide (option_map sc_ref scope = Some (sc_ref (sn_scope row))))
        then mret no else
        alive ← _alive e proof row;
        if negb alive then mret no else
        contract ← lifts (_base_contract action review);
        if negb (row_matches action review configuration_digest contract row)
        then mret no else
        stage ← gets (stage_of proof);
        mret (asked proof row stage (PVerify proof row))
    | None => mret no
    end) no.

Definition host_receipt_current_of (p : ApprovalSatisfaction → _Satisfaction → pending)
    (e : Surroundings) (native : NativeReceipt) (proof : ApprovalSatisfaction) : M outcome :=
  let no := Answered (Affirmed false) in
  catches (
    row ← issued_row proof;
    match row with
    | Some row =>
        if negb (bool_decide (nr_ref (sn_approval row) = nr_ref native))
           || negb (nr_digest native =s sn_host_approval_digest row)
        then mret no else
        alive ← _alive e proof row;
        if negb alive then mret no else
        stage ← gets (stage_of proof);
        mret (asked proof row stage (p proof row))
    | None => mret no
    end) no.
Definition host_receipt_current : Surroundings → NativeReceipt → ApprovalSatisfaction →
  M outcome := host_receipt_current_of PHostReceipt.

(** The second section of [verify] and of [host_receipt_current]. *)
Definition still_alive (e : Surroundings) (affirmed : bool) (proof : ApprovalSatisfaction)
    (row : _Satisfaction) : M bool :=
  catches (
    if negb affirmed then mret false else
    now ← issued_row proof;
    match now with
    | Some row' => if bool_decide (sn_ref row' = sn_ref row) then _alive e proof row
                   else mret false
    | None => mret false
    end) false.

(** [host_approval].  A row that is in the table stays there unchanged, so
    reading it belongs to the first section of [host_receipt_current]. *)
Definition host_expired : exn := ValueError "human approval expired, consumed or changed".
Definition host_approval (e : Surroundings) (proof : ApprovalSatisfaction) : M outcome :=
  row ← issued_row proof;
  let refused := ValueError "original protected host approval required" in
  match row with
  | Some row =>
      _ ← demands (from_self (sat_source proof)) refused;
      r ← host_receipt_current_of PHostApproval e (sn_approval row) proof;
      match r with
      | Asked q p => mret (Asked q p)
      | Answered _ => raises host_expired
      end
  | None => raises refused
  end.
Definition host_approval_resumed (e : Surroundings) (affirmed : bool)
    (proof : ApprovalSatisfaction) (row : _Satisfaction) : M answer :=
  alive ← still_alive e affirmed proof row;
  _ ← lifts (guard_or alive host_expired);
  mret (Receipt (sn_approval row)).

(** ** Leases *)

Definition room_for_lease (proof : ApprovalSatisfaction) (s : ApprovalSource) : bool :=
  negb ((_limit s <=? size (_leases s))%nat || leased proof s).

Definition reserve_lease (e : Surroundings) (operator : ref) (proof : ApprovalSatisfaction)
    (contract : RuntimeCapabilityContract) (broker : ref) : M outcome :=
  _ ← _operator_check operator;
  row ← issued_row proof;
  let refused := ValueError "original current unused human approval required" in
  match row with
  | Some row =>
      alive ← _alive e proof row;
      _ ← lifts (guard_or alive refused);
      _ ← demands (λ s, negb (used proof s)) refused;
      _ ← lifts (guard_or
            ((contract_digest contract =s as_capabilities_digest (sc (sn_scope row)))
             && (length (rc_unknowns contract) =? 0)%nat
             && negb (rc_decision contract =s "block"))
            (ValueError
               "approval lease cannot change capability requirements or waive unknowns"));
      _ ← demands (room_for_lease proof)
            (ValueError "approval already has a broker lease or lease capacity reached");
      mret (asked proof row "reserve" (PReserve proof row contract broker))
  | None => raises refused
  end.

Definition lease_payload (id satisfaction_digest base_contract_digest scope_digest : string)
    (expires_at : Z) : json :=
  JObj [("schema_version", JStr "ordin.approval_execution_lease.v1"); ("lease_id", JStr id);
        ("satisfaction_digest", JStr satisfaction_digest);
        ("base_contract_digest", JStr base_contract_digest);
        ("scope_digest", JStr scope_digest); ("expires_at", json_time expires_at);
        ("execution_authority", JBool false)].

Definition reserve_lease_resumed (e : Surroundings) (affirmed : bool)
    (proof : ApprovalSatisfaction) (row : _Satisfaction) (contract : RuntimeCapabilityContract)
    (broker : ref) : M answer :=
  _ ← lifts (guard_or affirmed (ValueError "original durable approval hold unavailable"));
  let raced := ValueError "approval lease admission changed or raced" in
  alive ← _alive e proof row;
  _ ← lifts (guard_or alive raced);
  _ ← demands (λ s, negb (used proof s) && room_for_lease proof s) raced;
  r ← allocate;
  satisfaction ← describe proof;
  self ← gets self_ref;
  let execution :=
    {| ex_satisfaction := proof; ex_base_contract_digest := contract_digest contract;
       ex_broker := broker; ex_executor := None; ex_job := None; ex_state := "reserved";
       ex_lease_id := en_uuid e;
       ex_payload := lease_payload (en_uuid e) (digest satisfaction)
         (contract_digest contract) (scope_digest (sc (sn_scope row))) (sn_expires_at row) |} in
  _ ← assigns (λ s, set_leases (<[r := execution]> (_leases s)) s);
  mret (Lease_ {| lease_ref := r; lease_id := en_uuid e; lease_source := self |}).

(** [row is None or lease._source is not self or lease.lease_id != ...], denied. *)
Definition original_lease (lease : ApprovalExecutionLease) (row : _Execution)
    (s : ApprovalSource) : bool :=
  from_self (lease_source lease) s && (ex_lease_id row =s lease_id lease).

Definition describe_lease (lease : ApprovalExecutionLease) : M json :=
  row ← lease_row lease;
  let refused := ValueError "original approval execution lease required" in
  match row with
  | Some row =>
      _ ← demands (original_lease lease row) refused;
      _ ← lifts (freeze MAX_RUNTIME_ITEMS 0 (ex_payload row));
      mret (ex_payload row)
  | None => raises refused
  end.
Definition witnessed (lease : ApprovalExecutionLease) (base_contract_digest : string)
  : M bool :=
  row ← lease_row lease;
  match row with
  | Some row => gets (λ s, original_lease lease row s
                           && (ex_base_contract_digest row =s base_contract_digest))
  | None => mret false
  end.
Definition lease_matches (lease : ApprovalExecutionLease) (proof : ApprovalSatisfaction)
  : M bool :=
  row ← lease_row lease;
  match row with
  | Some row => gets (λ s, is_proof (ex_satisfaction row) proof && original_lease lease row s)
  | None => mret false
  end.

Definition put_lease (lease : ApprovalExecutionLease) (row : _Execution) : M unit :=
  assigns (λ s, set_leases (<[lease_ref lease := row]> (_leases s)) s).

Definition bind_job (e : Surroundings) (operator : ref) (lease : ApprovalExecutionLease)
    (broker : ref) (executor job : option ref) : M answer :=
  _ ← _operator_check operator;
  row ← lease_row lease;
  let refused := ValueError "original unused exact-broker approval lease required" in
  match row with
  | Some row =>
      _ ← demands (λ s, original_lease lease row s && bool_decide (ex_broker row = broker)
                        && (ex_state row =s "reserved") && bool_decide (ex_job row = None))
            refused;
      proof ← issued_item (ex_satisfaction row);
      alive ← _alive e (ex_satisfaction row) proof;
      _ ← lifts (guard_or alive (ValueError "approval changed before owned job binding"));
      _ ← put_lease lease (with_job executor job row);
      mret Nothing
  | None => raises refused
  end.

(** [begin], up to the question. *)
Definition begin (e : Surroundings) (operator : ref) (lease : ApprovalExecutionLease)
    (broker : ref) (executor job : option ref) : M outcome :=
  _ ← _operator_check operator;
  row ← lease_row lease;
  let refused := ValueError "approval lease was copied, used or bound to another owned job" in
  match row with
  | Some row =>
      _ ← demands (λ s, original_lease lease row s && bool_decide (ex_broker row = broker)
                        && bool_decide (ex_executor row = executor)
                        && bool_decide (ex_job row = job)
                        && (ex_state row =s "reserved") && negb (used (ex_satisfaction row) s))
            refused;
      proof ← issued_item (ex_satisfaction row);
      alive ← _alive e (ex_satisfaction row) proof;
      _ ← lifts (guard_or alive (ValueError "approval changed before actual forwarding"));
      mret (asked (ex_satisfaction row) proof "begin"
              (PBegin lease (ex_satisfaction row) proof executor job))
  | None => raises refused
  end.
(** The lease's row is the object of the first section, read again. *)
Definition begin_resumed (e : Surroundings) (affirmed : bool) (lease : ApprovalExecutionLease)
    (satisfaction : ApprovalSatisfaction) (proof : _Satisfaction) : M answer :=
  _ ← lifts (guard_or affirmed
               (ValueError "original committed approval consumption unavailable"));
  row ← lease_row lease;
  let raced := ValueError "approval forwarding raced or changed" in
  match row with
  | Some row =>
      _ ← demands (λ s, (ex_state row =s "reserved") && negb (used satisfaction s)) raced;
      alive ← _alive e satisfaction proof;
      _ ← lifts (guard_or alive raced);
      _ ← assigns (λ s, set_used ({[sat_ref satisfaction]} ∪ _used s) s);
      _ ← put_lease lease (with_state "forwarding" row);
      mret Nothing
  | None => raises raced
  end.

Definition verify_execution (e : Surroundings) (lease : ApprovalExecutionLease)
    (executor job : option ref) : M outcome :=
  let no := Answered (Affirmed false) in
  catches (
    row ← lease_row lease;
    match row with
    | Some row =>
        ok ← gets (λ s, original_lease lease row s && bool_decide (ex_executor row = executor)
                        && bool_decide (ex_job row = job) && (ex_state row =s "forwarding"));
        if negb ok then mret no else
        proof ← issued_item (ex_satisfaction row);
        alive ← _alive e (ex_satisfaction row) proof;
        if negb alive then mret no else
        mret (asked (ex_satisfaction row) proof "execution"
                (PVerifyExecution lease (ex_satisfaction row) proof executor job))
    | None => mret no
    end) no.
Definition verify_execution_resumed (e : Surroundings) (affirmed : bool)
    (lease : ApprovalExecutionLease) (satisfaction : ApprovalSatisfaction)
    (proof : _Satisfaction) : M bool :=
  catches (
    if negb affirmed then mret false else
    row ← lease_row lease;
    match row with
    | Some row => if ex_state row =s "forwarding" then _alive e satisfaction proof
                  else mret false
    | None => mret false
    end) false.

Definition finish (operator : ref) (lease : ApprovalExecutionLease) : M answer :=
  _ ← _operator_check operator;
  row ← lease_row lease;
  let refused := ValueError "original approval lease required" in
  match row with
  | Some row =>
      _ ← demands (from_self (lease_source lease)) refused;
      _ ← put_lease lease
            (with_state (if ex_state row =s "forwarding" then "settled" else "canceled") row);
      mret Nothing
  | None => raises refused
  end.

Definition fenced (row : _Execution) : _Execution :=
  if negb (ex_state row =s "settled") then with_state "fenced" row else row.
Definition fence (operator : ref) : M answer :=
  _ ← _operator_check operator;
  _ ← assigns (λ s, set_generation (_generation s + 1) s);
  _ ← assigns (λ s, set_leases (fenced <$> _leases s) s);
  mret Nothing.

(** ** Calls and their interleaving *)

Inductive Call :=
| CreateScope (operator : ref) (bindings : ApprovalScope)
| Issue (operator : ref) (action : ActionEnvelope) (review : ActionReview)
    (configuration_digest : string) (scope : ScopeObj) (satisfaction_id : string)
    (lifetime : option Z)
| ScopeFor (proof : ApprovalSatisfaction)
| Describe (proof : ApprovalSatisfaction)
| CurrentApproval (proof : ApprovalSatisfaction)
| Verify (proof : ApprovalSatisfaction) (action : ActionEnvelope) (review : ActionReview)
    (configuration_digest : string) (scope : option ScopeObj)
| HostReceiptCurrent (native : NativeReceipt) (proof : ApprovalSatisfaction)
| ReserveLease (operator : ref) (proof : ApprovalSatisfaction)
    (contract : RuntimeCapabilityContract) (broker : ref)
| DescribeLease (lease : ApprovalExecutionLease)
| Witnessed (lease : ApprovalExecutionLease) (base_contract_digest : string)
| LeaseMatches (lease : ApprovalExecutionLease) (proof : ApprovalSatisfaction)
| BindJob (operator : ref) (lease : ApprovalExecutionLease) (broker : ref)
    (executor job : option ref)
| Begin (operator : ref) (lease : ApprovalExecutionLease) (broker : ref)
    (executor job : option ref)
| VerifyExecution (lease : ApprovalExecutionLease) (executor job : option ref)
| Finish (operator : ref) (lease : ApprovalExecutionLease)
| Fence (operator : ref).

Definition answers {A} (f : A → answer) (m : M A) : M outcome := x ← m; mret (Answered (f x)).
Definition start (c : Call) (e : Surroundings) : M outcome :=
  match c with
  | CreateScope operator bindings => create_scope e operator bindings
  | Issue operator action review cfg scope id lifetime =>
      issue e operator action review cfg scope id lifetime
  | ScopeFor proof => scope_for e proof
  | Describe proof => answers Payload (describe proof)
  | CurrentApproval proof => host_approval e proof
  | Verify proof action review cfg scope => verify e proof action review cfg scope
  | HostReceiptCurrent native proof => host_receipt_current e native proof
  | ReserveLease operator proof contract broker => reserve_lease e operator proof contract broker
  | DescribeLease lease => answers Payload (describe_lease lease)
  | Witnessed lease d => answers Affirmed (witnessed lease d)
  | LeaseMatches lease proof => answers Affirmed (lease_matches lease proof)
  | BindJob operator lease broker executor job =>
      answers id (bind_job e operator lease broker executor job)
  | Begin operator lease broker executor job => begin e operator lease broker executor job
  | VerifyExecution lease executor job => verify_execution e lease executor job
  | Finish operator lease => answers id (finish operator lease)
  | Fence operator => answers id (fence operator)
  end.
Definition returns {A} (f : A → answer) (m : M A) : M answer := x ← m; mret (f x).
Definition resume (p : pending) (affirmed : bool) (e : Surroundings) : M answer :=
  match p with
  | PIssue action review cfg scope id lifetime contract generation =>
      issue_resumed e affirmed action review cfg scope id lifetime contract generation
  | PVerify proof row | PHostReceipt proof row =>
      returns Affirmed (still_alive e affirmed proof row)
  | PHostApproval proof row => host_approval_resumed e affirmed proof row
  | PReserve proof row contract broker =>
      reserve_lease_resumed e affirmed proof row contract broker
  | PBegin lease satisfaction proof _ _ => begin_resumed e affirmed lease satisfaction proof
  | PVerifyExecution lease satisfaction proof _ _ =>
      returns Affirmed (verify_execution_resumed e affirmed lease satisfaction proof)
  end.

(** A source with its calls in flight, and what has happened, latest first: a
    call started, or one resumed with the verifier's answer. *)
Inductive event :=
| Started (c : Call) (r : res outcome)
| Resumed (p : pending) (affirmed : bool) (r : res answer).
Record Issuer := { is_source : ApprovalSource; is_calls : list pending; is_log : list event }.
Inductive happening :=
| Starts (c : Call) (e : Surroundings)
| Resumes (i : nat) (affirmed : bool) (e : Surroundings).
Definition in_flight (r : res outcome) : list pending :=
  match r with Ok (Asked _ p) => [p] | _ => [] end.
Definition happen (w : Issuer) (h : happening) : Issuer :=
  match h with
  | Starts c e =>
      let '(s, r) := start c e (is_source w) in
      {| is_source := s; is_calls := is_calls w ++ in_flight r;
         is_log := Started c r :: is_log w |}
  | Resumes i affirmed e =>
      match is_calls w !! i with
      | Some p =>
          let '(s, r) := resume p affirmed e (is_source w) in
          {| is_source := s; is_calls := delete i (is_calls w);
             is_log := Resumed p affirmed r :: is_log w |}
      | None => w
      end
  end.
Definition happens (w : Issuer) (l : list happening) : Issuer := fold_left happen l w.
End source.

(** [__init__], after its checks: nothing is issued. *)
Definition new_source (self operator : ref) (maximum_digest host_digest profile_digest nonce : string)
    (maximum_receipts : nat) : res ApprovalSource :=
  _ ← guard_or ((1 <=? maximum_receipts) && (maximum_receipts <=? 4096))%nat
        (ValueError "invalid bounded approval issuer capacity");
  Ok {| self_ref := self; _operator := operator; _maximum_digest := maximum_digest;
        _host_digest := host_digest; _profile_digest := profile_digest; _nonce := nonce;
        _limit := maximum_receipts; _generation := 0; _last_now := 0; _scopes := ∅;
        _issued := ∅; _leases := ∅; _used := ∅; next_ref := 1%positive |}.
Definition new_issuer (s : ApprovalSource) : Issuer :=
  {| is_source := s; is_calls := []; is_log := [] |}.
