(* ===== verification/ApprovalFacts.v ===== *)
(** * What an approval source guarantees

    Approvals are used once, in any interleaving of calls; a fence is final,
    also for the calls in flight; an execution that verifies was issued,
    reserved and begun, each with the verifier's word; and an approval that is
    left alone can be carried through. *)
From stdpp Require Import base list strings gmap.
From Stdlib Require Import Bool ZArith QArith Lia.
From S2P Require Import Prelude State PyStr Policy Json Execution Provenance.
From S2P Require Import Commitment Requests ActionModel JsonSchema RuntimeContract RuntimeDerive Approval.
#[local] Open Scope py_scope.
#[local] Open Scope Z_scope.

(** ** What does not change *)

(** The tables are the same; the clock may have been read, and objects made. *)
Record same (s s' : ApprovalSource) : Prop := {
  same_self : self_ref s' = self_ref s;
  same_operator : _operator s' = _operator s;
  same_limit : _limit s' = _limit s;
  same_maximum : _maximum_digest s' = _maximum_digest s;
  same_host : _host_digest s' = _host_digest s;
  same_profile : _profile_digest s' = _profile_digest s;
  same_generation : _generation s' = _generation s;
  same_scopes : _scopes s' = _scopes s;
  same_issued : _issued s' = _issued s;
  same_leases : _leases s' = _leases s;
  same_used : _used s' = _used s;
  same_next : (next_ref s ≤ next_ref s')%positive }.
#[export] Instance same_preorder : PreOrder same.
Proof.
  split; [intros s; by split; try lia|]. intros s1 s2 s3 [] [].
  split; try congruence. lia.
Qed.

Lemma same_last_now v s : same s (set_last_now v s).
Proof. split; cbn; try done; lia. Qed.
Lemma same_advance s : same s (advance s).
Proof. split; cbn; try done; lia. Qed.

(** An operation that leaves the tables alone. *)
Create HintDb approval.
Ltac quiet :=
  repeat first [ progress moves_step | case_match ];
  try solve [ intros; reflexivity | intros; apply same_last_now | intros; apply same_advance
            | auto with approval typeclass_instances ].

Lemma configuration_same e : moves same (_configuration e).
Proof. unfold _configuration. quiet. Qed.
Lemma now_same e : moves same (_now e).
Proof. unfold _now. quiet. Qed.
#[export] Hint Resolve configuration_same now_same : approval.
Lemma operator_check_same r : moves same (_operator_check r).
Proof. unfold _operator_check. quiet. Qed.
Lemma allocate_same : moves same allocate.
Proof. unfold allocate. quiet. Qed.
Lemma issued_row_same proof : moves same (issued_row proof).
Proof. unfold issued_row. quiet. Qed.
Lemma lease_row_same lease : moves same (lease_row lease).
Proof. unfold lease_row. quiet. Qed.
Lemma issued_item_same proof : moves same (issued_item proof).
Proof. unfold issued_item. quiet. Qed.
#[export] Hint Resolve operator_check_same allocate_same issued_row_same lease_row_same
  issued_item_same : approval.

(** Opens an operation that returned. *)
Ltac opened := unfold _operator_check, _configuration, issued_row, lease_row, issued_item,
  allocate, put_lease in *; inv_st.
Ltac facts := opened; inv_res; split_bools;
  repeat match goal with
  | H : (_ =s _) = true |- _ => apply eqb_true in H
  | H : ?b = true |- _ => is_var b; subst b
  | H : Some _ = Some _ |- _ => injection H as H; subst
  end.

Section source.
Context (bracketed_host : string → bool) (float_decimal : Q → Decimal).
Context (sha256 : string → string) (float_repr : Q → string).
Context (within_maximum : ActionReview → RuntimeCapabilityContract → res bool).
#[local] Abbreviation alive_ := (_alive sha256 float_repr).
#[local] Abbreviation start_ := (start bracketed_host float_decimal sha256 float_repr within_maximum).
#[local] Abbreviation resume_ := (resume bracketed_host float_decimal sha256 float_repr).
#[local] Abbreviation happen_ :=
  (happen bracketed_host float_decimal sha256 float_repr within_maximum).
#[local] Abbreviation happens_ :=
  (happens bracketed_host float_decimal sha256 float_repr within_maximum).

Lemma binding_digest_same e : moves same (binding_digest sha256 float_repr e).
Proof. unfold binding_digest. quiet. Qed.
Lemma alive_same e proof row : moves same (alive_ e proof row).
Proof. unfold _alive. quiet. Qed.
Lemma describe_same proof : moves same (describe proof).
Proof. unfold describe. quiet. Qed.
#[local] Hint Resolve binding_digest_same alive_same describe_same : approval.
Lemma still_alive_same e b proof row : moves same (still_alive sha256 float_repr e b proof row).
Proof. unfold still_alive. quiet. Qed.
#[local] Hint Resolve still_alive_same : approval.

(** ** Alive *)

Lemma now_ok e s s' t : _now e s = (s', Ok t) → t = _last_now s'.
Proof.
  unfold _now. destruct (en_clock e); [|by intros [=]]. intros H. by inv_st.
Qed.
Lemma alive_true e proof row s s' : alive_ e proof row s = (s', Ok true) →
  same s s' ∧ sat_source proof = self_ref s ∧
  satisfaction_id proof = sn_satisfaction_id row ∧ sn_generation row = _generation s ∧
  _last_now s' < sn_expires_at row ∧
  scope_unchanged sha256 float_repr (sn_scope row) s = true ∧
  forwarding_or_unused proof s = true.
Proof.
  intros H. pose proof (moves_result _ _ _ _ _ (alive_same e proof row) H) as Hs.
  split; [exact Hs|]. unfold _alive in H. apply st_bind_ok in H as (s1 & [] & Hc & H).
  pose proof (moves_result _ _ _ _ _ (configuration_same e) Hc) as H1.
  apply st_bind_ok in H as (s2 & same & Hg & H). apply st_gets_ok in Hg as [-> Hsame].
  destruct same; [|discriminate H]. cbn [negb] in H. symmetry in Hsame.
  apply st_bind_ok in H as (s3 & t & Ht & H). apply st_gets_ok in H as [-> H].
  pose proof (moves_result _ _ _ _ _ (now_same e) Ht) as H2.
  apply now_ok in Ht as ->. symmetry in H.
  apply andb_prop in Hsame as [Hsame Hgen]. apply andb_prop in Hsame as [Hsrc Hid].
  apply andb_prop in H as [H Hf]. apply andb_prop in H as [Ht Hsc].
  apply bool_decide_eq_true in Hsrc. apply eqb_true in Hid. 
  assert (Hss : Approval._scopes s3 = _scopes s) by (rewrite (same_scopes _ _ H2); apply (same_scopes _ _ H1)).
  unfold scope_unchanged in *. rewrite Hss in Hsc.
  unfold forwarding_or_unused, used, some_lease in *.
  rewrite (same_used _ _ H2), (same_used _ _ H1), (same_leases _ _ H2), (same_leases _ _ H1) in Hf.
  rewrite (same_self _ _ H1) in Hsrc. rewrite (same_generation _ _ H1) in Hgen.
  split_and!; try done; lia.
Qed.

(** ** The operations that change a table *)

Ltac failing := repeat first [ progress errs_step quiet | case_match ].

Lemma create_scope_err e op b : errs same (create_scope sha256 float_repr e op b).
Proof. unfold create_scope. failing. Qed.
Lemma bind_job_err e op lease broker x j :
  errs same (bind_job sha256 float_repr e op lease broker x j).
Proof. unfold bind_job, put_lease. failing. Qed.
Lemma finish_err op lease : errs same (finish op lease).
Proof. unfold finish, put_lease. failing. Qed.
Lemma fence_err op : errs same (fence op).
Proof. unfold fence. failing. Qed.
Lemma issue_resumed_err e b action review cfg scope id lifetime contract generation :
  errs same (issue_resumed bracketed_host float_decimal sha256 float_repr e b action review cfg
               scope id lifetime contract generation).
Proof. unfold issue_resumed. failing. Qed.
Lemma reserve_resumed_err e b proof row contract broker :
  errs same (reserve_lease_resumed sha256 float_repr e b proof row contract broker).
Proof. unfold reserve_lease_resumed. failing. Qed.
Lemma begin_resumed_err e b lease satisfaction proof :
  errs same (begin_resumed sha256 float_repr e b lease satisfaction proof).
Proof. unfold begin_resumed, put_lease. failing. Qed.

Lemma create_scope_ok e op b s s' o : create_scope sha256 float_repr e op b s = (s', Ok o) →
  ∃ r v sc, (size (_scopes s) < _limit s)%nat ∧ o = Answered (ScopeIs sc) ∧
    s' = set_scopes (<[r := v]> (_scopes s)) (advance s).
Proof.
  unfold create_scope. intros H. opened. split_bools.
  eexists _, _, _. split_and!; [|done|done]. by apply Nat.leb_gt.
Qed.

(** The row of a lease, with the issued row it was reserved for. *)
Definition lease_of (s : ApprovalSource) (lease : ApprovalExecutionLease) (row : _Execution)
    (proof : _Satisfaction) : Prop :=
  _leases s !! lease_ref lease = Some row ∧
  _issued s !! sat_ref (ex_satisfaction row) = Some proof.

Lemma alive_later e proof row s s' : alive_ e proof row s = (s', Ok true) →
  same s s' ∧ sn_generation row = _generation s.
Proof. intros H%alive_true. naive_solver. Qed.

Ltac living :=
  match goal with H : _alive _ _ _ _ _ _ = _ |- _ => apply alive_later in H as [Hs Hg] end.

Lemma bind_job_ok e op lease broker x j s s' a :
  bind_job sha256 float_repr e op lease broker x j s = (s', Ok a) →
  ∃ s1 row proof, same s s1 ∧ lease_of s lease row proof ∧ ex_state row = "reserved" ∧
    ex_job row = None ∧ ex_broker row = broker ∧ a = Nothing ∧
    sn_generation proof = _generation s ∧
    s' = set_leases (<[lease_ref lease := with_job x j row]> (_leases s)) s1.
Proof.
  unfold bind_job. intros H. facts.
  destruct (_leases s !! lease_ref lease) as [row|] eqn:Hrow; [|by opened].
  facts. destruct (_issued s !! sat_ref (ex_satisfaction row)) as [proof|] eqn:Hp; [|discriminate].
  facts. living. eexists _, row, x4. by rewrite (same_leases _ _ Hs).
Qed.
Lemma finish_ok op lease s s' a : finish op lease s = (s', Ok a) →
  ∃ row state, _leases s !! lease_ref lease = Some row ∧ a = Nothing ∧
    state ≠ "reserved" ∧ state ≠ "forwarding" ∧
    s' = set_leases (<[lease_ref lease := with_state state row]> (_leases s)) s.
Proof.
  unfold finish. intros H. facts.
  destruct (_leases s !! lease_ref lease) as [row|] eqn:Hrow; [|by opened]. facts.
  eexists row, _. split_and!; try done; by case_match.
Qed.
Lemma fence_ok op s s' a : fence op s = (s', Ok a) →
  a = Nothing ∧
  s' = set_leases (fenced <$> _leases s) (set_generation (_generation s + 1) s).
Proof. unfold fence. intros H. by facts. Qed.
Lemma can_issue_size id s : can_issue id s = true → (size (_issued s) < _limit s)%nat.
Proof. unfold can_issue. intros H. split_bools. by apply Nat.leb_gt. Qed.

Lemma same_used_of proof s s' : same s s' → used proof s' = used proof s.
Proof. intros Hs. unfold used. by rewrite (same_used _ _ Hs). Qed.
Lemma same_leased proof s s' : same s s' → leased proof s' = leased proof s.
Proof. intros Hs. unfold leased, some_lease. by rewrite (same_leases _ _ Hs). Qed.

Lemma begin_resumed_ok e b lease sat proof s s' a :
  begin_resumed sha256 float_repr e b lease sat proof s = (s', Ok a) →
  ∃ s1 row, same s s1 ∧ _leases s !! lease_ref lease = Some row ∧ b = true ∧ a = Nothing ∧
    ex_state row = "reserved" ∧ used sat s = false ∧ sn_generation proof = _generation s ∧
    s' = set_leases (<[lease_ref lease := with_state "forwarding" row]> (_leases s))
           (set_used ({[sat_ref sat]} ∪ _used s) s1).
Proof.
  unfold begin_resumed. intros H. facts.
  destruct (_leases s !! lease_ref lease) as [row|] eqn:Hrow; [|by opened]. facts.
  living. eexists _, row. cbn. by rewrite (same_leases _ _ Hs), (same_used _ _ Hs).
Qed.

Lemma reserve_resumed_ok e b proof row contract broker s s' a :
  reserve_lease_resumed sha256 float_repr e b proof row contract broker s = (s', Ok a) →
  ∃ s1 r ex lease, same s s1 ∧ b = true ∧ a = Lease_ lease ∧ lease_ref lease = r ∧
    (next_ref s ≤ r)%positive ∧ (r < next_ref s1)%positive ∧
    used proof s = false ∧ leased proof s = false ∧ (size (_leases s) < _limit s)%nat ∧
    sn_generation row = _generation s ∧
    ex_satisfaction ex = proof ∧ ex_broker ex = broker ∧ ex_state ex = "reserved" ∧
    s' = set_leases (<[r := ex]> (_leases s)) s1.
Proof.
  unfold reserve_lease_resumed, room_for_lease. intros H. facts. living.
  match goal with H : describe _ _ = _ |- _ =>
    apply (moves_result _ _ _ _ _ (describe_same _)) in H as Hd end.
  assert (Hr : same s (advance x1)) by (etrans; [exact Hs|apply same_advance]).
  assert (Hx : same s x9) by (etrans; eassumption).
  rewrite (same_used_of _ _ _ Hs) in H. rewrite (same_leased _ _ _ Hs) in H4.
  rewrite (same_limit _ _ Hs), (same_leases _ _ Hs) in H3.
  pose proof (same_next _ _ Hs). pose proof (same_next _ _ Hd) as Hn. cbn in Hn.
  eexists x9, (next_ref x1), _, _. rewrite (same_leases _ _ Hx).
  apply Nat.leb_gt in H3. split_and!; try first [done|lia].
  all: reflexivity.
Qed.

Lemma issue_resumed_ok e b action review cfg scope id lifetime contract generation s s' a :
  issue_resumed bracketed_host float_decimal sha256 float_repr e b action review cfg scope id
    lifetime contract generation s = (s', Ok a) →
  ∃ s1 r row proof, same s s1 ∧ b = true ∧ a = Proof_ proof ∧ sat_ref proof = r ∧
    (next_ref s ≤ r)%positive ∧ (r < next_ref s1)%positive ∧
    generation = _generation s ∧ sn_generation row = _generation s ∧
    sn_scope row = scope ∧ sn_action_digest row = action_digest_of sha256 float_repr action ∧
    sn_review_digest row = review_digest_of sha256 float_repr review ∧
    sn_satisfaction_id row = id ∧ (size (_issued s) < _limit s)%nat ∧
    s' = set_issued (<[r := row]> (_issued s)) s1.
Proof.
  unfold issue_resumed. intros H. facts.
  repeat match goal with
  | H : _now _ ?s = (?s', Ok _) |- _ => apply (moves_result _ _ _ _ _ (now_same _)) in H
  | H : binding_digest _ _ _ ?s = (?s', Ok _) |- _ =>
      apply (moves_result _ _ _ _ _ (binding_digest_same _)) in H
  end.
  assert (Hx : same s x15)
    by (etrans; [apply same_advance|]; etrans; eassumption).
  assert (Hy : same s (advance x15)) by (etrans; [exact Hx|apply same_advance]).
  match goal with H : can_issue _ _ = true |- _ => apply can_issue_size in H as Hsz end.
  match goal with H : same (advance s) _ |- _ => pose proof (same_next _ _ H) as Hn end.
  match goal with H : same _ x15 |- _ => pose proof (same_next _ _ H) as Hn' end.
  cbn in Hn. assert (generation = _generation s) by lia.
  eexists _, (next_ref s), _, _. cbn [_issued advance]. rewrite (same_issued _ _ Hx).
  split_and!; try first [exact Hy|done|cbn; lia].
  all: first [reflexivity|exact eq_refl|done].
Qed.

(** ** The operations that do not *)

Lemma answers_same {A} (f : A → answer) m : moves same m → moves same (answers f m).
Proof. intros H. unfold answers. quiet. Qed.
Lemma returns_same {A} (f : A → answer) m : moves same m → moves same (returns f m).
Proof. intros H. unfold returns. quiet. Qed.
Lemma describe_lease_same lease : moves same (describe_lease lease).
Proof. unfold describe_lease. quiet. Qed.
Lemma witnessed_same lease d : moves same (witnessed lease d).
Proof. unfold witnessed. quiet. Qed.
Lemma lease_matches_same lease proof : moves same (lease_matches lease proof).
Proof. unfold lease_matches. quiet. Qed.
#[local] Hint Resolve describe_lease_same witnessed_same lease_matches_same : approval.

Definition writes (c : Call) : bool :=
  match c with CreateScope _ _ | BindJob _ _ _ _ _ | Finish _ _ | Fence _ => true | _ => false end.
Definition writes_back (p : pending) : bool :=
  match p with
  | PIssue _ _ _ _ _ _ _ _ | PReserve _ _ _ _ | PBegin _ _ _ _ _ => true
  | _ => false
  end.

Lemma issue_same e op action review cfg scope id lifetime :
  moves same (issue bracketed_host float_decimal sha256 float_repr within_maximum e op action
                review cfg scope id lifetime).
Proof. unfold issue. quiet. Qed.
Lemma host_receipt_same p e native proof :
  moves same (host_receipt_current_of sha256 float_repr p e native proof).
Proof. unfold host_receipt_current_of. quiet. Qed.
#[local] Hint Resolve issue_same host_receipt_same : approval.
Lemma start_same c e : writes c = false → moves same (start_ c e).
Proof.
  destruct c; try discriminate; intros _; cbn [start]; try apply answers_same;
    unfold scope_for, host_approval, verify, host_receipt_current, reserve_lease, begin,
      verify_execution; quiet.
Qed.
Lemma resume_same p b e : writes_back p = false → moves same (resume_ p b e).
Proof.
  destruct p; try discriminate; intros _; cbn [resume]; try apply returns_same;
    unfold host_approval_resumed, verify_execution_resumed; quiet.
Qed.
Lemma errs_answers {A} (f : A → answer) m : errs same m → errs same (answers f m).
Proof.
  intros H s s' e. unfold answers. cbv [mbind ST_bind]. destruct (m s) as [s1 [x|e1]] eqn:E;
    [discriminate|]. intros [= <- <-]. by apply (H _ _ _ E).
Qed.
Lemma start_err c e : errs same (start_ c e).
Proof.
  destruct (writes c) eqn:Hc; [|by apply errs_moves, start_same].
  destruct c; try discriminate; cbn [start]; try apply errs_answers.
  - apply create_scope_err.
  - apply bind_job_err.
  - apply finish_err.
  - apply fence_err.
Qed.
Lemma resume_err p b e : errs same (resume_ p b e).
Proof.
  destruct (writes_back p) eqn:Hp; [|by apply errs_moves, resume_same].
  destruct p; try discriminate; cbn [resume].
  - apply issue_resumed_err.
  - apply reserve_resumed_err.
  - apply begin_resumed_err.
Qed.

(** ** What every operation keeps *)

(** A lease keeps its proof and broker; what it is bound to when a job is bound
    or it is no longer reserved; and it is not reserved again. *)
Record row_later (x x' : _Execution) : Prop := {
  later_proof : ex_satisfaction x' = ex_satisfaction x;
  later_broker : ex_broker x' = ex_broker x;
  later_bound : ex_job x ≠ None ∨ ex_state x ≠ "reserved" →
    ex_executor x' = ex_executor x ∧ ex_job x' = ex_job x;
  later_state : ex_state x ≠ "reserved" → ex_state x' ≠ "reserved" }.
#[export] Instance row_later_preorder : PreOrder row_later.
Proof.
  split; [intros x; by split|]. intros x y z [] []. split; try congruence; [|by auto].
  intros H. destruct (later_bound0 H) as [Hx Hj].
  assert (Hy : ex_job y ≠ None ∨ ex_state y ≠ "reserved")
    by (destruct H; [left; congruence|right; auto]).
  destruct (later_bound1 Hy). split; congruence.
Qed.

Record later (s s' : ApprovalSource) : Prop := {
  later_self : self_ref s' = self_ref s;
  later_limit : _limit s' = _limit s;
  later_next : (next_ref s ≤ next_ref s')%positive;
  later_generation : _generation s ≤ _generation s';
  later_issued : _issued s ⊆ _issued s';
  later_used : _used s ⊆ _used s';
  later_leases : ∀ l x, _leases s !! l = Some x →
    ∃ x', _leases s' !! l = Some x' ∧ row_later x x' }.
#[export] Instance later_preorder : PreOrder later.
Proof.
  split.
  - intros s. split; try done; try lia. intros l x ->. by exists x.
  - intros s1 s2 s3 [] []. split; try congruence; try lia; try (by etrans).
    intros l x (y & Hy & Hxy)%later_leases0. destruct (later_leases1 _ _ Hy) as (z & Hz & Hyz).
    exists z. split; [done|]. by etrans.
Qed.
Lemma same_later s s' : same s s' → later s s'.
Proof.
  intros []. split; try congruence; try lia; try (rewrite ?same_issued0, ?same_used0; done).
  intros l x Hl. exists x. by rewrite same_leases0.
Qed.

(** One row of the leases is replaced. *)
Lemma later_put s l x x' : _leases s !! l = Some x → row_later x x' →
  later s (set_leases (<[l := x']> (_leases s)) s).
Proof.
  intros Hl Hx. split; cbn; try done; try lia. intros k y Hk.
  destruct (decide (k = l)) as [->|Hne].
  - rewrite lookup_insert_eq. rewrite Hl in Hk. injection Hk as <-. eauto.
  - rewrite lookup_insert_ne by done. by exists y.
Qed.

Lemma later_forward s l x x' r : _leases s !! l = Some x → row_later x x' →
  later s (set_leases (<[l := x']> (_leases s)) (set_used ({[r]} ∪ _used s) s)).
Proof.
  intros Hl Hx. destruct (later_put s l x x' Hl Hx). split; try done. cbn. set_solver.
Qed.
Lemma later_fence s : later s
  (set_leases (fenced <$> _leases s) (set_generation (_generation s + 1) s)).
Proof.
  split; cbn; try done; try lia. intros l x Hl. exists (fenced x).
  rewrite lookup_fmap, Hl. split; [done|]. unfold fenced. case_match; [|reflexivity].
  by split; cbn.
Qed.
Lemma later_new_lease s r x : (∀ l y, _leases s !! l = Some y → l < r)%positive →
  later s (set_leases (<[r := x]> (_leases s)) s).
Proof.
  intros Hf. split; cbn; try done; try lia. intros l y Hl. exists y.
  rewrite lookup_insert_ne; [done|]. intros ->. specialize (Hf _ _ Hl). lia.
Qed.
Lemma later_new_proof s r row : (∀ l y, _issued s !! l = Some y → l < r)%positive →
  later s (set_issued (<[r := row]> (_issued s)) s).
Proof.
  intros Hf. split; cbn; try done; try lia.
  - apply insert_subseteq. destruct (_issued s !! r) eqn:E; [|done].
    specialize (Hf _ _ E). lia.
  - intros l y Hl. by exists y.
Qed.

Lemma answers_ok {A} (f : A → answer) m s s' o : answers f m s = (s', Ok o) →
  ∃ x, m s = (s', Ok x) ∧ o = Answered (f x).
Proof. unfold answers. intros H. inv_st. eauto. Qed.
Lemma returns_ok {A} (f : A → answer) m s s' a : returns f m s = (s', Ok a) →
  ∃ x, m s = (s', Ok x) ∧ a = f x.
Proof. unfold returns. intros H. inv_st. eauto. Qed.

(** References in the tables are taken. *)
Record fresh (s : ApprovalSource) : Prop := {
  fresh_issued : ∀ r row, _issued s !! r = Some row → (r < next_ref s)%positive;
  fresh_leases : ∀ r row, _leases s !! r = Some row → (r < next_ref s)%positive }.

Lemma start_later c e s s' r : start_ c e s = (s', r) → later s s'.
Proof.
  destruct r as [o|err]; [|intros H%start_err; by apply same_later].
  destruct (writes c) eqn:Hc.
  2: { intros H. apply same_later. apply (moves_result _ _ _ _ _ (start_same c e Hc) H). }
  destruct c; try discriminate; cbn [start].
  - intros (r & v & sc & _ & _ & ->)%create_scope_ok.
    etrans; [apply same_later, same_advance|]. split; cbn; try done; try lia.
    intros l x Hl. by exists x.
  - intros (x & H & _)%answers_ok.
    apply bind_job_ok in H as (s1 & row & proof & Hs & [Hl _] & Hst & Hj & _ & _ & _ & ->).
    etrans; [by apply same_later|]. rewrite <- (same_leases _ _ Hs) in *.
    apply (later_put _ _ _ _ Hl). split; cbn; try done. by intros [].
  - intros (x & H & _)%answers_ok.
    apply finish_ok in H as (row & state & Hl & _ & Hr & _ & ->).
    apply (later_put _ _ _ _ Hl). by split.
  - intros (x & H & _)%answers_ok. apply fence_ok in H as [_ ->]. apply later_fence.
Qed.
Lemma resume_later p b e s s' r : fresh s → resume_ p b e s = (s', r) → later s s'.
Proof.
  intros [Hi Hle]. destruct r as [a|err]; [|intros H%resume_err; by apply same_later].
  destruct (writes_back p) eqn:Hp.
  2: { intros H. apply same_later. apply (moves_result _ _ _ _ _ (resume_same p b e Hp) H). }
  destruct p; try discriminate; cbn [resume].
  - intros (s1 & r & row & proof & Hs & _ & _ & _ & Hr & H)%issue_resumed_ok.
    destruct H as (_ & _ & _ & _ & _ & _ & _ & _ & ->).
    etrans; [by apply same_later|]. rewrite <- (same_issued _ _ Hs) in *.
    apply later_new_proof. intros l y Hl%Hi. lia.
  - intros (s1 & r & ex & lease & Hs & _ & _ & _ & Hr & H)%reserve_resumed_ok.
    destruct H as (_ & _ & _ & _ & _ & _ & _ & _ & ->).
    etrans; [by apply same_later|]. rewrite <- (same_leases _ _ Hs) in *.
    apply later_new_lease. intros l y Hl%Hle. lia.
  - intros (s1 & row & Hs & Hl & _ & _ & Hst & _ & _ & ->)%begin_resumed_ok.
    etrans; [by apply same_later|].
    rewrite <- (same_leases _ _ Hs), <- (same_used _ _ Hs) in *.
    apply (later_forward _ _ _ _ _ Hl). by split.
Qed.

(** ** The invariant *)

(** The log says who issued a proof, who reserved a lease, and who began it. *)
Definition issue_word (log : list event) (r : ref) (row : _Satisfaction) : Prop :=
  ∃ action review cfg id lifetime contract generation proof,
    Resumed (PIssue action review cfg (sn_scope row) id lifetime contract generation) true
      (Ok (Proof_ proof)) ∈ log ∧ sat_ref proof = r ∧
    sn_action_digest row = action_digest_of sha256 float_repr action ∧
    sn_review_digest row = review_digest_of sha256 float_repr review.
Definition lease_word (log : list event) (l : ref) (x : _Execution) : Prop :=
  ∃ row contract lease,
    Resumed (PReserve (ex_satisfaction x) row contract (ex_broker x)) true (Ok (Lease_ lease))
      ∈ log ∧ lease_ref lease = l.
Definition begin_word (log : list event) (l : ref) (x : _Execution) : Prop :=
  ∃ lease proof executor job,
    Resumed (PBegin lease (ex_satisfaction x) proof executor job) true (Ok Nothing) ∈ log ∧
    lease_ref lease = l ∧ (job ≠ None → ex_executor x = executor ∧ ex_job x = job).
Definition begun (ev : event) : option ref :=
  match ev with
  | Resumed (PBegin _ satisfaction _ _ _) _ (Ok _) => Some (sat_ref satisfaction)
  | _ => None
  end.

(** The locals of a call in flight still describe the tables. *)
Definition in_force (s : ApprovalSource) (p : pending) : Prop :=
  match p with
  | PIssue _ _ _ _ _ _ _ _ => True
  | PVerify proof row | PHostReceipt proof row | PHostApproval proof row
  | PReserve proof row _ _ => _issued s !! sat_ref proof = Some row
  | PBegin lease satisfaction proof executor job =>
      ∃ x, lease_of s lease x proof ∧ ex_satisfaction x = satisfaction ∧
        (job ≠ None → ex_executor x = executor ∧ ex_job x = job)
  | PVerifyExecution lease satisfaction proof executor job =>
      ∃ x, lease_of s lease x proof ∧ ex_satisfaction x = satisfaction ∧
        ex_state x ≠ "reserved" ∧ ex_executor x = executor ∧ ex_job x = job
  end.
Lemma lease_of_later s s' lease x proof : later s s' → lease_of s lease x proof →
  ∃ x', lease_of s' lease x' proof ∧ row_later x x'.
Proof.
  intros Hl [Hx Hp]. destruct (later_leases _ _ Hl _ _ Hx) as (x' & Hx' & Hr).
  exists x'. split; [|done]. split; [done|]. rewrite (later_proof _ _ Hr).
  eapply lookup_weaken; [done|apply (later_issued _ _ Hl)].
Qed.
Lemma in_force_later s s' p : later s s' → in_force s p → in_force s' p.
Proof.
  intros Hl. destruct p; cbn; try done;
    try (intros H; eapply lookup_weaken; [done|apply (later_issued _ _ Hl)]).
  - intros (x & Hx & <- & Hj). destruct (lease_of_later _ _ _ _ _ Hl Hx) as (x' & Hx' & Hr).
    exists x'. split; [done|]. split; [apply (later_proof _ _ Hr)|]. intros Hjob.
    destruct (Hj Hjob) as [He <-]. destruct (later_bound _ _ Hr) as [-> ->]; auto.
  - intros (x & Hx & <- & Hst & <- & <-).
    destruct (lease_of_later _ _ _ _ _ Hl Hx) as (x' & Hx' & Hr).
    exists x'. split; [done|]. destruct (later_bound _ _ Hr) as [-> ->]; [by right|].
    split; [apply (later_proof _ _ Hr)|]. split; [by apply (later_state _ _ Hr)|done].
Qed.

Record valid (w : Issuer) : Prop := {
  valid_fresh : fresh (is_source w);
  valid_issued : ∀ r row, _issued (is_source w) !! r = Some row →
    sn_generation row ≤ _generation (is_source w) ∧ issue_word (is_log w) r row;
  valid_leases : ∀ l x, _leases (is_source w) !! l = Some x →
    is_Some (_issued (is_source w) !! sat_ref (ex_satisfaction x)) ∧ lease_word (is_log w) l x ∧
    (ex_state x = "forwarding" → begin_word (is_log w) l x);
  valid_one : ∀ l l' x x', _leases (is_source w) !! l = Some x →
    _leases (is_source w) !! l' = Some x' →
    sat_ref (ex_satisfaction x) = sat_ref (ex_satisfaction x') → l = l';
  valid_used : ∀ r, r ∈ omap begun (is_log w) → r ∈ _used (is_source w);
  valid_once : NoDup (omap begun (is_log w));
  valid_calls : Forall (in_force (is_source w)) (is_calls w) }.

Lemma issue_word_weaken log log' r row : log ⊆ log' → issue_word log r row → issue_word log' r row.
Proof. intros Hs (a & b & c & d & e & f & g & h & Hin & H). do 8 eexists. split; [by apply Hs|exact H]. Qed.
Lemma lease_word_later log log' l x x' : log ⊆ log' → row_later x x' →
  lease_word log l x → lease_word log' l x'.
Proof.
  intros Hs Hr (row & c & lease & Hin & H). exists row, c, lease.
  rewrite (later_proof _ _ Hr), (later_broker _ _ Hr). auto.
Qed.
Lemma begin_word_later log log' l x x' : log ⊆ log' → row_later x x' →
  ex_state x = "forwarding" → begin_word log l x → begin_word log' l x'.
Proof.
  intros Hs Hr Hst (lease & p & e & j & Hin & H & Hj). exists lease, p, e, j.
  rewrite (later_proof _ _ Hr). split_and!; auto. intros Hn. destruct (Hj Hn) as [<- <-].
  apply (later_bound _ _ Hr). right. by rewrite Hst.
Qed.
Lemma leased_false proof s l x : leased proof s = false → _leases s !! l = Some x →
  sat_ref (ex_satisfaction x) ≠ sat_ref proof.
Proof.
  unfold leased, some_lease, is_proof. intros H Hl Heq.
  enough (true = false) by done. rewrite <- H. symmetry. apply existsb_exists.
  exists (l, x). split; [|by apply bool_decide_eq_true].
  apply list_elem_of_In, elem_of_map_to_list, Hl.
Qed.

(** What a step must show for the rows that it changes or adds. *)
Record extends_by (s s' : ApprovalSource) (ev : event) : Prop := {
  by_later : later s s';
  by_fresh : fresh s';
  by_issued : ∀ r row, _issued s' !! r = Some row → _issued s !! r = Some row ∨
    (sn_generation row ≤ _generation s' ∧ issue_word [ev] r row);
  by_leases : ∀ l x', _leases s' !! l = Some x' →
    (∃ x, _leases s !! l = Some x ∧ row_later x x' ∧
       (ex_state x' = "forwarding" → ex_state x = "forwarding" ∨ begin_word [ev] l x')) ∨
    (is_Some (_issued s' !! sat_ref (ex_satisfaction x')) ∧ lease_word [ev] l x' ∧
     leased (ex_satisfaction x') s = false ∧ ex_state x' = "reserved");
  by_begun : ∀ r, begun ev = Some r → (r ∉ _used s) ∧ (r ∈ _used s') }.

Lemma omap_event ev log : omap begun (ev :: log) =
  match begun ev with Some r => r :: omap begun log | None => omap begun log end.
Proof. reflexivity. Qed.
Lemma valid_step w s' calls ev : valid w → extends_by (is_source w) s' ev →
  Forall (in_force s') calls →
  valid {| is_source := s'; is_calls := calls; is_log := ev :: is_log w |}.
Proof.
  intros [Vf Vi Vl Vo Vu Vn Vc] [Hl Hf Bi Bl Bb] Hc.
  assert (Hold : is_log w ⊆ ev :: is_log w) by set_solver.
  assert (Hnew : [ev] ⊆ ev :: is_log w) by set_solver.
  split; cbn [is_source is_calls is_log]; try done.
  - intros r row Hr. destruct (Bi _ _ Hr) as [Hr'|[Hg Hw]].
    + destruct (Vi _ _ Hr') as [Hg Hw]. split; [|by apply (issue_word_weaken _ _ _ _ Hold)].
      pose proof (later_generation _ _ Hl). lia.
    + split; [done|]. by apply (issue_word_weaken _ _ _ _ Hnew).
  - intros l x' Hx'. destruct (Bl _ _ Hx') as [(x & Hx & Hr & Hst)|(Hi & Hw & _ & Hst)].
    + destruct (Vl _ _ Hx) as ([row Hrow] & Hw & Hb). split_and!.
      * rewrite (later_proof _ _ Hr). exists row.
        eapply lookup_weaken; [done|apply (later_issued _ _ Hl)].
      * by apply (lease_word_later _ _ _ _ _ Hold Hr).
      * intros E. destruct (Hst E) as [E'|Hb']; [by apply (begin_word_later _ _ _ _ _ Hold Hr); auto|].
        by apply (begin_word_later _ _ _ _ _ Hnew (reflexivity x')).
    + split_and!; [done|by apply (lease_word_later _ _ _ _ _ Hnew (reflexivity x'))|by rewrite Hst].
  - intros l l' x x' Hx Hx' Heq.
    destruct (Bl _ _ Hx) as [(y & Hy & Hr & _)|(_ & (? & ? & ? & Hw & <-) & Hn & _)];
      destruct (Bl _ _ Hx') as [(y' & Hy' & Hr' & _)|(_ & (? & ? & ? & Hw' & <-) & Hn' & _)].
    + apply (Vo _ _ _ _ Hy Hy'). by rewrite <- (later_proof _ _ Hr), <- (later_proof _ _ Hr').
    + destruct (leased_false _ _ _ _ Hn' Hy). by rewrite <- (later_proof _ _ Hr).
    + destruct (leased_false _ _ _ _ Hn Hy'). by rewrite <- (later_proof _ _ Hr').
    + apply list_elem_of_singleton in Hw. apply list_elem_of_singleton in Hw'. congruence.
  - intros r. rewrite omap_event. destruct (begun ev) as [r'|] eqn:E.
    + destruct (Bb _ eq_refl). intros [->|Hr]%elem_of_cons; [done|].
      apply (later_used _ _ Hl), Vu, Hr.
    + intros Hr. apply (later_used _ _ Hl), Vu, Hr.
  - rewrite omap_event. destruct (begun ev) as [r'|] eqn:E; [|done]. destruct (Bb _ eq_refl).
    apply NoDup_cons. split; [|done]. auto.
Qed.

Lemma same_fresh s s' : same s s' → fresh s → fresh s'.
Proof.
  intros Hs [Hi Hl]. pose proof (same_next _ _ Hs).
  split; intros r row; rewrite ?(same_issued _ _ Hs), ?(same_leases _ _ Hs);
    [intros Hr%Hi|intros Hr%Hl]; lia.
Qed.
Lemma extends_rows s s' ev : later s s' → fresh s' → _issued s' = _issued s →
  begun ev = None →
  (∀ l x', _leases s' !! l = Some x' → ∃ x, _leases s !! l = Some x ∧ row_later x x' ∧
     (ex_state x' = "forwarding" → ex_state x = "forwarding")) →
  extends_by s s' ev.
Proof.
  intros Hl Hf Hi Hb Hx. split; try done.
  - intros r row. rewrite Hi. by left.
  - intros l x' (x & ? & ? & ?)%Hx. left. exists x. auto.
  - by rewrite Hb.
Qed.
Lemma extends_same s s' ev : fresh s → same s s' → begun ev = None → extends_by s s' ev.
Proof.
  intros Hf Hs Hb. apply extends_rows; [by apply same_later|by eapply same_fresh|apply Hs|done|].
  intros l x. rewrite (same_leases _ _ Hs). intros Hl. by exists x.
Qed.

Lemma put_fresh s s1 l x x' : fresh s → same s s1 → _leases s !! l = Some x →
  fresh (set_leases (<[l := x']> (_leases s)) s1).
Proof.
  intros Hf Hs Hx. destruct (same_fresh _ _ Hs Hf) as [Hi Hle]. split; cbn; [done|].
  intros k y. rewrite <- (same_leases _ _ Hs) in *.
  rewrite lookup_insert_Some. intros [[<- _]|[_ Hy]]; eauto.
Qed.
Lemma extends_put s s1 l x x' ev : fresh s → same s s1 → begun ev = None →
  _leases s !! l = Some x → row_later x x' →
  (ex_state x' = "forwarding" → ex_state x = "forwarding") →
  later s (set_leases (<[l := x']> (_leases s)) s1) →
  extends_by s (set_leases (<[l := x']> (_leases s)) s1) ev.
Proof.
  intros Hf Hs Hb Hx Hr Hst Hl.
  apply extends_rows; [done|by eapply put_fresh|apply (same_issued _ _ Hs)|done|].
  intros k y. cbn. rewrite lookup_insert_Some. intros [[<- <-]|[_ Hy]]; [by exists x|].
  by exists y.
Qed.

Lemma start_extends c e s s' r : fresh s → start_ c e s = (s', r) →
  extends_by s s' (Started c r).
Proof.
  intros Hf H. pose proof (start_later _ _ _ _ _ H) as Hl.
  destruct r as [o|err]; [|apply start_err in H; by apply extends_same].
  destruct (writes c) eqn:Hc.
  2: { apply extends_same; try done. apply (moves_result _ _ _ _ _ (start_same c e Hc) H). }
  destruct c; try discriminate; cbn [start] in H.
  - apply create_scope_ok in H as (r & v & sc & _ & _ & ->).
    destruct (same_fresh _ _ (same_advance s) Hf) as [Hi Hle].
    apply extends_rows; [done|by split|done|done|]. intros l x Hx. by exists x.
  - apply answers_ok in H as (x & H & _).
    apply bind_job_ok in H as (s1 & row & proof & Hs & [Hr _] & Hst & Hj & _ & _ & _ & ->).
    apply (extends_put _ _ _ row); try done. split; cbn; try done. by intros [].
  - apply answers_ok in H as (x & H & _).
    apply finish_ok in H as (row & state & Hr & _ & Hres & Hfw & ->).
    by apply (extends_put _ _ _ row).
  - apply answers_ok in H as (x & H & _). apply fence_ok in H as [_ ->].
    apply extends_rows; [done| |done|done|].
    + destruct Hf as [Hi Hle]. split; cbn; [done|]. intros l y. rewrite lookup_fmap.
      destruct (_leases s !! l) as [z|] eqn:E; [|done]. intros _. by apply (Hle _ z).
    + intros l y. cbn. rewrite lookup_fmap. destruct (_leases s !! l) as [z|]; [|done].
      intros [= <-]. exists z. split; [done|]. unfold fenced. case_match; [|done].
      by repeat split; cbn.
Qed.

Lemma catches_asked (m : ST ApprovalSource outcome) a s s' q p : catches m (Answered a) s = (s', Ok (Asked q p)) →
  m s = (s', Ok (Asked q p)).
Proof. unfold catches. destruct (m s) as [s1 [o|[]]]; congruence. Qed.
Ltac branch := match goal with
  | H : (if negb ?b then mret _ else _) _ = _ |- _ => destruct b eqn:?; cbn [negb] in H; [|by opened]
  | H : (if ?b || ?c then mret _ else _) _ = _ |- _ => destruct (b || c); [by opened|]
  end.
Ltac settle := opened; match goal with
  | H : alive_ _ _ _ _ = _ |- _ =>
      apply (moves_result _ _ _ _ _ (alive_same _ _ _)) in H; rename H into Hsame
  end; unfold asked in *; simplify_eq.
Lemma host_receipt_asks P e native proof s s' q p :
  host_receipt_current_of sha256 float_repr P e native proof s = (s', Ok (Asked q p)) →
  ∃ row, _issued s' !! sat_ref proof = Some row ∧ p = P proof row.
Proof.
  unfold host_receipt_current_of. intros H%catches_asked. opened.
  destruct (_issued s !! sat_ref proof) as [row|] eqn:Hrow; [|by opened].
  repeat (branch; opened). settle. rewrite (same_issued _ _ Hsame). eauto.
Qed.
Lemma start_asks c e s s' q p :
  start_ c e s = (s', Ok (Asked q p)) → in_force s' p.
Proof.
  destruct c; cbn [start]; try (by intros (? & _ & [=])%answers_ok).
  - by intros (? & ? & ? & _ & [=] & _)%create_scope_ok.
  - unfold issue. intros H. opened.  by simplify_eq.
  - unfold scope_for. intros H. opened. case_match; [opened|by opened]. done.
  - unfold host_approval. intros H. opened.
    destruct (_issued s !! sat_ref proof) as [row|] eqn:Hrow; [|by opened]. opened.
    case_match; [by opened|]. opened. simplify_eq.
    match goal with H : host_receipt_current_of _ _ _ _ _ _ _ = _ |- _ =>
      apply host_receipt_asks in H as (row' & Hr & ->) end. exact Hr.
  - unfold verify. intros H%catches_asked. opened.
    destruct (_issued s !! sat_ref proof) as [row|] eqn:Hrow; [|by opened].
    repeat (branch; opened). settle. cbn. by rewrite (same_issued _ _ Hsame).
  - intros H. apply host_receipt_asks in H as (row' & Hr & ->). exact Hr.
  - unfold reserve_lease. intros H. opened.
    destruct (_issued s !! sat_ref proof) as [row|] eqn:Hrow; [|by opened].
    settle. cbn. by rewrite (same_issued _ _ Hsame).
  - unfold begin. intros H. facts.
    destruct (_leases s !! lease_ref lease) as [x|] eqn:Hx; [|by opened]. facts.
    destruct (_issued s !! sat_ref (ex_satisfaction x)) as [row|] eqn:Hrow; [|discriminate].
    settle. exists x. unfold lease_of. by rewrite (same_leases _ _ Hsame), (same_issued _ _ Hsame).
  - unfold verify_execution. intros H%catches_asked. opened.
    destruct (_leases s !! lease_ref lease) as [x|] eqn:Hx; [|by opened].
    opened. branch. opened.
    destruct (_issued s !! sat_ref (ex_satisfaction x)) as [row|] eqn:Hrow; [|discriminate].
    branch. settle. facts. exists x. unfold lease_of.
    rewrite (same_leases _ _ Hsame), (same_issued _ _ Hsame). split_and!; try done. congruence.
Qed.

Lemma row_kept s l y ev : _leases s !! l = Some y → ∃ x, _leases s !! l = Some x ∧
  row_later x y ∧ (ex_state y = "forwarding" → ex_state x = "forwarding" ∨ begin_word [ev] l y).
Proof. intros H. exists y. split; [done|]. split; [done|]. by left. Qed.
Lemma resume_extends p b e s s' r : fresh s → in_force s p → resume_ p b e s = (s', r) →
  extends_by s s' (Resumed p b r).
Proof.
  intros Hf Hp H. pose proof (resume_later _ _ _ _ _ _ Hf H) as Hl.
  destruct r as [a|err]; [|apply resume_err in H; apply extends_same; try done; by destruct p].
  destruct (writes_back p) eqn:Hw.
  2: { apply extends_same; [done| |by destruct p].
       apply (moves_result _ _ _ _ _ (resume_same p b e Hw) H). }
  destruct p as [action review cfg scope id lifetime contract generation| | | |
    proof row contract broker|lease sat proof x j|]; try discriminate; cbn [resume] in H.
  - apply issue_resumed_ok in H
      as (s1 & r & row & proof & Hs & -> & -> & <- & Hr & Hr1 & Hg & Hg' & <- & Ha & Hv & _ & _ & ->).
    destruct (same_fresh _ _ Hs Hf) as [Hi Hle]. split; [done| | | |done].
    + split; cbn; [|done]. intros k y. rewrite lookup_insert_Some.
      rewrite <- (same_issued _ _ Hs). intros [[<- _]|[_ Hy]]; eauto.
    + intros k y. cbn. rewrite lookup_insert_Some. intros [[<- <-]|[_ Hy]]; [|by left].
      right. split; [by rewrite (same_generation _ _ Hs), Hg'|].
      do 8 eexists. split; [by apply list_elem_of_singleton|done].
    + intros l y. cbn. rewrite (same_leases _ _ Hs). intros Hy. left. by apply row_kept.
  - apply reserve_resumed_ok in H
      as (s1 & r & ex & lease & Hs & -> & -> & <- & Hr & Hr1 & Hu & Hle & _ & _ & Hsat & Hb & Hst & ->).
    destruct (same_fresh _ _ Hs Hf) as [Hi Hlf]. split; [done| | | |done].
    + split; cbn; [done|]. intros k y. rewrite lookup_insert_Some.
      rewrite <- (same_leases _ _ Hs). intros [[<- _]|[_ Hy]]; eauto.
    + intros k y. cbn. rewrite (same_issued _ _ Hs). by left.
    + intros l y. cbn. rewrite lookup_insert_Some. intros [[<- <-]|[_ Hy]].
      * right. rewrite (same_issued _ _ Hs), Hsat. split_and!; try done.
        exists row, contract, lease. rewrite Hsat, Hb. split; [by apply list_elem_of_singleton|done].
      * left. by apply row_kept.
  - apply begin_resumed_ok in H as (s1 & row & Hs & Hx & -> & -> & Hst & Hu & _ & ->).
    destruct Hp as (x0 & [Hx0 Hi0] & <- & Hj). rewrite Hx in Hx0. injection Hx0 as <-.
    destruct (put_fresh _ _ _ _ (with_state "forwarding" row) Hf Hs Hx) as [Hi Hle].
    split; [done|by split| | |].
    + intros k y. cbn. rewrite (same_issued _ _ Hs). by left.
    + intros l y. cbn. rewrite lookup_insert_Some. intros [[<- <-]|[_ Hy]].
      * left. exists row. split; [done|]. split; [by split|]. intros _. right.
        do 4 eexists. split; [by apply list_elem_of_singleton|done].
      * left. by apply row_kept.
    + intros r [= <-]. unfold used in Hu. apply bool_decide_eq_false in Hu. cbn. set_solver.
Qed.

Lemma happen_valid w h : valid w → valid (happen_ w h).
Proof.
  intros V. pose proof (valid_fresh _ V) as Hf. pose proof (valid_calls _ V) as Hc.
  assert (Hkeep : ∀ s', later (is_source w) s' → ∀ l, Forall (in_force (is_source w)) l →
            Forall (in_force s') l).
  { intros s' Hl l H. eapply Forall_impl; [exact H|]. intros p. by apply in_force_later. }
  destruct h as [c e|i b e]; cbn [happen].
  - destruct (start_ c e (is_source w)) as [s' r] eqn:H.
    pose proof (start_extends _ _ _ _ _ Hf H) as Hx. apply valid_step; [done|done|].
    apply Forall_app. split; [by apply Hkeep; [apply (by_later _ _ _ Hx)|]|].
    destruct r as [[|q p]|]; cbn; repeat constructor. by apply start_asks in H.
  - destruct (is_calls w !! i) as [p|] eqn:Hp; [|done].
    destruct (resume_ p b e (is_source w)) as [s' r] eqn:H.
    assert (Hin : in_force (is_source w) p) by (eapply Forall_lookup_1; eassumption).
    pose proof (resume_extends _ _ _ _ _ _ Hf Hin H) as Hx. apply valid_step; [done|done|].
    apply Hkeep; [apply (by_later _ _ _ Hx)|]. by apply Forall_delete.
Qed.
Lemma new_valid self operator a b c d n s : new_source self operator a b c d n = Ok s →
  valid (new_issuer s).
Proof.
  unfold new_source. intros H. inv_res.
  split; cbn [is_source is_calls is_log new_issuer _issued _leases _used _generation];
    try (intros *; rewrite lookup_empty; done); [|by intros r ?%elem_of_nil|constructor..].
  split; intros *; cbn; by rewrite lookup_empty.
Qed.
Lemma happens_valid l w : valid w → valid (happens_ w l).
Proof. revert w. induction l; intros w V; [done|]. apply IHl, happen_valid, V. Qed.

(** ** The sections that answer yes *)

Lemma catches_true (m : ST ApprovalSource bool) s s' :
  catches m false s = (s', Ok true) → m s = (s', Ok true).
Proof. unfold catches. destruct (m s) as [s1 [o|[]]]; congruence. Qed.
Lemma still_alive_true e b proof row s s' :
  still_alive sha256 float_repr e b proof row s = (s', Ok true) →
  b = true ∧ alive_ e proof row s = (s', Ok true).
Proof.
  unfold still_alive. intros H%catches_true. destruct b; [|discriminate H].
  cbn [negb] in H. opened. destruct (_issued s !! sat_ref proof); [|discriminate H].
  case_match; [done|discriminate H].
Qed.
Lemma verify_execution_true e b lease sat proof s s' :
  verify_execution_resumed sha256 float_repr e b lease sat proof s = (s', Ok true) →
  b = true ∧ (∃ x, _leases s !! lease_ref lease = Some x ∧ ex_state x = "forwarding") ∧
  alive_ e sat proof s = (s', Ok true).
Proof.
  unfold verify_execution_resumed. intros H%catches_true. destruct b; [|discriminate H].
  cbn [negb] in H. opened. destruct (_leases s !! lease_ref lease) as [x|]; [|discriminate H].
  destruct (ex_state x =s "forwarding") eqn:E; [|discriminate H]. apply eqb_true in E. eauto.
Qed.
End source.

(** Reads the [_alive] of the context that answered yes. *)
Ltac living :=
  match goal with H : _alive _ _ _ _ _ _ = _ |- _ =>
    let Hs := fresh "Hs" in let Hg := fresh "Hg" in apply alive_later in H as [Hs Hg] end.
