(* ===== verification/ApprovalSafety.v ===== *)
(** * The guarantees of an approval source

    One use in any interleaving, the finality of a fence, what stands behind an
    execution that verifies, and that an approval can be carried through. *)
From stdpp Require Import base list strings gmap.
From Stdlib Require Import Bool ZArith QArith Lia.
From S2P Require Import Prelude State PyStr Policy Json Execution Provenance Commitment Requests.
From S2P Require Import ActionModel JsonSchema RuntimeContract RuntimeDerive Approval.
From S2P Require Import ApprovalFacts.
#[local] Open Scope py_scope.
#[local] Open Scope Z_scope.

Section source.
Context (bracketed_host : string → bool) (float_decimal : Q → Decimal).
Context (sha256 : string → string) (float_repr : Q → string).
Context (within_maximum : ActionReview → RuntimeCapabilityContract → res bool).
#[local] Abbreviation alive_ := (_alive sha256 float_repr).
#[local] Abbreviation happen_ :=
  (happen bracketed_host float_decimal sha256 float_repr within_maximum).
#[local] Abbreviation happens_ :=
  (happens bracketed_host float_decimal sha256 float_repr within_maximum).
#[local] Abbreviation valid_ := (valid sha256 float_repr).

(** A source that was opened, after some calls. *)
Definition reached (w : Issuer) : Prop :=
  ∃ self operator a b c d n s l,
    new_source self operator a b c d n = Ok s ∧ w = happens_ (new_issuer s) l.
Lemma reached_valid w : reached w → valid_ w.
Proof.
  intros (self & operator & a & b & c & d & n & s & l & Hs & ->).
  by eapply happens_valid, new_valid.
Qed.

(** C10: An approval is used at most once, however the calls to its source
    interleave: among all calls there is at most one [begin] that succeeds for a
    satisfaction, it is recorded as used, and a satisfaction has at most one
    lease. *)
Theorem used_once w : reached w →
  NoDup (omap begun (is_log w)) ∧
  (∀ r, r ∈ omap begun (is_log w) → r ∈ _used (is_source w)) ∧
  (∀ l l' x x', _leases (is_source w) !! l = Some x → _leases (is_source w) !! l' = Some x' →
     sat_ref (ex_satisfaction x) = sat_ref (ex_satisfaction x') → l = l').
Proof. intros []%reached_valid. done. Qed.

(** ** Fences *)

(** The event lets the holder of satisfaction [r] go on. *)
Definition grants (s : ApprovalSource) (ev : event) (r : ref) : Prop :=
  match ev with
  | Started (ScopeFor p) (Ok _) => sat_ref p = r
  | Started (BindJob _ lease _ _ _) (Ok _) =>
      ∃ x, _leases s !! lease_ref lease = Some x ∧ sat_ref (ex_satisfaction x) = r
  | Resumed (PVerify p _ | PHostReceipt p _) _ (Ok (Affirmed true)) => sat_ref p = r
  | Resumed (PHostApproval p _ | PReserve p _ _ _ | PBegin _ p _ _ _) _ (Ok _) => sat_ref p = r
  | Resumed (PVerifyExecution _ p _ _ _) _ (Ok (Affirmed true)) => sat_ref p = r
  | _ => False
  end.
(** The last event of a step. *)
Definition logs (w : Issuer) (h : happening) (ev : event) : Prop :=
  is_log (happen_ w h) = ev :: is_log w.

Lemma starts_logs w c e ev : logs w (Starts c e) ev →
  ∃ s' r, start bracketed_host float_decimal sha256 float_repr within_maximum c e (is_source w)
    = (s', r) ∧ ev = Started c r ∧ is_source (happen_ w (Starts c e)) = s'.
Proof.
  unfold logs. cbn [happen]. destruct (start _ _ _ _ _ c e (is_source w)) as [s' r].
  cbn. intros [= <-]. by eexists _, _.
Qed.
Lemma resumes_logs w i b e ev : logs w (Resumes i b e) ev →
  ∃ p s' r, is_calls w !! i = Some p ∧
    resume bracketed_host float_decimal sha256 float_repr p b e (is_source w) = (s', r) ∧
    ev = Resumed p b r ∧ is_source (happen_ w (Resumes i b e)) = s'.
Proof.
  unfold logs. cbn [happen]. destruct (is_calls w !! i) as [p|].
  - destruct (resume _ _ _ _ p b e (is_source w)) as [s' r] eqn:E.
    cbn. intros [= <-].
    by eexists p, _, _.
  - intros H. apply (f_equal length) in H. cbn in H. lia.
Qed.

Lemma bind_job_current e op lease broker x j s s' a :
  bind_job sha256 float_repr e op lease broker x j s = (s', Ok a) →
  ∃ row proof, lease_of s lease row proof ∧ sn_generation proof = _generation s.
Proof. intros (s1 & row & proof & _ & H & _ & _ & _ & _ & Hg & _)%bind_job_ok. eauto. Qed.

(** What is granted is granted to a satisfaction of the current generation, and a
    question before it was affirmed. *)
Lemma granted_current w h ev r : valid_ w → logs w h ev → grants (is_source w) ev r →
  (∃ row, _issued (is_source w) !! r = Some row ∧ sn_generation row = _generation (is_source w)) ∧
  match ev with Resumed _ b _ => b = true | Started _ _ => True end.
Proof.
  intros V Hlog Hg. pose proof (valid_calls _ _ _ V) as Hc. destruct h as [c e|i b e].
  - apply starts_logs in Hlog as (s' & o & H & -> & _). split; [|done].
    destruct c, o as [o|]; cbn [grants] in Hg; try done; cbn [start] in H.
    + subst r. unfold scope_for in H. facts.
      destruct (_issued (is_source w) !! sat_ref proof) as [row|] eqn:Hrow; [|by opened].
      facts. living. eauto.
    + apply answers_ok in H as (a & H & _).
      destruct (bind_job_current _ _ _ _ _ _ _ _ _ H) as (row & proof & [Hl Hi] & Hgen).
      destruct Hg as (x & Hx & <-). rewrite Hl in Hx. injection Hx as <-. eauto.
  - apply resumes_logs in Hlog as (p & s' & o & Hp & H & -> & _).
    pose proof (Forall_lookup_1 _ _ _ _ Hc Hp) as Hin.
    destruct p, o as [o|]; cbn [grants] in Hg; try done; cbn [resume] in H; cbn [in_force] in Hin.
    + apply returns_ok in H as (x & H & ->). destruct x; [|done]. subst r.
      apply still_alive_true in H as [-> H]. living. eauto.
    + apply returns_ok in H as (x & H & ->). destruct x; [|done]. subst r.
      apply still_alive_true in H as [-> H]. living. eauto.
    + subst r. unfold host_approval_resumed in H. facts.
      match goal with H : still_alive _ _ _ _ _ _ _ = _ |- _ =>
        apply still_alive_true in H as [-> H] end. living. eauto.
    + subst r. apply reserve_resumed_ok in H. naive_solver.
    + subst r. destruct Hin as (x & [Hx Hi] & <- & _).
      apply begin_resumed_ok in H as (_ & _ & _ & _ & -> & _ & _ & _ & Hgen & _). eauto.
    + apply returns_ok in H as (y & H & ->). destruct y; [|done]. subst r.
      apply verify_execution_true in H as (-> & _ & H). living.
      destruct Hin as (x & [Hx Hi] & <- & _). eauto.
Qed.

Lemma happen_later w h : valid_ w → later (is_source w) (is_source (happen_ w h)).
Proof.
  intros V. destruct h as [c e|i b e]; cbn [happen].
  - destruct (start _ _ _ _ _ c e (is_source w)) as [s' r] eqn:H. by apply start_later in H.
  - destruct (is_calls w !! i) as [p|]; [|done].
    destruct (resume _ _ _ _ p b e (is_source w)) as [s' r] eqn:H.
    apply (resume_later _ _ _ _ _ _ _ _ _ _ (valid_fresh _ _ _ V) H).
Qed.
Lemma happens_later l w : valid_ w → later (is_source w) (is_source (happens_ w l)).
Proof.
  revert w. induction l as [|h l IH]; intros w V; [done|].
  etrans; [by apply happen_later|]. by apply IH, happen_valid.
Qed.
Lemma happen_log w h : is_log (happen_ w h) = is_log w ∨ ∃ ev, logs w h ev.
Proof.
  unfold logs. destruct h as [c e|i b e]; cbn [happen].
  - destruct (start _ _ _ _ _ c e (is_source w)). eauto.
  - destruct (is_calls w !! i); [|by left]. destruct (resume _ _ _ _ p b e (is_source w)). eauto.
Qed.

(** What an event grants is read off the state before it or any later one. *)
Lemma grants_before w h s' ev r : valid_ w → logs w h ev → later (is_source w) s' →
  grants s' ev r → grants (is_source w) ev r.
Proof.
  intros V Hlog Hs. destruct h as [c e|i b e].
  - apply starts_logs in Hlog as (s1 & o & H & -> & _). destruct c, o as [o|]; try done.
    cbn [grants]. intros (x' & Hx' & <-). cbn [start] in H. apply answers_ok in H as (a & H & _).
    destruct (bind_job_current _ _ _ _ _ _ _ _ _ H) as (x & proof & [Hx _] & _).
    destruct (later_leases _ _ Hs _ _ Hx) as (y & Hy & Hr). rewrite Hx' in Hy.
    injection Hy as <-. exists x. by rewrite (later_proof _ _ Hr).
  - apply resumes_logs in Hlog as (p & s1 & o & _ & _ & -> & _). by destruct p, o.
Qed.
Lemma issue_generation w i b e action review cfg scope id lifetime contract g a :
  logs w (Resumes i b e) (Resumed (PIssue action review cfg scope id lifetime contract g) b (Ok a)) →
  g = _generation (is_source w).
Proof.
  intros (p & s' & r & _ & H & [= <- <-] & _)%resumes_logs. cbn [resume] in H.
  apply issue_resumed_ok in H. naive_solver.
Qed.

(** Nothing is granted to what was issued under an earlier generation. *)
Definition outdated (g : Z) (s : ApprovalSource) (ev : event) : Prop :=
  (∀ r row, grants s ev r → _issued s !! r = Some row → g < sn_generation row) ∧
  match ev with
  | Resumed (PIssue _ _ _ _ _ _ _ g') _ (Ok _) => g < g'
  | _ => True
  end.
Lemma later_outdated g l w : valid_ w → g < _generation (is_source w) →
  ∃ new, is_log (happens_ w l) = new ++ is_log w ∧
    Forall (outdated g (is_source (happens_ w l))) new.
Proof.
  revert w. induction l as [|h l IH]; intros w V Hg; [by exists []|].
  pose proof (happen_later w h V) as H1.
  assert (V' : valid_ (happen_ w h)) by (by apply happen_valid).
  destruct (IH _ V') as (new & E & Hn).
  { pose proof (later_generation _ _ H1). lia. }
  change (happens_ w (h :: l)) with (happens_ (happen_ w h) l).
  pose proof (happens_later l _ V') as H2.
  destruct (happen_log w h) as [Eh|[ev Hev]]; [exists new; by rewrite E, Eh|].
  exists (new ++ [ev]). rewrite E, Hev, <- app_assoc. split; [done|].
  apply Forall_app. split; [done|]. apply Forall_singleton. split.
  - intros r row Hgr Hrow.
    assert (Hgr' : grants (is_source w) ev r)
      by (eapply grants_before; [exact V|exact Hev| |exact Hgr]; by etrans).
    destruct (granted_current _ _ _ _ V Hev Hgr') as [(row' & Hrow' & Hgen) _].
    assert (row' = row); [|subst; lia]. enough (Some row' = Some row) by congruence.
    rewrite <- Hrow. symmetry. eapply lookup_weaken; [exact Hrow'|].
    etrans; [apply (later_issued _ _ H1)|apply (later_issued _ _ H2)].
  - destruct ev as [|[action review cfg scope id lifetime contract g'| | | | | |] b [a|]]; try done.
    destruct h as [c e|i b' e].
    + by apply starts_logs in Hev as (? & ? & _ & [=] & _).
    + pose proof (resumes_logs _ _ _ _ _ Hev) as (? & ? & ? & _ & _ & [= _ ?] & _); subst.
      by rewrite (issue_generation _ _ _ _ _ _ _ _ _ _ _ _ _ Hev).
Qed.

(** C11: A fence is final.  After [fence] has returned, whatever calls follow and
    whatever calls were in flight, nothing is granted to a satisfaction that was
    issued before it: [verify], [host_receipt_current], [host_approval],
    [scope_for], [reserve_lease], [bind_job], [begin] and [verify_execution] do
    not succeed for it; and an [issue] in flight does not issue. *)
Theorem fence_final w operator e o l :
  reached w → logs w (Starts (Fence operator) e) (Started (Fence operator) (Ok o)) →
  let w1 := happen_ w (Starts (Fence operator) e) in
  ∃ new, is_log (happens_ w1 l) = new ++ is_log w1 ∧
    ∀ ev, ev ∈ new →
      (∀ r, grants (is_source (happens_ w1 l)) ev r → _issued (is_source w) !! r = None) ∧
      (∀ action review cfg scope id lifetime contract g b a,
         ev = Resumed (PIssue action review cfg scope id lifetime contract g) b (Ok a) →
         _generation (is_source w) < g).
Proof.
  intros V%reached_valid H w1. pose proof H as (s' & r & Hf & [= <-] & Es)%starts_logs.
  cbn [start] in Hf. apply answers_ok in Hf as (a & Hf & _). apply fence_ok in Hf as [_ Hs].
  assert (V1 : valid_ w1) by (by apply happen_valid).
  assert (Hg : _generation (is_source w) < _generation (is_source w1)).
  { unfold w1. rewrite Es, Hs. cbn. lia. }
  destruct (later_outdated _ l _ V1 Hg) as (new & E & Hn). exists new. split; [done|].
  intros ev Hev. rewrite Forall_forall in Hn. destruct (Hn ev Hev) as [Hn1 Hn2]. split.
  - intros r Hr. destruct (_issued (is_source w) !! r) as [row|] eqn:Hrow; [exfalso|done].
    destruct (valid_issued _ _ _ V _ _ Hrow) as [Hle _].
    enough (_generation (is_source w) < sn_generation row) by lia.
    apply (Hn1 r row Hr). eapply lookup_weaken; [exact Hrow|].
    etrans; [exact (later_issued _ _ (happen_later w (Starts (Fence operator) e) V))|].
    exact (later_issued _ _ (happens_later l _ V1)).
  - intros * ->. exact Hn2.
Qed.

(** ** What stands behind an execution *)

(** C12: When [verify_execution] answers yes for a lease, an executor and a job,
    at that moment the verifier has affirmed it, the lease is forwarding and bound
    to that executor and job, its satisfaction is recorded as used, is of the
    current generation, not expired and with an unchanged scope; and the log has
    the [begin] of this lease for this job, its reservation by the same broker and
    the issue of the satisfaction for the action and review of its row, each one
    affirmed by the verifier. *)
Theorem execution_authorised w i b e lease sat proof executor job :
  reached w →
  logs w (Resumes i b e)
    (Resumed (PVerifyExecution lease sat proof executor job) b (Ok (Affirmed true))) →
  let s := is_source w in
  b = true ∧
  ∃ x, _leases s !! lease_ref lease = Some x ∧ ex_state x = "forwarding" ∧
    ex_satisfaction x = sat ∧ ex_executor x = executor ∧ ex_job x = job ∧
    _issued s !! sat_ref sat = Some proof ∧ sn_generation proof = _generation s ∧
    _last_now (is_source (happen_ w (Resumes i b e))) < sn_expires_at proof ∧
    scope_unchanged sha256 float_repr (sn_scope proof) s = true ∧
    begin_word (is_log w) (lease_ref lease) x ∧ lease_word (is_log w) (lease_ref lease) x ∧
    issue_word sha256 float_repr (is_log w) (sat_ref sat) proof.
Proof.
  intros V%reached_valid (p & s' & r & Hp & H & [= <- <-] & Hs)%resumes_logs s. subst s.
  pose proof (Forall_lookup_1 _ _ _ _ (valid_calls _ _ _ V) Hp) as (x & [Hx Hi] & <- & _ & He & Hj).
  cbn [resume] in H. apply returns_ok in H as (y & H & Hy). injection Hy as <-.
  apply verify_execution_true in H as (-> & (x' & Hx' & Hst) & H).
  rewrite Hx in Hx'. injection Hx' as <-.
  apply alive_true in H as (_ & _ & _ & Hg & Ht & Hsc & _).
  split; [done|]. exists x. destruct (valid_leases _ _ _ V _ _ Hx) as (_ & Hw & Hb).
  destruct (valid_issued _ _ _ V _ _ Hi) as [_ Hiw]. rewrite Hs. split_and!; auto.
Qed.

(** ** Capacity *)

Definition bounded (s : ApprovalSource) : Prop :=
  (size (_scopes s) ≤ _limit s ∧ size (_issued s) ≤ _limit s ∧ size (_leases s) ≤ _limit s)%nat.
Lemma size_insert_le {A} (m : gmap ref A) k x n :
  (size m < n)%nat → (size (<[k := x]> m) ≤ n)%nat.
Proof. intros H. rewrite map_size_insert. destruct (m !! k); cbn; lia. Qed.
Lemma size_put {A} (m : gmap ref A) k x y : m !! k = Some y → size (<[k := x]> m) = size m.
Proof. intros H. by rewrite map_size_insert, H. Qed.
Lemma same_bounded s s' : same s s' → bounded s → bounded s'.
Proof. intros [] [? [? ?]]. unfold bounded. by split_and!; congruence. Qed.
Lemma start_bounded c e s s' r :
  start bracketed_host float_decimal sha256 float_repr within_maximum c e s = (s', r) →
  bounded s → bounded s'.
Proof.
  destruct r as [o|err]; [|intros H%start_err; by apply same_bounded].
  destruct (writes c) eqn:Hc.
  2: { intros H. apply same_bounded. eapply moves_result; [by apply start_same|exact H]. }
  destruct c; try discriminate; cbn [start].
  - intros (r & v & sc & Hsz & _ & ->)%create_scope_ok (H1 & H2 & H3).
    split_and!; [by apply size_insert_le|done|done].
  - intros (a & H & _)%answers_ok (H1 & H2 & H3).
    apply bind_job_ok in H as (s1 & row & proof & Hs & [Hl _] & _ & _ & _ & _ & _ & ->).
    destruct (same_bounded _ _ Hs) as (? & ? & ?); [by split_and!|].
    split_and!; [done|done|]. cbn. by rewrite (size_put _ _ _ _ Hl), (same_limit _ _ Hs).
  - intros (a & H & _)%answers_ok (H1 & H2 & H3).
    apply finish_ok in H as (row & state & Hl & _ & _ & _ & ->).
    split_and!; [done|done|]. cbn. by rewrite (size_put _ _ _ _ Hl).
  - intros (a & H & _)%answers_ok (H1 & H2 & H3). apply fence_ok in H as [_ ->].
    split_and!; [done|done|]. cbn. by rewrite map_size_fmap.
Qed.
Lemma resume_bounded p b e s s' r :
  resume bracketed_host float_decimal sha256 float_repr p b e s = (s', r) →
  bounded s → bounded s'.
Proof.
  destruct r as [a|err]; [|intros H%resume_err; by apply same_bounded].
  destruct (writes_back p) eqn:Hp.
  2: { intros H. apply same_bounded. eapply moves_result; [by apply resume_same|exact H]. }
  destruct p; try discriminate; cbn [resume]; intros H Hb; pose proof Hb as (H1 & H2 & H3).
  - apply issue_resumed_ok in H as (s1 & r & row & proof & Hs & H).
    destruct H as (_ & _ & _ & _ & _ & _ & _ & _ & _ & _ & _ & Hsz & ->).
    destruct (same_bounded _ _ Hs Hb) as (? & ? & ?). split_and!; [done| |done].
    cbn. rewrite (same_limit _ _ Hs). by apply size_insert_le.
  - apply reserve_resumed_ok in H as (s1 & r & ex & lease' & Hs & H).
    destruct H as (_ & _ & _ & _ & _ & _ & _ & Hsz & _ & _ & _ & _ & ->).
    destruct (same_bounded _ _ Hs Hb) as (? & ? & ?). split_and!; [done|done|].
    cbn. rewrite (same_limit _ _ Hs). by apply size_insert_le.
  - apply begin_resumed_ok in H as (s1 & row & Hs & Hl & _ & _ & _ & _ & _ & ->).
    destruct (same_bounded _ _ Hs Hb) as (? & ? & ?). split_and!; [done|done|].
    cbn. by rewrite (size_put _ _ _ _ Hl), (same_limit _ _ Hs).
Qed.
Lemma happens_bounded l w : bounded (is_source w) → bounded (is_source (happens_ w l)).
Proof.
  revert w. induction l as [|h l IH]; intros w Hb; [done|]. apply IH.
  destruct h as [c e|i b e]; cbn [happen].
  - destruct (start _ _ _ _ _ c e (is_source w)) as [s' r] eqn:H. by eapply start_bounded.
  - destruct (is_calls w !! i) as [p|]; [|done].
    destruct (resume _ _ _ _ p b e (is_source w)) as [s' r] eqn:H. by eapply resume_bounded.
Qed.
(** A source stays within its capacity: whatever calls are made and however
    they interleave, it holds at most [maximum_receipts] scopes, satisfactions and
    leases, which is at most 4096. *)
Theorem within_capacity self operator a b c d n s l :
  new_source self operator a b c d n = Ok s →
  let s' := is_source (happens_ (new_issuer s) l) in
  (size (_scopes s') ≤ n ∧ size (_issued s') ≤ n ∧ size (_leases s') ≤ n ∧ n ≤ 4096)%nat.
Proof.
  intros H s'.
  pose proof (later_limit _ _ (happens_later l _ (new_valid _ _ _ _ _ _ _ _ _ _ H))) as Hn.
  assert (Hs : bounded s ∧ _limit s = n ∧ (n ≤ 4096)%nat).
  { unfold new_source in H. destruct (_ && _)%bool eqn:E in H; [|discriminate].
    injection H as <-. apply andb_prop in E as [_ E%Nat.leb_le].
    unfold bounded. cbn. rewrite !map_size_empty. split_and!; lia. }
  destruct Hs as (Hb & Hl & H4). cbn [is_source new_issuer] in Hn.
  destruct (happens_bounded l (new_issuer s) Hb) as (H1 & H2 & H3).
  fold s' in Hn, H1, H2, H3. rewrite Hn, Hl in *. done.
Qed.
End source.

(** ** A current approval can be carried through *)

#[local] Open Scope py_scope.
#[local] Open Scope Z_scope.

Lemma st_bind_run {S A B} (m : ST S A) (f : A → ST S B) s s' x :
  m s = (s', Ok x) → (m ≫= f) s = f x s'.
Proof. intros H. cbv [mbind ST_bind]. by rewrite H. Qed.
Lemma st_demands_run {S} (c : S → bool) err s : c s = true → demands c err s = (s, Ok tt).
Proof. unfold demands. by intros ->. Qed.
Lemma st_lifts_run {S} c err (s : S) : c = true → lifts (guard_or c err) s = (s, Ok tt).
Proof. by intros ->. Qed.
(** Runs the next part of an operation. *)
Ltac run := first
  [ erewrite st_bind_run by reflexivity
  | erewrite st_bind_run by (by apply st_demands_run)
  | erewrite st_bind_run by (by apply st_lifts_run) ].

Section source.
Context (bracketed_host : string → bool) (float_decimal : Q → Decimal).
Context (sha256 : string → string) (float_repr : Q → string).
Context (within_maximum : ActionReview → RuntimeCapabilityContract → res bool).
#[local] Abbreviation alive_ := (_alive sha256 float_repr).
#[local] Abbreviation happens_ :=
  (happens bracketed_host float_decimal sha256 float_repr within_maximum).

(** The satisfaction is one of the source, current and with its scope unchanged. *)
Record current (s : ApprovalSource) (proof : ApprovalSatisfaction) (row : _Satisfaction) : Prop := {
  cu_row : _issued s !! sat_ref proof = Some row;
  cu_source : sat_source proof = self_ref s;
  cu_id : satisfaction_id proof = sn_satisfaction_id row;
  cu_generation : sn_generation row = _generation s;
  cu_scope : scope_unchanged sha256 float_repr (sn_scope row) s = true }.
(** The host's objects are the ones the source was opened with, and the clock, a
    double, has not moved backward and is before the expiry. *)
Record timely (s : ApprovalSource) (row : _Satisfaction) (last t : Z) (e : Surroundings) : Prop := {
  ti_maximum : en_maximum_digest e = _maximum_digest s;
  ti_profile : en_profile_digest e = _profile_digest s;
  ti_host : en_host_digest e = _host_digest s;
  ti_ok : en_profile_ok e = true;
  ti_clock : en_clock e = Some t;
  ti_double : float_round t = t;
  ti_last : last ≤ t;
  ti_expiry : t < sn_expires_at row }.

Lemma alive_holds e proof row s t : current s proof row → timely s row (_last_now s) t e →
  forwarding_or_unused proof s = true →
  alive_ e proof row s = (set_last_now t s, Ok true).
Proof.
  intros [] [] Hf. unfold _alive, _configuration, _now.
  erewrite st_bind_run.
  2: { rewrite (st_bind_run _ _ s s tt); [by apply st_demands_run|].
       apply st_demands_run. by rewrite ti_maximum0, ti_profile0, ti_host0, !String.eqb_refl. }
  erewrite st_bind_run by reflexivity.
  unfold from_self. rewrite bool_decide_eq_true_2 by done.
  rewrite cu_id0, cu_generation0, String.eqb_refl, Z.eqb_refl. cbn [andb negb].
  rewrite ti_clock0. erewrite st_bind_run.
  2: { erewrite st_bind_run by (apply st_demands_run, negb_true_iff, Z.ltb_ge, ti_last0).
       by rewrite ti_double0. }
  unfold gets. cbn [set_last_now]. change (scope_unchanged _ _ _ (set_last_now t s))
    with (scope_unchanged sha256 float_repr (sn_scope row) s).
  change (forwarding_or_unused proof (set_last_now t s)) with (forwarding_or_unused proof s).
  rewrite cu_scope0, Hf. apply Z.ltb_lt in ti_expiry0. by rewrite ti_expiry0.
Qed.

(** What a lease's holder sees of the row that it reserved. *)
Record leased_to (s : ApprovalSource) (lease : ApprovalExecutionLease)
    (proof : ApprovalSatisfaction) (broker : ref) (executor job : option ref) (state : string)
    (row : _Execution) : Prop := {
  lt_row : _leases s !! lease_ref lease = Some row;
  lt_source : lease_source lease = self_ref s;
  lt_id : ex_lease_id row = lease_id lease;
  lt_proof : ex_satisfaction row = proof;
  lt_broker : ex_broker row = broker;
  lt_executor : ex_executor row = executor;
  lt_job : ex_job row = job;
  lt_state : ex_state row = state }.
Lemma leased_original s lease proof broker x j state row :
  leased_to s lease proof broker x j state row → original_lease lease row s = true.
Proof.
  intros []. unfold original_lease, from_self.
  by rewrite bool_decide_eq_true_2, lt_id0, String.eqb_refl.
Qed.

Lemma reserve_runs e op proof row contract broker s t :
  op = _operator s → current s proof row → timely s row (_last_now s) t e →
  used proof s = false → room_for_lease proof s = true →
  contract_digest sha256 float_repr contract = as_capabilities_digest (sc (sn_scope row)) →
  rc_unknowns contract = [] → rc_decision contract ≠ "block" →
  reserve_lease sha256 float_repr e op proof contract broker s =
    (set_last_now t s, Ok (asked proof row "reserve" (PReserve proof row contract broker))).
Proof.
  intros -> Hc Ht Hu Hr Hd Hn Hb. unfold reserve_lease, _operator_check, issued_row.
  erewrite st_bind_run by (apply st_demands_run, bool_decide_eq_true_2; reflexivity).
  erewrite st_bind_run by reflexivity. rewrite (cu_row _ _ _ Hc).
  erewrite st_bind_run by
    (apply alive_holds; [done|exact Ht|unfold forwarding_or_unused; by rewrite Hu]).
  erewrite st_bind_run by reflexivity.
  erewrite st_bind_run by (apply st_demands_run; unfold used in *; cbn; by rewrite Hu).
  erewrite st_bind_run.
  2: { apply st_lifts_run. rewrite Hd, Hn, String.eqb_refl. cbn.
       by apply negb_true_iff, String.eqb_neq. }
  by erewrite st_bind_run by (by apply st_demands_run).
Qed.

(** How far the approval has come, from the source [s0]: the lease, what it is
    bound to, its state and the last reading of the clock. *)
Record stage (s0 s : ApprovalSource) (proof : ApprovalSatisfaction) (row : _Satisfaction)
    (lease : ApprovalExecutionLease) (broker : ref) (executor job : option ref)
    (state : string) (t : Z) : Prop := {
  st_current : current s proof row;
  st_lease : ∃ r, leased_to s lease proof broker executor job state r;
  st_used : used proof s = (state =s "forwarding");
  st_now : _last_now s = t;
  st_operator : _operator s = _operator s0;
  st_maximum : _maximum_digest s = _maximum_digest s0;
  st_profile : _profile_digest s = _profile_digest s0;
  st_host : _host_digest s = _host_digest s0 }.

Lemma stage_forwarding s0 s proof row lease broker x j state t :
  state = "reserved" ∨ state = "forwarding" →
  stage s0 s proof row lease broker x j state t → forwarding_or_unused proof s = true.
Proof.
  intros [->| ->] []; unfold forwarding_or_unused; rewrite st_used0; [done|]. cbn [negb orb].
  change (String.eqb "forwarding" "forwarding") with true. cbn [negb orb].
  destruct st_lease0 as [r []]. unfold some_lease. apply existsb_exists.
  exists (lease_ref lease, r). split; [by apply list_elem_of_In, elem_of_map_to_list|].
  cbn. unfold is_proof. by rewrite lt_proof0, lt_state0, bool_decide_eq_true_2.
Qed.
Lemma stage_alive s0 s proof row lease broker x j state t t' e :
  state = "reserved" ∨ state = "forwarding" →
  stage s0 s proof row lease broker x j state t → timely s0 row t t' e →
  alive_ e proof row s = (set_last_now t' s, Ok true).
Proof.
  intros Hst H Ht. pose proof (stage_forwarding _ _ _ _ _ _ _ _ _ _ Hst H).
  destruct H, Ht. apply alive_holds; [done| |done]. split; congruence.
Qed.
Lemma stage_now s0 s proof row lease broker x j state t t' :
  stage s0 s proof row lease broker x j state t →
  stage s0 (set_last_now t' s) proof row lease broker x j state t'.
Proof. intros [[] [r []]]. split; try done. exists r. by split. Qed.

Lemma reserve_resumed_runs e proof row contract broker s t :
  current s proof row → timely s row (_last_now s) t e → used proof s = false →
  room_for_lease proof s = true → freeze MAX_RUNTIME_ITEMS 0 (sn_payload row) = Ok tt →
  ∃ s' lease, reserve_lease_resumed sha256 float_repr e true proof row contract broker s =
    (s', Ok (Lease_ lease)) ∧ stage s s' proof row lease broker None None "reserved" t.
Proof.
  intros Hc Ht Hu Hr Hf. pose proof Hc as []. pose proof Ht as [].
  assert (Ha : alive_ e proof row s = (set_last_now t s, Ok true)).
  { apply alive_holds; [done|done|]. unfold forwarding_or_unused. by rewrite Hu. }
  unfold reserve_lease_resumed, allocate. erewrite st_bind_run by reflexivity.
  erewrite st_bind_run by exact Ha. erewrite st_bind_run by reflexivity.
  erewrite st_bind_run by (apply st_demands_run, andb_true_intro; split; [by apply negb_true_iff|done]).
  erewrite st_bind_run by reflexivity.
  erewrite st_bind_run.
  2: { unfold describe, issued_row. erewrite st_bind_run by reflexivity.
       cbn [_issued advance set_last_now]. rewrite cu_row0.
       erewrite st_bind_run by (apply st_demands_run, bool_decide_eq_true_2; exact cu_source0).
       by erewrite st_bind_run by (unfold lifts; rewrite Hf; reflexivity). }
  erewrite st_bind_run by reflexivity. erewrite st_bind_run by reflexivity.
  eexists _, _. split; [reflexivity|]. split; [by split| |done..].
  eexists. split; [cbn; apply lookup_insert_eq|reflexivity..].
Qed.

Lemma stage_put s0 s proof row lease broker x j state t x' j' state' r :
  stage s0 s proof row lease broker x j state t →
  leased_to s lease proof broker x j state r → (state' =s "forwarding") = (state =s "forwarding") →
  stage s0 (set_leases (<[lease_ref lease := with_state state' (with_job x' j' r)]> (_leases s)) s)
    proof row lease broker x' j' state' t.
Proof.
  intros [[]] [] Hst. split; try done.
  - eexists. split; [apply lookup_insert_eq|done..].
  - by rewrite Hst.
Qed.
Lemma bind_runs s0 s proof row lease broker x j t t' e op :
  op = _operator s0 → stage s0 s proof row lease broker None None "reserved" t →
  timely s0 row t t' e →
  ∃ s', bind_job sha256 float_repr e op lease broker x j s = (s', Ok Nothing) ∧
    stage s0 s' proof row lease broker x j "reserved" t'.
Proof.
  intros -> H Ht. pose proof (stage_alive _ _ _ _ _ _ _ _ _ _ _ _ (or_introl eq_refl) H Ht) as Ha.
  apply (stage_now _ _ _ _ _ _ _ _ _ _ t') in H as H'. destruct (st_lease _ _ _ _ _ _ _ _ _ _ H') as [r Hr].
  pose proof Hr as []. unfold bind_job, _operator_check, lease_row, issued_item, put_lease.
  erewrite st_bind_run by (apply st_demands_run, bool_decide_eq_true_2; symmetry; apply H).
  erewrite st_bind_run by reflexivity. cbn [set_last_now _leases] in lt_row0. rewrite lt_row0.
  erewrite st_bind_run.
  2: { apply st_demands_run. change (original_lease lease r s) with (original_lease lease r (set_last_now t' s)).
       rewrite (leased_original _ _ _ _ _ _ _ _ Hr), lt_state0.
       rewrite !bool_decide_eq_true_2 by done. done. }
  erewrite st_bind_run.
  2: { unfold asks. rewrite lt_proof0, (cu_row _ _ _ (st_current _ _ _ _ _ _ _ _ _ _ H)). reflexivity. }
  rewrite lt_proof0. erewrite st_bind_run by exact Ha. erewrite st_bind_run by reflexivity.
  erewrite st_bind_run by reflexivity. eexists. split; [reflexivity|].
  pose proof (stage_put _ _ _ _ _ _ _ _ _ _ x j "reserved" r H' Hr eq_refl) as Hp.
  unfold with_state in Hp. cbn in Hp. unfold with_job. rewrite lt_state0. exact Hp.
Qed.
Lemma begin_runs s0 s proof row lease broker x j t t' e op :
  op = _operator s0 → stage s0 s proof row lease broker x j "reserved" t →
  timely s0 row t t' e →
  begin sha256 float_repr e op lease broker x j s =
    (set_last_now t' s, Ok (asked proof row "begin" (PBegin lease proof row x j))).
Proof.
  intros -> H Ht. pose proof (stage_alive _ _ _ _ _ _ _ _ _ _ _ _ (or_introl eq_refl) H Ht) as Ha.
  destruct (st_lease _ _ _ _ _ _ _ _ _ _ H) as [r Hr]. pose proof Hr as [].
  unfold begin, _operator_check, lease_row, issued_item.
  erewrite st_bind_run by (apply st_demands_run, bool_decide_eq_true_2; symmetry; apply H).
  erewrite st_bind_run by reflexivity. rewrite lt_row0.
  erewrite st_bind_run.
  2: { apply st_demands_run. rewrite (leased_original _ _ _ _ _ _ _ _ Hr), lt_state0.
       rewrite lt_proof0, (st_used _ _ _ _ _ _ _ _ _ _ H).
       rewrite !bool_decide_eq_true_2 by done. done. }
  erewrite st_bind_run.
  2: { unfold asks. rewrite lt_proof0, (cu_row _ _ _ (st_current _ _ _ _ _ _ _ _ _ _ H)). reflexivity. }
  rewrite lt_proof0. erewrite st_bind_run by exact Ha. by erewrite st_bind_run by reflexivity.
Qed.
Lemma begin_resumed_runs s0 s proof row lease broker x j t t' e :
  stage s0 s proof row lease broker x j "reserved" t → timely s0 row t t' e →
  ∃ s', begin_resumed sha256 float_repr e true lease proof row s = (s', Ok Nothing) ∧
    stage s0 s' proof row lease broker x j "forwarding" t'.
Proof.
  intros H Ht. pose proof (stage_alive _ _ _ _ _ _ _ _ _ _ _ _ (or_introl eq_refl) H Ht) as Ha.
  destruct (st_lease _ _ _ _ _ _ _ _ _ _ H) as [r Hr]. pose proof Hr as [].
  unfold begin_resumed, lease_row, put_lease. erewrite st_bind_run by reflexivity.
  erewrite st_bind_run by reflexivity. rewrite lt_row0.
  erewrite st_bind_run.
  2: { apply st_demands_run. by rewrite lt_state0, (st_used _ _ _ _ _ _ _ _ _ _ H). }
  erewrite st_bind_run by exact Ha. erewrite st_bind_run by reflexivity.
  erewrite st_bind_run by reflexivity. erewrite st_bind_run by reflexivity.
  eexists. split; [reflexivity|]. destruct H as [[]].
  split; try done.
  - eexists. split; [apply lookup_insert_eq|done..].
  - unfold used. cbn. apply bool_decide_eq_true_2. set_solver.
Qed.
Lemma verify_execution_runs s0 s proof row lease broker x j t t' e :
  stage s0 s proof row lease broker x j "forwarding" t → timely s0 row t t' e →
  verify_execution sha256 float_repr e lease x j s =
    (set_last_now t' s, Ok (asked proof row "execution" (PVerifyExecution lease proof row x j))).
Proof.
  intros H Ht. pose proof (stage_alive _ _ _ _ _ _ _ _ _ _ _ _ (or_intror eq_refl) H Ht) as Ha.
  destruct (st_lease _ _ _ _ _ _ _ _ _ _ H) as [r Hr]. pose proof Hr as [].
  unfold verify_execution, catches, lease_row, issued_item.
  erewrite st_bind_run by reflexivity. rewrite lt_row0.
  erewrite st_bind_run by reflexivity.
  rewrite (leased_original _ _ _ _ _ _ _ _ Hr), lt_state0, !bool_decide_eq_true_2 by done.
  cbn [negb andb]. change (String.eqb "forwarding" "forwarding") with true. cbn [negb andb].
  erewrite st_bind_run.
  2: { unfold asks. rewrite lt_proof0, (cu_row _ _ _ (st_current _ _ _ _ _ _ _ _ _ _ H)). reflexivity. }
  rewrite lt_proof0. by erewrite st_bind_run by exact Ha.
Qed.
Lemma verify_execution_resumed_runs s0 s proof row lease broker x j t t' e :
  stage s0 s proof row lease broker x j "forwarding" t → timely s0 row t t' e →
  verify_execution_resumed sha256 float_repr e true lease proof row s = (set_last_now t' s, Ok true).
Proof.
  intros H Ht. pose proof (stage_alive _ _ _ _ _ _ _ _ _ _ _ _ (or_intror eq_refl) H Ht) as Ha.
  destruct (st_lease _ _ _ _ _ _ _ _ _ _ H) as [r []].
  unfold verify_execution_resumed, catches, lease_row. cbn [negb].
  erewrite st_bind_run by reflexivity. rewrite lt_row0, lt_state0.
  change (String.eqb "forwarding" "forwarding") with true. cbv iota. by rewrite Ha.
Qed.

Lemma timely_now s row last t t' e : timely s row last t e → timely (set_last_now t' s) row last t e.
Proof. by intros []. Qed.
Lemma current_now s proof row t : current s proof row → current (set_last_now t s) proof row.
Proof. by intros []. Qed.
Lemma stage_from s0 s proof row lease broker x j state t t' :
  stage (set_last_now t' s0) s proof row lease broker x j state t →
  stage s0 s proof row lease broker x j state t.
Proof. by intros []. Qed.

(** ** The whole way *)

(** The clock readings at the successive sections. *)
Fixpoint in_time (s : ApprovalSource) (row : _Satisfaction) (last : Z) (es : list Surroundings)
  : Prop :=
  match es with
  | [] => True
  | e :: es => ∃ t, timely s row last t e ∧ in_time s row t es
  end.

(** The holder reserves a lease, binds a job, begins and has the execution
    verified, where [n] calls were in flight before. *)
Definition way (n : nat) (es : list Surroundings) (op : ref) (proof : ApprovalSatisfaction)
    (lease : ApprovalExecutionLease) (contract : RuntimeCapabilityContract) (broker : ref)
    (executor job : option ref) : list happening :=
  match es with
  | [e1; e2; e3; e4; e5; e6; e7] =>
      [Starts (ReserveLease op proof contract broker) e1; Resumes n true e2;
       Starts (BindJob op lease broker executor job) e3;
       Starts (Begin op lease broker executor job) e4; Resumes n true e5;
       Starts (VerifyExecution lease executor job) e6; Resumes n true e7]
  | _ => []
  end.

Lemma happens_start w c e s' o l :
  start bracketed_host float_decimal sha256 float_repr within_maximum c e (is_source w)
    = (s', Ok o) →
  happens_ w (Starts c e :: l) =
  happens_ {| is_source := s'; is_calls := is_calls w ++ in_flight (Ok o);
              is_log := Started c (Ok o) :: is_log w |} l.
Proof. intros H. unfold happens. cbn [fold_left happen]. by rewrite H. Qed.
Lemma happens_resume w p b e s' a l calls :
  is_calls w = calls ++ [p] →
  resume bracketed_host float_decimal sha256 float_repr p b e (is_source w) = (s', Ok a) →
  happens_ w (Resumes (length calls) b e :: l) =
  happens_ {| is_source := s'; is_calls := calls;
              is_log := Resumed p b (Ok a) :: is_log w |} l.
Proof.
  intros Hc H. unfold happens. cbn [fold_left happen].
  rewrite Hc, lookup_app_r, Nat.sub_diag by done. cbn [lookup list_lookup]. rewrite H.
  by rewrite delete_middle, app_nil_r.
Qed.

(** C13: An approval can be carried through.  For a satisfaction that is current,
    unused and without a lease, when there is room for one, the contract is the
    one of its scope, the verifier affirms and the clock stays before the expiry,
    the operator's calls [reserve_lease], [bind_job] and [begin] return, and
    [verify_execution] then answers yes for that executor and job. *)
Theorem carried_through w es proof row contract broker executor job :
  let s := is_source w in
  length es = 7%nat → in_time s row (_last_now s) es →
  current s proof row → used proof s = false → room_for_lease proof s = true →
  freeze MAX_RUNTIME_ITEMS 0 (sn_payload row) = Ok tt →
  contract_digest sha256 float_repr contract = as_capabilities_digest (sc (sn_scope row)) →
  rc_unknowns contract = [] → rc_decision contract ≠ "block" →
  ∃ lease log,
    let w' := happens_ w (way (length (is_calls w)) es (_operator s) proof lease contract broker
                            executor job) in
    is_log w' = Resumed (PVerifyExecution lease proof row executor job) true
                  (Ok (Affirmed true)) :: log ∧
    is_calls w' = is_calls w ∧ used proof (is_source w') = true.
Proof.
  intros s Hlen Htimes Hc Hu Hr Hf Hd Hn Hb. destruct w as [s0 calls lg]. cbn in s. subst s.
  destruct es as [|e1 [|e2 [|e3 [|e4 [|e5 [|e6 [|e7 [|]]]]]]]]; try discriminate Hlen.
  destruct Htimes as (t1 & H1 & t2 & H2 & t3 & H3 & t4 & H4 & t5 & H5 & t6 & H6 & t7 & H7 & _).
  cbn [is_source is_calls] in *.
  pose proof (reserve_runs _ _ _ _ _ broker _ _ eq_refl Hc H1 Hu Hr Hd Hn Hb) as E1.
  destruct (reserve_resumed_runs e2 proof row contract broker (set_last_now t1 s0) t2)
    as (s2 & lease & E2 & S2%stage_from); [by apply current_now|by apply timely_now|done..|].
  destruct (bind_runs _ _ _ _ _ _ executor job _ _ _ _ eq_refl S2 H3) as (s3 & E3 & S3).
  pose proof (begin_runs _ _ _ _ _ _ _ _ _ _ _ _ eq_refl S3 H4) as E4.
  apply (stage_now _ _ _ _ _ _ _ _ _ _ t4) in S3.
  destruct (begin_resumed_runs _ _ _ _ _ _ _ _ _ _ _ S3 H5) as (s5 & E5 & S5).
  pose proof (verify_execution_runs _ _ _ _ _ _ _ _ _ _ _ S5 H6) as E6.
  apply (stage_now _ _ _ _ _ _ _ _ _ _ t6) in S5.
  pose proof (verify_execution_resumed_runs _ _ _ _ _ _ _ _ _ _ _ S5 H7) as E7.
  exists lease. eexists. unfold way.
  erewrite happens_start by (cbn [start is_source]; exact E1).
  erewrite happens_resume by (first [reflexivity | cbn [resume is_source]; exact E2]).
  erewrite happens_start by (cbn [start is_source answers]; unfold answers;
    erewrite st_bind_run by exact E3; reflexivity).
  cbn [is_calls in_flight]. rewrite app_nil_r.
  erewrite happens_start by (cbn [start is_source]; exact E4).
  erewrite happens_resume by (first [reflexivity | cbn [resume is_source]; exact E5]).
  erewrite happens_start by (cbn [start is_source]; exact E6).
  erewrite happens_resume by (first [reflexivity | cbn [resume is_source]; unfold returns;
    erewrite st_bind_run by exact E7; reflexivity]).
  cbn [is_log is_calls is_source happens fold_left]. split; [reflexivity|]. split; [done|].
  exact (st_used _ _ _ _ _ _ _ _ _ _ S5).
Qed.
End source.
