(* ===== verification/ApprovalAuthority.v ===== *)
(** * The authority over approval sources ([ApprovalAuthority] of [ordin/approval.py])

    The enrolment of the sources of several workloads under one operator.  The
    sources are objects in a store, under their references; the objects of the
    host that the code reads (the maximum, the keys of the hosts, the barrier of
    a source) are what a call finds.  Every call holds the admission barrier
    that the enrolled sources share, so it is one section. *)
From stdpp Require Import base list strings gmap sorting.
From Stdlib Require Import Bool Ascii ZArith QArith Lia.
From stdpp Require Import base list strings gmap relations.
From S2P Require Import Prelude State PyStr Json Temporal JsonSchema RuntimeDerive Approval.
From S2P Require Import ApprovalFacts.
#[local] Open Scope py_scope.
#[local] Open Scope Z_scope.

Record ApprovalAuthority := {
  au_operator : ref;
  au_maximum_digest : string;
  au_nonce : string;
  au_limit : nat;
  au_generation : Z;
  au_sources : list (string * ref) }.
Record World := { wo_authority : ApprovalAuthority; wo_sources : gmap ref ApprovalSource }.
Definition set_authority (a : ApprovalAuthority) (w : World) : World :=
  {| wo_authority := a; wo_sources := wo_sources w |}.

(** What a call finds: the digest of the operator's maximum, the surroundings and
    the host key of each source, and whether it has the authority's barrier. *)
Record Hosts := {
  ho_maximum_digest : string;
  ho_source : ref → Surroundings;
  ho_key : ref → string;
  ho_barrier : ref → bool }.

(** [__init__], after its checks on types. *)
Definition mk_ApprovalAuthority (maximum_digest : string) (operator : ref) (nonce : string)
    (maximum_sources : nat) : res ApprovalAuthority :=
  _ ← guard_or ((1 <=? maximum_sources) && (maximum_sources <=? 256))%nat
        (ValueError "original finite approval authority and operator required");
  Ok {| au_operator := operator; au_maximum_digest := maximum_digest; au_nonce := nonce;
        au_limit := maximum_sources; au_generation := 0; au_sources := [] |}.

(** A section of one source. *)
Definition on_source {A} (r : ref) (m : ST ApprovalSource A) : ST World A := λ w,
  match wo_sources w !! r with
  | Some s => let '(s', x) := m s in
              ({| wo_authority := wo_authority w; wo_sources := <[r := s']> (wo_sources w) |}, x)
  | None => (w, Err (AttributeError "source"))
  end.

Fixpoint each {A B} (f : A → ST World B) (l : list A) : ST World (list B) :=
  match l with
  | [] => mret []
  | x :: l' => y ← f x; ys ← each f l'; mret (y :: ys)
  end.

Section authority.
Context (sha256 : string → string) (float_repr : Q → string).

Definition pair_json (kv : string * string) : json := JArr [JStr (fst kv); JStr (snd kv)].
Definition binding_pairs (l : list (string * string)) : list (string * string) :=
  sorted_by (λ a b, texts_compare [fst a; snd a] [fst b; snd b]) l.
Definition authority_binding (h : Hosts) : ST World string :=
  _ ← demands (λ w, ho_maximum_digest h =s au_maximum_digest (wo_authority w))
        (ValueError "approval operator maximum changed");
  sources ← gets (λ w, au_sources (wo_authority w));
  pairs ← each (λ kv, d ← on_source (snd kv) (binding_digest sha256 float_repr
                                                  (ho_source h (snd kv)));
                      mret (fst kv, d)) sources;
  gets (λ w, let a := wo_authority w in
    digest sha256 float_repr
      (JArr [JStr (au_nonce a); JInt (au_generation a); JStr (au_maximum_digest a);
             JArr (map pair_json (binding_pairs pairs))])).

Definition add_source (key : string) (r : ref) (a : ApprovalAuthority) : ApprovalAuthority :=
  {| au_operator := au_operator a; au_maximum_digest := au_maximum_digest a;
     au_nonce := au_nonce a; au_limit := au_limit a; au_generation := au_generation a + 1;
     au_sources := au_sources a ++ [(key, r)] |}.
Definition enroll (h : Hosts) (source operator : ref) : ST World unit :=
  _ ← demands (λ w, bool_decide (operator = au_operator (wo_authority w))
                    && match wo_sources w !! source with
                       | Some s => bool_decide (_operator s = operator)
                       | None => false
                       end && ho_barrier h source)
        (ValueError "original protected approval authority enrollment required");
  _ ← authority_binding h;
  _ ← demands (λ w, let a := wo_authority w in
                (en_maximum_digest (ho_source h source) =s au_maximum_digest a)
                && negb (mem (ho_key h source) (map fst (au_sources a)))
                && (length (au_sources a) <? au_limit a)%nat)
        (ValueError "approval source maximum, identity or capacity mismatch");
  existing ← gets (λ w, map snd (au_sources (wo_authority w)));
  _ ← each (λ r, on_source r (fence operator)) existing;
  _ ← on_source source (fence operator);
  assigns (λ w, set_authority (add_source (ho_key h source) source (wo_authority w)) w).

Definition accepts (h : Hosts) (proof : ApprovalSatisfaction) : ST World bool :=
  catches (
    _ ← authority_binding h;
    gets (λ w, bool_decide (dict_get (ho_key h (sat_source proof)) (au_sources (wo_authority w))
                            = Some (sat_source proof)))) false.
End authority.

(** ** Enrolling a source fences every enrolled source, all or nothing *)

#[local] Open Scope py_scope.
#[local] Open Scope Z_scope.

(** The enrolled sources exist, have the operator of the authority and are
    listed under the keys of their hosts, each key once. *)
Record enrolled (h : Hosts) (w : World) : Prop := {
  en_exists key r : (key, r) ∈ au_sources (wo_authority w) →
    ho_key h r = key ∧
    ∃ s, wo_sources w !! r = Some s ∧ _operator s = au_operator (wo_authority w);
  en_keys : NoDup (map fst (au_sources (wo_authority w)));
  en_bound : (length (au_sources (wo_authority w)) ≤ au_limit (wo_authority w))%nat }.

Lemma enrolled_refs h w : enrolled h w → NoDup (map snd (au_sources (wo_authority w))).
Proof.
  intros [Hex Hnd _]. induction (au_sources (wo_authority w)) as [|[k r] l IH]; [constructor|].
  cbn in *. apply NoDup_cons in Hnd as [Hk Hnd]. apply NoDup_cons. split.
  - intros ([k' r'] & E & Hin)%list_elem_of_fmap. cbn in E. subst r'. apply Hk.
    destruct (Hex k r) as [E1 _]; [left|]. destruct (Hex k' r) as [E2 _]; [by right|].
    rewrite <- E1, E2. by apply (list_elem_of_fmap_2 fst) in Hin.
  - apply IH; [|done]. intros key x Hx. apply Hex. by right.
Qed.

(** What [fence] leaves of a source. *)
Definition fenced_source (s : ApprovalSource) : ApprovalSource :=
  set_leases (fenced <$> _leases s) (set_generation (_generation s + 1) s).
Lemma fence_runs operator s :
  _operator s = operator → fence operator s = (fenced_source s, Ok Nothing).
Proof.
  intros E. unfold fence, _operator_check. cbv [mbind ST_bind demands assigns mret ST_ret].
  rewrite E. by rewrite bool_decide_eq_true_2.
Qed.

Lemma fence_each operator l w :
  NoDup l → (∀ r, r ∈ l → ∃ s, wo_sources w !! r = Some s ∧ _operator s = operator) →
  ∃ w' x, each (λ r, on_source r (fence operator)) l w = (w', Ok x) ∧
    wo_authority w' = wo_authority w ∧
    ∀ r, wo_sources w' !! r =
      if bool_decide (r ∈ l) then fenced_source <$> wo_sources w !! r else wo_sources w !! r.
Proof.
  induction l as [|r l IH] in w |- *; intros Hnd Hl.
  { exists w, []. split_and!; [done..|]. intros r. by case_bool_decide as E; [apply elem_of_nil in E|]. }
  apply NoDup_cons in Hnd as [Hr Hnd]. destruct (Hl r) as (s & Hs & Hop); [left|].
  set (w1 := {| wo_authority := wo_authority w;
                wo_sources := <[r := fenced_source s]> (wo_sources w) |}).
  destruct (IH w1 Hnd) as (w' & x & E & Ha & Hall).
  { intros q Hq. destruct (Hl q) as (t & Ht & Hto); [by right|]. exists t.
    cbn. rewrite lookup_insert_ne by (by intros ->). done. }
  exists w', (Nothing :: x). split_and!; [|exact Ha|].
  - cbn [each]. cbv [mbind ST_bind]. unfold on_source at 1.
    rewrite Hs, (fence_runs operator s Hop). fold w1. rewrite E. done.
  - intros q. rewrite Hall. cbn [wo_sources w1]. destruct (decide (q = r)) as [->|Hne].
    + rewrite (bool_decide_eq_false_2 (r ∈ l)), bool_decide_eq_true_2 by (done || left).
      by rewrite lookup_insert_eq, Hs.
    + rewrite lookup_insert_ne by done.
      by rewrite (bool_decide_ext (q ∈ r :: l) (q ∈ l)) by (rewrite elem_of_cons; naive_solver).
Qed.

Section facts.
Context (sha256 : string → string) (float_repr : Q → string).

(** Reading the binding of the sources changes nothing. *)
Lemma binding_digest_reads e s s' r : binding_digest sha256 float_repr e s = (s', r) → s' = s.
Proof.
  unfold binding_digest, _configuration. cbv [mbind ST_bind demands gets].
  destruct (guard_or _ _); [|by intros [= <- _]]. destruct (guard_or _ _); by intros [= <- _].
Qed.
Lemma authority_binding_reads h w w' r :
  authority_binding sha256 float_repr h w = (w', r) → w' = w.
Proof.
  assert (∀ l v v' x, each (λ kv : string * ref, d ← on_source (snd kv) (binding_digest sha256 float_repr
      (ho_source h (snd kv))); mret (fst kv, d)) l v = (v', x) → v' = v) as Heach.
  { induction l as [|[k q] l IH]; intros v v' x; cbn [each]; cbv [mret ST_ret]; [by intros [= <- _]|].
    cbv [mbind ST_bind]. unfold on_source at 1. cbn [fst snd].
    destruct (wo_sources v !! q) as [s|] eqn:Hs; [|by intros [= <- _]].
    destruct (binding_digest _ _ _ s) as [s' y] eqn:Eb. apply binding_digest_reads in Eb as ->.
    rewrite (insert_id (wo_sources v) q s Hs). destruct v as [a m]. cbn [wo_authority wo_sources] in *.
    destruct y as [d|e]; [|by intros [= <- _]].
    destruct (each _ l _) as [v2 [ys|e]] eqn:E2; apply IH in E2 as ->; by intros [= <- _]. }
  unfold authority_binding. cbv [mbind ST_bind demands gets].
  destruct (guard_or _ _); [|by intros [= <- _]].
  destruct (each _ _ w) as [v [ys|e]] eqn:E; apply Heach in E as ->; by intros [= <- _].
Qed.

Lemma fenced_state row : ex_state (fenced row) = "settled" ∨ ex_state (fenced row) = "fenced".
Proof.
  unfold fenced. destruct (String.eqb_spec (ex_state row) "settled"); [by left|by right].
Qed.
(** What a fenced source grants: its leases are over, and what was issued before
    is dead. *)
Lemma fenced_source_final s :
  (∀ l x, _leases (fenced_source s) !! l = Some x → ex_state x = "settled" ∨ ex_state x = "fenced") ∧
  (∀ e proof row t, sn_generation row ≤ _generation s →
     _alive sha256 float_repr e proof row (fenced_source s) ≠ (t, Ok true)).
Proof.
  split.
  - intros l x. cbn. rewrite lookup_fmap. destruct (_leases s !! l); [|done]. cbn.
    intros [= <-]. apply fenced_state.
  - intros e proof row t Hle H. apply alive_true in H as (_ & _ & _ & Hg & _). cbn in Hg. lia.
Qed.

(** The world after an enrolment. *)
Record enrolment (h : Hosts) (source : ref) (w w' : World) : Prop := {
  em_authority : wo_authority w' = add_source (ho_key h source) source (wo_authority w);
  em_sources r : wo_sources w' !! r =
    if bool_decide (r ∈ map snd (au_sources (wo_authority w)) ++ [source])
    then fenced_source <$> wo_sources w !! r else wo_sources w !! r;
  em_source : ∃ s, wo_sources w !! source = Some s ∧ _operator s = au_operator (wo_authority w);
  em_key : ho_key h source ∉ map fst (au_sources (wo_authority w));
  em_room : (length (au_sources (wo_authority w)) < au_limit (wo_authority w))%nat }.

Lemma enroll_runs h source operator w :
  enrolled h w →
  match enroll sha256 float_repr h source operator w with
  | (w', Err _) => w' = w
  | (w', Ok _) => enrolment h source w w'
  end.
Proof.
  intros Hen. unfold enroll. cbv [mbind ST_bind demands gets assigns].
  destruct (guard_or _ _) as [[]|e] eqn:Hg; [apply guard_or_ok in Hg|done].
  destruct (authority_binding _ _ h w) as [w1 [d|e]] eqn:Hb;
    apply authority_binding_reads in Hb as ->; [|done].
  destruct (guard_or _ _) as [[]|e] eqn:Hg2; [apply guard_or_ok in Hg2|done].
  cbv zeta in Hg2. split_bools. subst operator.
  destruct (wo_sources w !! source) as [s0|] eqn:Hs0; [|done]. split_bools.
  set (sources := au_sources (wo_authority w)) in *.
  assert (ho_key h source ∉ map fst sources) as Hfresh by (rewrite <- mem_elem_of; congruence).
  assert (source ∉ map snd sources) as Hnew.
  { intros ([k r] & E & Hin)%list_elem_of_fmap. cbn in E. subst r. apply Hfresh.
    destruct (en_exists h w Hen k source Hin) as [-> _]. by apply (list_elem_of_fmap_2 fst) in Hin. }
  destruct (fence_each (au_operator (wo_authority w)) (map snd sources) w) as (w2 & x & E & Ha & Hall).
  { by eapply enrolled_refs. }
  { intros r ([k q] & E & Hin)%list_elem_of_fmap. cbn in E. subst q.
    by destruct (en_exists h w Hen k r Hin) as [_ ?]. }
  rewrite E. unfold on_source. rewrite (Hall source), bool_decide_eq_false_2, Hs0 by done.
  rewrite fence_runs by done. split; cbn; [by rewrite Ha| |by exists s0|done|].
  - intros r. destruct (decide (r = source)) as [->|Hne].
    + rewrite lookup_insert_eq, bool_decide_eq_true_2, Hs0; [done|].
      apply elem_of_app. right. by apply list_elem_of_singleton.
    + rewrite lookup_insert_ne by done. rewrite Hall. fold sources.
      by rewrite (bool_decide_ext (r ∈ map snd sources ++ [source]) (r ∈ map snd sources))
        by (rewrite elem_of_app, list_elem_of_singleton; naive_solver).
  - fold sources. by apply Nat.ltb_lt.
Qed.

Lemma enrolment_enrolled h source w w' : enrolled h w → enrolment h source w w' → enrolled h w'.
Proof.
  intros [Hex Hnd Hb] [Ha Hs (s0 & Hs0 & Hop) Hk Hr].
  split; rewrite Ha; cbn [add_source au_sources au_operator au_limit].
  - intros key r Hkr. rewrite Hs, bool_decide_eq_true_2.
    2:{ apply (list_elem_of_fmap_2 snd) in Hkr. by rewrite map_app in Hkr. }
    apply elem_of_app in Hkr as [Hkr|Hkr%list_elem_of_singleton]; [|injection Hkr as -> ->].
    + destruct (Hex key r Hkr) as (? & s & -> & ?). split; [done|]. by eexists.
    + split; [done|]. rewrite Hs0. by eexists.
  - rewrite map_app. apply NoDup_app. split_and!; [done| |apply NoDup_singleton].
    intros k Hin ->%list_elem_of_singleton. done.
  - rewrite length_app. cbn. lia.
Qed.

(** C14: Enrolment is all or nothing: it either raises and leaves every source
    and the authority as they were, or it adds the source under the key of its
    host, within the bound, takes the authority to its next generation and
    fences every enrolled source with the new one, whose leases are then all
    settled or fenced and whose earlier satisfactions are never alive again;
    the sources that are not enrolled are not touched. *)
Theorem enroll_fences_all h source operator w :
  enrolled h w →
  match enroll sha256 float_repr h source operator w with
  | (w', Err _) => w' = w
  | (w', Ok _) =>
      enrolled h w' ∧
      au_sources (wo_authority w') = au_sources (wo_authority w) ++ [(ho_key h source, source)] ∧
      au_generation (wo_authority w') = au_generation (wo_authority w) + 1 ∧
      (∀ r, r ∉ map snd (au_sources (wo_authority w')) →
         wo_sources w' !! r = wo_sources w !! r) ∧
      (∀ key r, (key, r) ∈ au_sources (wo_authority w') → ∃ s s',
         wo_sources w !! r = Some s ∧ wo_sources w' !! r = Some s' ∧
         _generation s' = _generation s + 1 ∧ _issued s' = _issued s ∧ _used s' = _used s ∧
         (∀ l x, _leases s' !! l = Some x → ex_state x = "settled" ∨ ex_state x = "fenced") ∧
         (∀ e proof row t, sn_generation row ≤ _generation s →
            _alive sha256 float_repr e proof row s' ≠ (t, Ok true)))
  end.
Proof.
  intros Hen. pose proof (enroll_runs h source operator w Hen) as H.
  destruct (enroll _ _ h source operator w) as [w' [u|e]]; [|exact H].
  pose proof (enrolment_enrolled h source w w' Hen H) as Hen'. split; [exact Hen'|].
  destruct H as [Ha Hs _ _ _].
  assert (map snd (au_sources (wo_authority w'))
          = map snd (au_sources (wo_authority w)) ++ [source]) as Hrefs.
  { rewrite Ha. cbn. by rewrite map_app. }
  split_and!; [by rewrite Ha..| |].
  - intros r Hr. rewrite Hrefs in Hr. by rewrite Hs, bool_decide_eq_false_2.
  - intros key r Hkr. destruct (en_exists h w' Hen' key r Hkr) as (_ & s' & Hs' & _).
    apply (list_elem_of_fmap_2 snd) in Hkr. change (snd <$> ?l) with (map snd l) in Hkr.
    rewrite Hrefs in Hkr. cbn [snd] in Hkr.
    rewrite Hs, bool_decide_eq_true_2 in Hs' by done.
    destruct (wo_sources w !! r) as [s|] eqn:E; [|discriminate Hs']. injection Hs' as <-.
    exists s, (fenced_source s). rewrite Hs, bool_decide_eq_true_2, E by done.
    destruct (fenced_source_final s). by split_and!.
Qed.
End facts.
