(* ===== verification/ShippedApproval.v ===== *)
(** * Approvals of a concrete review

    The shipped rules review a download; its approval is issued, fenced or
    carried through. *)
From stdpp Require Import base list strings gmap.
From Stdlib Require Import ZArith QArith Lia.
From S2P Require Import Prelude PyStr Policy Json Requests ActionModel RequestReaders.
From S2P Require Import RuntimeContract RuntimeDerive ShippedRuntime.
From S2P Require Import Approval ApprovalFacts ApprovalSafety.
From S2P Require Import ApprovalAuthority.
#[local] Open Scope py_scope.
#[local] Open Scope Z_scope.

Definition hex64 : string := sample_digest64 "".
Definition sample_maximum (r : ActionReview) (c : RuntimeCapabilityContract) : res bool := Ok true.
#[local] Abbreviation happens_ :=
  (happens (λ _, true) ShippedAction.no_decimal sample_digest64 ShippedAction.no_float sample_maximum).

(** The host, at a time of so many seconds. *)
Definition at_time (t : Z) : Surroundings :=
  {| en_maximum_digest := hex64; en_profile_digest := hex64; en_host_digest := hex64;
     en_host_epoch := 0; en_profile_ok := true; en_clock := Some (seconds t);
     en_uuid := "0123456789abcdef0123456789abcdef";
     en_recorded := Ok {| nr_ref := 50%positive; nr_digest := hex64 |} |}.
Definition operator : ref := 100%positive.
Definition sample_source : res ApprovalSource := new_source 99%positive operator hex64 hex64 hex64 hex64 4.
Definition item_scope : ApprovalScope :=
  {| as_context_digest := hex64; as_policy_digest := hex64; as_policy_epoch := 0;
     as_scope_digest := hex64; as_operator_maximum_digest := hex64; as_owner_fence := 0;
     as_revocation_epoch := 0; as_budget_digest := hex64; as_delegation_digest := hex64;
     as_capabilities_digest := hex64 |}.
Definition item_issue (id : string) : Call :=
  Issue operator (av_action item_review) item_review hex64 {| sc_ref := 1%positive; sc := item_scope |} id
    (Some (seconds 60)).
Definition opening : list happening :=
  [Starts (CreateScope operator item_scope) (at_time 1); Starts (item_issue "approval-1") (at_time 1);
   Resumes 0 true (at_time 2)].
Definition opened_source : ApprovalSource := ltac:(ok_value sample_source).
Definition issued : Issuer := happens_ (new_issuer opened_source) opening.

Definition summary (e : event) : string :=
  match e with
  | Started _ (Ok (Answered _)) => "answered" | Started _ (Ok (Asked q _)) => "asked " +:+ q_stage q
  | Resumed _ _ (Ok (Affirmed true)) => "yes" | Resumed _ _ (Ok (Affirmed false)) => "no"
  | Resumed _ _ (Ok _) => "done"
  | Started _ (Err (ValueError m)) | Resumed _ _ (Err (ValueError m)) => m
  | _ => "?"
  end.
Example issued_log : map summary (is_log issued) = ["done"; "asked issue"; "answered"].
Proof. vm_compute. reflexivity. Qed.

Definition item_proof : ApprovalSatisfaction :=
  {| sat_ref := 2%positive; satisfaction_id := "approval-1"; sat_source := 99%positive |}.
Definition item_lease : ApprovalExecutionLease :=
  {| lease_ref := 4%positive; lease_id := en_uuid (at_time 0); lease_source := 99%positive |}.
Definition item_row : _Satisfaction :=
  ltac:(let x := eval vm_compute in (_issued (is_source issued) !! 2%positive) in
        match x with Some ?v => exact v end).
Definition broker : ref := 60%positive.
Definition worker : option ref := Some 61%positive.
Definition job : option ref := Some 62%positive.
Definition item_times : list Surroundings := map at_time [3; 4; 5; 6; 7; 8; 9].
Definition item_way : list happening :=
  way 0 item_times operator item_proof item_lease item_contract broker worker job.
Definition carried : Issuer := happens_ issued item_way.

Example carried_log : map summary (is_log carried) =
  ["yes"; "asked execution"; "done"; "asked begin"; "answered"; "done"; "asked reserve";
   "done"; "asked issue"; "answered"].
Proof. vm_compute. reflexivity. Qed.
(** A second lease, and a second [begin], are refused. *)
Example second_use_refused :
  map summary (firstn 2 (is_log (happens_ carried
    [Starts (ReserveLease operator item_proof item_contract broker) (at_time 10);
     Starts (Begin operator item_lease broker worker job) (at_time 11)]))) =
  ["approval lease was copied, used or bound to another owned job";
   "original current unused human approval required"].
Proof. vm_compute. reflexivity. Qed.
(** Two [begin]s in flight at once: one succeeds. *)
Example racing_begins :
  map summary (firstn 4 (is_log (happens_ issued
    (firstn 3 item_way ++
     [Starts (Begin operator item_lease broker worker job) (at_time 10);
      Starts (Begin operator item_lease broker worker job) (at_time 10);
      Resumes 1 true (at_time 11); Resumes 0 true (at_time 12)])))) =
  ["approval forwarding raced or changed"; "done"; "asked begin"; "asked begin"].
Proof. vm_compute. reflexivity. Qed.
(** A lease begins with no job, although none was bound to it. *)
Definition unbound : list happening :=
  firstn 2 item_way ++
  [Starts (Begin operator item_lease broker None None) (at_time 10); Resumes 0 true (at_time 11);
   Starts (VerifyExecution item_lease None None) (at_time 12); Resumes 0 true (at_time 13)].
Example begun_without_job :
  map summary (firstn 4 (is_log (happens_ issued unbound))) =
  ["yes"; "asked execution"; "done"; "asked begin"].
Proof. vm_compute. reflexivity. Qed.
(** [finish] called again on a settled lease records it as canceled. *)
Definition lease_state (w : Issuer) : option string :=
  ex_state <$> _leases (is_source w) !! lease_ref item_lease.
Example finished_twice :
  (lease_state (happens_ carried [Starts (Finish operator item_lease) (at_time 10)]),
   lease_state (happens_ carried [Starts (Finish operator item_lease) (at_time 10);
                                  Starts (Finish operator item_lease) (at_time 11)]))
  = (Some "settled", Some "canceled").
Proof. vm_compute. reflexivity. Qed.

#[local] Abbreviation reached_ := (reached (λ _, true) ShippedAction.no_decimal sample_digest64
  ShippedAction.no_float sample_maximum).
#[local] Abbreviation logs_ := (logs (λ _, true) ShippedAction.no_decimal sample_digest64
  ShippedAction.no_float sample_maximum).
Lemma happens_reached l : reached_ (happens_ (new_issuer opened_source) l).
Proof. do 9 eexists. split; [|reflexivity]. exact (eq_refl sample_source). Defined.

Lemma used_once_witness : reached_ (happens_ (new_issuer opened_source) (opening ++ item_way)) ∧
  NoDup (omap begun (is_log (happens_ (new_issuer opened_source) (opening ++ item_way)))).
Proof. split; [apply happens_reached|]. eapply used_once, happens_reached. Defined.

#[local] Abbreviation happen_ := (happen (λ _, true) ShippedAction.no_decimal sample_digest64
  ShippedAction.no_float sample_maximum).
(** The lease is begun and its execution asked for; then comes the fence. *)
Definition begun_issuer : Issuer :=
  happens_ (new_issuer opened_source) (opening ++ firstn 6 item_way).
Definition fencing : happening := Starts (Fence operator) (at_time 8).
Lemma fence_final_witness :
  _issued (is_source begun_issuer) !! sat_ref item_proof = Some item_row ∧
  ∃ new, is_log (happens_ (happen_ begun_issuer fencing) [Resumes 0 true (at_time 9)])
      = new ++ is_log (happen_ begun_issuer fencing) ∧
    ∀ ev, ev ∈ new → ¬ grants (is_source (happens_ (happen_ begun_issuer fencing)
                                 [Resumes 0 true (at_time 9)])) ev (sat_ref item_proof).
Proof.
  split; [vm_compute; reflexivity|].
  destruct (fence_final (λ _, true) ShippedAction.no_decimal sample_digest64
    ShippedAction.no_float sample_maximum begun_issuer operator (at_time 8) (Answered Nothing)
    [Resumes 0 true (at_time 9)]) as (new & E & H).
  - apply happens_reached.
  - vm_compute. reflexivity.
  - exists new. split; [exact E|]. intros ev Hev Hg. destruct (H ev Hev) as [Hn _].
    assert (Hi : _issued (is_source begun_issuer) !! sat_ref item_proof = Some item_row)
      by (vm_compute; reflexivity).
    rewrite (Hn _ Hg) in Hi. discriminate Hi.
Defined.
Lemma execution_authorised_witness :
  logs_ begun_issuer (Resumes 0 true (at_time 9))
    (Resumed (PVerifyExecution item_lease item_proof item_row worker job) true
       (Ok (Affirmed true))) ∧
  ∃ x, _leases (is_source begun_issuer) !! lease_ref item_lease = Some x ∧ ex_job x = job.
Proof.
  assert (H : logs_ begun_issuer (Resumes 0 true (at_time 9))
    (Resumed (PVerifyExecution item_lease item_proof item_row worker job) true
       (Ok (Affirmed true)))) by (vm_compute; reflexivity).
  split; [exact H|].
  destruct (execution_authorised (λ _, true) ShippedAction.no_decimal sample_digest64
    ShippedAction.no_float sample_maximum begun_issuer 0 true (at_time 9) item_lease item_proof
    item_row worker job (happens_reached _) H) as (_ & x & Hx & _ & _ & _ & Hj & _).
  exists x. split; [exact Hx|exact Hj].
Defined.
Lemma within_capacity_witness :
  sample_source = Ok opened_source ∧
  (size (_leases (is_source (happens_ (new_issuer opened_source) (opening ++ item_way)))) ≤ 4)%nat.
Proof.
  split; [reflexivity|].
  exact (proj1 (proj2 (proj2 (within_capacity (λ _, true) ShippedAction.no_decimal sample_digest64
    ShippedAction.no_float sample_maximum _ _ _ _ _ _ _ _ (opening ++ item_way)
    (eq_refl : sample_source = Ok opened_source))))).
Defined.
Ltac at_second t :=
  exists (seconds t); split; [split; vm_compute; first [reflexivity | discriminate]|].
Lemma carried_through_witness :
  in_time (is_source issued) item_row (_last_now (is_source issued)) item_times ∧
  ∃ lease log,
    is_log (happens_ issued (way (length (is_calls issued)) item_times (_operator (is_source issued))
      item_proof lease item_contract broker worker job)) =
    Resumed (PVerifyExecution lease item_proof item_row worker job) true (Ok (Affirmed true)) :: log.
Proof.
  assert (Ht : in_time (is_source issued) item_row (_last_now (is_source issued)) item_times).
  { at_second 3. at_second 4. at_second 5. at_second 6. at_second 7. at_second 8. at_second 9.
    exact I. }
  split; [exact Ht|].
  destruct (carried_through (λ _, true) ShippedAction.no_decimal sample_digest64
    ShippedAction.no_float sample_maximum issued item_times item_proof item_row item_contract
    broker worker job) as (lease & log & H & _).
  - reflexivity.
  - exact Ht.
  - split; vm_compute; reflexivity.
  - vm_compute. reflexivity.
  - vm_compute. reflexivity.
  - vm_compute. reflexivity.
  - vm_compute. reflexivity.
  - vm_compute. reflexivity.
  - vm_compute. discriminate.
  - exists lease, log. exact H.
Defined.

(** ** Enrolment *)

(** The second source of the operator is enrolled after the first one, whose
    lease is begun. *)
Definition second_source : ApprovalSource :=
  ltac:(ok_value (new_source 98%positive operator hex64 hex64 hex64 hex64 4)).
Definition hosts : Hosts :=
  {| ho_maximum_digest := hex64; ho_source _ := at_time 9;
     ho_key r := if bool_decide (r = 99%positive) then "first" else "second";
     ho_barrier _ := true |}.
Definition one_enrolled : World :=
  {| wo_authority :=
       add_source "first" 99%positive
         ltac:(ok_value (mk_ApprovalAuthority hex64 operator (en_uuid (at_time 0)) 2));
     wo_sources := {[ 99%positive := is_source begun_issuer; 98%positive := second_source ]} |}.
#[local] Abbreviation enroll_ := (enroll sample_digest64 ShippedAction.no_float hosts).
Definition both_enrolled : World := fst (enroll_ 98%positive operator one_enrolled).
Example enrolled_states :
  (ex_state <$> (_leases (is_source begun_issuer) !! lease_ref item_lease),
   s ← wo_sources both_enrolled !! 99%positive;
   ex_state <$> _leases s !! lease_ref item_lease) = (Some "forwarding", Some "fenced").
Proof. vm_compute. reflexivity. Qed.
Example enrolled_twice :
  snd (enroll_ 98%positive operator both_enrolled) =
  Err (ValueError "approval source maximum, identity or capacity mismatch").
Proof. vm_compute. reflexivity. Qed.
Example accepted_proof :
  snd (accepts sample_digest64 ShippedAction.no_float hosts item_proof one_enrolled) = Ok true.
Proof. vm_compute. reflexivity. Qed.

Lemma one_enrolled_enrolled : enrolled hosts one_enrolled.
Proof.
  split.
  - intros key r [= -> ->]%list_elem_of_singleton. split; [reflexivity|].
    exists (is_source begun_issuer). split; vm_compute; reflexivity.
  - apply NoDup_singleton.
  - cbn. lia.
Qed.
Lemma enroll_fences_all_witness :
  enrolled hosts one_enrolled ∧ enrolled hosts both_enrolled ∧
  au_generation (wo_authority both_enrolled) = 2.
Proof.
  split; [exact one_enrolled_enrolled|].
  pose proof (enroll_fences_all sample_digest64 ShippedAction.no_float hosts 98%positive operator
    one_enrolled one_enrolled_enrolled) as H.
  assert (E : snd (enroll_ 98%positive operator one_enrolled) = Ok tt) by (vm_compute; reflexivity).
  unfold both_enrolled. destruct (enroll_ 98%positive operator one_enrolled) as [w' [u|e]];
    [|discriminate E]. destruct H as (He & _ & Hg & _). split; [exact He|exact Hg].
Defined.
