(* ===== verification/Session.v ===== *)
(** * Sessions at an integration's boundary ([ordin/session.py])

    One session keeps a window of reviewed actions, the evidence of the actions
    that ran and the actions that were denied; a store keeps the snapshots of
    sessions for separate processes.  A call of the gate is an argument of the
    call that makes it, through the interface [SessionGate]; the gate of
    [ActionGate] implements it.  Runtime evidence is not enabled: the part of a
    session that [bind_runtime_source] starts is outside the model, and the
    table [runtime_sessions] is empty. *)
From stdpp Require Import base list strings gmap sorting.
From Stdlib Require Import Bool Ascii ZArith QArith Lia.
From S2P Require Import Prelude State PyStr Json JsonText JsonParse Policy Context Catalog Risk Temporal Review.
From S2P Require Import Execution Provenance ActionModel RequestReaders ToolCalls Action ActionPolicy.
From S2P Require Import McpContracts ActionGate JsonSchema Approval.
#[local] Open Scope py_scope.
#[local] Open Scope nat_scope.

Definition SESSION_SCHEMA_VERSION : string := "ordin.integration_session.v1".
Definition MAX_SESSION_BYTES : Z := (2 ^ 20)%Z.
#[global] Arguments MAX_SESSION_BYTES : simpl never.
Definition MAX_SESSIONS : nat := 64.
Definition MAX_SESSION_DEPTH : nat := 32.
Definition __version__ : string := "0.4.0.dev0".

(** ** The schema of a snapshot ([integration-session.v1.schema.json]) *)

(** [{"type": "object"}] with a bound on the properties, and nothing on them. *)
Definition free_object (maximum : nat) : schema :=
  {| sc_type := Some ["object"]; sc_const := None; sc_enum := None; sc_min_length := None;
     sc_max_length := None; sc_pattern := None; sc_minimum := None; sc_maximum := None;
     sc_unique_items := false; sc_min_items := None; sc_max_items := None; sc_items := None;
     sc_max_properties := Some maximum; sc_required := []; sc_properties := [];
     sc_additional := true; sc_additional_schema := None; sc_any_of := None;
     sc_one_of := None |}.
Definition unique_array (item : schema) (maximum : nat) : schema :=
  {| sc_type := Some ["array"]; sc_const := None; sc_enum := None; sc_min_length := None;
     sc_max_length := None; sc_pattern := None; sc_minimum := None; sc_maximum := None;
     sc_unique_items := true; sc_min_items := None; sc_max_items := Some maximum;
     sc_items := Some item; sc_max_properties := None; sc_required := []; sc_properties := [];
     sc_additional := true; sc_additional_schema := None; sc_any_of := None;
     sc_one_of := None |}.
Definition SNAPSHOT_DIGEST : schema :=
  scalar_schema (Some ["string"]) None None None None (Some (digest_pattern "")) None None.
Definition SNAPSHOT_NAME (maximum : nat) : schema :=
  text_of maximum false
    (Some (word_pattern lower_alpha (λ c, lower_alpha c || digit c || one_of "_.-" c))).
Definition SNAPSHOT_IDENTITY : schema :=
  obj [("runtime", text_of 4096 false None); ("session_id_sha256", SNAPSHOT_DIGEST);
       ("server", text_of 4096 true None)].
Definition nullable (type : string) (lo : option Z) : schema := typed [type; "null"] lo None.
Definition SNAPSHOT_CONTEXT : schema :=
  {| sc_type := Some ["object"; "null"]; sc_const := None; sc_enum := None;
     sc_min_length := None; sc_max_length := None; sc_pattern := None; sc_minimum := None;
     sc_maximum := None; sc_unique_items := false; sc_min_items := None; sc_max_items := None;
     sc_items := None; sc_max_properties := None; sc_required := [];
     sc_properties :=
       [("cwd", nullable "string" None); ("shell", nullable "string" None);
        ("euid", nullable "integer" (Some 0%Z)); ("interactive", nullable "boolean" None);
        ("repo_root", nullable "string" None); ("agent", nullable "string" None)];
     sc_additional := false; sc_additional_schema := None; sc_any_of := None;
     sc_one_of := None |}.
Definition SNAPSHOT_ACTION : schema :=
  obj [("schema_version", constant None "ordin.action_envelope.v1");
       ("action_id", text_of 128 true None); ("kind", SNAPSHOT_NAME 64);
       ("operation", SNAPSHOT_NAME 128); ("parameters", free_object 128);
       ("intent", nullable "string" None); ("context", SNAPSHOT_CONTEXT)].
Definition SNAPSHOT_RESOURCE : schema :=
  obj [("type", SNAPSHOT_NAME 64); ("value", text_of (Nat.pow 2 15) false None)].
Definition SNAPSHOT_OBSERVATION : schema :=
  obj [("schema_version", constant None "ordin.action_observation.v1");
       ("action_id", text_of 128 false None); ("exit_code", nullable "integer" None);
       ("effects", array_of (SNAPSHOT_NAME 256) 128);
       ("resources", array_of SNAPSHOT_RESOURCE 128); ("metadata", free_object 128)].
Definition INTEGRATION_SESSION : schema :=
  obj [("schema_version", constant None "ordin.integration_session.v1");
       ("identity", SNAPSHOT_IDENTITY); ("configuration_digest", SNAPSHOT_DIGEST);
       ("sequence", typed ["integer"] (Some 0%Z) None);
       ("denied_action_ids", unique_array (text_of 128 false None) 32);
       ("history", obj [("schema_version", constant None "ordin.action_history.v1");
                        ("actions", array_of SNAPSHOT_ACTION 32)]);
       ("observations",
          obj [("schema_version", constant None "ordin.observation_history.v1");
               ("observations", array_of SNAPSHOT_OBSERVATION 32)])].

(** The table [sessions] of the store: a key and the text of a snapshot. *)
Abbreviation Sessions := (gmap string string).

(** ** Text of the state *)

Section session.
Context (sha256 : string → string) (float_repr : Q → string) (float_of : string → option Q).

Definition _json (payload : json) : string := json_dumps float_repr compact_layout payload.
Definition _digest (payload : json) : string := sha256 (utf8 (_json payload)).
Definition byte_count (text : string) : Z := Z.of_nat (String.length (utf8 text)).

(** The loop over [pending]: no object or array is more than 32 levels below. *)
Fixpoint within_depth (depth : nat) (item : json) : bool :=
  match item with
  | JObj m => (depth <=? MAX_SESSION_DEPTH) && forallb (λ kv, within_depth (S depth) (snd kv)) m
  | JArr l => (depth <=? MAX_SESSION_DEPTH) && forallb (within_depth (S depth)) l
  | _ => true
  end.
Definition _load (text : string) : res json :=
  _ ← guard_or (byte_count text <=? MAX_SESSION_BYTES)%Z
        (ValueError "session state exceeds its byte limit");
  payload ← match loads float_of text with
            | Some payload => Ok payload
            | None => Err (ValueError "invalid session state JSON")
            end;
  _ ← guard_or (is_mapping payload) (ValueError "session state must be an object");
  _ ← guard_or (within_depth 0 payload) (ValueError "session state nesting exceeds its limit");
  Ok payload.
Definition _bounded (payload : json) : res unit :=
  guard_or (byte_count (_json payload) <=? MAX_SESSION_BYTES)%Z
    (ValueError "session state exceeds its byte limit").

(** ** Identities *)

Record SessionIdentity := {
  si_runtime : string;
  si_session_id : string;
  si_server : option string }.
#[export] Instance SessionIdentity_eq_dec : EqDecision SessionIdentity.
Proof. solve_decision. Defined.

Definition bounded_name (value : string) : bool :=
  truthy (strip value) && (String.length value <=? 4096).
Definition mk_SessionIdentity (i : SessionIdentity) : res SessionIdentity :=
  _ ← guard_or (bounded_name (si_runtime i) && bounded_name (si_session_id i))
        (ValueError "session runtime and identity must be bounded non-empty text");
  _ ← guard_or (match si_server i with Some server => bounded_name server | None => true end)
        (ValueError "session server must be bounded non-empty text");
  Ok i.
Definition SessionIdentity_as_dict (i : SessionIdentity) : json :=
  JObj [("runtime", JStr (si_runtime i));
        ("session_id_sha256", JStr (sha256 (utf8 (si_session_id i))));
        ("server", jstr (si_server i))].
Definition identity_key (i : SessionIdentity) : string := _digest (SessionIdentity_as_dict i).

(** ** The configuration of a gate *)

(** What a gate composed by the host adds; a namespace that is a list or an object
    cannot be looked up. *)
Definition check_extension (extension : json) : res unit :=
  let invalid := ValueError "invalid host gate session binding" in
  match extension with
  | JObj m =>
      _ ← guard_or (keys_equal m ["namespace"; "configuration_digest"; "source_digest"]) invalid;
      _ ← match field m "namespace" with
          | JStr s => guard_or (mem s ["ordin.assurance.adapter.v1"; "ordin.swarm.gateway.v1"]) invalid
          | JArr _ | JObj _ => Err (TypeError "unhashable type")
          | _ => Err invalid
          end;
      match field m "configuration_digest", field m "source_digest" with
      | JStr c, JStr s => guard_or (hex_digest c && hex_digest s) invalid
      | _, _ => Err invalid
      end
  | _ => Err invalid
  end.

Definition rest_as_dict (methods : list string) : json :=
  JObj [("schema_version", JStr "ordin.assurance_rest_semantics.v1");
        ("methods", JArr (map JStr methods))].

(** [configuration_digest(gate)] of a host without runtime requirements; the
    binding of the approval source and the binding of an extended gate are
    arguments. *)
Definition configuration_digest (default_policy : TemporalPolicySet) (h : Host)
    (approval_source : option string) (extension : option json) : res string :=
  let optional (key : string) (value : option json) :=
    match value with Some v => [(key, v)] | None => [] end in
  _ ← match extension with Some e => check_extension e | None => Ok tt end;
  Ok (_digest (JObj
    ([("ordin_version", JStr __version__);
      ("fail_on", JStr (decision_str (threshold_decision (fail_on (or_policy (host h))))));
      ("context", opt_json ExecutionContext_as_dict (or_context (host h)));
      ("policy", opt_json (λ p, JObj (ActionPolicySet_as_dict (cp_policy p)))
                   (host_action_policy h));
      ("temporal", JObj (TemporalPolicySet_as_dict
                           (default default_policy (host_temporal_policy h))));
      ("semantics", opt_json (λ c, JObj (ToolSemanticsRegistry_as_dict (cs_registry c)))
                      (host_tool_semantics h))]
     ++ optional "rest_semantics" (rest_as_dict <$> host_rest_semantics h)
     ++ optional "approval_source" (JStr <$> approval_source)
     ++ optional "gate_extension" extension))).

(** What a session uses of a gate.  The answers can differ from call to call: the
    gate is an argument of each call. *)
Class SessionGate (D : Type) := {
  gate_configuration : res string;
  gate_evaluate :
    ActionEnvelope → ActionHistory → ObservationHistory → option MCPContractCheck → res D;
  decision_denied : D → bool;
  decision_requires_approval : D → bool }.

(** ** Sessions *)

Record IntegrationSession := {
  identity : SessionIdentity;
  config_digest : string;
  _actions : list ActionEnvelope;
  _observations : list (string * ActionObservation);
  _denied : gset string;
  _sequence : Z;
  _closed : bool }.

Definition with_history (actions : list ActionEnvelope)
    (obs : list (string * ActionObservation)) (denied : gset string) (sequence : Z)
    (s : IntegrationSession) : IntegrationSession :=
  {| identity := identity s; config_digest := config_digest s; _actions := actions;
     _observations := obs; _denied := denied; _sequence := sequence; _closed := _closed s |}.
Definition close (s : IntegrationSession) : IntegrationSession :=
  {| identity := identity s; config_digest := config_digest s; _actions := _actions s;
     _observations := _observations s; _denied := _denied s; _sequence := _sequence s;
     _closed := true |}.

Definition require_identity (i : SessionIdentity) (s : IntegrationSession) : res unit :=
  _ ← guard_or (bool_decide (i = identity s)) (ValueError "integration session identity mismatch");
  guard_or (negb (_closed s)) (ValueError "integration session has ended").

Definition _would_evict (action_ids : list string) (s : IntegrationSession) : bool :=
  if length (_actions s) <? MAX_ACTION_HISTORY then false
  else match head (_actions s) ≫= ac_action_id with
       | Some oldest => mem oldest action_ids
       | None => false
       end.

Definition has_id (id : string) (a : ActionEnvelope) : bool := bool_decide (ac_action_id a = Some id).
Definition retained_ids (actions : list ActionEnvelope) : list string := omap ac_action_id actions.

Definition _snapshot (actions : list ActionEnvelope) (obs : list (string * ActionObservation))
    (denied : gset string) (sequence : Z) (s : IntegrationSession) : res json :=
  history ← mk_ActionHistory actions;
  evidence ← mk_ObservationHistory (map snd obs);
  Ok (JObj [("schema_version", JStr SESSION_SCHEMA_VERSION);
            ("identity", SessionIdentity_as_dict (identity s));
            ("configuration_digest", JStr (config_digest s));
            ("sequence", JInt sequence);
            ("history", ActionHistory_as_dict history);
            ("observations", ObservationHistory_as_dict evidence);
            ("denied_action_ids", JArr (map JStr (merge_sort str_le (elements denied))))]).
Definition snapshot : ST IntegrationSession json :=
  _ ← asks (λ s, require_identity (identity s) s);
  asks (λ s, _snapshot (_actions s) (_observations s) (_denied s) (_sequence s) s).

Section gate.
Context {D : Type}.

Definition new_session (i : SessionIdentity) (gate : SessionGate D) : res IntegrationSession :=
  d ← gate_configuration;
  Ok {| identity := i; config_digest := d; _actions := []; _observations := []; _denied := ∅;
        _sequence := 0; _closed := false |}.

(** A copy through the text. *)
Definition copy_action (a : ActionEnvelope) : res ActionEnvelope :=
  payload ← _load (_json (ActionEnvelope_as_dict a)); ActionEnvelope_from_dict payload.
Definition copy_observation (o : ActionObservation) : res ActionObservation :=
  payload ← _load (_json (ActionObservation_as_dict o)); ActionObservation_from_dict payload.

Definition _review_inputs (action : ActionEnvelope) (s : IntegrationSession)
  : res (ActionEnvelope * ActionHistory * ObservationHistory) :=
  _ ← require_identity (identity s) s;
  _ ← guard_or (match ac_action_id action with Some id => truthy id | None => false end)
        (ValueError "session actions require an action_id");
  _ ← guard_or (negb (existsb (λ prior, bool_decide (ac_action_id prior = ac_action_id action))
                        (_actions s)))
        (ValueError "duplicate session action_id; use a distinct ID for each proposal");
  proposed ← copy_action action;
  history ← mk_ActionHistory (_actions s);
  evidence ← mk_ObservationHistory (map snd (_observations s));
  Ok (proposed, history, evidence).

(** [items[-32:]]. *)
Definition last_actions (l : list ActionEnvelope) : list ActionEnvelope :=
  drop (length l - MAX_ACTION_HISTORY) l.

Definition evaluate (gate : SessionGate D) (action : ActionEnvelope)
    (contract_check : option MCPContractCheck) (approval_supported : bool)
  : ST IntegrationSession D :=
  inputs ← asks (_review_inputs action);
  let '(proposed, history, evidence) := inputs in
  action_id ← lifts (match ac_action_id action with
                     | Some id => Ok id
                     | None => Err (ValueError "session actions require an action_id")
                     end);
  decision ← lifts (gate_evaluate proposed history evidence contract_check);
  s ← gets (λ s, s);
  let actions := last_actions (_actions s ++ [proposed]) in
  let ids := retained_ids actions in
  let obs := List.filter (λ kv, mem (fst kv) ids) (_observations s) in
  let kept := _denied s ∩ list_to_set ids in
  let denied := if decision_denied decision
                   || (decision_requires_approval decision && negb approval_supported)
                then {[ action_id ]} ∪ kept else kept in
  payload ← lifts (_snapshot actions obs denied (_sequence s + 1) s);
  _ ← lifts (_bounded payload);
  final ← lifts (ActionEnvelope_from_dict (ActionEnvelope_as_dict proposed));
  _ ← assigns (λ s, with_history (removelast actions ++ [final]) obs denied (_sequence s + 1) s);
  mret decision.

(** The sink runs before the evidence is retained. *)
Definition observe (observation : ActionObservation)
    (before_commit : option (ActionObservation → res unit)) : ST IntegrationSession unit :=
  _ ← asks (λ s, require_identity (identity s) s);
  _ ← demands (λ s, existsb (has_id (ob_action_id observation)) (_actions s))
        (ValueError "observation does not match a retained session action");
  _ ← demands (λ s, negb (bool_decide (ob_action_id observation ∈ _denied s)))
        (ValueError "cannot attach execution evidence to a denied action");
  _ ← demands (λ s, negb (mem (ob_action_id observation) (map fst (_observations s))))
        (ValueError "duplicate observation for session action");
  copied ← lifts (copy_observation observation);
  s ← gets (λ s, s);
  let proposed := dict_set (ob_action_id observation) copied (_observations s) in
  payload ← lifts (_snapshot (_actions s) proposed (_denied s) (_sequence s) s);
  _ ← lifts (_bounded payload);
  _ ← lifts (match before_commit with
             | Some sink => o ← ActionObservation_from_dict (ActionObservation_as_dict copied); sink o
             | None => Ok tt
             end);
  assigns (λ s, with_history (_actions s) proposed (_denied s) (_sequence s) s).

Definition reset : ST IntegrationSession unit :=
  _ ← asks (λ s, require_identity (identity s) s);
  assigns (λ s, with_history [] [] ∅ (_sequence s) s).
Definition end_session : ST IntegrationSession unit :=
  _ ← reset; assigns close.

(** The items of an array that the validation has required. *)
Definition array_items (j : json) : list json := match j with JArr l => l | _ => [] end.
(** [parsed[key]] after the validation has required the member. *)
Definition restore (i : SessionIdentity) (gate : SessionGate D) (payload : json)
  : res IntegrationSession :=
  parsed ← _load (_json payload);
  _ ← guard_or (accepts INTEGRATION_SESSION parsed) (ValueError "invalid integration session schema");
  session ← new_session i gate;
  _ ← guard_or (json_equal (jget parsed "identity") (SessionIdentity_as_dict i))
        (ValueError "stored session identity mismatch");
  _ ← guard_or (json_equal (jget parsed "configuration_digest") (JStr (config_digest session)))
        (ValueError "stored session policy/semantics/version mismatch; explicit reset required");
  history ← ActionHistory_from_dict (jget parsed "history");
  evidence ← ObservationHistory_from_dict (jget parsed "observations");
  let ids := map ac_action_id (hi_actions history) in
  _ ← guard_or (negb (bool_decide (None ∈ ids)) && bool_decide (NoDup ids))
        (ValueError "stored session action IDs must be present and unique");
  let listed := only_strings (array_items (jget parsed "denied_action_ids")) in
  _ ← guard_or (bool_decide (NoDup listed) && forallb (λ d, bool_decide (Some d ∈ ids)) listed)
        (ValueError "invalid denied session action IDs");
  _ ← guard_or (forallb (λ o, bool_decide (Some (ob_action_id o) ∈ ids)
                              && negb (mem (ob_action_id o) listed)) (observations evidence))
        (ValueError "stored observation linkage mismatch");
  sequence ← as_int (jget parsed "sequence") "session sequence";
  _ ← guard_or (Z.of_nat (length ids) <=? sequence)%Z (ValueError "invalid session sequence");
  Ok (with_history (hi_actions history) (by_action_id evidence) (list_to_set listed) sequence session).

(** ** The store *)

Definition open_session (i : SessionIdentity) (gate : SessionGate D) (create reset : bool)
    (table : Sessions) : res IntegrationSession :=
  match table !! identity_key i with
  | None =>
      _ ← guard_or create
            (ValueError "session state missing; run the session-start lifecycle hook");
      _ ← guard_or (size table <? MAX_SESSIONS)
            (ValueError "session database is full; end an existing session");
      new_session i gate
  | Some row => if reset then new_session i gate
                else payload ← _load row; restore i gate payload
  end.
(** The body of the [with] statement that holds the transaction; one that raises is
    rolled back. *)
Definition transaction {A} (i : SessionIdentity) (gate : SessionGate D) (create reset : bool)
    (body : ST IntegrationSession A) : ST Sessions A := λ table,
  match open_session i gate create reset table with
  | Err e => (table, Err e)
  | Ok session =>
      match body session with
      | (_, Err e) => (table, Err e)
      | (session', Ok x) =>
          if _closed session' then (delete (identity_key i) table, Ok x)
          else match snapshot session' with
               | (_, Ok payload) => (<[identity_key i := _json payload]> table, Ok x)
               | (_, Err e) => (table, Err e)
               end
      end
  end.
End gate.
End session.

(** ** The gate of the actions *)

Section host_gate.
Context {score : Type} (close_to : score → score → bool).
Context (search : string → res (list (@SearchResult score))).
Context (default_policy : TemporalPolicySet).
Context (sha256 : string → string) (float_repr : Q → string) (digest : json → string).
Context `{RequestReaders}.
Context (st : Store) (reuse_start : bool) (reuse keep : nat → bool).
Context {Proof : Type} (accepts : Proof → bool) (fulfilled : Proof → ActionReview → bool).
Context (h : Host) (approval_source : option string) (extension : option json).

(** A session presents no approval to its gate. *)
Definition host_gate : SessionGate (ActionDecision (Proof := Proof)) :=
  {| gate_configuration :=
       configuration_digest sha256 float_repr default_policy h approval_source extension;
     gate_evaluate action history evidence check :=
       evaluate_action close_to search default_policy float_repr digest st reuse_start reuse keep
         accepts h action (Some history) (Some evidence) check None;
     decision_denied := action_denied;
     decision_requires_approval := action_requires_approval fulfilled |}.
End host_gate.
