(* ===== verification/SessionFacts.v ===== *)
(** * What a session retains reads back ([ordin/session.py])

    The text of a value that the validation accepted is read back as the value
    with its members in order; an action or an observation that was copied
    through its text is its own copy from then on. *)
From stdpp Require Import base list strings gmap sorting.
From Stdlib Require Import Bool Ascii ZArith QArith Lia.
From S2P Require Import Prelude State PyStr Json JsonText JsonParse Policy Context Catalog Risk Temporal Review.
From S2P Require Import Execution Provenance ActionModel RequestReaders ToolCalls Action ActionPolicy.
From S2P Require Import McpContracts ActionGate JsonSchema Approval Session.
#[local] Open Scope py_scope.
#[local] Open Scope nat_scope.

(** ** Bounds on parameters and metadata *)

(** What the two validations check, without the paths of their messages. *)
Fixpoint fits (depth : nat) (value : json) : bool :=
  (depth <=? 8) &&
  match value with
  | JStr s => String.length s <=? Nat.pow 2 15
  | JArr l => (length l <=? 128) && forallb (fits (S depth)) l
  | JObj m => (length m <=? 128)
              && forallb (λ kv, truthy (fst kv) && (String.length (fst kv) <=? 128)
                                && fits (S depth) (snd kv)) m
  | _ => true
  end.

Lemma then_ok {A} (m : res unit) (n : res A) x : (_ ← m; n) = Ok x ↔ m = Ok tt ∧ n = Ok x.
Proof. destruct m as [[]|e]; cbn; naive_solver. Qed.
Lemma if_err {A} (b : bool) e (m : res A) x : (if b then Err e else m) = Ok x ↔ b = false ∧ m = Ok x.
Proof. destruct b; naive_solver. Qed.
Lemma deep_fits n depth : (n <? depth) = false ↔ (depth <=? n) = true.
Proof. rewrite Nat.ltb_ge, Nat.leb_le. done. Qed.

Lemma validate_json_value_fits value : ∀ path depth,
  _validate_json_value path depth value = Ok tt ↔ fits depth value = true.
Proof.
  induction value as [v Ha Ho|l IH|m IH] using json_induction; intros path depth.
  - destruct v as [| | | | |l|m]; cbn [_validate_json_value fits]; rewrite if_err, deep_fits, andb_true_iff;
      try rewrite guard_or_ok; try tauto; [by destruct (Ha l)|by destruct (Ho m)].
  - cbn [_validate_json_value fits]. rewrite if_err, deep_fits, then_ok, guard_or_ok, !andb_true_iff.
    do 2 (apply and_iff_compat_l). generalize 0.
    induction IH as [|x l Hx _ IHl]; intros n; [done|]. cbn [forallb].
    rewrite then_ok, andb_true_iff, Hx, IHl. done.
  - cbn [_validate_json_value fits]. rewrite if_err, deep_fits, then_ok, guard_or_ok, !andb_true_iff.
    do 2 (apply and_iff_compat_l).
    induction IH as [|[k x] m Hx _ IHm]; [done|]. cbn [forallb fst snd] in *.
    rewrite !then_ok, !guard_or_ok, !andb_true_iff, Hx, IHm. tauto.
Qed.
Lemma validate_json_fits value : ∀ path depth,
  _validate_json path depth value = Ok tt ↔ fits depth value = true.
Proof.
  induction value as [v Ha Ho|l IH|m IH] using json_induction; intros path depth.
  - destruct v as [| | | | |l|m]; cbn [_validate_json fits]; rewrite if_err, deep_fits, andb_true_iff;
      try rewrite guard_or_ok; try tauto; [by destruct (Ha l)|by destruct (Ho m)].
  - cbn [_validate_json fits]. rewrite if_err, deep_fits, then_ok, guard_or_ok, !andb_true_iff.
    do 2 (apply and_iff_compat_l). generalize 0.
    induction IH as [|x l Hx _ IHl]; intros n; [done|]. cbn [forallb].
    rewrite then_ok, andb_true_iff, Hx, IHl. done.
  - cbn [_validate_json fits]. rewrite if_err, deep_fits, then_ok, guard_or_ok, !andb_true_iff.
    do 2 (apply and_iff_compat_l).
    induction IH as [|[k x] m Hx _ IHm]; [done|]. cbn [forallb fst snd] in *.
    rewrite !then_ok, !guard_or_ok, !andb_true_iff, Hx, IHm. tauto.
Qed.

(** The copies keep the value. *)
Lemma clone_id value : clone value = value.
Proof.
  induction value as [v Ha Ho|l IH|m IH] using json_induction.
  - destruct v as [| | | | |l|m]; try done; [by destruct (Ha l)|by destruct (Ho m)].
  - cbn [clone]. f_equal. induction IH as [|x l Hx _ IHl]; cbn; [done|]. by rewrite Hx, IHl.
  - cbn [clone]. f_equal. induction IH as [|[k x] m Hx _ IHm]; cbn in *; [done|]. by rewrite Hx, IHm.
Qed.
Lemma copy_json_id value : _copy_json value = value.
Proof.
  induction value as [v Ha Ho|l IH|m IH] using json_induction.
  - destruct v as [| | | | |l|m]; try done; [by destruct (Ha l)|by destruct (Ho m)].
  - cbn [_copy_json]. f_equal. induction IH as [|x l Hx _ IHl]; cbn; [done|]. by rewrite Hx, IHl.
  - cbn [_copy_json]. f_equal. induction IH as [|[k x] m Hx _ IHm]; cbn in *; [done|]. by rewrite Hx, IHm.
Qed.
Lemma copy_mapping_id m : _copy_json_mapping m = m.
Proof. pose proof (clone_id (JObj m)) as H. cbn [clone] in H. by injection H. Qed.

Lemma forallb_perm {A} (p : A → bool) l l' : l ≡ₚ l' → forallb p l = forallb p l'.
Proof.
  induction 1 as [|x l l' _ IH|x y l|l1 l2 l3 _ IH1 _ IH2]; cbn; [done| | |].
  - by rewrite IH.
  - by destruct (p x), (p y).
  - by rewrite IH1.
Qed.
Lemma forallb_map_eq {A B} (p : B → bool) (q : A → bool) (f : A → B) l :
  (∀ x, x ∈ l → p (f x) = q x) → forallb p (map f l) = forallb q l.
Proof.
  induction l as [|x l IH]; intros H; cbn; [done|].
  rewrite (H x) by left. rewrite IH; [done|]. intros y Hy. apply H. by right.
Qed.
(** The sorted members of an object. *)
Definition sorted_members (m : list (string * json)) : list (string * json) :=
  merge_sort key_le (map (λ kv, (fst kv, sort_keys (snd kv))) m).
Lemma sorted_members_perm m : sorted_members m ≡ₚ map (λ kv, (fst kv, sort_keys (snd kv))) m.
Proof. apply merge_sort_Permutation. Qed.
Lemma sorted_members_length m : length (sorted_members m) = length m.
Proof. rewrite sorted_members_perm. apply length_map. Qed.

Lemma fits_sort value : ∀ depth, fits depth (sort_keys value) = fits depth value.
Proof.
  induction value as [v Ha Ho|l IH|m IH] using json_induction; intros depth.
  - destruct v as [| | | | |l|m]; try done; [by destruct (Ha l)|by destruct (Ho m)].
  - cbn [sort_keys fits]. rewrite length_map. do 2 f_equal. apply forallb_map_eq.
    intros x Hx. rewrite Forall_forall in IH. by apply IH.
  - cbn [sort_keys fits]. change (merge_sort _ _) with (sorted_members m).
    rewrite sorted_members_length. do 2 f_equal.
    rewrite (forallb_perm _ _ _ (sorted_members_perm m)). apply forallb_map_eq.
    intros [k x] Hx. rewrite Forall_forall in IH. cbn. by rewrite (IH _ Hx).
Qed.
Lemma within_depth_sort value : ∀ depth, within_depth depth (sort_keys value) = within_depth depth value.
Proof.
  induction value as [v Ha Ho|l IH|m IH] using json_induction; intros depth.
  - destruct v as [| | | | |l|m]; try done; [by destruct (Ha l)|by destruct (Ho m)].
  - cbn [sort_keys within_depth]. f_equal. apply forallb_map_eq.
    intros x Hx. rewrite Forall_forall in IH. by apply IH.
  - cbn [sort_keys within_depth]. change (merge_sort _ _) with (sorted_members m).
    f_equal. rewrite (forallb_perm _ _ _ (sorted_members_perm m)). apply forallb_map_eq.
    intros [k x] Hx. rewrite Forall_forall in IH. cbn. by rewrite (IH _ Hx).
Qed.
(** Bounded parameters nest far less than a snapshot may. *)
Lemma fits_within value : ∀ depth d, fits depth value = true → d ≤ depth + 24 →
  within_depth d value = true.
Proof.
  induction value as [v Ha Ho|l IH|m IH] using json_induction; intros depth d Hf Hd.
  - destruct v as [| | | | |l|m]; try done; [by destruct (Ha l)|by destruct (Ho m)].
  - cbn [fits within_depth] in *. rewrite !andb_true_iff, Nat.leb_le in *.
    destruct Hf as (H8 & _ & Hl). split; [unfold MAX_SESSION_DEPTH; lia|].
    rewrite forallb_forall in *. intros x Hx. rewrite Forall_forall in IH.
    apply (IH x ltac:(by apply list_elem_of_In) (S depth)); [by apply Hl|lia].
  - cbn [fits within_depth] in *. rewrite !andb_true_iff, Nat.leb_le in *.
    destruct Hf as (H8 & _ & Hl). split; [unfold MAX_SESSION_DEPTH; lia|].
    rewrite forallb_forall in *. intros x Hx. rewrite Forall_forall in IH.
    apply (IH x ltac:(by apply list_elem_of_In) (S depth)); [|lia].
    specialize (Hl x Hx). rewrite !andb_true_iff in Hl. by destruct Hl as (_ & ?).
Qed.

(** ** Actions *)

Definition sort_action (a : ActionEnvelope) : ActionEnvelope :=
  {| ac_kind := ac_kind a; ac_operation := ac_operation a;
     ac_parameters := sorted_members (ac_parameters a); ac_intent := ac_intent a;
     ac_context := ac_context a; ac_action_id := ac_action_id a |}.
(** An envelope that its constructor made, with a context that its own made. *)
Definition action_made (a : ActionEnvelope) : Prop :=
  mk_ActionEnvelope a = Ok a ∧
  match ac_context a with Some c => context_valid c | None => True end.

Definition name_ok (value : string) (maximum : nat) (pattern : string → bool) : Prop :=
  truthy value = true ∧ String.length value ≤ maximum ∧ pattern value = true.
Lemma validate_identifier_ok value name maximum pattern w :
  _validate_identifier value name maximum pattern = Ok w ↔ w = value ∧ name_ok value maximum pattern.
Proof.
  unfold _validate_identifier, name_ok. rewrite !then_ok, !guard_or_ok, Nat.leb_le. naive_solver.
Qed.
Definition id_ok (id : option string) : Prop :=
  ∀ i, id = Some i → truthy (strip i) = true ∧ String.length i ≤ 128.

Lemma bind_ok_iff {A B} (m : res A) (f : A → res B) y :
  (x ← m; f x) = Ok y ↔ ∃ x, m = Ok x ∧ f x = Ok y.
Proof. destruct m; cbn; naive_solver. Qed.
Lemma mk_action_fields a a' : mk_ActionEnvelope a = Ok a' ↔
  a' = a ∧ name_ok (ac_kind a) MAX_ACTION_KIND_LENGTH ACTION_KIND_PATTERN ∧
  name_ok (ac_operation a) MAX_OPERATION_LENGTH ACTION_KIND_PATTERN ∧
  id_ok (ac_action_id a) ∧ fits 0 (JObj (ac_parameters a)) = true.
Proof.
  unfold mk_ActionEnvelope. rewrite copy_mapping_id.
  assert ({| ac_kind := ac_kind a; ac_operation := ac_operation a;
             ac_parameters := ac_parameters a; ac_intent := ac_intent a;
             ac_context := ac_context a; ac_action_id := ac_action_id a |} = a) as -> by by destruct a.
  rewrite bind_ok_iff. setoid_rewrite validate_identifier_ok.
  setoid_rewrite bind_ok_iff. setoid_rewrite validate_identifier_ok.
  setoid_rewrite then_ok. setoid_rewrite then_ok. setoid_rewrite (validate_json_value_fits _ "parameters").
  assert ((match ac_action_id a with
           | Some action_id =>
               _ ← guard_or (truthy (strip action_id))
                     (ValueError "action_id must be non-empty text or null");
               guard_or (String.length action_id <=? MAX_ACTION_ID_LENGTH)
                 (ValueError "action_id must be at most 128 characters")
           | None => Ok tt
           end) = Ok tt ↔ id_ok (ac_action_id a)) as Hid.
  { unfold id_ok. destruct (ac_action_id a) as [id|]; [|naive_solver].
    rewrite then_ok, !guard_or_ok, Nat.leb_le. unfold MAX_ACTION_ID_LENGTH. naive_solver. }
  setoid_rewrite Hid. naive_solver.
Qed.

Lemma post_init_same c d : ExecutionContext_post_init c = Ok d → d = c.
Proof.
  unfold ExecutionContext_post_init. destruct (euid c); [intros [_ H]%if_err|intros H]; congruence.
Qed.
Lemma context_made payload c : ExecutionContext_from_dict payload = Ok (Some c) → context_valid c.
Proof.
  unfold ExecutionContext_from_dict. intros H. destruct payload; try discriminate;
    apply if_err in H as [_ H]; repeat apply bind_ok_iff in H as (? & ? & H); injection H as <-;
    match goal with H : ExecutionContext_post_init ?c = Ok ?d |- _ =>
      pose proof (post_init_same _ _ H) as ->; exact H end.
Qed.
Lemma from_dict_made payload a : ActionEnvelope_from_dict payload = Ok a → action_made a.
Proof.
  unfold ActionEnvelope_from_dict. intros H. apply if_err in H as [_ H].
  apply then_ok in H as [_ H]. apply then_ok in H as [_ H].
  apply bind_ok_iff in H as (kind & _ & H). apply bind_ok_iff in H as (operation & _ & H).
  destruct (jget_default payload "parameters" _) as [| | | | | |m]; try done.
  apply bind_ok_iff in H as (intent & _ & H). apply bind_ok_iff in H as (id & _ & H).
  apply bind_ok_iff in H as (context & Hc & H). pose proof H as H'.
  apply mk_action_fields in H as (-> & _). split; [exact H'|]. cbn [ac_context].
  destruct context as [c|]; [|done]. by eapply context_made.
Qed.

Definition action_members (a : ActionEnvelope) : list (string * json) :=
  [("action_id", jstr (ac_action_id a));
   ("context", opt_json (λ c, JObj (context_members c)) (ac_context a));
   ("intent", jstr (ac_intent a)); ("kind", JStr (ac_kind a));
   ("operation", JStr (ac_operation a));
   ("parameters", JObj (sorted_members (ac_parameters a)));
   ("schema_version", JStr ACTION_ENVELOPE_SCHEMA_VERSION)].
Lemma sort_action_dict a : sort_keys (ActionEnvelope_as_dict a) = JObj (action_members a).
Proof.
  unfold ActionEnvelope_as_dict, action_members. rewrite copy_mapping_id.
  destruct a as [kind operation parameters intent context id]. cbn [ac_kind ac_operation
    ac_parameters ac_intent ac_context ac_action_id].
  assert (sort_keys (opt_json ExecutionContext_as_dict context)
          = opt_json (λ c, JObj (context_members c)) context) as Hc.
  { destruct context as [c|]; [|done]. apply sort_context. }
  assert (∀ o, sort_keys (jstr o) = jstr o) as Hs by by intros [].
  cbn [sort_keys map fst snd]. rewrite Hc, !Hs. reflexivity.
Qed.
Lemma sort_action_made a : action_made a → action_made (sort_action a).
Proof.
  intros [H Hc]. split; [|done]. apply mk_action_fields in H as (_ & Hk & Ho & Hi & Hf).
  apply mk_action_fields. split_and!; try done. rewrite <- Hf. apply (fits_sort (JObj (ac_parameters a))).
Qed.
Lemma context_reads c :
  ExecutionContext_from_dict (JObj (context_members c)) = (d ← ExecutionContext_post_init c; Ok (Some d)).
Proof. by destruct c as [[] [] [] [] [] []]. Qed.
(** What reading does with the members that an action writes, in either order. *)
Lemma action_reads payload a parameters context :
  is_mapping payload = true →
  reject_unknown payload
    ["schema_version"; "action_id"; "kind"; "operation"; "parameters"; "intent"; "context"]
    "action envelope" = Ok tt →
  (jget payload "schema_version", jget payload "kind", jget payload "operation")
    = (JStr ACTION_ENVELOPE_SCHEMA_VERSION, JStr (ac_kind a), JStr (ac_operation a)) →
  jget_default payload "parameters" (JObj []) = JObj parameters →
  (jget payload "intent", jget payload "action_id", jget payload "context")
    = (jstr (ac_intent a), jstr (ac_action_id a), context) →
  ActionEnvelope_from_dict payload =
    (c ← ExecutionContext_from_dict context;
     mk_ActionEnvelope
       {| ac_kind := ac_kind a; ac_operation := ac_operation a; ac_parameters := parameters;
          ac_intent := ac_intent a; ac_context := c; ac_action_id := ac_action_id a |}).
Proof.
  intros Hm Hu [= Hs Hk Ho] Hp [= Hi Ha Hc]. unfold ActionEnvelope_from_dict.
  rewrite Hm, Hu, Hs, Hk, Ho, Hp, Hi, Ha, Hc. cbv iota beta. rewrite String.eqb_refl.
  cbn [negb guard_or mbind res_bind as_str]. by rewrite !opt_str_jstr.
Qed.
Lemma sorted_action_reads a :
  ActionEnvelope_from_dict (JObj (action_members a)) =
    (c ← ExecutionContext_from_dict (opt_json (λ c, JObj (context_members c)) (ac_context a));
     mk_ActionEnvelope
       {| ac_kind := ac_kind a; ac_operation := ac_operation a;
          ac_parameters := sorted_members (ac_parameters a);
          ac_intent := ac_intent a; ac_context := c; ac_action_id := ac_action_id a |}).
Proof. by apply action_reads. Qed.
(** The sorted form reads as the action with its parameters in order. *)
Lemma sorted_action_made a : action_made a →
  ActionEnvelope_from_dict (JObj (action_members a)) = Ok (sort_action a).
Proof.
  intros Ha. pose proof (sort_action_made a Ha) as [H _]. destruct Ha as [_ Hc].
  rewrite sorted_action_reads. destruct (ac_context a) as [c|] eqn:E; cbn [opt_json].
  - rewrite context_reads, Hc. cbn [mbind res_bind]. rewrite <- E. exact H.
  - cbn [ExecutionContext_from_dict mbind res_bind]. rewrite <- E. exact H.
Qed.
Lemma sorted_action_inv a a' :
  ActionEnvelope_from_dict (JObj (action_members a)) = Ok a' → a' = sort_action a.
Proof.
  rewrite sorted_action_reads. intros H. apply bind_ok_iff in H as (c & Hc & H).
  apply mk_action_fields in H as (-> & _). unfold sort_action. f_equal.
  destruct (ac_context a) as [d|]; cbn [opt_json] in Hc; [|by injection Hc as <-].
  rewrite context_reads in Hc. apply bind_ok_iff in Hc as (e & He & [= <-]).
  by rewrite (post_init_same _ _ He).
Qed.
Lemma made_action_reads a : action_made a → ActionEnvelope_from_dict (ActionEnvelope_as_dict a) = Ok a.
Proof.
  intros [H Hc]. unfold ActionEnvelope_as_dict. rewrite copy_mapping_id.
  rewrite (action_reads _ a (ac_parameters a) (opt_json ExecutionContext_as_dict (ac_context a)))
    by done.
  destruct (ac_context a) as [c|] eqn:E; cbn [opt_json].
  - rewrite ExecutionContext_round_trip by done. cbn [mbind res_bind]. rewrite <- E. by destruct a.
  - cbn [ExecutionContext_from_dict mbind res_bind]. rewrite <- E. by destruct a.
Qed.

(** ** Observations *)

Definition sort_observation (o : ActionObservation) : ActionObservation :=
  {| ob_action_id := ob_action_id o; exit_code := exit_code o; ob_effects := ob_effects o;
     ob_resources := ob_resources o; metadata := sorted_members (metadata o) |}.
Definition effect_ok (e : string) : Prop := name_ok e MAX_EFFECT_LENGTH EFFECT_PATTERN.
Definition resource_ok (r : ObservedResource) : Prop :=
  name_ok (or_type r) 64 RESOURCE_TYPE_PATTERN ∧ truthy (or_value r) = true ∧
  String.length (or_value r) ≤ MAX_METADATA_STRING_LENGTH.
Record observation_made (o : ActionObservation) : Prop := {
  made_id : truthy (strip (ob_action_id o)) = true ∧ String.length (ob_action_id o) ≤ MAX_ID_LENGTH;
  made_effects : length (ob_effects o) ≤ MAX_EFFECTS ∧ Forall effect_ok (ob_effects o);
  made_resources : length (ob_resources o) ≤ MAX_RESOURCES ∧ Forall resource_ok (ob_resources o);
  made_metadata : fits 0 (JObj (metadata o)) = true }.

Lemma mk_resource_ok r r' : mk_ObservedResource r = Ok r' ↔ r' = r ∧ resource_ok r.
Proof.
  unfold mk_ObservedResource, _validate_scope, resource_ok, name_ok.
  rewrite then_ok, guard_or_ok, bind_ok_iff. setoid_rewrite then_ok. setoid_rewrite then_ok.
  setoid_rewrite guard_or_ok. setoid_rewrite Nat.leb_le. rewrite !andb_true_iff, Nat.leb_le. split.
  - by intros (((? & ?) & ?) & x & (? & ? & [= <-]) & [= <-]).
  - intros (-> & (? & ? & ?) & ? & ?). split; [done|]. by exists (or_value r).
Qed.
Lemma all_ok_same {A} (f : A → res A) (p : A → Prop) l :
  (∀ x y, f x = Ok y ↔ y = x ∧ p x) → ∀ l', all_ok (map f l) = Ok l' ↔ l' = l ∧ Forall p l.
Proof.
  intros Hf. induction l as [|x l IH]; intros l'; cbn.
  - split; [by intros [= <-]|by intros [-> _]].
  - rewrite bind_ok_iff. setoid_rewrite bind_ok_iff. setoid_rewrite Hf. setoid_rewrite IH.
    rewrite Forall_cons. naive_solver.
Qed.
Lemma effects_ok l l' : all_ok (map _validate_effect l) = Ok l' ↔ l' = l ∧ Forall effect_ok l.
Proof.
  apply all_ok_same. intros x y. unfold _validate_effect, effect_ok, name_ok.
  rewrite !then_ok, !guard_or_ok, Nat.leb_le. naive_solver.
Qed.
#[local] Opaque _validate_json.
Lemma mk_observation_fields id e effects resources m o :
  mk_ActionObservation id e effects resources m = Ok o ↔
  ∃ z, opt_int_field e "observation exit_code must be an integer or null" = Ok z ∧
  o = {| ob_action_id := id; exit_code := z; ob_effects := effects; ob_resources := resources;
         metadata := m |} ∧
  (truthy (strip id) = true ∧ String.length id ≤ MAX_ID_LENGTH) ∧
  (length effects ≤ MAX_EFFECTS ∧ Forall effect_ok effects) ∧
  length resources ≤ MAX_RESOURCES ∧ fits 0 (JObj m) = true.
Proof.
  unfold mk_ActionObservation. rewrite copy_json_id. cbn [members].
  rewrite !then_ok, !guard_or_ok, Nat.leb_le, bind_ok_iff.
  cbv beta. setoid_rewrite then_ok. setoid_rewrite bind_ok_iff. cbv beta. setoid_rewrite effects_ok.
  repeat setoid_rewrite then_ok. repeat setoid_rewrite guard_or_ok. repeat setoid_rewrite Nat.leb_le.
  setoid_rewrite (validate_json_fits _ "metadata"). split.
  - intros (? & ? & z & ? & ? & e' & (-> & ?) & ? & ? & [= <-]). exists z. auto 10.
  - intros (z & ? & -> & (? & ?) & (? & ?) & ? & ?). split_and!; try done. exists z.
    split_and!; try done. exists effects. auto 10.
Qed.
#[local] Transparent _validate_json.

Lemma read_resources_made l l' : all_ok (map read_resource l) = Ok l' → Forall resource_ok l'.
Proof.
  intros H%all_ok_Forall2. apply Forall_forall. intros r Hr.
  apply list_elem_of_lookup in Hr as [i Hi].
  destruct (Forall2_lookup_r _ _ _ _ _ H Hi) as (m & Hm & Er).
  apply list_lookup_fmap_Some in Hm as (j & -> & _). unfold read_resource in Er.
  apply if_err in Er as [_ Er]. apply then_ok in Er as [_ Er].
  destruct (jget j "type"), (jget j "value"); try done.
  apply mk_resource_ok in Er as [-> Hok]. exact Hok.
Qed.
Lemma observation_from_dict_made payload o :
  ActionObservation_from_dict payload = Ok o → observation_made o.
Proof.
  unfold ActionObservation_from_dict. intros H. apply then_ok in H as [_ H].
  apply then_ok in H as [_ H]. destruct (jget payload "action_id"); try done.
  apply bind_ok_iff in H as (effects & _ & H).
  destruct (jget_default payload "resources" _) as [| | | | |l|]; try done.
  destruct (jget_default payload "metadata" _) as [| | | | | |m]; try done.
  apply bind_ok_iff in H as (resources & Hr & H). apply read_resources_made in Hr.
  apply mk_observation_fields in H as (z & _ & -> & ? & ? & ? & ?). by split.
Qed.

Definition observation_members (o : ActionObservation) : list (string * json) :=
  [("action_id", JStr (ob_action_id o)); ("effects", JArr (map JStr (ob_effects o)));
   ("exit_code", jint_opt (exit_code o)); ("metadata", JObj (sorted_members (metadata o)));
   ("resources", JArr (map ObservedResource_as_dict (ob_resources o)));
   ("schema_version", JStr ACTION_OBSERVATION_SCHEMA_VERSION)].
Lemma sort_map_id {A} (f : A → json) l : (∀ x, sort_keys (f x) = f x) → map sort_keys (map f l) = map f l.
Proof. intros H. rewrite map_map. by apply map_ext. Qed.
Lemma sort_observation_dict o : sort_keys (ActionObservation_as_dict o) = JObj (observation_members o).
Proof.
  unfold ActionObservation_as_dict, observation_members. rewrite copy_json_id.
  destruct o as [id code effects resources m]. cbn [ob_action_id exit_code ob_effects ob_resources metadata].
  assert (sort_keys (jint_opt code) = jint_opt code) as Hc by by destruct code.
  cbn [sort_keys map fst snd]. rewrite Hc, !sort_map_id by done. reflexivity.
Qed.
Lemma only_strings_map l : only_strings (map JStr l) = l.
Proof. unfold only_strings. induction l as [|x l IH]; cbn; [done|]. by f_equal. Qed.
Lemma strings_of_map l message : strings_of (JArr (map JStr l)) message = Ok l.
Proof.
  cbn. assert (forallb is_str (map JStr l) = true) as -> by (induction l; cbn; auto).
  cbn. by rewrite only_strings_map.
Qed.
Lemma sort_observation_made o : observation_made o → observation_made (sort_observation o).
Proof.
  intros [? ? ? Hf]. split; try done. rewrite <- Hf. apply (fits_sort (JObj (metadata o))).
Qed.
Lemma resources_read l l' : all_ok (map read_resource (map ObservedResource_as_dict l)) = Ok l' ↔
  l' = l ∧ Forall resource_ok l.
Proof.
  rewrite map_map. rewrite (map_ext _ mk_ObservedResource) by by intros [].
  apply all_ok_same, mk_resource_ok.
Qed.
Lemma observation_reads payload o metadata :
  reject_unknown payload
    ["schema_version"; "action_id"; "exit_code"; "effects"; "resources"; "metadata"]
    "action observation" = Ok tt →
  (jget payload "schema_version", jget payload "action_id", jget payload "exit_code")
    = (JStr ACTION_OBSERVATION_SCHEMA_VERSION, JStr (ob_action_id o), jint_opt (exit_code o)) →
  jget_default payload "effects" (JArr []) = JArr (map JStr (ob_effects o)) →
  jget_default payload "resources" (JArr []) = JArr (map ObservedResource_as_dict (ob_resources o)) →
  jget_default payload "metadata" (JObj []) = JObj metadata →
  ∀ o', ActionObservation_from_dict payload = Ok o' ↔
    o' = {| ob_action_id := ob_action_id o; exit_code := exit_code o; ob_effects := ob_effects o;
            ob_resources := ob_resources o; metadata := metadata |} ∧ observation_made o'.
Proof.
  intros Hu [= Hs Ha Hc] He Hr Hm o'. unfold ActionObservation_from_dict, require_schema.
  rewrite Hu, Hs, Ha, Hc, He, Hr, Hm, strings_of_map. cbv iota beta. rewrite String.eqb_refl.
  cbn [guard_or mbind res_bind]. rewrite bind_ok_iff. setoid_rewrite resources_read.
  setoid_rewrite mk_observation_fields. split.
  - intros (l & (-> & Hl) & z & Hz & -> & ? & ? & ? & ?).
    assert (z = exit_code o) as -> by (destruct (exit_code o); by injection Hz as <-).
    split; [done|]. by split.
  - intros (-> & [Hi Hef [Hrl Hro] Hf]). cbn in Hi, Hef, Hrl, Hro, Hf.
    exists (ob_resources o). split; [done|]. exists (exit_code o).
    split; [by destruct (exit_code o)|]. exact (conj eq_refl (conj Hi (conj Hef (conj Hrl Hf)))).
Qed.
Lemma sorted_observation_reads o o' :
  ActionObservation_from_dict (JObj (observation_members o)) = Ok o' ↔
  o' = sort_observation o ∧ observation_made o'.
Proof. by apply (observation_reads _ o (sorted_members (metadata o))). Qed.
Lemma made_observation_reads o : observation_made o →
  ActionObservation_from_dict (ActionObservation_as_dict o) = Ok o.
Proof.
  intros Ho. unfold ActionObservation_as_dict. rewrite copy_json_id.
  apply (observation_reads _ o (metadata o)); try done. by destruct o.
Qed.

(** ** Values that Python can hold *)

Section texts.
Context (sha256 : string → string) (float_repr : Q → string) (float_of : string → option Q).
(** The digest is 64 hexadecimal digits, as [hashlib] documents. *)
Hypothesis sha256_hex : ∀ s, hex_digest (sha256 s) = true.
#[local] Abbreviation plain := (readable float_of float_repr).
#[local] Abbreviation _json := (_json float_repr).
#[local] Abbreviation _load := (_load float_of).

(** What fits is read back with its members in order. *)
Lemma load_json v : plain v → is_mapping v = true → within_depth 0 v = true →
  (byte_count (_json v) ≤ MAX_SESSION_BYTES)%Z → _load (_json v) = Ok (sort_keys v).
Proof.
  intros Hp Hm Hd Hb. unfold Session._load. apply Z.leb_le in Hb. rewrite Hb.
  cbn [guard_or mbind res_bind]. unfold Session._json.
  rewrite (loads_dumps float_of float_repr compact_layout "" "") by done. cbn [mbind res_bind].
  rewrite within_depth_sort, Hd. by destruct v.
Qed.
Lemma load_inv v payload : plain v → _load (_json v) = Ok payload →
  payload = sort_keys v ∧ (byte_count (_json v) ≤ MAX_SESSION_BYTES)%Z.
Proof.
  intros Hp H. unfold Session._load in H. apply then_ok in H as [Hb%guard_or_ok%Z.leb_le H].
  unfold Session._json in H. rewrite (loads_dumps float_of float_repr compact_layout "" "") in H by done.
  cbn [mbind res_bind] in H. apply then_ok in H as [_ H]. apply then_ok in H as [_ H].
  injection H as <-. done.
Qed.
Lemma json_sort v : plain v → _json (sort_keys v) = _json v.
Proof. intros Hv. unfold Session._json, json_dumps. by rewrite (sort_keys_idem float_of float_repr). Qed.

(** What the session retains: an action that is its own copy. *)
Record action_kept (a : ActionEnvelope) : Prop := {
  kept_made : action_made a;
  kept_plain : plain (JObj (ac_parameters a));
  kept_sorted : sort_action a = a;
  kept_id : ∃ id, ac_action_id a = Some id ∧ truthy id = true }.
Record observation_kept (o : ActionObservation) : Prop := {
  evidence_made : observation_made o;
  evidence_plain : plain (JObj (metadata o));
  evidence_sorted : sort_observation o = o }.

Lemma sorted_twice m : plain (JObj m) → sorted_members (sorted_members m) = sorted_members m.
Proof. intros H%sort_keys_idem. by injection H. Qed.
Lemma plain_sorted m : plain (JObj m) → plain (JObj (sorted_members m)).
Proof. apply (sort_readable float_of float_repr (JObj m)). Qed.
Lemma plain_action a : plain (ActionEnvelope_as_dict a) ↔ plain (JObj (ac_parameters a)).
Proof.
  unfold ActionEnvelope_as_dict. rewrite copy_mapping_id. rewrite readable_obj, !Forall_cons.
  cbn [snd map fst]. split; [naive_solver|]. intros H. split_and!; try done.
  - apply (bool_decide_unpack _). by vm_compute.
  - by destruct (ac_action_id a).
  - by destruct (ac_intent a).
  - destruct (ac_context a) as [c|]; [|done]. apply readable_obj. split.
    + apply (bool_decide_unpack _). by vm_compute.
    + destruct c as [[] [] [] [] [] []]; repeat constructor.
Qed.
Lemma plain_observation o : plain (ActionObservation_as_dict o) ↔ plain (JObj (metadata o)).
Proof.
  unfold ActionObservation_as_dict. rewrite copy_json_id. rewrite readable_obj, !Forall_cons.
  cbn [snd map fst]. split; [naive_solver|]. intros H. split_and!; try done.
  - apply (bool_decide_unpack _). by vm_compute.
  - by destruct (exit_code o).
  - apply all_readable_forall, Forall_map, Forall_forall. done.
  - apply all_readable_forall, Forall_map, Forall_forall. intros r _. apply readable_obj. split.
    + apply (bool_decide_unpack _). by vm_compute.
    + repeat constructor.
Qed.

(** A copy is the action with its parameters in order, and is retained as it is. *)
Lemma copy_action_kept a a' :
  plain (ActionEnvelope_as_dict a) → (∃ id, ac_action_id a = Some id ∧ truthy id = true) →
  copy_action float_repr float_of a = Ok a' → a' = sort_action a ∧ action_kept a'.
Proof.
  intros Hp Hid H. unfold copy_action in H. apply bind_ok_iff in H as (payload & Hl & H).
  apply load_inv in Hl as [-> _]; [|done]. rewrite sort_action_dict in H.
  pose proof (sorted_action_inv _ _ H) as ->. split; [done|].
  apply plain_action in Hp. split; [by eapply from_dict_made|by apply plain_sorted| |done].
  unfold sort_action. cbn [ac_parameters]. by rewrite sorted_twice.
Qed.
Lemma copy_observation_kept o o' :
  plain (ActionObservation_as_dict o) →
  copy_observation float_repr float_of o = Ok o' → o' = sort_observation o ∧ observation_kept o'.
Proof.
  intros Hp H. unfold copy_observation in H. apply bind_ok_iff in H as (payload & Hl & H).
  apply load_inv in Hl as [-> _]; [|done]. rewrite sort_observation_dict in H.
  apply plain_observation in Hp. apply sorted_observation_reads in H as [-> Hmade].
  split; [done|]. split; [done|by apply plain_sorted|].
  unfold sort_observation. cbn [metadata]. by rewrite sorted_twice.
Qed.
End texts.
