(* ===== verification/SessionSnapshot.v ===== *)
(** * The snapshot of a session ([ordin/session.py])

    The invariant of a session.  The snapshot of a session that satisfies it
    conforms to its schema, stays within the bounds of the reader and restores
    this session. *)
From stdpp Require Import base list strings gmap sorting.
From Stdlib Require Import Bool Ascii ZArith QArith Lia.
From S2P Require Import Prelude State PyStr Json JsonText JsonParse Regex Policy Context Catalog Risk Temporal Review.
From S2P Require Import Execution Provenance ActionModel RequestReaders ToolCalls Action ActionPolicy.
From S2P Require Import McpContracts ActionGate JsonSchema Approval Session SessionFacts.
#[local] Open Scope py_scope.
#[local] Open Scope nat_scope.

(** ** Values that conform to a schema *)

Definition conforms (s : schema) (v : json) : Prop := ∀ path, validate_instance s v path = [].

Fixpoint find_property (key : string) (l : list (string * schema)) : option schema :=
  match l with
  | [] => None
  | (name, p) :: l' => if name =s key then Some p else find_property key l'
  end.
Lemma flat_map_empty {A B} (f : A → list B) l : (∀ x, x ∈ l → f x = []) → flat_map f l = [].
Proof.
  induction l as [|x l IH]; intros H; cbn; [done|].
  rewrite (H x) by left. apply IH. intros y Hy. apply H. by right.
Qed.
Lemma conforms_obj_with properties required m :
  forallb (λ k, mem k (map fst m)) required = true →
  (∀ kv, kv ∈ m → ∃ p, find_property (fst kv) properties = Some p ∧ conforms p (snd kv)) →
  conforms (obj_with properties required) (JObj m).
Proof.
  intros Hr Hm path. cbn -[object_errors]. rewrite !app_nil_r. unfold object_errors. cbn.
  rewrite (flat_map_empty _ required); [cbn|].
  - apply flat_map_empty. intros [k v] (p & Hp & Hv)%Hm. cbn [fst snd] in *. clear Hm.
    induction properties as [|[name q] l IH]; [done|]. cbn [find_property] in Hp.
    destruct (name =s k); [injection Hp as ->; apply Hv|by apply IH].
  - intros k Hk. rewrite forallb_forall in Hr. by rewrite (Hr k) by (by apply list_elem_of_In).
Qed.
Lemma concat_imap_nil {A B} (f : nat → A → list B) l :
  (∀ i x, x ∈ l → f i x = []) → concat (imap f l) = [].
Proof.
  revert f. induction l as [|x l IH]; intros f H; cbn; [done|].
  rewrite (H 0 x) by left. apply (IH (f ∘ S)). intros i y Hy. apply H. by right.
Qed.
Lemma conforms_array item n l : length l ≤ n → Forall (conforms item) l →
  conforms (array_of item n) (JArr l).
Proof.
  intros Hn Hl path. apply Nat.ltb_ge in Hn. cbn -[Nat.ltb]. rewrite Hn.
  rewrite !app_nil_r. cbn. apply concat_imap_nil. intros i x Hx.
  rewrite Forall_forall in Hl. apply (Hl x Hx).
Qed.
Lemma conforms_text n nullable pattern s : truthy s = true → String.length s ≤ n →
  match pattern with Some r => re_search r s = true | None => True end →
  conforms (text_of n nullable pattern) (JStr s).
Proof.
  intros Ht Hl Hp path. apply Nat.ltb_ge in Hl. destruct s as [|c s]; [done|].
  destruct pattern as [r|], nullable;
    cbn -[Nat.ltb re_search String.length]; rewrite Hl, ?Hp; done.
Qed.

(** The patterns of names and digests. *)
Lemma word_pattern_matches first rest c s : first c = true → str_forall rest s = true →
  re_search (word_pattern first rest) (String c s) = true.
Proof.
  intros Hc Hs. apply re_search_correct. eexists (None, String c s), (_, EmptyString).
  split; [constructor|].
  apply m_seq with (None, String c s); [constructor|].
  apply m_seq with (Some c, s); [by constructor|].
  apply m_seq with (after (Some c) s, EmptyString).
  - apply rmatch_star_class. exists s, EmptyString. by rewrite str_app_nil_r.
  - repeat econstructor.
Qed.

Lemma repeated_matches f n : ∀ s prev, String.length s = n → str_forall f s = true →
  rmatch (repeated n (RClass f)) (prev, s) (after prev s, EmptyString).
Proof.
  induction n as [|n IH]; intros [|c s] prev Hl Hs; try done; [constructor|].
  cbn [str_forall] in Hs. apply andb_true_iff in Hs as [Hc Hs]. cbn [repeated].
  apply m_seq with (Some c, s); [by constructor|]. apply (IH s (Some c)); [|done]. by injection Hl.
Qed.
Lemma digest_matches s : hex_digest s = true → re_search (digest_pattern "") s = true.
Proof.
  unfold hex_digest. rewrite andb_true_iff, Nat.eqb_eq. intros [Hl Hs].
  apply re_search_correct. exists (None, s), (after None s, EmptyString). split; [constructor|].
  change (digest_pattern "") with (RSeq RStart (RSeq (repeated 64 (RClass hex)) REnd)).
  apply m_seq with (None, s); [constructor|].
  apply m_seq with (after None s, EmptyString); [by apply repeated_matches|constructor].
Qed.
Lemma conforms_digest s : hex_digest s = true → conforms SNAPSHOT_DIGEST (JStr s).
Proof. intros H%digest_matches path. cbn -[re_search digest_pattern]. by rewrite H. Qed.
Lemma name_matches s : lower_pattern s = true →
  re_search (word_pattern lower_alpha (λ c, lower_alpha c || digit c || one_of "_.-" c)) s = true.
Proof.
  destruct s as [|c s]; [done|]. cbn [lower_pattern]. rewrite andb_true_iff. intros [Hc Hs].
  apply word_pattern_matches; [done|]. revert Hs. clear. induction s as [|c s IH]; [done|].
  cbn [str_forall]. rewrite !andb_true_iff. intros [Hc Hs]. split; [|by apply IH]. revert Hc.
  destruct c as [[] [] [] [] [] [] [] []]; (done || by vm_compute).
Qed.
Lemma conforms_name n s : name_ok s n lower_pattern → conforms (SNAPSHOT_NAME n) (JStr s).
Proof. intros (Ht & Hl & Hp). apply conforms_text; [done..|]. by apply name_matches. Qed.
Lemma truthy_strip s : truthy (strip s) = true → truthy s = true.
Proof. by destruct s. Qed.
Lemma conforms_id (id : option string) :
  id_ok id → conforms (text_of 128 true None) (jstr id).
Proof.
  intros H. destruct id as [i|]; [|done]. destruct (H i eq_refl) as [Ht Hl].
  apply conforms_text; [by apply truthy_strip|done..].
Qed.
(** The members of an object, each found by its name in the schema. *)
Lemma conforms_members properties required m :
  forallb (λ k, mem k (map fst m)) required = true →
  Forall (λ kv, match find_property (fst kv) properties with
                | Some p => conforms p (snd kv) | None => False end) m →
  conforms (obj_with properties required) (JObj m).
Proof.
  intros Hr Hm. apply conforms_obj_with; [done|]. intros kv Hkv. rewrite Forall_forall in Hm.
  specialize (Hm kv Hkv). destruct (find_property _ _) as [p|]; [by exists p|done].
Qed.
Lemma conforms_constant v : conforms (constant None v) (JStr v).
Proof. intros path. cbn. by rewrite String.eqb_refl. Qed.
Lemma conforms_nullable_text o : conforms (nullable "string" None) (jstr o).
Proof. by destruct o. Qed.
Lemma conforms_object n m : length m ≤ n → conforms (free_object n) (JObj m).
Proof.
  intros Hn path. apply Nat.ltb_ge in Hn. cbn -[Nat.ltb]. rewrite Hn.
  cbn [error_if]. rewrite !app_nil_r. by apply flat_map_empty.
Qed.
Lemma conforms_context c : context_valid c → conforms SNAPSHOT_CONTEXT (JObj (context_members c)).
Proof.
  unfold context_valid, ExecutionContext_post_init. intros Hc path.
  destruct c as [[] [] [u|] [] [] []]; cbn -[Z.ltb] in Hc; try reflexivity;
    apply if_err in Hc as [Hu%Z.ltb_ge _];
    assert (Qle_bool (inject_Z 0) (inject_Z u) = true) as Hq
      by (apply Qle_bool_iff; by rewrite <- Zle_Qle);
    cbn -[Qle_bool inject_Z]; by rewrite Hq.
Qed.
Lemma fits_members m : fits 0 (JObj m) = true → length m ≤ 128.
Proof. cbn -[Nat.leb]. rewrite !andb_true_iff, !Nat.leb_le. by intros (_ & ? & _). Qed.

Lemma conforms_action a : action_made a → conforms SNAPSHOT_ACTION (JObj (action_members a)).
Proof.
  intros [Ha Hc]. apply mk_action_fields in Ha as (_ & Hk & Ho & Hi & Hf).
  apply conforms_members; [reflexivity|]. unfold action_members. rewrite !Forall_cons.
  split_and!; [exact (conforms_id _ Hi)| |exact (conforms_nullable_text _)|exact (conforms_name _ _ Hk)
              |exact (conforms_name _ _ Ho)| |exact (conforms_constant _)|constructor].
  - change (conforms SNAPSHOT_CONTEXT (opt_json (λ c, JObj (context_members c)) (ac_context a))).
    destruct (ac_context a); [by apply conforms_context|done].
  - apply (conforms_object 128). rewrite sorted_members_length. by apply fits_members.
Qed.
Lemma conforms_resource r : resource_ok r → conforms SNAPSHOT_RESOURCE (ObservedResource_as_dict r).
Proof.
  intros (Ht & Hv & Hl). apply conforms_members; [reflexivity|]. rewrite !Forall_cons.
  split_and!; [exact (conforms_name _ _ Ht)|exact (conforms_text _ false None _ Hv Hl I)|constructor].
Qed.
Lemma conforms_observation o : observation_made o →
  conforms SNAPSHOT_OBSERVATION (JObj (observation_members o)).
Proof.
  intros [[Hi Hl] [Hne He] [Hnr Hr] Hf].
  apply conforms_members; [reflexivity|]. unfold observation_members. rewrite !Forall_cons.
  split_and!; [exact (conforms_text 128 false None _ (truthy_strip _ Hi) Hl I)| | | | 
              |exact (conforms_constant _)|constructor].
  - apply (conforms_array (SNAPSHOT_NAME 256) 128); [by rewrite length_map|].
    apply Forall_map, (Forall_impl _ _ _ He). intros e. apply conforms_name.
  - change (conforms (nullable "integer" None) (jint_opt (exit_code o))). by destruct (exit_code o).
  - apply (conforms_object 128). rewrite sorted_members_length. by apply fits_members.
  - apply (conforms_array SNAPSHOT_RESOURCE 128); [by rewrite length_map|].
    apply Forall_map, (Forall_impl _ _ _ Hr). intros r. apply conforms_resource.
Qed.

(** ** The snapshot *)

Lemma dict_set_fresh {A} key (v : A) l : key ∉ map fst l → dict_set key v l = l ++ [(key, v)].
Proof.
  induction l as [|[k w] l IH]; intros H; cbn; [done|].
  destruct (String.eqb_spec k key) as [->|]; [exfalso; apply H; left|].
  rewrite IH; [done|]. intros Hk. apply H. by right.
Qed.
Definition named (o : ActionObservation) : string * ActionObservation := (ob_action_id o, o).
Lemma by_action_id_named l : NoDup (map ob_action_id l) →
  by_action_id {| observations := l |} = map named l.
Proof.
  intros Hnd. unfold by_action_id. cbn [observations].
  assert (∀ acc : list (string * ActionObservation),
    (∀ o, o ∈ l → ob_action_id o ∉ map fst acc) →
    foldl (λ d o, dict_set (ob_action_id o) o d) acc l = acc ++ map named l) as H.
  { induction l as [|o l IH]; intros acc Hacc; cbn; [by rewrite app_nil_r|].
    cbn in Hnd. apply NoDup_cons in Hnd as [Ho Hnd].
    rewrite dict_set_fresh by (apply Hacc; left). rewrite IH; [by rewrite <- app_assoc|done|].
    intros o' Ho'. rewrite map_app, not_elem_of_app. split; [apply Hacc; by right|].
    cbn. intros E%list_elem_of_singleton. apply Ho. rewrite <- E.
    by apply (list_elem_of_fmap_2 ob_action_id). }
  apply H. intros o _ Ho. by apply elem_of_nil in Ho.
Qed.

Lemma no_duplicate l : NoDup l → has_duplicate (map key (map JStr l)) = false.
Proof.
  induction 1 as [|x l Hx _ IH]; [done|]. cbn [map has_duplicate]. rewrite IH, orb_false_r.
  apply not_true_iff_false. intros (j & Hj & E)%existsb_exists.
  rewrite map_map in Hj. apply in_map_iff in Hj as (y & <- & Hy). apply Hx.
  cbn in E. rewrite !andb_true_r in E. apply String.eqb_eq in E as ->. by apply list_elem_of_In.
Qed.
Lemma conforms_unique l n : NoDup l → length l ≤ n → Forall (λ d, conforms (text_of 128 false None) (JStr d)) l →
  conforms (unique_array (text_of 128 false None) n) (JArr (map JStr l)).
Proof.
  intros Hnd Hn Hl path. apply Nat.ltb_ge in Hn.
  cbn -[Nat.ltb has_duplicate map key]. unfold array_errors. cbn -[Nat.ltb has_duplicate map key imap].
  rewrite no_duplicate, length_map, Hn by done.
  cbn [error_if app andb]. rewrite app_nil_r. apply concat_imap_nil. intros i j Hj.
  apply list_elem_of_fmap in Hj as (d & -> & Hd). rewrite Forall_forall in Hl. apply (Hl d Hd).
Qed.

Section snapshot.
Context (sha256 : string → string) (float_repr : Q → string) (float_of : string → option Q).
Hypothesis sha256_hex : ∀ s, hex_digest (sha256 s) = true.
#[local] Abbreviation plain := (readable float_of float_repr).
#[local] Abbreviation _json := (_json float_repr).
#[local] Abbreviation _load := (_load float_of).
#[local] Abbreviation identity_dict := (SessionIdentity_as_dict sha256).

Definition denied_list (s : IntegrationSession) : list string := merge_sort str_le (elements (_denied s)).
(** The value of [snapshot()]. *)
Definition snapshot_json (s : IntegrationSession) : json :=
  JObj [("schema_version", JStr SESSION_SCHEMA_VERSION);
        ("identity", identity_dict (identity s));
        ("configuration_digest", JStr (config_digest s));
        ("sequence", JInt (_sequence s));
        ("history", ActionHistory_as_dict {| hi_actions := _actions s |});
        ("observations", ObservationHistory_as_dict {| observations := map snd (_observations s) |});
        ("denied_action_ids", JArr (map JStr (denied_list s)))].
Lemma snapshot_ok actions obs denied sequence s payload :
  _snapshot sha256 actions obs denied sequence s = Ok payload ↔
  length actions ≤ 32 ∧ length obs ≤ 32 ∧ NoDup (map ob_action_id (map snd obs)) ∧
  payload = snapshot_json (with_history actions obs denied sequence s).
Proof.
  unfold _snapshot, mk_ActionHistory, mk_ObservationHistory. rewrite length_map.
  unfold MAX_ACTION_HISTORY, MAX_HISTORY_ITEMS.
  destruct (Nat.leb_spec (length actions) 32); cbn [guard_or mbind res_bind];
    [|split; [done|intros (?&_); lia]].
  destruct (Nat.leb_spec (length obs) 32); cbn [guard_or mbind res_bind];
    [|split; [done|intros (_&?&_); lia]].
  case_bool_decide; cbn [guard_or mbind res_bind]; [|split; [done|by intros (_&_&?&_)]].
  split; [by intros [= <-]|]. by intros (_ & _ & _ & ->).
Qed.

Definition sorted_snapshot (s : IntegrationSession) : list (string * json) :=
  [("configuration_digest", JStr (config_digest s));
   ("denied_action_ids", JArr (map JStr (denied_list s)));
   ("history", JObj [("actions", JArr (map (λ a, JObj (action_members a)) (_actions s)));
                     ("schema_version", JStr ACTION_HISTORY_SCHEMA_VERSION)]);
   ("identity", JObj [("runtime", JStr (si_runtime (identity s)));
                      ("server", jstr (si_server (identity s)));
                      ("session_id_sha256", JStr (sha256 (utf8 (si_session_id (identity s)))))]);
   ("observations",
      JObj [("observations", JArr (map (λ kv, JObj (observation_members (snd kv))) (_observations s)));
            ("schema_version", JStr OBSERVATION_HISTORY_SCHEMA_VERSION)]);
   ("schema_version", JStr SESSION_SCHEMA_VERSION); ("sequence", JInt (_sequence s))].
Lemma sort_snapshot s : sort_keys (snapshot_json s) = JObj (sorted_snapshot s).
Proof.
  unfold snapshot_json, sorted_snapshot, ActionHistory_as_dict, ObservationHistory_as_dict,
    SessionIdentity_as_dict.
  cbn [sort_keys map fst snd hi_actions observations]. rewrite !map_map.
  rewrite (map_ext (λ a, sort_keys (ActionEnvelope_as_dict a)) (λ a, JObj (action_members a)))
    by apply sort_action_dict.
  rewrite (map_ext (λ kv : string * ActionObservation, sort_keys (ActionObservation_as_dict (snd kv)))
             (λ kv, JObj (observation_members (snd kv)))) by (intros; apply sort_observation_dict).
  rewrite (map_ext (λ x, sort_keys (JStr x)) JStr) by done.
  assert (sort_keys (jstr (si_server (identity s))) = jstr (si_server (identity s))) as ->
    by by destruct (si_server _).
  reflexivity.
Qed.

(** ** The invariant *)

Record valid (s : IntegrationSession) : Prop := {
  valid_identity : mk_SessionIdentity (identity s) = Ok (identity s);
  valid_config : hex_digest (config_digest s) = true;
  valid_count : length (_actions s) ≤ 32;
  valid_actions : Forall (action_kept float_repr float_of) (_actions s);
  valid_ids : NoDup (map ac_action_id (_actions s));
  valid_keys : map fst (_observations s) = map ob_action_id (map snd (_observations s));
  valid_evidence : NoDup (map fst (_observations s)) ∧ length (_observations s) ≤ 32 ∧
    Forall (observation_kept float_repr float_of) (map snd (_observations s));
  valid_linked : ∀ id, id ∈ map fst (_observations s) →
    Some id ∈ map ac_action_id (_actions s) ∧ id ∉ _denied s;
  valid_denied : ∀ id, id ∈ _denied s → Some id ∈ map ac_action_id (_actions s);
  valid_sequence : (Z.of_nat (length (_actions s)) ≤ _sequence s)%Z;
  valid_bytes : (byte_count (_json (snapshot_json s)) ≤ MAX_SESSION_BYTES)%Z }.

Lemma plain_dict m : bool_decide (NoDup (map fst m)) = true → Forall (λ kv, plain (snd kv)) m →
  plain (JObj m).
Proof. intros Hk Hm. apply readable_obj. split; [by apply bool_decide_eq_true in Hk|done]. Qed.
Lemma plain_texts l : plain (JArr (map JStr l)).
Proof. apply all_readable_forall, Forall_map, Forall_forall. done. Qed.
Lemma plain_jstr o : plain (jstr o).
Proof. by destruct o. Qed.
Lemma snapshot_plain s : valid s → plain (snapshot_json s).
Proof.
  intros Hv. apply plain_dict; [reflexivity|]. repeat (apply Forall_cons; split); try done; cbn [snd].
  - apply plain_dict; [reflexivity|]. repeat (apply Forall_cons; split); try done. apply plain_jstr.
  - apply plain_dict; [reflexivity|]. repeat (apply Forall_cons; split); try done. cbn [snd hi_actions].
    apply all_readable_forall, Forall_map, (Forall_impl _ _ _ (valid_actions s Hv)).
    intros a Ha. apply plain_action, Ha.
  - apply plain_dict; [reflexivity|]. repeat (apply Forall_cons; split); try done. cbn [snd observations].
    destruct (valid_evidence s Hv) as (_ & _ & He).
    apply all_readable_forall, Forall_map, (Forall_impl _ _ _ He).
    intros o Ho. apply plain_observation, Ho.
  - apply plain_texts.
Qed.

Lemma within_obj d m : d ≤ MAX_SESSION_DEPTH →
  Forall (λ kv, within_depth (S d) (snd kv) = true) m → within_depth d (JObj m) = true.
Proof.
  intros Hd Hm. cbn [within_depth]. rewrite (proj2 (Nat.leb_le _ _) Hd). cbn.
  apply forallb_forall. intros kv Hkv. rewrite Forall_forall in Hm. by apply Hm, list_elem_of_In.
Qed.
Lemma within_arr d l : d ≤ MAX_SESSION_DEPTH →
  Forall (λ v, within_depth (S d) v = true) l → within_depth d (JArr l) = true.
Proof.
  intros Hd Hl. cbn [within_depth]. rewrite (proj2 (Nat.leb_le _ _) Hd). cbn.
  apply forallb_forall. intros v Hv. rewrite Forall_forall in Hl. by apply Hl, list_elem_of_In.
Qed.
Lemma within_texts d l : d ≤ MAX_SESSION_DEPTH → within_depth d (JArr (map JStr l)) = true.
Proof. intros Hd. apply within_arr, Forall_map, Forall_forall; done. Qed.
Lemma within_jstr d o : within_depth d (jstr o) = true.
Proof. by destruct o. Qed.
Ltac within_members :=
  apply within_obj; [unfold MAX_SESSION_DEPTH; lia|]; repeat (apply Forall_cons; split); cbn [snd];
  try reflexivity; try apply within_jstr; try apply Forall_nil_2.
Lemma within_action a : action_made a → within_depth 3 (JObj (action_members a)) = true.
Proof.
  intros [Ha _]. apply mk_action_fields in Ha as (_ & _ & _ & _ & Hf). within_members.
  - destruct (ac_context a) as [c|]; [|done]. destruct c as [[] [] [] [] [] []]; reflexivity.
  - rewrite <- fits_sort in Hf. apply (fits_within _ 0 _ Hf). lia.
Qed.
Lemma within_observation o : observation_made o → within_depth 3 (JObj (observation_members o)) = true.
Proof.
  intros [_ _ _ Hf]. within_members.
  - apply within_texts. unfold MAX_SESSION_DEPTH. lia.
  - by destruct (exit_code o).
  - rewrite <- fits_sort in Hf. apply (fits_within _ 0 _ Hf). lia.
  - apply within_arr; [unfold MAX_SESSION_DEPTH; lia|]. by apply Forall_map, Forall_forall.
Qed.
Lemma snapshot_within s : valid s → within_depth 0 (snapshot_json s) = true.
Proof.
  intros Hv. rewrite <- within_depth_sort, sort_snapshot. within_members.
  - apply within_texts. unfold MAX_SESSION_DEPTH. lia.
  - within_members. apply within_arr; [unfold MAX_SESSION_DEPTH; lia|].
    apply Forall_map, (Forall_impl _ _ _ (valid_actions s Hv)). intros a Ha. apply within_action, Ha.
  - within_members.
  - within_members. apply within_arr; [unfold MAX_SESSION_DEPTH; lia|].
    destruct (valid_evidence s Hv) as (_ & _ & He). rewrite Forall_map in He.
    apply Forall_map, (Forall_impl _ _ _ He). intros kv Ho. apply within_observation, Ho.
Qed.

(** ** The schema *)

Lemma denied_length s : valid s → length (denied_list s) ≤ 32.
Proof.
  intros Hv. unfold denied_list. rewrite (merge_sort_Permutation str_le).
  etrans; [|apply (valid_count s Hv)]. rewrite <- (length_map Some (elements (_denied s))).
  rewrite <- (length_map ac_action_id). apply submseteq_length, NoDup_submseteq.
  - apply NoDup_fmap_2; [congruence|apply NoDup_elements].
  - intros id Hid. apply list_elem_of_fmap in Hid as (d & -> & Hd%elem_of_elements).
    by apply (valid_denied s Hv).
Qed.
Lemma in_denied_list s d : d ∈ denied_list s ↔ d ∈ _denied s.
Proof. unfold denied_list. rewrite merge_sort_Permutation. apply elem_of_elements. Qed.
Lemma denied_nodup s : NoDup (denied_list s).
Proof. unfold denied_list. rewrite merge_sort_Permutation. apply NoDup_elements. Qed.
Lemma conforms_denied s d : valid s → d ∈ _denied s → conforms (text_of 128 false None) (JStr d).
Proof.
  intros Hv Hd. apply (valid_denied s Hv) in Hd. apply list_elem_of_fmap in Hd as (a & Ea & Ha).
  pose proof (valid_actions s Hv) as H. rewrite Forall_forall in H. destruct (H a Ha) as [[Hm _] _ _ _].
  apply mk_action_fields in Hm as (_ & _ & _ & Hi & _). destruct (Hi d (eq_sym Ea)) as [Ht Hl].
  apply conforms_text; [by apply truthy_strip|done..].
Qed.
Lemma bounded_name_ok v : bounded_name v = true → truthy v = true ∧ String.length v ≤ 4096.
Proof.
  unfold bounded_name. rewrite andb_true_iff, Nat.leb_le. intros [Ht Hl].
  split; [by apply truthy_strip|done].
Qed.
Lemma identity_names i : mk_SessionIdentity i = Ok i →
  bounded_name (si_runtime i) = true ∧ bounded_name (si_session_id i) = true ∧
  ∀ server, si_server i = Some server → bounded_name server = true.
Proof.
  unfold mk_SessionIdentity. rewrite !then_ok, !guard_or_ok, andb_true_iff.
  intros ([Hr Hs] & Hv & _). split_and!; [done|done|]. intros server E. by rewrite E in Hv.
Qed.
Lemma snapshot_conforms s : valid s → conforms INTEGRATION_SESSION (JObj (sorted_snapshot s)).
Proof.
  intros Hv. destruct (identity_names _ (valid_identity s Hv)) as (Hr & _ & Hs).
  apply conforms_members; [reflexivity|]. unfold sorted_snapshot. rewrite !Forall_cons.
  split_and!; [exact (conforms_digest _ (valid_config s Hv))| | | | |exact (conforms_constant _)| |constructor].
  - apply (conforms_unique (denied_list s) 32); [apply denied_nodup|by apply denied_length|].
    apply Forall_forall. intros d Hd%in_denied_list. by apply (conforms_denied s).
  - apply conforms_members; [reflexivity|]. rewrite !Forall_cons.
    split_and!; [|exact (conforms_constant _)|constructor].
    apply (conforms_array SNAPSHOT_ACTION 32); [rewrite length_map; apply (valid_count s Hv)|].
    apply Forall_map, (Forall_impl _ _ _ (valid_actions s Hv)). intros a Ha. apply conforms_action, Ha.
  - apply conforms_members; [reflexivity|]. rewrite !Forall_cons.
    destruct (bounded_name_ok _ Hr) as [Ht Hl].
    split_and!; [exact (conforms_text 4096 false None _ Ht Hl I)| |exact (conforms_digest _ (sha256_hex _))|constructor].
    change (conforms (text_of 4096 true None) (jstr (si_server (identity s)))).
    destruct (si_server (identity s)) as [server|] eqn:E; [|done].
    destruct (bounded_name_ok _ (Hs server eq_refl)). by apply conforms_text.
  - apply conforms_members; [reflexivity|]. rewrite !Forall_cons.
    split_and!; [|exact (conforms_constant _)|constructor].
    destruct (valid_evidence s Hv) as (_ & Hn & He). rewrite Forall_map in He.
    apply (conforms_array SNAPSHOT_OBSERVATION 32); [by rewrite length_map|].
    apply Forall_map, (Forall_impl _ _ _ He). intros kv Ho. apply conforms_observation, Ho.
  - intros path. pose proof (valid_sequence s Hv). cbn -[Qle_bool inject_Z].
    assert (Qle_bool (inject_Z 0) (inject_Z (_sequence s)) = true) as ->
      by (apply Qle_bool_iff; rewrite <- Zle_Qle; lia). done.
Qed.
Lemma snapshot_accepted s : valid s → accepts INTEGRATION_SESSION (JObj (sorted_snapshot s)) = true.
Proof. intros Hv. unfold accepts. by rewrite (snapshot_conforms s Hv). Qed.

(** ** Restoring *)

Lemma all_ok_map {A B} (f : A → res B) (l : list A) (l' : list B) :
  Forall2 (λ x y, f x = Ok y) l l' → all_ok (map f l) = Ok l'.
Proof. intros H. apply all_ok_Forall2. induction H; by constructor. Qed.
Lemma forall2_self {A B} (P : A → B → Prop) (f : B → A) l :
  Forall (λ x, P (f x) x) l → Forall2 P (map f l) l.
Proof. induction 1; by constructor. Qed.
Lemma history_reads s : valid s →
  ActionHistory_from_dict (JObj [("actions", JArr (map (λ a, JObj (action_members a)) (_actions s)));
                                 ("schema_version", JStr ACTION_HISTORY_SCHEMA_VERSION)])
  = Ok {| hi_actions := _actions s |}.
Proof.
  intros Hv. unfold ActionHistory_from_dict. cbn [is_mapping negb].
  match goal with |- context [reject_unknown ?p ?l ?m] => change (reject_unknown p l m) with (Ok tt) end.
  cbn [mbind res_bind].
  match goal with |- context [require_schema ?p ?l ?m] => change (require_schema p l m) with (Ok tt) end.
  cbn [mbind res_bind].
  match goal with |- context [jget ?p "actions"] =>
    change (jget p "actions") with (JArr (map (λ a, JObj (action_members a)) (_actions s))) end.
  cbv iota. rewrite length_map.
  rewrite (proj2 (Nat.leb_le (length (_actions s)) MAX_ACTION_HISTORY)) by apply (valid_count s Hv).
  cbn [guard_or mbind res_bind].
  assert (all_ok (map read_action (map (λ a, JObj (action_members a)) (_actions s))) = Ok (_actions s))
    as ->.
  { apply all_ok_map, forall2_self, (Forall_impl _ _ _ (valid_actions s Hv)). intros a [Hm _ Hs _].
    unfold read_action. cbn [is_mapping negb]. rewrite sorted_action_made by done. by rewrite Hs. }
  cbn [mbind res_bind]. unfold mk_ActionHistory.
  by rewrite (proj2 (Nat.leb_le (length (_actions s)) MAX_ACTION_HISTORY)) by apply (valid_count s Hv).
Qed.
Lemma evidence_reads s : valid s →
  ObservationHistory_from_dict
    (JObj [("observations", JArr (map (λ kv, JObj (observation_members (snd kv))) (_observations s)));
           ("schema_version", JStr OBSERVATION_HISTORY_SCHEMA_VERSION)])
  = Ok {| observations := map snd (_observations s) |}.
Proof.
  intros Hv. destruct (valid_evidence s Hv) as (Hnd & Hn & He).
  unfold ObservationHistory_from_dict.
  match goal with |- context [reject_unknown ?p ?l ?m] => change (reject_unknown p l m) with (Ok tt) end.
  cbn [mbind res_bind].
  match goal with |- context [require_schema ?p ?l ?m] => change (require_schema p l m) with (Ok tt) end.
  cbn [mbind res_bind].
  match goal with |- context [jget ?p "observations"] => change (jget p "observations")
    with (JArr (map (λ kv, JObj (observation_members (snd kv))) (_observations s))) end.
  cbv iota. rewrite length_map.
  rewrite (proj2 (Nat.leb_le (length (_observations s)) MAX_HISTORY_ITEMS)) by done.
  cbn [guard_or mbind res_bind].
  assert (all_ok (map read_observation (map (λ kv, JObj (observation_members (snd kv))) (_observations s)))
          = Ok (map snd (_observations s))) as ->.
  { rewrite <- (map_map snd (λ o, JObj (observation_members o))).
    apply all_ok_map, forall2_self, (Forall_impl _ _ _ He). intros o [Hm _ Hs].
    unfold read_observation. cbn [is_mapping negb]. apply sorted_observation_reads. by rewrite Hs. }
  cbn [mbind res_bind]. unfold mk_ObservationHistory. rewrite length_map.
  rewrite (proj2 (Nat.leb_le (length (_observations s)) MAX_HISTORY_ITEMS)) by done.
  cbn [guard_or mbind res_bind]. rewrite bool_decide_true; [done|].
  by rewrite <- (valid_keys s Hv).
Qed.
Lemma named_observations s : valid s → map named (map snd (_observations s)) = _observations s.
Proof.
  intros Hv. pose proof (valid_keys s Hv) as Hk. unfold named. revert Hk. clear.
  induction (_observations s) as [|[k o] l IH]; cbn; [done|]. intros [= -> Hk]. by rewrite IH.
Qed.

Lemma no_missing_id s : valid s → None ∉ map ac_action_id (_actions s).
Proof.
  intros Hv (a & Ea & Ha)%list_elem_of_fmap. pose proof (valid_actions s Hv) as H.
  rewrite Forall_forall in H. destruct (H a Ha) as [_ _ _ (id & Hid & _)]. congruence.
Qed.
Lemma restore_snapshot {D} (gate : SessionGate D) s :
  valid s → gate_configuration (D := D) = Ok (config_digest s) → _closed s = false →
  restore sha256 float_repr float_of (identity s) gate (snapshot_json s) = Ok s.
Proof.
  intros Hv Hg Hc. unfold restore.
  rewrite (load_json float_repr float_of) by
    (done || by apply snapshot_plain || by apply snapshot_within || apply (valid_bytes s Hv)).
  rewrite sort_snapshot. cbn [mbind res_bind]. rewrite (snapshot_accepted s Hv). cbn [guard_or mbind res_bind].
  unfold new_session. rewrite Hg. cbn [mbind res_bind Session.config_digest].
  set (parsed := JObj (sorted_snapshot s)).
  assert (json_equal (jget parsed "identity") (identity_dict (identity s)) = true) as ->.
  { change (jget parsed "identity") with
      (JObj [("runtime", JStr (si_runtime (identity s))); ("server", jstr (si_server (identity s)));
             ("session_id_sha256", JStr (sha256 (utf8 (si_session_id (identity s)))))]).
    unfold SessionIdentity_as_dict. cbn. rewrite !String.eqb_refl.
    destruct (si_server (identity s)); cbn; by rewrite ?String.eqb_refl. }
  change (jget parsed "configuration_digest") with (JStr (config_digest s)). cbn [json_equal].
  rewrite String.eqb_refl. cbn [guard_or mbind res_bind].
  match goal with |- context [jget parsed "history"] =>
    change (jget parsed "history") with
      (JObj [("actions", JArr (map (λ a, JObj (action_members a)) (_actions s)));
             ("schema_version", JStr ACTION_HISTORY_SCHEMA_VERSION)]) end.
  rewrite (history_reads s Hv). cbn [mbind res_bind hi_actions].
  change (jget parsed "observations") with
    (JObj [("observations", JArr (map (λ kv, JObj (observation_members (snd kv))) (_observations s)));
           ("schema_version", JStr OBSERVATION_HISTORY_SCHEMA_VERSION)]).
  rewrite (evidence_reads s Hv). cbn [mbind res_bind observations].
  change (jget parsed "denied_action_ids") with (JArr (map JStr (denied_list s))).
  change (jget parsed "sequence") with (JInt (_sequence s)). cbn [array_items as_int].
  rewrite only_strings_map. clear parsed.
  assert (negb (bool_decide (None ∈ map ac_action_id (_actions s)))
          && bool_decide (NoDup (map ac_action_id (_actions s))) = true) as ->.
  { rewrite andb_true_iff, negb_true_iff, bool_decide_eq_false, bool_decide_eq_true.
    split; [by apply no_missing_id|apply (valid_ids s Hv)]. }
  cbn [guard_or mbind res_bind].
  assert (bool_decide (NoDup (denied_list s))
          && forallb (λ d, bool_decide (Some d ∈ map ac_action_id (_actions s))) (denied_list s) = true)
    as ->.
  { rewrite andb_true_iff, bool_decide_eq_true, forallb_forall. split; [apply denied_nodup|].
    intros d Hd. apply bool_decide_eq_true, (valid_denied s Hv), in_denied_list. by apply list_elem_of_In. }
  cbn [guard_or mbind res_bind].
  assert (forallb (λ o, bool_decide (Some (ob_action_id o) ∈ map ac_action_id (_actions s))
            && negb (mem (ob_action_id o) (denied_list s))) (map snd (_observations s)) = true) as ->.
  { apply forallb_forall. intros o Ho%list_elem_of_In.
    assert (ob_action_id o ∈ map fst (_observations s)) as [Hi Hd]%(valid_linked s Hv).
    { rewrite (valid_keys s Hv). by apply (list_elem_of_fmap_2 ob_action_id). }
    rewrite andb_true_iff, bool_decide_eq_true, negb_true_iff. split; [done|].
    apply not_true_iff_false. by rewrite mem_elem_of, in_denied_list. }
  cbn [guard_or mbind res_bind]. rewrite length_map.
  rewrite (proj2 (Z.leb_le _ _)) by apply (valid_sequence s Hv). cbn [guard_or mbind res_bind].
  f_equal. destruct (valid_evidence s Hv) as (Hnd & _). rewrite (valid_keys s Hv) in Hnd.
  rewrite by_action_id_named, (named_observations s Hv) by done.
  assert (list_to_set (denied_list s) = _denied s) as ->.
  { apply set_eq. intros d. by rewrite elem_of_list_to_set, in_denied_list. }
  unfold with_history. destruct s as [i c acts obs den seq cl]. cbn in *. by subst cl.
Qed.
End snapshot.
