(* ===== verification/SessionSafety.v ===== *)
(** * The operations of a session ([ordin/session.py])

    Every operation keeps the invariant; an operation that raises leaves the
    session as it was.  Evidence is never attached to an action that the gate
    denied. *)
From stdpp Require Import base list strings gmap sorting.
From Stdlib Require Import Bool Ascii ZArith QArith Lia.
From S2P Require Import Prelude State PyStr Json JsonText JsonParse Regex Policy Context Catalog Risk Temporal Review.
From S2P Require Import Execution Provenance ActionModel RequestReaders ToolCalls Action ActionPolicy.
From S2P Require Import McpContracts ActionGate JsonSchema Approval Session SessionFacts SessionSnapshot.
#[local] Open Scope py_scope.
#[local] Open Scope nat_scope.

(** ** Sizes of texts *)

Definition bytes (s : string) : nat := String.length (utf8 s).
Lemma utf8_app s t : utf8 (s +:+ t) = utf8 s +:+ utf8 t.
Proof.
  induction s as [|c s IH]; [done|]. change (String c s +:+ t) with (String c (s +:+ t)).
  cbn [utf8]. by rewrite IH, str_app_assoc.
Qed.
Lemma bytes_app s t : bytes (s +:+ t) = bytes s + bytes t.
Proof. unfold bytes. by rewrite utf8_app, app_length'. Qed.
Lemma bytes_escape a c : bytes (json_escape a c) ≤ 6.
Proof.
  assert (forallb (λ c, bytes (json_escape a c) <=? 6) JsonText.all_chars = true) as H.
  { destruct a; vm_compute; reflexivity. }
  rewrite forallb_forall in H. apply Nat.leb_le, H, list_elem_of_In, JsonText.in_all_chars.
Qed.
Lemma bytes_json_string a s : bytes (json_string a s) ≤ 6 * String.length s + 2.
Proof.
  unfold json_string. change (String double_quote ?t) with (String double_quote EmptyString +:+ t) at 1.
  rewrite !bytes_app. change (bytes (String double_quote EmptyString)) with 1.
  enough (bytes (json_string_body a s) ≤ 6 * String.length s) by lia.
  induction s as [|c s IH]; [done|]. cbn [json_string_body String.length]. rewrite bytes_app.
  pose proof (bytes_escape a c). lia.
Qed.

(** Replaces the size of each literal by its value. *)
Ltac nat_literal n := lazymatch n with O => idtac | S ?m => nat_literal m end.
Ltac literal_bytes :=
  repeat match goal with
  | |- context [bytes ?t] =>
      let n := eval vm_compute in (bytes t) in nat_literal n; change (bytes t) with n
  end.

(** What a session relies on in a gate. *)
Class GateLaws {D} (gate : SessionGate D) : Prop :=
  gate_configured d : gate_configuration (D := D) = Ok d → hex_digest d = true.

Section operations.
Context (sha256 : string → string) (float_repr : Q → string) (float_of : string → option Q).
Hypothesis sha256_hex : ∀ s, hex_digest (sha256 s) = true.
#[local] Abbreviation plain := (readable float_of float_repr).
#[local] Abbreviation _json := (_json float_repr).
#[local] Abbreviation text := (json_text float_repr compact_layout).
#[local] Abbreviation valid := (valid sha256 float_repr float_of).
#[local] Abbreviation snapshot_json := (snapshot_json sha256).

Lemma snapshot_bytes s :
  bytes (_json (snapshot_json s)) =
    308 + bytes (text (JStr (config_digest s)))
      + bytes (text (JArr (map JStr (denied_list s))))
      + bytes (text (JArr (map (λ a, JObj (action_members a)) (_actions s))))
      + bytes (text (JStr (si_runtime (identity s))))
      + bytes (text (jstr (si_server (identity s))))
      + bytes (text (JStr (sha256 (utf8 (si_session_id (identity s))))))
      + bytes (text (JArr (map (λ kv, JObj (observation_members (snd kv))) (_observations s))))
      + bytes (text (JInt (_sequence s))).
Proof.
  unfold Session._json, json_dumps. rewrite sort_snapshot. unfold sorted_snapshot.
  generalize (JArr (map (λ a, JObj (action_members a)) (_actions s))) as acts.
  generalize (JArr (map (λ kv, JObj (observation_members (snd kv))) (_observations s))) as obs.
  generalize (JArr (map JStr (denied_list s))) as den. intros den obs acts.
  generalize (JStr (config_digest s)), (JStr (si_runtime (identity s))), (jstr (si_server (identity s))),
    (JStr (sha256 (utf8 (si_session_id (identity s))))), (JInt (_sequence s)).
  intros j1 j2 j3 j4 j5.
  cbn [json_text map fst snd]. generalize (text j1), (text j2), (text j3), (text j4), (text j5),
    (text acts), (text obs), (text den). clear. intros.
  unfold join. cbn [String.concat]. rewrite !bytes_app. literal_bytes. lia.
Qed.

(** ** The invariant of the operations *)

Lemma bytes_array l : 2 ≤ bytes (text (JArr l)).
Proof. cbn [json_text]. rewrite !bytes_app. literal_bytes. lia. Qed.
Lemma bytes_fit s : (byte_count (_json (snapshot_json s)) ≤ MAX_SESSION_BYTES)%Z ↔
  (Z.of_nat (bytes (_json (snapshot_json s))) ≤ 2 ^ 20)%Z.
Proof. done. Qed.

(** What a session starts with is small. *)
Lemma hex_bytes s : hex_digest s = true → bytes (text (JStr s)) ≤ 400.
Proof.
  unfold hex_digest. rewrite andb_true_iff, Nat.eqb_eq. intros [Hl _].
  cbn [json_text]. pose proof (bytes_json_string true s). cbn [ensure_ascii compact_layout]. lia.
Qed.
Lemma name_bytes s : String.length s ≤ 4096 → (Z.of_nat (bytes (text (JStr s))) ≤ 25000)%Z.
Proof.
  intros Hl. cbn [json_text]. pose proof (bytes_json_string true s). cbn [ensure_ascii compact_layout]. lia.
Qed.
Lemma no_denied s : _denied s = ∅ → denied_list s = [].
Proof. intros E. unfold denied_list. by rewrite E, elements_empty. Qed.
Lemma empty_valid i d : mk_SessionIdentity i = Ok i → hex_digest d = true →
  valid {| identity := i; config_digest := d; _actions := []; _observations := []; _denied := ∅;
           _sequence := 0; _closed := false |}.
Proof.
  intros Hi Hd. split; try done; try (cbn; set_solver).
  - apply Nat.le_0_l.
  - constructor.
  - split_and!; [constructor|apply Nat.le_0_l|constructor].
  - apply bytes_fit. rewrite snapshot_bytes. cbn [SessionSnapshot.denied_list Session.config_digest Session.identity
      Session._actions Session._observations Session._sequence map].
    destruct (identity_names i Hi) as (Hr & _ & Hs).
    pose proof (hex_bytes d Hd). pose proof (hex_bytes _ (sha256_hex (utf8 (si_session_id i)))).
    pose proof (name_bytes _ (proj2 (bounded_name_ok _ Hr))).
    assert (Z.of_nat (bytes (text (jstr (si_server i)))) ≤ 25000)%Z.
    { destruct (si_server i) as [v|]; [|done]. apply name_bytes, bounded_name_ok, Hs, eq_refl. }
    change (bytes (text (JInt 0))) with 1. change (bytes (text (JArr []))) with 2.
    rewrite no_denied by done. change (bytes (text (JArr (map JStr [])))) with 2. lia.
Qed.
Lemma reset_valid s : valid s → valid (with_history [] [] ∅ (_sequence s) s).
Proof.
  intros Hv. split; try done; try (cbn; set_solver); try apply Hv.
  - apply Nat.le_0_l.
  - constructor.
  - split_and!; [constructor|apply Nat.le_0_l|constructor].
  - pose proof (valid_sequence _ _ _ s Hv). cbn. lia.
  - pose proof (proj1 (bytes_fit s) (valid_bytes _ _ _ s Hv)) as Hb. apply bytes_fit.
    rewrite snapshot_bytes in *. cbn [Session.config_digest Session.identity with_history
      Session._actions Session._observations Session._sequence map].
    rewrite no_denied by done. change (bytes (text (JArr []))) with 2.
    change (bytes (text (JArr (map JStr [])))) with 2.
    pose proof (bytes_array (map JStr (denied_list s))).
    pose proof (bytes_array (map (λ a, JObj (action_members a)) (_actions s))).
    pose proof (bytes_array (map (λ kv, JObj (observation_members (snd kv))) (_observations s))). lia.
Qed.

(** ** Evaluation *)

Section gate.
Context {D : Type}.
#[local] Abbreviation evaluate := (evaluate (D := D) sha256 float_repr float_of).
#[local] Abbreviation observe := (observe sha256 float_repr float_of).
#[local] Abbreviation copy_action := (copy_action float_repr float_of).
#[local] Abbreviation copy_observation := (copy_observation float_repr float_of).

(** What an evaluation assigns. *)
Definition evaluated (gate : SessionGate D) (supported : bool) (action_id : string)
    (proposed : ActionEnvelope) (decision : D) (s : IntegrationSession) : IntegrationSession :=
  let actions := last_actions (_actions s ++ [proposed]) in
  let ids := retained_ids actions in
  let kept := _denied s ∩ list_to_set ids in
  with_history actions
    (List.filter (λ kv, mem (fst kv) ids) (_observations s))
    (if decision_denied decision || (decision_requires_approval decision && negb supported)
     then {[ action_id ]} ∪ kept else kept)
    (_sequence s + 1) s.

Lemma require_open s : require_identity (identity s) s = Ok tt ↔ _closed s = false.
Proof. unfold require_identity. rewrite bool_decide_true by done. cbn. by destruct (_closed s). Qed.
Lemma last_actions_app l a : ∃ k, last_actions (l ++ [a]) = drop k l ++ [a] ∧
  length (drop k l ++ [a]) ≤ 32.
Proof.
  exists (length (l ++ [a]) - 32). unfold last_actions, MAX_ACTION_HISTORY.
  rewrite length_app. cbn [length]. split.
  - rewrite drop_app_le by lia. done.
  - rewrite length_app, length_drop. cbn [length]. lia.
Qed.
Lemma removelast_last {A} (l : list A) a : removelast (l ++ [a]) = l.
Proof. rewrite removelast_app by done. cbn. apply app_nil_r. Qed.

Lemma review_inputs_inv action s proposed history evidence :
  _review_inputs float_repr float_of action s = Ok (proposed, history, evidence) →
  _closed s = false ∧
  (∃ id, ac_action_id action = Some id ∧ truthy id = true ∧
     ∀ prior, prior ∈ _actions s → ac_action_id prior ≠ Some id) ∧
  copy_action action = Ok proposed ∧ history = {| hi_actions := _actions s |} ∧
  evidence = {| observations := map snd (_observations s) |}.
Proof.
  unfold _review_inputs. intros H. apply then_ok in H as [Hc%require_open H].
  apply then_ok in H as [Hid%guard_or_ok H]. apply then_ok in H as [Hf%guard_or_ok H].
  apply bind_ok_iff in H as (proposed' & Hp & H). apply bind_ok_iff in H as (h & Hh & H).
  apply bind_ok_iff in H as (e & He & H). injection H as -> -> ->.
  apply then_ok in Hh as [_ [= <-]]. apply then_ok in He as [_ He]. apply then_ok in He as [_ [= <-]].
  destruct (ac_action_id action) as [id|] eqn:Ea; [|done]. split_and!; try done. exists id.
  split_and!; [done|done|]. intros prior Hprior E. apply negb_true_iff, not_true_iff_false in Hf.
  apply Hf, existsb_exists. exists prior. split; [by apply list_elem_of_In|].
  by apply bool_decide_eq_true.
Qed.
Lemma evaluate_spec gate action check supported s s' d :
  plain (ActionEnvelope_as_dict action) →
  evaluate gate action check supported s = (s', Ok d) →
  ∃ id proposed, ac_action_id action = Some id ∧ _closed s = false ∧
    (∀ prior, prior ∈ _actions s → ac_action_id prior ≠ Some id) ∧
    proposed = sort_action action ∧ action_kept float_repr float_of proposed ∧
    gate_evaluate proposed {| hi_actions := _actions s |}
      {| observations := map snd (_observations s) |} check = Ok d ∧
    s' = evaluated gate supported id proposed d s ∧
    (byte_count (_json (snapshot_json s')) ≤ MAX_SESSION_BYTES)%Z.
Proof.
  unfold Session.evaluate. intros Hp H. apply st_bind_ok in H as (s1 & [[proposed h] e] & Hi & H).
  apply st_asks_ok in Hi as [-> (Hc & (id & Hid & Ht & Hf) & Hcopy & -> & ->)%review_inputs_inv].
  apply copy_action_kept in Hcopy as [Hs Hk]; [|done|by exists id].
  rewrite Hid in H. inv_st. exists id, proposed. rewrite <- Hs.
  match goal with H : _snapshot _ _ _ _ _ _ = Ok _ |- _ => apply snapshot_ok in H as (_ & _ & _ & ->) end.
  match goal with H : _bounded _ _ = Ok _ |- _ => rename H into Hb end.
  match goal with H : ActionEnvelope_from_dict _ = Ok _ |- _ =>
    rewrite made_action_reads in H by apply Hk; injection H as <- end.
  match goal with H : Ok id = Ok _ |- _ => injection H as <- end.
  assert (removelast (last_actions (_actions s ++ [proposed])) ++ [proposed]
          = last_actions (_actions s ++ [proposed])) as ->.
  { destruct (last_actions_app (_actions s) proposed) as (k & -> & _). by rewrite removelast_last. }
  split_and!; try done.
  match goal with H : _bounded _ _ = Ok ?u |- _ =>
    destruct u; by apply guard_or_ok, Z.leb_le in H end.
Qed.

Lemma filter_keys {A} (p : string * A → bool) l :
  NoDup (map fst l) → NoDup (map fst (List.filter p l)).
Proof.
  induction l as [|kv l IH]; cbn; [done|]. intros [Hkv Hl]%NoDup_cons.
  destruct (p kv); cbn; [|by apply IH]. apply NoDup_cons. split; [|by apply IH].
  intros (kv' & E & H)%list_elem_of_fmap. apply Hkv. rewrite E.
  apply list_elem_of_In, filter_In in H as [H _]. by apply (list_elem_of_fmap_2 fst), list_elem_of_In.
Qed.
Lemma filter_named p (l : list (string * ActionObservation)) :
  map fst l = map ob_action_id (map snd l) →
  map fst (List.filter p l) = map ob_action_id (map snd (List.filter p l)).
Proof.
  induction l as [|kv l IH]; cbn; [done|]. intros [= E H]. specialize (IH H).
  destruct (p kv); cbn; [by rewrite E, IH|done].
Qed.
(** The ids that stay in the window. *)
Lemma kept_ids l : Forall (action_kept float_repr float_of) l → map Some (retained_ids l) = map ac_action_id l.
Proof.
  unfold retained_ids. induction 1 as [|a l [_ _ _ (id & Hid & _)] _ IH]; cbn; [done|].
  rewrite Hid. cbn. by rewrite IH.
Qed.
Lemma in_retained l id : id ∈ retained_ids l ↔ Some id ∈ map ac_action_id l.
Proof.
  unfold retained_ids. rewrite list_elem_of_omap, list_elem_of_fmap. naive_solver.
Qed.
Lemma evaluated_valid gate supported id proposed d s :
  valid s → action_kept float_repr float_of proposed → ac_action_id proposed = Some id →
  (∀ prior, prior ∈ _actions s → ac_action_id prior ≠ Some id) →
  (byte_count (_json (snapshot_json (evaluated gate supported id proposed d s))) ≤ MAX_SESSION_BYTES)%Z →
  valid (evaluated gate supported id proposed d s).
Proof.
  intros Hv Hk Hid Hf Hb. unfold evaluated in *.
  destruct (last_actions_app (_actions s) proposed) as (k & E & Hl). rewrite E in *.
  set (window := drop k (_actions s) ++ [proposed]) in *.
  assert (Hdrop : ∀ a, a ∈ drop k (_actions s) → a ∈ _actions s).
  { intros a Ha. rewrite <- (take_drop k (_actions s)). apply elem_of_app. by right. }
  assert (Hobs : ∀ i, i ∈ map fst (List.filter (λ kv, mem (fst kv) (retained_ids window)) (_observations s)) →
            i ∈ map fst (_observations s) ∧ Some i ∈ map ac_action_id window).
  { intros i (kv & -> & Hkv)%list_elem_of_fmap.
    apply list_elem_of_In, filter_In in Hkv as [Hin Hmem%mem_elem_of%in_retained].
    split; [|done]. by apply (list_elem_of_fmap_2 fst), list_elem_of_In. }
  assert (Hlast : Some id ∈ map ac_action_id window).
  { unfold window. rewrite map_app, elem_of_app. right. cbn. rewrite Hid. left. }
  destruct (valid_evidence _ _ _ s Hv) as (Hnd & Hn & He).
  split; cbn [Session.identity Session.config_digest Session._actions Session._observations
              Session._denied Session._sequence with_history]; try apply Hv; try done.
  - apply Forall_app. split; [|by apply Forall_singleton]. apply Forall_drop, (valid_actions _ _ _ s Hv).
  - unfold window. rewrite map_app, fmap_drop. apply NoDup_app. split_and!.
    + pose proof (valid_ids _ _ _ s Hv) as H. rewrite <- (take_drop k (map _ _)) in H.
      by apply NoDup_app in H as (_ & _ & ?).
    + intros j Hj. rewrite <- fmap_drop in Hj. apply list_elem_of_fmap in Hj as (a & -> & Ha%Hdrop).
      cbn. rewrite Hid. intros H%list_elem_of_singleton. by apply (Hf a).
    + cbn. apply NoDup_singleton.
  - apply filter_named. apply (valid_keys _ _ _ s Hv).
  - split_and!; [by apply filter_keys| |].
    + etrans; [|exact Hn]. apply List.filter_length_le.
    + apply Forall_map, Forall_forall. intros kv Hkv. apply list_elem_of_In, filter_In in Hkv as [Hkv _].
      rewrite Forall_map, Forall_forall in He. by apply He, list_elem_of_In.
  - intros i Hi. destruct (Hobs i Hi) as [Hi1 Hi2]. split; [done|].
    destruct (valid_linked _ _ _ s Hv i Hi1) as [Hin Hd].
    assert (i ≠ id) as Hne.
    { intros ->. apply list_elem_of_fmap in Hin as (a & Ea & Ha). by apply (Hf a). }
    destruct (_ || _); set_solver.
  - intros i Hi. assert (i = id ∨ i ∈ retained_ids window) as [->|Hi'%in_retained]; [|done..].
    destruct (_ || _); set_solver.
  - pose proof (valid_sequence _ _ _ s Hv). unfold window. rewrite length_app, length_drop. cbn. lia.
Qed.

(** ** Evidence *)

Definition observed (o : ActionObservation) (s : IntegrationSession) : IntegrationSession :=
  with_history (_actions s) (_observations s ++ [named o]) (_denied s) (_sequence s) s.

Lemma observe_spec o sink s s' u :
  plain (ActionObservation_as_dict o) → observe o sink s = (s', Ok u) →
  ∃ copied, copied = sort_observation o ∧
  _closed s = false ∧ Some (ob_action_id o) ∈ map ac_action_id (_actions s) ∧
  (ob_action_id o ∉ _denied s) ∧ (ob_action_id o ∉ map fst (_observations s)) ∧
  observation_kept float_repr float_of copied ∧
  (∀ f, sink = Some f → f copied = Ok tt) ∧ s' = observed copied s ∧
  length (_observations s') ≤ 32 ∧
  (byte_count (_json (snapshot_json s')) ≤ MAX_SESSION_BYTES)%Z.
Proof.
  unfold Session.observe. intros Hp H. inv_st.
  exists (sort_observation o). set (copied := sort_observation o).
  match goal with H : require_identity _ _ = Ok _ |- _ => rename H into Hc end.
  match goal with H : existsb _ _ = true |- _ => rename H into Hin end.
  match goal with H : negb (bool_decide _) = true |- _ => rename H into Hd end.
  match goal with H : negb (mem _ _) = true |- _ => rename H into Hn end.
  match goal with H : copy_observation _ = Ok ?c |- _ =>
    apply copy_observation_kept in H as [-> Hk]; [|done] end.
  apply negb_true_iff, not_true_iff_false in Hn. rewrite mem_elem_of in Hn.
  match goal with H : _snapshot _ _ _ _ _ _ = Ok _ |- _ =>
    rewrite dict_set_fresh in H by done; apply snapshot_ok in H as (_ & Hl & _ & ->) end.
  match goal with H : _bounded _ _ = Ok ?v |- _ =>
    destruct v; apply guard_or_ok, Z.leb_le in H as Hb end.
  apply negb_true_iff, bool_decide_eq_false in Hd.
  match goal with H : require_identity _ _ = Ok ?v |- _ => destruct v; apply require_open in H end.
  rewrite (dict_set_fresh (ob_action_id o)) by done. split_and!; try done.
  - apply existsb_exists in Hin as (a & Ha & E). apply bool_decide_eq_true in E.
    rewrite <- E. apply (list_elem_of_fmap_2 ac_action_id). by apply list_elem_of_In.
  - intros f ->. match goal with H : context [f _] |- _ => rename H into Hs end.
    rewrite made_observation_reads in Hs by apply Hk.
    match type of Hs with _ = Ok ?v => destruct v; exact Hs end.
Qed.
Lemma observed_valid o s :
  valid s → observation_kept float_repr float_of o →
  Some (ob_action_id o) ∈ map ac_action_id (_actions s) → ob_action_id o ∉ _denied s →
  ob_action_id o ∉ map fst (_observations s) → length (_observations (observed o s)) ≤ 32 →
  (byte_count (_json (snapshot_json (observed o s))) ≤ MAX_SESSION_BYTES)%Z → valid (observed o s).
Proof.
  intros Hv Hk Hin Hd Hn Hl Hb. destruct (valid_evidence _ _ _ s Hv) as (Hnd & _ & He).
  split; try done; try apply Hv; cbn [observed Session._observations with_history Session._actions Session._denied].
  - rewrite !map_app. cbn. by rewrite (valid_keys _ _ _ s Hv).
  - split_and!; [|done|].
    + rewrite map_app. cbn. apply NoDup_app. split_and!; [done| |apply NoDup_singleton].
      intros i Hi ->%list_elem_of_singleton. done.
    + rewrite map_app. apply Forall_app. split; [done|]. by apply Forall_singleton.
  - intros i. rewrite map_app. cbn. intros [Hi|Hi]%elem_of_app; [by apply (valid_linked _ _ _ s Hv)|].
    apply list_elem_of_singleton in Hi as ->. done.
Qed.

(** ** What raises changes nothing *)

#[local] Instance same_session : PreOrder (@eq IntegrationSession) := {}.
#[local] Ltac quiet := repeat first [moves_step | typeclasses eauto].
Lemma evaluate_raises gate action check supported : errs eq (evaluate gate action check supported).
Proof.
  unfold Session.evaluate. apply errs_bind; [typeclasses eauto|quiet|intros [[proposed h] e]].
  cbv beta iota zeta. repeat errs_step quiet.
Qed.
Lemma observe_raises o sink : errs eq (observe o sink).
Proof. unfold Session.observe. cbv zeta. repeat errs_step quiet. Qed.
Lemma reset_raises : errs eq reset.
Proof. unfold reset. repeat errs_step quiet. Qed.
Lemma end_raises : errs eq end_session.
Proof.
  intros s s' e. cbv [end_session reset mbind ST_bind asks].
  by destruct (require_identity (identity s) s); [|intros [= <- _]].
Qed.
Lemma reset_spec s s' u : reset s = (s', Ok u) →
  _closed s = false ∧ s' = with_history [] [] ∅ (_sequence s) s.
Proof.
  unfold reset. intros H. inv_st. split; [|done].
  match goal with H : require_identity _ _ = Ok ?v |- _ => destruct v; by apply require_open in H end.
Qed.
Lemma end_spec s s' u : end_session s = (s', Ok u) →
  _closed s = false ∧ s' = close (with_history [] [] ∅ (_sequence s) s).
Proof.
  unfold end_session. intros H. apply st_bind_ok in H as (s1 & x & H1 & H2).
  apply reset_spec in H1 as [Hc ->]. by apply st_assigns_ok in H2 as [-> _].
Qed.
Lemma close_valid s : valid s → valid (close s).
Proof. intros []. by split. Qed.

(** ** Runs *)

(** A call of a session; an evaluation carries what the gate answers at its time. *)
Inductive Call :=
| CEvaluate (gate : SessionGate D) (action : ActionEnvelope) (check : option MCPContractCheck)
    (approval_supported : bool)
| CObserve (observation : ActionObservation) (before_commit : option (ActionObservation → res unit))
| CReset
| CEnd.
(** The values that a caller passes are values of Python. *)
Definition call_plain (c : Call) : Prop :=
  match c with
  | CEvaluate _ action _ _ => plain (ActionEnvelope_as_dict action)
  | CObserve o _ => plain (ActionObservation_as_dict o)
  | _ => True
  end.
(** The result of a call: the decision of an evaluation. *)
Definition call (c : Call) : ST IntegrationSession (option D) :=
  match c with
  | CEvaluate gate action check supported =>
      d ← evaluate gate action check supported; mret (Some d)
  | CObserve o sink => _ ← observe o sink; mret None
  | CReset => _ ← reset; mret None
  | CEnd => _ ← end_session; mret None
  end.
Fixpoint run (l : list Call) (s : IntegrationSession) : IntegrationSession :=
  match l with [] => s | c :: l' => run l' (fst (call c s)) end.

Lemma call_raises c : errs eq (call c).
Proof.
  destruct c as [gate a k b|o sink| |]; intros s s' e; cbv [call mbind ST_bind mret ST_ret];
    match goal with |- context [match ?m with _ => _ end] => destruct m as [s1 [x|e1]] eqn:E end;
    try discriminate; intros [= <- _].
  - by eapply evaluate_raises.
  - by eapply observe_raises.
  - by eapply reset_raises.
  - by eapply end_raises.
Qed.
Lemma call_valid c s : call_plain c → valid s → valid (fst (call c s)).
Proof.
  intros Hp Hv. destruct (call c s) as [s' [r|e]] eqn:E; cbn [fst].
  - destruct c as [gate a k b|o sink| |]; cbn [call] in E; apply st_bind_ok in E as (s1 & x & E & Er);
      apply st_ret_ok in Er as [-> _].
    + apply evaluate_spec in E as (id & p & Hid & _ & Hf & Hs & Hk & _ & -> & Hb); [|done].
      apply evaluated_valid; try done. rewrite Hs. exact Hid.
    + apply observe_spec in E as (o' & Ho & _ & Hin & Hd & Hn & Hk & _ & -> & Hl & Hb); [|done].
      assert (ob_action_id o' = ob_action_id o) as Hid by by rewrite Ho.
      apply observed_valid; rewrite ?Hid; done.
    + apply reset_spec in E as [_ ->]. by apply reset_valid.
    + apply end_spec in E as [_ ->]. by apply close_valid, reset_valid.
  - apply call_raises in E as <-. done.
Qed.
Lemma run_valid l s : Forall call_plain l → valid s → valid (run l s).
Proof.
  revert s. induction l as [|c l IH]; intros s; [done|]. intros [Hc Hl]%Forall_cons Hv.
  by apply IH, call_valid.
Qed.

Lemma new_session_valid i (gate : SessionGate D) `{!GateLaws gate} s :
  mk_SessionIdentity i = Ok i → new_session i gate = Ok s →
  valid s ∧ identity s = i ∧ _closed s = false ∧ gate_configuration (D := D) = Ok (config_digest s).
Proof.
  intros Hi H. unfold new_session in H. apply bind_ok_iff in H as (d & Hd & [= <-]).
  split_and!; try done. apply empty_valid; [done|by eapply gate_configured].
Qed.

(** ** Denied actions *)

(** A denied action is marked for as long as it is retained. *)
Definition barred (id : string) (s : IntegrationSession) : Prop :=
  Some id ∈ map ac_action_id (_actions s) → id ∈ _denied s.
Definition evaluates (id : string) (c : Call) : Prop :=
  match c with CEvaluate _ action _ _ => ac_action_id action = Some id | _ => False end.

Lemma evaluated_barred gate supported id id' proposed d s :
  ac_action_id proposed = Some id' →
  barred id s ∧ id ≠ id' ∨
  id = id' ∧ (decision_denied d || (decision_requires_approval d && negb supported)) = true →
  barred id (evaluated gate supported id' proposed d s).
Proof.
  intros Hid H. unfold barred, evaluated.
  destruct (last_actions_app (_actions s) proposed) as (k & E & _). rewrite E.
  cbn [Session._actions Session._denied with_history]. intros Hin. destruct H as [[Hb Hne]|[-> ->]]; [|set_solver].
  assert (id ∈ _denied s ∩ list_to_set (retained_ids (drop k (_actions s) ++ [proposed]))) as Hk.
  { apply elem_of_intersection. split; [|by apply elem_of_list_to_set, in_retained].
    apply Hb. rewrite map_app in Hin. apply elem_of_app in Hin as [Hin|Hin].
    - rewrite fmap_drop in Hin. rewrite <- (take_drop k (map ac_action_id (_actions s))).
      apply elem_of_app. by right.
    - cbn in Hin. rewrite Hid in Hin. apply list_elem_of_singleton in Hin. congruence. }
  destruct (_ || _); set_solver.
Qed.
Lemma call_barred id c s : call_plain c → ¬ evaluates id c → barred id s → barred id (fst (call c s)).
Proof.
  intros Hp He Hb. destruct (call c s) as [s' [r|e]] eqn:E; cbn [fst].
  - destruct c as [gate a k b|o sink| |]; cbn [call] in E; apply st_bind_ok in E as (s1 & x & E & Er);
      apply st_ret_ok in Er as [-> _].
    + apply evaluate_spec in E as (id' & p & Hid & _ & _ & Hs & _ & _ & -> & _); [|done].
      apply evaluated_barred; [by rewrite Hs|]. left. split; [done|]. intros ->. by apply He.
    + apply observe_spec in E as (o' & _ & _ & _ & _ & _ & _ & _ & -> & _); [|done]. exact Hb.
    + apply reset_spec in E as [_ ->]. intros H. by apply elem_of_nil in H.
    + apply end_spec in E as [_ ->]. intros H. by apply elem_of_nil in H.
  - by apply call_raises in E as <-.
Qed.
Lemma run_barred id l s : Forall call_plain l → Forall (λ c, ¬ evaluates id c) l → barred id s →
  barred id (run l s).
Proof.
  revert s. induction l as [|c l IH]; intros s; [done|].
  intros [Hc Hl]%Forall_cons [He Hel]%Forall_cons Hb. by apply IH, call_barred.
Qed.
End gate.
End operations.

(** The gate of the actions keeps the law. *)
Lemma host_gate_laws {score : Type} (close_to : score → score → bool)
    (search : string → res (list (@SearchResult score))) default_policy sha256 float_repr digest
    `{RequestReaders} st reuse_start reuse keep {Proof : Type} (accepts : Proof → bool)
    (fulfilled : Proof → ActionReview → bool) h approval_source extension :
  (∀ t, hex_digest (sha256 t) = true) →
  GateLaws (host_gate close_to search default_policy sha256 float_repr digest st reuse_start reuse keep
              accepts fulfilled h approval_source extension).
Proof. intros Hsha d Hd. apply bind_ok_iff in Hd as (u & _ & [= <-]). apply Hsha. Qed.


(** C15: An action that the gate denied, or left to an approval that the host does
    not support, never gets evidence of execution: after the evaluation and any
    calls that do not propose an action of the same id again, a call of
    [observe] for it raises, and the session holds no evidence of it. *)
Theorem denied_never_observed sha256 float_repr float_of {D} (gate : SessionGate D)
    action id check supported s s1 d (l : list (Call (D := D))) o sink :
  (∀ t, hex_digest (sha256 t) = true) →
  valid sha256 float_repr float_of s →
  readable float_of float_repr (ActionEnvelope_as_dict action) → ac_action_id action = Some id →
  evaluate sha256 float_repr float_of gate action check supported s = (s1, Ok d) →
  (decision_denied d || (decision_requires_approval d && negb supported)) = true →
  Forall (call_plain float_repr float_of) l → Forall (λ c, ¬ evaluates id c) l →
  ob_action_id o = id → readable float_of float_repr (ActionObservation_as_dict o) →
  let s2 := run sha256 float_repr float_of l s1 in
  (∃ e, observe sha256 float_repr float_of o sink s2 = (s2, Err e)) ∧
  id ∉ map fst (_observations s2).
Proof.
  intros Hsha Hv Hp Hid E Hd Hl Hne Ho Hpo s2.
  assert (valid sha256 float_repr float_of s1) as Hv1.
  { assert (s1 = fst (call sha256 float_repr float_of (CEvaluate gate action check supported) s)) as ->.
    { cbn [call]. cbv [mbind ST_bind]. by rewrite E. }
    by apply call_valid. }
  apply evaluate_spec in E as (id' & p & Hid' & _ & _ & Hs & _ & _ & E & _); [|done].
  assert (id' = id) as -> by congruence.
  assert (barred id s1) as Hb.
  { rewrite E. apply (evaluated_barred sha256 float_of Hsha); [by rewrite Hs|]. by right. }
  assert (barred id s2) as Hb2 by by apply run_barred.
  assert (valid sha256 float_repr float_of s2) as Hv2 by by apply run_valid.
  split.
  - destruct (observe sha256 float_repr float_of o sink s2) as [s3 [[]|e]] eqn:Eo.
    + apply observe_spec in Eo as (_ & _ & _ & Hin & Hnd & _); [|done]. rewrite Ho in Hin, Hnd.
      by destruct Hnd; apply Hb2.
    + apply observe_raises in Eo as <-. by exists e.
  - intros [Hin Hnd]%(valid_linked _ _ _ s2 Hv2). by apply Hnd, Hb2.
Qed.
