(* ===== verification/SessionStore.v ===== *)
(** * The store of sessions ([ordin/session.py])

    Separate processes that work on one session through the store see the same
    results as one process that keeps the session: a transaction restores what
    the one before it left. *)
From stdpp Require Import base list strings gmap sorting.
From Stdlib Require Import Bool Ascii ZArith QArith Lia.
From S2P Require Import Prelude State PyStr Json JsonText JsonParse Regex Policy Context Catalog Risk Temporal Review.
From S2P Require Import Execution Provenance ActionModel RequestReaders ToolCalls Action ActionPolicy.
From S2P Require Import McpContracts ActionGate JsonSchema Approval Session SessionFacts SessionSnapshot SessionSafety.
#[local] Open Scope py_scope.
#[local] Open Scope nat_scope.

Section store.
Context (sha256 : string → string) (float_repr : Q → string) (float_of : string → option Q).
Hypothesis sha256_hex : ∀ s, hex_digest (sha256 s) = true.
Context {D : Type}.
#[local] Abbreviation _json := (_json float_repr).
#[local] Abbreviation valid := (valid sha256 float_repr float_of).
#[local] Abbreviation snapshot_json := (snapshot_json sha256).
#[local] Abbreviation identity_key := (identity_key sha256 float_repr).
#[local] Abbreviation call := (call (D := D) sha256 float_repr float_of).
#[local] Abbreviation call_plain := (call_plain (D := D) float_repr float_of).
#[local] Abbreviation transaction := (transaction (D := D) sha256 float_repr float_of).

(** The row of a session: none when it has ended. *)
Definition row_of (s : IntegrationSession) : option string :=
  if _closed s then None else Some (_json (snapshot_json s)).
Definition stored (s : IntegrationSession) (table : Sessions) : Prop :=
  table !! identity_key (identity s) = row_of s.

Lemma restore_json i (gate : SessionGate D) payload payload' : _json payload = _json payload' →
  restore (D := D) sha256 float_repr float_of i gate payload
  = restore sha256 float_repr float_of i gate payload'.
Proof. intros E. unfold restore. by rewrite E. Qed.
Lemma open_stored (gate : SessionGate D) create s table :
  valid s → gate_configuration (SessionGate := gate) = Ok (config_digest s) → _closed s = false →
  stored s table →
  open_session sha256 float_repr float_of (identity s) gate create false table = Ok s.
Proof.
  intros Hv Hg Hc Hs. unfold open_session. rewrite Hs. unfold row_of. rewrite Hc.
  rewrite (load_json float_repr float_of) by
    (apply snapshot_plain, Hv || done || by apply (snapshot_within _ _ _ _ Hv) || apply (valid_bytes _ _ _ s Hv)).
  cbn [mbind res_bind].
  rewrite (restore_json _ _ _ (snapshot_json s)); [by apply restore_snapshot|].
  apply (json_sort float_repr float_of), snapshot_plain, Hv.
Qed.

Lemma call_same c s : call_plain c →
  identity (fst (call c s)) = identity s ∧ config_digest (fst (call c s)) = config_digest s.
Proof.
  intros Hp. destruct (call c s) as [s' [r|e]] eqn:E; cbn [fst].
  - destruct c as [gate a k b|o sink| |]; cbn [SessionSafety.call] in E;
      apply st_bind_ok in E as (s1 & x & E & Er); apply st_ret_ok in Er as [-> _].
    + by apply evaluate_spec in E as (id & p & _ & _ & _ & _ & _ & _ & -> & _).
    + by apply observe_spec in E as (o' & _ & _ & _ & _ & _ & _ & _ & -> & _).
    + by apply reset_spec in E as [_ ->].
    + by apply end_spec in E as [_ ->].
  - by apply call_raises in E as <-.
Qed.
Lemma run_same l s : Forall call_plain l →
  identity (run sha256 float_repr float_of l s) = identity s ∧
  config_digest (run sha256 float_repr float_of l s) = config_digest s.
Proof.
  revert s. induction l as [|c l IH]; intros s; [done|]. intros [Hc Hl]%Forall_cons. cbn [run].
  destruct (IH (fst (call c s)) Hl) as [-> ->]. by apply call_same.
Qed.
Definition ended : exn := ValueError "integration session has ended".
Definition missing : exn := ValueError "session state missing; run the session-start lifecycle hook".
Lemma call_ended c s : _closed s = true → call c s = (s, Err ended).
Proof.
  intros Hc. assert (require_identity (identity s) s = Err ended) as E.
  { unfold require_identity. rewrite bool_decide_true by done. cbn. by rewrite Hc. }
  destruct c as [gate a k b|o sink| |]; cbv [SessionSafety.call Session.evaluate observe end_session reset
    _review_inputs mbind ST_bind asks]; by rewrite E.
Qed.
Lemma snapshot_open s : valid s → _closed s = false →
  snapshot sha256 s = (s, Ok (snapshot_json s)).
Proof.
  intros Hv Hc. unfold snapshot. cbv [mbind ST_bind asks].
  assert (require_identity (identity s) s = Ok tt) as -> by by apply require_open.
  assert (_snapshot sha256 (_actions s) (_observations s) (_denied s) (_sequence s) s
          = Ok (snapshot_json s)) as ->; [|done].
  destruct (valid_evidence _ _ _ s Hv) as (Hnd & Hn & _). rewrite (valid_keys _ _ _ s Hv) in Hnd.
  apply snapshot_ok. split_and!; [apply (valid_count _ _ _ s Hv)|done|done|by destruct s].
Qed.

(** One transaction, on a session that has not ended. *)
Lemma transaction_stored (gate : SessionGate D) create c s table :
  valid s → gate_configuration (SessionGate := gate) = Ok (config_digest s) → _closed s = false →
  stored s table → call_plain c →
  ∃ table', transaction (identity s) gate create false (call c) table = (table', snd (call c s)) ∧
    stored (fst (call c s)) table' ∧
    ∀ k, k ≠ identity_key (identity s) → table' !! k = table !! k.
Proof.
  intros Hv Hg Hc Hs Hp. unfold Session.transaction. rewrite open_stored by done.
  pose proof (call_valid _ _ _ sha256_hex c s Hp Hv) as Hv'. destruct (call_same c s Hp) as [Hi _].
  destruct (call c s) as [s' [r|e]] eqn:E; cbn [fst snd] in *.
  - unfold stored, row_of. rewrite Hi. destruct (_closed s') eqn:Hc'.
    + exists (delete (identity_key (identity s)) table). split; [done|].
      split; [by rewrite lookup_delete_eq|]. intros k Hk. by rewrite lookup_delete_ne.
    + rewrite snapshot_open by done. eexists. split; [done|].
      split; [by rewrite lookup_insert_eq|]. intros k Hk. by rewrite lookup_insert_ne.
  - apply call_raises in E as <-. by exists table.
Qed.

(** ** Processes *)

(** Each process opens the store for one call, with its gate. *)
Fixpoint in_store (i : SessionIdentity) (l : list (SessionGate D * Call)) (table : Sessions)
  : list (res (option D)) * Sessions :=
  match l with
  | [] => ([], table)
  | (gate, c) :: l' =>
      let '(table', r) := transaction i gate false false (call c) table in
      let '(rs, table'') := in_store i l' table' in (r :: rs, table'')
  end.
Fixpoint in_memory (l : list Call) (s : IntegrationSession) : list (res (option D)) * IntegrationSession :=
  match l with
  | [] => ([], s)
  | c :: l' =>
      let '(s', r) := call c s in
      let '(rs, s'') := in_memory l' s' in (r :: rs, s'')
  end.
(** The same decisions and errors; a session that has ended is missing from the store. *)
Definition agree (r r' : res (option D)) : Prop := r = r' ∨ r = Err missing ∧ r' = Err ended.

Lemma missing_stored (gate : SessionGate D) c s table : _closed s = true → stored s table →
  transaction (identity s) gate false false (call c) table = (table, Err missing).
Proof.
  intros Hc Hs. unfold stored, row_of in Hs. rewrite Hc in Hs.
  unfold Session.transaction, open_session. by rewrite Hs.
Qed.
Lemma stored_refines l : ∀ s table,
  valid s → stored s table → Forall call_plain (map snd l) →
  Forall (λ p, gate_configuration (SessionGate := fst p) = Ok (config_digest s)) l →
  Forall2 agree (fst (in_store (identity s) l table)) (fst (in_memory (map snd l) s)) ∧
  stored (snd (in_memory (map snd l) s)) (snd (in_store (identity s) l table)) ∧
  ∀ k, k ≠ identity_key (identity s) → snd (in_store (identity s) l table) !! k = table !! k.
Proof.
  induction l as [|[gate c] l IH]; intros s table Hv Hs Hp Hg; [by split_and!|].
  cbn [map snd fst in_store in_memory] in *.
  apply Forall_cons in Hp as [Hc Hp]. apply Forall_cons in Hg as [Hgate Hg]. cbn [fst] in Hgate.
  destruct (_closed s) eqn:Hcl.
  - rewrite missing_stored, call_ended by done. specialize (IH s table Hv Hs Hp Hg).
    destruct (in_store (identity s) l table), (in_memory (map snd l) s). cbn [fst snd] in *.
    destruct IH as (IH1 & IH2). split; [|done]. constructor; [by right|done].
  - destruct (transaction_stored gate false c s table) as (table' & -> & Hs' & Hk); [done..|].
    destruct (call_same c s Hc) as [Hi Hd]. pose proof (call_valid _ _ _ sha256_hex c s Hc Hv) as Hv'.
    destruct (call c s) as [s' r]. cbn [fst snd] in *. rewrite <- Hi in *. rewrite <- Hd in Hg.
    specialize (IH s' table' Hv' Hs' Hp Hg).
    destruct (in_store (identity s') l table'), (in_memory (map snd l) s'). cbn [fst snd] in *.
    destruct IH as (IH1 & IH2 & IH3). split_and!; [|done|].
    + constructor; [by left|done].
    + intros k Hne. by rewrite IH3, Hk.
Qed.

(** A session that a transaction starts in an empty place of the store. *)
Lemma transaction_starts i (gate : SessionGate D) `{!GateLaws gate} c s0 table :
  mk_SessionIdentity i = Ok i → new_session (D := D) i gate = Ok s0 → call_plain c →
  table !! identity_key i = None → size table < MAX_SESSIONS →
  ∃ table', transaction i gate true false (call c) table = (table', snd (call c s0)) ∧
    match snd (call c s0) with Ok _ => stored (fst (call c s0)) table' | Err _ => table' = table end.
Proof.
  intros Hi Hn Hp Ht Hsize.
  destruct (new_session_valid _ float_repr float_of sha256_hex i gate s0 Hi Hn) as (Hv & Eid & _ & _).
  unfold Session.transaction, open_session. rewrite Ht. apply Nat.ltb_lt in Hsize. rewrite Hsize.
  cbn [guard_or mbind res_bind]. rewrite Hn.
  pose proof (call_valid _ _ _ sha256_hex c s0 Hp Hv) as Hv'. destruct (call_same c s0 Hp) as [Ei _].
  destruct (call c s0) as [s' [r|e]]; cbn [fst snd] in *; [|by exists table].
  unfold stored, row_of. rewrite Ei, Eid. destruct (_closed s') eqn:Hc'.
  - eexists. split; [done|]. by rewrite lookup_delete_eq.
  - rewrite snapshot_open by done. eexists. split; [done|]. by rewrite lookup_insert_eq.
Qed.
End store.

(** C16: The store implements a session in memory.  Processes that each open one
    transaction for one call, on a session that the store holds, with gates of
    the configuration of the session, get the decisions and the errors of one
    session in memory; when the session has ended, both refuse.  After any
    calls the store holds the snapshot of that session, or no row when it has
    ended, and no other row has changed. *)
Theorem store_refines_session sha256 float_repr float_of {D} (l : list (SessionGate D * Call (D := D)))
    i (gate : SessionGate D) `{!GateLaws gate} s0 (before : list (Call (D := D))) table :
  (∀ t, hex_digest (sha256 t) = true) →
  mk_SessionIdentity i = Ok i → new_session i gate = Ok s0 →
  Forall (call_plain float_repr float_of) before →
  Forall (call_plain float_repr float_of) (map snd l) →
  Forall (λ p, gate_configuration (SessionGate := fst p) = gate_configuration (SessionGate := gate)) l →
  let s := run sha256 float_repr float_of before s0 in
  stored sha256 float_repr s table →
  let stored_run := in_store sha256 float_repr float_of i l table in
  let memory_run := in_memory sha256 float_repr float_of (map snd l) s in
  Forall2 agree (fst stored_run) (fst memory_run) ∧
  stored sha256 float_repr (snd memory_run) (snd stored_run) ∧
  ∀ k, k ≠ identity_key sha256 float_repr i → snd stored_run !! k = table !! k.
Proof.
  intros Hsha Hi Hn Hb Hp Hg s Hs.
  destruct (new_session_valid _ float_repr float_of Hsha i gate s0 Hi Hn) as (Hv & Eid & _ & Hcfg).
  destruct (run_same sha256 float_repr float_of before s0 Hb) as [Es Ec]. fold s in Es, Ec.
  rewrite Eid in Es. rewrite <- Es. apply stored_refines; [done|by apply run_valid|done|done|].
  apply (Forall_impl _ _ _ Hg). intros p ->. by rewrite Ec.
Qed.

(** C17: The snapshot of a session restores it.  After any calls of a new session
    that do not end it, the value of [snapshot()] passes the schema and every
    check of [restore], also after it was written and read as text, and the
    restored session has the same actions, evidence, denials and sequence. *)
Theorem snapshot_restores sha256 float_repr float_of {D} i (gate : SessionGate D) `{!GateLaws gate}
    s0 (l : list (Call (D := D))) :
  (∀ t, hex_digest (sha256 t) = true) →
  mk_SessionIdentity i = Ok i → new_session i gate = Ok s0 →
  Forall (call_plain float_repr float_of) l →
  let s := run sha256 float_repr float_of l s0 in
  _closed s = false →
  ∃ payload, snapshot sha256 s = (s, Ok payload) ∧
    restore sha256 float_repr float_of i gate payload = Ok s ∧
    (read ← _load float_of (_json float_repr payload); restore sha256 float_repr float_of i gate read) = Ok s.
Proof.
  intros Hsha Hi Hn Hl s Hc.
  destruct (new_session_valid _ float_repr float_of Hsha i gate s0 Hi Hn) as (Hv & Eid & _ & Hcfg).
  destruct (run_same sha256 float_repr float_of l s0 Hl) as [Es Ec]. fold s in Es, Ec.
  assert (valid sha256 float_repr float_of s) as Hvs by by apply run_valid.
  rewrite Eid in Es. exists (snapshot_json sha256 s).
  assert (restore sha256 float_repr float_of i gate (snapshot_json sha256 s) = Ok s) as Hr.
  { rewrite <- Es. apply restore_snapshot; [done..|by rewrite Ec|done]. }
  split_and!; [by apply (snapshot_open sha256 float_repr float_of)|done|].
  pose proof (snapshot_plain sha256 float_repr float_of s Hvs) as Hp.
  rewrite (load_json float_repr float_of) by
    (done || by apply (snapshot_within sha256 float_repr float_of) || apply (valid_bytes _ _ _ s Hvs)).
  cbn [mbind res_bind]. rewrite (restore_json _ _ _ i gate _ (snapshot_json sha256 s)); [done|].
  by apply (json_sort float_repr float_of).
Qed.
