(* ===== verification/ShippedSession.v ===== *)
(** * Sessions at work ([ordin/session.py])

    A gate that denies deletions, a session of three calls, and what the store
    holds after them: the theorems about sessions at concrete values. *)
From stdpp Require Import base list strings gmap sorting.
From Stdlib Require Import Bool Ascii ZArith QArith Lia.
From S2P Require Import Prelude State PyStr Json JsonText JsonParse Policy Context.
From S2P Require Import Execution ActionModel Approval Session SessionFacts SessionSnapshot SessionSafety SessionStore.
#[local] Open Scope py_scope.
#[local] Open Scope nat_scope.

Definition sample_digest : string :=
  "0123456789abcdef0123456789abcdef0123456789abcdef0123456789abcdef".
Definition sample_sha256 (s : string) : string := sample_digest.
Definition sample_repr (q : Q) : string := "0.5".
Definition sample_float (t : string) : option Q := if t =s "0.5" then Some (1 # 2)%Q else None.

(** The decision is whether the action is denied. *)
Definition sample_gate : SessionGate bool :=
  {| gate_configuration := Ok sample_digest;
     gate_evaluate action _ _ _ := Ok (ac_operation action =s "delete");
     decision_denied d := d;
     decision_requires_approval _ := false |}.
#[export] Instance sample_gate_laws : GateLaws sample_gate.
Proof. intros d [= <-]. reflexivity. Qed.

Definition sample_identity : SessionIdentity :=
  {| si_runtime := "runtime"; si_session_id := "s-1"; si_server := Some "files" |}.
Definition sample_action (operation id : string) : ActionEnvelope :=
  {| ac_kind := "tool"; ac_operation := operation;
     ac_parameters := [("path", JStr "/srv/data"); ("depth", JInt 2); ("age", JFloat (1 # 2))];
     ac_intent := None; ac_context := None; ac_action_id := Some id |}.
Definition sample_evidence (id : string) : ActionObservation :=
  {| ob_action_id := id; exit_code := Some 0%Z; ob_effects := ["filesystem.read"];
     ob_resources := [{| or_type := "path"; or_value := "/srv/data" |}];
     metadata := [("rows", JInt 3)] |}.
Definition sample_start : IntegrationSession :=
  {| identity := sample_identity; config_digest := sample_digest; _actions := [];
     _observations := []; _denied := ∅; _sequence := 0; _closed := false |}.
Definition sample_calls : list (Call (D := bool)) :=
  [CEvaluate sample_gate (sample_action "read" "a-1") None true;
   CEvaluate sample_gate (sample_action "delete" "a-2") None true;
   CObserve (sample_evidence "a-1") None].
Definition sample_session : IntegrationSession :=
  run sample_sha256 sample_repr sample_float sample_calls sample_start.

Example sample_session_state :
  map ac_action_id (_actions sample_session) = [Some "a-1"; Some "a-2"] ∧
  map fst (_observations sample_session) = ["a-1"] ∧
  elements (_denied sample_session) = ["a-2"] ∧ _sequence sample_session = 2%Z.
Proof. vm_compute. auto. Qed.

(** ** The hypotheses hold *)

Lemma sample_hex t : hex_digest (sample_sha256 t) = true.
Proof. reflexivity. Qed.
Lemma sample_identity_made : mk_SessionIdentity sample_identity = Ok sample_identity.
Proof. reflexivity. Qed.
Lemma sample_half : float_reads sample_float sample_repr (1 # 2).
Proof.
  split; [|by exists "0"%char, ".5"]. intros [|c rest] Hr; [reflexivity|].
  cbn [stops] in Hr. apply orb_false_elim in Hr as [Hr H1]. apply orb_false_elim in Hr as [Hr H2].
  apply orb_false_elim in Hr as [H3 H4].
  change (sample_repr (1 # 2) +:+ String c rest) with (String "0" (String "." (String "5" (String c rest)))).
  assert (fraction_part (String "." (String "5" (String c rest))) = (".5", String c rest)) as Hf.
  { cbn -[is_digit]. rewrite H3. by change (is_digit "5") with true. }
  assert (exponent_part (String c rest) = (EmptyString, String c rest)) as He.
  { unfold exponent_part. by rewrite H1, H2. }
  unfold match_number. change (integer_part _) with (Some ("0", String "." (String "5" (String c rest)))).
  cbv iota beta. by rewrite Hf, He.
Qed.
Lemma sample_plain c : c ∈ sample_calls → call_plain sample_repr sample_float c.
Proof.
  assert (∀ operation id, readable sample_float sample_repr (ActionEnvelope_as_dict (sample_action operation id)))
    as Ha.
  { intros operation id. apply plain_action, readable_obj.
    split; [apply (bool_decide_unpack _); by vm_compute|].
    repeat (apply Forall_cons; split); try done. apply sample_half. }
  assert (readable sample_float sample_repr (ActionObservation_as_dict (sample_evidence "a-1"))) as Ho.
  { apply plain_observation, readable_obj.
    split; [apply (bool_decide_unpack _); by vm_compute|]. by repeat (apply Forall_cons; split). }
  unfold sample_calls. rewrite !elem_of_cons, elem_of_nil. intros [->|[->|[->|[]]]]; cbn [call_plain]; auto.
Qed.
Lemma sample_calls_plain : Forall (call_plain sample_repr sample_float) sample_calls.
Proof. apply Forall_forall, sample_plain. Qed.
Lemma sample_valid : valid sample_sha256 sample_repr sample_float sample_start.
Proof.
  by apply (new_session_valid sample_sha256 sample_repr sample_float sample_hex sample_identity sample_gate).
Qed.

(** ** The theorems at these values *)

Definition before_deletion : IntegrationSession :=
  run sample_sha256 sample_repr sample_float (firstn 1 sample_calls) sample_start.
Definition after_deletion : IntegrationSession :=
  fst (evaluate sample_sha256 sample_repr sample_float sample_gate (sample_action "delete" "a-2") None true
         before_deletion).
Lemma denied_never_observed_witness :
  let s2 := run (D := bool) sample_sha256 sample_repr sample_float [CObserve (sample_evidence "a-1") None] after_deletion in
  (∃ e, observe sample_sha256 sample_repr sample_float (sample_evidence "a-2") None s2 = (s2, Err e)) ∧
  "a-2" ∉ map fst (_observations s2).
Proof.
  apply (denied_never_observed sample_sha256 sample_repr sample_float sample_gate
    (sample_action "delete" "a-2") "a-2" None true before_deletion after_deletion true
    [CObserve (sample_evidence "a-1") None] (sample_evidence "a-2") None).
  - exact sample_hex.
  - apply run_valid; [exact sample_hex| |exact sample_valid].
    apply Forall_singleton, sample_plain. left.
  - apply (sample_plain (CEvaluate sample_gate (sample_action "delete" "a-2") None true)). right. left.
  - reflexivity.
  - vm_compute. reflexivity.
  - reflexivity.
  - apply Forall_singleton, sample_plain. right. right. left.
  - apply Forall_singleton. exact id.
  - reflexivity.
  - apply plain_observation, readable_obj.
    split; [apply (bool_decide_unpack _); by vm_compute|]. by repeat (apply Forall_cons; split).
Defined.

Definition sample_table : Sessions :=
  {[ identity_key sample_sha256 sample_repr sample_identity :=
       _json sample_repr (snapshot_json sample_sha256 sample_start) ]}.
Lemma store_refines_session_witness :
  let stored_run := in_store sample_sha256 sample_repr sample_float sample_identity
                      (map (pair sample_gate) sample_calls) sample_table in
  let memory_run := in_memory sample_sha256 sample_repr sample_float
                      (map snd (map (pair sample_gate) sample_calls)) sample_start in
  Forall2 agree (fst stored_run) (fst memory_run) ∧
  stored sample_sha256 sample_repr (snd memory_run) (snd stored_run) ∧
  ∀ k, k ≠ identity_key sample_sha256 sample_repr sample_identity →
    snd stored_run !! k = sample_table !! k.
Proof.
  apply (store_refines_session sample_sha256 sample_repr sample_float
    (map (pair sample_gate) sample_calls) sample_identity sample_gate sample_start [] sample_table).
  - exact sample_hex.
  - reflexivity.
  - reflexivity.
  - constructor.
  - rewrite map_map. exact sample_calls_plain.
  - repeat constructor.
  - apply lookup_singleton_eq.
Defined.
Lemma snapshot_restores_witness :
  ∃ payload, snapshot sample_sha256 sample_session = (sample_session, Ok payload) ∧
    restore sample_sha256 sample_repr sample_float sample_identity sample_gate payload = Ok sample_session ∧
    (read ← _load sample_float (_json sample_repr payload);
     restore sample_sha256 sample_repr sample_float sample_identity sample_gate read) = Ok sample_session.
Proof.
  apply (snapshot_restores sample_sha256 sample_repr sample_float sample_identity sample_gate
    sample_start sample_calls).
  - exact sample_hex.
  - reflexivity.
  - reflexivity.
  - exact sample_calls_plain.
  - vm_compute. reflexivity.
Defined.
