(* ===== verification/RuntimeObservation.v ===== *)
(** * Runtime observations ([ordin/runtime_observation.py])

    What a runtime backend reports of an action, the host-owned sources that
    may report more than a caller's word, histories of reports and their
    correlation with the reviewed actions and contracts.  A
    [RuntimeCorrelationError] is a [ValueError] whose text is its reason code.
    The object that the code passes to prove the source of a report is the
    field [ro_authority]; nothing but the constructors of this file fills it. *)
From stdpp Require Import base list strings pretty.
From Stdlib Require Import Bool Ascii ZArith QArith Lia.
From S2P Require Import Prelude PyStr Json JsonText Temporal Execution Requests ActionModel Regex.
From S2P Require Import JsonSchema RuntimeContract.
#[local] Open Scope py_scope.
#[local] Open Scope nat_scope.

Definition RUNTIME_OBSERVATION_SCHEMA_VERSION : string := "ordin.runtime_observation.v1".
Definition RUNTIME_OBSERVATION_HISTORY_SCHEMA_VERSION : string :=
  "ordin.runtime_observation_history.v1".
Definition RuntimeCorrelationError (reason_code : string) : exn := ValueError reason_code.

(** ** Schemas *)

Definition lower_word (maximum : nat) : schema :=
  text_of maximum false
    (Some (word_pattern lower_alpha (λ c, lower_alpha c || digit c || one_of "_.-" c))).
Definition IDENTIFIER_OR_NULL : schema :=
  text_of 128 true (Some (word_pattern alnum (λ c, alnum c || one_of "_.:/@-" c))).
Definition CONTRACT_ID : schema := text_of 67 false (Some (digest_pattern "rc:")).
Definition CONTRACT_ID_OR_NULL : schema := text_of 67 true (Some (digest_pattern "rc:")).
Definition RESOURCE : schema := obj [("type", lower_word 64); ("value", text MAX_TEXT)].
Definition SOURCE_CONTEXT : schema :=
  obj [("backend", IDENTIFIER); ("session_digest", DIGEST); ("sandbox_id", IDENTIFIER);
       ("policy_digest", DIGEST)].
Definition REVIEW_BINDING : schema :=
  obj [("session_digest", DIGEST); ("sequence", typed ["integer"] (Some 1%Z) None);
       ("epoch", typed ["integer"] (Some 0%Z) None)].
Definition OBSERVATION_METADATA : schema :=
  obj_with
    [("event_digest", DIGEST); ("source_schema_version", text 64);
     ("method", enum ["GET"; "HEAD"; "POST"; "PUT"; "PATCH"; "DELETE"; "OPTIONS"; "CONNECT";
                      "TRACE"]);
     ("host", HOST_TEXT); ("port", PORT_NUMBER); ("path", text MAX_TEXT);
     ("binary", text MAX_TEXT); ("process_id", typed ["integer"] (Some 0%Z) None);
     ("request_id_digest", DIGEST); ("protocol", enum ["graphql"; "mcp"; "json-rpc"]);
     ("request_commitment", DIGEST);
     ("request_commitment_algorithm", constant None "ordin.authority-json.sha256.v1")] [].
Definition OBSERVATION_PROPERTIES : list (string * schema) :=
      [("schema_version", constant None "ordin.runtime_observation.v1");
       ("observation_id", IDENTIFIER); ("action_id", text 128);
       ("action_digest", DIGEST_OR_NULL); ("contract_id", CONTRACT_ID_OR_NULL);
       ("backend", IDENTIFIER);
       ("trust", enum ["caller_asserted"; "backend_observed"; "backend_enforced"]);
       ("enforcement_point", enum ["filesystem"; "network"; "process"; "credential"; "tool";
                                   "sandbox"; "unknown"]);
       ("outcome", enum ["allowed"; "denied"; "failed"; "completed"; "unknown"]);
       ("operation", lower_word 128); ("effects", array EFFECT); ("resources", array RESOURCE);
       ("reason_code", IDENTIFIER); ("metadata", OBSERVATION_METADATA);
       ("session_digest", DIGEST_OR_NULL); ("sandbox_id", IDENTIFIER_OR_NULL);
       ("policy_digest", DIGEST_OR_NULL)].
Definition OBSERVATION : schema := obj OBSERVATION_PROPERTIES.
Definition OBSERVATION_HISTORY : schema :=
  obj [("schema_version", constant None "ordin.runtime_observation_history.v1");
       ("observations", array OBSERVATION); ("contracts", array_of CAPABILITY 32)].

(** ** Data *)

(** [_EvidenceAuthority]. *)
Record EvidenceAuthority := { ea_source_key : string; ea_record_digest : string }.

Record RuntimeReviewBinding := {
  rb_session_digest : string; rb_sequence : Z; rb_epoch : Z }.
Definition RuntimeReviewBinding_as_dict (b : RuntimeReviewBinding) : json :=
  JObj [("session_digest", JStr (rb_session_digest b)); ("sequence", JInt (rb_sequence b));
        ("epoch", JInt (rb_epoch b))].

Record RuntimeObservation := {
  ro_observation_id : string;
  ro_action_id : string;
  ro_action_digest : option string;
  ro_contract_id : option string;
  ro_backend : string;
  ro_trust : string;
  ro_enforcement_point : string;
  ro_outcome : string;
  ro_operation : string;
  ro_effects : list string;
  ro_resources : list ObservedResource;
  ro_reason_code : string;
  ro_metadata : list (string * json);
  ro_session_digest : option string;
  ro_sandbox_id : option string;
  ro_policy_digest : option string;
  ro_authority : option EvidenceAuthority }.

Definition observation_members (o : RuntimeObservation) : list (string * json) :=
  [("schema_version", JStr RUNTIME_OBSERVATION_SCHEMA_VERSION);
   ("observation_id", JStr (ro_observation_id o)); ("action_id", JStr (ro_action_id o));
   ("action_digest", jstr (ro_action_digest o)); ("contract_id", jstr (ro_contract_id o));
   ("backend", JStr (ro_backend o)); ("trust", JStr (ro_trust o));
   ("enforcement_point", JStr (ro_enforcement_point o)); ("outcome", JStr (ro_outcome o));
   ("operation", JStr (ro_operation o)); ("effects", jstrings (ro_effects o));
   ("resources", JArr (map ObservedResource_as_dict (ro_resources o)));
   ("reason_code", JStr (ro_reason_code o)); ("metadata", JObj (ro_metadata o));
   ("session_digest", jstr (ro_session_digest o)); ("sandbox_id", jstr (ro_sandbox_id o));
   ("policy_digest", jstr (ro_policy_digest o))].
Definition RuntimeObservation_as_dict (o : RuntimeObservation) : json :=
  JObj (observation_members o).

(** ** URLs and request paths of a report *)

Definition sensitive_url : exn :=
  ValueError "runtime observation rejects sensitive or ambiguous URLs".
Definition url_is_plain (bracketed_host : string → bool) (value : string) : bool :=
  if has_unsafe_authority_characters value then false else
  match urlsplit bracketed_host value with
  | None => false
  | Some url =>
      mem (scheme url) ["https"; "http"] && opt_truthy (hostname (netloc url))
      && negb (has_userinfo (netloc url)) && negb (truthy (query url))
      && negb (truthy (fragment url))
      && match port (netloc url) with
         | Some None => true
         | Some (Some p) => (1 <=? p)%Z && (p <=? 65535)%Z
         | None => false
         end
  end.
Definition path_is_plain (path : json) : bool :=
  match path with
  | JNull => true
  | JStr path => negb (has_unsafe_authority_characters path) && startswith path "/"
                 && negb (contains path "?") && negb (contains path "#")
  | _ => false
  end.
Definition _safe_resources (bracketed_host : string → bool) (resources : list ObservedResource)
    (metadata : list (string * json)) : res unit :=
  _ ← all_ok (map (λ r, guard_or (negb (mem (or_type r) ["url"; "endpoint"])
                                  || url_is_plain bracketed_host (or_value r)) sensitive_url)
                resources);
  guard_or (path_is_plain (jget (JObj metadata) "path"))
    (ValueError "runtime observation path must not contain query or fragment data").

Section observations.
Context (bracketed_host : string → bool).
Context (sha256 : string → string) (float_repr : Q → string).
#[local] Abbreviation validate := (validate float_repr).
#[local] Abbreviation digest := (digest sha256 float_repr).
#[local] Abbreviation _safe_resources := (_safe_resources bracketed_host).

Definition mk_RuntimeReviewBinding (b : RuntimeReviewBinding) : res RuntimeReviewBinding :=
  _ ← validate "runtime_review_binding" REVIEW_BINDING (RuntimeReviewBinding_as_dict b); Ok b.

Definition observation_digest (o : RuntimeObservation) : string :=
  digest (RuntimeObservation_as_dict o).
(** The digest of the scope that a source is for. *)
Definition scope_json (backend session_digest sandbox_id policy_digest : json) : json :=
  JObj [("backend", backend); ("session_digest", session_digest); ("sandbox_id", sandbox_id);
        ("policy_digest", policy_digest)].
Definition source_key (o : RuntimeObservation) : string :=
  digest (scope_json (JStr (ro_backend o)) (jstr (ro_session_digest o))
            (jstr (ro_sandbox_id o)) (jstr (ro_policy_digest o))).

(** The authority, when there is one, is for this scope and this report. *)
Definition authorised (o : RuntimeObservation) : bool :=
  match ro_authority o with
  | Some a => (ea_source_key a =s source_key o) && (ea_record_digest a =s observation_digest o)
  | None => false
  end.
Definition fully_bound (o : RuntimeObservation) : bool :=
  forallb opt_truthy [ro_action_digest o; ro_contract_id o; ro_session_digest o; ro_sandbox_id o;
                      ro_policy_digest o].

(** [__post_init__]. *)
Definition mk_RuntimeObservation (o : RuntimeObservation) : res RuntimeObservation :=
  _ ← text_tuple (ro_effects o);
  _ ← model_tuple (ro_resources o);
  _ ← _safe_resources (ro_resources o) (ro_metadata o);
  _ ← freeze MAX_RUNTIME_ITEMS 0 (JObj (ro_metadata o));
  _ ← validate "runtime_observation" OBSERVATION (RuntimeObservation_as_dict o);
  if ro_trust o =s "caller_asserted" then Ok o else
  _ ← guard_or (fully_bound o) (RuntimeCorrelationError "runtime_observation_missing_binding");
  _ ← guard_or (authorised o) (RuntimeCorrelationError "runtime_observation_untrusted_source");
  Ok o.

(** The observation with the arguments of [_observation_arguments(payload)] and
    the authority, of a payload that has passed the schema. *)
Definition read_observed (item : json) : res ObservedResource :=
  t ← as_str (jget item "type") "type";
  v ← as_str (jget item "value") "value";
  mk_ObservedResource {| or_type := t; or_value := v |}.
Definition read_observation (authority : option EvidenceAuthority) (payload : json)
  : res RuntimeObservation :=
  resources ← items_of read_observed (jget payload "resources");
  observation_id ← as_str (jget payload "observation_id") "observation_id";
  action_id ← as_str (jget payload "action_id") "action_id";
  action_digest ← opt_str_field (jget payload "action_digest") "action_digest";
  contract_id ← opt_str_field (jget payload "contract_id") "contract_id";
  backend ← as_str (jget payload "backend") "backend";
  trust ← as_str (jget payload "trust") "trust";
  enforcement_point ← as_str (jget payload "enforcement_point") "enforcement_point";
  outcome ← as_str (jget payload "outcome") "outcome";
  operation ← as_str (jget payload "operation") "operation";
  effects ← texts_of (jget payload "effects");
  reason_code ← as_str (jget payload "reason_code") "reason_code";
  session_digest ← opt_str_field (jget payload "session_digest") "session_digest";
  sandbox_id ← opt_str_field (jget payload "sandbox_id") "sandbox_id";
  policy_digest ← opt_str_field (jget payload "policy_digest") "policy_digest";
  mk_RuntimeObservation
    {| ro_observation_id := observation_id; ro_action_id := action_id;
       ro_action_digest := action_digest; ro_contract_id := contract_id; ro_backend := backend;
       ro_trust := trust; ro_enforcement_point := enforcement_point; ro_outcome := outcome;
       ro_operation := operation; ro_effects := effects; ro_resources := resources;
       ro_reason_code := reason_code; ro_metadata := members (jget payload "metadata");
       ro_session_digest := session_digest; ro_sandbox_id := sandbox_id;
       ro_policy_digest := policy_digest; ro_authority := authority |}.

Definition trust_is (payload : json) (trust : string) : bool :=
  json_equal (jget payload "trust") (JStr trust).
Definition RuntimeObservation_from_dict (payload : json) : res RuntimeObservation :=
  _ ← validate "runtime_observation" OBSERVATION payload;
  _ ← guard_or (trust_is payload "caller_asserted")
        (RuntimeCorrelationError "runtime_observation_untrusted_source");
  read_observation None payload.

(** ** Sources of evidence *)

Record RuntimeEvidenceSource := {
  es_backend : string; es_session_digest : string; es_sandbox_id : string;
  es_policy_digest : string }.
Definition source_members (s : RuntimeEvidenceSource) : list (string * json) :=
  [("backend", JStr (es_backend s)); ("session_digest", JStr (es_session_digest s));
   ("sandbox_id", JStr (es_sandbox_id s)); ("policy_digest", JStr (es_policy_digest s))].
Definition RuntimeEvidenceSource_as_dict (s : RuntimeEvidenceSource) : json :=
  JObj (source_members s).
Definition mk_RuntimeEvidenceSource (s : RuntimeEvidenceSource) : res RuntimeEvidenceSource :=
  _ ← validate "runtime_source_context" SOURCE_CONTEXT (RuntimeEvidenceSource_as_dict s); Ok s.
Definition es_key (s : RuntimeEvidenceSource) : string := digest (RuntimeEvidenceSource_as_dict s).

(** [source.restore_trusted(payload)]. *)
Definition restore_trusted (s : RuntimeEvidenceSource) (payload : json)
  : res RuntimeObservation :=
  _ ← validate "runtime_observation" OBSERVATION payload;
  _ ← guard_or (forallb (λ kv, json_equal (jget payload (fst kv)) (snd kv)) (source_members s))
        (RuntimeCorrelationError "runtime_observation_source_mismatch");
  _ ← guard_or (trust_is payload "backend_observed" || trust_is payload "backend_enforced")
        (RuntimeCorrelationError "runtime_observation_untrusted_source");
  read_observation
    (Some {| ea_source_key := es_key s; ea_record_digest := digest payload |}) payload.

(** What [observe] is asked to report. *)
Record Report := {
  rp_observation_id : string; rp_trust : string; rp_enforcement_point : string;
  rp_outcome : string; rp_operation : string; rp_effects : list string;
  rp_resources : list ObservedResource; rp_reason_code : string;
  rp_metadata : list (string * json) }.
Definition report_packet (s : RuntimeEvidenceSource) (action_id : string)
    (c : RuntimeCapabilityContract) (r : Report) : json :=
  JObj ([("schema_version", JStr RUNTIME_OBSERVATION_SCHEMA_VERSION);
         ("observation_id", JStr (rp_observation_id r)); ("action_id", JStr action_id);
         ("action_digest", JStr (rc_action_digest c)); ("contract_id", JStr (rc_contract_id c))]
        ++ source_members s
        ++ [("trust", JStr (rp_trust r)); ("enforcement_point", JStr (rp_enforcement_point r));
            ("outcome", JStr (rp_outcome r)); ("operation", JStr (rp_operation r));
            ("effects", jstrings (rp_effects r));
            ("resources", JArr (map ObservedResource_as_dict (rp_resources r)));
            ("reason_code", JStr (rp_reason_code r)); ("metadata", JObj (rp_metadata r))]).
Definition observe (s : RuntimeEvidenceSource) (c : RuntimeCapabilityContract) (r : Report)
  : res RuntimeObservation :=
  match rc_action_id c with
  | None => Err (RuntimeCorrelationError "runtime_observation_action_mismatch")
  | Some action_id =>
      _ ← model_tuple (rp_resources r);
      _ ← _safe_resources (rp_resources r) (rp_metadata r);
      restore_trusted s (report_packet s action_id c r)
  end.

(** ** Histories *)

Record RuntimeObservationHistory := {
  rh_observations : list RuntimeObservation;
  rh_contracts : list RuntimeCapabilityContract }.
Definition RuntimeObservationHistory_as_dict (h : RuntimeObservationHistory) : json :=
  JObj [("schema_version", JStr RUNTIME_OBSERVATION_HISTORY_SCHEMA_VERSION);
        ("observations", JArr (map RuntimeObservation_as_dict (rh_observations h)));
        ("contracts", JArr (map RuntimeCapabilityContract_as_dict (rh_contracts h)))].

Definition mk_RuntimeObservationHistory (h : RuntimeObservationHistory)
  : res RuntimeObservationHistory :=
  _ ← model_tuple (rh_observations h);
  _ ← model_tuple (rh_contracts h);
  _ ← guard_or (bool_decide (NoDup (map ro_observation_id (rh_observations h))))
        (RuntimeCorrelationError "runtime_observation_duplicate");
  _ ← guard_or (negb (bool_decide (None ∈ map rc_action_id (rh_contracts h)))
                && bool_decide (NoDup (map rc_action_id (rh_contracts h))))
        (RuntimeCorrelationError "runtime_observation_contract_mismatch");
  _ ← validate "runtime_observation_history" OBSERVATION_HISTORY
        (RuntimeObservationHistory_as_dict h);
  Ok h.

Definition RuntimeObservationHistory_from_dict (payload : json)
  : res RuntimeObservationHistory :=
  _ ← validate "runtime_observation_history" OBSERVATION_HISTORY payload;
  observations ← items_of RuntimeObservation_from_dict (jget payload "observations");
  contracts ← items_of (RuntimeCapabilityContract_from_dict sha256 float_repr)
                (jget payload "contracts");
  mk_RuntimeObservationHistory
    {| rh_observations := observations; rh_contracts := contracts |}.

(** [RuntimeObservationHistory.restore_trusted(payload, sources=sources)]. *)
Definition restore_item (sources : list RuntimeEvidenceSource) (item : json)
  : res RuntimeObservation :=
  if trust_is item "caller_asserted" then RuntimeObservation_from_dict item else
  let key := digest (scope_json (jget item "backend") (jget item "session_digest")
                       (jget item "sandbox_id") (jget item "policy_digest")) in
  match assoc_last key (map (λ s, (es_key s, s)) sources) with
  | None => Err (RuntimeCorrelationError "runtime_observation_untrusted_source")
  | Some source => restore_trusted source item
  end.
Definition restore_history (sources : list RuntimeEvidenceSource) (payload : json)
  : res RuntimeObservationHistory :=
  _ ← validate "runtime_observation_history" OBSERVATION_HISTORY payload;
  observations ← items_of (restore_item sources) (jget payload "observations");
  contracts ← items_of (RuntimeCapabilityContract_from_dict sha256 float_repr)
                (jget payload "contracts");
  mk_RuntimeObservationHistory
    {| rh_observations := observations; rh_contracts := contracts |}.

(** ** Correlation with the reviewed actions *)

(** The loop that collects the actions by id. *)
Fixpoint collect_actions (l : list ActionEnvelope) (actions : list (string * ActionEnvelope))
  : res (list (string * ActionEnvelope)) :=
  match l with
  | [] => Ok actions
  | action :: l' =>
      match ac_action_id action with
      | None => collect_actions l' actions
      | Some id =>
          if mem id (map fst actions)
          then Err (RuntimeCorrelationError "runtime_observation_action_mismatch")
          else collect_actions l' (actions ++ [(id, action)])
      end
  end.
Definition contract_for (contracts : list RuntimeCapabilityContract) (action_id : string)
  : option RuntimeCapabilityContract :=
  assoc_last action_id
    (omap (λ c, (λ id, (id, c)) <$> rc_action_id c) contracts).

(** The checks that the loop makes of one report. *)
Definition check_observation (actions : list (string * ActionEnvelope))
    (contracts : list RuntimeCapabilityContract) (session_digest : option string)
    (permitted : option (list string)) (o : RuntimeObservation) : res unit :=
  match dict_get (ro_action_id o) actions with
  | None => Err (RuntimeCorrelationError "runtime_observation_action_mismatch")
  | Some action =>
      let canonical := digest (ActionEnvelope_as_dict action) in
      let contract := contract_for contracts (ro_action_id o) in
      _ ← guard_or (match ro_action_digest o with Some d => d =s canonical | None => true end)
            (RuntimeCorrelationError "runtime_observation_action_mismatch");
      _ ← guard_or (match ro_contract_id o, contract with
                    | None, _ => true
                    | Some _, None => false
                    | Some id, Some c => (rc_action_digest c =s canonical)
                                         && (rc_contract_id c =s id)
                    end) (RuntimeCorrelationError "runtime_observation_contract_mismatch");
      _ ← guard_or (match contract with
                    | Some c => negb (rc_decision c =s "block") || (ro_outcome o =s "denied")
                    | None => true
                    end) (RuntimeCorrelationError "runtime_observation_denied_action");
      _ ← guard_or (match session_digest with
                    | Some d => opt_is (ro_session_digest o) d
                    | None => true
                    end) (RuntimeCorrelationError "runtime_observation_session_mismatch");
      guard_or (match permitted with
                | Some keys => (ro_trust o =s "caller_asserted") || mem (source_key o) keys
                | None => true
                end) (RuntimeCorrelationError "runtime_observation_source_mismatch")
  end.

(** [result.setdefault(key, []).append(value)]. *)
Definition dict_append {A} (key : string) (value : A) (l : list (string * list A))
  : list (string * list A) :=
  dict_set key (default [] (dict_get key l) ++ [value]) l.

Fixpoint correlate_loop (check : RuntimeObservation → res unit) (l : list RuntimeObservation)
    (result : list (string * list RuntimeObservation))
  : res (list (string * list RuntimeObservation)) :=
  match l with
  | [] => Ok result
  | o :: l' => _ ← check o; correlate_loop check l' (dict_append (ro_action_id o) o result)
  end.

Definition correlate (h : RuntimeObservationHistory) (history : option ActionHistory)
    (session_digest : option string) (allowed_sources : option (list RuntimeEvidenceSource))
  : res (list (string * list RuntimeObservation)) :=
  match rh_observations h, history with
  | [], _ => Ok []
  | _, None => Err (RuntimeCorrelationError "runtime_observation_action_mismatch")
  | observations, Some history =>
      actions ← collect_actions (hi_actions history) [];
      correlate_loop
        (check_observation actions (rh_contracts h) session_digest (map es_key <$> allowed_sources))
        observations []
  end.
End observations.

(** ** Signals *)

(** The pattern of secret paths: a component [.env], [credentials] or
    [secret(s)], each with an optional extension, or [id_rsa], under
    [re.IGNORECASE]. *)
Definition optional (r : regex) : regex := RAlt r REps.
Definition extension : regex :=
  optional (RSeq (rchar ".") (RStar (RClass (λ c, negb (Ascii.eqb c "/"))))).
Definition secret_path_pattern : regex :=
  rseqs [RAlt RStart (rchar "/");
         ralts [RSeq (rstr ".env") extension; rstr "id_rsa"; RSeq (rstr "credentials") extension;
                rseqs [rstr "secret"; optional (rchar "s"); extension]];
         RAlt (rchar "/") REnd].
Definition secret_resource (r : ObservedResource) : bool :=
  (or_type r =s "secret")
  || (mem (or_type r) ["path"; "file"] && re_search secret_path_pattern (or_value r)).

Definition runtime_observation_signals (o : RuntimeObservation) : list string :=
  ["signal:runtime-enforcement-point:" +:+ ro_enforcement_point o;
   "signal:runtime-reason:" +:+ ro_reason_code o;
   "signal:runtime-" +:+ ro_outcome o]
  ++ (if ro_trust o =s "backend_enforced" then ["signal:runtime-enforced"]
      else if ro_trust o =s "backend_observed" then ["signal:runtime-observed"] else [])
  ++ (if ro_outcome o =s "completed" then
        flat_map (λ e, ["effect:" +:+ e; "signal:observed-effect:" +:+ e]) (ro_effects o)
        ++ ["signal:observed-success"]
      else if ro_outcome o =s "allowed" then
        map (λ e, "signal:runtime-allowed-effect:" +:+ e) (ro_effects o)
      else if ro_outcome o =s "failed" then ["signal:observed-failure"]
      else if ro_outcome o =s "denied" then
        "signal:observed-failure"
        :: map (λ e, "signal:runtime-denied-effect:" +:+ e) (ro_effects o)
        ++ (if negb (ro_trust o =s "caller_asserted")
               && (mem "secret.read" (ro_effects o) || existsb secret_resource (ro_resources o))
            then ["signal:runtime-denied-secret-access"] else [])
      else []).
