(* ===== verification/RuntimeObservationFacts.v ===== *)
(** * Theorems about runtime observations ([ordin/runtime_observation.py])

    Evidence that claims more than the word of a caller comes from a source
    that the host named, of exactly its scope; correlation accepts exactly the
    reports that agree with the reviewed actions and contracts and groups them
    by action; and histories survive their JSON form. *)
From stdpp Require Import base list strings.
From Stdlib Require Import Bool Ascii ZArith QArith Lia.
From S2P Require Import Prelude PyStr Json JsonText Temporal Execution Requests ActionModel Regex.
From S2P Require Import JsonSchema RuntimeContract RuntimeFacts RuntimeRoundTrip.
From S2P Require Import RuntimeObservation.
#[local] Open Scope py_scope.
#[local] Open Scope nat_scope.

Lemma then_guard c e (m : res unit) u : (_ ← guard_or c e; m) = Ok u ↔ c = true ∧ m = Ok u.
Proof. destruct c; cbn; naive_solver. Qed.

(** ** Members of an accepted object *)

Lemma accepted_member properties required m path k v p :
  validate_instance (obj_with properties required) (JObj m) path = [] → (k, v) ∈ m →
  dict_get k properties = Some p → ∃ path', validate_instance p v path' = [].
Proof.
  cbn -[object_errors]. rewrite !app_nil. intros (_ & H & _) Hin Hp.
  apply (flat_map_nil _ _ (k, v)) in H; [|done]. cbn [fst snd] in H.
  induction properties as [|[name q] l IH]; [done|]. cbn [dict_get] in Hp.
  destruct (name =s k); [injection Hp as ->; by eexists|by apply IH].
Qed.
Lemma accepted_enum values v path : validate_instance (enum values) (JStr v) path = [] → v ∈ values.
Proof.
  unfold enum, scalar_schema. cbn. rewrite !app_nil. intros [[H _] _].
  destruct (existsb _ _) eqn:E in H; [|discriminate H]. apply existsb_elem in E as (x & Hx & E).
  apply list_elem_of_fmap in Hx as (w & -> & Hw). by apply eqb_true in E as ->.
Qed.

(** ** Dictionaries *)

Lemma assoc_last_elem {A} k (v : A) l :
  NoDup (map fst l) → assoc_last k l = Some v ↔ (k, v) ∈ l.
Proof.
  induction l as [|[k' v'] l IH] in v |- *; cbn.
  { intros _. split; [done|]. by intros ?%elem_of_nil. }
  intros [Hk Hnd]%NoDup_cons. rewrite elem_of_cons. destruct (assoc_last k l) as [w|] eqn:E.
  - pose proof (proj1 (IH w Hnd) eq_refl) as Hin. split; [intros [= ->]; by right|].
    intros [[= -> ->]|H]; [|by apply (IH v Hnd)].
    exfalso. apply Hk. by apply (list_elem_of_fmap_2 fst) in Hin.
  - assert ((k, v) ∉ l) as Hn by (intros H%(IH v Hnd); discriminate H).
    destruct (String.eqb_spec k' k) as [->|Hne]; naive_solver.
Qed.

Lemma keys_dict_set {A} k (v : A) l x : x ∈ map fst (dict_set k v l) ↔ x = k ∨ x ∈ map fst l.
Proof.
  induction l as [|[k' v'] l IH]; cbn; [rewrite elem_of_cons; naive_solver|].
  destruct (String.eqb_spec k' k) as [->|]; cbn; rewrite !elem_of_cons, ?IH; naive_solver.
Qed.
Lemma dict_set_distinct {A} k (v : A) l : NoDup (map fst l) → NoDup (map fst (dict_set k v l)).
Proof.
  induction l as [|[k' v'] l IH]; cbn; [intros _; apply NoDup_singleton|].
  intros [Hk Hnd]%NoDup_cons. destruct (String.eqb_spec k' k) as [->|Hne]; cbn; [by apply NoDup_cons|].
  apply NoDup_cons. split; [|by apply IH]. rewrite keys_dict_set. naive_solver.
Qed.
Lemma dict_get_distinct {A} k (v : A) l :
  NoDup (map fst l) → dict_get k l = Some v ↔ (k, v) ∈ l.
Proof.
  intros Hnd. split; [apply dict_get_member|].
  induction l as [|[k' v'] l IH]; cbn; [by intros ?%elem_of_nil|].
  cbn in Hnd. apply NoDup_cons in Hnd as [Hk Hnd]. intros [[= -> ->]|H]%elem_of_cons.
  - by rewrite String.eqb_refl.
  - destruct (String.eqb_spec k' k) as [->|]; [|by apply IH].
    exfalso. apply Hk. by apply (list_elem_of_fmap_2 fst) in H.
Qed.

Section facts.
Context (bracketed_host : string → bool).
Context (sha256 : string → string) (float_repr : Q → string).
#[local] Abbreviation digest := (digest sha256 float_repr).
#[local] Abbreviation mk_observation := (mk_RuntimeObservation bracketed_host sha256 float_repr).
#[local] Abbreviation read_observation := (read_observation bracketed_host sha256 float_repr).
#[local] Abbreviation restore_history := (restore_history bracketed_host sha256 float_repr).
#[local] Abbreviation history_from_dict :=
  (RuntimeObservationHistory_from_dict bracketed_host sha256 float_repr).
#[local] Abbreviation mk_history := (mk_RuntimeObservationHistory float_repr).
#[local] Abbreviation source_key := (source_key sha256 float_repr).
#[local] Abbreviation es_key := (es_key sha256 float_repr).

(** ** Constructors keep their fields *)

Lemma mk_observation_id o o' : mk_observation o = Ok o' → o' = o.
Proof.
  unfold mk_RuntimeObservation. intros H. do 5 apply res_bind_ok in H as (_ & _ & H).
  destruct (ro_trust o =s "caller_asserted"); by inv_res.
Qed.
Lemma mk_history_id h h' : mk_history h = Ok h' → h' = h.
Proof. unfold mk_RuntimeObservationHistory. intros H. by inv_res. Qed.

Lemma read_observation_fields authority payload o :
  read_observation authority payload = Ok o →
  ro_authority o = authority ∧ jget payload "trust" = JStr (ro_trust o) ∧
  jget payload "backend" = JStr (ro_backend o) ∧
  jget payload "session_digest" = jstr (ro_session_digest o) ∧
  jget payload "sandbox_id" = jstr (ro_sandbox_id o) ∧
  jget payload "policy_digest" = jstr (ro_policy_digest o).
Proof.
  assert (∀ j m s, as_str j m = Ok s → j = JStr s) as Hs.
  { intros [| | | | | |] m t; cbn; intros H; by inv_res. }
  assert (∀ j m s, opt_str_field j m = Ok s → j = jstr s) as Ho.
  { intros [| | | | | |] m t; cbn; intros H; by inv_res. }
  unfold RuntimeObservation.read_observation. intros H.
  do 15 apply res_bind_ok in H as (? & ? & H). apply mk_observation_id in H as ->.
  cbn [ro_authority ro_trust ro_backend ro_session_digest ro_sandbox_id ro_policy_digest].
  split_and!; [done|by eapply Hs|by eapply Hs|by eapply Ho..].
Qed.

(** ** Sources *)

(** The report has the scope of the source. *)
Definition of_source (s : RuntimeEvidenceSource) (o : RuntimeObservation) : Prop :=
  ro_backend o = es_backend s ∧ ro_session_digest o = Some (es_session_digest s) ∧
  ro_sandbox_id o = Some (es_sandbox_id s) ∧ ro_policy_digest o = Some (es_policy_digest s).
Definition trusted (o : RuntimeObservation) : Prop :=
  ro_trust o = "backend_observed" ∨ ro_trust o = "backend_enforced".

Lemma trust_is_eq payload t u :
  jget payload "trust" = JStr u → trust_is payload t = true ↔ u = t.
Proof. unfold trust_is. intros ->. cbn. apply eqb_true. Qed.

Lemma from_dict_untrusted payload o :
  RuntimeObservation_from_dict bracketed_host sha256 float_repr payload = Ok o →
  ro_trust o = "caller_asserted".
Proof.
  unfold RuntimeObservation_from_dict. intros H. apply res_bind_ok in H as (_ & _ & H).
  apply res_bind_ok in H as (? & Hg & H). apply guard_or_ok in Hg.
  apply read_observation_fields in H as (_ & Ht & _). by apply (trust_is_eq _ _ _ Ht).
Qed.

Lemma json_equal_str o s : json_equal (jstr o) (JStr s) = true → o = Some s.
Proof. destruct o; cbn; [|done]. by intros ->%eqb_true. Qed.

Lemma restore_trusted_scoped s payload o :
  restore_trusted bracketed_host sha256 float_repr s payload = Ok o → of_source s o ∧ trusted o.
Proof.
  unfold restore_trusted. intros H. apply res_bind_ok in H as (_ & _ & H).
  apply res_bind_ok in H as (? & Hm & H). apply guard_or_ok in Hm.
  apply res_bind_ok in H as (? & Ht & H). apply guard_or_ok in Ht.
  apply read_observation_fields in H as (_ & E & Hb & Hs & Hx & Hp).
  cbn [forallb source_members fst snd] in Hm. rewrite Hb, Hs, Hx, Hp in Hm. split_bools. split.
  - split_and!; [|by apply json_equal_str..]. by apply eqb_true.
  - apply orb_true_iff in Ht as [Ht|Ht]; apply (trust_is_eq _ _ _ E) in Ht; [by left|by right].
Qed.

Lemma items_of_inv {A} (read : json → res A) j l :
  items_of read j = Ok l → ∃ items, j = JArr items ∧ Forall2 (λ x y, read x = Ok y) items l.
Proof.
  unfold items_of. destruct j as [| | | | |items|]; try done. cbn. intros H. exists items.
  split; [done|]. revert l H. induction items as [|x items IH]; cbn; intros l H; inv_res;
    constructor; auto.
Qed.
Lemma Forall2_produced {A B} (R : A → B → Prop) l k y : Forall2 R l k → y ∈ k → ∃ x, x ∈ l ∧ R x y.
Proof.
  induction 1 as [|a b l k Hab H IH]; [by intros ?%elem_of_nil|].
  intros [->|Hy]%elem_of_cons; [exists a; split; [left|done]|].
  destruct (IH Hy) as (x & ? & ?). exists x. split; [by right|done].
Qed.

Lemma restore_item_scoped sources item o :
  restore_item bracketed_host sha256 float_repr sources item = Ok o →
  ro_trust o = "caller_asserted" ∨ trusted o ∧ ∃ s, s ∈ sources ∧ of_source s o.
Proof.
  unfold restore_item. destruct (trust_is item "caller_asserted").
  { intros H%from_dict_untrusted. by left. }
  cbv zeta. destruct (assoc_last _ _) as [s|] eqn:E; [|done].
  intros [Hs Ht]%restore_trusted_scoped. right. split; [done|]. exists s. split; [|done].
  assert ((s ∈ map snd (map (λ s, (es_key s, s)) sources))) as Hin.
  { revert E. generalize (map (λ s, (es_key s, s)) sources). clear.
    intros l. induction l as [|[k v] l IH]; cbn; [done|].
    destruct (assoc_last _ l); [intros [= ->]; right; by apply IH|].
    destruct (k =s _); [|done]. intros [= ->]. left. }
  rewrite map_map in Hin. cbn in Hin. by rewrite map_id in Hin.
Qed.

(** C21: Evidence is worth what its origin is: every report that is read from
    ordinary JSON is the assertion of a caller, and a report that is restored
    as observed or enforced by a backend has the scope, that is the backend,
    session, sandbox and policy, of a source that the host has named.  No
    assumption is made on the digest under which the sources are looked up. *)
Theorem trusted_evidence_scoped :
  (∀ payload h, history_from_dict payload = Ok h →
     ∀ o, o ∈ rh_observations h → ro_trust o = "caller_asserted") ∧
  (∀ sources payload h, restore_history sources payload = Ok h →
     ∀ o, o ∈ rh_observations h →
       ro_trust o = "caller_asserted" ∨ trusted o ∧ ∃ s, s ∈ sources ∧ of_source s o).
Proof.
  split.
  - intros payload h. unfold RuntimeObservationHistory_from_dict. intros H o Ho.
    apply res_bind_ok in H as (_ & _ & H). apply res_bind_ok in H as (l & Hl & H).
    apply res_bind_ok in H as (? & _ & ->%mk_history_id).
    apply items_of_inv in Hl as (items & _ & Hl).
    destruct (Forall2_produced _ _ _ _ Hl Ho) as (item & _ & Hx). by eapply from_dict_untrusted.
  - intros sources payload h. unfold RuntimeObservation.restore_history. intros H o Ho.
    apply res_bind_ok in H as (_ & _ & H). apply res_bind_ok in H as (l & Hl & H).
    apply res_bind_ok in H as (? & _ & ->%mk_history_id).
    apply items_of_inv in Hl as (items & _ & Hl).
    destruct (Forall2_produced _ _ _ _ Hl Ho) as (item & _ & Hx). by eapply restore_item_scoped.
Qed.

(** ** Correlation *)

Definition reported (id : string) (l : list RuntimeObservation) : list RuntimeObservation :=
  List.filter (λ o, ro_action_id o =s id) l.

(** The result lists, for every action that is reported on, its reports in order. *)
Definition groups (l : list RuntimeObservation) (r : list (string * list RuntimeObservation))
  : Prop :=
  NoDup (map fst r) ∧ ∀ id, dict_get id r = match reported id l with [] => None | k => Some k end.

Lemma reported_snoc id l o :
  reported id (l ++ [o]) = reported id l ++ (if ro_action_id o =s id then [o] else []).
Proof. unfold reported. rewrite List.filter_app. cbn. by destruct (_ =s _). Qed.

Lemma groups_append l r o :
  groups l r → groups (l ++ [o]) (dict_append (ro_action_id o) o r).
Proof.
  intros [Hnd Hg]. split; [by apply dict_set_distinct|]. intros id. unfold dict_append.
  rewrite dict_get_set, reported_snoc. case_decide as Hid.
  - subst id. rewrite String.eqb_refl, Hg. by destruct (reported _ l).
  - destruct (String.eqb_spec (ro_action_id o) id); [done|]. by rewrite app_nil_r.
Qed.

Lemma correlate_loop_spec check l done r :
  groups done r →
  match correlate_loop check l r with
  | Ok r' => groups (done ++ l) r' ∧ ∀ o, o ∈ l → check o = Ok tt
  | Err e => ∃ o, o ∈ l ∧ check o = Err e
  end.
Proof.
  induction l as [|o l IH] in done, r |- *; intros Hg; cbn [correlate_loop].
  { rewrite app_nil_r. split; [exact Hg|]. by intros o ?%elem_of_nil. }
  destruct (check o) as [[]|e] eqn:Hc; cbn [mbind res_bind]; [|exists o; split; [left|exact Hc]].
  specialize (IH _ _ (groups_append _ _ o Hg)).
  destruct (correlate_loop _ _ _) as [r'|e].
  - destruct IH as [IH1 IH2]. rewrite <- app_assoc in IH1. split; [exact IH1|].
    intros o' [->|Ho]%elem_of_cons; [exact Hc|by apply IH2].
  - destruct IH as (o' & Ho & He). exists o'. split; [by right|exact He].
Qed.

Lemma collect_actions_spec l acc :
  NoDup (map fst acc) →
  match collect_actions l acc with
  | Ok actions => actions = acc ++ omap (λ a, (λ id, (id, a)) <$> ac_action_id a) l ∧
      NoDup (map fst actions)
  | Err _ => ¬ NoDup (map fst acc ++ omap ac_action_id l)
  end.
Proof.
  induction l as [|a l IH] in acc |- *; intros Hnd; cbn [collect_actions].
  { cbn. by rewrite app_nil_r. }
  cbn [omap list_omap]. destruct (ac_action_id a) as [id|]; cbn [fmap option_fmap option_map];
    [|by apply IH].
  destruct (mem id (map fst acc)) eqn:Hm.
  - apply mem_elem_of in Hm. intros H%NoDup_app. destruct H as (_ & H & _).
    apply (H id Hm). left.
  - assert (id ∉ map fst acc) as Hn by (rewrite <- mem_elem_of; congruence).
    specialize (IH (acc ++ [(id, a)])). rewrite map_app in IH. cbn in IH.
    rewrite <- !app_assoc in IH. apply IH.
    apply NoDup_app. split_and!; [done| |apply NoDup_singleton].
    intros x Hx ->%list_elem_of_singleton. done.
Qed.

(** The actions that have an id, under their ids. *)
Definition identified (l : list ActionEnvelope) : list (string * ActionEnvelope) :=
  omap (λ a, (λ id, (id, a)) <$> ac_action_id a) l.
Lemma identified_ids l : map fst (identified l) = omap ac_action_id l.
Proof.
  unfold identified. induction l as [|a l IH]; [done|]. cbn in *.
  by destruct (ac_action_id a); cbn; [f_equal|].
Qed.
Lemma identified_get l id a :
  NoDup (omap ac_action_id l) →
  dict_get id (identified l) = Some a ↔ a ∈ l ∧ ac_action_id a = Some id.
Proof.
  intros Hnd. rewrite dict_get_distinct by by rewrite identified_ids. unfold identified.
  rewrite list_elem_of_omap. split.
  - intros (b & Hb & E). destruct (ac_action_id b) eqn:Eb; [|done]. cbn in E. by injection E as -> ->.
  - intros [Hin E]. exists a. by rewrite E.
Qed.

Lemma contract_for_elem contracts id c :
  NoDup (map rc_action_id contracts) →
  contract_for contracts id = Some c ↔ c ∈ contracts ∧ rc_action_id c = Some id.
Proof.
  intros Hnd. unfold contract_for. rewrite assoc_last_elem.
  - rewrite list_elem_of_omap. split.
    + intros (d & Hd & E). destruct (rc_action_id d) as [k|] eqn:Ek; [|done]. cbn in E.
      injection E as -> ->. done.
    + intros [Hc E]. exists c. by rewrite E.
  - induction contracts as [|d l IH]; cbn; [apply NoDup_nil_2|]. apply NoDup_cons in Hnd as [Hd Hnd].
    destruct (rc_action_id d) as [k|] eqn:Ek; cbn; [|by apply IH].
    apply NoDup_cons. split; [|by apply IH]. intros Hin. apply Hd.
    apply list_elem_of_fmap in Hin as ([k' d'] & E & Hin). cbn in E. subst k'.
    apply list_elem_of_omap in Hin as (e & He & E). destruct (rc_action_id e) as [k'|] eqn:Ee; [|done].
    cbn in E. injection E as -> ->. rewrite <- Ee. by apply (list_elem_of_fmap_2 rc_action_id).
Qed.

(** A report agrees with the reviewed actions, the contracts, the session and
    the sources that are asked for. *)
Record correlated (history : ActionHistory) (contracts : list RuntimeCapabilityContract)
    (session_digest : option string) (allowed : option (list RuntimeEvidenceSource))
    (o : RuntimeObservation) : Prop := {
  co_action : ∃ action, action ∈ hi_actions history ∧
    ac_action_id action = Some (ro_action_id o) ∧
    (∀ d, ro_action_digest o = Some d → d = digest (ActionEnvelope_as_dict action)) ∧
    (∀ id, ro_contract_id o = Some id → ∃ c, c ∈ contracts ∧
       rc_action_id c = Some (ro_action_id o) ∧ rc_contract_id c = id ∧
       rc_action_digest c = digest (ActionEnvelope_as_dict action));
  co_blocked c : c ∈ contracts → rc_action_id c = Some (ro_action_id o) →
    rc_decision c = "block" → ro_outcome o = "denied";
  co_session d : session_digest = Some d → ro_session_digest o = Some d;
  co_source sources : allowed = Some sources →
    ro_trust o = "caller_asserted" ∨ ∃ s, s ∈ sources ∧ es_key s = source_key o }.

Lemma check_observation_correlated history contracts session_digest allowed o :
  NoDup (map rc_action_id contracts) → NoDup (omap ac_action_id (hi_actions history)) →
  check_observation sha256 float_repr (identified (hi_actions history)) contracts
    session_digest (map es_key <$> allowed) o = Ok tt ↔
  correlated history contracts session_digest allowed o.
Proof.
  intros Hc Ha. pose proof (λ id a, identified_get (hi_actions history) id a Ha) as Hact.
  unfold check_observation. set (actions := identified _) in *. clearbody actions.
  destruct (dict_get _ actions) as [action|] eqn:E.
  2:{ split; [done|]. intros [(a & Hin & Hid & _) _ _ _]. exfalso.
      assert (dict_get (ro_action_id o) actions = Some a) as E' by (by apply Hact). congruence. }
  apply Hact in E as [Hin Hid]. cbv zeta. rewrite !then_guard, guard_or_ok. split.
  - intros (H1 & H2 & H3 & H4 & H5). split.
    + exists action. split_and!; [done..| |].
      * intros d Hd. rewrite Hd in H1. by apply eqb_true.
      * intros id Hi. rewrite Hi in H2. destruct (contract_for _ _) as [c|] eqn:Ec; [|done].
        apply (contract_for_elem _ _ _ Hc) in Ec as [? ?]. split_bools. exists c.
        split_and!; [done..|by apply eqb_true|by apply eqb_true].
    + intros c Hcin Hcid Hb. rewrite (proj2 (contract_for_elem _ _ c Hc) (conj Hcin Hcid)), Hb in H3.
      by apply eqb_true.
    + intros d ->. unfold opt_is in H4. destruct (ro_session_digest o); [|done].
      f_equal. by apply eqb_true.
    + intros sources ->. cbn in H5. apply orb_true_iff in H5 as [H5|H5]; [left; by apply eqb_true|].
      right. apply mem_elem_of, list_elem_of_fmap in H5 as (s & ? & ?). by exists s.
  - intros [(a & Hin' & Hid' & Hd & Hcon) Hb Hs Hsrc].
    assert (a = action) as ->.
    { assert (∀ x y : ActionEnvelope, x ∈ hi_actions history → y ∈ hi_actions history →
        ac_action_id x = Some (ro_action_id o) → ac_action_id y = Some (ro_action_id o) → x = y)
        as Huniq; [|by eapply Huniq].
      intros x y Hx Hy Ex Ey. assert (dict_get (ro_action_id o) actions = Some x) by by apply Hact.
      assert (dict_get (ro_action_id o) actions = Some y) by by apply Hact. congruence. }
    split_and!.
    + destruct (ro_action_digest o) as [d|]; [|done]. apply eqb_true. by apply Hd.
    + destruct (ro_contract_id o) as [id|]; [|done].
      destruct (Hcon _ eq_refl) as (c & Hcin & Hcid & <- & Hdig).
      rewrite (proj2 (contract_for_elem _ _ c Hc) (conj Hcin Hcid)), Hdig. by rewrite !String.eqb_refl.
    + destruct (contract_for _ _) as [c|] eqn:Ec; [|done].
      apply (contract_for_elem _ _ _ Hc) in Ec as [? ?].
      destruct (String.eqb_spec (rc_decision c) "block"); [|done]. apply eqb_true. by eapply Hb.
    + destruct session_digest as [d|]; [|done]. rewrite (Hs _ eq_refl). apply String.eqb_refl.
    + destruct allowed as [sources|]; [|done]. cbn.
      destruct (Hsrc _ eq_refl) as [->|(s & Hin0 & Hk)]; [done|]. apply orb_true_iff. right.
      apply mem_elem_of, list_elem_of_fmap. by exists s.
Qed.

(** The reviewed actions have distinct ids, and every report agrees with its
    action, its contract, the session and the sources that are asked for. *)
Definition correlates (h : RuntimeObservationHistory) (history : option ActionHistory)
    (session_digest : option string) (allowed : option (list RuntimeEvidenceSource)) : Prop :=
  ∃ reviewed, history = Some reviewed ∧ NoDup (omap ac_action_id (hi_actions reviewed)) ∧
    ∀ o, o ∈ rh_observations h → correlated reviewed (rh_contracts h) session_digest allowed o.

(** C22: A history without reports gives the empty result, whatever the actions.
    One with reports is accepted exactly when there are reviewed actions, they
    have distinct ids and every report agrees with its action, its contract, the
    session and the sources that are asked for, where a blocked action was only
    ever denied; otherwise correlation raises.  The result lists for every action
    its reports, all of them and in their order. *)
Theorem correlate_exact h history session_digest allowed :
  mk_history h = Ok h →
  match correlate sha256 float_repr h history session_digest allowed with
  | Ok r => groups (rh_observations h) r ∧
      (rh_observations h = [] ∨ correlates h history session_digest allowed)
  | Err _ => rh_observations h ≠ [] ∧ ¬ correlates h history session_digest allowed
  end.
Proof.
  intros Hh.
  assert (NoDup (map rc_action_id (rh_contracts h))) as Hc.
  { revert Hh. unfold mk_RuntimeObservationHistory. intros Hh.
    do 3 apply res_bind_ok in Hh as (_ & _ & Hh). apply res_bind_ok in Hh as (? & Hg & _).
    apply guard_or_ok in Hg. by split_bools. }
  unfold correlate, correlates. destruct (rh_observations h) as [|o0 l0] eqn:El.
  { split; [split; [constructor|done]|by left]. }
  rewrite <- El in *. assert (rh_observations h ≠ []) as Hne by by rewrite El.
  destruct history as [history|]; [|split; [done|by intros (? & ? & _)]].
  pose proof (collect_actions_spec (hi_actions history) [] (NoDup_nil_2 (A := string))) as Hact.
  destruct (collect_actions _ _) as [actions|e]; cbn [mbind res_bind];
    [|split; [done|by intros (? & [= <-] & ? & _)]].
  destruct Hact as [-> Hnd]. cbn [app].
  fold (identified (hi_actions history)) in Hnd |- *.
  assert (NoDup (omap ac_action_id (hi_actions history))) as Ha by by rewrite <- identified_ids.
  pose proof (λ o, check_observation_correlated history (rh_contracts h) session_digest allowed o
    Hc Ha) as Hcheck.
  pose proof (correlate_loop_spec (check_observation sha256 float_repr
    (identified (hi_actions history)) (rh_contracts h) session_digest (map es_key <$> allowed))
    (rh_observations h) [] []) as Hloop.
  destruct (correlate_loop _ _ _) as [r|e].
  - destruct Hloop as [Hg Hall]; [split; [apply NoDup_nil_2|done]|]. split; [done|]. right.
    exists history. split_and!; [done..|]. intros o Ho. by apply Hcheck, Hall.
  - destruct Hloop as (o & Ho & He); [split; [apply NoDup_nil_2|done]|]. split; [done|].
    intros (? & [= <-] & _ & Hall). apply Hall, Hcheck in Ho. congruence.
Qed.

(** ** Reading back *)

(** A report whose parts passed their constructors. *)
Record made_observation (o : RuntimeObservation) : Prop := {
  mo_made : mk_observation o = Ok o;
  mo_resources r : r ∈ ro_resources o → mk_ObservedResource r = Ok r;
  mo_caller : ro_trust o = "caller_asserted" → ro_authority o = None }.

Lemma made_valid o : mk_observation o = Ok o →
  validate float_repr "runtime_observation" OBSERVATION (RuntimeObservation_as_dict o) = Ok tt.
Proof.
  unfold mk_RuntimeObservation. intros H. do 4 apply res_bind_ok in H as (_ & _ & H).
  by apply res_bind_ok in H as ([] & Hv & _).
Qed.
Lemma made_trust o : mk_observation o = Ok o →
  ro_trust o = "caller_asserted" ∨ authorised sha256 float_repr o = true.
Proof.
  unfold mk_RuntimeObservation. intros H. do 5 apply res_bind_ok in H as (_ & _ & H).
  destruct (String.eqb_spec (ro_trust o) "caller_asserted"); [by left|right].
  apply res_bind_ok in H as (_ & _ & H). by apply res_bind_ok in H as (? & ?%guard_or_ok & _).
Qed.
(** The fields with an enumeration have one of its values. *)
Lemma made_known o : mk_observation o = Ok o →
  (trusted o ∨ ro_trust o = "caller_asserted") ∧
  ro_outcome o ∈ ["allowed"; "denied"; "failed"; "completed"; "unknown"] ∧
  ro_enforcement_point o ∈
    ["filesystem"; "network"; "process"; "credential"; "tool"; "sandbox"; "unknown"].
Proof.
  intros Hv%made_valid. unfold validate in Hv.
  do 2 apply res_bind_ok in Hv as (_ & _ & Hv). apply guard_or_ok in Hv.
  unfold accepts in Hv. apply Nat.eqb_eq, length_zero_iff_nil in Hv.
  assert (∀ k v values, (k, JStr v) ∈ observation_members o →
    dict_get k OBSERVATION_PROPERTIES = Some (enum values) → v ∈ values) as Hk.
  { intros k v values Hin Hp. eapply accepted_member in Hin as [path Hin]; [|exact Hv|exact Hp].
    by eapply accepted_enum. }
  assert (ro_trust o ∈ ["caller_asserted"; "backend_observed"; "backend_enforced"]) as Ht.
  { eapply (Hk "trust"); [|reflexivity]. by do 6 right; left. }
  split_and!.
  - rewrite !elem_of_cons in Ht. destruct Ht as [?|[?|[?|?%elem_of_nil]]]; [by right|..]; [..|done].
    + left. by left.
    + left. by right.
  - eapply (Hk "outcome"); [|reflexivity]. by do 8 right; left.
  - eapply (Hk "enforcement_point"); [|reflexivity]. by do 7 right; left.
Qed.

Lemma authorised_by o : authorised sha256 float_repr o = true →
  ro_authority o = Some {| ea_source_key := source_key o;
                           ea_record_digest := observation_digest sha256 float_repr o |}.
Proof.
  unfold authorised. destruct (ro_authority o) as [[k d]|]; [|done]. cbn.
  by intros [->%eqb_true ->%eqb_true]%andb_true_iff.
Qed.

Lemma report_reads o : made_observation o →
  read_observation (ro_authority o) (RuntimeObservation_as_dict o) = Ok o.
Proof.
  intros [Hmk Hres _]. unfold RuntimeObservation.read_observation.
  set (payload := RuntimeObservation_as_dict o).
  assert (items_of read_observed (jget payload "resources") = Ok (ro_resources o)) as ->.
  { apply items_of_map. intros r Hr. unfold read_observed.
    change (jget (ObservedResource_as_dict r) "type") with (JStr (or_type r)).
    change (jget (ObservedResource_as_dict r) "value") with (JStr (or_value r)).
    cbn [as_str mbind res_bind]. destruct r. by apply Hres. }
  change (jget payload "effects") with (jstrings (ro_effects o)). rewrite texts_of_map.
  change (jget payload "action_digest") with (jstr (ro_action_digest o)).
  change (jget payload "contract_id") with (jstr (ro_contract_id o)).
  change (jget payload "session_digest") with (jstr (ro_session_digest o)).
  change (jget payload "sandbox_id") with (jstr (ro_sandbox_id o)).
  change (jget payload "policy_digest") with (jstr (ro_policy_digest o)).
  rewrite !opt_str_jstr. destruct o. exact Hmk.
Qed.

Lemma of_source_key s o : of_source s o → es_key s = source_key o.
Proof.
  intros (Hb & Hs & Hx & Hp). unfold RuntimeObservation.es_key, RuntimeObservation.source_key.
  by rewrite Hb, Hs, Hx, Hp.
Qed.

(** A source restores the trusted reports of its scope. *)
Lemma restore_trusted_reads s o :
  made_observation o → trusted o → of_source s o →
  restore_trusted bracketed_host sha256 float_repr s (RuntimeObservation_as_dict o) = Ok o.
Proof.
  intros Hm Htr Hof. pose proof (of_source_key s o Hof) as Hkey.
  set (payload := RuntimeObservation_as_dict o).
  assert (∀ t, trust_is payload t = (ro_trust o =s t)) as Ht by done.
  unfold restore_trusted.
  assert (validate float_repr "runtime_observation" OBSERVATION payload = Ok tt) as ->
    by by apply made_valid, Hm.
  cbn [mbind res_bind].
  assert (forallb (λ kv, json_equal (jget payload (fst kv)) (snd kv)) (source_members s) = true) as ->.
  { destruct Hof as (Hb & Hsd & Hx & Hp). cbn [forallb source_members fst snd].
    change (jget payload "backend") with (JStr (ro_backend o)).
    change (jget payload "session_digest") with (jstr (ro_session_digest o)).
    change (jget payload "sandbox_id") with (jstr (ro_sandbox_id o)).
    change (jget payload "policy_digest") with (jstr (ro_policy_digest o)).
    rewrite Hb, Hsd, Hx, Hp. cbn. by rewrite !String.eqb_refl. }
  cbn [guard_or mbind res_bind]. rewrite !Ht.
  assert ((ro_trust o =s "backend_observed") || (ro_trust o =s "backend_enforced") = true) as ->
    by by destruct Htr as [->| ->].
  cbn [guard_or mbind res_bind].
  destruct (made_trust o (mo_made o Hm)) as [E|Hau%authorised_by].
  { exfalso. destruct Htr as [Htr|Htr]; rewrite Htr in E; discriminate E. }
  rewrite Hkey. change (digest payload) with (observation_digest sha256 float_repr o).
  rewrite <- Hau. by apply report_reads.
Qed.

Lemma restore_item_reads sources o :
  NoDup (map es_key sources) → made_observation o →
  (ro_trust o ≠ "caller_asserted" → ∃ s, s ∈ sources ∧ of_source s o) →
  restore_item bracketed_host sha256 float_repr sources (RuntimeObservation_as_dict o) = Ok o.
Proof.
  intros Hnd Hm Hsrc. destruct (made_known o (mo_made o Hm)) as [Htr _].
  unfold restore_item. set (payload := RuntimeObservation_as_dict o).
  assert (∀ t, trust_is payload t = (ro_trust o =s t)) as Ht by done. rewrite Ht.
  destruct (String.eqb_spec (ro_trust o) "caller_asserted") as [Ec|Ec].
  { unfold RuntimeObservation_from_dict.
    assert (validate float_repr "runtime_observation" OBSERVATION payload = Ok tt) as ->
      by by apply made_valid, Hm.
    rewrite Ht, Ec.
    cbn [mbind res_bind]. rewrite String.eqb_refl. cbn [guard_or mbind res_bind].
    rewrite <- (mo_caller o Hm Ec). by apply report_reads. }
  destruct (Hsrc Ec) as (s & Hs & Hof). pose proof (of_source_key s o Hof) as Hkey.
  change (digest (scope_json _ _ _ _)) with (source_key o). rewrite <- Hkey.
  assert (assoc_last (es_key s) (map (λ s, (es_key s, s)) sources) = Some s) as ->.
  { apply assoc_last_elem; [by rewrite map_map|].
    by apply (list_elem_of_fmap_2 (λ s, (es_key s, s))). }
  apply restore_trusted_reads; [done| |done]. by destruct Htr.
Qed.

(** C23: A history of reports survives its JSON form: with the sources of its
    trusted reports at hand, under distinct digests, it is restored as it was,
    with the authority of every report; contracts are read back with it. *)
Theorem history_round_trip sources h :
  mk_history h = Ok h →
  (∀ o, o ∈ rh_observations h → made_observation o) →
  (∀ c, c ∈ rh_contracts h →
     made float_repr c ∧ mk_RuntimeCapabilityContract sha256 float_repr c = Ok c) →
  NoDup (map es_key sources) →
  (∀ o, o ∈ rh_observations h → ro_trust o ≠ "caller_asserted" →
     ∃ s, s ∈ sources ∧ of_source s o) →
  restore_history sources (RuntimeObservationHistory_as_dict h) = Ok h.
Proof.
  intros Hh Ho Hc Hnd Hsrc. unfold RuntimeObservation.restore_history.
  set (payload := RuntimeObservationHistory_as_dict h).
  assert (validate float_repr "runtime_observation_history" OBSERVATION_HISTORY payload = Ok tt) as ->.
  { revert Hh. unfold mk_RuntimeObservationHistory. intros H.
    do 4 apply res_bind_ok in H as (_ & _ & H). by apply res_bind_ok in H as ([] & Hv & _). }
  assert (items_of (restore_item bracketed_host sha256 float_repr sources)
            (jget payload "observations") = Ok (rh_observations h)) as ->.
  { apply items_of_map. intros o Hin. apply restore_item_reads; [done|by apply Ho|by apply Hsrc]. }
  assert (items_of (RuntimeCapabilityContract_from_dict sha256 float_repr)
            (jget payload "contracts") = Ok (rh_contracts h)) as ->.
  { apply items_of_map. intros c Hin. by apply contract_reads; apply Hc. }
  destruct h. exact Hh.
Qed.

(** ** Signals *)

(** The signals that speak of the enforcement, the completion and the secrets of
    a report, and no others. *)
#[local] Ltac signals :=
  repeat match goal with
  | H : _ ∈ [] |- _ => by apply elem_of_nil in H
  | H : _ ∈ _ :: _ |- _ => apply elem_of_cons in H as [H|H]; [try discriminate H|]
  | H : _ ∈ _ ++ _ |- _ => apply elem_of_app in H as [H|H]
  | H : _ ∈ map _ _ |- _ =>
      apply list_elem_of_fmap in H as (? & H & ?); try discriminate H
  | H : _ ∈ flat_map _ _ |- _ => apply in_flat_map_elem in H as (? & ? & H)
  | H : _ ∈ (if ?b then _ else _) |- _ => destruct b eqn:?
  end.

Lemma outcome_signal o s :
  ro_outcome o ∈ ["allowed"; "denied"; "failed"; "completed"; "unknown"] →
  s = "signal:runtime-" +:+ ro_outcome o →
  s ∈ ["signal:runtime-allowed"; "signal:runtime-denied"; "signal:runtime-failed";
       "signal:runtime-completed"; "signal:runtime-unknown"].
Proof.
  intros H ->. rewrite !elem_of_cons in *.
  destruct H as [->|[->|[->|[->|[->|?%elem_of_nil]]]]]; [..|done]; cbn; tauto.
Qed.

(** The signals of a report tell what it is worth: only an enforced report
    signals enforcement, only a completed one an effect, exactly those it lists,
    and only a trusted denial of a secret a denied access to a secret. *)
Theorem signals_exact o :
  mk_observation o = Ok o →
  ("signal:runtime-enforced" ∈ runtime_observation_signals o ↔ ro_trust o = "backend_enforced") ∧
  (∀ e, "effect:" +:+ e ∈ runtime_observation_signals o ↔
     ro_outcome o = "completed" ∧ e ∈ ro_effects o) ∧
  ("signal:runtime-denied-secret-access" ∈ runtime_observation_signals o ↔
     ro_outcome o = "denied" ∧ trusted o ∧
     ("secret.read" ∈ ro_effects o ∨ ∃ r, r ∈ ro_resources o ∧ secret_resource r = true)).
Proof.
  intros Hm. destruct (made_known o Hm) as (Htr & Hout & _). clear Hm.
  pose proof (λ s, outcome_signal o s Hout) as Hos. clear Hout.
  unfold runtime_observation_signals. split_and!.
  - split.
    + intros H. signals; try (by apply eqb_true); try discriminate.
      apply Hos in H. signals.
    + intros ->. cbn. do 3 right. left.
  - intros e. split.
    + intros H. signals; try discriminate H. split; [by apply eqb_true|].
      injection H as H. apply str_app_cancel in H as ->. done.
    + intros [-> He]. apply elem_of_app; right. apply elem_of_app; right. cbn.
      apply elem_of_app; left. apply in_flat_map_elem. exists e. split; [done|left].
  - split.
    + intros H. signals; try discriminate H; [apply Hos in H; signals|].
      match goal with H : _ && _ = true |- _ => apply andb_true_iff in H as [Hc Hs] end.
      split_and!; [by apply eqb_true| |].
      * destruct Htr as [?|Htr]; [done|]. rewrite Htr in Hc. discriminate Hc.
      * apply orb_true_iff in Hs as [Hs|Hs]; [left; by apply mem_elem_of|right; by apply existsb_elem].
    + intros (-> & Ht & Hs). apply elem_of_app; right. apply elem_of_app; right. cbn.
      right. apply elem_of_app; right.
      assert (mem "secret.read" (ro_effects o) || existsb secret_resource (ro_resources o) = true) as ->.
      { apply orb_true_iff. destruct Hs; [left; by apply mem_elem_of|right; by apply existsb_elem]. }
      destruct Ht as [->| ->]; left.
Qed.
End facts.
