(* ===== verification/EnforcementBackend.v ===== *)
(** * Enforcement backends ([ordin/enforcement_backend.py])

    Plans, the results of compiling a contract and of validating a plan, and
    the interface of a backend.  A backend is code outside of the core: the
    class [Backend] is an argument of the definitions that use it, and
    [BackendLaws] says that it returns objects that passed their
    constructors. *)
From stdpp Require Import base list strings.
From Stdlib Require Import Bool Ascii ZArith QArith Lia.
From S2P Require Import Prelude PyStr Json Temporal JsonSchema RuntimeContract.
#[local] Open Scope py_scope.
#[local] Open Scope nat_scope.

Record EnforcementPlan := {
  ep_backend : string;
  ep_contract : RuntimeCapabilityContract;
  ep_policy : list (string * json);
  ep_mode : string;
  ep_metadata : list (string * json) }.
Record CompilationResult := {
  cr_status : string;
  cr_backend : string;
  cr_reason_code : string;
  cr_reasons : list string;
  cr_unsupported_fields : list string;
  cr_plan : option EnforcementPlan }.
Record BackendValidationResult := {
  bv_status : string;
  bv_backend : string;
  bv_policy_digest : string;
  bv_reason_code : string;
  bv_reasons : list string;
  bv_unsupported_fields : list string }.

Definition _identifier (value name : string) : res unit :=
  guard_or (accepts IDENTIFIER (JStr value)) (ValueError ("invalid backend " +:+ name)).

(** ** Plans *)

Definition MAX_POLICY_DEPTH : nat := 12.
Definition MAX_EXTENDED_ITEMS : nat := Nat.pow 2 12.
#[global] Arguments MAX_EXTENDED_ITEMS : simpl never.
(** A plan that carries a request contract of the second version may have more
    metadata. *)
Definition extended (metadata : list (string * json)) : bool :=
  let request := jget (JObj metadata) "request_contract" in
  is_mapping request
  && json_equal (jget request "schema_version") (JStr "ordin.runtime_request_contract.v2").

Definition mk_EnforcementPlan (p : EnforcementPlan) : res EnforcementPlan :=
  _ ← _identifier (ep_backend p) "identity";
  _ ← guard_or (mem (ep_mode p) ["shadow"; "enforce"])
        (ValueError "enforcement plan mode must be shadow or enforce");
  _ ← freeze_within MAX_POLICY_DEPTH MAX_RUNTIME_ITEMS 0 (JObj (ep_policy p));
  _ ← freeze (if extended (ep_metadata p) then MAX_EXTENDED_ITEMS else MAX_RUNTIME_ITEMS) 0
        (JObj (ep_metadata p));
  _ ← guard_or (negb ((ep_mode p =s "enforce")
                      && (_base_grant_state (ep_contract p) =s "diagnostic")))
        (ValueError "blocked or uncertain contracts cannot form enforceable plans");
  Ok p.

Definition plan_requires_human_approval (p : EnforcementPlan) : bool :=
  mem (rc_decision (ep_contract p)) ["warn"; "ask"].

Section plans.
Context (sha256 : string → string) (float_repr : Q → string).
#[local] Abbreviation digest := (digest sha256 float_repr).

Definition plan_policy_digest (p : EnforcementPlan) : string := digest (JObj (ep_policy p)).
Definition plan_id (p : EnforcementPlan) : string :=
  "ep:" +:+ digest (JObj [("backend", JStr (ep_backend p));
                          ("contract_digest",
                           JStr (contract_digest sha256 float_repr (ep_contract p)));
                          ("policy_digest", JStr (plan_policy_digest p));
                          ("mode", JStr (ep_mode p)); ("metadata", JObj (ep_metadata p))]).
Definition EnforcementPlan_as_dict (p : EnforcementPlan) : json :=
  JObj [("plan_id", JStr (plan_id p)); ("backend", JStr (ep_backend p));
        ("mode", JStr (ep_mode p));
        ("contract", RuntimeCapabilityContract_as_dict (ep_contract p));
        ("policy", JObj (ep_policy p)); ("policy_digest", JStr (plan_policy_digest p));
        ("requires_human_approval", JBool (plan_requires_human_approval p));
        ("metadata", JObj (ep_metadata p))].
End plans.

(** ** Results *)

Definition mk_CompilationResult (r : CompilationResult) : res CompilationResult :=
  _ ← _identifier (cr_backend r) "identity";
  _ ← _identifier (cr_reason_code r) "reason code";
  _ ← guard_or (mem (cr_status r) ["success"; "unsupported"; "inconclusive"])
        (ValueError "invalid compilation status");
  _ ← text_tuple (cr_reasons r);
  _ ← text_tuple (cr_unsupported_fields r);
  _ ← guard_or (match cr_plan r with Some p => ep_backend p =s cr_backend r | None => true end)
        (ValueError "compilation plan backend mismatch");
  _ ← guard_or (negb (cr_status r =s "success")
                || (bool_decide (is_Some (cr_plan r))
                    && (length (cr_unsupported_fields r) =? 0)))
        (ValueError "successful compilation requires a complete plan");
  _ ← guard_or ((cr_status r =s "success")
                || match cr_plan r with Some p => ep_mode p =s "shadow" | None => true end)
        (ValueError "non-success compilation cannot provide an enforcement plan");
  Ok r.
Definition enforceable (r : CompilationResult) : bool :=
  (cr_status r =s "success")
  && match cr_plan r with Some p => ep_mode p =s "enforce" | None => false end.

Definition mk_BackendValidationResult (r : BackendValidationResult)
  : res BackendValidationResult :=
  _ ← _identifier (bv_backend r) "identity";
  _ ← _identifier (bv_reason_code r) "reason code";
  _ ← guard_or (mem (bv_status r) ["success"; "invalid"; "unsupported"; "inconclusive"])
        (ValueError "invalid backend validation status");
  _ ← guard_or (accepts DIGEST (JStr (bv_policy_digest r)))
        (ValueError "invalid backend policy digest");
  _ ← text_tuple (bv_reasons r);
  _ ← text_tuple (bv_unsupported_fields r);
  _ ← guard_or (negb (bv_status r =s "success") || (length (bv_unsupported_fields r) =? 0))
        (ValueError "successful validation cannot omit unsupported fields");
  Ok r.
Definition bv_ok (r : BackendValidationResult) : bool := bv_status r =s "success".

Definition CompilationResult_as_dict (sha256 : string → string) (float_repr : Q → string)
    (r : CompilationResult) : json :=
  JObj [("status", JStr (cr_status r)); ("backend", JStr (cr_backend r));
        ("reason_code", JStr (cr_reason_code r)); ("reasons", jstrings (cr_reasons r));
        ("unsupported_fields", jstrings (cr_unsupported_fields r));
        ("enforceable", JBool (enforceable r));
        ("plan", match cr_plan r with
                 | Some p => EnforcementPlan_as_dict sha256 float_repr p
                 | None => JNull
                 end)].
Definition BackendValidationResult_as_dict (r : BackendValidationResult) : json :=
  JObj [("status", JStr (bv_status r)); ("backend", JStr (bv_backend r));
        ("policy_digest", JStr (bv_policy_digest r)); ("reason_code", JStr (bv_reason_code r));
        ("reasons", jstrings (bv_reasons r));
        ("unsupported_fields", jstrings (bv_unsupported_fields r))].

(** ** The interface of a backend *)

Class Backend (B : Type) := {
  backend_compile : B → RuntimeCapabilityContract → res CompilationResult;
  backend_validate : B → EnforcementPlan → res BackendValidationResult }.
Class BackendLaws (B : Type) `{!Backend B} := {
  compile_made b c r : backend_compile b c = Ok r → mk_CompilationResult r = Ok r;
  compile_plan_made b c r p :
    backend_compile b c = Ok r → cr_plan r = Some p → mk_EnforcementPlan p = Ok p;
  validate_made b p r : backend_validate b p = Ok r → mk_BackendValidationResult r = Ok r }.

(** ** What plans and results promise *)

Lemma not_diagnostic c :
  (_base_grant_state c =s "diagnostic") = false → rc_decision c ≠ "block" ∧ rc_unknowns c = [].
Proof.
  unfold _base_grant_state. destruct (String.eqb_spec (rc_decision c) "block"); [done|].
  destruct (rc_unknowns c); [done|]. done.
Qed.

(** A plan is what was given, and an enforced one is for a contract that is
    neither blocked nor uncertain. *)
Lemma mk_plan_inv p p' : mk_EnforcementPlan p = Ok p' → p' = p ∧
  (ep_mode p = "enforce" →
   rc_decision (ep_contract p) ≠ "block" ∧ rc_unknowns (ep_contract p) = []).
Proof.
  unfold mk_EnforcementPlan. intros H. inv_res. split; [done|]. intros E.
  apply not_diagnostic. rewrite E in *. by split_bools.
Qed.

Lemma mk_compilation_inv r r' : mk_CompilationResult r = Ok r' → r' = r ∧
  (cr_status r = "success" → ∃ p, cr_plan r = Some p ∧ ep_backend p = cr_backend r) ∧
  (cr_status r ≠ "success" → ∀ p, cr_plan r = Some p → ep_mode p = "shadow").
Proof.
  unfold mk_CompilationResult. intros H. inv_res. split; [done|]. split.
  - intros E. rewrite E in *. destruct (cr_plan r') as [p|]; [|done].
    exists p. split; [done|]. by apply String.eqb_eq.
  - intros E%String.eqb_neq p Hp. rewrite E, Hp in *. by apply String.eqb_eq.
Qed.

(** What a lawful backend compiles to an enforceable plan is neither blocked nor
    uncertain. *)
Lemma enforceable_certain `{BackendLaws B} (b : B) c r :
  backend_compile b c = Ok r → enforceable r = true →
  ∃ p, cr_plan r = Some p ∧ rc_decision (ep_contract p) ≠ "block" ∧ rc_unknowns (ep_contract p) = [].
Proof.
  intros Hc. unfold enforceable. intros [_ He]%andb_true_iff. destruct (cr_plan r) as [p|] eqn:Hp; [|done].
  exists p. split; [done|]. apply String.eqb_eq in He.
  pose proof (compile_plan_made b c r p Hc Hp) as Hmade. apply mk_plan_inv in Hmade as [_ Hmade]. by apply Hmade.
Qed.
