(* ===== verification/CapabilityDelta.v ===== *)
(** * Capability deltas ([ordin/capability_delta.py])

    The proposal that follows a denial of the runtime: the one requirement of
    the reviewed contract that the denial is about, narrowed to what was
    denied, checked against the boundary of the operator and, when a backend is
    given, compiled and validated by it. *)
From stdpp Require Import base list strings.
From Stdlib Require Import Bool Ascii ZArith QArith Lia.
From stdpp Require Import base list strings sorting.
From S2P Require Import Prelude PyStr Json Policy Temporal Execution Provenance Commitment.
From S2P Require Import Requests ActionModel JsonSchema RuntimeContract.
From S2P Require Import RuntimeDerive RuntimeBoundary RuntimeObservation EnforcementBackend.
From S2P Require Import RuntimeFacts RuntimeDeriveFacts RuntimeRoundTrip.
#[local] Open Scope py_scope.
#[local] Open Scope nat_scope.

Definition CAPABILITY_DELTA_PROPOSAL_SCHEMA_VERSION : string :=
  "ordin.capability_delta_proposal.v1".

(** ** Schemas *)

(** [{"type": "object", "maxProperties": 32, "additionalProperties": True}]. *)
Definition DETAILS : schema :=
  {| sc_type := Some ["object"]; sc_const := None; sc_enum := None; sc_min_length := None;
     sc_max_length := None; sc_pattern := None; sc_minimum := None; sc_maximum := None;
     sc_unique_items := false; sc_min_items := None; sc_max_items := None; sc_items := None;
     sc_max_properties := Some 32; sc_required := []; sc_properties := [];
     sc_additional := true; sc_additional_schema := None; sc_any_of := None;
     sc_one_of := None |}.
Definition any_of (l : list schema) : schema :=
  {| sc_type := None; sc_const := None; sc_enum := None; sc_min_length := None;
     sc_max_length := None; sc_pattern := None; sc_minimum := None; sc_maximum := None;
     sc_unique_items := false; sc_min_items := None; sc_max_items := None; sc_items := None;
     sc_max_properties := None; sc_required := []; sc_properties := [];
     sc_additional := true; sc_additional_schema := None; sc_any_of := Some l;
     sc_one_of := None |}.
Definition DELTA_VERIFICATION : schema :=
  obj [("step", IDENTIFIER); ("result", text 64); ("reason_code", IDENTIFIER);
       ("details", DETAILS)].
Definition DELTA : schema :=
  obj [("schema_version", constant None "ordin.capability_delta_proposal.v1");
       ("proposal_id", text_of 67 false (Some (digest_pattern "dp:")));
       ("action_id", text 128); ("action_digest", DIGEST); ("contract_id", CONTRACT_ID);
       ("denial_observation_id", IDENTIFIER);
       ("requested_delta", any_of [CAPABILITY; typed ["null"] None None]);
       ("reason_code", IDENTIFIER); ("verification", array_of DELTA_VERIFICATION 8);
       ("requires_human_approval", typed ["boolean"] None None);
       ("status", enum ["draft"; "verified"; "requires_approval"; "rejected"; "approved";
                        "applied"])].

(** ** Proposals *)

Record CapabilityDeltaProposal := {
  cp_action_id : string;
  cp_action_digest : string;
  cp_contract_id : string;
  cp_denial_observation_id : string;
  cp_requested_delta : option RuntimeCapabilityContract;
  cp_reason_code : string;
  cp_verification : list json;
  cp_requires_human_approval : bool;
  cp_status : string;
  cp_proposal_id : string }.
Definition with_proposal_id (id : string) (p : CapabilityDeltaProposal)
  : CapabilityDeltaProposal :=
  {| cp_action_id := cp_action_id p; cp_action_digest := cp_action_digest p;
     cp_contract_id := cp_contract_id p;
     cp_denial_observation_id := cp_denial_observation_id p;
     cp_requested_delta := cp_requested_delta p; cp_reason_code := cp_reason_code p;
     cp_verification := cp_verification p;
     cp_requires_human_approval := cp_requires_human_approval p; cp_status := cp_status p;
     cp_proposal_id := id |}.

Definition proposal_members (p : CapabilityDeltaProposal) : list (string * json) :=
  [("schema_version", JStr CAPABILITY_DELTA_PROPOSAL_SCHEMA_VERSION);
   ("action_id", JStr (cp_action_id p)); ("action_digest", JStr (cp_action_digest p));
   ("contract_id", JStr (cp_contract_id p));
   ("denial_observation_id", JStr (cp_denial_observation_id p));
   ("requested_delta", match cp_requested_delta p with
                       | Some c => RuntimeCapabilityContract_as_dict c
                       | None => JNull
                       end);
   ("reason_code", JStr (cp_reason_code p)); ("verification", JArr (cp_verification p));
   ("requires_human_approval", JBool (cp_requires_human_approval p));
   ("status", JStr (cp_status p))].
Definition proposal_material (p : CapabilityDeltaProposal) : json := JObj (proposal_members p).
Definition CapabilityDeltaProposal_as_dict (p : CapabilityDeltaProposal) : json :=
  JObj (proposal_members p ++ [("proposal_id", JStr (cp_proposal_id p))]).

(** ** Equality of contracts *)

Definition process_eqb (p q : ProcessCapability) : bool :=
  bool_decide (pc_execution p = pc_execution q)
  && bool_decide (pc_executables p = pc_executables q)
  && bool_decide (pc_spawn_children p = pc_spawn_children q).
Definition privilege_eqb (p q : PrivilegeCapability) : bool :=
  bool_decide (vc_escalation p = vc_escalation q)
  && bool_decide (vc_required_euid p = vc_required_euid q).
(** [==] of the dataclass, field by field. *)
Definition contract_eqb (c d : RuntimeCapabilityContract) : bool :=
  bool_decide (rc_action_id c = rc_action_id d) && (rc_action_digest c =s rc_action_digest d)
  && (rc_decision c =s rc_decision d) && (rc_risk c =s rc_risk d)
  && bool_decide (rc_filesystem c = rc_filesystem d)
  && bool_decide (rc_network c = rc_network d) && bool_decide (rc_tools c = rc_tools d)
  && process_eqb (rc_process c) (rc_process d)
  && privilege_eqb (rc_privilege c) (rc_privilege d)
  && bool_decide (rc_credentials c = rc_credentials d)
  && bool_decide (rc_unknowns c = rc_unknowns d)
  && json_equal (JObj (rc_source c)) (JObj (rc_source d))
  && (rc_contract_id c =s rc_contract_id d).

(** ** Narrowing one requirement *)

(** What a proposal asks for instead of the capabilities of the contract. *)
Record Narrowed := {
  na_filesystem : list FilesystemCapability;
  na_network : list NetworkCapability;
  na_tools : list ToolCapability;
  na_credentials : list CredentialBinding;
  na_process : ProcessCapability }.
Definition no_process : ProcessCapability :=
  {| pc_execution := Some false; pc_executables := []; pc_spawn_children := None |}.
Definition nothing : Narrowed :=
  {| na_filesystem := []; na_network := []; na_tools := []; na_credentials := [];
     na_process := no_process |}.

Definition values_of (types : list string) (o : RuntimeObservation) : list string :=
  map or_value (List.filter (λ r, mem (or_type r) types) (ro_resources o)).
Definition denied_field (o : RuntimeObservation) (key : string) : json :=
  jget (JObj (ro_metadata o)) key.

Definition DENIED_OPERATIONS : list (string * string) :=
  [("filesystem.read", "read"); ("filesystem.metadata_read", "metadata");
   ("filesystem.write", "write"); ("filesystem.delete", "delete");
   ("filesystem.execute", "execute")].
Definition predicts_path (access path : string) (c : FilesystemCapability) : bool :=
  (fc_access c =s access)
  && match fc_path c with
     | None => true
     | Some top => (top =s path)
                   || ((fc_scope c =s "prefix")
                       && startswith path (rstrip_char "/"%char top +:+ "/"))
     end.
Definition predicts_request (host : string) (port : Z) (method path access : string)
    (c : NetworkCapability) : bool :=
  opt_is (nc_host c) host
  && match nc_port c with Some p => (p =? port)%Z | None => true end
  && mem (nc_protocol c) ["unknown"; "rest"]
  && ((nc_access c =s access) || ((nc_access c =s "write") && (access =s "read")))
  && ((length (nc_methods c) =? 0) || mem method (nc_methods c))
  && ((length (nc_paths c) =? 0) || mem path (nc_paths c)).
Definition tool_identity (t : ToolCapability) : string :=
  tc_runtime t +:+ ":" +:+ or_default (tc_server t) "" +:+ ":" +:+ tc_tool t.

Section proposals.
Context (bracketed_host : string → bool) (float_decimal : Q → Decimal).
Context (sha256 : string → string) (float_repr : Q → string).
Context (set_order : list string → list string).
#[local] Abbreviation validate := (validate float_repr).
#[local] Abbreviation digest := (digest sha256 float_repr).
#[local] Abbreviation mk_FilesystemCapability := (mk_FilesystemCapability float_repr).
#[local] Abbreviation mk_NetworkCapability := (mk_NetworkCapability float_repr).
#[local] Abbreviation mk_ProcessCapability := (mk_ProcessCapability float_repr).
#[local] Abbreviation mk_contract := (mk_RuntimeCapabilityContract sha256 float_repr).

Definition mk_CapabilityDeltaProposal (p : CapabilityDeltaProposal)
  : res CapabilityDeltaProposal :=
  _ ← freeze MAX_RUNTIME_ITEMS 0 (JArr (cp_verification p));
  let expected := "dp:" +:+ digest (proposal_material p) in
  _ ← guard_or (negb (truthy (cp_proposal_id p)) || (cp_proposal_id p =s expected))
        (ValueError "proposal identity does not match content");
  let p := with_proposal_id expected p in
  _ ← validate "capability_delta_proposal" DELTA (CapabilityDeltaProposal_as_dict p);
  _ ← guard_or ((cp_status p =s "rejected") || cp_requires_human_approval p)
        (ValueError "initial capability proposals require human approval");
  Ok p.

Definition CapabilityDeltaProposal_from_dict (payload : json) : res CapabilityDeltaProposal :=
  _ ← validate "capability_delta_proposal" DELTA payload;
  action_id ← as_str (jget payload "action_id") "action_id";
  action_digest ← as_str (jget payload "action_digest") "action_digest";
  contract_id ← as_str (jget payload "contract_id") "contract_id";
  denial_observation_id ← as_str (jget payload "denial_observation_id") "denial_observation_id";
  requested_delta ← (if json_truthy (jget payload "requested_delta")
                     then c ← RuntimeCapabilityContract_from_dict sha256 float_repr
                                (jget payload "requested_delta"); Ok (Some c)
                     else Ok None);
  reason_code ← as_str (jget payload "reason_code") "reason_code";
  verification ← as_list (jget payload "verification") "verification";
  approval ← as_bool (jget payload "requires_human_approval") "requires_human_approval";
  status ← as_str (jget payload "status") "status";
  proposal_id ← as_str (jget payload "proposal_id") "proposal_id";
  mk_CapabilityDeltaProposal
    {| cp_action_id := action_id; cp_action_digest := action_digest;
       cp_contract_id := contract_id; cp_denial_observation_id := denial_observation_id;
       cp_requested_delta := requested_delta; cp_reason_code := reason_code;
       cp_verification := verification; cp_requires_human_approval := approval;
       cp_status := status; cp_proposal_id := proposal_id |}.

(** The branches over the enforcement point; [None] where the denial is no
    requirement that the contract predicted. *)
Definition narrow_filesystem (c : RuntimeCapabilityContract) (denial : RuntimeObservation)
  : res (option Narrowed) :=
  match values_of ["path"; "file"; "directory"] denial,
        dict_get (ro_operation denial) DENIED_OPERATIONS with
  | [path], Some access =>
      if negb (_safe_path path) || negb (existsb (predicts_path access path) (rc_filesystem c))
      then Ok None
      else
        f ← mk_FilesystemCapability
              {| fc_access := access; fc_path := Some path; fc_scope := "exact" |};
        Ok (Some {| na_filesystem := [f]; na_network := []; na_tools := [];
                    na_credentials := []; na_process := no_process |})
  | _, _ => Ok None
  end.

Definition narrow_network (c : RuntimeCapabilityContract) (denial : RuntimeObservation)
  : res (option Narrowed) :=
  match denied_field denial "host", denied_field denial "port", denied_field denial "method",
        denied_field denial "path" with
  | JStr host, JInt port, JStr method, JStr path =>
      let access := if mem method ["GET"; "HEAD"; "OPTIONS"] then "read" else "write" in
      if negb (existsb (predicts_request host port method path access) (rc_network c))
      then Ok None
      else
        n ← mk_NetworkCapability
              {| nc_host := Some host; nc_port := Some port; nc_protocol := "rest";
                 nc_access := access; nc_methods := [method]; nc_paths := [path];
                 nc_tool_identity := None |};
        let narrowed process :=
          {| na_filesystem := []; na_network := [n]; na_tools := []; na_credentials := [];
             na_process := process |} in
        if bool_decide (pc_execution (rc_process c) = Some true) then
          match denied_field denial "binary" with
          | JStr binary =>
              if mem binary (pc_executables (rc_process c)) && _safe_path binary then
                p ← mk_ProcessCapability
                      {| pc_execution := Some true; pc_executables := [binary];
                         pc_spawn_children := pc_spawn_children (rc_process c) |};
                Ok (Some (narrowed p))
              else Ok None
          | _ => Ok None
          end
        else Ok (Some (narrowed no_process))
  | _, _, _, _ => Ok None
  end.

Definition narrow_tool (c : RuntimeCapabilityContract) (denial : RuntimeObservation)
  : res (option Narrowed) :=
  match List.filter (λ t, bool_decide (values_of ["tool"] denial = [tool_identity t]))
          (rc_tools c) with
  | [t] => Ok (Some {| na_filesystem := []; na_network := []; na_tools := [t];
                       na_credentials := []; na_process := no_process |})
  | _ => Ok None
  end.

Definition narrow_credential (c : RuntimeCapabilityContract) (denial : RuntimeObservation)
  : res (option Narrowed) :=
  match List.filter
          (λ k, bool_decide (values_of ["credential"] denial = [cb_binding k])
                && json_equal (denied_field denial "host") (JStr (cb_host k))
                && json_equal (denied_field denial "port") (JInt (cb_port k)))
          (rc_credentials c) with
  | [k] => Ok (Some {| na_filesystem := []; na_network := []; na_tools := [];
                       na_credentials := [k]; na_process := no_process |})
  | _ => Ok None
  end.

Definition narrow (c : RuntimeCapabilityContract) (denial : RuntimeObservation)
  : res (option Narrowed) :=
  let domain := ro_enforcement_point denial in
  if domain =s "filesystem" then narrow_filesystem c denial
  else if domain =s "network" then narrow_network c denial
  else if domain =s "tool" then narrow_tool c denial
  else if domain =s "credential" then narrow_credential c denial
  else Ok None.

Definition refinable : list string :=
  ["runtime_contract_missing_resource"; "runtime_contract_malformed_resource";
   "runtime_contract_unknown_protocol"].
(** The unknowns of other domains, and those that no denial resolves, stay. *)
Definition remains_unknown (domain : string) (u : CapabilityUnknown) : bool :=
  negb (cu_domain u =s domain) || negb (mem (cu_reason_code u) refinable).
(** [replace(contract, ...)]. *)
Definition requested_state (c : RuntimeCapabilityContract) (domain : string) (n : Narrowed)
  : res RuntimeCapabilityContract :=
  mk_contract
    {| rc_action_id := rc_action_id c; rc_action_digest := rc_action_digest c;
       rc_decision := rc_decision c; rc_risk := rc_risk c; rc_filesystem := na_filesystem n;
       rc_network := na_network n; rc_tools := na_tools n; rc_process := na_process n;
       rc_privilege := rc_privilege c; rc_credentials := na_credentials n;
       rc_unknowns := List.filter (remains_unknown domain) (rc_unknowns c);
       rc_source := rc_source c; rc_contract_id := "" |}.

(** ** The steps of the verification *)

Definition CapabilityVerificationResult_as_dict (r : CapabilityVerificationResult) : json :=
  JObj [("result", JStr (vr_result r)); ("reason_code", JStr (vr_reason_code r));
        ("contract_digest", JStr (vr_contract_digest r));
        ("boundary_digest", JStr (vr_boundary_digest r));
        ("coverage", JObj (map (λ kv, (fst kv, JBool (snd kv))) (vr_coverage r)));
        ("counterexample", default JNull (vr_counterexample r));
        ("unsupported_fields", jstrings (vr_unsupported_fields r))].
Definition delta_step (step result reason_code : string) (details : json) : json :=
  JObj [("step", JStr step); ("result", JStr result); ("reason_code", JStr reason_code);
        ("details", details)].
Definition boundary_step (v : CapabilityVerificationResult) : json :=
  delta_step "capability_boundary" (vr_result v) (vr_reason_code v)
    (CapabilityVerificationResult_as_dict v).
Definition compile_step (r : CompilationResult) : json :=
  delta_step "backend_compile" (cr_status r) (cr_reason_code r)
    (JObj [("unsupported_fields", jstrings (cr_unsupported_fields r))]).
Definition validation_step (r : BackendValidationResult) : json :=
  delta_step "backend_validation" (bv_status r) (bv_reason_code r)
    (BackendValidationResult_as_dict r).

(** The steps that a backend adds, and whether it accepts. *)
Definition backend_steps `{Backend B} (backend : option B) (requested : RuntimeCapabilityContract)
  : res (list json * bool) :=
  match backend with
  | None => Ok ([], true)
  | Some b =>
      compiled ← backend_compile b requested;
      match cr_plan compiled with
      | Some plan =>
          if cr_status compiled =s "success" then
            validated ← backend_validate b plan;
            Ok ([compile_step compiled; validation_step validated],
                bv_ok validated
                && (bv_policy_digest validated =s plan_policy_digest sha256 float_repr plan))
          else Ok ([compile_step compiled], false)
      | None => Ok ([compile_step compiled], false)
      end
  end.

(** ** The proposal *)

Definition proposal_of (action_id : string) (c : RuntimeCapabilityContract)
    (denial : RuntimeObservation) (requested : option RuntimeCapabilityContract)
    (reason_code : string) (steps : list json) (status : string) : res CapabilityDeltaProposal :=
  mk_CapabilityDeltaProposal
    {| cp_action_id := action_id; cp_action_digest := rc_action_digest c;
       cp_contract_id := rc_contract_id c;
       cp_denial_observation_id := ro_observation_id denial; cp_requested_delta := requested;
       cp_reason_code := reason_code; cp_verification := steps;
       cp_requires_human_approval := true; cp_status := status; cp_proposal_id := "" |}.

(** The history of the one denial, correlated with the one action. *)
Definition correlates (review : ActionReview) (c : RuntimeCapabilityContract)
    (denial : RuntimeObservation) : res (list (string * list RuntimeObservation)) :=
  h ← mk_RuntimeObservationHistory float_repr
        {| rh_observations := [denial]; rh_contracts := [c] |};
  actions ← mk_ActionHistory [av_action review];
  correlate sha256 float_repr h (Some actions) None None.

(** The session digests that the review recorded. *)
Definition session_scopes (review : ActionReview) : list scalar :=
  map (λ r, metadata r "session_digest")
    (List.filter (λ r, pv_code r =s "runtime.session.review") (provenance_records review)).
Definition session_agrees (review : ActionReview) (denial : RuntimeObservation) : bool :=
  match last (session_scopes review) with
  | Some scope => json_equal (jstr (ro_session_digest denial)) (scalar_json scope)
  | None => true
  end.

Definition propose_capability_delta `{Backend B} (review : ActionReview)
    (c : RuntimeCapabilityContract) (denial : RuntimeObservation)
    (boundary : RuntimeCapabilityBoundary) (backend : option B) : res CapabilityDeltaProposal :=
  match ac_action_id (av_action review) with
  | None => Err (ValueError "capability proposal requires a reviewed action ID")
  | Some action_id =>
      let rejected code steps := proposal_of action_id c denial None code steps "rejected" in
      derived ← derive_runtime_capability_contract bracketed_host float_decimal sha256 float_repr
                  review;
      if negb (contract_eqb derived c) then rejected "runtime_observation_contract_mismatch" []
      else
        match correlates review c denial with
        | Err (ValueError _) => rejected "runtime_observation_action_mismatch" []
        | Err e => Err e
        | Ok _ =>
            if negb (session_agrees review denial) then
              rejected "runtime_observation_session_mismatch" []
            else if negb (ro_trust denial =s "backend_enforced")
                    || negb (ro_outcome denial =s "denied") then
              rejected "runtime_delta_untrusted_denial" []
            else if bool_decide (av_decision review = Block) then
              rejected "runtime_delta_blocked_action" []
            else
              narrowed ← narrow c denial;
              match narrowed with
              | None => rejected "runtime_delta_unmodeled_requirement" []
              | Some narrowed =>
                  requested ← requested_state c (ro_enforcement_point denial) narrowed;
                  verification ← verify_runtime_capability sha256 float_repr set_order requested
                                   boundary;
                  if negb (ok verification) then
                    rejected "runtime_delta_boundary_rejected" [boundary_step verification]
                  else
                    '(steps, accepted) ← backend_steps backend requested;
                    let steps := boundary_step verification :: steps in
                    if negb accepted then rejected "runtime_delta_backend_rejected" steps
                    else proposal_of action_id c denial (Some requested)
                           "runtime_delta_requires_approval" steps "requires_approval"
              end
        end
  end.
End proposals.

(** ** What a proposal requests *)

#[local] Open Scope py_scope.
#[local] Open Scope nat_scope.

(** ** What a contract predicts *)

(** Unlike [requires], a target that the review could not establish predicts any
    target, and an endpoint without a request scope any request. *)
Definition predicts (c : RuntimeCapabilityContract) (a : access) : Prop :=
  match a with
  | FileAccess op path =>
      ∃ f, f ∈ rc_filesystem c ∧ op ∈ rights FILESYSTEM_RIGHTS (fc_access f) ∧
        (fc_path f = None ∨ file_admits f op path)
  | Connection _ _ _ _ => False
  | Request host port op tool method path =>
      ∃ n, n ∈ rc_network c ∧ nc_host n = Some host ∧ (nc_port n = None ∨ nc_port n = Some port) ∧
        op ∈ rights NETWORK_RIGHTS (nc_access n) ∧ nc_tool_identity n = tool ∧
        nc_protocol n ∈ ["unknown"; "rest"] ∧ (nc_methods n = [] ∨ method ∈ nc_methods n) ∧
        (nc_paths n = [] ∨ path ∈ nc_paths n)
  | _ => requires c a
  end.

(** ** Narrowed capabilities *)

Record narrowed_from (c : RuntimeCapabilityContract) (n : Narrowed) : Prop := {
  nf_filesystem f : f ∈ na_filesystem n → ∃ path g,
    fc_path f = Some path ∧ fc_scope f = "exact" ∧ g ∈ rc_filesystem c ∧
    predicts_path (fc_access f) path g = true;
  nf_network m : m ∈ na_network n → ∃ host port method path access g,
    m = {| nc_host := Some host; nc_port := Some port; nc_protocol := "rest";
           nc_access := access; nc_methods := [method]; nc_paths := [path];
           nc_tool_identity := None |} ∧
    g ∈ rc_network c ∧ predicts_request host port method path access g = true;
  nf_tools : na_tools n ⊆ rc_tools c;
  nf_credentials : na_credentials n ⊆ rc_credentials c;
  nf_process : na_process n = no_process ∨
    pc_execution (rc_process c) = Some true ∧ ∃ x, x ∈ pc_executables (rc_process c) ∧
    na_process n = {| pc_execution := Some true; pc_executables := [x];
                      pc_spawn_children := pc_spawn_children (rc_process c) |} }.

Lemma filter_single {A} (f : A → bool) l x : List.filter f l = [x] → [x] ⊆ l.
Proof.
  intros E y Hy%list_elem_of_singleton. subst y.
  assert (x ∈ List.filter f l) as Hx by (rewrite E; by left). by apply in_filter in Hx as [? _].
Qed.

Section facts.
Context (sha256 : string → string) (float_repr : Q → string).
Context (bracketed_host : string → bool) (float_decimal : Q → Decimal).
Context (set_order : list string → list string).
Context (set_order_elem : ∀ l x, x ∈ set_order l ↔ x ∈ l).
#[local] Abbreviation narrow := (narrow float_repr).

Lemma narrow_filesystem_from c denial n :
  narrow_filesystem float_repr c denial = Ok (Some n) → narrowed_from c n.
Proof.
  unfold narrow_filesystem. destruct (values_of _ denial) as [|path [|]]; [done| |done].
  destruct (dict_get _ _) as [access|]; [|done].
  destruct (_safe_path path); [|done]. cbn [negb orb].
  destruct (existsb _ _) eqn:He; [|done]. cbn [negb]. intros (f & Hf & [= <-])%res_bind_ok.
  apply mk_filesystem_id in Hf as ->. apply existsb_elem in He as (g & Hg & Hp).
  split; cbn; [|by intros ? ?%elem_of_nil|apply list_subseteq_nil..|by left].
  intros f ->%list_elem_of_singleton. by exists path, g.
Qed.

Lemma narrow_network_from c denial n :
  narrow_network float_repr c denial = Ok (Some n) → narrowed_from c n.
Proof.
  unfold narrow_network. destruct (denied_field denial "host") as [| | | |host| |]; try done.
  destruct (denied_field denial "port") as [| |port| | | |]; try done.
  destruct (denied_field denial "method") as [| | | |method| |]; try done.
  destruct (denied_field denial "path") as [| | | |path| |]; try done.
  cbv zeta. set (access := if mem method _ then _ else _).
  destruct (existsb _ _) eqn:He; [|done]. cbn [negb]. intros (m & Hm & H)%res_bind_ok.
  apply mk_network_id in Hm. apply existsb_elem in He as (g & Hg & Hp).
  assert (∀ process, process = no_process ∨ pc_execution (rc_process c) = Some true ∧
    (∃ x, x ∈ pc_executables (rc_process c) ∧
       process = {| pc_execution := Some true; pc_executables := [x];
                    pc_spawn_children := pc_spawn_children (rc_process c) |}) →
    narrowed_from c {| na_filesystem := []; na_network := [m]; na_tools := [];
                       na_credentials := []; na_process := process |}) as Hall.
  { intros process Hpr. split; cbn; [by intros ? ?%elem_of_nil| |apply list_subseteq_nil..|done].
    intros m' ->%list_elem_of_singleton. by exists host, port, method, path, access, g. }
  case_bool_decide as Hex; [|injection H as <-; apply Hall; by left].
  destruct (denied_field denial "binary") as [| | | |binary| |]; try discriminate H.
  destruct (mem binary _) eqn:Hb; [|discriminate H]. destruct (_safe_path binary); [|discriminate H].
  cbn [andb] in H. apply res_bind_ok in H as (pr & Hpr & H). injection H as <-.
  apply mk_process_id in Hpr as ->. apply Hall. right. split; [done|].
  exists binary. split; [by apply mem_elem_of|done].
Qed.

Lemma narrow_from c denial n : narrow c denial = Ok (Some n) → narrowed_from c n.
Proof.
  unfold CapabilityDelta.narrow. cbv zeta.
  destruct (_ =s "filesystem"); [apply narrow_filesystem_from|].
  destruct (_ =s "network"); [apply narrow_network_from|].
  destruct (_ =s "tool").
  { unfold narrow_tool. destruct (List.filter _ _) as [|t [|]] eqn:E; [done| |done]. intros [= <-].
    apply filter_single in E. split; cbn; [by intros ? ?%elem_of_nil..|done|apply list_subseteq_nil|by left]. }
  destruct (_ =s "credential"); [|done].
  unfold narrow_credential. destruct (List.filter _ _) as [|t [|]] eqn:E; [done| |done]. intros [= <-].
  apply filter_single in E. split; cbn; [by intros ? ?%elem_of_nil..|apply list_subseteq_nil|done|by left].
Qed.

(** ** What is requested *)

Lemma requested_inv c domain n d :
  requested_state sha256 float_repr c domain n = Ok d →
  rc_action_id d = rc_action_id c ∧ rc_action_digest d = rc_action_digest c ∧
  rc_decision d = rc_decision c ∧ rc_filesystem d = na_filesystem n ∧
  rc_network d = na_network n ∧ rc_tools d = na_tools n ∧ rc_process d = na_process n ∧
  rc_privilege d = rc_privilege c ∧ rc_credentials d = na_credentials n ∧
  rc_unknowns d = List.filter (remains_unknown domain) (rc_unknowns c).
Proof. unfold requested_state. by intros (id & ->)%mk_contract_inv. Qed.

(** A narrowed request is what the contract predicts, provided that its paths
    are no patterns. *)
Lemma narrowed_predicts c n d domain :
  narrowed_from c n → requested_state sha256 float_repr c domain n = Ok d →
  (∀ m, m ∈ rc_network c → nc_tool_identity m = None) →
  (∀ m p, m ∈ rc_network d → p ∈ nc_paths m → _request_path p false = true) →
  ∀ a, requires d a → predicts c a.
Proof.
  intros Hn (_ & _ & _ & Hf & Hw & Ht & Hp & Hv & Hc & _)%requested_inv Htag Hplain a.
  destruct a as [op path|host port op tool|host port op tool method path|t| |x| | |uid|k];
    cbn [requires predicts]; rewrite ?Hf, ?Hw, ?Ht, ?Hp, ?Hv, ?Hc; try done.
  - intros (f & Hin & top & Htop & Hop & Hpath).
    destruct (nf_filesystem _ _ Hn f Hin) as (path' & g & E & Hsc & Hg & Hpr).
    assert (path' = path) as ->.
    { rewrite E in Htop. injection Htop as ->. destruct Hpath as [->|[Hx _]]; congruence. }
    unfold predicts_path in Hpr. apply andb_true_iff in Hpr as [Ha%eqb_true Hpr].
    exists g. rewrite Ha. split_and!; [done..|].
    destruct (fc_path g) as [top'|] eqn:Eg; [right|by left]. exists top'. rewrite Ha.
    split_and!; [done..|]. apply orb_true_iff in Hpr as [->%eqb_true|[-> %eqb_true Hpre]%andb_true_iff];
      [by left|by right].
  - intros (m & Hin & _ & Hcon & _).
    destruct (nf_network _ _ Hn m Hin) as (h & q & me & pa & ac & g & -> & _). discriminate Hcon.
  - intros (m & Hin & (Hh & Hq & Hop & Htl) & Hs).
    destruct (nf_network _ _ Hn m Hin) as (h & q & me & pa & ac & g & -> & Hg & Hpr).
    cbn in Hh, Hq, Hop, Htl. injection Hh as ->. injection Hq as ->. subst tool.
    assert (method = me ∧ path = pa) as [-> ->].
    { destruct Hs as [[Hcon _]|(_ & Hm & pp & Hpp & Hwi)]; [discriminate Hcon|]. cbn in Hm, Hpp.
      apply list_elem_of_singleton in Hm, Hpp. subst me pp. split; [done|].
      eapply plain_path in Hwi; [done|]. eapply Hplain; [by rewrite Hw|by left]. }
    unfold predicts_request in Hpr. split_bools. exists g. split_and!; [done| | | | | | |].
    + unfold opt_is in *. destruct (nc_host g); [|done]. f_equal. by apply eqb_true.
    + destruct (nc_port g) as [gp|]; [right|by left]. f_equal. by apply Z.eqb_eq.
    + match goal with H : (_ =s ac) || _ = true |- _ => apply orb_true_iff in H as [->%eqb_true|H]; [done|] end.
      split_bools. repeat match goal with H : (_ =s _) = true |- _ => apply eqb_true in H; subst end.
      match goal with H : nc_access g = _ |- _ => rewrite H end.
      apply list_elem_of_singleton in Hop as ->. by left.
    + by apply Htag.
    + by apply mem_elem_of.
    + match goal with H : (length (nc_methods g) =? 0) || _ = true |- _ =>
        apply orb_true_iff in H as [H|H]; [left; by apply empty_list|right; by apply mem_elem_of] end.
    + match goal with H : (length (nc_paths g) =? 0) || _ = true |- _ =>
        apply orb_true_iff in H as [H|H]; [left; by apply empty_list|right; by apply mem_elem_of] end.
  - apply (nf_tools _ _ Hn).
  - destruct (nf_process _ _ Hn) as [->|(He & y & _ & ->)]; done.
  - destruct (nf_process _ _ Hn) as [->|(He & y & Hy & ->)]; cbn; [naive_solver|].
    intros [_ ->%list_elem_of_singleton]. done.
  - destruct (nf_process _ _ Hn) as [->|(He & y & _ & ->)]; cbn; naive_solver.
  - apply (nf_credentials _ _ Hn).
Qed.

(** ** The conditions of a proposal *)

Lemma contract_eqb_fields c d : contract_eqb c d = true →
  rc_action_id c = rc_action_id d ∧ rc_action_digest c = rc_action_digest d ∧
  rc_decision c = rc_decision d ∧ rc_network c = rc_network d ∧
  rc_credentials c = rc_credentials d ∧ rc_contract_id c = rc_contract_id d.
Proof.
  unfold contract_eqb. intros H. split_bools.
  repeat match goal with H : (_ =s _) = true |- _ => apply eqb_true in H end. done.
Qed.

#[local] Abbreviation derive :=
  (derive_runtime_capability_contract bracketed_host float_decimal sha256 float_repr).
#[local] Abbreviation action_digest review :=
  (digest sha256 float_repr (ActionEnvelope_as_dict (av_action review))).

(** A denial that correlates is about the action and, when it names one, about
    the contract. *)
Lemma correlates_inv review c denial r id :
  ac_action_id (av_action review) = Some id →
  correlates sha256 float_repr review c denial = Ok r →
  ro_action_id denial = id ∧
  (∀ d, ro_action_digest denial = Some d → d = action_digest review) ∧
  (∀ i, ro_contract_id denial = Some i → rc_contract_id c = i).
Proof.
  intros Hid. unfold correlates. intros (h & Hh & H)%res_bind_ok.
  apply res_bind_ok in H as (actions & Ha & H).
  assert (h = {| rh_observations := [denial]; rh_contracts := [c] |}) as ->.
  { revert Hh. unfold mk_RuntimeObservationHistory. intros Hh. by inv_res. }
  unfold mk_ActionHistory in Ha. inv_res. cbn [correlate rh_observations rh_contracts hi_actions] in H.
  apply res_bind_ok in H as (l & Hl & H). cbn [collect_actions] in Hl. rewrite Hid in Hl.
  cbn in Hl. injection Hl as <-. cbn [correlate_loop] in H. apply res_bind_ok in H as (u & Hu & _).
  unfold check_observation in Hu. cbn [dict_get] in Hu.
  destruct (id =s ro_action_id denial) eqn:E; [|done]. apply eqb_true in E.
  apply res_bind_ok in Hu as (? & H1 & Hu). apply res_bind_ok in Hu as (? & H2 & _).
  apply guard_or_ok in H1, H2. split; [done|]. split.
  - intros d Hd. rewrite Hd in H1. by apply eqb_true.
  - intros i Hi. rewrite Hi in H2. unfold contract_for in H2. cbn in H2.
    destruct (rc_action_id c) as [k|]; [|done]. cbn in H2.
    destruct (k =s _); [|done]. apply andb_true_iff in H2 as [_ H2]. by apply eqb_true.
Qed.

(** What a trusted report carries. *)
Lemma trusted_bound o o' :
  mk_RuntimeObservation bracketed_host sha256 float_repr o = Ok o' →
  o' = o ∧ (ro_trust o ≠ "caller_asserted" →
    authorised sha256 float_repr o = true ∧ is_Some (ro_action_digest o) ∧
    is_Some (ro_contract_id o) ∧ is_Some (ro_session_digest o) ∧ is_Some (ro_sandbox_id o) ∧
    is_Some (ro_policy_digest o)).
Proof.
  unfold mk_RuntimeObservation. intros H. do 5 apply res_bind_ok in H as (_ & _ & H).
  destruct (String.eqb_spec (ro_trust o) "caller_asserted"); [by inv_res|].
  inv_res. split; [done|]. intros _. split; [done|].
  match goal with H : fully_bound _ = true |- _ => unfold fully_bound in H; cbn in H end.
  split_bools. repeat split;
    match goal with |- is_Some ?x => destruct x; [by eexists|done] end.
Qed.

Lemma proposal_inv id c denial requested code steps status p :
  proposal_of sha256 float_repr id c denial requested code steps status = Ok p →
  cp_requires_human_approval p = true ∧ cp_status p = status ∧
  cp_requested_delta p = requested ∧ cp_action_id p = id ∧
  cp_contract_id p = rc_contract_id c ∧ cp_action_digest p = rc_action_digest c ∧
  cp_denial_observation_id p = ro_observation_id denial.
Proof.
  unfold proposal_of, mk_CapabilityDeltaProposal. cbv zeta. intros H. inv_res. done.
Qed.

(** ** The proposal *)

(** Why a requested state [d] may be put before a human. *)
Record justified {B : Type} {HB : Backend B} (review : ActionReview) (c : RuntimeCapabilityContract)
    (denial : RuntimeObservation) (boundary : RuntimeCapabilityBoundary) (backend : option B)
    (d : RuntimeCapabilityContract) : Prop := {
  (** the contract is the one that the review derives, and the review no block *)
  ju_derived : ∃ derived, derive review = Ok derived ∧ contract_eqb derived c = true;
  ju_decision : av_decision review ≠ Block;
  (** the denial was enforced by a source with authority, for this action and contract *)
  ju_denial : ro_trust denial = "backend_enforced" ∧ ro_outcome denial = "denied" ∧
    authorised sha256 float_repr denial = true ∧
    ro_action_digest denial = Some (action_digest review) ∧
    ro_contract_id denial = Some (rc_contract_id c);
  (** the request is within the prediction and within the boundary *)
  ju_within a : requires d a → predicts c a ∧ allows boundary a;
  ju_bound : rc_action_id d = rc_action_id c ∧ rc_action_digest d = rc_action_digest c ∧
    rc_decision d = rc_decision c;
  (** nothing stays unknown: what was unknown is of the denied domain *)
  ju_known : rc_unknowns d = [] ∧ ∀ u, u ∈ rc_unknowns c →
    cu_domain u = ro_enforcement_point denial ∧ cu_reason_code u ∈ refinable;
  (** a backend that was given compiled it and validated that very policy *)
  ju_backend b : backend = Some b → ∃ compiled plan validated,
    backend_compile b d = Ok compiled ∧ cr_status compiled = "success" ∧
    cr_plan compiled = Some plan ∧ backend_validate b plan = Ok validated ∧
    bv_status validated = "success" ∧
    bv_policy_digest validated = plan_policy_digest sha256 float_repr plan }.

Lemma backend_accepts {B : Type} {HB : Backend B} (b : B) d steps :
  backend_steps sha256 float_repr (Some b) d = Ok (steps, true) → ∃ compiled plan validated,
    backend_compile b d = Ok compiled ∧ cr_status compiled = "success" ∧
    cr_plan compiled = Some plan ∧ backend_validate b plan = Ok validated ∧
    bv_status validated = "success" ∧
    bv_policy_digest validated = plan_policy_digest sha256 float_repr plan.
Proof.
  cbn [backend_steps]. intros (compiled & Hc & H)%res_bind_ok.
  destruct (cr_plan compiled) as [plan|] eqn:Hp; [|done].
  destruct (cr_status compiled =s "success") eqn:Hst; [|done]. apply eqb_true in Hst.
  apply res_bind_ok in H as (validated & Hv & H). injection H as _ [Ho Hd]%andb_true_iff.
  apply eqb_true in Ho, Hd. eauto 10.
Qed.

Lemma requested_known c domain n d u :
  requested_state sha256 float_repr c domain n = Ok d → rc_unknowns d = [] → u ∈ rc_unknowns c →
  cu_domain u = domain ∧ cu_reason_code u ∈ refinable.
Proof.
  intros (_ & _ & _ & _ & _ & _ & _ & _ & _ & E)%requested_inv Hnil Hu. rewrite Hnil in E.
  destruct (remains_unknown domain u) eqn:Hr.
  - exfalso. apply (not_elem_of_nil u). rewrite E. by apply in_filter.
  - unfold remains_unknown in Hr. split_bools. split; [by apply eqb_true|by apply mem_elem_of].
Qed.

(** The paths of the requests that the check accepts are no patterns. *)
Lemma accepted_paths_plain b m p :
  network_findings set_order b m = [] → nc_protocol m = "rest" → p ∈ nc_paths m →
  _request_path p false = true.
Proof.
  unfold network_findings. destruct (network_known m); [|done]. cbn [negb].
  destruct (negb (mem _ _)); [done|]. intros H Hpr Hp. rewrite Hpr in H.
  change ("rest" =s "tcp") with false in H. cbn [andb] in H.
  change ("rest" =s "rest") with true in H. cbn [andb] in H.
  destruct (rest_unscoped m) eqn:Hr; [done|]. unfold rest_unscoped in Hr. split_bools.
  destruct (_request_path p false) eqn:E; [done|]. exfalso.
  match goal with H : existsb _ _ = false |- _ => apply not_true_iff_false in H; apply H end.
  apply existsb_elem. exists p. by rewrite E.
Qed.

(** A proposal is rejected and requests nothing, or it waits for a human. *)
Definition only_proposes {B : Type} {HB : Backend B} (review : ActionReview)
    (c : RuntimeCapabilityContract) (denial : RuntimeObservation)
    (boundary : RuntimeCapabilityBoundary) (backend : option B) (p : CapabilityDeltaProposal)
  : Prop :=
  cp_requires_human_approval p = true ∧ ac_action_id (av_action review) = Some (cp_action_id p) ∧
  cp_contract_id p = rc_contract_id c ∧ cp_denial_observation_id p = ro_observation_id denial ∧
  (cp_status p = "rejected" ∧ cp_requested_delta p = None ∨
   cp_status p = "requires_approval" ∧ ∃ d, cp_requested_delta p = Some d ∧
     justified review c denial boundary backend d).

Lemma rejection_only_proposes {B : Type} {HB : Backend B} review c denial boundary
    (backend : option B) id code steps p :
  ac_action_id (av_action review) = Some id →
  proposal_of sha256 float_repr id c denial None code steps "rejected" = Ok p →
  only_proposes review c denial boundary backend p.
Proof.
  intros Hid (? & ? & ? & ? & ? & ? & ?)%proposal_inv.
  split_and!; [done|congruence|done..|]. by left.
Qed.

(** C20: A proposal always asks for a human: it is rejected and requests nothing,
    or it waits for an approval, and then the contract is the one that the
    review derives, the denial was enforced under the authority of its source
    and bound to this action and contract, every access that the requested
    state needs was predicted by the contract and is allowed by the boundary of
    the operator, no unknown of another domain is dropped, and a backend that
    was given has compiled it and validated that policy. *)
Theorem delta_proposal_justified {B : Type} {HB : Backend B} review c denial boundary (backend : option B) p :
  mk_RuntimeObservation bracketed_host sha256 float_repr denial = Ok denial →
  propose_capability_delta bracketed_host float_decimal sha256 float_repr set_order review c denial
    boundary backend = Ok p →
  only_proposes review c denial boundary backend p.
Proof.
  intros Hmade. unfold propose_capability_delta.
  destruct (ac_action_id (av_action review)) as [id|] eqn:Hid; [|done]. cbv zeta.
  intros (derived & Hd & H)%res_bind_ok.
  pose proof (λ code steps,
    rejection_only_proposes review c denial boundary backend id code steps p Hid) as Hrej.
  destruct (contract_eqb derived c) eqn:Heq; [|exact (Hrej _ _ H)]. cbn [negb] in H.
  destruct (correlates _ _ review c denial) as [r|e] eqn:Hc; [|destruct e; [exact (Hrej _ _ H)|discriminate H..]].
  destruct (session_agrees _ _); [|exact (Hrej _ _ H)]. cbn [negb] in H.
  destruct (ro_trust denial =s "backend_enforced") eqn:Ht; [|exact (Hrej _ _ H)]. apply eqb_true in Ht.
  destruct (ro_outcome denial =s "denied") eqn:Ho; [|exact (Hrej _ _ H)]. apply eqb_true in Ho.
  cbn [negb orb] in H. case_bool_decide as Hblock; [exact (Hrej _ _ H)|].
  apply res_bind_ok in H as ([n|] & Hn & H); [|exact (Hrej _ _ H)].
  apply res_bind_ok in H as (d & Hreq & H). apply res_bind_ok in H as (v & Hv & H).
  destruct (ok v) eqn:Hok; [|exact (Hrej _ _ H)]. cbn [negb] in H.
  apply res_bind_ok in H as ([steps []] & Hst & H); [|exact (Hrej _ _ H)]. cbn [negb] in H.
  apply proposal_inv in H as (? & ? & ? & ? & ? & ? & ?).
  split_and!; [done|congruence|done..|]. right. split; [done|]. exists d. split; [done|].
  apply narrow_from in Hn. pose proof (requested_inv _ _ _ _ Hreq) as Hinv.
  apply verify_result in Hv as [Hv _]. apply Hv, no_findings in Hok as (_ & Hu & Hfi & Hal); [|done].
  destruct (correlates_inv _ _ _ _ _ Hid Hc) as (_ & Hdig & Hcon).
  destruct (trusted_bound _ _ Hmade) as [_ Hb].
  destruct Hb as (Hau & [dg Hdg] & [ci Hci] & _); [by rewrite Ht|].
  split.
  - eauto.
  - done.
  - split_and!; [done..|by rewrite Hdg, (Hdig _ Hdg)|by rewrite Hci, (Hcon _ Hci)].
  - intros a Ha. split; [|by apply Hal]. eapply narrowed_predicts; [exact Hn|exact Hreq| | |exact Ha].
    + apply contract_eqb_fields in Heq as (_ & _ & _ & <- & _).
      by apply (derived_made sha256 float_repr bracketed_host float_decimal review).
    + intros m q Hm Hq. eapply accepted_paths_plain; [by apply Hfi| |done].
      destruct Hinv as (_ & _ & _ & _ & E & _). rewrite E in Hm.
      by destruct (nf_network _ _ Hn m Hm) as (? & ? & ? & ? & ? & ? & -> & _).
  - naive_solver.
  - split; [done|]. intros u. by eapply requested_known.
  - intros b ->. by eapply backend_accepts.
Qed.

End facts.
