(* ===== verification/RuntimeRequirements.v ===== *)
(** * Runtime requirements ([ordin/runtime_requirements.py], [ordin/_runtime_host.py])

    The facts about a deployment that the host declares, and their attachment
    to a review as context records.  The mappings of a profile are lists with
    distinct keys; the types of the fields are those of the record. *)
From stdpp Require Import base list strings.
From Stdlib Require Import Bool Ascii ZArith QArith Lia.
From stdpp Require Import base list strings sorting.
From S2P Require Import Prelude PyStr Shell Json Policy Temporal Execution Provenance RequestReaders.
From S2P Require Import Requests ActionModel JsonSchema RuntimeContract.
From S2P Require Import RuntimeDerive RuntimeBoundary Commitment RuntimeFacts RuntimeDeriveFacts.
#[local] Open Scope py_scope.
#[local] Open Scope nat_scope.

(** ** Selectors of hosts and identities *)

Definition suffix_label (label : string) : bool :=
  truthy label && str_forall (λ c, lower_alpha c || digit c || Ascii.eqb c "-") label.
(** [[a-z0-9-]+(\.[a-z0-9-]+)+] in full. *)
Definition host_suffix (suffix : string) : bool :=
  let labels := split_char "."%char suffix in
  (2 <=? length labels) && forallb suffix_label labels.
Definition host_matches (pattern : string) (host : option string) : bool :=
  match host with
  | None => false
  | Some host =>
      if startswith_any pattern ["*."; "**."] then
        let suffix := default "" (snd (split_once "."%char pattern)) in
        host_suffix suffix && endswith host ("." +:+ suffix)
        && (startswith pattern "**."
            || (length (split_char "."%char host) =? length (split_char "."%char suffix) + 1))
      else negb (contains pattern "*") && (pattern =s host)
  end.
Definition identity_matches (pattern value : option string) : bool :=
  match pattern, value with
  | Some pattern, Some value =>
      if (256 <? String.length pattern) || (256 <? String.length value) then false
      else if negb (contains pattern "*") then pattern =s value
      else endswith pattern "*" && (count_char "*"%char pattern =? 1)
           && startswith value (str_take (String.length pattern - 1) pattern)
  | None, None => true
  | _, _ => false
  end.

(** ** Profiles *)

Record RuntimeRequirementProfile := {
  rf_profile_id : string;
  rf_filesystem : list FilesystemCapability;
  rf_executable_bindings : list (string * string);
  rf_spawn_children : option bool;
  rf_client_executables : list string;
  rf_mcp_endpoints : list (string * string);
  rf_mcp_versions : list (string * list string) }.

Definition texts_object (l : list (string * string)) : json :=
  JObj (map (λ kv, (fst kv, JStr (snd kv))) l).
Definition versions_object (l : list (string * list string)) : json :=
  JObj (map (λ kv, (fst kv, jstrings (snd kv))) l).
Definition RuntimeRequirementProfile_as_dict (p : RuntimeRequirementProfile) : json :=
  JObj ([("profile_id", JStr (rf_profile_id p));
         ("filesystem", JArr (map FilesystemCapability_as_dict (rf_filesystem p)));
         ("executable_bindings", texts_object (rf_executable_bindings p));
         ("spawn_children", jbool_or_null (rf_spawn_children p))]
        ++ match rf_client_executables p with
           | [] => [] | l => [("client_executables", jstrings l)] end
        ++ match rf_mcp_endpoints p with
           | [] => [] | l => [("mcp_endpoints", texts_object l)] end
        ++ match rf_mcp_versions p with
           | [] => [] | l => [("mcp_versions", versions_object l)] end).

Definition versions_valid (endpoints : list (string * string)) (kv : string * list string) : bool :=
  mem (fst kv) (map fst endpoints) && negb (length (snd kv) =? 0)
  && forallb (λ v, mem v MCP_VERSIONS) (snd kv) && bool_decide (NoDup (snd kv)).
Definition with_versions (versions : list (string * list string)) (p : RuntimeRequirementProfile)
  : RuntimeRequirementProfile :=
  {| rf_profile_id := rf_profile_id p; rf_filesystem := rf_filesystem p;
     rf_executable_bindings := rf_executable_bindings p; rf_spawn_children := rf_spawn_children p;
     rf_client_executables := rf_client_executables p; rf_mcp_endpoints := rf_mcp_endpoints p;
     rf_mcp_versions := versions |}.
Definition required_target (f : FilesystemCapability) : bool :=
  match fc_path f with Some path => _safe_path path | None => false end
  && negb (fc_access f =s "unknown") && negb (fc_scope f =s "unknown").

Definition mk_RuntimeRequirementProfile (bracketed_host : string → bool)
    (p : RuntimeRequirementProfile) : res RuntimeRequirementProfile :=
  _ ← guard_or (truthy (rf_profile_id p) && (String.length (rf_profile_id p) <=? 128))
        (ValueError "runtime_requirement_profile_identity_invalid");
  _ ← model_tuple (rf_filesystem p);
  _ ← guard_or (forallb (λ kv, truthy (fst kv) && _safe_path (snd kv)) (rf_executable_bindings p))
        (ValueError "runtime_requirement_bindings_invalid");
  _ ← freeze MAX_RUNTIME_ITEMS 0 (texts_object (rf_executable_bindings p));
  _ ← text_tuple (rf_client_executables p);
  _ ← guard_or (forallb _safe_path (rf_client_executables p))
        (ValueError "runtime_requirement_client_invalid");
  _ ← guard_or (forallb (λ kv, truthy (fst kv)
                          && bool_decide (is_Some (endpoint_of bracketed_host (JStr (snd kv)))))
                  (rf_mcp_endpoints p))
        (ValueError "runtime_requirement_mcp_endpoint_invalid");
  _ ← freeze MAX_RUNTIME_ITEMS 0 (texts_object (rf_mcp_endpoints p));
  _ ← guard_or (forallb (versions_valid (rf_mcp_endpoints p)) (rf_mcp_versions p))
        (ValueError "runtime_requirement_mcp_versions_invalid");
  let versions := map (λ kv, (fst kv, sorted (snd kv))) (rf_mcp_versions p) in
  _ ← freeze MAX_RUNTIME_ITEMS 0 (versions_object versions);
  let p := with_versions versions p in
  _ ← guard_or (forallb required_target (rf_filesystem p))
        (ValueError "runtime_requirement_filesystem_invalid");
  _ ← freeze MAX_RUNTIME_ITEMS 0 (RuntimeRequirementProfile_as_dict p);
  Ok p.

Section declare.
Context (sha256 : string → string) (float_repr : Q → string).

Definition profile_digest (p : RuntimeRequirementProfile) : string :=
  digest sha256 float_repr (RuntimeRequirementProfile_as_dict p).

(** ** The records of a declaration *)

Definition requirement_record (kind code : string) (resource : option (string * string))
    (metadata : list (string * scalar)) : res ProvenanceRecord :=
  resource ← match resource with
             | Some (type, value) => r ← mk_ProvenanceResource type value; Ok (Some r)
             | None => Ok None
             end;
  let blank := blank_record "context" kind code in
  mk_ProvenanceRecord
    {| pv_source := pv_source blank; pv_kind := pv_kind blank; pv_code := pv_code blank;
       pv_summary := None; pv_decision := None; pv_risk := None; pv_effect := None;
       pv_resource := resource; pv_rule_id := None; pv_action_id := None; pv_category := None;
       pv_indices := []; pv_metadata := metadata |}.

Definition filesystem_record (p : RuntimeRequirementProfile) (f : FilesystemCapability)
  : res ProvenanceRecord :=
  requirement_record "resource" "runtime.requirement.filesystem"
    (Some ("path", default "" (fc_path f)))
    [("access", SText (fc_access f)); ("scope", SText (fc_scope f));
     ("profile_digest", SText (profile_digest p))].
Definition executable_record (p : RuntimeRequirementProfile) (kv : string * string)
  : res ProvenanceRecord :=
  requirement_record "resource" "runtime.requirement.executable" (Some ("executable", snd kv))
    [("logical_executable", SText (fst kv)); ("profile_digest", SText (profile_digest p))].
Definition children_records (p : RuntimeRequirementProfile) : list (res ProvenanceRecord) :=
  match rf_spawn_children p with
  | Some b => [requirement_record "finding" "runtime.requirement.children" None
                 [("spawn_children", SBool b); ("profile_digest", SText (profile_digest p))]]
  | None => []
  end.
Definition client_record (p : RuntimeRequirementProfile) (path : string)
  : res ProvenanceRecord :=
  requirement_record "resource" "runtime.requirement.client" (Some ("executable", path))
    [("profile_digest", SText (profile_digest p))].

Definition bindings_in_order (p : RuntimeRequirementProfile) : list (string * string) :=
  sorted_by (λ a b, texts_compare [fst a; snd a] [fst b; snd b]) (rf_executable_bindings p).
Definition local_records (p : RuntimeRequirementProfile) (review : ActionReview)
  : list (res ProvenanceRecord) :=
  map (filesystem_record p) (rf_filesystem p)
  ++ map (executable_record p) (bindings_in_order p)
  ++ children_records p
  ++ (if kind_of review =s "shell" then [] else map (client_record p) (rf_client_executables p)).

(** [",".join(versions)] *)
Definition version_record (p : RuntimeRequirementProfile) (server key : string)
  : list (res ProvenanceRecord) :=
  match dict_get key (rf_mcp_versions p) with
  | Some versions =>
      [requirement_record "finding" "runtime.requirement.mcp_versions" None
         [("server", SText server); ("versions", SText (join "," versions));
          ("profile_digest", SText (profile_digest p))]]
  | None => []
  end.
Definition mcp_records (p : RuntimeRequirementProfile) (review : ActionReview)
  : res (list ProvenanceRecord) :=
  match parameter review "server" with
  | JStr server =>
      let matching := sorted (List.filter (λ key, identity_matches (Some key) (Some server))
                                (map fst (rf_mcp_endpoints p))) in
      let urls := map (λ key, default "" (dict_get key (rf_mcp_endpoints p))) matching in
      _ ← guard_or (length (remove_dups urls) <=? 1)
            (ValueError "runtime_requirement_mcp_endpoint_conflict");
      all_ok (flat_map (version_record p server) matching
              ++ match urls with
                 | [] => []
                 | url :: _ =>
                     [requirement_record "resource" "runtime.requirement.mcp_endpoint"
                        (Some ("url", url))
                        [("server", SText server); ("profile_digest", SText (profile_digest p))]]
                 end)
  | _ => Ok []
  end.

Definition declare (p : RuntimeRequirementProfile) (review : ActionReview) : res ActionReview :=
  match av_provenance review with
  | None => Err (ValueError "runtime_requirement_review_invalid")
  | Some provenance =>
      local ← all_ok (local_records p review);
      mcp ← (if kind_of review =s "mcp" then mcp_records p review else Ok []);
      provenance ← append provenance (local ++ mcp) None None;
      Ok (with_provenance provenance review)
  end.
End declare.

(** ** What a declaration adds to the contract *)

#[local] Open Scope py_scope.
#[local] Open Scope nat_scope.

(** ** Requirements advance *)

(** The facts that a requirement may add; an executable path stays itself. *)
Record advances (r r' : Requirements) : Prop := {
  ad_draft : grows (rq_draft r) (rq_draft r');
  ad_parts : dr_network (rq_draft r') = dr_network (rq_draft r) ∧
    dr_tools (rq_draft r') = dr_tools (rq_draft r);
  ad_execution : rq_execution r = true → rq_execution r' = true;
  ad_executables : rq_executables r ⊆ rq_executables r';
  ad_children : rq_children r `prefix_of` rq_children r';
  ad_bindings k v : dict_get k (rq_bindings r) = Some v → dict_get k (rq_bindings r') = Some v }.
#[export] Instance advances_preorder : PreOrder advances.
Proof.
  split.
  - intros r. by split.
  - intros a b c [H1 [H2 H2'] H3 H4 H5 H6] [G1 [G2 G2'] G3 G4 G5 G6].
    split; [by etrans|split; congruence|auto|by etrans|by etrans|auto].
Qed.

(** A binding of a path is the path itself. *)
Definition rooted (r : Requirements) : Prop :=
  ∀ logical path, dict_get logical (rq_bindings r) = Some path →
    startswith logical "/" = true → path = logical.

Lemma fold_res_app {A S} (body : S → A → res S) l k s :
  fold_res body (l ++ k) s = (t ← fold_res body l s; fold_res body k t).
Proof.
  revert s. induction l as [|x l IH]; intros s; [done|]. cbn.
  destruct (body s x); cbn; [apply IH|done].
Qed.

Section facts.
Context (sha256 : string → string) (float_repr : Q → string).

Lemma requirement_advances shell r record r' :
  requirement float_repr shell r record = Ok r' → advances r r'.
Proof.
  unfold requirement, filesystem_requirement, executable_requirement. cbv zeta. intros H.
  repeat (case_match; inv_res; try reflexivity);
    split; cbn; try done; try apply unknown_grows; try (by apply prefix_app_r);
    try (intros k v Hk; rewrite dict_get_set; case_decide; [subst k|done]; split_bools;
         repeat match goal with E : (_ =s _) = true |- _ => apply eqb_true in E end; congruence).
  - unfold add_new. case_bool_decide; [done|by apply prefix_app_r].
  - by destruct (add_filesystem_inv _ _ _ _ _ _ ltac:(eassumption)).
  - match goal with H : add_filesystem _ _ _ _ _ = Ok _ |- _ => revert H end.
    unfold add_filesystem. intros H. by inv_res.
  - intros x Hx. apply sorted_set_elem, elem_of_app. by left.
Qed.

Lemma requirement_rooted shell r record r' :
  requirement float_repr shell r record = Ok r' → rooted r → rooted r'.
Proof.
  unfold requirement, filesystem_requirement, executable_requirement. cbv zeta. intros H Hr.
  repeat (case_match; inv_res; try exact Hr).
  all: intros logical path; cbn [rq_bindings]; rewrite dict_get_set;
    case_decide as E; [|apply Hr]; subst logical; intros [= <-] Hs;
    destruct (String.eqb_spec s (pr_value p)) as [->|Hne]; [done|];
    rewrite Hs, ?orb_true_r in H; discriminate H.
Qed.

(** ** What the records of a declaration add *)

Context (p : RuntimeRequirementProfile).
Hypothesis sha256_text : ∀ s, truthy (sha256 s) = true.

(** A record that the profile declares. *)
Definition declares (kind code : string) (resource : option (string * string))
    (data : list (string * scalar)) (record : ProvenanceRecord) : Prop :=
  pv_source record = "context" ∧ pv_code record = code ∧ pv_metadata record = data ∧
  (pr_value <$> pv_resource record) = (snd <$> resource).
Lemma requirement_record_declares kind code resource data record :
  requirement_record kind code resource data = Ok record →
  declares kind code resource data record.
Proof.
  unfold requirement_record, mk_ProvenanceResource, mk_ProvenanceRecord. cbv zeta. intros H.
  destruct resource as [[type value]|]; inv_res; by split_and!.
Qed.
Lemma declared_by record data :
  pv_source record = "context" → pv_metadata record = data →
  dict_get "profile_digest" data = Some (SText (profile_digest sha256 float_repr p)) →
  declared record = true.
Proof.
  intros Hs Hm Hd. unfold declared, metadata. rewrite Hs, Hm, Hd.
  change (truthy (profile_digest sha256 float_repr p) = true). apply sha256_text.
Qed.

Lemma filesystem_record_adds shell f record r r' :
  fc_path f ≠ None → _safe_path (default "" (fc_path f)) = true →
  filesystem_record sha256 float_repr p f = Ok record →
  requirement float_repr shell r record = Ok r' → f ∈ dr_filesystem (rq_draft r').
Proof.
  unfold filesystem_record. intros Hp Hsafe (Hs & Hc & Hm & Hr)%requirement_record_declares.
  unfold requirement. rewrite (declared_by _ _ Hs Hm eq_refl), Hc. cbn [negb].
  change (_ =s "runtime.requirement.children") with false.
  destruct (pv_resource record) as [x|]; [|done]. cbn in Hr. injection Hr as ->. cbv iota zeta.
  change ("runtime.requirement.filesystem" =s "runtime.requirement.filesystem") with true. cbv iota.
  unfold filesystem_requirement, metadata. rewrite Hsafe, Hm. cbn [negb dict_get default].
  change (dict_get "access" _) with (Some (SText (fc_access f))).
  intros H. inv_res. cbn [rq_draft with_draft].
  match goal with H : add_filesystem _ _ _ _ _ = Ok _ |- _ => apply add_filesystem_inv in H as [_ H] end.
  destruct f as [access [path|] scope]; done.
Qed.
Lemma children_record_adds shell b record r r' :
  requirement_record "finding" "runtime.requirement.children" None
    [("spawn_children", SBool b); ("profile_digest", SText (profile_digest sha256 float_repr p))]
  = Ok record →
  requirement float_repr shell r record = Ok r' → b ∈ rq_children r'.
Proof.
  intros (Hs & Hc & Hm & _)%requirement_record_declares.
  unfold requirement. rewrite (declared_by _ _ Hs Hm eq_refl), Hc. cbn [negb].
  change (_ =s "runtime.requirement.children") with true. cbv iota.
  unfold metadata. rewrite Hm. cbn. intros [= <-]. cbn. apply add_new_elem. by left.
Qed.
Lemma client_record_adds path record r r' :
  _safe_path path = true → client_record sha256 float_repr p path = Ok record →
  requirement float_repr false r record = Ok r' →
  path ∈ rq_executables r' ∧ rq_execution r' = true.
Proof.
  unfold client_record. intros Hsafe (Hs & Hc & Hm & Hr)%requirement_record_declares.
  unfold requirement. rewrite (declared_by _ _ Hs Hm eq_refl), Hc. cbn [negb].
  destruct (pv_resource record) as [x|]; [|done]. cbn in Hr. injection Hr as ->. cbn -[_safe_path].
  rewrite Hsafe. intros [= <-]. split; [|done].
  apply sorted_set_elem, elem_of_app. right. by apply list_elem_of_singleton.
Qed.

(** The conflict of a binding with another, or with an absolute program. *)
Definition binding_conflict : CapabilityUnknown :=
  {| cu_domain := "process"; cu_reason_code := "runtime_contract_conflicting_requirement";
     cu_reason := "Runtime executable bindings conflict with reviewed identity." |}.
Lemma executable_record_binds shell logical path record r r' :
  _safe_path path = true → executable_record sha256 float_repr p (logical, path) = Ok record →
  requirement float_repr shell r record = Ok r' →
  dict_get logical (rq_bindings r') = Some path ∨ binding_conflict ∈ dr_unknowns (rq_draft r').
Proof.
  unfold executable_record. intros Hsafe (Hs & Hc & Hm & Hr)%requirement_record_declares.
  unfold requirement. rewrite (declared_by _ _ Hs Hm eq_refl), Hc. cbn [negb].
  destruct (pv_resource record) as [x|]; [|done]. cbn in Hr. injection Hr as ->.
  unfold metadata. rewrite Hm. cbn -[_safe_path executable_requirement]. rewrite Hsafe.
  intros [= <-]. unfold executable_requirement. cbv zeta. destruct (_ || _).
  - right. cbn. apply add_new_elem. by left.
  - left. cbn. rewrite dict_get_set. by rewrite decide_True.
Qed.
(** Only the record of a binding binds a program. *)
Lemma local_binds review token x record :
  Ok record ∈ local_records sha256 float_repr p review → binds_program token x record →
  (token, x) ∈ rf_executable_bindings p.
Proof.
  intros Hin (_ & Hcode & Hmeta & resource & Hres & Hx).
  assert (∀ kind code res data, requirement_record kind code res data = Ok record →
    code = "runtime.requirement.executable") as Hother
    by (intros ???? (_ & Hc & _)%requirement_record_declares; congruence).
  unfold local_records in Hin. rewrite !elem_of_app in Hin.
  destruct Hin as [Hin|[Hin|[Hin|Hin]]].
  - apply list_elem_of_fmap in Hin as (f & Hf & _). symmetry in Hf.
    unfold filesystem_record, client_record in Hf. by apply Hother in Hf.
  - apply list_elem_of_fmap in Hin as ([k v] & Hf & Hin). symmetry in Hf.
    unfold executable_record in Hf. apply requirement_record_declares in Hf as (_ & _ & Hm & Hr).
    unfold metadata in Hmeta. rewrite Hm in Hmeta. injection Hmeta as <-.
    rewrite Hres in Hr. injection Hr as Hr. rewrite <- Hx, Hr.
    unfold bindings_in_order in Hin. by apply in_sorted_by in Hin.
  - unfold children_records in Hin. destruct (rf_spawn_children p); [|by apply elem_of_nil in Hin].
    apply list_elem_of_singleton in Hin. symmetry in Hin. by apply Hother in Hin.
  - destruct (_ =s _); [by apply elem_of_nil in Hin|].
    apply list_elem_of_fmap in Hin as (f & Hf & _). symmetry in Hf.
    unfold filesystem_record, client_record in Hf. by apply Hother in Hf.
Qed.

(** The executables of an action that is no shell command are safe paths. *)
Definition clients_safe (r : Requirements) : Prop :=
  Forall (λ x, _safe_path x = true) (rq_executables r).
Lemma requirement_clients_safe shell r record r' :
  requirement float_repr shell r record = Ok r' → clients_safe r → clients_safe r'.
Proof.
  unfold requirement, filesystem_requirement, executable_requirement. cbv zeta. intros H Hr.
  repeat (case_match; inv_res; try exact Hr).
  unfold clients_safe. rewrite Forall_forall. intros x Hx.
  apply sorted_set_elem, elem_of_app in Hx as [Hx|Hx%list_elem_of_singleton].
  - unfold clients_safe in Hr. rewrite Forall_forall in Hr. by apply Hr.
  - subst x. by split_bools.
Qed.

(** ** The declared review *)

Context (bracketed_host : string → bool) (float_decimal : Q → Decimal).
#[local] Abbreviation derive :=
  (derive_runtime_capability_contract bracketed_host float_decimal sha256 float_repr).

Lemma all_ok_elem {A} (l : list (res A)) k m :
  all_ok l = Ok k → m ∈ l → ∃ x, m = Ok x ∧ x ∈ k.
Proof.
  revert k. induction l as [|y l IH]; cbn; intros k H Hm; [by apply elem_of_nil in Hm|].
  apply res_bind_ok in H as (x & -> & H). apply res_bind_ok in H as (k' & Hk & H).
  injection H as <-. apply elem_of_cons in Hm as [->|Hm]; [exists x; split; [done|left]|].
  destruct (IH _ Hk Hm) as (z & ? & ?). exists z. split; [done|by right].
Qed.

Lemma declare_inv review review' :
  declare sha256 float_repr p review = Ok review' → kind_of review ≠ "mcp" →
  ∃ old local, provenance_records review = old ∧
    all_ok (local_records sha256 float_repr p review) = Ok local ∧
    ∃ prov, review' = with_provenance prov review ∧ records prov = old ++ local.
Proof.
  unfold declare. destruct (av_provenance review) as [prov|] eqn:Ep; [|done].
  intros H Hk. apply res_bind_ok in H as (local & Hl & H). apply res_bind_ok in H as (mcp & Hm & H).
  destruct (String.eqb_spec (kind_of review) "mcp"); [done|]. injection Hm as <-.
  apply res_bind_ok in H as (prov' & Hp & H). injection H as <-. rewrite app_nil_r in Hp.
  exists (records prov), local. unfold provenance_records. rewrite Ep. split_and!; [done..|].
  exists prov'. split; [done|]. revert Hp. unfold append, mk_DecisionProvenance. intros Hp.
  by inv_res.
Qed.

(** Before the requirements, the derivation does not look at the provenance. *)
Lemma before_requirements prov review c pd before after execution executables children :
  kind_of review ≠ "mcp" →
  derivation bracketed_host float_decimal sha256 float_repr (with_provenance prov review) c pd
    before after execution executables children →
  ∃ d1 d2 d4,
    filesystem_part float_repr review (semantics_part review empty_draft) = Ok d1 ∧
    network_part bracketed_host float_decimal sha256 float_repr review d1 = Ok d2 ∧
    tool_part float_repr review (mcp_version_part review d2) = Ok d4 ∧
    process_part review d4 = (pd, before).
Proof.
  intros Hk D. destruct (de_before _ _ _ _ _ _ _ _ _ _ _ _ D) as (d1 & d2 & d4 & H1 & H2 & H4 & H6).
  exists d1, d2, d4. apply String.eqb_neq in Hk. split_and!; [exact H1| |revert H4|exact H6].
  - revert H2. unfold network_part, network_resources, mcp_urls_of.
    change (kind_of (with_provenance prov review)) with (kind_of review). by rewrite Hk.
  - unfold mcp_version_part. change (kind_of (with_provenance prov review)) with (kind_of review).
    by rewrite Hk.
Qed.

(** The conflict that several child-process requirements leave. *)
Definition children_conflict : CapabilityUnknown :=
  {| cu_domain := "process"; cu_reason_code := "runtime_contract_conflicting_requirement";
     cu_reason := "Runtime child-process requirements conflict." |}.

Lemma requirements_part_inv review pd d d' execution executables children :
  requirements_part float_repr review pd d = Ok (d', execution, executables, children) →
  ∃ r, fold_res (requirement float_repr (kind_of review =s "shell")) (provenance_records review)
      {| rq_draft := d; rq_execution := pd_execution pd; rq_executables := pd_executables pd;
         rq_bindings := []; rq_children := [] |} = Ok r ∧
    execution = rq_execution r ∧
    executables = map (λ v, default v (dict_get v (rq_bindings r))) (rq_executables r) ∧
    ((length (rq_children r) ≤ 1 ∧ d' = rq_draft r ∧ children = head (rq_children r)) ∨
     2 ≤ length (rq_children r) ∧ children = None ∧
       d' = unknown "process" "runtime_contract_conflicting_requirement"
              "Runtime child-process requirements conflict." (rq_draft r)).
Proof.
  unfold requirements_part. intros (r & Hr & H)%res_bind_ok. exists r. split; [done|].
  cbv zeta in H. destruct (rq_children r) as [|b [|b' bs]]; inv_res; cbn.
  1,2: split_and!; [done..|left; split_and!; [lia|done..]].
  split_and!; [done..|]. right. split_and!; [lia|done..].
Qed.

Lemma all_ok_mem {A} (l : list (res A)) k x : all_ok l = Ok k → x ∈ k → Ok x ∈ l.
Proof.
  intros H%all_ok_Forall2 (i & Hi)%list_elem_of_lookup_1.
  destruct (Forall2_lookup_r _ _ _ _ _ H Hi) as (m & Hm & E). rewrite <- E.
  by eapply list_elem_of_lookup_2.
Qed.
Lemma fold_clients_safe shell l r r' :
  fold_res (requirement float_repr shell) l r = Ok r' → clients_safe r → clients_safe r'.
Proof.
  revert r. induction l as [|x l IH]; intros r H Hr; cbn in H; inv_res; [done|].
  eapply IH; [exact H|]. by eapply requirement_clients_safe.
Qed.
Lemma fold_rooted shell l r r' :
  fold_res (requirement float_repr shell) l r = Ok r' → rooted r → rooted r'.
Proof.
  revert r. induction l as [|x l IH]; intros r H Hr; cbn in H; inv_res; [done|].
  eapply IH; [exact H|]. by eapply requirement_rooted.
Qed.
Lemma unknown_mono domain code reason d d' :
  grows d d' → grows (unknown domain code reason d) (unknown domain code reason d').
Proof.
  intros (Hf & Hn & Ht & Hu). split_and!; [done..|]. cbn.
  intros u. rewrite !add_new_elem. intros [?|?]; [by left|right; by apply Hu].
Qed.

(** What the second of two requirement states adds to the first. *)
Lemma after_advances r r' d d' children children' :
  advances r r' →
  (length (rq_children r) ≤ 1 ∧ d = rq_draft r ∧ children = head (rq_children r)) ∨
   2 ≤ length (rq_children r) ∧ children = None ∧
     d = unknown "process" "runtime_contract_conflicting_requirement"
           "Runtime child-process requirements conflict." (rq_draft r) →
  (length (rq_children r') ≤ 1 ∧ d' = rq_draft r' ∧ children' = head (rq_children r')) ∨
   2 ≤ length (rq_children r') ∧ children' = None ∧
     d' = unknown "process" "runtime_contract_conflicting_requirement"
            "Runtime child-process requirements conflict." (rq_draft r') →
  grows d d' ∧ dr_network d' = dr_network d ∧ dr_tools d' = dr_tools d ∧
  dr_filesystem d' = dr_filesystem (rq_draft r') ∧
  ∀ b, b ∈ rq_children r' → children' = Some b ∨ children_conflict ∈ dr_unknowns d'.
Proof.
  intros [Hg [Hn Ht] _ _ Hc%prefix_length _] H H'. split; [|split_and!].
  - destruct H as [(_ & -> & _)|(H2 & _ & ->)], H' as [(H1 & -> & _)|(_ & _ & ->)].
    + done.
    + etrans; [exact Hg|apply unknown_grows].
    + lia.
    + by apply unknown_mono.
  - destruct H as [(_ & -> & _)|(_ & _ & ->)], H' as [(_ & -> & _)|(_ & _ & ->)]; done.
  - destruct H as [(_ & -> & _)|(_ & _ & ->)], H' as [(_ & -> & _)|(_ & _ & ->)]; done.
  - by destruct H' as [(_ & -> & _)|(_ & _ & ->)].
  - intros b Hb. destruct H' as [(H1 & _ & ->)|(_ & _ & ->)].
    + left. destruct (rq_children r') as [|x [|]]; cbn in *; [by apply elem_of_nil in Hb| |lia].
      apply list_elem_of_singleton in Hb as ->. done.
    + right. cbn. apply add_new_elem. by left.
Qed.

(** What a declaration adds to the requirements. *)
Lemma declaration_adds p0 review local r r' :
  mk_RuntimeRequirementProfile bracketed_host p0 = Ok p →
  all_ok (local_records sha256 float_repr p review) = Ok local →
  fold_res (requirement float_repr (kind_of review =s "shell")) local r = Ok r' →
  advances r r' ∧
  (∀ f, f ∈ rf_filesystem p → f ∈ dr_filesystem (rq_draft r')) ∧
  (∀ b, rf_spawn_children p = Some b → b ∈ rq_children r') ∧
  (kind_of review ≠ "shell" → ∀ x, x ∈ rf_client_executables p →
     x ∈ rq_executables r' ∧ rq_execution r' = true) ∧
  (∀ logical path, (logical, path) ∈ rf_executable_bindings p →
     dict_get logical (rq_bindings r') = Some path ∨ binding_conflict ∈ dr_unknowns (rq_draft r')).
Proof.
  intros Hp Hl Hf. set (shell := kind_of review =s "shell") in *.
  assert (forallb _safe_path (rf_client_executables p) = true ∧
    forallb required_target (rf_filesystem p) = true ∧
    forallb (λ kv, truthy (fst kv) && _safe_path (snd kv)) (rf_executable_bindings p) = true)
    as (Hclient & Htarget & Hbinding).
  { revert Hp. unfold mk_RuntimeRequirementProfile. cbv zeta. intros H. by inv_res. }
  rewrite forallb_forall in Hclient, Htarget, Hbinding.
  apply (fold_res_spec _ advances (λ record s,
    (∀ f, f ∈ rf_filesystem p → filesystem_record sha256 float_repr p f = Ok record →
       f ∈ dr_filesystem (rq_draft s)) ∧
    (∀ b, children_records sha256 float_repr p = [Ok record] → rf_spawn_children p = Some b →
       b ∈ rq_children s) ∧
    (∀ x, shell = false → x ∈ rf_client_executables p →
       client_record sha256 float_repr p x = Ok record →
       x ∈ rq_executables s ∧ rq_execution s = true) ∧
    (∀ logical path, (logical, path) ∈ rf_executable_bindings p →
       executable_record sha256 float_repr p (logical, path) = Ok record →
       dict_get logical (rq_bindings s) = Some path ∨ binding_conflict ∈ dr_unknowns (rq_draft s))))
    in Hf as [Hadv Hall].
  - split; [exact Hadv|].
    assert (∀ m, m ∈ local_records sha256 float_repr p review → ∃ x, m = Ok x ∧ x ∈ local) as Hin
      by (intros m Hm; by eapply all_ok_elem).
    unfold local_records in Hin. split_and!.
    + intros f Hff. destruct (Hin (filesystem_record sha256 float_repr p f)) as (x & Hx & Hxl).
      { apply elem_of_app. left. by apply list_elem_of_fmap_2. }
      by eapply (Hall x Hxl).
    + intros b Hb. unfold children_records in Hin, Hall. rewrite Hb in Hin, Hall.
      destruct (Hin (requirement_record "finding" "runtime.requirement.children" None
        [("spawn_children", SBool b);
         ("profile_digest", SText (profile_digest sha256 float_repr p))])) as (x & Hx & Hxl).
      { rewrite !elem_of_app. right; right; left. left. }
      apply (Hall x Hxl); [by rewrite Hx|done].
    + intros Hk x Hx. apply String.eqb_neq in Hk. fold shell in Hk, Hin. rewrite Hk in Hin.
      destruct (Hin (client_record sha256 float_repr p x)) as (y & Hy & Hyl).
      { rewrite !elem_of_app. do 3 right. by apply list_elem_of_fmap_2. }
      by eapply (Hall y Hyl).
    + intros logical path Hb.
      destruct (Hin (executable_record sha256 float_repr p (logical, path))) as (y & Hy & Hyl).
      { rewrite !elem_of_app. right. left. apply (list_elem_of_fmap_2 (executable_record _ _ _)).
        by apply in_sorted_by. }
      by eapply (Hall y Hyl).
  - intros s record s' Hs. split; [by eapply requirement_advances|]. split_and!.
    + intros f Hff Hr. pose proof (Htarget f (proj1 (list_elem_of_In _ _) Hff)) as Ht.
      unfold required_target in Ht. split_bools.
      eapply filesystem_record_adds; [..|exact Hr|exact Hs]; by destruct (fc_path f).
    + intros b Hr Hb. unfold children_records in Hr. rewrite Hb in Hr. injection Hr as Hr.
      by eapply children_record_adds.
    + intros x -> Hx Hr. eapply client_record_adds; [|exact Hr|exact Hs].
      by apply Hclient, list_elem_of_In.
    + intros logical path Hb Hr. eapply executable_record_binds; [|exact Hr|exact Hs].
      specialize (Hbinding _ (proj1 (list_elem_of_In _ _) Hb)). by split_bools.
  - intros record s s' (H1 & H2 & H3 & H4) [(Hd & _ & _ & Hu) _ He Hx Hc Hbs]. split_and!.
    + intros f Hff Hr. by apply Hd, H1.
    + intros b Hr Hb. destruct Hc as [k Hk]. rewrite Hk. apply elem_of_app. left. by apply H2.
    + intros x Hsh Hxx Hr. destruct (H3 x Hsh Hxx Hr) as [Ha Hb]. auto.
    + intros logical path Hb Hr. destruct (H4 logical path Hb Hr) as [?|?]; auto.
Qed.

(** The executables of the contract before and after. *)
Definition resolved (r : Requirements) : list string :=
  map (λ v, default v (dict_get v (rq_bindings r))) (rq_executables r).
Lemma resolved_rooted r : rooted r → clients_safe r → resolved r = rq_executables r.
Proof.
  intros Hr Hs. unfold resolved. rewrite <- (map_id (rq_executables r)) at 2.
  apply map_ext_in. intros x Hx. unfold clients_safe in Hs. rewrite Forall_forall in Hs.
  specialize (Hs x (proj2 (list_elem_of_In _ _) Hx)). unfold _safe_path in Hs. split_bools.
  destruct (dict_get x (rq_bindings r)) as [path|] eqn:E; [|done]. by apply Hr.
Qed.

(** The executables before the requirements: the program of a shell action. *)
Lemma process_part_program review d pd d' :
  process_part review d = (pd, d') →
  pd_executables pd = [] ∨
  kind_of review = "shell" ∧ ∃ token, runs_token review token ∧ pd_executables pd = [token].
Proof.
  unfold process_part. cbv zeta. destruct (String.eqb_spec (kind_of review) "shell") as [Hk|Hk];
    [|intros [= <- _]; by left].
  set (p0 := {| pd_execution := _ |}). unfold shell_process, runs_token.
  destruct (parameter review "command") as [| | | |command| |] eqn:Hc;
    try (by intros [= <- _]; left).
  destruct (split_shell_segments command) as [[[|[|t rest] [|]] [|]]|] eqn:Hs;
    try (by intros [= <- _]; left).
  intros [= <- _]. cbn. destruct (_ && _); [right|by left]. split; [done|].
  exists t. split; [by exists command, rest|done].
Qed.

(** The requirements of the review, and then those of the declaration. *)
Section stages.
Context (review : ActionReview) (pd : ProcessDraft) (before d4 : Draft).
Context (old local : list ProvenanceRecord) (r r' : Requirements).
#[local] Abbreviation initial :=
  {| rq_draft := before; rq_execution := pd_execution pd; rq_executables := pd_executables pd;
     rq_bindings := []; rq_children := [] |}.
Hypothesis (Hpd : process_part review d4 = (pd, before)).
Hypothesis (Hold : fold_res (requirement float_repr (kind_of review =s "shell")) old initial = Ok r).
Hypothesis (Hlocal : fold_res (requirement float_repr (kind_of review =s "shell")) local r = Ok r').
Hypothesis (Hadv : advances r r').

Lemma requirements_rooted : rooted r ∧ rooted r'.
Proof.
  assert (rooted r) as H by by eapply fold_rooted. split; [done|]. by eapply fold_rooted.
Qed.

Lemma clients_extend :
  kind_of review ≠ "shell" →
  (∀ x, x ∈ rf_client_executables p → x ∈ rq_executables r' ∧ rq_execution r' = true) →
  resolved r ++ rf_client_executables p ⊆ resolved r'.
Proof.
  intros Hk Hcl. destruct requirements_rooted as [Hr Hr'].
  assert (clients_safe initial) as Hinit.
  { unfold clients_safe. cbn.
    destruct (process_part_program _ _ _ _ Hpd) as [-> |[? _]]; [constructor|done]. }
  assert (clients_safe r) as Hs by by eapply fold_clients_safe.
  assert (clients_safe r') as Hs' by by eapply fold_clients_safe.
  rewrite !resolved_rooted by done. intros x [Hx|Hx]%elem_of_app.
  - by apply (ad_executables _ _ Hadv).
  - by apply Hcl.
Qed.

Lemma program_bound (conflict : Prop) :
  kind_of review = "shell" → all_ok (local_records sha256 float_repr p review) = Ok local →
  (∀ logical path, (logical, path) ∈ rf_executable_bindings p →
     dict_get logical (rq_bindings r') = Some path ∨ conflict) →
  resolved r = [] ∧ resolved r' = [] ∨
  ∃ token, runs_token review token ∧
    (∀ path, (token, path) ∈ rf_executable_bindings p → resolved r' = [path] ∨ conflict) ∧
    ((∀ path, (token, path) ∉ rf_executable_bindings p) → resolved r' = resolved r).
Proof.
  intros Hk Hl Hbd. rewrite Hk in Hold, Hlocal. change ("shell" =s "shell") with true in *.
  apply shell_requirements in Hold as [Hx _]. apply shell_requirements in Hlocal as [Hx' Hb'].
  unfold resolved. rewrite Hx', Hx. cbn [rq_executables].
  destruct (process_part_program _ _ _ _ Hpd) as [-> |(_ & token & Ht & ->)]; [by left|right].
  exists token. split; [done|]. cbn [map]. split.
  - intros path Hp. destruct (Hbd _ _ Hp) as [-> |?]; [by left|by right].
  - intros Hno. f_equal. destruct (dict_get token (rq_bindings r')) as [x|] eqn:E.
    + destruct (Hb' _ _ E) as [-> |(record & Hin & Hb)]; [done|].
      destruct (Hno x). eapply local_binds; [|exact Hb]. by eapply all_ok_mem.
    + destruct (dict_get token (rq_bindings r)) as [x|] eqn:E0; [|done].
      by rewrite (ad_bindings _ _ Hadv _ _ E0) in E.
Qed.
End stages.

(** C24: Declaring a profile for an action that is no MCP call takes nothing
    from the contract of its review: identity, decision, risk, network, tools
    and privilege stay, and no file access, execution or unknown is lost.  Of
    what the profile states, the file accesses are in the contract; whether
    children are spawned is, or the declarations conflict and the contract says
    so; the program of a shell action is the path to which the profile binds it,
    or the contract reports a conflict of bindings, and stays what it was when
    the profile does not bind it; the client executables are added to those of
    any other action, while a shell action takes none of them; and a binding of
    an absolute program to another path is reported as a conflict. *)
Theorem declare_only_adds p0 review review' c c' :
  mk_RuntimeRequirementProfile bracketed_host p0 = Ok p →
  declare sha256 float_repr p review = Ok review' → kind_of review ≠ "mcp" →
  derive review = Ok c → derive review' = Ok c' →
  (rc_action_id c' = rc_action_id c ∧ rc_action_digest c' = rc_action_digest c ∧
   rc_decision c' = rc_decision c ∧ rc_risk c' = rc_risk c ∧ rc_network c' = rc_network c ∧
   rc_tools c' = rc_tools c ∧ rc_privilege c' = rc_privilege c) ∧
  (rc_filesystem c ⊆ rc_filesystem c' ∧ rc_unknowns c ⊆ rc_unknowns c' ∧
   (pc_execution (rc_process c) = Some true → pc_execution (rc_process c') = Some true)) ∧
  rf_filesystem p ⊆ rc_filesystem c' ∧
  (∀ b, rf_spawn_children p = Some b →
     pc_spawn_children (rc_process c') = Some b ∨ children_conflict ∈ rc_unknowns c') ∧
  (kind_of review ≠ "shell" →
     pc_executables (rc_process c) ++ rf_client_executables p ⊆ pc_executables (rc_process c')) ∧
  (kind_of review = "shell" →
     pc_executables (rc_process c) = [] ∧ pc_executables (rc_process c') = [] ∨
     ∃ token, runs_token review token ∧
       (∀ path, (token, path) ∈ rf_executable_bindings p →
          pc_executables (rc_process c') = [path] ∨ binding_conflict ∈ rc_unknowns c') ∧
       ((∀ path, (token, path) ∉ rf_executable_bindings p) →
          pc_executables (rc_process c') = pc_executables (rc_process c))) ∧
  (∀ logical path, (logical, path) ∈ rf_executable_bindings p → startswith logical "/" = true →
     path = logical ∨ binding_conflict ∈ rc_unknowns c').
Proof.
  intros Hp Hdec Hk Hc Hc'. apply declare_inv in Hdec as (old & local & Hold & Hl & prov & -> & Hrec);
    [|done].
  apply derive_parts in Hc as (pd & before & after & execution & executables & children & D).
  apply derive_parts in Hc' as (pd' & before' & after' & execution' & executables' & children' & D').
  destruct (before_requirements _ _ _ _ _ _ _ _ _ Hk D') as (e1 & e2 & e4 & G1 & G2 & G4 & G6).
  destruct (de_before _ _ _ _ _ _ _ _ _ _ _ _ D) as (d1 & d2 & d4 & H1 & H2 & H4 & H6).
  assert (pd' = pd ∧ before' = before) as [-> ->].
  { rewrite H1 in G1. injection G1 as ->. rewrite H2 in G2. injection G2 as ->.
    rewrite H4 in G4. injection G4 as ->. rewrite H6 in G6. by injection G6. }
  clear G1 G2 G4 G6 H1 H2 H4.
  pose proof (de_requirements _ _ _ _ _ _ _ _ _ _ _ _ D) as (r & Hr & Hex & Hexs & Hend)%requirements_part_inv.
  pose proof (de_requirements _ _ _ _ _ _ _ _ _ _ _ _ D') as (r' & Hr' & Hex' & Hexs' & Hend')%requirements_part_inv.
  change (provenance_records (with_provenance prov review)) with (records prov) in Hr'.
  change (kind_of (with_provenance prov review)) with (kind_of review) in Hr'.
  rewrite Hrec, <- Hold, fold_res_app, Hr in Hr'. cbn [mbind res_bind] in Hr'.
  destruct (declaration_adds p0 review local r r' Hp Hl Hr') as (Hadv & Hfs & Hsp & Hcl & Hbd).
  destruct (after_advances r r' after after' children children' Hadv Hend Hend')
    as ((Hgf & _ & _ & Hgu) & Hnet & Htl & Hfe & Hch).
  rewrite (de_id _ _ _ _ _ _ _ _ _ _ _ _ D), (de_id _ _ _ _ _ _ _ _ _ _ _ _ D'),
    (de_digest _ _ _ _ _ _ _ _ _ _ _ _ D), (de_digest _ _ _ _ _ _ _ _ _ _ _ _ D'),
    (de_decision _ _ _ _ _ _ _ _ _ _ _ _ D), (de_decision _ _ _ _ _ _ _ _ _ _ _ _ D'),
    (de_risk _ _ _ _ _ _ _ _ _ _ _ _ D), (de_risk _ _ _ _ _ _ _ _ _ _ _ _ D'),
    (de_network _ _ _ _ _ _ _ _ _ _ _ _ D), (de_network _ _ _ _ _ _ _ _ _ _ _ _ D'),
    (de_tools _ _ _ _ _ _ _ _ _ _ _ _ D), (de_tools _ _ _ _ _ _ _ _ _ _ _ _ D'),
    (de_privilege _ _ _ _ _ _ _ _ _ _ _ _ D), (de_privilege _ _ _ _ _ _ _ _ _ _ _ _ D'),
    (de_filesystem _ _ _ _ _ _ _ _ _ _ _ _ D), (de_filesystem _ _ _ _ _ _ _ _ _ _ _ _ D'),
    (de_unknowns _ _ _ _ _ _ _ _ _ _ _ _ D), (de_unknowns _ _ _ _ _ _ _ _ _ _ _ _ D'),
    (de_process _ _ _ _ _ _ _ _ _ _ _ _ D), (de_process _ _ _ _ _ _ _ _ _ _ _ _ D').
  change (adapted (with_provenance prov review)) with (adapted review).
  cbn [pc_execution pc_executables pc_spawn_children]. rewrite Hnet, Htl.
  split; [by split_and!|]. split.
  { split_and!; [intros f; rewrite !in_sorted_by; apply Hgf|intros u; rewrite !in_sorted_by; apply Hgu|].
    destruct (adapted review); [|done]. rewrite Hex, Hex'. intros [= E]. f_equal. by apply Hadv. }
  assert (∀ logical path, (logical, path) ∈ rf_executable_bindings p →
    dict_get logical (rq_bindings r') = Some path ∨
    binding_conflict ∈ sorted_by unknown_compare (dr_unknowns after')) as Hbound.
  { intros logical path Hb. destruct (Hbd _ _ Hb) as [?|Hu]; [by left|right]. apply in_sorted_by.
    by destruct Hend' as [(_ & -> & _)|(_ & _ & ->)]; [|apply unknown_grows]. }
  assert (rooted r') as Hroot' by (eapply requirements_rooted; [exact Hr|exact Hr']).
  split_and!.
  - intros f Hf. apply in_sorted_by. rewrite Hfe. by apply Hfs.
  - intros b Hb. destruct (Hch b (Hsp b Hb)) as [->|Hu]; [by left|right]. by apply in_sorted_by.
  - intros Hsh. rewrite Hexs, Hexs'.
    eapply clients_extend; [exact H6|exact Hr|exact Hr'|done..|by apply Hcl].
  - intros Hsh. rewrite Hexs, Hexs'.
    eapply program_bound; [exact H6|exact Hr|exact Hr'|done..].
  - intros logical path Hb Hs. destruct (Hbound _ _ Hb) as [Hg|?]; [left|by right].
    by apply (Hroot' _ _ Hg).
Qed.
End facts.
