(* ===== verification/RuntimeReview.v ===== *)
(** * Reviews with runtime evidence ([ordin/runtime_reasoning.py], [ordin/action.py], [ordin/api.py])

    What the reports of the runtime add to a review: records of its provenance,
    signals of the prior actions, signals of a current action that retries what
    was denied, and a merge that never relaxes.  Then [Ordin.review_action] with
    its evidence, binding and requirements, and the gate on it. *)
From stdpp Require Import base list strings gmap pretty.
From Stdlib Require Import Bool Ascii ZArith QArith Lia.
From S2P Require Import Prelude PyStr Json JsonText Policy Context Catalog Risk Temporal Review.
From S2P Require Import Execution Provenance ActionModel RequestReaders Requests ToolCalls.
From S2P Require Import ActionProvenance Action ActionPolicy McpContracts ActionGate.
From S2P Require Import JsonSchema RuntimeContract RuntimeDerive RuntimeObservation RuntimeRequirements.
#[local] Open Scope py_scope.
#[local] Open Scope nat_scope.

(** The reports of each action, in the order of [correlate]. *)
Definition RuntimeMap : Type := list (string * list RuntimeObservation).
(** [runtime_map.get(item.action_id, ()) if item.action_id else ()]. *)
Definition reports_of (m : RuntimeMap) (action : ActionEnvelope) : list RuntimeObservation :=
  match ac_action_id action with
  | Some id => if truthy id then default [] (dict_get id m) else []
  | None => []
  end.

(** ** Records *)

Definition opt_text (s : option string) : scalar :=
  match s with Some s => SText s | None => SNone end.
(** [metadata.get(key)]; the schema leaves texts only under the key. *)
Definition text_of_metadata (key : string) (o : RuntimeObservation) : scalar :=
  match jget (JObj (ro_metadata o)) key with JStr s => SText s | _ => SNone end.

Section records.
Context (sha256 : string → string) (float_repr : Q → string).
#[local] Abbreviation digest := (digest sha256 float_repr).

Definition report_metadata (index : nat) (o : RuntimeObservation) : list (string * scalar) :=
  [("history_index", SInt (Z.of_nat index));
   ("observation_digest", SText (observation_digest sha256 float_repr o));
   ("observation_id_sha256", SText (digest (JStr (ro_observation_id o))));
   ("action_digest", opt_text (ro_action_digest o)); ("contract_id", opt_text (ro_contract_id o));
   ("backend", SText (ro_backend o)); ("trust", SText (ro_trust o));
   ("enforcement_point", SText (ro_enforcement_point o)); ("outcome", SText (ro_outcome o));
   ("reason_code", SText (ro_reason_code o)); ("policy_digest", opt_text (ro_policy_digest o));
   ("session_digest", opt_text (ro_session_digest o));
   ("sandbox_id_sha256", match ro_sandbox_id o with
                         | Some id => if truthy id then SText (digest (JStr id)) else SNone
                         | None => SNone
                         end);
   ("event_digest", text_of_metadata "event_digest" o)].
Definition report_records (index : nat) (o : RuntimeObservation) : res (list ProvenanceRecord) :=
  let at_index := [("history_index", SInt (Z.of_nat index))] in
  record ← observation_record "observation" "runtime.observation.accepted" None None
             (ro_action_id o) (report_metadata index o);
  effects ← all_ok (map (λ e, observation_record "effect"
                                ("runtime.observation." +:+ ro_outcome o +:+ "-effect") (Some e)
                                None (ro_action_id o) (at_index ++ [("trust", SText (ro_trust o))]))
                      (ro_effects o));
  resources ← all_ok (map (λ r, x ← mk_ProvenanceResource (or_type r) (or_value r);
                                observation_record "resource" "runtime.observation.resource" None
                                  (Some x) (ro_action_id o) at_index) (ro_resources o));
  Ok (record :: effects ++ resources).

(** The loop over the history: [observations.get(action.action_id or "", ())]. *)
Fixpoint runtime_records (m : RuntimeMap) (index : nat) (actions : list ActionEnvelope)
  : res (list ProvenanceRecord) :=
  match actions with
  | [] => Ok []
  | action :: actions' =>
      here ← all_ok (map (report_records index)
                       (default [] (dict_get (default "" (ac_action_id action)) m)));
      later ← runtime_records m (S index) actions';
      Ok (concat here ++ later)
  end.
Definition with_runtime_provenance (review : ActionReview) (history : option ActionHistory)
    (m : RuntimeMap) : res ActionReview :=
  match history, av_provenance review with
  | Some h, Some provenance =>
      records ← runtime_records m 0 (hi_actions h);
      p ← append provenance records None None;
      Ok (with_provenance p review)
  | _, _ => Ok review
  end.
End records.

(** ** The targets of an action and of a report *)

(** A pair of type and value, or a request with host, port and path. *)
Definition target : Type := list string.

Definition request_path_plain (path : string) : bool :=
  negb (has_unsafe_authority_characters path) && startswith path "/"
  && negb (str_exists (λ c, mem (String c "") ["%"; "?"; "#"]) path)
  && negb (contains path "//")
  && forallb (λ part, negb (mem part ["."; ".."])) (split_char "/"%char path).
Definition _request_key (host port path : json) : option target :=
  match host, port, path with
  | JStr host, JInt port, JStr path =>
      if truthy host && (1 <=? port)%Z && (port <=? 65535)%Z && request_path_plain path
      then Some ["request"; lower host; pretty port; path] else None
  | _, _, _ => None
  end.

Section targets.
Context (bracketed_host : string → bool).

(** The request that a resource names, if any. *)
Definition resource_request (type value : string) : option target :=
  if negb (mem type ["url"; "endpoint"]) then None
  else if has_unsafe_authority_characters value then None else
  url ← urlsplit bracketed_host value;
  if negb (mem (scheme url) ["https"; "http"]) || has_userinfo (netloc url)
     || truthy (query url) || truthy (fragment url) then None else
  p ← port (netloc url);
  let p := default (if scheme url =s "https" then 443 else 80)%Z p in
  _request_key (jstr (hostname (netloc url))) (JInt p)
    (JStr (if truthy (url_path url) then url_path url else "/")).
Definition _resource_keys (resources : list (string * string)) : gset target :=
  list_to_set (map (λ r, [fst r; snd r]) resources)
  ∪ list_to_set (omap (λ r, resource_request (fst r) (snd r)) resources).

Definition is_request (k : target) : bool :=
  match k with type :: _ => type =s "request" | [] => false end.
Definition observed_resources (o : RuntimeObservation) : list (string * string) :=
  map (λ r, (or_type r, or_value r)) (ro_resources o).
Definition _observed_keys (o : RuntimeObservation) : gset target :=
  let keys := _resource_keys (observed_resources o) in
  if (ro_enforcement_point o =s "network") && (ro_operation o =s "http.request") then
    let metadata := JObj (ro_metadata o) in
    match _request_key (jget metadata "host") (jget metadata "port") (jget metadata "path") with
    | Some k =>
        let previous := filter (λ k, is_request k = true) keys in
        if bool_decide (previous ≠ ∅) && negb (bool_decide (k ∈ previous)) then ∅
        else {[ k ]} ∪ keys
    | None => keys
    end
  else keys.

(** ** The signals of the current action *)

Definition review_targets (review : ActionReview) : gset target :=
  _resource_keys (map (λ r, (ar_type r, ar_value r)) (av_resources review)).
(** The enforced denials that share a target with the action. *)
Definition denied_here (targets : gset target) (o : RuntimeObservation) : bool :=
  (ro_trust o =s "backend_enforced") && (ro_outcome o =s "denied")
  && bool_decide (_observed_keys o ∩ targets ≠ ∅).
Definition bump (counts : gmap target nat) (k : target) : gmap target nat :=
  <[k := default 0 (counts !! k) + 1]> counts.
Definition denied_counts (targets : gset target) (matches : list RuntimeObservation) : gmap target nat :=
  foldl (λ counts o, if ro_reason_code o =s "policy_denied"
                     then foldl bump counts (elements (_observed_keys o ∩ targets)) else counts)
    ∅ matches.
Definition MUTATIONS : list string :=
  ["filesystem.write"; "filesystem.delete"; "filesystem.permission_change";
   "system.configuration_write"; "system.device_write"].
Definition mutates (review : ActionReview) : bool :=
  existsb (λ e, startswith e "privilege." || mem e MUTATIONS) (av_effects review).

Definition current_runtime_signals (review : ActionReview) (m : RuntimeMap) : list string :=
  let targets := review_targets review in
  let matches := List.filter (denied_here targets) (concat (map snd m)) in
  (if existsb (λ kv, 2 <=? snd kv) (map_to_list (denied_counts targets matches))
   then ["signal:runtime-boundary-retry"] else [])
  ++ (if mutates review && (size targets =? 1)
         && existsb (λ o, mem "privilege.escalate" (ro_effects o)) matches
      then ["signal:runtime-privilege-alternative"] else []).
End targets.

(** ** The review *)

Definition add_signals (signals : list string) (e : TemporalActionEvidence)
  : TemporalActionEvidence :=
  {| ae_kind := ae_kind e; ae_operation := ae_operation e;
     ae_signals := ae_signals e ∪ list_to_set signals |}.

(** [max((decision, candidate), key=ENFORCEMENT_ORDER.__getitem__)]. *)
Definition enforced_decision (decision candidate : Decision) : Decision :=
  if ENFORCEMENT_ORDER decision <? ENFORCEMENT_ORDER candidate then candidate else decision.

Section review.
Context {score : Type} (close_to : score → score → bool).
Context (search : string → res (list (@SearchResult score))).
Context (default_policy : TemporalPolicySet).
Context (bracketed_host : string → bool).
Context (float_repr : Q → string) (sha256 : string → string) (policy_digest : json → string).
Context `{RequestReaders}.
Context (st : Store).

Section runtime_review_action.
Context (tool_semantics : option CompiledToolSemanticsRegistry).
Context (rest_semantics : option (list string)).
Context (reuse_start : bool) (reuse keep : nat → bool).
#[local] Abbreviation evidence_for_action :=
  (_temporal_evidence_for_action close_to search default_policy float_repr st tool_semantics rest_semantics).

(** The evidence of an action with the signals of its reports. *)
Definition evidence_with_reports (action : ActionEnvelope) (review : option ActionReview)
    (observation : option ActionObservation) (reports : list RuntimeObservation)
    (reuse keep : bool) (cache : option Cache) : res (TemporalActionEvidence * option Cache) :=
  out ← evidence_for_action action review observation reuse keep cache;
  Ok (add_signals (flat_map runtime_observation_signals reports) (fst out), snd out).

Fixpoint prior_evidence_with_reports (m : ObservationMap) (runtime_map : RuntimeMap)
    (index : nat) (actions : list ActionEnvelope) (cache : option Cache)
  : res (list TemporalActionEvidence * option Cache) :=
  match actions with
  | [] => Ok ([], cache)
  | item :: actions' =>
      out ← evidence_with_reports item None (observation_of m item) (reports_of runtime_map item)
              (reuse index) (keep index) cache;
      later ← prior_evidence_with_reports m runtime_map (S index) actions' (snd out);
      Ok (fst out :: fst later, snd later)
  end.

Definition runtime_review_action (action : ActionEnvelope) (history : option ActionHistory)
    (obs : option ObservationHistory) (runtime_observations : option RuntimeObservationHistory)
    (temporal_policy : option TemporalPolicySet) : res ActionReview :=
  base ← _review_action_base close_to search default_policy st tool_semantics rest_semantics action;
  m ← _observations_for_history history obs;
  runtime_map ← match runtime_observations with
                | Some h => correlate sha256 float_repr h history None None
                | None => Ok []
                end;
  base ← _with_observation_provenance base history m;
  base ← match runtime_map with
         | [] => Ok base
         | _ => with_runtime_provenance sha256 float_repr base history runtime_map
         end;
  match history with
  | None => Ok base
  | Some h =>
      match hi_actions h with
      | [] => Ok base
      | actions =>
          let policy := default default_policy temporal_policy in
          prior ← prior_evidence_with_reports m runtime_map 0 actions
                    (if reuse_start then Some ∅ else None);
          current ← evidence_for_action action (Some base) None
                      (reuse (length actions)) (keep (length actions)) (snd prior);
          let signals := match runtime_map with
                         | [] => []
                         | _ => current_runtime_signals bracketed_host base runtime_map
                         end in
          apply_matches_by policy_digest
            (match runtime_map with [] => stronger_decision | _ => enforced_decision end)
            policy base
            (evaluate_policy (compile_temporal_policy policy) (fst prior)
               (add_signals signals (fst current)))
      end
  end.
End runtime_review_action.

(** ** [Ordin.review_action] and the gate *)

(** A history of reports, or an object that [from_dict] reads as one. *)
Inductive RuntimeEvidence :=
| Reports (history : RuntimeObservationHistory)
| ReportsMapping (payload : json).
Definition parse_evidence (e : option RuntimeEvidence) : res (option RuntimeObservationHistory) :=
  match e with
  | None => Ok None
  | Some (Reports h) => Ok (Some h)
  | Some (ReportsMapping payload) =>
      h ← RuntimeObservationHistory_from_dict bracketed_host sha256 float_repr payload; Ok (Some h)
  end.

Definition binding_metadata (b : RuntimeReviewBinding) : list (string * scalar) :=
  [("session_digest", SText (rb_session_digest b)); ("sequence", SInt (rb_sequence b));
   ("epoch", SInt (rb_epoch b))].
Definition bind_review (b : RuntimeReviewBinding) (review : ActionReview) : res ActionReview :=
  match av_provenance review with
  | None => Err (AssertionError "")
  | Some provenance =>
      let blank := blank_record "context" "finding" "runtime.session.review" in
      record ← mk_ProvenanceRecord
                 {| pv_source := pv_source blank; pv_kind := pv_kind blank; pv_code := pv_code blank;
                    pv_summary := None; pv_decision := None; pv_risk := None; pv_effect := None;
                    pv_resource := None; pv_rule_id := None; pv_action_id := None;
                    pv_category := None; pv_indices := []; pv_metadata := binding_metadata b |};
      p ← append provenance [record] None None;
      Ok (with_provenance p review)
  end.

Context (reuse_start : bool) (reuse keep : nat → bool).

(** A host with the requirements of its runtime. *)
Definition runtime_host_review (h : Host) (requirements : option RuntimeRequirementProfile)
    (action : ActionEnvelope) (history : option ActionHistory) (obs : option ObservationHistory)
    (contract_check : option MCPContractCheck) (evidence : option RuntimeEvidence)
    (binding : option RuntimeReviewBinding) : res ActionReview :=
  parsed ← with_host_context h action;
  runtime_observations ← parse_evidence evidence;
  result ← runtime_review_action (host_tool_semantics h) (host_rest_semantics h) reuse_start reuse
             keep parsed history obs runtime_observations (host_temporal_policy h);
  result ← match host_action_policy h with
           | Some policy => apply policy_digest policy result
           | None => Ok result
           end;
  result ← match contract_check with Some c => check_apply c result | None => Ok result end;
  result ← match binding with Some b => bind_review b result | None => Ok result end;
  match requirements with
  | Some p => declare sha256 float_repr p result
  | None => Ok result
  end.

Section approvals.
Context {Proof : Type} (accepts : Proof → bool).

Definition runtime_evaluate_action (h : Host) (requirements : option RuntimeRequirementProfile)
    (action : ActionEnvelope) (history : option ActionHistory) (obs : option ObservationHistory)
    (contract_check : option MCPContractCheck) (evidence : option RuntimeEvidence)
    (binding : option RuntimeReviewBinding) (approval_satisfaction : option Proof)
  : res (ActionDecision (Proof := Proof)) :=
  review ← runtime_host_review h requirements action history obs contract_check evidence binding;
  disposition ← action_disposition h review;
  Ok {| xd_disposition := disposition; xd_review := review;
        xd_proof := match approval_satisfaction with
                    | Some proof => if accepts proof then Some proof else None
                    | None => None
                    end |}.
End approvals.
End review.
