(* ===== verification/RuntimeReviewFacts.v ===== *)
(** * Theorems about reviews with runtime evidence ([ordin/runtime_reasoning.py])

    Evidence of the runtime only ever strengthens a review, is recorded in its
    provenance, and changes nothing where there is none. *)
From stdpp Require Import base list strings gmap pretty.
From Stdlib Require Import Bool Ascii ZArith QArith Lia.
From S2P Require Import Prelude PyStr Json JsonText Policy Context Catalog Risk RiskFacts Temporal.
From S2P Require Import TemporalFacts Review ReviewFacts Execution Provenance ActionModel.
From S2P Require Import RequestReaders Requests ToolCalls ActionProvenance Action ActionPolicy.
From S2P Require Import McpContracts ActionPolicyFacts ActionFacts ActionGate JsonSchema.
From S2P Require Import RuntimeContract RuntimeDerive RuntimeFacts RuntimeObservation RuntimeObservationFacts.
From S2P Require Import RuntimeRequirements RuntimeReview.
#[local] Open Scope py_scope.
#[local] Open Scope nat_scope.

(** ** Rules of one step *)

(** A rule of one step is matched by the current action, whatever came before:
    no earlier match hides it. *)
Lemma one_step_candidate r p current prior index :
  pattern r = [p] → matches p current = true →
  Some [index + length prior] ∈ candidates r index (prior ++ [current]).
Proof.
  intros Hp Hm. induction prior as [|e prior IH] in index |- *; cbn [app candidates length].
  - rewrite step_matches_0, Hp, Hm, Nat.add_0_r. left.
  - right. specialize (IH (S index)). by rewrite Nat.add_succ_l, <- Nat.add_succ_r in IH.
Qed.
Lemma one_step_rule policy r p prior current :
  is_ok (mk_TemporalRule r) = true → r ∈ policy → pattern r = [p] → matches p current = true →
  ∃ m, m ∈ te_matches (evaluate_policy policy prior current) ∧
    tm_risk m = tr_risk r ∧ tm_category m = tr_category r.
Proof.
  intros Hok Hr Hp Hm. unfold evaluate_policy. cbn [te_matches].
  set (bounded := last_n MAX_HISTORY_ACTIONS prior).
  destruct (first_some_is_Some (candidates r 0 (bounded ++ [current]))) as [indices Hi].
  { eexists. by apply (one_step_candidate r p current bounded 0). }
  exists (match_of r indices). split; [|done]. apply list_elem_of_omap. exists r. split; [done|].
  by rewrite (evaluate_rule_candidates r _ Hok), Hi.
Qed.

(** ** Merging decisions in the order of enforcement *)

Lemma enforced_ub d e :
  ENFORCEMENT_ORDER d ≤ ENFORCEMENT_ORDER (enforced_decision d e) ∧
  ENFORCEMENT_ORDER e ≤ ENFORCEMENT_ORDER (enforced_decision d e) ∧
  (enforced_decision d e = d ∨ enforced_decision d e = e).
Proof. destruct d, e; cbn; auto with lia. Qed.
Lemma raising_enforced a b :
  raising a → raising b → rank a ≤ rank b →
  ENFORCEMENT_ORDER (decision_for_risk a) ≤ ENFORCEMENT_ORDER (decision_for_risk b).
Proof.
  intros [->|[->| ->]]%raising_cases [->|[->| ->]]%raising_cases; vm_compute; lia.
Qed.

(** ** Counting denials of a target *)

Lemma filter_filter_andb {A} (f g : A → bool) l :
  List.filter f (List.filter g l) = List.filter (λ x, g x && f x) l.
Proof. induction l as [|x l IH]; cbn; [done|]. destruct (g x); cbn; [case_match|]; by rewrite IH. Qed.

Lemma bump_counts (ks : list target) : ∀ counts k, NoDup ks →
  default 0 (foldl bump counts ks !! k) = default 0 (counts !! k) + (if bool_decide (k ∈ ks) then 1 else 0).
Proof.
  induction ks as [|k' ks IH]; intros counts k Hnd; cbn [foldl].
  { rewrite bool_decide_eq_false_2 by apply not_elem_of_nil. lia. }
  apply NoDup_cons in Hnd as [Hk Hnd]. rewrite IH by done. unfold bump.
  destruct (decide (k = k')) as [->|Hne].
  - rewrite lookup_insert_eq, bool_decide_eq_false_2, bool_decide_eq_true_2 by (done || left). cbn. lia.
  - rewrite lookup_insert_ne by done.
    by rewrite (bool_decide_ext (k ∈ k' :: ks) (k ∈ ks)) by (rewrite elem_of_cons; naive_solver).
Qed.

Section counts.
Context (bracketed_host : string → bool).
#[local] Abbreviation observed := (_observed_keys bracketed_host).
#[local] Abbreviation targets_of := (review_targets bracketed_host).

(** A denial of the target under the policy that a backend enforced. *)
Definition policy_denial (k : target) (o : RuntimeObservation) : bool :=
  (ro_trust o =s "backend_enforced") && (ro_outcome o =s "denied")
  && (ro_reason_code o =s "policy_denied") && bool_decide (k ∈ observed o).

Lemma denied_counts_from targets l k : k ∈ targets → ∀ counts,
  default 0 (foldl (λ counts o, if ro_reason_code o =s "policy_denied"
     then foldl bump counts (elements (observed o ∩ targets)) else counts) counts l !! k) =
  default 0 (counts !! k)
  + length (List.filter (λ o, (ro_reason_code o =s "policy_denied") && bool_decide (k ∈ observed o)) l).
Proof.
  intros Hk. induction l as [|o l IH]; intros counts; cbn [foldl List.filter]; [cbn; lia|].
  rewrite IH. destruct (_ =s "policy_denied"); cbn [andb]; [|done].
  rewrite bump_counts by apply NoDup_elements.
  rewrite (bool_decide_ext (k ∈ elements (observed o ∩ targets)) (k ∈ observed o))
    by (rewrite elem_of_elements, elem_of_intersection; naive_solver).
  case_bool_decide; cbn [length]; lia.
Qed.

(** Two such denials of a target of the action are signalled. *)
Lemma retry_signalled review m k :
  k ∈ targets_of review → 2 ≤ length (List.filter (policy_denial k) (concat (map snd m))) →
  "signal:runtime-boundary-retry" ∈ current_runtime_signals bracketed_host review m.
Proof.
  intros Hk Hcount. unfold current_runtime_signals. cbv zeta. apply elem_of_app. left.
  set (matched := List.filter _ _). pose proof (denied_counts_from (targets_of review) matched k Hk ∅) as Hc.
  rewrite lookup_empty in Hc. cbn [default from_option] in Hc. fold (denied_counts bracketed_host) in Hc.
  assert (2 ≤ default 0 (denied_counts bracketed_host (targets_of review) matched !! k)) as H2.
  { unfold denied_counts. rewrite Hc. etrans; [exact Hcount|]. apply Nat.eq_le_incl.
    unfold matched. rewrite filter_filter_andb. cbn [Nat.add]. f_equal. apply List.filter_ext. intros o.
    unfold policy_denial, denied_here. destruct (bool_decide (k ∈ observed o)) eqn:Hb.
    - apply bool_decide_eq_true in Hb. rewrite (bool_decide_eq_true_2 (_ ∩ _ ≠ ∅)) by set_solver.
      by rewrite !andb_true_r.
    - by rewrite !andb_false_r. }
  rewrite (proj2 (existsb_exists _ _)); [left|].
  destruct (denied_counts _ _ matched !! k) as [n|] eqn:En; [|cbn in H2; lia].
  exists (k, n). split; [by apply list_elem_of_In, elem_of_map_to_list|by apply Nat.leb_le].
Qed.
End counts.

(** ** The reports that were correlated *)

Lemma filter_perm {A} (f : A → bool) l k : l ≡ₚ k → List.filter f l ≡ₚ List.filter f k.
Proof.
  induction 1 as [|x l k _ IH|x y l|l k j _ IH1 _ IH2]; cbn; [done| | |by etrans].
  - destruct (f x); by rewrite IH.
  - destruct (f x), (f y); try done. apply Permutation_swap.
Qed.
Lemma dict_append_perm {A} k (v : A) l :
  concat (map snd (dict_append k v l)) ≡ₚ concat (map snd l) ++ [v].
Proof.
  unfold dict_append. induction l as [|[k' vs] l IH]; [done|]. cbn [dict_get dict_set].
  destruct (k' =s k); cbn [map snd concat].
  - cbn. rewrite <- !app_assoc. by rewrite (Permutation_app_comm [v]).
  - by rewrite IH, app_assoc.
Qed.
Lemma correlate_loop_perm check l : ∀ r r',
  correlate_loop check l r = Ok r' → concat (map snd r') ≡ₚ concat (map snd r) ++ l.
Proof.
  induction l as [|o l IH]; intros r r'; cbn [correlate_loop].
  { intros [= <-]. by rewrite app_nil_r. }
  intros (_ & _ & H)%res_bind_ok. apply IH in H as ->. rewrite dict_append_perm, <- app_assoc. done.
Qed.

Section facts.
Context {score : Type} (close_to : score → score → bool).
Context (search : string → res (list (@SearchResult score))).
Context (default_policy : TemporalPolicySet).
Context (bracketed_host : string → bool).
Context (float_repr : Q → string) (sha256 : string → string) (policy_digest : json → string).
Context `{RequestReaders}.
Context (st : Store).

(** What a correlation that succeeds gives the review. *)
Lemma correlate_inv h history m :
  rh_observations h ≠ [] → correlate sha256 float_repr h history None None = Ok m →
  ∃ actions, history = Some actions ∧ hi_actions actions ≠ [] ∧
    concat (map snd m) ≡ₚ rh_observations h ∧
    ∀ o, o ∈ rh_observations h → ∃ a, a ∈ hi_actions actions ∧
      ac_action_id a = Some (ro_action_id o) ∧ o ∈ default [] (dict_get (ro_action_id o) m).
Proof.
  intros Hne. unfold correlate. destruct (rh_observations h) as [|o0 l0] eqn:El; [done|].
  rewrite <- El in *. clear El o0 l0. destruct history as [actions|]; [|done].
  intros (acts & Hacts & Hm)%res_bind_ok. exists actions. split; [done|].
  pose proof (collect_actions_spec (hi_actions actions) [] (NoDup_nil_2 (A := string))) as Hcol.
  rewrite Hacts in Hcol. destruct Hcol as [-> Hnd]. cbn [app] in *.
  fold (identified (hi_actions actions)) in *. rewrite identified_ids in Hnd.
  pose proof (correlate_loop_perm _ _ _ _ Hm) as Hperm. cbn in Hperm.
  pose proof (correlate_loop_spec (check_observation sha256 float_repr
    (identified (hi_actions actions)) (rh_contracts h) None None) (rh_observations h) [] []) as Hloop.
  cbn [fmap option_fmap option_map] in Hm. rewrite Hm in Hloop.
  destruct Hloop as [[_ Hg] Hall]; [split; [apply NoDup_nil_2|done]|].
  assert (∀ o, o ∈ rh_observations h → ∃ a, a ∈ hi_actions actions ∧
    ac_action_id a = Some (ro_action_id o) ∧ o ∈ default [] (dict_get (ro_action_id o) m)) as Hobs.
  { intros o Ho. pose proof (Hall o Ho) as Hc. unfold check_observation in Hc.
    destruct (dict_get _ (identified _)) as [a|] eqn:Ea; [|done].
    apply identified_get in Ea as [Hin Hid]; [|done]. exists a. split_and!; [done..|].
    cbn [app] in Hg. rewrite Hg. assert (o ∈ reported (ro_action_id o) (rh_observations h)) as Hr.
    { apply in_filter. split; [done|apply String.eqb_refl]. }
    by destruct (reported _ _). }
  split_and!; [|exact Hperm|exact Hobs].
  destruct (rh_observations h) as [|o l]; [done|]. destruct (Hobs o) as (a & Ha & _); [left|].
  intros E. rewrite E in Ha. by apply elem_of_nil in Ha.
Qed.

(** The record of an accepted report. *)
Definition records_report (rs : list ProvenanceRecord) (o : RuntimeObservation) : Prop :=
  ∃ rec, rec ∈ rs ∧ pv_code rec = "runtime.observation.accepted" ∧
    pv_action_id rec = Some (ro_action_id o) ∧
    ("observation_digest", SText (observation_digest sha256 float_repr o)) ∈ pv_metadata rec ∧
    ("trust", SText (ro_trust o)) ∈ pv_metadata rec ∧
    ("outcome", SText (ro_outcome o)) ∈ pv_metadata rec.

Lemma report_recorded index o rs :
  report_records sha256 float_repr index o = Ok rs → records_report rs o.
Proof.
  unfold report_records. cbv zeta. intros (rec & Hrec%mk_record_id & Hrs)%res_bind_ok.
  apply res_bind_ok in Hrs as (? & _ & Hrs). apply res_bind_ok in Hrs as (? & _ & [= <-]).
  exists rec. split; [left|]. rewrite Hrec. cbn [pv_code pv_action_id pv_metadata].
  split_and!; [done|done| | |]; unfold report_metadata;
    rewrite !elem_of_cons; auto 12.
Qed.
Lemma runtime_recorded m actions : ∀ index rs a o,
  runtime_records sha256 float_repr m index actions = Ok rs → a ∈ actions →
  o ∈ default [] (dict_get (default "" (ac_action_id a)) m) → records_report rs o.
Proof.
  induction actions as [|b actions IH]; intros index rs a o Hrs Ha Ho; [by apply elem_of_nil in Ha|].
  cbn [runtime_records] in Hrs. apply res_bind_ok in Hrs as (here & Hhere & Hrs).
  apply res_bind_ok in Hrs as (later & Hlater & [= <-]).
  apply elem_of_cons in Ha as [->|Ha].
  - destruct (all_ok_elem _ _ _ Hhere (list_elem_of_fmap_2 _ _ _ Ho)) as (rs & Hr & Hin).
    destruct (report_recorded _ _ _ Hr) as (rec & Hrec & Hrest). exists rec. split; [|done].
    apply elem_of_app. left. apply list_elem_of_In, in_concat. exists rs.
    split; by apply list_elem_of_In.
  - destruct (IH _ _ _ _ Hlater Ha Ho) as (rec & Hrec & Hrest). exists rec. split; [|done].
    apply elem_of_app. by right.
Qed.

Lemma runtime_provenance_inv r actions m r' :
  (∃ q, av_provenance r = Some q) →
  with_runtime_provenance sha256 float_repr r (Some actions) m = Ok r' →
  ∃ q q' new, av_provenance r = Some q ∧ r' = with_provenance q' r ∧
    records q' = records q ++ new ∧ final_decision q' = final_decision q ∧
    final_risk q' = final_risk q ∧
    runtime_records sha256 float_repr m 0 (hi_actions actions) = Ok new.
Proof.
  intros [q Hq]. unfold with_runtime_provenance. rewrite Hq.
  intros (new & Hnew & Hr)%res_bind_ok. apply res_bind_ok in Hr as (q' & Hq' & [= <-]).
  apply append_inv in Hq' as (? & ? & ? & _). by exists q, q', new.
Qed.

(** ** No evidence, no change *)

Lemma add_no_signals e : add_signals [] e = e.
Proof. destruct e as [k op s]. unfold add_signals. cbn. f_equal. set_solver. Qed.

Section reviews.
Context (tool_semantics : option CompiledToolSemanticsRegistry).
Context (rest_semantics : option (list string)).
Context (reuse_start : bool) (reuse keep : nat → bool).
#[local] Abbreviation base_review :=
  (_review_action_base close_to search default_policy st tool_semantics rest_semantics).
#[local] Abbreviation plain_review :=
  (review_action close_to search default_policy float_repr policy_digest st tool_semantics
     rest_semantics reuse_start reuse keep).
#[local] Abbreviation runtime_review :=
  (runtime_review_action close_to search default_policy bracketed_host float_repr sha256
     policy_digest st tool_semantics rest_semantics reuse_start reuse keep).
#[local] Abbreviation priors_with :=
  (prior_evidence_with_reports close_to search default_policy float_repr st tool_semantics
     rest_semantics reuse keep).
#[local] Abbreviation priors :=
  (prior_evidence close_to search default_policy float_repr st tool_semantics rest_semantics).

Lemma no_reports a : reports_of [] a = [].
Proof. unfold reports_of. destruct (ac_action_id a) as [id|]; [|done]. by destruct (truthy id). Qed.
Lemma priors_without_reports m actions : ∀ index cache,
  priors_with m [] index actions cache = priors m reuse keep index actions cache.
Proof.
  induction actions as [|a actions IH]; intros index cache; [done|].
  cbn [prior_evidence_with_reports prior_evidence]. rewrite no_reports.
  unfold evidence_with_reports. destruct (_temporal_evidence_for_action _ _ _ _ _ _ _ _ _ _ _ _ _)
    as [[e c]|]; [|done].
  cbn [mbind res_bind fst snd flat_map]. rewrite add_no_signals, IH. done.
Qed.

Lemma runtime_review_plain action history obs evidence policy :
  match evidence with Some h => rh_observations h = [] | None => True end →
  runtime_review action history obs evidence policy = plain_review action history obs policy.
Proof.
  intros He. unfold runtime_review_action, review_action.
  destruct (base_review action) as [base|]; [|done]. cbn [mbind res_bind].
  destruct (_observations_for_history history obs) as [m|]; [|done]. cbn [mbind res_bind].
  assert (match evidence with
          | Some h => correlate sha256 float_repr h history None None
          | None => Ok []
          end = Ok []) as -> by (destruct evidence; [unfold correlate; by rewrite He|done]).
  cbn [mbind res_bind].
  destruct (_with_observation_provenance base history m) as [b|]; [|done]. cbn [mbind res_bind].
  destruct history as [h|]; [|done]. destruct (hi_actions h) as [|a l]; [done|].
  rewrite priors_without_reports. destruct (priors _ _ _ _ _ _) as [prior|]; [|done].
  cbn [mbind res_bind]. destruct (_temporal_evidence_for_action _ _ _ _ _ _ _ _ _ _ _ _ _) as [[e c]|];
    [|done].
  cbn [mbind res_bind fst]. by rewrite add_no_signals.
Qed.

(** ** Evidence strengthens *)

(** What a review owes to its base review, to the matches of the temporal
    policy and to the reports that it was given. *)
Record runtime_verdict (base : ActionReview) (ms : list TemporalMatch)
    (reports : list RuntimeObservation) (r : ActionReview) : Prop := {
  rv_evidence : av_action r = av_action base ∧ av_effects r = av_effects base ∧
    av_resources r = av_resources base ∧ av_adapter r = av_adapter base ∧
    av_capabilities r = av_capabilities base ∧ av_intent_alignment r = av_intent_alignment base;
  rv_enforced : ENFORCEMENT_ORDER (av_decision base) ≤ ENFORCEMENT_ORDER (av_decision r);
  rv_decision : av_decision r = av_decision base ∨
    ∃ m, m ∈ ms ∧ av_decision r = decision_for_risk (tm_risk m);
  rv_risk : rank (av_risk base) ≤ rank (av_risk r) ∧
    (av_risk r = av_risk base ∨ av_risk r ∈ map tm_risk ms);
  rv_matches : ∀ m, m ∈ ms → rank (tm_risk m) ≤ rank (av_risk r) ∧
    ENFORCEMENT_ORDER (decision_for_risk (tm_risk m)) ≤ ENFORCEMENT_ORDER (av_decision r) ∧
    tm_reason m ∈ av_reasons r ∧ tm_category m ∈ av_trajectory_categories r;
  rv_reasons : av_reasons base `prefix_of` av_reasons r;
  rv_coherent : coherent r;
  rv_recorded : ∃ q q', av_provenance base = Some q ∧ av_provenance r = Some q' ∧
    records q `prefix_of` records q' ∧ ∀ o, o ∈ reports → records_report (records q') o }.

Lemma applied_verdict metadata base b ms reports r q qb :
  applied enforced_decision metadata b ms r → matches_raising ms →
  av_provenance base = Some q → b = with_provenance qb base → records q `prefix_of` records qb →
  (∀ o, o ∈ reports → records_report (records qb) o) →
  runtime_verdict base ms reports r.
Proof.
  intros [He Hn Hmg Hrm Hpre Hcr (p & p' & new & Hp & Hp' & Hrec & _)] Hms Hq -> Hqb Hrep.
  cbn [av_provenance with_provenance] in Hp. injection Hp as <-.
  assert (∃ q q', av_provenance base = Some q ∧ av_provenance r = Some q' ∧
    records q `prefix_of` records q' ∧ ∀ o, o ∈ reports → records_report (records q') o) as Hprov.
  { exists q, p'. split_and!; [done..| |].
    - rewrite Hrec. by apply prefix_app_r.
    - intros o Ho. destruct (Hrep o Ho) as (rec & Hin & Hrest). exists rec. split; [|done].
      rewrite Hrec. apply elem_of_app. by left. }
  cbn [with_provenance av_action av_effects av_resources av_adapter av_capabilities
    av_intent_alignment av_decision av_risk av_reasons av_safer_next_step] in He, Hn, Hmg, Hpre.
  destruct (decide (ms = [])) as [->|Hne].
  { destruct (Hn eq_refl) as (Hd & Hk & _ & _). split; try done; rewrite ?Hd, ?Hk; auto.
    by intros m ?%elem_of_nil. }
  destruct (Hmg Hne) as (t & Hin & Hraise & Hmax & Hrisk & Hd).
  destruct (enforced_ub (av_decision base) (decision_for_risk t)) as (Hub & Hut & Hcases).
  split; try done; rewrite ?Hrisk, ?Hd; [done| | |].
  - apply list_elem_of_fmap in Hin as (m & -> & Hm). destruct Hcases as [->| ->]; eauto.
  - destruct (Nat.ltb_spec (rank (av_risk base)) (rank t)); [split; [lia|by right]|auto].
  - intros m Hm. destruct (Hrm m Hm). pose proof (Hmax m Hm) as Hle. split_and!; [| |done|done].
    + destruct (Nat.ltb_spec (rank (av_risk base)) (rank t)); lia.
    + etrans; [|exact Hut]. unfold matches_raising in Hms. rewrite Forall_forall in Hms.
      apply raising_enforced; auto.
Qed.

(** The stages of a review with reports. *)
Lemma runtime_review_stages action history obs h policy r :
  policy_ok (compile_temporal_policy (default default_policy policy)) →
  rh_observations h ≠ [] → runtime_review action history obs (Some h) policy = Ok r →
  ∃ base actions m prior current, base_review action = Ok base ∧ history = Some actions ∧
    correlate sha256 float_repr h history None None = Ok m ∧
    concat (map snd m) ≡ₚ rh_observations h ∧
    runtime_verdict base
      (te_matches (evaluate_policy (compile_temporal_policy (default default_policy policy)) prior
         (add_signals (current_runtime_signals bracketed_host base m) current)))
      (rh_observations h) r.
Proof.
  intros Hp Hne Hr. unfold runtime_review_action in Hr.
  apply res_bind_ok in Hr as (base & Hbase & Hr). apply res_bind_ok in Hr as (om & _ & Hr).
  apply res_bind_ok in Hr as (m & Hm & Hr). apply res_bind_ok in Hr as (b & Hb & Hr).
  destruct (correlate_inv h history m Hne Hm)
    as (actions & -> & Hacts & Hperm & Hobs).
  assert (∃ k l, m = k :: l) as (k & l & Em).
  { destruct m as [|k l]; [|by exists k, l]. exfalso. apply Hne. by apply Permutation_nil_l in Hperm. }
  destruct (base_review_well _ _ _ _ _ _ _ _ Hbase) as (_ & Hco & Hprov & _).
  destruct (observation_coherent _ _ _ _ Hco Hprov Hb) as [Hcob Hprovb].
  apply res_bind_ok in Hr as (b' & Hb' & Hr).
  assert (with_runtime_provenance sha256 float_repr b (Some actions) m = Ok b') as Hw.
  { by rewrite Em in Hb' |- *. }
  apply runtime_provenance_inv in Hw as (qb & q' & new & Hqb & -> & Hrec & Hfd & Hfr & Hnew); [|done].
  assert (coherent (with_provenance q' b)) as Hcob'.
  { destruct Hcob as [Hv Hc]. destruct (Hc _ Hqb) as [H1 H2]. split; [done|].
    intros p [= <-]. by rewrite Hfd, Hfr. }
  destruct (hi_actions actions) as [|a0 l0] eqn:Ea; [done|].
  apply res_bind_ok in Hr as ([prior cache] & _ & Hr). apply res_bind_ok in Hr as ([current c] & _ & Hr).
  rewrite Em in Hr. cbv iota in Hr. rewrite <- Em in Hr. cbn [fst] in Hr.
  assert (∃ q, av_provenance base = Some q ∧ records q `prefix_of` records q' ∧
    with_provenance q' b = with_provenance q' base) as (q & Hq & Hpre & Eb).
  { destruct Hprov as [q Hq]. exists q. split; [done|].
    apply observation_provenance_inv in Hb as [->|(q0 & q1 & n1 & Hq0 & -> & Hr1 & _ & _)].
    - rewrite Hq in Hqb. injection Hqb as <-. split; [|done]. rewrite Hrec. by apply prefix_app_r.
    - rewrite (provenance_of_some _ _ Hq) in Hq0. injection Hq0 as <-.
      cbn in Hqb. injection Hqb as <-. split; [|done]. rewrite Hrec, Hr1.
      by do 2 apply prefix_app_r. }
  rewrite Eb in Hr, Hcob'.
  change (current_runtime_signals bracketed_host (with_provenance q' base) m)
    with (current_runtime_signals bracketed_host base m) in Hr.
  exists base, actions, m, prior, current. split_and!; [done..|].
  eapply applied_verdict; [eapply apply_matches_applied; [exact Hcob'|by exists q'| |exact Hr]| | | | |].
  - by apply evaluation_raising.
  - by apply evaluation_raising.
  - exact Hq.
  - done.
  - exact Hpre.
  - intros o Ho. destruct (Hobs o Ho) as (a & Hin & Hid & Hget).
    destruct (runtime_recorded _ _ _ _ a o Hnew Hin) as (rec & Hr0 & Hrest);
      [by rewrite Hid|].
    exists rec. split; [|done]. rewrite Hrec. apply elem_of_app. by right.
Qed.

(** Reviews without evidence of the runtime are untouched by it: a history
    of no reports gives the review, error or not, that is given without one. *)
Theorem runtime_review_transparent action history obs contracts policy :
  runtime_review action history obs None policy = plain_review action history obs policy ∧
  runtime_review action history obs
    (Some {| rh_observations := []; rh_contracts := contracts |}) policy =
  plain_review action history obs policy.
Proof. split; by apply runtime_review_plain. Qed.
End reviews.

(** ** The stages of the host *)

(** A later stage keeps the records and does not relax the decision. *)
Record strengthens (r r' : ActionReview) : Prop := {
  sg_records q : av_provenance r = Some q →
    ∃ q', av_provenance r' = Some q' ∧ records q `prefix_of` records q';
  sg_enforced : ENFORCEMENT_ORDER (av_decision r) ≤ ENFORCEMENT_ORDER (av_decision r') }.
#[local] Instance strengthens_preorder : PreOrder strengthens.
Proof.
  split.
  - intros r. split; [|done]. intros q Hq. by exists q.
  - intros r1 r2 r3 [H1 H2] [H3 H4]. split; [|by etrans].
    intros q Hq. destruct (H1 q Hq) as (q2 & Hq2 & Hp). destruct (H3 q2 Hq2) as (q3 & Hq3 & Hp').
    exists q3. split; [done|by etrans].
Qed.
Lemma appended_strengthens r q rs d risk q' :
  av_provenance r = Some q → append q rs d risk = Ok q' → strengthens r (with_provenance q' r).
Proof.
  intros Hq (Hrec & _)%append_inv. split; [|done]. intros p. rewrite Hq. intros [= <-].
  exists q'. split; [done|]. rewrite Hrec. by apply prefix_app_r.
Qed.

Lemma policy_strengthens p r r' :
  apply policy_digest (compile_action_policy p) r = Ok r' → strengthens r r'.
Proof.
  intros Hr. split.
  - intros q Hq. unfold apply, extend_provenance in Hr. rewrite Hq in Hr.
    destruct (pe_matches _); inv_res; cbn [av_provenance];
      match goal with H : append _ _ _ _ = Ok ?q' |- _ => apply append_inv in H as (Hrec & _); exists q' end;
      (split; [done|]; rewrite Hrec; by apply prefix_app_r).
  - apply apply_inv in Hr as [_ [_ Hmax]]. apply Hmax. left.
Qed.
Lemma check_strengthens c r r' : check_apply c r = Ok r' → strengthens r r'.
Proof.
  intros Hr. split.
  - intros q Hq. unfold check_apply in Hr. rewrite Hq in Hr. inv_res. cbn [av_provenance].
    match goal with H : append _ _ _ _ = Ok ?q' |- _ => apply append_inv in H as (Hrec & _); exists q' end.
    split; [done|]. rewrite Hrec. by apply prefix_app_r.
  - apply check_apply_inv in Hr as (_ & -> & _). unfold check_decision, blocked.
    destruct (verified c), (av_decision r); vm_compute; lia.
Qed.
Lemma binding_strengthens b r r' : bind_review b r = Ok r' → strengthens r r'.
Proof.
  unfold bind_review. destruct (av_provenance r) as [q|] eqn:Hq; [|done]. intros Hr. inv_res.
  by eapply appended_strengthens.
Qed.
Lemma declare_strengthens p r r' : declare sha256 float_repr p r = Ok r' → strengthens r r'.
Proof.
  unfold declare. destruct (av_provenance r) as [q|] eqn:Hq; [|done]. cbv zeta. intros Hr.
  apply res_bind_ok in Hr as (? & _ & Hr). apply res_bind_ok in Hr as (? & _ & Hr).
  apply res_bind_ok in Hr as (? & Hr & [= <-]). by eapply appended_strengthens.
Qed.

Section gate.
Context (reuse_start : bool) (reuse keep : nat → bool).
Context {Proof : Type} (accepts : Proof → bool).
#[local] Abbreviation decide_with_reports :=
  (runtime_evaluate_action close_to search default_policy bracketed_host float_repr sha256
     policy_digest st reuse_start reuse keep accepts).

Lemma host_review_strengthens h requirements action parsed base history obs check evidence reports
    binding r :
  host_ok default_policy h → with_host_context h action = Ok parsed →
  _review_action_base close_to search default_policy st (host_tool_semantics h)
    (host_rest_semantics h) parsed = Ok base →
  parse_evidence bracketed_host float_repr sha256 evidence = Ok (Some reports) →
  rh_observations reports ≠ [] →
  runtime_host_review close_to search default_policy bracketed_host float_repr sha256 policy_digest
    st reuse_start reuse keep h requirements action history obs check evidence binding = Ok r →
  ∃ r0 ms, runtime_verdict base ms (rh_observations reports) r0 ∧ strengthens r0 r.
Proof.
  intros [Htemporal Hpolicy] Hparsed Hbase Hev Hne Hr. unfold runtime_host_review in Hr.
  rewrite Hparsed, Hev in Hr. cbn [mbind res_bind] in Hr.
  apply res_bind_ok in Hr as (r0 & Hr0 & Hr). apply res_bind_ok in Hr as (r1 & Hr1 & Hr).
  apply res_bind_ok in Hr as (r2 & Hr2 & Hr). apply res_bind_ok in Hr as (r3 & Hr3 & Hr).
  apply runtime_review_stages in Hr0 as (base' & ? & ? & ? & ? & Hb & _ & _ & _ & Hv); [|done..].
  rewrite Hbase in Hb. injection Hb as <-. exists r0. eexists. split; [exact Hv|].
  transitivity r1; [|transitivity r2; [|transitivity r3]].
  - destruct (host_action_policy h) as [p|] eqn:Hp; [|by injection Hr1 as <-].
    destruct (Hpolicy p eq_refl) as [s ->]. by eapply policy_strengthens.
  - destruct check as [c|]; [by eapply check_strengthens|by injection Hr2 as <-].
  - destruct binding as [b|]; [by eapply binding_strengthens|by injection Hr3 as <-].
  - destruct requirements as [p|]; [by eapply declare_strengthens|by injection Hr as <-].
Qed.

(** C8: Evidence of the runtime never relaxes the gate.  Whatever reports are
    given, and whatever policies, contract check, binding and requirements the
    host has, the final decision is at least the one of the base review in the
    order of enforcement, so the gate executes only what it would execute on
    the base review alone; it denies exactly the blocked reviews; and every
    report is recorded in the provenance of the review that is decided on. *)
Theorem runtime_gate_strengthens h requirements action parsed base history obs check evidence
    reports binding (proof : option Proof) d :
  host_ok default_policy h → with_host_context h action = Ok parsed →
  _review_action_base close_to search default_policy st (host_tool_semantics h)
    (host_rest_semantics h) parsed = Ok base →
  parse_evidence bracketed_host float_repr sha256 evidence = Ok (Some reports) →
  rh_observations reports ≠ [] →
  decide_with_reports h requirements action history obs check evidence binding proof = Ok d →
  ENFORCEMENT_ORDER (av_decision base) ≤ ENFORCEMENT_ORDER (av_decision (xd_review d)) ∧
  (xd_disposition d = Deny ↔ av_decision (xd_review d) = Block) ∧
  (xd_disposition d = Execute → contract_open (xd_review d) = false ∧
     ENFORCEMENT_ORDER (av_decision base)
     < ENFORCEMENT_ORDER (threshold_decision (fail_on (or_policy (host h))))) ∧
  ∃ q, av_provenance (xd_review d) = Some q ∧
    ∀ o, o ∈ rh_observations reports → records_report (records q) o.
Proof.
  intros Hh Hparsed Hbase Hev Hne Hd. unfold runtime_evaluate_action in Hd.
  apply res_bind_ok in Hd as (r & Hr & Hd). apply res_bind_ok in Hd as (x & Hx & [= <-]).
  cbn [xd_review xd_disposition]. destruct (disposition_cases _ _ _ Hx) as [Hdeny Hexec].
  destruct (host_review_strengthens _ _ _ _ _ _ _ _ _ _ _ _ Hh Hparsed Hbase Hev Hne Hr)
    as (r0 & ms & Hv & Hs).
  pose proof (rv_enforced _ _ _ _ Hv) as Hle. pose proof (sg_enforced _ _ Hs) as Hle'.
  destruct (rv_recorded _ _ _ _ Hv) as (q & q0 & _ & Hq0 & _ & Hrep).
  destruct (sg_records _ _ Hs q0 Hq0) as (q' & Hq' & Hpre).
  split; [lia|]. split; [exact Hdeny|]. split.
  - intros [Ho Hlt]%Hexec. split; [exact Ho|lia].
  - exists q'. split; [done|]. intros o Ho. destruct (Hrep o Ho) as (rec & Hin & Hrest).
    exists rec. split; [|done]. by eapply prefix_in.
Qed.
End gate.
End facts.
