(* ===== verification/ShippedDelta.v ===== *)
(** * Reports, deltas and requirements of a concrete review

    A download that the runtime denied: its report, the proposal that follows,
    and the requirements of the host it ran on. *)
From stdpp Require Import base list strings gmap sorting.
From Stdlib Require Import Bool Ascii ZArith QArith Lia.
From S2P Require Import Prelude PyStr Json JsonText Policy RiskFacts Temporal TemporalFacts Review.
From S2P Require Import ReviewFacts Shipped ShippedReview Execution ToolCalls ActionGate.
From S2P Require Import Provenance RequestReaders Commitment Requests ActionModel Action ShippedAction.
From S2P Require Import JsonSchema RuntimeContract RuntimeDerive RuntimeBoundary.
From S2P Require Import RuntimeFacts RuntimeDeriveFacts RuntimeRoundTrip ShippedRuntime RuntimeObservation.
From S2P Require Import RuntimeObservationFacts EnforcementBackend CapabilityDelta.
From S2P Require Import RuntimeRequirements RuntimeReview RuntimeReviewFacts.
#[local] Open Scope py_scope.
#[local] Open Scope nat_scope.
#[local] Existing Instance sample_readers.

(** ** The action, its review and its contract *)

Definition fetch_action : ActionEnvelope :=
  {| ac_kind := "shell"; ac_operation := "execute";
     ac_parameters := [("command", JStr item_command)];
     ac_intent := None; ac_context := None; ac_action_id := Some "a1" |}.
#[local] Abbreviation base_review :=
  (_review_action_base sample_close sample_search shipped_temporal shipped None None).
#[local] Abbreviation derive_ :=
  (derive_runtime_capability_contract (λ _, true) no_decimal sample_digest64 no_float).
Definition fetch_review : ActionReview := ltac:(ok_value (base_review fetch_action)).
Definition fetch_contract : RuntimeCapabilityContract := ltac:(ok_value (derive_ fetch_review)).

(** ** Reports *)

Definition sandbox : RuntimeEvidenceSource :=
  {| es_backend := "openshell"; es_session_digest := sample_digest64 ""; es_sandbox_id := "box-1";
     es_policy_digest := sample_digest64 "" |}.
Definition denied_report : Report :=
  {| rp_observation_id := "obs-1"; rp_trust := "backend_enforced"; rp_enforcement_point := "network";
     rp_outcome := "denied"; rp_operation := "network.connect"; rp_effects := ["secret.read"];
     rp_resources := [{| or_type := "url"; or_value := "https://example.com/items/4" |}];
     rp_reason_code := "policy_denied";
     rp_metadata := [("host", JStr "example.com"); ("port", JInt 443); ("method", JStr "GET");
                     ("path", JStr "/items/4"); ("binary", JStr "/usr/bin/curl")] |}.
#[local] Abbreviation observe_ := (observe (λ _, true) sample_digest64 no_float).
#[local] Abbreviation mk_observation_ := (mk_RuntimeObservation (λ _, true) sample_digest64 no_float).
Definition denial : RuntimeObservation :=
  ltac:(ok_value (observe_ sandbox fetch_contract denied_report)).
Example denial_signals : runtime_observation_signals denial =
  ["signal:runtime-enforcement-point:network"; "signal:runtime-reason:policy_denied";
   "signal:runtime-denied"; "signal:runtime-enforced"; "signal:observed-failure";
   "signal:runtime-denied-effect:secret.read"; "signal:runtime-denied-secret-access"].
Proof. vm_compute. reflexivity. Qed.
(** A caller cannot claim enforcement. *)
Example caller_claims_enforcement :
  RuntimeObservation_from_dict (λ _, true) sample_digest64 no_float
    (RuntimeObservation_as_dict denial) =
  Err (RuntimeCorrelationError "runtime_observation_untrusted_source").
Proof. vm_compute. reflexivity. Qed.
Example secret_paths :
  map (λ p, secret_resource {| or_type := "path"; or_value := p |})
    ["/srv/.env"; "/srv/.ENV.local"; "secrets/a"; "/srv/id_rsa"; "/srv/id_rsa.pub"; "/srv/environment"]
  = [true; true; true; true; false; false].
Proof. vm_compute. reflexivity. Qed.

Definition run_history : RuntimeObservationHistory :=
  {| rh_observations := [denial]; rh_contracts := [fetch_contract] |}.
Definition fetched : ActionHistory := {| hi_actions := [fetch_action] |}.
Lemma denial_made : mk_observation_ denial = Ok denial.
Proof. vm_compute. reflexivity. Defined.
Lemma run_history_made : mk_RuntimeObservationHistory no_float run_history = Ok run_history.
Proof. vm_compute. reflexivity. Defined.

Lemma signals_exact_witness :
  mk_observation_ denial = Ok denial ∧
  "signal:runtime-denied-secret-access" ∈ runtime_observation_signals denial.
Proof.
  split; [exact denial_made|].
  apply (signals_exact (λ _, true) sample_digest64 no_float denial denial_made).
  split; [reflexivity|]. split; [by right|]. left. left.
Defined.

Lemma correlate_exact_witness :
  ∃ r, correlate sample_digest64 no_float run_history (Some fetched) (Some (sample_digest64 ""))
         (Some [sandbox]) = Ok r ∧ groups [denial] r ∧
    correlated sample_digest64 no_float fetched [fetch_contract] (Some (sample_digest64 ""))
      (Some [sandbox]) denial.
Proof.
  exists [("a1", [denial])]. split; [vm_compute; reflexivity|].
  pose proof (correlate_exact sample_digest64 no_float run_history (Some fetched)
    (Some (sample_digest64 "")) (Some [sandbox]) run_history_made) as H.
  assert (E : correlate sample_digest64 no_float run_history (Some fetched)
    (Some (sample_digest64 "")) (Some [sandbox]) = Ok [("a1", [denial])])
    by (vm_compute; reflexivity).
  rewrite E in H. destruct H as [Hg [Hnil|(reviewed & Hr & _ & Hall)]]; [discriminate Hnil|].
  injection Hr as <-. split; [exact Hg|]. apply Hall. left.
Defined.

Lemma trusted_evidence_scoped_witness :
  restore_history (λ _, true) sample_digest64 no_float [sandbox]
    (RuntimeObservationHistory_as_dict run_history) = Ok run_history ∧
  (ro_trust denial = "caller_asserted" ∨
   trusted denial ∧ ∃ s, s ∈ [sandbox] ∧ of_source s denial).
Proof.
  assert (E : restore_history (λ _, true) sample_digest64 no_float [sandbox]
    (RuntimeObservationHistory_as_dict run_history) = Ok run_history) by (vm_compute; reflexivity).
  split; [exact E|].
  apply (proj2 (trusted_evidence_scoped (λ _, true) sample_digest64 no_float) [sandbox] _ _ E).
  left.
Defined.

Lemma history_round_trip_witness :
  trusted denial ∧
  restore_history (λ _, true) sample_digest64 no_float [sandbox]
    (RuntimeObservationHistory_as_dict run_history) = Ok run_history.
Proof.
  split; [by right|].
  apply (history_round_trip (λ _, true) sample_digest64 no_float [sandbox] run_history).
  - exact run_history_made.
  - intros o ->%list_elem_of_singleton. split; [exact denial_made| |discriminate].
    intros r ->%list_elem_of_singleton. vm_compute. reflexivity.
  - intros c ->%list_elem_of_singleton.
    destruct (derived_made sample_digest64 no_float (λ _, true) no_decimal fetch_review fetch_contract)
      as (H1 & H2 & _); [vm_compute; reflexivity|]. split; [exact H2|exact H1].
  - apply NoDup_singleton.
  - intros o ->%list_elem_of_singleton _. exists sandbox. split; [left|]. by split_and!.
Defined.

(** ** The proposal *)

(** A backend that turns a contract into the list of its endpoints. *)
Definition sample_plan (c : RuntimeCapabilityContract) : EnforcementPlan :=
  {| ep_backend := "openshell"; ep_contract := c;
     ep_policy := [("network", JArr (map NetworkCapability_as_dict (rc_network c)))];
     ep_mode := "enforce"; ep_metadata := [] |}.
#[local] Instance sample_backend : Backend unit :=
  {| backend_compile _ c :=
       r ← mk_EnforcementPlan (sample_plan c);
       mk_CompilationResult
         {| cr_status := "success"; cr_backend := "openshell"; cr_reason_code := "compiled";
            cr_reasons := []; cr_unsupported_fields := []; cr_plan := Some r |};
     backend_validate _ p :=
       mk_BackendValidationResult
         {| bv_status := "success"; bv_backend := "openshell";
            bv_policy_digest := plan_policy_digest sample_digest64 no_float p;
            bv_reason_code := "valid"; bv_reasons := []; bv_unsupported_fields := [] |} |}.
#[local] Abbreviation propose_ :=
  (propose_capability_delta (λ _, true) no_decimal sample_digest64 no_float in_order).

Definition fetch_proposal : CapabilityDeltaProposal :=
  ltac:(ok_value (propose_ fetch_review fetch_contract denial item_reader (Some tt))).
Example fetch_proposed :
  (cp_status fetch_proposal, cp_reason_code fetch_proposal,
   rc_network <$> cp_requested_delta fetch_proposal) =
  ("requires_approval", "runtime_delta_requires_approval",
   Some [{| nc_host := Some "example.com"; nc_port := Some 443%Z; nc_protocol := "rest";
            nc_access := "read"; nc_methods := ["GET"]; nc_paths := ["/items/4"];
            nc_tool_identity := None |}]).
Proof. vm_compute. reflexivity. Qed.
Definition proposal_reason (o : RuntimeObservation) (b : RuntimeCapabilityBoundary) : res string :=
  cp_reason_code <$> propose_ fetch_review fetch_contract o b (Some tt).
Definition no_boundary : RuntimeCapabilityBoundary :=
  {| bd_boundary_id := "none"; bd_filesystem := []; bd_network := []; bd_tools := [];
     bd_process := bd_process item_reader; bd_privilege := no_privilege; bd_credentials := [];
     bd_filesystem_semantics := "exact"; bd_runtime_filesystem_guarantees := false;
     bd_allow_any_executable := false |}.
Definition report_of (trust outcome path : string) : RuntimeObservation :=
  {| ro_observation_id := "obs-2"; ro_action_id := "a1"; ro_action_digest := ro_action_digest denial;
     ro_contract_id := ro_contract_id denial; ro_backend := ro_backend denial; ro_trust := trust;
     ro_enforcement_point := "network"; ro_outcome := outcome; ro_operation := "network.connect";
     ro_effects := []; ro_resources := []; ro_reason_code := "denied";
     ro_metadata := [("host", JStr "example.com"); ("port", JInt 443); ("method", JStr "GET");
                     ("path", JStr path); ("binary", JStr "/usr/bin/curl")];
     ro_session_digest := ro_session_digest denial; ro_sandbox_id := ro_sandbox_id denial;
     ro_policy_digest := ro_policy_digest denial; ro_authority := ro_authority denial |}.
Example refusals :
  [proposal_reason denial no_boundary;
   proposal_reason (report_of "backend_observed" "denied" "/items/4") item_reader;
   proposal_reason (report_of "backend_enforced" "allowed" "/items/4") item_reader;
   proposal_reason (report_of "backend_enforced" "denied" "/items/5") item_reader]
  = [Ok "runtime_delta_boundary_rejected"; Ok "runtime_delta_untrusted_denial";
     Ok "runtime_delta_untrusted_denial"; Ok "runtime_delta_unmodeled_requirement"].
Proof. vm_compute. reflexivity. Qed.

Lemma fetch_proposal_made :
  propose_ fetch_review fetch_contract denial item_reader (Some tt) = Ok fetch_proposal.
Proof. vm_compute. reflexivity. Qed.
Definition fetch_request : access := Request "example.com" 443 "read" None "GET" "/items/4".
Lemma fetch_requested d : cp_requested_delta fetch_proposal = Some d → requires d fetch_request.
Proof.
  intros [= <-]. eexists. split; [left|].
  split; [split_and!; [reflexivity..|left|reflexivity]|right].
  split; [reflexivity|]. split; [left|]. exists "/items/4". split; [left|reflexivity].
Qed.

Lemma delta_proposal_justified_witness :
  cp_status fetch_proposal = "requires_approval" ∧
  ∃ d, cp_requested_delta fetch_proposal = Some d ∧
    predicts fetch_contract fetch_request ∧ allows item_reader fetch_request.
Proof.
  assert (Hs : cp_status fetch_proposal = "requires_approval") by (vm_compute; reflexivity).
  split; [exact Hs|].
  pose proof (delta_proposal_justified sample_digest64 no_float (λ _, true) no_decimal in_order
    in_order_elem fetch_review fetch_contract denial item_reader (Some tt) fetch_proposal denial_made
    fetch_proposal_made) as (_ & _ & _ & _ & [[Hr _]|(_ & d & Hd & Hj)]).
  - rewrite Hs in Hr. discriminate Hr.
  - exists d. split; [exact Hd|].
    apply (ju_within _ _ _ _ _ _ _ _ _ _ Hj), (fetch_requested d Hd).
Defined.

(** ** Requirements *)

Definition host_profile : RuntimeRequirementProfile :=
  {| rf_profile_id := "host-1";
     rf_filesystem := [{| fc_access := "read"; fc_path := Some "/etc/ssl"; fc_scope := "prefix" |}];
     rf_executable_bindings := [("/usr/bin/curl", "/usr/bin/curl")];
     rf_spawn_children := Some false; rf_client_executables := ["/opt/client"];
     rf_mcp_endpoints := [("files", "https://mcp.example.com/api")];
     rf_mcp_versions := [("files", ["2025-06-18"; "2025-03-26"])] |}.
Definition made_profile : RuntimeRequirementProfile :=
  ltac:(ok_value (mk_RuntimeRequirementProfile (λ _, true) host_profile)).
Definition declared_review : ActionReview :=
  ltac:(ok_value (declare sample_digest64 no_float made_profile fetch_review)).
Definition declared_contract : RuntimeCapabilityContract := ltac:(ok_value (derive_ declared_review)).
Example declared_children :
  (pc_spawn_children (rc_process fetch_contract), pc_spawn_children (rc_process declared_contract),
   rc_filesystem declared_contract) = (None, Some false, rf_filesystem host_profile).
Proof. vm_compute. reflexivity. Qed.

Lemma declare_only_adds_witness :
  declare sample_digest64 no_float made_profile fetch_review = Ok declared_review ∧
  rc_unknowns fetch_contract ⊆ rc_unknowns declared_contract ∧
  rf_filesystem made_profile ⊆ rc_filesystem declared_contract ∧
  ∃ token, runs_token fetch_review token ∧
    ∀ path, (token, path) ∈ rf_executable_bindings made_profile →
      pc_executables (rc_process declared_contract) = [path] ∨
      binding_conflict ∈ rc_unknowns declared_contract.
Proof.
  assert (E : declare sample_digest64 no_float made_profile fetch_review = Ok declared_review)
    by (vm_compute; reflexivity).
  split; [exact E|].
  destruct (declare_only_adds sample_digest64 no_float made_profile (λ _, eq_refl) (λ _, true)
    no_decimal host_profile fetch_review declared_review fetch_contract declared_contract
    ltac:(vm_compute; reflexivity) E ltac:(vm_compute; discriminate) ltac:(vm_compute; reflexivity)
    ltac:(vm_compute; reflexivity)) as (_ & (_ & Hu & _) & Hf & _ & _ & Hx & _).
  split; [exact Hu|]. split; [exact Hf|].
  destruct (Hx ltac:(vm_compute; reflexivity)) as [[Hnil _]|(token & Ht & Hb & _)].
  - vm_compute in Hnil. discriminate Hnil.
  - exists token. split; [exact Ht|exact Hb].
Defined.

(** ** Retrying what was denied *)

Definition retry_step : TemporalPredicate :=
  {| signals_any := ["signal:runtime-boundary-retry"]; kinds := []; operations := [] |}.
Lemma shipped_retry_rule :
  ∃ r, r ∈ default_temporal_policy ∧ pattern r = [retry_step] ∧ tr_risk r = "high" ∧
    tr_category r = "trajectory_policy_bypass_attempt".
Proof.
  eexists. split; [apply list_elem_of_lookup; exists 5; vm_compute; reflexivity|done].
Qed.

(** C9: Retrying what was denied is never simply allowed.  Under the shipped
    temporal policy, an action one of whose targets is the target of two
    reported denials, enforced by a backend under its policy, is reviewed with
    high risk at least, as an attempt to bypass the policy, and its decision is
    at least a warning, whatever the store, the semantics and the history. *)
Theorem boundary_retry_reviewed {score : Type} (close_to : score → score → bool) search
    bracketed_host float_repr sha256 policy_digest `{RequestReaders} st
    (tool_semantics : option CompiledToolSemanticsRegistry) rest_semantics reuse_start reuse keep
    action base history obs (h : RuntimeObservationHistory) r k :
  _review_action_base close_to search shipped_temporal st tool_semantics rest_semantics action
    = Ok base →
  runtime_review_action close_to search shipped_temporal bracketed_host float_repr sha256
    policy_digest st tool_semantics rest_semantics reuse_start reuse keep action history obs
    (Some h) None = Ok r →
  k ∈ review_targets bracketed_host base →
  2 ≤ length (List.filter (policy_denial bracketed_host k) (rh_observations h)) →
  rank "high" ≤ rank (av_risk r) ∧ ENFORCEMENT_ORDER Warn ≤ ENFORCEMENT_ORDER (av_decision r) ∧
  "trajectory_policy_bypass_attempt" ∈ av_trajectory_categories r.
Proof.
  intros Hbase Hr Hk Hcount.
  apply runtime_review_stages in Hr as (b & actions & m & prior & current & Hb & _ & _ & Hperm & Hv).
  - rewrite Hbase in Hb. injection Hb as <-. cbn [default from_option] in Hv.
    destruct shipped_retry_rule as (rule & Hin & Hpat & Hrisk & Hcat).
    destruct (one_step_rule default_temporal_policy rule retry_step prior
      (add_signals (current_runtime_signals bracketed_host base m) current))
      as (x & Hx & Hxr & Hxc); [|done|done| |].
    + pose proof default_policy_ok as Hok. unfold policy_ok in Hok. rewrite Forall_forall in Hok. auto.
    + unfold matches, retry_step. cbn. rewrite orb_false_r, bool_decide_eq_true, elem_of_union. right.
      apply elem_of_list_to_set. eapply retry_signalled; [exact Hk|].
      etrans; [exact Hcount|]. apply Nat.eq_le_incl, Permutation_length.
      by apply filter_perm.
    + destruct (rv_matches _ _ _ _ _ _ Hv x Hx) as (Hrk & Hd & _ & Hc).
      rewrite Hxr, Hrisk in Hrk, Hd. rewrite Hxc, Hcat in Hc. split_and!; [exact Hrk| |exact Hc].
      etrans; [|exact Hd]. vm_compute. lia.
  - exact default_policy_ok.
  - intros E. rewrite E in Hcount. cbn in Hcount. lia.
Qed.

(** Two attempts were denied; the third one is the same command. *)
Definition attempt (id : string) : ActionEnvelope :=
  {| ac_kind := "shell"; ac_operation := "execute";
     ac_parameters := [("command", JStr item_command)];
     ac_intent := None; ac_context := None; ac_action_id := Some id |}.
Definition attempt_contract (id : string) : RuntimeCapabilityContract :=
  match (r ← base_review (attempt id); derive_ r) with Ok c => c | Err _ => fetch_contract end.
Definition attempt_denied (id : string) : RuntimeObservation :=
  match observe_ sandbox (attempt_contract id)
          {| rp_observation_id := "obs-" +:+ id; rp_trust := "backend_enforced";
             rp_enforcement_point := "network"; rp_outcome := "denied";
             rp_operation := "http.request"; rp_effects := []; rp_resources := [];
             rp_reason_code := "policy_denied";
             rp_metadata := [("host", JStr "example.com"); ("port", JInt 443); ("method", JStr "GET");
                             ("path", JStr "/items/4")] |} with
  | Ok o => o | Err _ => denial end.
Definition attempts : ActionHistory := {| hi_actions := [attempt "a1"; attempt "a2"] |}.
Definition attempt_reports : RuntimeObservationHistory :=
  {| rh_observations := [attempt_denied "a1"; attempt_denied "a2"];
     rh_contracts := [attempt_contract "a1"; attempt_contract "a2"] |}.
Definition third_review : ActionReview := ltac:(ok_value (base_review (attempt "a3"))).
#[local] Abbreviation runtime_review_ :=
  (runtime_review_action sample_close sample_search shipped_temporal (λ _, true) no_float
     sample_digest64 no_digest shipped None None true (λ _, true) (λ _, true)).
Definition retry_review : ActionReview :=
  ltac:(ok_value (runtime_review_ (attempt "a3") (Some attempts) None (Some attempt_reports) None)).
Example retry_warned :
  (av_decision third_review, av_decision retry_review, av_risk retry_review) = (Allow, Warn, "high").
Proof. vm_compute. reflexivity. Qed.

Lemma boundary_retry_reviewed_witness :
  base_review (attempt "a3") = Ok third_review ∧
  runtime_review_ (attempt "a3") (Some attempts) None (Some attempt_reports) None = Ok retry_review ∧
  ENFORCEMENT_ORDER Warn ≤ ENFORCEMENT_ORDER (av_decision retry_review).
Proof.
  assert (Hb : base_review (attempt "a3") = Ok third_review) by (vm_compute; reflexivity).
  assert (Hr : runtime_review_ (attempt "a3") (Some attempts) None (Some attempt_reports) None
    = Ok retry_review) by (vm_compute; reflexivity).
  split; [exact Hb|]. split; [exact Hr|].
  refine (proj1 (proj2 (boundary_retry_reviewed sample_close sample_search (λ _, true) no_float
    sample_digest64 no_digest shipped None None true (λ _, true) (λ _, true) (attempt "a3")
    third_review (Some attempts) None attempt_reports retry_review
    ["request"; "example.com"; "443"; "/items/4"] Hb Hr _ _))).
  - apply (bool_decide_unpack _). vm_compute. exact I.
  - apply Nat.leb_le. vm_compute. reflexivity.
Defined.

Definition download_host : Host :=
  {| host := gate FailWarn; host_action_policy := None; host_temporal_policy := None;
     host_tool_semantics := None; host_rest_semantics := None |}.
Definition retry_binding : RuntimeReviewBinding :=
  {| rb_session_digest := sample_digest64 ""; rb_sequence := 3; rb_epoch := 0 |}.
Definition retry_evaluated : res (ActionDecision (Proof := unit)) :=
  runtime_evaluate_action sample_close sample_search shipped_temporal (λ _, true) no_float
    sample_digest64 no_digest shipped true (λ _, true) (λ _, true) (λ _, false) download_host
    (Some made_profile) (attempt "a3") (Some attempts) None None (Some (Reports attempt_reports))
    (Some retry_binding) None.
Definition retry_decision : ActionDecision (Proof := unit) := ltac:(ok_value retry_evaluated).
Example retry_escalated : xd_disposition retry_decision = Escalate.
Proof. vm_compute. reflexivity. Qed.

Lemma runtime_gate_strengthens_witness :
  retry_evaluated = Ok retry_decision ∧
  ENFORCEMENT_ORDER (av_decision third_review)
  ≤ ENFORCEMENT_ORDER (av_decision (xd_review retry_decision)).
Proof.
  assert (E : retry_evaluated = Ok retry_decision) by (vm_compute; reflexivity).
  split; [exact E|].
  unfold retry_evaluated in E.
  pose proof (runtime_gate_strengthens sample_close sample_search shipped_temporal (λ _, true)
    no_float sample_digest64 no_digest shipped true (λ _, true) (λ _, true) (λ _, false)
    download_host (Some made_profile) (attempt "a3") (attempt "a3") third_review (Some attempts)
    None None (Some (Reports attempt_reports)) attempt_reports (Some retry_binding) None
    retry_decision) as H.
  apply H; [split; [exact default_policy_ok|discriminate]|reflexivity| |reflexivity|discriminate|exact E].
  vm_compute. reflexivity.
Defined.
