(* ===== verification/SwarmModels.v ===== *)
(** * Enrollment data of the multi-agent layer ([ordin/swarm/models.py], [ordin/swarm/identity.py])

    Immutable identities, coverage manifests and contexts, with their checks
    and JSON forms.  Clock readings are whole seconds ([Z]): the code compares
    them, subtracts two and adds one lifetime. *)
From stdpp Require Import base list strings gmap.
From Stdlib Require Import Bool Ascii ZArith QArith Lia.
From S2P Require Import Prelude PyStr Json.
#[local] Open Scope py_scope.
#[local] Open Scope nat_scope.

(** [_ID]: [[A-Za-z0-9][A-Za-z0-9_.:@-]{0,127}\Z] over ASCII. *)
Definition id_first (c : ascii) : bool :=
  in_range 65 90 c || in_range 97 122 c || in_range 48 57 c.
Definition id_char (c : ascii) : bool :=
  id_first c || mem (String c EmptyString) ["_"; "."; ":"; "@"; "-"].
Definition valid_identifier (value : string) : bool :=
  match value with
  | EmptyString => false
  | String c rest => (String.length value <=? 128) && id_first c && str_forall id_char rest
  end.

Definition identifier (value name : string) : res unit :=
  guard_or (valid_identifier value) (ValueError (name +:+ " must be a bounded host identifier")).
Definition counter (value : Z) (name : string) : res unit :=
  guard_or ((0 <=? value)%Z && (value <? 2 ^ 63)%Z)
    (ValueError (name +:+ " must be a nonnegative bounded integer")).
Definition timestamp (value : Z) : res Z :=
  if (0 <=? value)%Z && (value <=? 10 ^ 18)%Z then Ok value
  else Err (ValueError "host clock must provide finite nonnegative monotonic seconds").

Record SwarmIdentity := {
  tenant_id : string;
  swarm_id : string;
  agent_id : string;
  runtime_id : string;
  session_id : string;
  generation : Z;
  policy_epoch : Z;
  parent_agent_id : option string;
  parent_generation : option Z;
  task_id : option string;
  delegation_id : option string }.

Definition opt_identifier (value : option string) (name : string) : res unit :=
  match value with Some v => identifier v name | None => Ok tt end.
Definition is_some {A} (o : option A) : bool := match o with Some _ => true | None => false end.

Definition SwarmIdentity_post_init (i : SwarmIdentity) : res unit :=
  _ ← identifier (tenant_id i) "tenant_id";
  _ ← identifier (swarm_id i) "swarm_id";
  _ ← identifier (agent_id i) "agent_id";
  _ ← identifier (runtime_id i) "runtime_id";
  _ ← identifier (session_id i) "session_id";
  _ ← opt_identifier (parent_agent_id i) "parent_agent_id";
  _ ← opt_identifier (task_id i) "task_id";
  _ ← opt_identifier (delegation_id i) "delegation_id";
  _ ← counter (generation i) "generation";
  _ ← counter (policy_epoch i) "policy_epoch";
  _ ← guard_or (negb (generation i =? 0)%Z) (ValueError "generation must be positive");
  _ ← guard_or (Bool.eqb (is_some (parent_agent_id i)) (is_some (parent_generation i)))
        (ValueError "parent identity requires an exact parent generation");
  _ ← match parent_generation i with
      | Some g =>
          _ ← counter g "parent_generation";
          guard_or (negb ((g =? 0)%Z || opt_is (parent_agent_id i) (agent_id i)))
            (ValueError "invalid parent identity")
      | None => Ok tt
      end;
  guard_or (negb (is_some (delegation_id i) && negb (is_some (parent_agent_id i))))
    (ValueError "delegation identity requires a parent").

Definition jint (z : option Z) : json := match z with Some z => JInt z | None => JNull end.
Definition SwarmIdentity_as_dict (i : SwarmIdentity) : json :=
  JObj [("tenant_id", JStr (tenant_id i)); ("swarm_id", JStr (swarm_id i));
        ("agent_id", JStr (agent_id i)); ("runtime_id", JStr (runtime_id i));
        ("session_id", JStr (session_id i)); ("generation", JInt (generation i));
        ("policy_epoch", JInt (policy_epoch i)); ("parent_agent_id", jstr (parent_agent_id i));
        ("parent_generation", jint (parent_generation i)); ("task_id", jstr (task_id i));
        ("delegation_id", jstr (delegation_id i))].

Record CoverageEntry := {
  capability : string;
  route : string;
  ce_resource : string;
  boundary_id : string;
  ce_state : string }.

Definition COVERAGE_STATES : list string :=
  ["observe_only"; "mediated"; "physically_enforced"; "unsupported"; "coverage_gap"].
Definition COVERAGE_MODES : list string := ["observe"; "intercept"; "enforce"; "uncovered"].

Definition no_control_char (c : ascii) : bool :=
  negb (in_range 0 31 c || in_range 127 127 c).
Definition CoverageEntry_post_init (e : CoverageEntry) : res unit :=
  _ ← identifier (capability e) "capability";
  _ ← identifier (route e) "route";
  _ ← identifier (boundary_id e) "boundary_id";
  _ ← guard_or (truthy (ce_resource e) && (String.length (ce_resource e) <=? 512)
                && str_forall no_control_char (ce_resource e))
        (ValueError "resource must be bounded, explicit and free of control characters");
  guard_or (mem (ce_state e) COVERAGE_STATES) (ValueError "unknown capability coverage state").

Definition CoverageEntry_as_dict (e : CoverageEntry) : json :=
  JObj [("capability", JStr (capability e)); ("route", JStr (route e));
        ("resource", JStr (ce_resource e)); ("boundary_id", JStr (boundary_id e));
        ("state", JStr (ce_state e))].

#[export] Instance CoverageEntry_eq_dec : EqDecision CoverageEntry.
Proof. solve_decision. Defined.

Record CoverageManifest := { mode : string; entries : list CoverageEntry }.
(** [CoverageManifest()]. *)
Definition uncovered : CoverageManifest := {| mode := "uncovered"; entries := [] |}.

Definition coverage_key (e : CoverageEntry) : string * string * string :=
  (capability e, route e, ce_resource e).
Fixpoint check_entries (mode : string) (seen : list (string * string * string))
    (entries : list CoverageEntry) : res unit :=
  match entries with
  | [] => Ok tt
  | e :: entries' =>
      _ ← CoverageEntry_post_init e;
      _ ← guard_or (negb (bool_decide (coverage_key e ∈ seen)))
            (ValueError "duplicate capability coverage");
      _ ← guard_or (negb ((mode =s "uncovered")
                          && negb (mem (ce_state e) ["unsupported"; "coverage_gap"])))
            (ValueError "uncovered enrollment cannot claim mediation");
      _ ← guard_or (negb ((mode =s "observe")
                          && mem (ce_state e) ["mediated"; "physically_enforced"]))
            (ValueError "observation cannot claim interception");
      _ ← guard_or (negb ((mode =s "intercept") && (ce_state e =s "physically_enforced")))
            (ValueError "interception cannot claim physical enforcement");
      check_entries mode (coverage_key e :: seen) entries'
  end.
Definition CoverageManifest_post_init (m : CoverageManifest) : res unit :=
  _ ← guard_or (mem (mode m) COVERAGE_MODES && (length (entries m) <=? 64))
        (ValueError "invalid or oversized coverage manifest");
  check_entries (mode m) [] (entries m).

Definition CoverageManifest_as_dict (m : CoverageManifest) : json :=
  JObj [("mode", JStr (mode m)); ("entries", JArr (map CoverageEntry_as_dict (entries m)))].

Record SwarmContext := {
  registry_id : string;
  identity : SwarmIdentity;
  coverage : CoverageManifest;
  enrolled_at : Z }.

Definition SwarmContext_as_dict (c : SwarmContext) : json :=
  JObj [("schema_version", JStr "ordin.swarm_context.v1"); ("registry_id", JStr (registry_id c));
        ("identity", SwarmIdentity_as_dict (identity c));
        ("coverage", CoverageManifest_as_dict (coverage c));
        ("enrolled_at", JFloat (inject_Z (enrolled_at c)))].

#[export] Instance SwarmIdentity_eq_dec : EqDecision SwarmIdentity.
Proof. solve_decision. Defined.
#[export] Instance CoverageManifest_eq_dec : EqDecision CoverageManifest.
Proof. solve_decision. Defined.
#[export] Instance SwarmContext_eq_dec : EqDecision SwarmContext.
Proof. solve_decision. Defined.

(** [json.dumps] with sorted keys and no spaces, encoded as UTF-8, is a
    parameter; so are the hashes that read its result. *)
Section encoding.
Context (dumps : json → string).

Definition _validated_bytes (c : SwarmContext) : res string :=
  _ ← identifier (registry_id c) "registry_id";
  _ ← SwarmIdentity_post_init (identity c);
  _ ← CoverageManifest_post_init (coverage c);
  _ ← timestamp (enrolled_at c);
  let raw := dumps (SwarmContext_as_dict c) in
  _ ← guard_or (Z.of_nat (String.length raw) <=? 65536)%Z
        (ValueError "swarm context exceeds the 64 KiB encoded limit");
  Ok raw.
End encoding.

(** ** What the checks mean *)

(** An identity that passes its checks. *)
Record valid_identity (i : SwarmIdentity) : Prop := {
  identity_generation : (0 < generation i < 2 ^ 63)%Z;
  identity_epoch : (0 <= policy_epoch i < 2 ^ 63)%Z;
  identity_parent : is_some (parent_agent_id i) = is_some (parent_generation i);
  identity_not_own_parent : parent_agent_id i ≠ Some (agent_id i);
  identity_delegation : is_some (delegation_id i) = true → is_some (parent_agent_id i) = true }.

Lemma counter_ok z name u : counter z name = Ok u → (0 <= z < 2 ^ 63)%Z.
Proof. unfold counter. intros H. inv_res. split_bools. lia. Qed.

Lemma SwarmIdentity_valid i u : SwarmIdentity_post_init i = Ok u → valid_identity i.
Proof.
  unfold SwarmIdentity_post_init. intros H. inv_res.
  repeat match goal with H : counter _ _ = Ok _ |- _ => apply counter_ok in H end.
  split_bools. match goal with H : Bool.eqb _ _ = true |- _ => apply eqb_prop in H as Hp end.
  split.
  - match goal with H : (_ =? 0)%Z = false |- _ => apply Z.eqb_neq in H end. lia.
  - done.
  - done.
  - intros E. destruct (parent_generation i); [|by rewrite E in Hp].
    inv_res. split_bools. rewrite E in *. cbn in *. by rewrite String.eqb_refl in *.
  - intros E. rewrite E in *. cbn in *. by destruct (is_some (parent_agent_id i)).
Qed.

Lemma validated_bytes_ok dumps c raw :
  _validated_bytes dumps c = Ok raw →
  raw = dumps (SwarmContext_as_dict c) ∧ valid_identity (identity c).
Proof.
  unfold _validated_bytes. intros H. cbv zeta in H. inv_res.
  split; [done|]. by eapply SwarmIdentity_valid.
Qed.
