(* ===== verification/Registry.v ===== *)
(** * The agent registry ([ordin/swarm/registry.py])

    Enrollment of agents with host channels, as a state machine.  Objects that
    the code compares with [is] (channels, adapters, contexts) carry a
    reference, and new ones get a fresh reference; channels and contexts are
    frozen, so a reference goes with its contents.  An operation returns the new
    registry also when it raises: the clock reading it took is kept. *)
From stdpp Require Import base list strings gmap.
From Stdlib Require Import Bool Ascii ZArith Lia.
From S2P Require Import Prelude PyStr Json SwarmModels.
#[local] Open Scope py_scope.
#[local] Open Scope Z_scope.

(** References of objects. *)
Definition ref : Type := positive.
#[export] Instance ref_eq_dec : EqDecision ref := _ : EqDecision positive.
#[export] Instance ref_countable : Countable ref := _ : Countable positive.

(** What a caller passes as an adapter: an object, or a plain value (a text, a
    number, a collection, [None]). *)
Inductive adapter := Instance (r : ref) | PlainValue.
#[export] Instance adapter_eq_dec : EqDecision adapter.
Proof. solve_decision. Defined.

Record HostChannel := {
  ch_ref : ref;
  ch_tenant_id : string;
  ch_swarm_id : string;
  ch_runtime_id : string }.

(** A context object: its reference and its immutable contents. *)
Record ContextObj := { ctx_ref : ref; ctx : SwarmContext }.

#[export] Instance HostChannel_eq_dec : EqDecision HostChannel.
Proof. solve_decision. Defined.
#[export] Instance ContextObj_eq_dec : EqDecision ContextObj.
Proof. solve_decision. Defined.

Record _Agent := {
  ag_context : ContextObj;
  ag_channel : HostChannel;
  ag_digest : string;
  last_heartbeat : Z;
  phase : string }.

Record Registry := {
  _tenant : string;
  _swarm : string;
  _registry_id : string;
  _policy_epoch : Z;
  _max_agents : nat;
  _max_channels : nat;
  _max_parent_depth : nat;
  _timeout : Z;
  _last_clock : Z;
  _generation : Z;
  _channels : gmap ref (adapter * string);
  _agents : gmap string _Agent;
  fresh_ref : ref }.

(** Updates of the members that operations assign. *)
Definition set_last_clock (r : Registry) (v : Z) : Registry :=
  {| _tenant := _tenant r; _swarm := _swarm r; _registry_id := _registry_id r;
     _policy_epoch := _policy_epoch r; _max_agents := _max_agents r;
     _max_channels := _max_channels r; _max_parent_depth := _max_parent_depth r;
     _timeout := _timeout r; _last_clock := v; _generation := _generation r;
     _channels := _channels r; _agents := _agents r; fresh_ref := fresh_ref r |}.
Definition set_epoch (r : Registry) (v : Z) : Registry :=
  {| _tenant := _tenant r; _swarm := _swarm r; _registry_id := _registry_id r;
     _policy_epoch := v; _max_agents := _max_agents r;
     _max_channels := _max_channels r; _max_parent_depth := _max_parent_depth r;
     _timeout := _timeout r; _last_clock := _last_clock r; _generation := _generation r;
     _channels := _channels r; _agents := _agents r; fresh_ref := fresh_ref r |}.
Definition set_agents (r : Registry) (v : gmap string _Agent) : Registry :=
  {| _tenant := _tenant r; _swarm := _swarm r; _registry_id := _registry_id r;
     _policy_epoch := _policy_epoch r; _max_agents := _max_agents r;
     _max_channels := _max_channels r; _max_parent_depth := _max_parent_depth r;
     _timeout := _timeout r; _last_clock := _last_clock r; _generation := _generation r;
     _channels := _channels r; _agents := v; fresh_ref := fresh_ref r |}.
Definition set_channels (r : Registry) (v : gmap ref (adapter * string)) : Registry :=
  {| _tenant := _tenant r; _swarm := _swarm r; _registry_id := _registry_id r;
     _policy_epoch := _policy_epoch r; _max_agents := _max_agents r;
     _max_channels := _max_channels r; _max_parent_depth := _max_parent_depth r;
     _timeout := _timeout r; _last_clock := _last_clock r; _generation := _generation r;
     _channels := v; _agents := _agents r; fresh_ref := fresh_ref r |}.
(** A new object and, for a context, the new generation. *)
Definition allocate (r : Registry) : Registry :=
  {| _tenant := _tenant r; _swarm := _swarm r; _registry_id := _registry_id r;
     _policy_epoch := _policy_epoch r; _max_agents := _max_agents r;
     _max_channels := _max_channels r; _max_parent_depth := _max_parent_depth r;
     _timeout := _timeout r; _last_clock := _last_clock r; _generation := _generation r;
     _channels := _channels r; _agents := _agents r; fresh_ref := Pos.succ (fresh_ref r) |}.
Definition set_generation (r : Registry) (v : Z) : Registry :=
  {| _tenant := _tenant r; _swarm := _swarm r; _registry_id := _registry_id r;
     _policy_epoch := _policy_epoch r; _max_agents := _max_agents r;
     _max_channels := _max_channels r; _max_parent_depth := _max_parent_depth r;
     _timeout := _timeout r; _last_clock := _last_clock r; _generation := v;
     _channels := _channels r; _agents := _agents r; fresh_ref := fresh_ref r |}.

(** ** The monad of registry operations *)

Definition M (A : Type) : Type := Registry → Registry * res A.
#[export] Instance M_ret : MRet M := λ A x r, (r, Ok x).
#[export] Instance M_bind : MBind M := λ A B f m r,
  match m r with
  | (r', Ok x) => f x r'
  | (r', Err e) => (r', Err e)
  end.
(** A computation that only reads the registry. *)
Definition reads {A} (f : Registry → res A) : M A := λ r, (r, f r).
Definition lift {A} (x : res A) : M A := λ r, (r, x).
Definition modify (f : Registry → Registry) : M unit := λ r, (f r, Ok tt).
Definition require (c : bool) (message : string) : M unit :=
  lift (guard_or c (ValueError message)).

Definition demand (c : Registry → bool) (message : string) : M unit :=
  λ r, require (c r) message r.
Definition step {A} (f : Registry → Registry * A) : M A :=
  λ r, let (r', x) := f r in (r', Ok x).

(** [InMemoryAgentRegistry(...)]; [registry_id] is the one given or the new
    [uuid4().hex]. *)
Definition mk_Registry (tenant_id swarm_id registry_id : string) (policy_epoch : Z)
    (max_agents max_channels max_parent_depth : nat) (heartbeat_timeout : Z) : res Registry :=
  _ ← identifier tenant_id "tenant_id";
  _ ← identifier swarm_id "swarm_id";
  _ ← identifier registry_id "registry_id";
  _ ← counter policy_epoch "policy_epoch";
  _ ← guard_or ((1 <=? max_agents) && (max_agents <=? 4096))%nat (ValueError "invalid max_agents");
  _ ← guard_or ((1 <=? max_channels) && (max_channels <=? 4096))%nat
        (ValueError "invalid max_channels");
  _ ← guard_or ((1 <=? max_parent_depth) && (max_parent_depth <=? 32))%nat
        (ValueError "invalid max_parent_depth");
  t ← timestamp heartbeat_timeout;
  _ ← guard_or ((0 <? t) && (t <=? 3600)) (ValueError "invalid heartbeat configuration");
  Ok {| _tenant := tenant_id; _swarm := swarm_id; _registry_id := registry_id;
        _policy_epoch := policy_epoch; _max_agents := max_agents; _max_channels := max_channels;
        _max_parent_depth := max_parent_depth; _timeout := t; _last_clock := 0;
        _generation := 0; _channels := ∅; _agents := ∅; fresh_ref := 1%positive |}.

Section registry.
Context (dumps : json → string) (sha256 : string → string).

Definition _digest (c : SwarmContext) : res string :=
  raw ← _validated_bytes dumps c; Ok (sha256 raw).

(** [_now()] at a reading of the clock. *)
Definition _now (clock : Z) : M Z :=
  now ← lift (timestamp clock);
  _ ← demand (λ r, negb (now <? _last_clock r)) "host clock moved backwards";
  _ ← modify (λ r, set_last_clock r now);
  mret now.

Definition _channel (channel : HostChannel) (a : adapter) (r : Registry) : res string :=
  let message := "unknown, changed or cross-scope host channel" in
  match _channels r !! ch_ref channel with
  | None => Err (ValueError message)
  | Some (bound, runtime) =>
      _ ← guard_or (bool_decide (bound = a)
                    && bool_decide ((ch_tenant_id channel, ch_swarm_id channel, ch_runtime_id channel)
                                    = (_tenant r, _swarm r, runtime)))
            (ValueError message);
      Ok runtime
  end.

Definition bind_channel (a : adapter) (runtime_id : string) : M HostChannel :=
  _ ← lift (identifier runtime_id "runtime_id");
  _ ← require (negb (bool_decide (a = PlainValue)))
        "adapter must be a protected instance, not serialized identity";
  _ ← demand (λ r, Nat.ltb (size (_channels r)) (_max_channels r)) "host channel limit reached";
  step (λ r,
       let channel := {| ch_ref := fresh_ref r; ch_tenant_id := _tenant r;
                         ch_swarm_id := _swarm r; ch_runtime_id := runtime_id |} in
       (allocate (set_channels r (<[fresh_ref r := (a, runtime_id)]> (_channels r))), channel)).

Definition _phase (record : _Agent) (now : Z) (r : Registry) : string :=
  if (phase record =s "active") && (_timeout r <=? now - last_heartbeat record)
  then "stale" else phase record.

Definition parent_message : string := "missing, stale or changed parent identity".
(** One step of [_parents]: the live parent that [current] names. *)
Definition live_parent (r : Registry) (now : Z) (seen : list string) (parent_id : string)
    (current : SwarmIdentity) : res SwarmIdentity :=
  match _agents r !! parent_id with
  | None => Err (ValueError parent_message)
  | Some parent =>
      match _channels r !! ch_ref (ag_channel parent) with
      | None => Err (ValueError parent_message)
      | Some (bound, _) =>
          let found := identity (ctx (ag_context parent)) in
          _ ← guard_or (negb (mem parent_id seen) && (_phase parent now r =s "active")
                        && bool_decide (Some (generation found) = parent_generation current)
                        && (policy_epoch found =? _policy_epoch r))
                (ValueError parent_message);
          d ← _digest (ctx (ag_context parent));
          _ ← guard_or (d =s ag_digest parent) (ValueError parent_message);
          _ ← _channel (ag_channel parent) bound r;
          Ok found
      end
  end.
Fixpoint parents_loop (r : Registry) (now : Z) (depth : nat) (seen : list string)
    (current : SwarmIdentity) : res unit :=
  match parent_agent_id current with
  | None => Ok tt
  | Some parent_id =>
      match depth with
      | O => Err (ValueError "parent depth limit reached")
      | S depth' =>
          parent ← live_parent r now seen parent_id current;
          parents_loop r now depth' (parent_id :: seen) parent
      end
  end.
Definition _parents (i : SwarmIdentity) (now : Z) (r : Registry) : res unit :=
  parents_loop r now (_max_parent_depth r) [agent_id i] i.

Definition new_identity (r : Registry) (runtime agent_id session_id : string)
    (task_id parent_agent_id delegation_id : option string) : SwarmIdentity :=
  {| tenant_id := _tenant r; swarm_id := _swarm r; agent_id := agent_id; runtime_id := runtime;
     session_id := session_id; generation := _generation r + 1;
     policy_epoch := _policy_epoch r; parent_agent_id := parent_agent_id;
     parent_generation :=
       match parent_agent_id with
       | Some p => (λ a, generation (identity (ctx (ag_context a)))) <$> _agents r !! p
       | None => None
       end;
     task_id := task_id; delegation_id := delegation_id |}.

(** The checks of [_issue], which all come before its assignments. *)
Definition issue_checks (channel : HostChannel) (runtime agent_id session_id : string)
    (task_id parent_agent_id delegation_id : option string) (coverage : CoverageManifest)
    (now : Z) (r : Registry) : res (SwarmContext * string) :=
  _ ← CoverageManifest_post_init coverage;
  _ ← guard_or (negb (existsb (λ e, ce_state e =s "physically_enforced") (entries coverage)))
        (ValueError "enrollment alone cannot attest physical enforcement; broker receipt required");
  _ ← opt_identifier parent_agent_id "parent_agent_id";
  _ ← counter (_generation r + 1) "generation";
  let i := new_identity r runtime agent_id session_id task_id parent_agent_id delegation_id in
  _ ← SwarmIdentity_post_init i;
  _ ← _parents i now r;
  let context := {| registry_id := _registry_id r; identity := i; coverage := coverage;
                    enrolled_at := now |} in
  _ ← _validated_bytes dumps context;
  d ← _digest context;
  Ok (context, d).

Definition _issue (channel : HostChannel) (runtime agent_id session_id : string)
    (task_id parent_agent_id delegation_id : option string) (coverage : CoverageManifest)
    (now : Z) : M ContextObj :=
  '(context, d) ← reads (issue_checks channel runtime agent_id session_id task_id
                           parent_agent_id delegation_id coverage now);
  step (λ r,
       let obj := {| ctx_ref := fresh_ref r; ctx := context |} in
       let record := {| ag_context := obj; ag_channel := channel; ag_digest := d;
                        last_heartbeat := now; phase := "active" |} in
       (allocate (set_agents (set_generation r (generation (identity context)))
                    (<[agent_id := record]> (_agents r))), obj)).

Definition enroll (clock : Z) (channel : HostChannel) (a : adapter) (agent_id session_id : string)
    (task_id parent_agent_id delegation_id : option string) (coverage : CoverageManifest)
  : M ContextObj :=
  runtime ← reads (_channel channel a);
  now ← _now clock;
  _ ← lift (identifier agent_id "agent_id");
  _ ← demand (λ r, negb (is_some (_agents r !! agent_id)))
         "duplicate principal; use explicit restart";
  _ ← demand (λ r, Nat.ltb (size (_agents r)) (_max_agents r)) "principal limit reached";
  _issue channel runtime agent_id session_id task_id parent_agent_id delegation_id coverage now.

Definition _record (context : ContextObj) (channel : HostChannel) (a : adapter) (r : Registry)
  : res _Agent :=
  let message := "unknown, serialized, replaced or cross-channel principal" in
  _ ← _channel channel a r;
  match _agents r !! agent_id (identity (ctx context)) with
  | None => Err (ValueError message)
  | Some record =>
      _ ← guard_or (bool_decide (ag_context record = context)
                    && bool_decide (ag_channel record = channel))
            (ValueError message);
      d ← _digest (ctx context);
      _ ← guard_or (d =s ag_digest record) (ValueError "principal context was changed");
      Ok record
  end.

Definition _live (context : ContextObj) (channel : HostChannel) (a : adapter) (now : Z)
    (r : Registry) : res _Agent :=
  record ← _record context channel a r;
  _ ← guard_or ((_phase record now r =s "active")
                && (policy_epoch (identity (ctx context)) =? _policy_epoch r))
        (ValueError "principal is paused, ended, expired or from a stale policy epoch");
  _ ← _parents (identity (ctx context)) now r;
  Ok record.

Definition authenticate (clock : Z) (context : ContextObj) (channel : HostChannel) (a : adapter)
  : M ContextObj :=
  now ← _now clock;
  _ ← reads (_live context channel a now);
  mret context.

(** Assignment to a member of an agent's record. *)
Definition update_agent (name : string) (f : _Agent → _Agent) : M unit :=
  modify (λ r, set_agents r (alter f name (_agents r))).
Definition set_heartbeat (now : Z) (g : _Agent) : _Agent :=
  {| ag_context := ag_context g; ag_channel := ag_channel g; ag_digest := ag_digest g;
     last_heartbeat := now; phase := phase g |}.
Definition set_phase (p : string) (g : _Agent) : _Agent :=
  {| ag_context := ag_context g; ag_channel := ag_channel g; ag_digest := ag_digest g;
     last_heartbeat := last_heartbeat g; phase := p |}.

Definition heartbeat (clock : Z) (context : ContextObj) (channel : HostChannel) (a : adapter)
  : M unit :=
  now ← _now clock;
  _ ← reads (_live context channel a now);
  update_agent (agent_id (identity (ctx context))) (set_heartbeat now).

Definition state (clock : Z) (context : ContextObj) (channel : HostChannel) (a : adapter)
  : M string :=
  record ← reads (_record context channel a);
  now ← _now clock;
  reads (λ r,
    let phase := _phase record now r in
    if negb (phase =s "active") then Ok phase
    else if negb (policy_epoch (identity (ctx context)) =? _policy_epoch r) then Ok "stale"
    else match _parents (identity (ctx context)) now r with
         | Ok _ => Ok phase
         | Err (ValueError _) => Ok "stale"
         | Err e => Err e
         end).

Definition pause (clock : Z) (context : ContextObj) (channel : HostChannel) (a : adapter)
  : M unit :=
  now ← _now clock;
  _ ← reads (_live context channel a now);
  update_agent (agent_id (identity (ctx context))) (set_phase "paused").

Definition end_ (context : ContextObj) (channel : HostChannel) (a : adapter) : M unit :=
  _ ← reads (_record context channel a);
  update_agent (agent_id (identity (ctx context))) (set_phase "ended").

Definition restart (clock : Z) (context : ContextObj) (channel : HostChannel) (a : adapter)
    (new_channel : HostChannel) (new_adapter : adapter) (session : string)
    (coverage : CoverageManifest) : M ContextObj :=
  _ ← reads (_record context channel a);
  runtime ← reads (_channel new_channel new_adapter);
  let i := identity (ctx context) in
  _ ← require (negb (session =s session_id i)) "restart requires a new session identity";
  now ← _now clock;
  _issue new_channel runtime (agent_id i) session (task_id i) (parent_agent_id i)
    (delegation_id i) coverage now.

Definition advance_policy_epoch (epoch : Z) : M unit :=
  _ ← lift (counter epoch "policy_epoch");
  _ ← demand (λ r, negb (epoch <=? _policy_epoch r)) "policy epoch must increase monotonically";
  modify (λ r, set_epoch r epoch).

Definition refresh_policy_context (clock : Z) (context : ContextObj) (channel : HostChannel)
    (a : adapter) (coverage : CoverageManifest) : M ContextObj :=
  record ← reads (_record context channel a);
  now ← _now clock;
  let i := identity (ctx context) in
  _ ← demand (λ r, (_phase record now r =s "active") && negb (_policy_epoch r <=? policy_epoch i))
         "only a live stale-policy context can be refreshed";
  runtime ← reads (_channel channel a);
  _issue channel runtime (agent_id i) (session_id i) (task_id i) (parent_agent_id i)
    (delegation_id i) coverage now.

(** What [rebind_delegation] reads of the grant and of the child's source; the
    result of [verify_current_delegation_relationship] is a parameter. *)
Record Grant := { grant_id : string; child_principal : string; parent_principal : string }.

Definition rebind_delegation (clock : Z) (context : ContextObj) (channel : HostChannel)
    (a : adapter) (parent_context : ContextObj) (parent_channel : HostChannel)
    (parent_adapter : adapter) (verified : res unit) (grant : Grant) (child_source_epoch : Z)
  : M ContextObj :=
  _ ← lift verified;
  now ← _now clock;
  child ← reads (_record context channel a);
  parent ← reads (_live parent_context parent_channel parent_adapter now);
  let i := identity (ctx context) in
  let p := identity (ctx parent_context) in
  _ ← demand (λ r,
         ((_phase child now r =s "active") && (policy_epoch i =? _policy_epoch r)
          && (agent_id i =s child_principal grant)
          && (agent_id (identity (ctx (ag_context parent))) =s parent_principal grant)
          && (child_source_epoch =? policy_epoch i)
          && bool_decide ((tenant_id i, swarm_id i, task_id i)
                          = (tenant_id p, swarm_id p, task_id p))))
         "delegation rebind differs from live parent/child workload scope";
  if opt_is (delegation_id i) (grant_id grant) && opt_is (parent_agent_id i) (agent_id p)
     && bool_decide (parent_generation i = Some (generation p))
  then mret context
  else runtime ← reads (_channel channel a);
       _issue channel runtime (agent_id i) (session_id i) (task_id i) (Some (agent_id p))
         (Some (grant_id grant)) (coverage (ctx context)) now.

Definition forget_ended (context : ContextObj) (channel : HostChannel) (a : adapter) : M unit :=
  record ← reads (_record context channel a);
  _ ← require (phase record =s "ended") "only ended principals can be forgotten";
  modify (λ r, set_agents r (delete (agent_id (identity (ctx context))) (_agents r))).

Definition close_channel (channel : HostChannel) (a : adapter) : M unit :=
  _ ← reads (_channel channel a);
  modify (λ r, set_channels
                 (set_agents r (filter (λ kv, ag_channel kv.2 ≠ channel)
                                  (_agents r)))
                 (delete (ch_ref channel) (_channels r))).

(** ** The registry as a transition system *)

(** One call of a public operation, with what the caller passes; an operation
    that raises also steps. *)
Inductive call :=
| BindChannel (a : adapter) (runtime_id : string)
| Enroll (clock : Z) (channel : HostChannel) (a : adapter) (agent session : string)
    (task parent delegation : option string) (coverage : CoverageManifest)
| Authenticate (clock : Z) (context : ContextObj) (channel : HostChannel) (a : adapter)
| Heartbeat (clock : Z) (context : ContextObj) (channel : HostChannel) (a : adapter)
| State (clock : Z) (context : ContextObj) (channel : HostChannel) (a : adapter)
| Pause (clock : Z) (context : ContextObj) (channel : HostChannel) (a : adapter)
| End (context : ContextObj) (channel : HostChannel) (a : adapter)
| Restart (clock : Z) (context : ContextObj) (channel : HostChannel) (a : adapter)
    (new_channel : HostChannel) (new_adapter : adapter) (session : string)
    (coverage : CoverageManifest)
| AdvanceEpoch (epoch : Z)
| Refresh (clock : Z) (context : ContextObj) (channel : HostChannel) (a : adapter)
    (coverage : CoverageManifest)
| Rebind (clock : Z) (context : ContextObj) (channel : HostChannel) (a : adapter)
    (parent_context : ContextObj) (parent_channel : HostChannel) (parent_adapter : adapter)
    (verified : res unit) (grant : Grant) (child_source_epoch : Z)
| ForgetEnded (context : ContextObj) (channel : HostChannel) (a : adapter)
| CloseChannel (channel : HostChannel) (a : adapter).

Definition perform (c : call) (r : Registry) : Registry :=
  match c with
  | BindChannel a runtime => fst (bind_channel a runtime r)
  | Enroll t ch a ag s task p d cov => fst (enroll t ch a ag s task p d cov r)
  | Authenticate t c ch a => fst (authenticate t c ch a r)
  | Heartbeat t c ch a => fst (heartbeat t c ch a r)
  | State t c ch a => fst (state t c ch a r)
  | Pause t c ch a => fst (pause t c ch a r)
  | End c ch a => fst (end_ c ch a r)
  | Restart t c ch a nch na s cov => fst (restart t c ch a nch na s cov r)
  | AdvanceEpoch e => fst (advance_policy_epoch e r)
  | Refresh t c ch a cov => fst (refresh_policy_context t c ch a cov r)
  | Rebind t c ch a pc pch pa v g e => fst (rebind_delegation t c ch a pc pch pa v g e r)
  | ForgetEnded c ch a => fst (forget_ended c ch a r)
  | CloseChannel ch a => fst (close_channel ch a r)
  end.

Definition run (calls : list call) (r : Registry) : Registry :=
  foldl (λ r c, perform c r) r calls.
End registry.
