(* ===== verification/RegistryFacts.v ===== *)
(** * Theorems about the agent registry ([ordin/swarm/registry.py])

    Every operation is a sequence of basic transitions; the invariant and the
    finality of revocation are shown by induction on these. *)
From stdpp Require Import base list strings gmap relations.
From Stdlib Require Import Bool Ascii ZArith Lia.
From S2P Require Import Prelude PyStr Json SwarmModels Registry.
#[local] Open Scope py_scope.
#[local] Open Scope Z_scope.

Section facts.
Context (dumps : json → string) (sha256 : string → string).
#[local] Abbreviation issue_checks := (issue_checks dumps sha256).
#[local] Abbreviation _live := (_live dumps sha256).
#[local] Abbreviation _record := (_record dumps sha256).
#[local] Abbreviation perform := (perform dumps sha256).
#[local] Abbreviation run := (run dumps sha256).
#[local] Abbreviation authenticate := (authenticate dumps sha256).

(** ** Basic transitions *)

(** The registry after [_issue]. *)
Definition issued (r : Registry) (name : string) (channel : HostChannel) (c : SwarmContext)
    (d : string) (now : Z) : Registry :=
  allocate (set_agents (set_generation r (generation (identity c)))
    (<[name := {| ag_context := {| ctx_ref := fresh_ref r; ctx := c |}; ag_channel := channel;
                  ag_digest := d; last_heartbeat := now; phase := "active" |}]> (_agents r))).

Inductive basic (r : Registry) : Registry → Prop :=
| basic_clock v : _last_clock r ≤ v → basic r (set_last_clock r v)
| basic_bind a runtime :
    (size (_channels r) < _max_channels r)%nat →
    basic r (allocate (set_channels r (<[fresh_ref r := (Instance a, runtime)]> (_channels r))))
| basic_issue channel a runtime name session task parent delegation cov now c d :
    _channel channel a r = Ok runtime →
    issue_checks channel runtime name session task parent delegation cov now r = Ok (c, d) →
    is_Some (_agents r !! name) ∨ (size (_agents r) < _max_agents r)%nat →
    basic r (issued r name channel c d now)
| basic_heartbeat name now :
    (∀ a, _agents r !! name = Some a → phase a = "active") →
    basic r (set_agents r (alter (set_heartbeat now) name (_agents r)))
| basic_phase name p :
    p = "paused" ∨ p = "ended" →
    basic r (set_agents r (alter (set_phase p) name (_agents r)))
| basic_epoch e : _policy_epoch r < e < 2 ^ 63 → basic r (set_epoch r e)
| basic_forget name : basic r (set_agents r (delete name (_agents r)))
| basic_close channel a runtime :
    _channel channel a r = Ok runtime →
    basic r (set_channels (set_agents r (filter (λ kv, ag_channel kv.2 ≠ channel) (_agents r)))
               (delete (ch_ref channel) (_channels r))).

(** [m] makes basic transitions from registries with [P], and returns with [Q]. *)
Definition does {A} (P : Registry → Prop) (m : M A) (Q : A → Registry → Prop) : Prop :=
  ∀ r, P r → rtc basic r (fst (m r)) ∧ ∀ x, snd (m r) = Ok x → Q x (fst (m r)).

Lemma does_bind {A B} P (m : M A) Q (f : A → M B) (R : B → Registry → Prop) :
  does P m Q → (∀ x, does (Q x) (f x) R) → does P (m ≫= f) R.
Proof.
  intros Hm Hf r Hr. destruct (Hm r Hr) as [Hs Hq]. cbv [mbind M_bind].
  destruct (m r) as [r' [x|e]]; cbn in *; [|done].
  destruct (Hf x r' (Hq x eq_refl)) as [Hs' Hr']. split; [by etrans|done].
Qed.

Lemma does_reads {A} P (f : Registry → res A) :
  does P (reads f) (λ x r, P r ∧ f r = Ok x).
Proof. intros r Hr. split; [done|]. cbn. intros x Hx. by split. Qed.

Lemma does_lift {A} P (x : res A) : does P (lift x) (λ y r, P r ∧ x = Ok y).
Proof. intros r Hr. split; [done|]. cbn. by split. Qed.

Lemma does_demand P c message : does P (demand c message) (λ _ r, P r ∧ c r = true).
Proof.
  intros r Hr. split; [done|]. cbn. intros x Hx. split; [done|]. by apply guard_or_ok in Hx.
Qed.

Lemma does_require P c message : does P (require c message) (λ _ r, P r ∧ c = true).
Proof. apply (does_demand P (λ _, c)). Qed.

Lemma does_ret {A} P (x : A) : does P (mret x) (λ _ r, P r).
Proof. intros r Hr. by split. Qed.

Lemma does_weaken {A} (P P' : Registry → Prop) (m : M A) Q :
  (∀ r, P r → P' r) → does P' m Q → does P m Q.
Proof. intros H Hm r Hr. apply Hm. auto. Qed.

Lemma does_post {A} P (m : M A) (Q Q' : A → Registry → Prop) :
  does P m Q → (∀ x r, Q x r → Q' x r) → does P m Q'.
Proof. intros Hm H r Hr. destruct (Hm r Hr) as [? HQ]. split; [done|]. intros. by apply H, HQ. Qed.

(** A property that the clock does not touch. *)
Definition clockless (P : Registry → Prop) : Prop := ∀ r v, P r → P (set_last_clock r v).

Lemma does_now P clock : clockless P → does P (_now clock) (λ _ r, P r).
Proof.
  intros HP r Hr. unfold _now, lift, demand, require, modify. cbv [mbind M_bind mret M_ret].
  destruct (timestamp clock) as [now|]; cbn; [|by split].
  destruct (negb (now <? _last_clock r)) eqn:E; cbn; [|by split].
  apply negb_true_iff, Z.ltb_ge in E. split; [by apply rtc_once, basic_clock|].
  intros x _. by apply HP.
Qed.

Lemma does_modify P (f : Registry → Registry) :
  (∀ r, P r → basic r (f r)) → does P (modify f) (λ _ _, True).
Proof. intros H r Hr. split; [|done]. cbn. by apply rtc_once, H. Qed.

(** ** Every operation makes basic transitions *)

Lemma channel_clockless channel a runtime :
  clockless (λ r, _channel channel a r = Ok runtime).
Proof. by intros r v. Qed.

Definition room (name : string) (r : Registry) : Prop :=
  is_Some (_agents r !! name) ∨ (size (_agents r) < _max_agents r)%nat.

Lemma does_issue channel a runtime name session task parent delegation cov now :
  does (λ r, _channel channel a r = Ok runtime ∧ room name r)
    (_issue dumps sha256 channel runtime name session task parent delegation cov now)
    (λ _ _, True).
Proof.
  intros r [Hch Hroom]. unfold _issue, reads, step. cbv [mbind M_bind].
  destruct (Registry.issue_checks dumps sha256 channel runtime name session task parent
    delegation cov now r) as [[c d]|] eqn:E; cbn; [|done].
  split; [|done]. apply rtc_once. by eapply basic_issue.
Qed.

Lemma record_in context channel a r g :
  _record context channel a r = Ok g →
  _agents r !! agent_id (identity (ctx context)) = Some g ∧ ag_context g = context
  ∧ ag_channel g = channel ∧ is_ok (_channel channel a r) = true
  ∧ _digest dumps sha256 (ctx context) = Ok (ag_digest g).
Proof.
  unfold Registry._record. intros H. inv_res.
  destruct (_agents r !! agent_id (identity (ctx context))) as [g'|]; [|done].
  inv_res. split_bools.
  match goal with H : (_ =s _) = true |- _ => apply eqb_true in H as -> end.
  match goal with H : _channel channel a r = _ |- _ => rewrite H end. done.
Qed.

Lemma live_in context channel a now r g :
  _live context channel a now r = Ok g →
  _record context channel a r = Ok g ∧ _phase g now r = "active"
  ∧ policy_epoch (identity (ctx context)) = _policy_epoch r
  ∧ _parents dumps sha256 (identity (ctx context)) now r = Ok tt.
Proof.
  unfold Registry._live. intros H. inv_res. split_bools.
  match goal with H : (_ =s "active") = true |- _ => apply eqb_true in H end.
  match goal with H : (_ =? _)%Z = true |- _ => apply Z.eqb_eq in H end.
  repeat match goal with u : unit |- _ => destruct u end. done.
Qed.

Lemma phase_active g now r : _phase g now r = "active" → phase g = "active".
Proof. unfold _phase. by case_match. Qed.

(** The rules for the monad, applied from the left. *)
Ltac does_step :=
  match goal with
  | |- does _ (_now _ ≫= _) _ => eapply does_bind; [apply does_now; try by intros ? ?|intros]
  | |- does _ (reads _ ≫= _) _ => eapply does_bind; [apply does_reads|intros]
  | |- does _ (lift _ ≫= _) _ => eapply does_bind; [apply does_lift|intros]
  | |- does _ (demand _ _ ≫= _) _ => eapply does_bind; [apply does_demand|intros]
  | |- does _ (require _ _ ≫= _) _ => eapply does_bind; [apply does_require|intros]
  | |- does _ (_issue _ _ _ _ _ _ _ _ _ _ _) _ => eapply does_weaken; [|eapply does_issue]
  | |- does _ (reads _) _ => eapply does_post; [apply does_reads|done]
  | |- does _ (mret _) _ => eapply does_post; [apply does_ret|done]
  | |- does _ (update_agent _ _) _ => apply does_modify; intros r
  | |- does _ (modify _) _ => apply does_modify; intros r
  | |- does _ (if ?c then _ else _) _ => destruct c
  end.

Definition quiet {A} (m : M A) : Prop := does (λ _, True) m (λ _ _, True).

Lemma bind_channel_quiet a runtime : quiet (bind_channel a runtime).
Proof.
  unfold quiet, bind_channel. do 3 does_step. intros r [[[_ _] Ha] Hsize].
  split; [|done]. cbn. apply rtc_once.
  destruct a as [a|]; [|by rewrite bool_decide_eq_true_2 in Ha].
  apply basic_bind. by apply Nat.ltb_lt.
Qed.

Lemma is_some_false {A} (o : option A) : is_some o = false → o = None.
Proof. by destruct o. Qed.

Lemma enroll_quiet t ch a name s task p d cov :
  quiet (enroll dumps sha256 t ch a name s task p d cov).
Proof.
  unfold quiet, enroll. repeat does_step.
  intros r [[[[_ H1] _] H2] H3]. split; [exact H1|]. right. by apply Nat.ltb_lt.
Qed.

Lemma authenticate_quiet t c ch a : quiet (authenticate t c ch a).
Proof. unfold quiet, Registry.authenticate. repeat does_step. Qed.

Lemma heartbeat_quiet t c ch a : quiet (heartbeat dumps sha256 t c ch a).
Proof.
  unfold quiet, heartbeat. repeat does_step. intros [_ H]. apply basic_heartbeat.
  apply live_in in H as (Hr & Hp & _). apply record_in in Hr as (Hr & _).
  intros g Hg. rewrite Hg in Hr. injection Hr as ->. by eapply phase_active.
Qed.

Lemma state_quiet t c ch a : quiet (state dumps sha256 t c ch a).
Proof. unfold quiet, state. repeat does_step. Qed.

Lemma pause_quiet t c ch a : quiet (pause dumps sha256 t c ch a).
Proof. unfold quiet, pause. repeat does_step. intros _. apply basic_phase. auto. Qed.

Lemma end_quiet c ch a : quiet (end_ dumps sha256 c ch a).
Proof. unfold quiet, end_. repeat does_step. intros _. apply basic_phase. auto. Qed.

Lemma restart_quiet t c ch a nch na s cov : quiet (restart dumps sha256 t c ch a nch na s cov).
Proof.
  unfold quiet, restart. repeat does_step.
  intros r [[[_ H1] H2] _]. split; [exact H2|]. left. apply record_in in H1 as (H1 & _). eauto.
Qed.

Lemma advance_quiet e : quiet (advance_policy_epoch e).
Proof.
  unfold quiet, advance_policy_epoch. repeat does_step. intros [[_ H1] H2].
  apply counter_ok in H1. apply negb_true_iff, Z.leb_gt in H2. apply basic_epoch. lia.
Qed.

Lemma refresh_quiet t c ch a cov : quiet (refresh_policy_context dumps sha256 t c ch a cov).
Proof.
  unfold quiet, refresh_policy_context. repeat does_step.
  intros r [[[_ H1] _] H2]. split; [exact H2|]. left. apply record_in in H1 as (H1 & _). eauto.
Qed.

Lemma rebind_quiet t c ch a pc pch pa v g e :
  quiet (rebind_delegation dumps sha256 t c ch a pc pch pa v g e).
Proof.
  unfold quiet, rebind_delegation. repeat does_step.
  intros r [[[[_ H1] _] _] H2]. split; [exact H2|]. left. apply record_in in H1 as (H1 & _). eauto.
Qed.

Lemma forget_quiet c ch a : quiet (forget_ended dumps sha256 c ch a).
Proof. unfold quiet, forget_ended. repeat does_step. intros _. apply basic_forget. Qed.

Lemma close_quiet ch a : quiet (close_channel ch a).
Proof. unfold quiet, close_channel. repeat does_step. intros [_ H]. by eapply basic_close. Qed.

Lemma perform_basic c r : rtc basic r (perform c r).
Proof.
  destruct c; cbn [Registry.perform].
  - by apply bind_channel_quiet.
  - by apply enroll_quiet.
  - by apply authenticate_quiet.
  - by apply heartbeat_quiet.
  - by apply state_quiet.
  - by apply pause_quiet.
  - by apply end_quiet.
  - by apply restart_quiet.
  - by apply advance_quiet.
  - by apply refresh_quiet.
  - by apply rebind_quiet.
  - by apply forget_quiet.
  - by apply close_quiet.
Qed.

Lemma run_basic calls : ∀ r, rtc basic r (run calls r).
Proof.
  induction calls as [|c calls IH]; intros r; [done|]. cbn. etrans; [apply perform_basic|apply IH].
Qed.

(** ** The invariant *)

Definition channel_bound (r : Registry) (ch : HostChannel) : Prop :=
  ∃ a, _channels r !! ch_ref ch = Some (a, ch_runtime_id ch)
    ∧ ch_tenant_id ch = _tenant r ∧ ch_swarm_id ch = _swarm r.

Record agent_wf (r : Registry) (name : string) (g : _Agent) : Prop := {
  agent_named : agent_id (identity (ctx (ag_context g))) = name;
  agent_tenant : tenant_id (identity (ctx (ag_context g))) = _tenant r;
  agent_swarm : swarm_id (identity (ctx (ag_context g))) = _swarm r;
  agent_runtime : runtime_id (identity (ctx (ag_context g))) = ch_runtime_id (ag_channel g);
  agent_generation : 0 < generation (identity (ctx (ag_context g))) <= _generation r;
  agent_epoch : policy_epoch (identity (ctx (ag_context g))) <= _policy_epoch r;
  agent_ref : (ctx_ref (ag_context g) < fresh_ref r)%positive;
  agent_digest : _digest dumps sha256 (ctx (ag_context g)) = Ok (ag_digest g);
  agent_channel : channel_bound r (ag_channel g);
  agent_phase : phase g ∈ ["active"; "paused"; "ended"] }.

Record wf (r : Registry) : Prop := {
  wf_agents : ∀ name g, _agents r !! name = Some g → agent_wf r name g;
  wf_generations : ∀ n1 n2 g1 g2, _agents r !! n1 = Some g1 → _agents r !! n2 = Some g2 →
    generation (identity (ctx (ag_context g1))) = generation (identity (ctx (ag_context g2))) →
    n1 = n2;
  wf_refs : ∀ n1 n2 g1 g2, _agents r !! n1 = Some g1 → _agents r !! n2 = Some g2 →
    ctx_ref (ag_context g1) = ctx_ref (ag_context g2) → n1 = n2;
  wf_channels : ∀ k b, _channels r !! k = Some b → (k < fresh_ref r)%positive;
  wf_size : (size (_agents r) <= _max_agents r)%nat ∧ (size (_channels r) <= _max_channels r)%nat;
  wf_counters : 0 <= _generation r < 2 ^ 63 ∧ 0 <= _policy_epoch r < 2 ^ 63 }.

Lemma channel_ok_bound channel a r runtime :
  _channel channel a r = Ok runtime → channel_bound r channel ∧ runtime = ch_runtime_id channel.
Proof.
  unfold _channel, channel_bound. intros H.
  destruct (_channels r !! ch_ref channel) as [[b rt]|] eqn:E; [|done]. inv_res. split_bools.
  subst. match goal with H : (_, _, _) = _ |- _ => injection H as H1 H2 H3 end.
  split; [exists a; by rewrite H3|done].
Qed.

Lemma channel_bound_inj r ch ch' :
  channel_bound r ch → channel_bound r ch' → ch_ref ch = ch_ref ch' → ch = ch'.
Proof.
  intros (a & H & Ht & Hs) (a' & H' & Ht' & Hs') E. rewrite <- E, H in H'.
  injection H' as _ H'. destruct ch, ch'; cbn in *. congruence.
Qed.

Lemma issue_checks_ok channel runtime name session task parent delegation cov now r c d :
  issue_checks channel runtime name session task parent delegation cov now r = Ok (c, d) →
  identity c = new_identity r runtime name session task parent delegation
  ∧ registry_id c = _registry_id r ∧ _digest dumps sha256 c = Ok d
  ∧ 0 <= _generation r + 1 < 2 ^ 63 ∧ 0 <= _policy_epoch r
  ∧ _parents dumps sha256 (identity c) now r = Ok tt.
Proof.
  unfold Registry.issue_checks. intros H. cbv zeta in H. inv_res.
  match goal with H : counter _ _ = Ok _ |- _ => apply counter_ok in H end.
  match goal with H : SwarmIdentity_post_init _ = Ok _ |- _ =>
    apply SwarmIdentity_valid in H; pose proof (identity_epoch _ H) as He end.
  repeat match goal with u : unit |- _ => destruct u end.
  cbn in He. by destruct He.
Qed.

Lemma agent_wf_mono r r' name g :
  agent_wf r name g →
  _tenant r' = _tenant r → _swarm r' = _swarm r → _generation r <= _generation r' →
  _policy_epoch r <= _policy_epoch r' → (fresh_ref r <= fresh_ref r')%positive →
  (∀ b, _channels r !! ch_ref (ag_channel g) = Some b →
        _channels r' !! ch_ref (ag_channel g) = Some b) →
  agent_wf r' name g.
Proof.
  intros [] Ht Hs Hg He Hf Hc. split; rewrite ?Ht, ?Hs; try done; try lia.
  destruct agent_channel0 as (a & H1 & H2 & H3). exists a. rewrite Ht, Hs. auto.
Qed.

Lemma wf_set_agents r m :
  wf r →
  (∀ name g, m !! name = Some g →
     agent_wf r name g ∧ ∃ g0, _agents r !! name = Some g0 ∧ ag_context g = ag_context g0) →
  (size m <= size (_agents r))%nat →
  wf (set_agents r m).
Proof.
  intros [Ha Hg Hr Hc [Hs1 Hs2] Hn] Hm Hsize. split; cbn; try done; [| | |split; [lia|done]].
  - intros name g H. destruct (Hm _ _ H) as [H' _].
    eapply agent_wf_mono; [exact H'|done|done|cbn; lia|cbn; lia|cbn; lia|done].
  - intros n1 n2 g1 g2 (_ & g1' & H1 & E1)%Hm (_ & g2' & H2 & E2)%Hm. rewrite E1, E2. by eapply Hg.
  - intros n1 n2 g1 g2 (_ & g1' & H1 & E1)%Hm (_ & g2' & H2 & E2)%Hm. rewrite E1, E2. by eapply Hr.
Qed.

Lemma size_alter_le {V} (f : V → V) k (m : gmap string V) : (size (alter f k m) <= size m)%nat.
Proof. rewrite <- !size_dom, dom_alter_L. done. Qed.

Lemma size_delete_le {K V} `{Countable K} (k : K) (m : gmap K V) :
  (size (delete k m) <= size m)%nat.
Proof. rewrite map_size_delete. case_match; cbn; lia. Qed.

Lemma alter_wf r name f :
  wf r →
  (∀ g, _agents r !! name = Some g → agent_wf r name g →
     agent_wf r name (f g) ∧ ag_context (f g) = ag_context g) →
  wf (set_agents r (alter f name (_agents r))).
Proof.
  intros Hwf Hf. apply wf_set_agents; [done| |apply size_alter_le].
  intros n g H. apply lookup_alter_Some in H as [(<- & g0 & H & ->)|[Hne H]].
  - destruct (Hf g0 H (wf_agents _ Hwf _ _ H)) as [? ?]. split; [done|]. by exists g0.
  - split; [by apply (wf_agents _ Hwf)|]. by exists g.
Qed.

Lemma issued_wf r channel a runtime name session task parent delegation cov now c d :
  wf r → _channel channel a r = Ok runtime →
  issue_checks channel runtime name session task parent delegation cov now r = Ok (c, d) →
  room name r → wf (issued r name channel c d now).
Proof.
  intros [Ha Hg Hr Hc [Hs1 Hs2] Hn] Hch Hiss Hroom.
  apply channel_ok_bound in Hch as [Hb ->].
  apply issue_checks_ok in Hiss as (Hid & Hreg & Hd & Hgen & Hep & _).
  assert (generation (identity c) = _generation r + 1) as Hgc by by rewrite Hid.
  set (g := {| ag_context := {| ctx_ref := fresh_ref r; ctx := c |}; ag_channel := channel;
               ag_digest := d; last_heartbeat := now; phase := "active" |}).
  assert (∀ n k, <[name := g]> (_agents r) !! n = Some k →
    (n = name ∧ k = g) ∨ (n ≠ name ∧ _agents r !! n = Some k)) as Hcases.
  { intros n k [[<- <-]|[? ?]]%lookup_insert_Some; auto. }
  assert (∀ n k, _agents r !! n = Some k →
    generation (identity (ctx (ag_context k))) <> _generation r + 1
    ∧ ctx_ref (ag_context k) <> fresh_ref r) as Hold.
  { intros n k [_ _ _ _ Hk _ Href _ _ _]%Ha. split; [lia|]. intros E. rewrite E in Href. lia. }
  split; cbn.
  - intros n k [[-> ->]|[_ H]]%Hcases.
    + split; cbn; rewrite ?Hid; cbn; try done; try lia. left.
    + eapply agent_wf_mono; [by apply Ha|done|done|cbn; lia|cbn; lia|cbn; lia|done].
  - intros n1 n2 g1 g2 [[-> ->]|[? H1]]%Hcases [[-> ->]|[? H2]]%Hcases E; [done| | |by eapply Hg].
    + cbn in E. apply Hold in H2. lia.
    + cbn in E. apply Hold in H1. lia.
  - intros n1 n2 g1 g2 [[-> ->]|[? H1]]%Hcases [[-> ->]|[? H2]]%Hcases E; [done| | |by eapply Hr].
    + cbn in E. apply Hold in H2 as [_ H2]. congruence.
    + cbn in E. apply Hold in H1 as [_ H1]. congruence.
  - intros k b H%Hc. lia.
  - split; [|done]. rewrite map_size_insert. destruct Hroom as [[k ->]|Hlt]; [done|].
    case_match; cbn; lia.
  - rewrite Hgc. lia.
Qed.

Lemma basic_wf r r' : basic r r' → wf r → wf r'.
Proof.
  intros Hstep Hwf. destruct Hstep.
  - destruct Hwf as [Ha Hg Hr Hc Hs Hn]. split; cbn; try done.
    intros name g H'. eapply agent_wf_mono; [by apply Ha|done..].
  - destruct Hwf as [Ha Hg Hr Hc [Hs1 Hs2] Hn].
    assert (∀ k b, _channels r !! k = Some b → k ≠ fresh_ref r) as Hne.
    { intros k b Hk%Hc ->. lia. }
    split; cbn; try done.
    + intros name g H'. eapply agent_wf_mono; [by apply Ha|done|done|done|done|cbn; lia|].
      intros b Hb. cbn. rewrite lookup_insert_ne; [done|]. intros E. by eapply Hne.
    + intros k b [[<- _]|[_ H']]%lookup_insert_Some; [lia|]. apply Hc in H'. lia.
    + split; [done|]. rewrite map_size_insert. case_match; cbn; lia.
  - by eapply issued_wf.
  - apply alter_wf; [done|]. intros g Hg []. by split.
  - apply alter_wf; [done|]. intros g Hg []. split; [|done]. split; cbn; try done.
    match goal with H : _ ∨ _ |- _ => destruct H as [->| ->] end; set_solver.
  - destruct Hwf as [Ha Hg Hr Hc Hs Hn]. split; cbn; try done; [|lia].
    intros n g H'. eapply agent_wf_mono; [by apply Ha|done|done|done|cbn; lia|done|done].
  - apply wf_set_agents; [done| |apply size_delete_le].
    intros n g [_ Hn]%lookup_delete_Some. split; [by apply (wf_agents _ Hwf)|]. by exists g.
  - assert (wf (set_agents r (filter (λ kv, ag_channel kv.2 ≠ channel) (_agents r)))) as Hwf'.
    { apply wf_set_agents; [done| |apply map_size_filter].
      intros n g [Hn _]%map_lookup_filter_Some.
      split; [by apply (wf_agents _ Hwf)|]. by exists g. }
    destruct Hwf' as [Ha Hg Hr Hc [Hs1 Hs2] Hn]. split; cbn in *; try done.
    + intros n g Hf. pose proof (Ha n g Hf) as Hag.
      eapply agent_wf_mono; [exact Hag|done..|]. cbn. intros b Hb.
      rewrite lookup_delete_ne; [done|]. intros E.
      apply map_lookup_filter_Some in Hf as [Hf Hne]. apply Hne.
      apply channel_ok_bound in H as [Hbound _].
      eapply channel_bound_inj; [|exact Hbound|done].
      apply (agent_channel _ _ _ (wf_agents _ Hwf _ _ Hf)).
    + intros k b [_ Hk]%lookup_delete_Some. by eapply Hc.
    + split; [done|]. pose proof (size_delete_le (ch_ref channel) (_channels r)). lia.
Qed.

Lemma basics_wf r r' : rtc basic r r' → wf r → wf r'.
Proof. induction 1; [done|]. eauto using basic_wf. Qed.

Lemma mk_Registry_wf t s i e ma mc mp ht r : mk_Registry t s i e ma mc mp ht = Ok r → wf r.
Proof.
  unfold mk_Registry. intros H. inv_res.
  match goal with H : counter _ _ = Ok _ |- _ => apply counter_ok in H end.
  split; cbn [_agents _channels _max_agents _max_channels _generation _policy_epoch].
  - intros name g Hg. by rewrite lookup_empty in Hg.
  - intros n1 n2 g1 g2 Hg. by rewrite lookup_empty in Hg.
  - intros n1 n2 g1 g2 Hg. by rewrite lookup_empty in Hg.
  - intros k b Hk. by rewrite lookup_empty in Hk.
  - rewrite !map_size_empty. split; apply Nat.le_0_l.
  - split; [done|]. assumption.
Qed.

(** ** Who authenticates *)

(** A chain of live parents up to a root: each is registered with the generation
    the child names, active, of the current policy epoch and not met before. *)
Inductive lineage (r : Registry) (now : Z) : nat → list string → SwarmIdentity → Prop :=
| lineage_root depth seen i : parent_agent_id i = None → lineage r now depth seen i
| lineage_child depth seen i p g :
    parent_agent_id i = Some p → p ∉ seen → _agents r !! p = Some g →
    _phase g now r = "active" →
    parent_generation i = Some (generation (identity (ctx (ag_context g)))) →
    policy_epoch (identity (ctx (ag_context g))) = _policy_epoch r →
    lineage r now depth (p :: seen) (identity (ctx (ag_context g))) →
    lineage r now (S depth) seen i.

Lemma channel_bound_check r ch :
  channel_bound r ch ↔ ∃ a, _channel ch a r = Ok (ch_runtime_id ch).
Proof.
  split.
  - intros (a & H & Ht & Hs). exists a. unfold _channel. rewrite H, Ht, Hs.
    by rewrite !bool_decide_eq_true_2.
  - by intros [a [H _]%channel_ok_bound].
Qed.

Lemma channel_check_iff r ch a :
  channel_bound r ch →
  (is_ok (_channel ch a r) = true ↔ ∃ rt, _channels r !! ch_ref ch = Some (a, rt)).
Proof.
  intros (b & H & Ht & Hs). unfold _channel. rewrite H, Ht, Hs.
  rewrite (bool_decide_eq_true_2 ((_, _, _) = _)), andb_true_r by done. case_bool_decide; cbn.
  - subst. by split; eauto.
  - split; [done|]. by intros [rt [= ->]].
Qed.

Lemma live_parent_iff r now seen p i j :
  wf r →
  (live_parent dumps sha256 r now seen p i = Ok j ↔
  ∃ g, _agents r !! p = Some g ∧ (p ∉ seen) ∧ _phase g now r = "active"
    ∧ parent_generation i = Some (generation (identity (ctx (ag_context g))))
    ∧ policy_epoch (identity (ctx (ag_context g))) = _policy_epoch r
    ∧ j = identity (ctx (ag_context g))).
Proof.
  intros Hwf. unfold live_parent. split.
  - intros H. destruct (_agents r !! p) as [g|]; [|done].
    destruct (_channels r !! ch_ref (ag_channel g)) as [[b rt]|]; [|done]. inv_res. split_bools.
    exists g. match goal with H : mem _ _ = false |- _ => apply mem_false in H end.
    match goal with H : (_ =s "active") = true |- _ => apply eqb_true in H end.
    match goal with H : (_ =? _)%Z = true |- _ => apply Z.eqb_eq in H end.
    done.
  - intros (g & Hg & Hs & Hp & Hgen & He & ->). rewrite Hg.
    pose proof (wf_agents _ Hwf _ _ Hg) as Hag.
    destruct (agent_channel _ _ _ Hag) as (b & Hb & Ht & Hsw). rewrite Hb.
    rewrite (proj2 (mem_false _ _) Hs), Hp, Hgen, bool_decide_eq_true_2, He, Z.eqb_refl by done.
    cbn [negb andb guard_or mbind res_bind]. rewrite String.eqb_refl.
    cbn [andb guard_or mbind res_bind].
    rewrite (agent_digest _ _ _ Hag). cbn [mbind res_bind]. rewrite String.eqb_refl.
    cbn [guard_or mbind res_bind]. unfold _channel. rewrite Hb, Ht, Hsw.
    by rewrite !bool_decide_eq_true_2.
Qed.

Lemma parents_loop_iff r now depth : wf r → ∀ seen i,
  parents_loop dumps sha256 r now depth seen i = Ok tt ↔ lineage r now depth seen i.
Proof.
  intros Hwf. induction depth as [|depth IH]; intros seen i; cbn [parents_loop].
  - destruct (parent_agent_id i) eqn:E.
    + split; [done|]. inversion 1; congruence.
    + split; [by intros _; apply lineage_root|done].
  - destruct (parent_agent_id i) as [p|] eqn:E.
    + rewrite res_bind_ok. setoid_rewrite live_parent_iff; [|done]. setoid_rewrite IH. split.
      * intros (j & (g & Hg & Hs & Hp & Hgen & He & ->) & Hl). by eapply lineage_child.
      * inversion 1; subst; [congruence|].
        match goal with H : parent_agent_id i = Some ?q |- _ =>
          assert (q = p) as -> by congruence end.
        eexists. split; [|done]. by eexists.
    + split; [by intros _; apply lineage_root|done].
Qed.

(** When a context authenticates. *)
Record authentic (r : Registry) (now : Z) (c : ContextObj) (ch : HostChannel) (a : adapter) : Prop := {
  authentic_clock : timestamp now = Ok now ∧ _last_clock r <= now;
  authentic_channel : ∃ rt, _channels r !! ch_ref ch = Some (a, rt);
  authentic_record : ∃ g, _agents r !! agent_id (identity (ctx c)) = Some g
    ∧ ag_context g = c ∧ ag_channel g = ch ∧ _phase g now r = "active";
  authentic_epoch : policy_epoch (identity (ctx c)) = _policy_epoch r;
  authentic_lineage :
    lineage r now (_max_parent_depth r) [agent_id (identity (ctx c))] (identity (ctx c)) }.

Lemma timestamp_id v w : timestamp v = Ok w → w = v ∧ timestamp v = Ok v.
Proof. unfold timestamp. case_match; [|done]. by intros [= <-]. Qed.

Lemma set_clock_wf r v : wf r → wf (set_last_clock r v).
Proof.
  intros [Ha Hg Hr Hc Hs Hn]. split; cbn; try done.
  intros n g H. by eapply agent_wf_mono; [by apply Ha|..].
Qed.

Lemma lineage_clock r v now depth seen i :
  lineage (set_last_clock r v) now depth seen i ↔ lineage r now depth seen i.
Proof.
  split; induction 1; first [by apply lineage_root|by eapply lineage_child].
Qed.

Lemma live_iff r c ch a now :
  wf r →
  (is_ok (_live c ch a now r) = true ↔
  (∃ rt, _channels r !! ch_ref ch = Some (a, rt))
  ∧ (∃ g, _agents r !! agent_id (identity (ctx c)) = Some g
       ∧ ag_context g = c ∧ ag_channel g = ch ∧ _phase g now r = "active")
  ∧ policy_epoch (identity (ctx c)) = _policy_epoch r
  ∧ lineage r now (_max_parent_depth r) [agent_id (identity (ctx c))] (identity (ctx c))).
Proof.
  intros Hwf. split.
  - destruct (_live c ch a now r) as [g|] eqn:E; [|done]. intros _.
    apply live_in in E as (Hr & Hp & He & Hl).
    apply record_in in Hr as (Hg & Hc & Hch & Hok & _).
    split; [|split; [by exists g|split; [done|by apply parents_loop_iff]]].
    apply channel_check_iff; [|done]. rewrite <- Hch.
    by apply (agent_channel _ _ _ (wf_agents _ Hwf _ _ Hg)).
  - intros (Hrt & (g & Hg & Hc & Hch & Hp) & He & Hl).
    pose proof (wf_agents _ Hwf _ _ Hg) as Hag.
    pose proof (agent_channel _ _ _ Hag) as Hb. rewrite Hch in Hb.
    apply (channel_check_iff _ _ _ Hb) in Hrt.
    unfold Registry._live, Registry._record.
    destruct (_channel ch a r) as [rt|]; [|done]. cbn [mbind res_bind]. rewrite Hg.
    rewrite !bool_decide_eq_true_2 by done. cbn [andb guard_or mbind res_bind].
    pose proof (agent_digest _ _ _ Hag) as Hd. rewrite Hc in Hd. rewrite Hd.
    cbn [mbind res_bind]. rewrite String.eqb_refl. cbn [guard_or mbind res_bind].
    rewrite Hp, He, Z.eqb_refl, String.eqb_refl. cbn [andb guard_or mbind res_bind].
    unfold _parents. apply parents_loop_iff in Hl; [|done]. by rewrite Hl.
Qed.

Lemma authenticate_spec r now c ch a :
  wf r →
  (is_ok (snd (authenticate now c ch a r)) = true ↔ authentic r now c ch a)
  ∧ ∀ c', snd (authenticate now c ch a r) = Ok c' → c' = c.
Proof.
  intros Hwf. unfold Registry.authenticate, _now, lift, demand, require, modify, reads.
  cbv [mbind M_bind mret M_ret]. split.
  - destruct (timestamp now) as [w|] eqn:Ht; cbn.
    + apply timestamp_id in Ht as Hw. destruct Hw as [-> _].
      destruct (Z.ltb_spec now (_last_clock r)); cbn.
      { split; [done|]. intros [[_ ?] _ _ _ _]. lia. }
      assert (is_ok (_live c ch a now (set_last_clock r now)) = true ↔ authentic r now c ch a)
        as Hiff.
      { rewrite live_iff by by apply set_clock_wf. rewrite lineage_clock. split.
        - intros (H1 & H2 & H3 & H4). by split.
        - intros [H1 H2 H3 H4 H5]. done. }
      rewrite <- Hiff. by destruct (_live c ch a now (set_last_clock r now)).
    + split; [done|]. intros [[? _] _ _ _ _]. congruence.
  - intros c'. destruct (timestamp now); cbn; [|done].
    destruct (negb _); cbn; [|done].
    destruct (_live c ch a _ _); cbn; [|done]. congruence.
Qed.

(** ** Revocation is final *)

Definition registered (r : Registry) (c : ContextObj) : Prop :=
  ∃ g, _agents r !! agent_id (identity (ctx c)) = Some g ∧ ag_context g = c.

#[local] Instance registered_dec r c : Decision (registered r c).
Proof.
  unfold registered. destruct (_agents r !! agent_id (identity (ctx c))) as [g|].
  - destruct (decide (ag_context g = c)) as [E|E]; [left; eauto|right; by intros (? & [= <-] & ?)].
  - right. by intros (? & ? & ?).
Defined.

(** The ways in which a context that was issued stops being good. *)
Inductive invalid (r : Registry) (c : ContextObj) : Prop :=
| invalid_replaced : ¬ registered r c → invalid r c
| invalid_epoch : policy_epoch (identity (ctx c)) < _policy_epoch r → invalid r c
| invalid_phase g :
    _agents r !! agent_id (identity (ctx c)) = Some g → ag_context g = c →
    phase g ≠ "active" → invalid r c
| invalid_parent p n :
    parent_agent_id (identity (ctx c)) = Some p → parent_generation (identity (ctx c)) = Some n →
    n <= _generation r →
    (∀ g, _agents r !! p = Some g → generation (identity (ctx (ag_context g))) ≠ n) →
    invalid r c.

Definition revoked (r : Registry) (c : ContextObj) : Prop :=
  (ctx_ref c < fresh_ref r)%positive ∧ invalid r c.

Lemma revoked_not_authentic r now c ch a : revoked r c → ¬ authentic r now c ch a.
Proof.
  intros [_ Hi] [_ _ (g & Hg & Hc & _ & Hp) He Hl]. destruct Hi.
  - apply H. by exists g.
  - lia.
  - rewrite Hg in H. injection H as ->. apply phase_active in Hp. done.
  - inversion Hl; subst; [congruence|].
    match goal with H1 : parent_agent_id _ = Some p, H2 : parent_agent_id _ = Some ?q |- _ =>
      rewrite H1 in H2; injection H2 as <- end.
    match goal with H : _agents r !! p = Some ?k |- _ => eapply H2; [exact H|] end.
    congruence.
Qed.

(** What [invalid] needs of a step, agent by agent. *)
Lemma invalid_keep r r' c :
  invalid r c →
  _policy_epoch r <= _policy_epoch r' → _generation r <= _generation r' →
  (∀ name g', _agents r' !! name = Some g' →
     (∃ g, _agents r !! name = Some g ∧ ag_context g = ag_context g'
        ∧ (phase g ≠ "active" → phase g' ≠ "active"))
     ∨ (ctx_ref (ag_context g') ≠ ctx_ref c
        ∧ _generation r < generation (identity (ctx (ag_context g'))))) →
  invalid r' c.
Proof.
  intros Hi He Hgen Hag. destruct Hi.
  - apply invalid_replaced. intros (g' & Hg' & Hc). apply H.
    destruct (Hag _ _ Hg') as [(g & Hg & Hcc & _)|[Hne _]]; [|by rewrite Hc in Hne].
    exists g. split; [done|congruence].
  - apply invalid_epoch. lia.
  - destruct (decide (registered r' c)) as [(g' & Hg' & Hc)|Hn]; [|by apply invalid_replaced].
    destruct (Hag _ _ Hg') as [(g0 & Hg0 & _ & Hph)|[Hne _]]; [|by rewrite Hc in Hne].
    rewrite H in Hg0. injection Hg0 as <-. eapply invalid_phase; [exact Hg'|done|auto].
  - eapply (invalid_parent _ _ p n); [done|done|lia|]. intros g' Hg' E.
    destruct (Hag _ _ Hg') as [(g & Hg & Hcc & _)|[_ Hlt]]; [|lia].
    apply (H2 g Hg). congruence.
Qed.

Lemma alter_keep r name f c (Hctx : ∀ g, ag_context (f g) = ag_context g)
    (Hph : ∀ g, phase g ≠ "active" → phase (f g) ≠ "active") n g' :
  alter f name (_agents r) !! n = Some g' →
  (∃ g, _agents r !! n = Some g ∧ ag_context g = ag_context g'
     ∧ (phase g ≠ "active" → phase g' ≠ "active"))
  ∨ (ctx_ref (ag_context g') ≠ ctx_ref c
     ∧ _generation r < generation (identity (ctx (ag_context g')))).
Proof.
  intros H. left. apply lookup_alter_Some in H as [(<- & g & Hg & ->)|[_ Hg]].
  - exists g. split; [done|]. split; [by rewrite Hctx|apply Hph].
  - by exists g'.
Qed.

Lemma basic_revoked r r' c : basic r r' → revoked r c → revoked r' c.
Proof.
  intros Hstep [Href Hi]. split; [destruct Hstep; cbn; lia|].
  destruct Hstep; (eapply invalid_keep;
    [exact Hi|cbn; lia|cbn|cbn [_agents set_agents set_channels allocate issued]]);
    try (cbn; lia); try (intros n g' Hg'; left; exists g'; done).
  - apply issue_checks_ok in H0 as (Hid & _). rewrite Hid. cbn. lia.
  - apply issue_checks_ok in H0 as (Hid & _). intros n g' Hg'.
    apply lookup_insert_Some in Hg' as [[_ <-]|[_ Hg']]; [right|left; by exists g'].
    cbn. rewrite Hid. cbn. split; [|lia]. intros E. rewrite E in Href. lia.
  - intros n g'. by apply alter_keep.
  - intros n g'. apply alter_keep; [done|]. intros g _. cbn.
    by destruct H as [->| ->].
  - intros n g' [_ Hg']%lookup_delete_Some. left. by exists g'.
  - intros n g' [Hg' _]%map_lookup_filter_Some. left. by exists g'.
Qed.

Lemma basics_revoked r r' c : rtc basic r r' → revoked r c → revoked r' c.
Proof. induction 1; [done|]. eauto using basic_revoked. Qed.

(** ** What revokes *)

(** [c2] names the incarnation [c] as its parent. *)
Definition child_of (c c2 : ContextObj) : Prop :=
  parent_agent_id (identity (ctx c2)) = Some (agent_id (identity (ctx c)))
  ∧ parent_generation (identity (ctx c2)) = Some (generation (identity (ctx c))).

(** [c], and every context registered under it, is revoked. *)
Definition revokes_tree (r r' : Registry) (c : ContextObj) : Prop :=
  revoked r' c ∧ ∀ c2, registered r c2 → child_of c c2 → revoked r' c2.

Definition good (c : ContextObj) (r : Registry) : Prop := wf r ∧ registered r c.

Lemma good_clockless c : clockless (good c).
Proof. intros r v [? ?]. split; [by apply set_clock_wf|done]. Qed.

Lemma registered_ref r c : wf r → registered r c → (ctx_ref c < fresh_ref r)%positive.
Proof. intros Hwf (g & Hg & <-). apply (agent_ref _ _ _ (wf_agents _ Hwf _ _ Hg)). Qed.

Lemma registered_generation r c :
  wf r → registered r c → generation (identity (ctx c)) <= _generation r.
Proof. intros Hwf (g & Hg & <-). apply (agent_generation _ _ _ (wf_agents _ Hwf _ _ Hg)). Qed.

(** A new record under the name of [c], or none, revokes the tree of [c]. *)
Lemma replaced_revokes r r' c :
  good c r → (fresh_ref r <= fresh_ref r')%positive → _generation r <= _generation r' →
  (∀ g, _agents r' !! agent_id (identity (ctx c)) = Some g →
     ctx_ref (ag_context g) ≠ ctx_ref c
     ∧ generation (identity (ctx (ag_context g))) ≠ generation (identity (ctx c))) →
  revokes_tree r r' c.
Proof.
  intros [Hwf Hreg] Hf Hgen Hnew. split.
  - split; [pose proof (registered_ref _ _ Hwf Hreg); lia|].
    apply invalid_replaced. intros (g & Hg & Hc). destruct (Hnew g Hg) as [Hne _]. congruence.
  - intros c2 Hc2 [Hp Hpg]. split; [pose proof (registered_ref _ _ Hwf Hc2); lia|].
    eapply invalid_parent; [exact Hp|exact Hpg| |].
    + pose proof (registered_generation _ _ Hwf Hreg). lia.
    + intros g Hg. by apply Hnew.
Qed.

Lemma issue_revokes P channel a runtime name session task parent delegation cov now c :
  (∀ r, P r → good c r ∧ _channel channel a r = Ok runtime) →
  name = agent_id (identity (ctx c)) →
  does P (_issue dumps sha256 channel runtime name session task parent delegation cov now)
    (λ obj r', ∃ r, P r ∧ revokes_tree r r' c ∧ ctx_ref obj ≠ ctx_ref c).
Proof.
  intros HP -> r Hr. destruct (HP r Hr) as [[Hwf Hreg] Hch]. split.
  { eapply does_issue. split; [exact Hch|]. left. destruct Hreg as (g & Hg & _). eauto. }
  unfold _issue, reads, step. cbv [mbind M_bind].
  destruct (Registry.issue_checks _ _ _ _ _ _ _ _ _ _ _ r) as [[c' d]|] eqn:E; [|done].
  apply issue_checks_ok in E as (Hid & _ & _ & _ & _ & _).
  cbn [fst snd]. intros obj [= <-]. exists r. split; [done|].
  pose proof (registered_ref _ _ Hwf Hreg) as Href.
  pose proof (registered_generation _ _ Hwf Hreg) as Hgen.
  split; [|cbn; intros E; rewrite <- E in Href; lia].
  apply replaced_revokes; [done|cbn; lia|cbn; rewrite Hid; cbn; lia|].
  intros g. cbn. rewrite lookup_insert_eq. intros [= <-]. cbn. rewrite Hid. cbn.
  split; [|lia]. intros E. rewrite <- E in Href. lia.
Qed.

(** The rule for a step that keeps [good]. *)
Lemma tree_trans r0 r r' c :
  (∀ c2, registered r0 c2 → registered r c2) → revokes_tree r r' c → revokes_tree r0 r' c.
Proof. intros H [H1 H2]. split; [done|]. intros c2 ?%H. by apply H2. Qed.

Definition at_clock (r0 r : Registry) : Prop := ∃ v, r = r0 ∨ r = set_last_clock r0 v.
Lemma at_clock_clockless r0 : clockless (at_clock r0).
Proof. intros r v [w [->| ->]]; exists v; auto. Qed.

Lemma restart_revokes t c ch a nch na s cov r c' :
  good c r → snd (restart dumps sha256 t c ch a nch na s cov r) = Ok c' →
  revokes_tree r (fst (restart dumps sha256 t c ch a nch na s cov r)) c.
Proof.
  intros Hg. assert (does (λ r', good c r' ∧ at_clock r r')
    (restart dumps sha256 t c ch a nch na s cov)
    (λ _ r', ∃ r1, at_clock r r1 ∧ revokes_tree r1 r' c)) as H.
  { unfold restart. repeat does_step.
    - intros r1 v [[[[H1 H2] H3] H4] H5]. split; [|done]. split; [|done]. split; [|done].
      split; [by apply good_clockless|by apply at_clock_clockless].
    - eapply does_post; [eapply issue_revokes|].
      + intros r1 [[[[H1 _] _] H3] _]. split; [exact H1|exact H3].
      + done.
      + intros obj r' (r1 & [[[[_ Hc] _] _] _] & Htree & _). by exists r1. }
  destruct (H r) as [_ HQ]. { split; [done|]. exists 0. by left. }
  intros Hok. destruct (HQ _ Hok) as (r1 & [v [->| ->]] & Ht); [done|].
  eapply tree_trans; [|exact Ht]. done.
Qed.

Lemma refresh_revokes t c ch a cov r c' :
  good c r → snd (refresh_policy_context dumps sha256 t c ch a cov r) = Ok c' →
  revokes_tree r (fst (refresh_policy_context dumps sha256 t c ch a cov r)) c.
Proof.
  intros Hg. assert (does (λ r', good c r' ∧ at_clock r r')
    (refresh_policy_context dumps sha256 t c ch a cov)
    (λ _ r', ∃ r1, at_clock r r1 ∧ revokes_tree r1 r' c)) as H.
  { unfold refresh_policy_context. does_step. eapply does_bind; [apply does_now|intros].
    - intros r1 v [[H1 H2] H3]. split; [|done].
      split; [by apply good_clockless|by apply at_clock_clockless].
    - do 2 does_step. eapply does_post; [eapply issue_revokes|].
      + intros r1 [[[[H1 _] _] _] H3]. split; [exact H1|exact H3].
      + done.
      + intros obj r' (r1 & [[[[_ Hc] _] _] _] & Htree & _). by exists r1. }
  destruct (H r) as [_ HQ]. { split; [done|]. exists 0. by left. }
  intros Hok. destruct (HQ _ Hok) as (r1 & [v [->| ->]] & Ht); [done|].
  eapply tree_trans; [|exact Ht]. done.
Qed.

Lemma rebind_revokes t c ch a pc pch pa v g e r c' :
  good c r → snd (rebind_delegation dumps sha256 t c ch a pc pch pa v g e r) = Ok c' → c' ≠ c →
  revokes_tree r (fst (rebind_delegation dumps sha256 t c ch a pc pch pa v g e r)) c.
Proof.
  intros Hg. assert (does (λ r', good c r' ∧ at_clock r r')
    (rebind_delegation dumps sha256 t c ch a pc pch pa v g e)
    (λ c' r', c' ≠ c → ∃ r1, at_clock r r1 ∧ revokes_tree r1 r' c)) as H.
  { unfold rebind_delegation. does_step. eapply does_bind; [apply does_now|intros].
    - intros r1 w [[H1 H2] H3]. split; [|done].
      split; [by apply good_clockless|by apply at_clock_clockless].
    - do 4 does_step.
      + intros r1 _. split; [done|]. by intros y [= <-] Hne.
      + does_step. eapply does_post; [eapply issue_revokes|].
        * intros r1 [[[[[[H1 _] _] _] _] _] H3]. split; [exact H1|exact H3].
        * done.
        * intros obj r' (r1 & [[[[[[_ Hc] _] _] _] _] _] & Htree & _) _. by exists r1. }
  destruct (H r) as [_ HQ]. { split; [done|]. exists 0. by left. }
  intros Hok Hne. destruct (HQ _ Hok Hne) as (r1 & [w [->| ->]] & Ht); [done|].
  eapply tree_trans; [|exact Ht]. done.
Qed.

(** The record of a registered context after [pause], [end], [forget_ended]. *)
Lemma good_revoked r r' c :
  good c r → (fresh_ref r <= fresh_ref r')%positive →
  (∀ g, _agents r' !! agent_id (identity (ctx c)) = Some g → ag_context g = c → phase g ≠ "active") →
  revoked r' c.
Proof.
  intros [Hwf Hreg] Hf Hph. split; [pose proof (registered_ref _ _ Hwf Hreg); lia|].
  destruct (decide (registered r' c)) as [(g & Hg & Hc)|Hn]; [|by apply invalid_replaced].
  eapply invalid_phase; [exact Hg|done|by apply Hph].
Qed.

Lemma set_phase_revokes r p c :
  good c r → p = "paused" ∨ p = "ended" →
  revoked (set_agents r (alter (set_phase p) (agent_id (identity (ctx c))) (_agents r))) c.
Proof.
  intros Hg Hp. apply (good_revoked r); [done|done|]. cbn.
  intros g [(_ & g0 & _ & ->)|[? _]]%lookup_alter_Some _; [|done].
  cbn. by destruct Hp as [->| ->].
Qed.

Lemma pause_revokes t c ch a r u :
  good c r → snd (pause dumps sha256 t c ch a r) = Ok u →
  revoked (fst (pause dumps sha256 t c ch a r)) c.
Proof.
  intros Hg. assert (does (good c) (pause dumps sha256 t c ch a) (λ _ r', revoked r' c)) as H.
  { unfold pause. eapply does_bind; [apply does_now, good_clockless|intros]. does_step.
    intros r1 [H1 _]. split; [apply rtc_once, basic_phase; auto|].
    intros _ _. apply set_phase_revokes; auto. }
  intros Hok. by apply (proj2 (H r Hg) u).
Qed.

Lemma end_revokes c ch a r u :
  good c r → snd (end_ dumps sha256 c ch a r) = Ok u →
  revoked (fst (end_ dumps sha256 c ch a r)) c.
Proof.
  intros Hg. assert (does (good c) (end_ dumps sha256 c ch a) (λ _ r', revoked r' c)) as H.
  { unfold end_. does_step. intros r1 [H1 _]. split; [apply rtc_once, basic_phase; auto|].
    intros _ _. apply set_phase_revokes; auto. }
  intros Hok. by apply (proj2 (H r Hg) u).
Qed.

Lemma forget_revokes c ch a r u :
  good c r → snd (forget_ended dumps sha256 c ch a r) = Ok u →
  revokes_tree r (fst (forget_ended dumps sha256 c ch a r)) c.
Proof.
  intros Hg. assert (does (λ r', good c r' ∧ r' = r) (forget_ended dumps sha256 c ch a)
    (λ _ r', revokes_tree r r' c)) as H.
  { unfold forget_ended. do 2 does_step. intros r1 [[[H1 ->] _] _].
    split; [apply rtc_once, basic_forget|]. intros _ _.
    apply replaced_revokes; [done|done|done|]. cbn. intros g. by rewrite lookup_delete_eq. }
  intros Hok. by apply (proj2 (H r (conj Hg eq_refl)) u).
Qed.

Lemma advance_revokes e c r u :
  good c r → snd (advance_policy_epoch e r) = Ok u → revoked (fst (advance_policy_epoch e r)) c.
Proof.
  intros Hg. assert (does (good c) (advance_policy_epoch e) (λ _ r', revoked r' c)) as H.
  { unfold advance_policy_epoch. do 2 does_step. intros r1 [[[Hwf Hreg] H1] H2].
    apply counter_ok in H1. apply negb_true_iff, Z.leb_gt in H2.
    split; [apply rtc_once, basic_epoch; lia|]. intros _ _.
    split; [by apply (registered_ref r1)|]. apply invalid_epoch. cbn.
    destruct Hreg as (g & Hgg & <-).
    pose proof (agent_epoch _ _ _ (wf_agents _ Hwf _ _ Hgg)). lia. }
  intros Hok. by apply (proj2 (H r Hg) u).
Qed.

Lemma close_revokes ch a c r u :
  good c r → snd (close_channel ch a r) = Ok u →
  (∃ g, _agents r !! agent_id (identity (ctx c)) = Some g ∧ ag_channel g = ch) →
  revokes_tree r (fst (close_channel ch a r)) c.
Proof.
  intros Hg Hok (g & Hgg & Hch). revert Hok.
  assert (does (λ r', good c r' ∧ r' = r) (close_channel ch a)
    (λ _ r', revokes_tree r r' c)) as H.
  { unfold close_channel. does_step. intros r1 [[H1 ->] H2].
    split; [apply rtc_once; by eapply basic_close|]. intros _ _.
    apply replaced_revokes; [done|done|done|]. cbn.
    intros g' [Hg' Hne]%map_lookup_filter_Some. rewrite Hgg in Hg'. injection Hg' as <-.
    by cbn in Hne. }
  intros Hok. by apply (proj2 (H r (conj Hg eq_refl)) u).
Qed.

(** ** The properties *)

Lemma run_wf t s i e ma mc mp ht r0 calls :
  mk_Registry t s i e ma mc mp ht = Ok r0 → wf (run calls r0).
Proof. intros H. eapply basics_wf; [apply run_basic|]. by eapply mk_Registry_wf. Qed.

(** The registry invariant.  Whatever sequence of calls is made on a new
    registry, with whatever contexts, channels, adapters and clock readings and
    whether they raise or not, every agent is filed under its own name, belongs
    to the tenant, the swarm and a bound channel of the registry, carries the
    digest of its context and one of three phases; no two agents share a
    generation or a context; generations and epochs do not exceed the
    registry's, and agents and channels stay within their limits. *)
Theorem registry_invariant t s i e ma mc mp ht r0 calls :
  mk_Registry t s i e ma mc mp ht = Ok r0 → wf (run calls r0).
Proof. apply run_wf. Qed.

(** Authentication is exact.  On any reachable registry a context
    authenticates precisely when the clock does not run backwards, the channel
    is bound to the very adapter, the context is the one registered for its
    agent on that channel, the agent is active with a recent heartbeat, the
    context is of the current policy epoch, and its chain of parents is live: each
    registered with the generation its child names, active, of the current
    epoch, without a cycle and within the depth limit.  It returns the context
    it was given. *)
Theorem authenticate_exact t s i e ma mc mp ht r0 calls now c ch a :
  mk_Registry t s i e ma mc mp ht = Ok r0 →
  let r := run calls r0 in
  (is_ok (snd (authenticate now c ch a r)) = true ↔ authentic r now c ch a)
  ∧ ∀ c', snd (authenticate now c ch a r) = Ok c' → c' = c.
Proof. intros H. apply authenticate_spec. by eapply run_wf. Qed.

(** C36: Revocation is final.  Once a context was replaced or removed, paused or
    ended, left behind by the policy epoch, or lost the incarnation of its parent,
    no later sequence of calls makes it authenticate again, on any channel, with
    any adapter and at any time. *)
Theorem revocation_final r c calls now ch a :
  wf r → revoked r c → is_ok (snd (authenticate now c ch a (run calls r))) = false.
Proof.
  intros Hwf Hrev. apply not_true_iff_false. intros Hok.
  apply authenticate_spec in Hok; [|eapply basics_wf; [apply run_basic|done]].
  eapply revoked_not_authentic; [|exact Hok]. eapply basics_revoked; [apply run_basic|done].
Qed.

(** The operations revoke what they should.  On a well-formed registry, for
    a registered context: a successful restart, refresh, rebinding to a new
    context, removal, or closing of its channel revokes it together with every
    context registered under its incarnation; a successful pause, end or advance
    of the policy epoch revokes it. *)
Theorem operations_revoke r c :
  wf r → registered r c →
  (∀ t ch a nch na s cov c', snd (restart dumps sha256 t c ch a nch na s cov r) = Ok c' →
     revokes_tree r (fst (restart dumps sha256 t c ch a nch na s cov r)) c)
  ∧ (∀ t ch a cov c', snd (refresh_policy_context dumps sha256 t c ch a cov r) = Ok c' →
     revokes_tree r (fst (refresh_policy_context dumps sha256 t c ch a cov r)) c)
  ∧ (∀ t ch a pc pch pa v g e c',
     snd (rebind_delegation dumps sha256 t c ch a pc pch pa v g e r) = Ok c' → c' ≠ c →
     revokes_tree r (fst (rebind_delegation dumps sha256 t c ch a pc pch pa v g e r)) c)
  ∧ (∀ ch a u, snd (forget_ended dumps sha256 c ch a r) = Ok u →
     revokes_tree r (fst (forget_ended dumps sha256 c ch a r)) c)
  ∧ (∀ ch a g u, snd (close_channel ch a r) = Ok u →
     _agents r !! agent_id (identity (ctx c)) = Some g → ag_channel g = ch →
     revokes_tree r (fst (close_channel ch a r)) c)
  ∧ (∀ t ch a u, snd (pause dumps sha256 t c ch a r) = Ok u →
     revoked (fst (pause dumps sha256 t c ch a r)) c)
  ∧ (∀ ch a u, snd (end_ dumps sha256 c ch a r) = Ok u →
     revoked (fst (end_ dumps sha256 c ch a r)) c)
  ∧ (∀ e u, snd (advance_policy_epoch e r) = Ok u →
     revoked (fst (advance_policy_epoch e r)) c).
Proof.
  intros Hwf Hreg. assert (good c r) as Hg by done.
  split; [intros; by eapply restart_revokes|].
  split; [intros; by eapply refresh_revokes|].
  split; [intros; by eapply rebind_revokes|].
  split; [intros; by eapply forget_revokes|].
  split; [intros; eapply close_revokes; eauto|].
  split; [intros; by eapply pause_revokes|].
  split; [intros; by eapply end_revokes|].
  intros; by eapply advance_revokes.
Qed.
End facts.

(** ** A concrete registry *)
Definition sample_dumps (j : json) : string := "{}".
Definition sample_sha256 (s : string) : string := s.
Definition sample_registry : Registry :=
  {| _tenant := "acme"; _swarm := "swarm"; _registry_id := "registry"; _policy_epoch := 0;
     _max_agents := 8; _max_channels := 4; _max_parent_depth := 2; _timeout := 30;
     _last_clock := 0; _generation := 0; _channels := ∅; _agents := ∅;
     fresh_ref := 1%positive |}.
Definition sample_adapter : adapter := Instance 7%positive.
Definition sample_channel : HostChannel :=
  {| ch_ref := 1%positive; ch_tenant_id := "acme"; ch_swarm_id := "swarm"; ch_runtime_id := "rt" |}.
Definition sample_agent (name : string) (generation : Z) (parent : option (string * Z))
    (object : ref) (clock : Z) : ContextObj :=
  {| ctx_ref := object;
     ctx := {| registry_id := "registry";
       identity := {| tenant_id := "acme"; swarm_id := "swarm"; agent_id := name;
         runtime_id := "rt"; session_id := "s1"; generation := generation; policy_epoch := 0;
         parent_agent_id := fst <$> parent; parent_generation := snd <$> parent;
         task_id := None; delegation_id := None |};
       coverage := uncovered; enrolled_at := clock |} |}.
Definition parent_context : ContextObj := sample_agent "planner" 1 None 2%positive 5.
Definition child_context : ContextObj := sample_agent "worker" 2 (Some ("planner", 1)) 3%positive 6.
Definition sample_calls : list call :=
  [BindChannel sample_adapter "rt";
   Enroll 5 sample_channel sample_adapter "planner" "s1" None None None uncovered;
   Enroll 6 sample_channel sample_adapter "worker" "s1" None (Some "planner") None uncovered].
Definition enrolled : Registry := run sample_dumps sample_sha256 sample_calls sample_registry.

Lemma child_authenticates :
  is_ok (snd (authenticate sample_dumps sample_sha256 7 child_context sample_channel sample_adapter
                enrolled)) = true.
Proof. by vm_compute. Qed.

Lemma sample_registry_made : mk_Registry "acme" "swarm" "registry" 0 8 4 2 30 = Ok sample_registry.
Proof. reflexivity. Qed.

Lemma enrolled_wf : wf sample_dumps sample_sha256 enrolled.
Proof. exact (run_wf _ _ _ _ _ _ _ _ _ _ _ _ sample_registry_made). Qed.

Lemma parent_registered : registered enrolled parent_context.
Proof. eexists. split; [vm_compute; reflexivity|reflexivity]. Qed.

Lemma registry_invariant_witness : wf sample_dumps sample_sha256 enrolled.
Proof. exact (registry_invariant sample_dumps sample_sha256 _ _ _ _ _ _ _ _ _ sample_calls
                sample_registry_made). Defined.

Lemma authenticate_exact_witness :
  authentic enrolled 7 child_context sample_channel sample_adapter.
Proof.
  apply (authenticate_exact sample_dumps sample_sha256 _ _ _ _ _ _ _ _ _ sample_calls 7
    child_context sample_channel sample_adapter sample_registry_made).
  vm_compute. reflexivity.
Defined.

Lemma operations_revoke_witness :
  revokes_tree enrolled
    (fst (restart sample_dumps sample_sha256 8 parent_context sample_channel sample_adapter
            sample_channel sample_adapter "s2" uncovered enrolled)) parent_context.
Proof.
  destruct (operations_revoke sample_dumps sample_sha256 enrolled parent_context enrolled_wf
    parent_registered) as [H _].
  apply (H 8 sample_channel sample_adapter sample_channel sample_adapter "s2" uncovered
    {| ctx_ref := 4%positive; ctx := {| registry_id := "registry";
       identity := {| tenant_id := "acme"; swarm_id := "swarm"; agent_id := "planner";
         runtime_id := "rt"; session_id := "s2"; generation := 3; policy_epoch := 0;
         parent_agent_id := None; parent_generation := None;
         task_id := None; delegation_id := None |};
       coverage := uncovered; enrolled_at := 8 |} |}).
  vm_compute. reflexivity.
Defined.

Definition restarted : Registry :=
  fst (restart sample_dumps sample_sha256 8 parent_context sample_channel sample_adapter
         sample_channel sample_adapter "s2" uncovered enrolled).

Lemma restarted_wf : wf sample_dumps sample_sha256 restarted.
Proof.
  refine (basics_wf _ _ _ _ (perform_basic sample_dumps sample_sha256
    (Restart 8 parent_context sample_channel sample_adapter sample_channel sample_adapter "s2"
       uncovered) enrolled) enrolled_wf).
Qed.

Lemma child_orphaned : revoked restarted child_context.
Proof.
  split; [vm_compute; reflexivity|].
  eapply (invalid_parent _ _ "planner" 1); [reflexivity|reflexivity|by vm_compute|].
  intros g Hg. vm_compute in Hg. injection Hg as <-. done.
Qed.

Lemma revocation_final_witness :
  is_ok (snd (authenticate sample_dumps sample_sha256 9 child_context sample_channel sample_adapter
    (run sample_dumps sample_sha256
       [Heartbeat 9 parent_context sample_channel sample_adapter; AdvanceEpoch 1] restarted)))
  = false.
Proof. exact (revocation_final _ _ _ _ _ _ _ _ restarted_wf child_orphaned). Defined.
