(* ===== verification/Budget.v ===== *)
(** * The budget ledger ([ordin/swarm/budgets.py], [ordin/swarm/budget_store.py])

    Quotas, reservations and their settlement over a transactional store.  The
    rows of the four SQL tables are maps and a list; a transaction commits when
    it returns and also when it is rejected with a [BudgetError], and rolls the
    rows back on any other error, among them a violated CHECK or UNIQUE
    constraint.  Clock readings, new identifiers and digests are inputs. *)
From stdpp Require Import base list strings gmap.
From Stdlib Require Import Bool Ascii ZArith Lia.
From S2P Require Import Prelude PyStr Json SwarmModels Registry.
#[local] Open Scope py_scope.
#[local] Open Scope Z_scope.

Definition METRICS : list string :=
  ["dollar_micros"; "tokens"; "external_operations"; "child_spawns"; "requests"; "concurrency";
   "output_bytes"; "destructive_actions"; "tool_calls"; "processes"].
Definition MAX_UNITS : Z := 10 ^ 12.

Definition _amount (value maximum : Z) : res unit :=
  guard_or ((0 <=? value) && (value <=? maximum)) (ValueError "invalid bounded budget quantity").

Record BudgetCost := { cost_metric : string; cost_amount : option Z }.
Definition BudgetCost_post_init (c : BudgetCost) : res unit :=
  _ ← guard_or (mem (cost_metric c) METRICS) (ValueError "unknown budget metric");
  match cost_amount c with Some a => _amount a MAX_UNITS | None => Ok tt end.

Record BudgetLimit := {
  scope : string;
  metric : string;
  maximum : Z;
  subject : option string;
  unknown_ceiling : option Z;
  unknown_effects : list string }.

Fixpoint all_identifiers (values : list string) (name : string) : res unit :=
  match values with
  | [] => Ok tt
  | v :: values' => _ ← identifier v name; all_identifiers values' name
  end.

Definition BudgetLimit_post_init (l : BudgetLimit) : res unit :=
  _ ← guard_or (mem (scope l) ["tenant"; "swarm"; "task"; "agent"])
        (ValueError "unknown budget scope");
  _ ← BudgetCost_post_init {| cost_metric := metric l; cost_amount := Some 0 |};
  _ ← _amount (maximum l) (10 ^ 15);
  _ ← opt_identifier (subject l) "budget_subject";
  _ ← guard_or (negb (mem (scope l) ["tenant"; "swarm"] && is_some (subject l)))
        (ValueError "tenant/swarm budgets derive identity from the protected registry");
  _ ← match unknown_ceiling l with
      | Some c =>
          _ ← _amount c MAX_UNITS;
          guard_or (negb ((c =? 0) || (maximum l <? c)))
            (ValueError "unknown cost ceiling exceeds operator maximum")
      | None => Ok tt
      end;
  _ ← guard_or (Nat.leb (length (unknown_effects l)) 64
                && bool_decide (NoDup (unknown_effects l)))
        (ValueError "bounded immutable unknown-cost effects required");
  all_identifiers (unknown_effects l) "unknown_effect".

Record BudgetPolicy := {
  bp_epoch : Z;
  limits : list BudgetLimit;
  reservation_lifetime : Z;
  max_reservations : Z;
  require_physical_enforcement : bool }.

Definition selector (l : BudgetLimit) : string * string * option string :=
  (scope l, metric l, subject l).
Definition BudgetPolicy_post_init (p : BudgetPolicy) : res unit :=
  _ ← counter (bp_epoch p) "budget_policy_epoch";
  _ ← guard_or (Nat.leb 1 (length (limits p)) && Nat.leb (length (limits p)) 64)
        (ValueError "bounded protected budget limits required");
  _ ← all_ok (map BudgetLimit_post_init (limits p));
  _ ← guard_or (bool_decide (NoDup (map selector (limits p))))
        (ValueError "duplicate budget limit selector");
  lifetime ← timestamp (reservation_lifetime p);
  guard_or ((0 <? lifetime) && (lifetime <=? 3600)
            && (1 <=? max_reservations p) && (max_reservations p <=? 16384))
    (ValueError "invalid bounded budget reservation policy").

Definition BudgetLimit_as_dict (l : BudgetLimit) : json :=
  JObj [("scope", JStr (scope l)); ("metric", JStr (metric l)); ("maximum", JInt (maximum l));
        ("subject", jstr (subject l)); ("unknown_ceiling", jint (unknown_ceiling l));
        ("unknown_effects", JArr (map JStr (unknown_effects l)))].

(** [_costs]: the dictionary of the costs. *)
Definition _costs (values : list BudgetCost) (observed : bool) : res (list (string * option Z)) :=
  _ ← guard_or (Nat.leb (length values) (length METRICS))
        (ValueError "bounded protected budget costs required");
  _ ← all_ok (map BudgetCost_post_init values);
  _ ← guard_or (bool_decide (NoDup (map cost_metric values))
                && negb (observed && existsb (λ v, negb (is_some (cost_amount v))) values))
        (ValueError "duplicate or unknown observed budget metric");
  Ok (map (λ v, (cost_metric v, cost_amount v)) values).

(** What the code uses of an [ActionEnvelope]: its JSON form and its id. *)
Record Action := { action_dict : json; action_id : option string }.

Record BudgetObservation := {
  ob_ref : ref;
  ob_reservation_id : string;
  ob_action_digest : string;
  ob_context_digest : string;
  ob_outcome : string;
  ob_costs : list BudgetCost }.
#[export] Instance BudgetCost_eq_dec : EqDecision BudgetCost.
Proof. solve_decision. Defined.
#[export] Instance BudgetObservation_eq_dec : EqDecision BudgetObservation.
Proof. solve_decision. Defined.

(** A ticket is an object that carries the id of its reservation. *)
Record BudgetTicket := { ticket_ref : ref; ticket_id : string }.
#[export] Instance BudgetTicket_eq_dec : EqDecision BudgetTicket.
Proof. solve_decision. Defined.

(** ** Rows *)

Record Meta := {
  m_policy_digest : string;
  m_epoch : Z;
  m_generation : Z;
  m_nonce : string;
  m_last_now : Z }.
Record BucketRow := {
  b_metric : string;
  held : Z;
  consumed : Z;
  b_observed : Z;
  observations : Z;
  blocked_epoch : Z }.
Record ReservationRow := {
  idempotency_digest : string;
  context_digest : string;
  action_digest : string;
  costs_digest : string;
  row_epoch : Z;
  row_generation : Z;
  status : string;
  expires_at : Z;
  settlement_digest : option string }.
Record ItemRow := {
  item_reservation : string;
  item_bucket : string;
  item_metric : string;
  item_amount : Z }.

Record DB := {
  meta : option Meta;
  buckets : gmap string BucketRow;
  reservations : gmap string ReservationRow;
  items : list ItemRow }.
Definition empty_db : DB := {| meta := None; buckets := ∅; reservations := ∅; items := [] |}.

Definition _ACTIVE : list string := ["reserved"; "forwarding"; "uncertain"].

Record _Binding := {
  b_ticket : BudgetTicket;
  b_registry : ref;
  b_context_digest : string;
  b_action_digest : string;
  b_generation : Z }.

(** The live part of a ledger, and the rows. *)
Record World := {
  db : DB;
  _issued : gmap string _Binding;
  _clock_state : Z;
  next_ticket : ref }.

(** ** The monad of ledger operations *)

Inductive raised := BudgetError (reason_code : string) | Raised (e : exn).
Definition L (A : Type) : Type := World → World * (A + raised).
#[export] Instance L_ret : MRet L := λ A x w, (w, inl x).
#[export] Instance L_bind : MBind L := λ A B f m w,
  match m w with
  | (w', inl x) => f x w'
  | (w', inr e) => (w', inr e)
  end.
Definition fail {A} (e : raised) : L A := λ w, (w, inr e).
Definition reject_unless (c : bool) (reason : string) : L unit :=
  if c then mret tt else fail (BudgetError reason).
Definition of_res {A} (x : res A) : L A :=
  match x with Ok v => mret v | Err e => fail (Raised e) end.
Definition get {A} (f : World → A) : L A := λ w, (w, inl (f w)).
Definition put_db (d : DB) : L unit :=
  λ w, ({| db := d; _issued := _issued w; _clock_state := _clock_state w;
           next_ticket := next_ticket w |}, inl tt).
Definition set_clock (now : Z) : L unit :=
  λ w, ({| db := db w; _issued := _issued w; _clock_state := now;
           next_ticket := next_ticket w |}, inl tt).

(** [with store.transaction()]: only a rejection keeps the rows it wrote.  An
    error keeps its text, as with the store in memory; the store in a file
    replaces that of any [ValueError] and [OSError] by the one of [corrupt]. *)
Definition transaction {A} (m : L A) : L A := λ w,
  match m w with
  | (w', inr (Raised e)) =>
      ({| db := db w; _issued := _issued w'; _clock_state := _clock_state w';
          next_ticket := next_ticket w' |}, inr (Raised e))
  | result => result
  end.

Definition corrupt : raised := Raised (ValueError "budget transaction unavailable or corrupt").
Definition check_constraint (c : bool) : L unit := if c then mret tt else fail corrupt.

Definition with_meta (m : Meta) (d : DB) : DB :=
  {| meta := Some m; buckets := buckets d; reservations := reservations d; items := items d |}.
Definition with_buckets (b : gmap string BucketRow) (d : DB) : DB :=
  {| meta := meta d; buckets := b; reservations := reservations d; items := items d |}.
Definition with_reservations (r : gmap string ReservationRow) (d : DB) : DB :=
  {| meta := meta d; buckets := buckets d; reservations := r; items := items d |}.
Definition with_items (l : list ItemRow) (d : DB) : DB :=
  {| meta := meta d; buckets := buckets d; reservations := reservations d; items := l |}.

(** The CHECK constraints of [budget_buckets]. *)
Definition bucket_ok (b : BucketRow) : bool :=
  (0 <=? held b) && (0 <=? consumed b) && (0 <=? b_observed b) && (0 <=? observations b).

(** [UPDATE budget_buckets SET ... WHERE bucket=?]. *)
Definition update_bucket (key : string) (f : BucketRow → BucketRow) : L unit :=
  d ← get db;
  match buckets d !! key with
  | None => mret tt
  | Some b => _ ← check_constraint (bucket_ok (f b));
              put_db (with_buckets (<[key := f b]> (buckets d)) d)
  end.
Definition add_held (amount : Z) (b : BucketRow) : BucketRow :=
  {| b_metric := b_metric b; held := held b + amount; consumed := consumed b;
     b_observed := b_observed b; observations := observations b;
     blocked_epoch := blocked_epoch b |}.
Definition block (epoch : Z) (b : BucketRow) : BucketRow :=
  {| b_metric := b_metric b; held := held b; consumed := consumed b;
     b_observed := b_observed b; observations := observations b; blocked_epoch := epoch |}.
Definition charge_bucket (held_by consumed_by observed_by observations_by : Z) (b : BucketRow)
  : BucketRow :=
  {| b_metric := b_metric b; held := held b - held_by; consumed := consumed b + consumed_by;
     b_observed := b_observed b + observed_by; observations := observations b + observations_by;
     blocked_epoch := blocked_epoch b |}.

(** [UPDATE budget_reservations SET status=?, settlement_digest=?]. *)
Definition set_status (s : string) (r : ReservationRow) : ReservationRow :=
  {| idempotency_digest := idempotency_digest r; context_digest := context_digest r;
     action_digest := action_digest r; costs_digest := costs_digest r; row_epoch := row_epoch r;
     row_generation := row_generation r; status := s; expires_at := expires_at r;
     settlement_digest := settlement_digest r |}.
Definition settle_row (s : string) (digest : option string) (r : ReservationRow) : ReservationRow :=
  {| idempotency_digest := idempotency_digest r; context_digest := context_digest r;
     action_digest := action_digest r; costs_digest := costs_digest r; row_epoch := row_epoch r;
     row_generation := row_generation r; status := s; expires_at := expires_at r;
     settlement_digest := digest |}.
Definition update_reservation (id : string) (f : ReservationRow → ReservationRow) : L unit :=
  d ← get db; put_db (with_reservations (alter f id (reservations d)) d).

(** [SELECT * FROM budget_items WHERE reservation_id=?], in the order of
    insertion, which the query leaves open. *)
Definition items_of (id : string) (d : DB) : list ItemRow :=
  filter (λ i, item_reservation i = id) (items d).

Fixpoint for_all {A} (l : list A) (body : A → L unit) : L unit :=
  match l with
  | [] => mret tt
  | x :: l' => _ ← body x; for_all l' body
  end.

Definition _release (id new_status : string) : L unit :=
  d ← get db;
  _ ← for_all (items_of id d)
        (λ item, update_bucket (item_bucket item) (add_held (- item_amount item)));
  update_reservation id (set_status new_status).

(** The ids of the reservations that a condition selects. *)
Definition select_ids (f : ReservationRow → bool) (d : DB) : list string :=
  map fst (filter (λ kv, f kv.2 = true) (map_to_list (reservations d))).

Definition _expire (now : Z) : L nat :=
  d ← get db;
  let rows := select_ids (λ r, (status r =s "reserved") && (expires_at r <=? now)) d in
  _ ← for_all rows (λ id, _release id "expired");
  mret (length rows).

(** ** Buckets of a context *)

Record Scopes := {
  sc_tenant : list string;
  sc_swarm : list string;
  sc_task : list string;
  sc_agent : list string }.
Definition scope_subjects (s : Scopes) (scope : string) : list string :=
  if scope =s "tenant" then sc_tenant s else if scope =s "swarm" then sc_swarm s
  else if scope =s "task" then sc_task s else sc_agent s.

(** The live ancestors of an identity, nearest first. *)
Fixpoint ancestors (r : Registry) (depth : nat) (i : SwarmIdentity) : list SwarmIdentity :=
  match depth, parent_agent_id i with
  | S depth', Some p =>
      match _agents r !! p with
      | Some g => let parent := identity (ctx (ag_context g)) in
                  parent :: ancestors r depth' parent
      | None => []
      end
  | _, _ => []
  end.
(** The authenticated context's own and inherited identities. *)
Definition scopes_of (r : Registry) (i : SwarmIdentity) : Scopes :=
  let line := i :: ancestors r (_max_parent_depth r) i in
  {| sc_tenant := [tenant_id i]; sc_swarm := [swarm_id i];
     sc_task := dedup_by id (omap task_id line); sc_agent := map agent_id line |}.
(** [_scopes]: authentication by the registry at its own clock reading. *)
Definition _scopes (dumps : json → string) (sha256 : string → string) (p : BudgetPolicy)
    (clock : Z) (context : ContextObj) (channel : HostChannel) (a : adapter)
  : M (Scopes + raised) :=
  _ ← authenticate dumps sha256 clock context channel a;
  reads (λ r, Ok (let i := identity (ctx context) in
                  if policy_epoch i =? bp_epoch p then inl (scopes_of r i)
                  else inr (BudgetError "budget.stale_policy_epoch"))).

Record _Bucket := { key : string; b_limits : list BudgetLimit }.
Definition bucket_metric (b : _Bucket) : string :=
  match b_limits b with l :: _ => metric l | [] => EmptyString end.
(** [min(v.maximum for v in self.limits)]; no bucket is without a limit. *)
Definition bucket_maximum (b : _Bucket) : Z :=
  match b_limits b with
  | [] => 0
  | l :: rest => foldl (λ m l, Z.min m (maximum l)) (maximum l) rest
  end.

(** [result.setdefault(key, []).append(limit)]. *)
Fixpoint add_limit (k : string) (l : BudgetLimit) (result : list _Bucket) : list _Bucket :=
  match result with
  | [] => [{| key := k; b_limits := [l] |}]
  | b :: result' =>
      if key b =s k then {| key := k; b_limits := b_limits b ++ [l] |} :: result'
      else b :: add_limit k l result'
  end.

Section ledger.
Context (digest : json → string).

Definition BudgetPolicy_digest (p : BudgetPolicy) : string :=
  digest (JObj [("epoch", JInt (bp_epoch p));
                ("limits", JArr (map BudgetLimit_as_dict (limits p)));
                ("lifetime", JInt (reservation_lifetime p));
                ("capacity", JInt (max_reservations p));
                ("require_physical_enforcement", JBool (require_physical_enforcement p))]).

Definition _observation_digest (o : BudgetObservation) : string :=
  digest (JObj [("id", JStr (ob_reservation_id o)); ("action", JStr (ob_action_digest o));
                ("context", JStr (ob_context_digest o)); ("outcome", JStr (ob_outcome o));
                ("costs", JArr (map (λ v, JArr [JStr (cost_metric v); jint (cost_amount v)])
                                    (ob_costs o)))]).

Definition bucket_key (l : BudgetLimit) (i : SwarmIdentity) (subject : string) : string :=
  digest (JArr (map JStr
    (["ordin.swarm.budget.bucket.v1"; scope l; metric l; tenant_id i]
     ++ (if scope l =s "tenant" then [] else [swarm_id i])
     ++ (if mem (scope l) ["agent"; "task"] then [subject] else [])))).

(** The subjects of a limit, in the order of the scope. *)
Definition selected_subjects (l : BudgetLimit) (scopes : Scopes) : list string :=
  List.filter (λ s, match subject l with Some x => x =s s | None => true end)
    (scope_subjects scopes (scope l)).
Fixpoint collect_buckets (limits : list BudgetLimit) (i : SwarmIdentity) (scopes : Scopes)
    (result : list _Bucket) : list _Bucket + raised :=
  match limits with
  | [] => inl result
  | l :: limits' =>
      if (scope l =s "task") && bool_decide (sc_task scopes = [])
      then inr (BudgetError "budget.missing_task_identity")
      else collect_buckets limits' i scopes
             (foldl (λ acc s, add_limit (bucket_key l i s) l acc) result
                (selected_subjects l scopes))
  end.
Definition _select_budget_buckets (p : BudgetPolicy) (i : SwarmIdentity) (scopes : Scopes)
  : L (list _Bucket) :=
  match collect_buckets (limits p) i scopes [] with
  | inr e => fail e
  | inl result =>
      _ ← reject_unless (negb (bool_decide (result = [])) && Nat.leb (length result) 128)
            "budget.missing_or_oversized_scope";
      mret result
  end.

(** ** Costs *)

Definition at_least_one (value : option (option Z)) : option Z :=
  match value with Some (Some v) => Some (Z.max 1 v) | _ => Some 1 end.
Definition disjoint_effects (l : BudgetLimit) (effects : list string) : bool :=
  negb (existsb (λ e, mem e effects) (unknown_effects l)).
Definition unbounded (effects : list string) (l : BudgetLimit) : bool :=
  negb (is_some (unknown_ceiling l))
  || (negb (bool_decide (unknown_effects l = [])) && disjoint_effects l effects).
Definition limits_on (buckets : list _Bucket) (m : string) : list BudgetLimit :=
  List.filter (λ l, metric l =s m) (flat_map b_limits buckets).
Definition resolve_metric (buckets : list _Bucket) (effects : list string)
    (resolved : list (string * option Z)) (m : string) : L (list (string * option Z)) :=
  match dict_get m resolved with
  | Some (Some _) => mret resolved
  | _ =>
      let selected := limits_on buckets m in
      _ ← reject_unless (negb (existsb (unbounded effects) selected)) "budget.unknown_cost";
      mret (dict_set m (Some (foldl (λ a l, Z.max a (default 0 (unknown_ceiling l))) 0 selected))
              resolved)
  end.
Fixpoint resolve_metrics (buckets : list _Bucket) (effects : list string) (metrics : list string)
    (resolved : list (string * option Z)) : L (list (string * option Z)) :=
  match metrics with
  | [] => mret resolved
  | m :: metrics' =>
      resolved ← resolve_metric buckets effects resolved m;
      resolve_metrics buckets effects metrics' resolved
  end.
Definition bucket_metrics (buckets : list _Bucket) : list string :=
  sorted_set (map bucket_metric buckets).
Definition _resolve_budget_costs (buckets : list _Bucket) (costs : list BudgetCost)
    (effects : list string) : L (list (string * option Z) * list (string * option Z)) :=
  values ← of_res (_costs costs false);
  let values := dict_set "requests" (at_least_one (dict_get "requests" values)) values in
  let values := dict_set "concurrency" (at_least_one (dict_get "concurrency" values)) values in
  resolved ← resolve_metrics buckets effects (bucket_metrics buckets) values;
  mret (values, resolved).

(** ** Operations *)

Record Ledger := {
  l_registry : ref;
  policy : BudgetPolicy;
  l_generation : Z;
  l_nonce : string;
  observation_source : option (list (BudgetObservation * string)) }.

Definition _meta (l : Ledger) (clock : Z) : L Z :=
  m ← get (λ w, meta (db w));
  match m with
  | None => fail (BudgetError "budget.coordinator_fenced")
  | Some m =>
      _ ← reject_unless ((m_generation m =? l_generation l) && (m_nonce m =s l_nonce l)
                         && (m_policy_digest m =s BudgetPolicy_digest (policy l)))
            "budget.coordinator_fenced";
      now ← of_res (timestamp clock);
      seen ← get _clock_state;
      _ ← reject_unless (negb (now <? Z.max (m_last_now m) seen)) "budget.clock_moved_backward";
      _ ← set_clock now;
      d ← get db;
      _ ← put_db (with_meta {| m_policy_digest := m_policy_digest m; m_epoch := m_epoch m;
                               m_generation := m_generation m; m_nonce := m_nonce m;
                               m_last_now := now |} d);
      mret now
  end.

(** One charge of a reservation: the checks against the row of its bucket. *)
Definition charge_for (p : BudgetPolicy) (resolved : list (string * option Z)) (d : DB)
    (b : _Bucket) : L (string * string * Z) :=
  match dict_get (bucket_metric b) resolved with
  | Some (Some amount) =>
      let state := buckets d !! key b in
      let '(h, c) := match state with Some s => (held s, consumed s) | None => (0, 0) end in
      _ ← reject_unless (match state with
                         | Some s => negb (bp_epoch p <=? blocked_epoch s)
                         | None => true
                         end) "budget.observed_cost_exceeded_bound";
      _ ← reject_unless (negb (bucket_maximum b <? h + c + amount)) "budget.limit_exceeded";
      mret (key b, bucket_metric b, amount)
  | _ => fail (Raised (AssertionError "resolved budget cost missing"))
  end.
Fixpoint charges_for (p : BudgetPolicy) (resolved : list (string * option Z)) (d : DB)
    (bs : list _Bucket) : L (list (string * string * Z)) :=
  match bs with
  | [] => mret []
  | b :: bs' => c ← charge_for p resolved d b; cs ← charges_for p resolved d bs'; mret (c :: cs)
  end.

Definition insert_bucket (k m : string) : L unit :=
  d ← get db;
  match buckets d !! k with
  | Some _ => mret tt
  | None => put_db (with_buckets (<[k := {| b_metric := m; held := 0; consumed := 0;
              b_observed := 0; observations := 0; blocked_epoch := -1 |}]> (buckets d)) d)
  end.
Definition insert_item (i : ItemRow) : L unit :=
  d ← get db;
  _ ← check_constraint ((0 <=? item_amount i)
        && negb (existsb (λ j, (item_reservation j =s item_reservation i)
                               && (item_bucket j =s item_bucket i)) (items d)));
  put_db (with_items (items d ++ [i]) d).
Definition hold (reservation_id : string) (c : string * string * Z) : L unit :=
  let '(k, m, amount) := c in
  _ ← insert_bucket k m;
  _ ← update_bucket k (add_held amount);
  insert_item {| item_reservation := reservation_id; item_bucket := k; item_metric := m;
                 item_amount := amount |}.

Definition insert_reservation (id : string) (row : ReservationRow) : L unit :=
  d ← get db;
  _ ← check_constraint (negb (is_some (reservations d !! id))
        && negb (existsb (λ kv, idempotency_digest kv.2 =s idempotency_digest row)
                         (map_to_list (reservations d))));
  put_db (with_reservations (<[id := row]> (reservations d)) d).

(** [SELECT * FROM budget_reservations WHERE idempotency_digest=?]. *)
Definition find_key (k : string) (d : DB) : option (string * ReservationRow) :=
  List.find (λ kv, idempotency_digest kv.2 =s k) (map_to_list (reservations d)).

Definition new_ticket (id : string) : L BudgetTicket :=
  λ w, ({| db := db w; _issued := _issued w; _clock_state := _clock_state w;
           next_ticket := Pos.succ (next_ticket w) |},
        inl {| ticket_ref := next_ticket w; ticket_id := id |}).
Definition publish (b : _Binding) : L unit :=
  λ w, ({| db := db w; _issued := <[ticket_id (b_ticket b) := b]> (_issued w);
           _clock_state := _clock_state w; next_ticket := next_ticket w |}, inl tt).

(** What [reserve] computes before its transaction. *)
Record Request := {
  rq_context : SwarmContext;
  rq_action : Action;
  idempotency_key : string;
  rq_costs : list BudgetCost;
  rq_effects : list string }.

Definition costs_json (values : list (string * option Z)) : json :=
  JObj (map (λ kv, (kv.1, jint kv.2)) values).

(** The transaction of [reserve]: the ticket, and the binding to publish. *)
Definition reserve_transaction (l : Ledger) (clock : Z) (reservation_id : string)
    (bs : list _Bucket) (resolved : list (string * option Z))
    (ctx_digest act_digest k cost_digest : string) : L (BudgetTicket * option _Binding) :=
  now ← _meta l clock;
  _ ← _expire now;
  d ← get db;
  match find_key k d with
  | Some (previous_id, previous) =>
      binding ← get (λ w, _issued w !! previous_id);
      match binding with
      | None => fail (BudgetError "budget.idempotency_conflict_or_consumed")
      | Some b =>
          _ ← reject_unless ((status previous =s "reserved")
                && (context_digest previous =s ctx_digest)
                && (action_digest previous =s act_digest)
                && (costs_digest previous =s cost_digest))
                "budget.idempotency_conflict_or_consumed";
          mret (b_ticket b, None)
      end
  | None =>
      _ ← reject_unless (negb (max_reservations (policy l) <=? Z.of_nat (size (reservations d))))
            "budget.history_capacity_reached";
      charges ← charges_for (policy l) resolved d bs;
      _ ← insert_reservation reservation_id
            {| idempotency_digest := k; context_digest := ctx_digest; action_digest := act_digest;
               costs_digest := cost_digest; row_epoch := bp_epoch (policy l);
               row_generation := l_generation l; status := "reserved";
               expires_at := now + reservation_lifetime (policy l); settlement_digest := None |};
      _ ← for_all charges (hold reservation_id);
      ticket ← new_ticket reservation_id;
      mret (ticket, Some {| b_ticket := ticket; b_registry := l_registry l;
                            b_context_digest := ctx_digest;
                            b_action_digest := act_digest; b_generation := l_generation l |})
  end.

(** [reserve] once [_scopes] has authenticated the context; [proof_ok] is the
    answer of the executor under physical enforcement, [reservation_id] the new
    [uuid4().hex]. *)
Definition reserve (l : Ledger) (clock : Z) (reservation_id : string) (scopes : Scopes)
    (r : Request) (proof_ok : bool) : L BudgetTicket :=
  _ ← of_res (identifier (idempotency_key r) "idempotency_key");
  _ ← of_res (guard_or (is_some (action_id (rq_action r)))
        (ValueError "budget reservation requires an exact host-correlated action"));
  _ ← of_res (guard_or (Nat.leb (length (rq_effects r)) 64)
        (ValueError "bounded protected action effects required"));
  _ ← of_res (all_identifiers (rq_effects r) "effect");
  let i := identity (rq_context r) in
  bs ← _select_budget_buckets (policy l) i scopes;
  '(values, resolved) ← _resolve_budget_costs bs (rq_costs r) (rq_effects r);
  _ ← reject_unless (negb (require_physical_enforcement (policy l)) || proof_ok)
        "budget.physical_enforcement_unavailable";
  let k := digest (JArr [JStr (tenant_id i); JStr (idempotency_key r)]) in
  let cost_digest := digest (JObj [("costs", costs_json values);
                                   ("effects", JArr (map JStr (rq_effects r)))]) in
  '(ticket, staged) ← transaction (reserve_transaction l clock reservation_id bs resolved
      (digest (SwarmContext_as_dict (rq_context r))) (digest (action_dict (rq_action r)))
      k cost_digest);
  match staged with
  | Some b => _ ← publish b; mret ticket
  | None => mret ticket
  end.

Definition _ticket (l : Ledger) (t : BudgetTicket) : L ReservationRow :=
  binding ← get (λ w, _issued w !! ticket_id t);
  match binding with
  | None => fail (BudgetError "budget.original_ticket_required")
  | Some b =>
      _ ← reject_unless (bool_decide (b_ticket b = t) && bool_decide (b_registry b = l_registry l))
            "budget.original_ticket_required";
      row ← get (λ w, reservations (db w) !! ticket_id t);
      match row with
      | None => fail (BudgetError "budget.stale_ticket")
      | Some row =>
          _ ← reject_unless ((row_generation row =? l_generation l)
                && (action_digest row =s b_action_digest b)
                && (context_digest row =s b_context_digest b)) "budget.stale_ticket";
          mret row
      end
  end.

Definition begin_forward (l : Ledger) (clock : Z) (t : BudgetTicket) (context : SwarmContext)
    (a : Action) (proof_ok : bool) : L unit :=
  _ ← reject_unless (negb (require_physical_enforcement (policy l)) || proof_ok)
        "budget.physical_enforcement_unavailable";
  transaction (
    now ← _meta l clock;
    _ ← _expire now;
    row ← _ticket l t;
    _ ← reject_unless ((status row =s "reserved") && negb (expires_at row <=? now)
          && (context_digest row =s digest (SwarmContext_as_dict context))
          && (action_digest row =s digest (action_dict a))
          && (policy_epoch (identity context) =? bp_epoch (policy l)))
          "budget.forward_binding_or_state_invalid";
    update_reservation (ticket_id t) (set_status "forwarding")).

Definition cancel (l : Ledger) (clock : Z) (t : BudgetTicket) : L unit :=
  transaction (
    _ ← _meta l clock;
    row ← _ticket l t;
    if mem (status row) ["canceled"; "expired"] then mret tt
    else _ ← reject_unless (status row =s "reserved")
               "budget.forwarded_reservation_requires_reconciliation";
         _release (ticket_id t) "canceled").

Definition expire (l : Ledger) (clock : Z) : L nat :=
  transaction (now ← _meta l clock; _expire now).

Definition uncertain (l : Ledger) (clock : Z) (t : BudgetTicket) : L unit :=
  transaction (
    _ ← _meta l clock;
    row ← _ticket l t;
    if status row =s "uncertain" then mret tt
    else _ ← reject_unless (status row =s "forwarding") "budget.uncertain_requires_forwarding";
         update_reservation (ticket_id t) (set_status "uncertain")).

(** [BudgetObservationSource.verify]. *)
Definition verify (issued : list (BudgetObservation * string)) (o : BudgetObservation) : bool :=
  match List.find (λ p, bool_decide (p.1 = o)) issued with
  | Some (_, expected) => expected =s _observation_digest o
  | None => false
  end.

(** The settlement of one item, with the status so far. *)
Definition settle_item (l : Ledger) (observed : list (string * option Z)) (late : bool)
    (acc : string) (item : ItemRow) : L string :=
  let concurrency := item_metric item =s "concurrency" in
  let value := match dict_get (item_metric item) observed with Some v => v | None => None end in
  let charge := if concurrency || (acc =s "released") then 0
                else match value with Some v => v | None => item_amount item end in
  let over := match value with Some v => item_amount item <? v | None => false end in
  _ ← (if over then update_bucket (item_bucket item) (block (bp_epoch (policy l))) else mret tt);
  _ ← update_bucket (item_bucket item)
        (charge_bucket (if late then 0 else item_amount item)
           (if late then charge - (if concurrency then 0 else item_amount item) else charge)
           (match value with Some v => if concurrency then 0 else v | None => 0 end)
           (if is_some value then 1 else 0));
  mret (if over then "overrun" else acc).
Fixpoint settle_items (l : Ledger) (observed : list (string * option Z)) (late : bool)
    (acc : string) (its : list ItemRow) : L string :=
  match its with
  | [] => mret acc
  | item :: its' =>
      acc ← settle_item l observed late acc item;
      settle_items l observed late acc its'
  end.

(** The checks of [_settle] on the observation: its costs and its digest. *)
Definition settlement_of (l : Ledger) (id : string) (row : ReservationRow)
    (o : option BudgetObservation) : L (list (string * option Z) * option string) :=
  match o with
  | None => mret ([], None)
  | Some o =>
      _ ← reject_unless (match observation_source l with Some s => verify s o | None => false end
            && (ob_reservation_id o =s id) && (ob_action_digest o =s action_digest row)
            && (ob_context_digest o =s context_digest row))
            "budget.original_bound_settlement_required";
      observed ← of_res (_costs (ob_costs o) true);
      mret (observed, Some (_observation_digest o))
  end.

Definition same_metrics (observed : list (string * option Z)) (its : list ItemRow) : bool :=
  forallb (λ m, mem m (map item_metric its)) (map fst observed)
  && forallb (λ m, mem m (map fst observed)) (map item_metric its).

Definition _settle (l : Ledger) (id : string) (row : ReservationRow)
    (o : option BudgetObservation) : L string :=
  '(observed, new_digest) ← settlement_of l id row o;
  d ← get db;
  let its := items_of id d in
  _ ← reject_unless (negb (is_some o) || same_metrics observed its)
        "budget.settlement_metric_coverage_mismatch";
  let late := (status row =s "committed") && negb (is_some (settlement_digest row))
              && is_some o in
  if mem (status row) ["committed"; "released"; "overrun"] && negb late then
    _ ← reject_unless (negb (is_some o) || bool_decide (settlement_digest row = new_digest))
          "budget.conflicting_settlement";
    mret (status row)
  else
    _ ← reject_unless (mem (status row) ["forwarding"; "uncertain"] || late)
          "budget.settlement_requires_forwarding";
    let start := match o with
                 | Some o => if ob_outcome o =s "no_effect" then "released" else "committed"
                 | None => "committed"
                 end in
    final ← settle_items l observed late start its;
    _ ← update_reservation id (settle_row final new_digest);
    mret final.

Definition commit (l : Ledger) (clock : Z) (t : BudgetTicket) (o : option BudgetObservation)
  : L string :=
  transaction (_ ← _meta l clock; row ← _ticket l t; _settle l (ticket_id t) row o).

(** [reconcile]; [is_operator] tells whether the caller is the operator. *)
Definition reconcile (l : Ledger) (clock : Z) (id : string) (is_operator : bool)
    (o : BudgetObservation) : L string :=
  _ ← reject_unless is_operator "budget.protected_operator_required";
  _ ← of_res (identifier id "reservation_id");
  transaction (
    _ ← _meta l clock;
    row ← get (λ w, reservations (db w) !! id);
    match row with
    | None => fail (BudgetError "budget.unknown_reservation")
    | Some row => _settle l id row (Some o)
    end).

(** [BudgetLedger(...)] over existing rows or an empty store: the generation of
    the new ledger. *)
Definition start (p : BudgetPolicy) (clock : Z) (nonce : string) : L Z :=
  now ← of_res (timestamp clock);
  _ ← (λ w, ({| db := db w; _issued := ∅; _clock_state := now;
                next_ticket := next_ticket w |}, inl tt));
  transaction (
    m ← get (λ w, meta (db w));
    generation ← match m with
      | None => mret 1
      | Some m =>
          _ ← reject_unless (negb ((now <? m_last_now m) || (bp_epoch p <? m_epoch m)
                || ((bp_epoch p =? m_epoch m)
                    && negb (BudgetPolicy_digest p =s m_policy_digest m))))
                "budget.recovery_policy_or_clock_mismatch";
          _ ← of_res (counter (m_generation m + 1) "budget_generation");
          d ← get db;
          _ ← for_all (select_ids (λ r, status r =s "reserved") d) (λ id, _release id "canceled");
          d ← get db;
          _ ← put_db (with_reservations
                ((λ r, if status r =s "forwarding" then set_status "uncertain" r else r)
                   <$> reservations d) d);
          mret (m_generation m + 1)
      end;
    d ← get db;
    _ ← put_db (with_meta {| m_policy_digest := BudgetPolicy_digest p; m_epoch := bp_epoch p;
                             m_generation := generation; m_nonce := nonce; m_last_now := now |} d);
    mret generation).

(** ** Any call of any ledger over the store *)

Inductive call :=
| Start (p : BudgetPolicy) (clock : Z) (nonce : string)
| Reserve (l : Ledger) (clock : Z) (reservation_id : string) (scopes : Scopes) (r : Request)
    (proof_ok : bool)
| BeginForward (l : Ledger) (clock : Z) (t : BudgetTicket) (context : SwarmContext) (a : Action)
    (proof_ok : bool)
| Cancel (l : Ledger) (clock : Z) (t : BudgetTicket)
| Expire (l : Ledger) (clock : Z)
| Uncertain (l : Ledger) (clock : Z) (t : BudgetTicket)
| Commit (l : Ledger) (clock : Z) (t : BudgetTicket) (o : option BudgetObservation)
| Reconcile (l : Ledger) (clock : Z) (id : string) (is_operator : bool) (o : BudgetObservation).

(** The outcome of a call, without its value. *)
Definition outcome {A} (x : World * (A + raised)) : World * option raised :=
  (x.1, match x.2 with inl _ => None | inr e => Some e end).
Definition perform (c : call) (w : World) : World * option raised :=
  match c with
  | Start p t n => outcome (start p t n w)
  | Reserve l t id s r ok => outcome (reserve l t id s r ok w)
  | BeginForward l t k c a ok => outcome (begin_forward l t k c a ok w)
  | Cancel l t k => outcome (cancel l t k w)
  | Expire l t => outcome (expire l t w)
  | Uncertain l t k => outcome (uncertain l t k w)
  | Commit l t k o => outcome (commit l t k o w)
  | Reconcile l t id op o => outcome (reconcile l t id op o w)
  end.
Definition ledger_of (c : call) : option Ledger :=
  match c with
  | Start _ _ _ => None
  | Reserve l _ _ _ _ _ | BeginForward l _ _ _ _ _ | Cancel l _ _ | Expire l _
  | Uncertain l _ _ | Commit l _ _ _ | Reconcile l _ _ _ _ => Some l
  end.
End ledger.
