(* ===== verification/BudgetFacts.v ===== *)
(** * Theorems about the budget ledger ([ordin/swarm/budgets.py])

    The rows stay balanced, limits are kept, reservations follow their life
    cycle and restarts fence older ledgers, for every sequence of operations. *)
From stdpp Require Import base list strings gmap relations.
From Stdlib Require Import Bool Ascii ZArith Lia.
From S2P Require Import Prelude PyStr Json SwarmModels Registry Budget.
#[local] Open Scope py_scope.
#[local] Open Scope Z_scope.

(** ** Sums over items *)

(** The sum of [f] over the items of a bucket. *)
Definition sum_at (f : ItemRow → Z) (l : list ItemRow) (k : string) : Z :=
  foldr (λ i acc, (if decide (item_bucket i = k) then f i else 0) + acc) 0 l.

Lemma sum_at_app f l l' k : sum_at f (l ++ l') k = sum_at f l k + sum_at f l' k.
Proof. induction l as [|i l IH]; cbn; [done|]. unfold sum_at in *. rewrite IH. lia. Qed.

Lemma sum_at_nonneg f l k : (∀ i, i ∈ l → 0 <= f i) → 0 <= sum_at f l k.
Proof.
  induction l as [|i l IH]; intros H; cbn; [done|].
  assert (0 <= f i) by (apply H; left). assert (0 <= sum_at f l k) by (apply IH; set_solver).
  unfold sum_at in *. case_decide; lia.
Qed.

Lemma sum_at_ext f g l k :
  (∀ i, i ∈ l → item_bucket i = k → f i = g i) → sum_at f l k = sum_at g l k.
Proof.
  induction l as [|i l IH]; intros H; cbn; [done|].
  assert (sum_at f l k = sum_at g l k) as E by (apply IH; set_solver).
  unfold sum_at in *. case_decide; [rewrite (H i); [lia|left|done]|lia].
Qed.

Lemma sum_at_le f g l k : (∀ i, i ∈ l → f i <= g i) → sum_at f l k <= sum_at g l k.
Proof.
  induction l as [|i l IH]; intros H; cbn; [done|].
  assert (f i <= g i) by (apply H; left).
  assert (sum_at f l k <= sum_at g l k) by (apply IH; set_solver).
  unfold sum_at in *. case_decide; lia.
Qed.

Lemma sum_at_zero l k : sum_at (λ _, 0) l k = 0.
Proof. induction l as [|i l IH]; cbn; [done|]. unfold sum_at in IH. rewrite IH. by case_decide. Qed.

(** The items of one reservation and the others. *)
Lemma sum_at_split f (P : ItemRow → Prop) `{!∀ i, Decision (P i)} l k :
  sum_at f l k = sum_at f (filter P l) k + sum_at f (filter (λ i, ¬ P i) l) k.
Proof.
  induction l as [|i l IH]; [done|]. rewrite !filter_cons.
  destruct (decide (P i)); [rewrite decide_False by tauto|rewrite decide_True by done];
    cbn; unfold sum_at in *; lia.
Qed.

Lemma sum_at_absent f l k : (∀ i, i ∈ l → item_bucket i ≠ k) → sum_at f l k = 0.
Proof.
  induction l as [|i l IH]; intros H; cbn; [done|].
  rewrite decide_False by (apply H; left). apply IH. set_solver.
Qed.

(** ** Balanced buckets *)

(** Every bucket holds [H], and has consumed at least [C]. *)
Definition balanced (B : gmap string BucketRow) (H C : string → Z) : Prop :=
  ∀ k b, B !! k = Some b →
    held b = H k ∧ C k <= consumed b ∧ 0 <= H k ∧ 0 <= C k
    ∧ 0 <= b_observed b ∧ 0 <= observations b.

(** Limits: what a bucket holds and has consumed is within its cap, unless an
    overrun was observed on it. *)
Definition within (cap : string → Z) (B : gmap string BucketRow) : Prop :=
  ∀ k b, B !! k = Some b → held b + consumed b <= cap k ∨ blocked_epoch b ≠ -1.

Lemma balanced_ext B H H' C C' :
  balanced B H C → (∀ k, is_Some (B !! k) → H k = H' k ∧ C' k <= C k ∧ 0 <= C' k) →
  balanced B H' C'.
Proof.
  intros HB HE k b Hk. destruct (HB k b Hk) as (? & ? & ? & ? & ? & ?).
  destruct (HE k) as (E1 & E2 & E3); [by eexists|].
  split; [lia|]. split; [lia|]. split; [lia|]. done.
Qed.

Definition at_key (k : string) (v : Z) (k' : string) : Z := if decide (k = k') then v else 0.

(** An update of one bucket. *)
Lemma update_balanced cap B k b f H C dh dc :
  balanced B H C → within cap B → B !! k = Some b →
  held (f b) = held b + dh → consumed b + dc <= consumed (f b) →
  0 <= H k + dh → 0 <= C k + dc → 0 <= b_observed (f b) → 0 <= observations (f b) →
  ((held (f b) + consumed (f b) <= held b + consumed b ∧ blocked_epoch (f b) = blocked_epoch b)
   ∨ held (f b) + consumed (f b) <= cap k ∨ blocked_epoch (f b) ≠ -1) →
  bucket_ok (f b) = true
  ∧ balanced (<[k := f b]> B) (λ k', H k' + at_key k dh k') (λ k', C k' + at_key k dc k')
  ∧ within cap (<[k := f b]> B).
Proof.
  intros HB HW Hb Hh Hc H1 H2 H3 H4 H5.
  destruct (HB k b Hb) as (E1 & E2 & E3 & E4 & E5 & E6). split; [|split].
  - unfold bucket_ok. rewrite !andb_true_iff, !Z.leb_le. lia.
  - intros k' b' Hk'. unfold at_key. apply lookup_insert_Some in Hk' as [[<- <-]|[Hne Hk']].
    + rewrite !decide_True by done. lia.
    + rewrite !decide_False by done. destruct (HB k' b' Hk') as (? & ? & ? & ? & ? & ?). lia.
  - intros k' b' Hk'. apply lookup_insert_Some in Hk' as [[<- <-]|[Hne Hk']]; [|by apply HW].
    destruct H5 as [[Hle Hbl]|H5]; [|done]. destruct (HW k b Hb); [left; lia|right; congruence].
Qed.

(** ** The invariant of the rows *)

Definition row_of (d : DB) (i : ItemRow) : option ReservationRow :=
  reservations d !! item_reservation i.
Definition active (r : ReservationRow) : bool := mem (status r) _ACTIVE.
(** Committed at the full bound, and open to a later settlement. *)
Definition open_commit (r : ReservationRow) : bool :=
  (status r =s "committed") && negb (is_some (settlement_digest r)).
Definition chargeable (i : ItemRow) : Z :=
  if item_metric i =s "concurrency" then 0 else item_amount i.

Definition active_amount (R : gmap string ReservationRow) (i : ItemRow) : Z :=
  match R !! item_reservation i with
  | Some r => if active r then item_amount i else 0
  | None => 0
  end.
Definition open_amount (R : gmap string ReservationRow) (i : ItemRow) : Z :=
  match R !! item_reservation i with
  | Some r => if open_commit r then chargeable i else 0
  | None => 0
  end.

Record balanced_db (d : DB) : Prop := {
  db_balanced : balanced (buckets d) (sum_at (active_amount (reservations d)) (items d))
                  (sum_at (open_amount (reservations d)) (items d));
  db_items : ∀ i, i ∈ items d →
    0 <= item_amount i ∧ is_Some (buckets d !! item_bucket i) ∧ is_Some (row_of d i);
  db_items_distinct : NoDup (map (λ i, (item_reservation i, item_bucket i)) (items d));
  db_keys_distinct : ∀ id1 id2 r1 r2,
    reservations d !! id1 = Some r1 → reservations d !! id2 = Some r2 →
    idempotency_digest r1 = idempotency_digest r2 → id1 = id2 }.

(** ** The life cycle of a reservation *)

Definition settled_statuses : list string := ["committed"; "released"; "overrun"].
(** One change of a reservation's row. *)
Definition row_edge (r r' : ReservationRow) : Prop :=
  (idempotency_digest r' = idempotency_digest r ∧ context_digest r' = context_digest r
   ∧ action_digest r' = action_digest r ∧ costs_digest r' = costs_digest r
   ∧ row_epoch r' = row_epoch r ∧ row_generation r' = row_generation r
   ∧ expires_at r' = expires_at r)
  ∧ ((status r = "reserved" ∧ status r' ∈ ["canceled"; "expired"; "forwarding"]
      ∧ settlement_digest r' = settlement_digest r)
     ∨ (status r = "forwarding" ∧ status r' = "uncertain"
        ∧ settlement_digest r' = settlement_digest r)
     ∨ (status r ∈ ["forwarding"; "uncertain"] ∧ status r' ∈ settled_statuses)
     ∨ (open_commit r = true ∧ status r' ∈ settled_statuses
        ∧ is_some (settlement_digest r') = true)).

(** Every reservation of [d] has gone through its life cycle to [d'], with the
    items it had. *)
Record evolves (d d' : DB) : Prop := {
  evolves_rows : ∀ id r, reservations d !! id = Some r →
    ∃ r', reservations d' !! id = Some r' ∧ rtc row_edge r r';
  evolves_items : ∀ id, is_Some (reservations d !! id) → items_of id d' = items_of id d }.

#[export] Instance evolves_preorder : PreOrder evolves.
Proof.
  split.
  - intros d. split; [|done]. intros id r Hr. exists r. by split.
  - intros d1 d2 d3 [H1 I1] [H2 I2]. split.
    + intros id r Hr. destruct (H1 id r Hr) as (r2 & Hr2 & He1).
      destruct (H2 id r2 Hr2) as (r3 & Hr3 & He2). exists r3. split; [done|by etrans].
    + intros id [r Hr]. destruct (H1 id r Hr) as (r2 & Hr2 & _).
      rewrite I2 by (by eexists). apply I1. by eexists.
Qed.

(** The invariant along a run from [d0]. *)
Definition inv (cap : string → Z) (d0 d : DB) : Prop :=
  balanced_db d ∧ within cap (buckets d) ∧ evolves d0 d.

Section triples.
Context (cap : string → Z) (d0 : DB).
#[local] Abbreviation I := (inv cap d0).

(** [m] started in [P] returns in [Q]; a rejection leaves the invariant, and no
    constraint of the store is violated. *)
Definition triple {A} (P : World → Prop) (m : L A) (Q : A → World → Prop) : Prop :=
  ∀ w, P w →
    match m w with
    | (w', inl x) => Q x w'
    | (w', inr (BudgetError _)) => I (db w')
    | (w', inr (Raised e)) => Raised e ≠ corrupt
    end.

Lemma triple_bind {A B} P (m : L A) Q (f : A → L B) R :
  triple P m Q → (∀ x, triple (Q x) (f x) R) → triple P (m ≫= f) R.
Proof.
  intros Hm Hf w Hw. specialize (Hm w Hw). cbv [mbind L_bind].
  destruct (m w) as [w' [x|e]]; [|done]. apply (Hf x w' Hm).
Qed.
Lemma triple_ret {A} P (x : A) : triple P (mret x) (λ y w, P w ∧ y = x).
Proof. intros w Hw. by split. Qed.
Lemma triple_weaken {A} (P P' : World → Prop) (m : L A) Q :
  (∀ w, P w → P' w) → triple P' m Q → triple P m Q.
Proof. intros H Hm w Hw. apply Hm. auto. Qed.
Lemma triple_post {A} P (m : L A) (Q Q' : A → World → Prop) :
  triple P m Q → (∀ x w, Q x w → Q' x w) → triple P m Q'.
Proof. intros Hm H w Hw. specialize (Hm w Hw). destruct (m w) as [w' [x|[]]]; auto. Qed.
Lemma triple_get {A} P (f : World → A) : triple P (get f) (λ x w, P w ∧ x = f w).
Proof. intros w Hw. by split. Qed.
Lemma triple_fail {A} P (Q : A → World → Prop) reason :
  (∀ w, P w → I (db w)) → triple P (fail (BudgetError reason)) Q.
Proof. intros H w Hw. by apply H. Qed.
Lemma triple_reject P c reason :
  (∀ w, P w → I (db w)) → triple P (reject_unless c reason) (λ _ w, P w ∧ c = true).
Proof. intros H w Hw. unfold reject_unless. destruct c; [by split|by apply H]. Qed.
Lemma triple_of_res {A} P (x : res A) :
  (∀ e, x = Err e → Raised e ≠ corrupt) → triple P (of_res x) (λ y w, P w ∧ x = Ok y).
Proof. intros H w Hw. unfold of_res. destruct x as [y|e]; [by split|by apply H]. Qed.
End triples.

(** ** Running the loops over items *)

Definition set_db (w : World) (d : DB) : World :=
  {| db := d; _issued := _issued w; _clock_state := _clock_state w;
     next_ticket := next_ticket w |}.

Lemma bind_run {A B} (m : L A) (f : A → L B) w w' x :
  m w = (w', inl x) → (m ≫= f) w = f x w'.
Proof. intros H. cbv [mbind L_bind]. by rewrite H. Qed.

Lemma reject_run {A} c reason (f : unit → L A) w :
  (reject_unless c reason ≫= f) w = if c then f tt w else (w, inr (BudgetError reason)).
Proof. by destruct c. Qed.

Lemma update_bucket_run k f w b :
  buckets (db w) !! k = Some b → bucket_ok (f b) = true →
  update_bucket k f w = (set_db w (with_buckets (<[k := f b]> (buckets (db w))) (db w)), inl tt).
Proof.
  intros Hb Hok. unfold update_bucket. cbv [mbind L_bind get]. rewrite Hb.
  unfold check_constraint. rewrite Hok. done.
Qed.

Lemma with_buckets_twice B B' d : with_buckets B (with_buckets B' d) = with_buckets B d.
Proof. done. Qed.

(** What the loops need of the items they go over. *)
Definition items_in (B : gmap string BucketRow) (its : list ItemRow) : Prop :=
  ∀ i, i ∈ its → 0 <= item_amount i ∧ is_Some (B !! item_bucket i).

Lemma items_in_insert B its k b :
  items_in B its → items_in (<[k := b]> B) its.
Proof.
  intros H i Hi. destruct (H i Hi) as [? ?]. split; [done|].
  destruct (decide (k = item_bucket i)) as [->|]; [rewrite lookup_insert_eq; eauto|].
  by rewrite lookup_insert_ne.
Qed.

Lemma items_in_cons B i its :
  items_in B (i :: its) → 0 <= item_amount i ∧ is_Some (B !! item_bucket i) ∧ items_in B its.
Proof. intros H. destruct (H i) as [? ?]; [left|]. split; [done|]. split; [done|]. intros j ?. apply H. by right. Qed.

Section loops.
Context (cap : string → Z).

Lemma release_loop its : ∀ w H C,
  items_in (buckets (db w)) its →
  balanced (buckets (db w)) (λ k, H k + sum_at item_amount its k) C → (∀ k, 0 <= H k) →
  within cap (buckets (db w)) →
  ∃ B', for_all its (λ item, update_bucket (item_bucket item) (add_held (- item_amount item))) w
        = (set_db w (with_buckets B' (db w)), inl tt)
    ∧ dom B' = dom (buckets (db w)) ∧ balanced B' H C ∧ within cap B'.
Proof.
  induction its as [|i its IH]; intros w H C Hin HB HH HW.
  - exists (buckets (db w)). split; [by destruct w as [[]]|]. split; [done|]. split; [|done].
    eapply balanced_ext; [exact HB|]. intros k [b Hb]. destruct (HB k b Hb) as (? & ? & ? & ? & _).
    cbn in *. lia.
  - apply items_in_cons in Hin as (Ha & [b Hb] & Hin).
    assert (∀ k, 0 <= sum_at item_amount its k) as Hpos.
    { intros k. apply sum_at_nonneg. intros j Hj. by apply Hin. }
    pose proof (HB _ _ Hb) as (E1 & E2 & E3 & E4 & E5 & E6). cbn in E1.
    rewrite decide_True in E1 by done. fold (sum_at item_amount its (item_bucket i)) in E1.
    pose proof (HH (item_bucket i)). pose proof (Hpos (item_bucket i)).
    destruct (update_balanced cap _ _ b (add_held (- item_amount i)) _ _ (- item_amount i) 0
      HB HW Hb) as (Hok & HB' & HW'); cbn; rewrite ?decide_True by done;
      fold (sum_at item_amount its (item_bucket i)); try lia.
    cbn [for_all]. rewrite (bind_run _ _ _ _ _ (update_bucket_run _ _ _ _ Hb Hok)).
    destruct (IH (set_db w (with_buckets (<[item_bucket i := add_held (- item_amount i) b]>
      (buckets (db w))) (db w))) H C) as (B' & HB1 & HB2 & HB3 & HB4).
    + by apply items_in_insert.
    + eapply balanced_ext; [exact HB'|]. intros k [b' Hb']. cbn. unfold at_key.
      destruct (HB' k b' Hb') as (_ & _ & _ & HC & _). unfold at_key in HC.
      fold (sum_at item_amount its k).
      destruct (decide (item_bucket i = k)); lia.
    + done.
    + done.
    + exists B'. rewrite HB1. split; [done|]. split; [|done].
      rewrite HB2. cbn. rewrite dom_insert_L. apply elem_of_dom_2 in Hb. set_solver.
Qed.

(** Two updates of the same bucket. *)
Lemma update_twice k f g w b :
  buckets (db w) !! k = Some b → bucket_ok (f b) = true → bucket_ok (g (f b)) = true →
  ∀ B (m : unit → L B),
    (update_bucket k f ≫= λ _, (update_bucket k g ≫= m)) w
    = m tt (set_db w (with_buckets (<[k := g (f b)]> (buckets (db w))) (db w))).
Proof.
  intros Hb Hf Hg B m. rewrite (bind_run _ _ _ _ _ (update_bucket_run _ _ _ _ Hb Hf)).
  assert (buckets (db (set_db w (with_buckets (<[k:=f b]> (buckets (db w))) (db w)))) !! k
          = Some (f b)) as Hb' by apply lookup_insert_eq.
  rewrite (bind_run _ _ _ _ _ (update_bucket_run _ _ _ _ Hb' Hg)). cbn.
  by rewrite insert_insert_eq.
Qed.

(** The settlement of one item, as one update of its bucket. *)
Definition settled_bucket (l : Ledger) (observed : list (string * option Z)) (late : bool)
    (acc : string) (item : ItemRow) (b : BucketRow) : BucketRow :=
  let concurrency := item_metric item =s "concurrency" in
  let value := match dict_get (item_metric item) observed with Some v => v | None => None end in
  let charge := if concurrency || (acc =s "released") then 0
                else match value with Some v => v | None => item_amount item end in
  let over := match value with Some v => item_amount item <? v | None => false end in
  charge_bucket (if late then 0 else item_amount item)
    (if late then charge - (if concurrency then 0 else item_amount item) else charge)
    (match value with Some v => if concurrency then 0 else v | None => 0 end)
    (if is_some value then 1 else 0)
    (if over then block (bp_epoch (policy l)) b else b).
Definition item_over (observed : list (string * option Z)) (item : ItemRow) : bool :=
  match dict_get (item_metric item) observed with
  | Some (Some v) => item_amount item <? v
  | _ => false
  end.

Lemma settle_item_run l observed late acc item w b :
  buckets (db w) !! item_bucket item = Some b → bucket_ok b = true →
  bucket_ok (settled_bucket l observed late acc item b) = true →
  settle_item l observed late acc item w
  = (set_db w (with_buckets (<[item_bucket item := settled_bucket l observed late acc item b]>
                               (buckets (db w))) (db w)),
     inl (if item_over observed item then "overrun" else acc)).
Proof.
  intros Hb Hok Hok'. unfold settle_item, settled_bucket, item_over in *.
  destruct (dict_get (item_metric item) observed) as [[v|]|];
    [destruct (item_amount item <? v)|..]; cbv zeta in *.
  - rewrite (update_twice _ _ _ _ b Hb); [done|done|exact Hok'].
  - cbv [mbind L_bind mret L_ret]. by rewrite (update_bucket_run _ _ _ _ Hb Hok').
  - cbv [mbind L_bind mret L_ret]. by rewrite (update_bucket_run _ _ _ _ Hb Hok').
  - cbv [mbind L_bind mret L_ret]. by rewrite (update_bucket_run _ _ _ _ Hb Hok').
Qed.

Lemma chargeable_bounds i : 0 <= item_amount i → 0 <= chargeable i <= item_amount i.
Proof. unfold chargeable. case_match; lia. Qed.

(** [fresh]: the settlement is a commit without an observation. *)
Lemma settle_loop (l : Ledger) observed late fresh its : ∀ w H C acc,
  0 <= bp_epoch (policy l) →
  (∀ m v, dict_get m observed = Some (Some v) → 0 <= v) →
  (fresh = true → late = false ∧ observed = [] ∧ acc = "committed") →
  acc ∈ settled_statuses →
  items_in (buckets (db w)) its →
  balanced (buckets (db w)) (λ k, H k + sum_at (λ i, if late then 0 else item_amount i) its k)
    (λ k, C k + sum_at (λ i, if late then chargeable i else 0) its k) →
  (∀ k, 0 <= H k) → (∀ k, 0 <= C k) → within cap (buckets (db w)) →
  ∃ B' final, settle_items l observed late acc its w
        = (set_db w (with_buckets B' (db w)), inl final)
    ∧ dom B' = dom (buckets (db w))
    ∧ balanced B' H (λ k, C k + sum_at (λ i, if fresh then chargeable i else 0) its k)
    ∧ within cap B' ∧ final ∈ settled_statuses ∧ (fresh = true → final = "committed").
Proof.
  induction its as [|i its IH]; intros w H C acc Hep Hobs Hfresh Hacc Hin HB HH HC HW.
  - exists (buckets (db w)), acc. split; [by destruct w as [[]]|]. split; [done|].
    split; [|split; [done|]; split; [done|]; intros Hf; by destruct (Hfresh Hf) as (_ & _ & ?)].
    eapply balanced_ext; [exact HB|]. intros k [b Hb]. destruct (HB k b Hb) as (? & ? & ? & ? & _).
    cbn in *. lia.
  - apply items_in_cons in Hin as (Ha & [b Hb] & Hin).
    pose proof (chargeable_bounds i Ha) as Hch.
    assert (∀ k, 0 <= sum_at (λ i, if late then 0 else item_amount i) its k) as Hpos.
    { intros k. apply sum_at_nonneg. intros j Hj. destruct late; [done|]. by apply Hin. }
    assert (∀ k, 0 <= sum_at (λ i, if late then chargeable i else 0) its k) as Hpos'.
    { intros k. apply sum_at_nonneg. intros j Hj. destruct late; [|done].
      apply chargeable_bounds, Hin, Hj. }
    pose proof (HB _ _ Hb) as (E1 & E2 & E3 & E4 & E5 & E6).
    assert (bucket_ok b = true) as Hokb.
    { unfold bucket_ok. rewrite !andb_true_iff, !Z.leb_le. lia. }
    cbn in E1, E2.
    rewrite decide_True in E1, E2 by done.
    pose proof (HH (item_bucket i)) as HHi. pose proof (HC (item_bucket i)) as HCi.
    pose proof (Hpos (item_bucket i)) as Hpi. pose proof (Hpos' (item_bucket i)) as Hpi'.
    unfold sum_at in Hpi, Hpi'.
    set (value := match dict_get (item_metric i) observed with Some v => v | None => None end).
    assert (∀ v, value = Some v → 0 <= v) as Hval.
    { intros v Hv. subst value. destruct (dict_get (item_metric i) observed) as [[x|]|] eqn:Ed;
        try done. injection Hv as ->. by eapply Hobs. }
    set (b' := settled_bucket l observed late acc i b).
    set (pw := if late then chargeable i else 0). set (nw := if fresh then chargeable i else 0).
    assert (held b' = held b - (if late then 0 else item_amount i)) as Eh.
    { subst b'. unfold settled_bucket. fold value. cbn. repeat case_match; done. }
    assert (consumed b + (nw - pw) <= consumed b') as Ec.
    { subst b' nw pw. unfold settled_bucket, chargeable in *. fold value. cbn.
      assert (fresh = true → value = None ∧ acc = "committed" ∧ late = false) as Hfr.
      { intros Hf. destruct (Hfresh Hf) as (-> & -> & ->). by subst value. }
      destruct fresh.
      - destruct (Hfr eq_refl) as (-> & -> & ->). cbn.
        rewrite orb_false_r. destruct (item_metric i =s "concurrency"); cbn; lia.
      - clear Hfr Hfresh. destruct value as [v|]; [pose proof (Hval v eq_refl)|];
          destruct (item_metric i =s "concurrency"), (acc =s "released"), late;
          cbn; repeat case_match; cbn; lia. }
    assert (0 <= b_observed b' ∧ 0 <= observations b') as [Eo1 Eo2].
    { subst b'. unfold settled_bucket. fold value. cbn.
      destruct value as [v|]; [pose proof (Hval v eq_refl)|];
        destruct (item_metric i =s "concurrency"); cbn; repeat case_match; cbn; lia. }
    assert ((held b' + consumed b' <= held b + consumed b ∧ blocked_epoch b' = blocked_epoch b)
            ∨ held b' + consumed b' <= cap (item_bucket i) ∨ blocked_epoch b' ≠ -1) as Ew.
    { subst b'. unfold settled_bucket. fold value. cbn. unfold chargeable in *.
      destruct value as [v|]; [pose proof (Hval v eq_refl)|].
      - destruct (Z.ltb_spec (item_amount i) v); [right; right; cbn; lia|left].
        destruct (item_metric i =s "concurrency"), (acc =s "released"), late; cbn; lia.
      - left. destruct (item_metric i =s "concurrency"), (acc =s "released"), late; cbn; lia. }
    destruct (update_balanced cap _ _ b (settled_bucket l observed late acc i) _ _
      (- (if late then 0 else item_amount i)) (nw - pw) HB HW Hb) as (Hok & HB' & HW');
      fold b'; try done; cbn; rewrite ?decide_True by done; subst nw pw; try lia.
    { destruct late, fresh; lia. }
    cbn [settle_items].
    rewrite (bind_run _ _ _ _ _ (settle_item_run l observed late acc i w b Hb Hokb Hok)).
    fold b'. set (w' := set_db w (with_buckets (<[item_bucket i := b']> (buckets (db w))) (db w))).
    set (acc' := if item_over observed i then "overrun" else acc).
    destruct (IH w' H (λ k, C k + at_key (item_bucket i) (if fresh then chargeable i else 0) k)
      acc') as (B' & final & Hrun & Hdom & HBf & HWf & Hfin & Hcom); try done.
    + intros Hf. destruct (Hfresh Hf) as (-> & -> & ->). by subst acc'.
    + subst acc'. destruct (item_over observed i); [by apply mem_elem_of|done].
    + by apply items_in_insert.
    + eapply balanced_ext; [exact HB'|]. intros k [b'' Hb'']. cbn. unfold at_key.
      destruct (HB' k b'' Hb'') as (_ & _ & _ & HC' & _). unfold at_key in HC'. cbn in HC'.
      fold (sum_at (λ i, if late then 0 else item_amount i) its k) in *.
      fold (sum_at (λ i, if late then chargeable i else 0) its k) in *.
      destruct (decide (item_bucket i = k)); destruct late, fresh; lia.
    + intros k. unfold at_key. pose proof (HC k). case_decide; destruct fresh; lia.
    + exists B', final. rewrite Hrun. split; [done|]. split.
      { rewrite Hdom. cbn. rewrite dom_insert_L. apply elem_of_dom_2 in Hb. set_solver. }
      split; [|done]. eapply balanced_ext; [exact HBf|]. intros k [b'' Hb''].
      destruct (HBf k b'' Hb'') as (_ & _ & _ & HC' & _). unfold at_key in *. cbn.
      fold (sum_at (λ i, if fresh then chargeable i else 0) its k) in *.
      destruct (decide (item_bucket i = k)); lia.
Qed.
End loops.

(** ** Changing one reservation *)

Definition others (id : string) (d : DB) : list ItemRow :=
  filter (λ i, ¬ item_reservation i = id) (items d).

Lemma items_of_elem id d i : i ∈ items_of id d ↔ item_reservation i = id ∧ i ∈ items d.
Proof. unfold items_of. by rewrite list_elem_of_filter. Qed.

Lemma active_split d id R r k :
  R !! id = Some r →
  sum_at (active_amount R) (items d) k
  = sum_at (active_amount R) (others id d) k
    + sum_at (λ i, if active r then item_amount i else 0) (items_of id d) k.
Proof.
  intros Hr. rewrite (sum_at_split _ (λ i, item_reservation i = id)), Z.add_comm. f_equal.
  apply sum_at_ext. intros i Hi _. apply items_of_elem in Hi as [<- _].
  unfold active_amount. by rewrite Hr.
Qed.

Lemma open_split d id R r k :
  R !! id = Some r →
  sum_at (open_amount R) (items d) k
  = sum_at (open_amount R) (others id d) k
    + sum_at (λ i, if open_commit r then chargeable i else 0) (items_of id d) k.
Proof.
  intros Hr. rewrite (sum_at_split _ (λ i, item_reservation i = id)), Z.add_comm. f_equal.
  apply sum_at_ext. intros i Hi _. apply items_of_elem in Hi as [<- _].
  unfold open_amount. by rewrite Hr.
Qed.

Lemma others_alter g d id R k :
  sum_at (active_amount (alter g id R)) (others id d) k
    = sum_at (active_amount R) (others id d) k
  ∧ sum_at (open_amount (alter g id R)) (others id d) k
    = sum_at (open_amount R) (others id d) k.
Proof.
  split; apply sum_at_ext; intros i [Hne _]%list_elem_of_filter _;
    unfold active_amount, open_amount; by rewrite lookup_alter_ne by congruence.
Qed.

(** The sums of the other reservations' items. *)
Definition others_held (d : DB) (id : string) : string → Z :=
  sum_at (active_amount (reservations d)) (others id d).
Definition others_open (d : DB) (id : string) : string → Z :=
  sum_at (open_amount (reservations d)) (others id d).

Lemma active_amount_nonneg R i : 0 <= item_amount i → 0 <= active_amount R i.
Proof. unfold active_amount. intros. repeat case_match; lia. Qed.
Lemma open_amount_nonneg R i : 0 <= item_amount i → 0 <= open_amount R i.
Proof.
  unfold open_amount. intros H%chargeable_bounds. repeat case_match; lia.
Qed.

Lemma others_nonneg d id k :
  balanced_db d → 0 <= others_held d id k ∧ 0 <= others_open d id k.
Proof.
  intros Hd. split; apply sum_at_nonneg; intros i [_ Hi]%list_elem_of_filter;
    [apply active_amount_nonneg|apply open_amount_nonneg]; by apply (db_items _ Hd).
Qed.

Lemma items_of_in d id : balanced_db d → items_in (buckets d) (items_of id d).
Proof.
  intros Hd i [_ Hi]%items_of_elem. destruct (db_items _ Hd i Hi) as (? & ? & _). done.
Qed.

(** The rows after a change of one reservation and of the buckets of its items. *)
Definition changed (d : DB) (id : string) (g : ReservationRow → ReservationRow)
    (B : gmap string BucketRow) : DB :=
  with_reservations (alter g id (reservations d)) (with_buckets B d).

Lemma changed_balanced d id r g B :
  balanced_db d → reservations d !! id = Some r →
  idempotency_digest (g r) = idempotency_digest r → dom B = dom (buckets d) →
  balanced B
    (λ k, others_held d id k + sum_at (λ i, if active (g r) then item_amount i else 0)
                                 (items_of id d) k)
    (λ k, others_open d id k + sum_at (λ i, if open_commit (g r) then chargeable i else 0)
                                 (items_of id d) k) →
  balanced_db (changed d id g B).
Proof.
  intros Hd Hr Hidem Hdom HB.
  assert (alter g id (reservations d) !! id = Some (g r)) as Hr'
    by by rewrite lookup_alter_eq, Hr.
  split; cbn.
  - eapply balanced_ext; [exact HB|]. intros k [b Hb]. destruct (HB k b Hb) as (_ & _ & H1 & H2 & _).
    rewrite (active_split _ id _ _ k Hr'), (open_split _ id _ _ k Hr').
    destruct (others_alter g d id (reservations d) k) as [-> ->].
    unfold others_held, others_open in *. lia.
  - intros i Hi. destruct (db_items _ Hd i Hi) as (H1 & H2 & H3). split; [done|].
    rewrite <- !elem_of_dom in *. rewrite Hdom. split; [done|].
    unfold row_of in *. cbn. by rewrite lookup_alter_is_Some.
  - apply (db_items_distinct _ Hd).
  - intros id1 id2 r1 r2 H1 H2 E.
    assert (∀ j rj, alter g id (reservations d) !! j = Some rj →
      ∃ rj', reservations d !! j = Some rj' ∧ idempotency_digest rj' = idempotency_digest rj)
      as Hold.
    { intros j rj [(<- & r0 & H0 & ->)|[_ H0]]%lookup_alter_Some; [|by exists rj].
      rewrite Hr in H0. injection H0 as <-. exists r. auto. }
    destruct (Hold _ _ H1) as (r1' & H1' & E1). destruct (Hold _ _ H2) as (r2' & H2' & E2).
    eapply (db_keys_distinct _ Hd); [exact H1'|exact H2'|congruence].
Qed.

Lemma changed_evolves d id r g B :
  reservations d !! id = Some r → row_edge r (g r) → evolves d (changed d id g B).
Proof.
  intros Hr He. split; [|done]. intros j rj Hj. cbn.
  destruct (decide (j = id)) as [->|Hne].
  - rewrite Hr in Hj. injection Hj as <-. rewrite lookup_alter_eq, Hr.
    exists (g r). split; [done|]. by apply rtc_once.
  - rewrite lookup_alter_ne by done. by exists rj.
Qed.

Lemma status_edge r s :
  (status r = "reserved" ∧ s ∈ ["canceled"; "expired"; "forwarding"])
  ∨ (status r = "forwarding" ∧ s = "uncertain") → row_edge r (set_status s r).
Proof. intros H. split; [done|]. cbn. naive_solver. Qed.

(** ** Errors that are not the store's *)

(** A computation that does not fail as a corrupt store does. *)
Definition clean {A} (x : res A) : Prop := ∀ e, x = Err e → Raised e ≠ corrupt.

Lemma clean_ok {A} (x : A) : clean (Ok x).
Proof. done. Qed.
Lemma clean_guard c msg :
  msg ≠ "budget transaction unavailable or corrupt" → clean (guard_or c (ValueError msg)).
Proof. intros H e. destruct c; [done|]. intros [= <-] [= ->]. done. Qed.
Lemma clean_bind {A B} (x : res A) (f : A → res B) :
  clean x → (∀ v, clean (f v)) → clean (x ≫= f).
Proof. intros Hx Hf e He. destruct x as [v|e']; [by apply (Hf v)|].
  injection He as <-. by apply Hx.
Qed.
Lemma clean_all_ok {A} (l : list (res A)) : Forall clean l → clean (all_ok l).
Proof.
  induction 1 as [|x l Hx Hl IH]; [done|]. cbn [all_ok].
  apply clean_bind; [done|]. intros v. apply clean_bind; [done|]. intros ?. apply clean_ok.
Qed.
Lemma clean_identifier value name :
  name +:+ " must be a bounded host identifier" ≠ "budget transaction unavailable or corrupt" →
  clean (identifier value name).
Proof. apply clean_guard. Qed.
Lemma clean_all_identifiers values name :
  name +:+ " must be a bounded host identifier" ≠ "budget transaction unavailable or corrupt" →
  clean (all_identifiers values name).
Proof.
  intros Hn. induction values as [|v values IH]; [apply clean_ok|]. cbn [all_identifiers].
  apply clean_bind; [by apply clean_identifier|]. by intros _.
Qed.
Lemma clean_timestamp z : clean (timestamp z).
Proof. intros e. unfold timestamp. case_match; [done|]. by intros [= <-]. Qed.
Lemma clean_counter z : clean (counter z "budget_generation").
Proof. by apply clean_guard. Qed.
Lemma clean_cost c : clean (BudgetCost_post_init c).
Proof.
  apply clean_bind; [by apply clean_guard|]. intros _.
  destruct (cost_amount c); [by apply clean_guard|apply clean_ok].
Qed.
Lemma clean_costs values observed : clean (_costs values observed).
Proof.
  unfold _costs. apply clean_bind; [by apply clean_guard|]. intros _. apply clean_bind.
  - apply clean_all_ok, Forall_forall. intros x (c & -> & _)%list_elem_of_fmap. apply clean_cost.
  - intros _. apply clean_bind; [by apply clean_guard|]. intros _. apply clean_ok.
Qed.

(** Known costs are not negative. *)
Definition nonneg_costs (costs : list (string * option Z)) : Prop :=
  ∀ m v, dict_get m costs = Some (Some v) → 0 <= v.

Lemma dict_get_in {A} k (v : A) l : dict_get k l = Some v → (k, v) ∈ l.
Proof.
  induction l as [|[k' v'] l IH]; [done|]. cbn. destruct (String.eqb_spec k' k) as [->|].
  - intros [= ->]. left.
  - intros H. right. auto.
Qed.
Lemma all_ok_in {A} (l : list (res A)) r x : all_ok l = Ok r → x ∈ l → ∃ v, x = Ok v.
Proof.
  revert r. induction l as [|y l IH]; intros r H Hx; [by apply elem_of_nil in Hx|].
  cbn [all_ok] in H. inv_res. apply elem_of_cons in Hx as [->|Hx]; [by eexists|]. by eapply IH.
Qed.
Lemma costs_nonneg values observed costs :
  _costs values observed = Ok costs → nonneg_costs costs.
Proof.
  unfold _costs. intros H. inv_res. intros m v Hv%dict_get_in.
  apply list_elem_of_fmap in Hv as (c & [= -> Hc] & Hin).
  match goal with H : all_ok _ = Ok _ |- _ =>
    destruct (all_ok_in _ _ (BudgetCost_post_init c) H) as [u Hu];
      [by apply list_elem_of_fmap_2|] end.
  unfold BudgetCost_post_init in Hu. inv_res. rewrite <- Hc in *.
  unfold _amount, guard_or in *. repeat case_match; try done. split_bools. lia.
Qed.

(** ** What a reservation asks for *)

Lemma add_limit_keys k l bs x : x ∈ map key (add_limit k l bs) ↔ x = k ∨ x ∈ map key bs.
Proof.
  induction bs as [|b bs IH]; cbn; [set_solver|].
  destruct (String.eqb_spec (key b) k) as [<-|]; cbn; set_solver.
Qed.
Lemma add_limit_NoDup k l bs : NoDup (map key bs) → NoDup (map key (add_limit k l bs)).
Proof.
  induction bs as [|b bs IH]; cbn; [intros _; apply NoDup_singleton|].
  intros [Hk Hnd]%NoDup_cons. destruct (String.eqb_spec (key b) k) as [<-|Hne]; cbn.
  - by constructor.
  - constructor; [|auto]. by intros [E|Hin]%add_limit_keys.
Qed.

Section request.
Context (digest : json → string).

Lemma collect_buckets_NoDup ls i scopes : ∀ bs bs',
  collect_buckets digest ls i scopes bs = inl bs' → NoDup (map key bs) → NoDup (map key bs').
Proof.
  induction ls as [|l ls IH]; intros bs bs' H Hnd; cbn in H; [by injection H as <-|].
  destruct (_ && _); [done|]. apply (IH _ _ H). clear H IH.
  revert bs Hnd. induction (selected_subjects l scopes) as [|s ss IH]; [done|].
  intros bs Hnd. cbn. by apply IH, add_limit_NoDup.
Qed.
End request.

Lemma nonneg_set m v costs : (∀ x, v = Some x → 0 <= x) → nonneg_costs costs →
  nonneg_costs (dict_set m v costs).
Proof.
  intros Hv Hc m' x. rewrite dict_get_set. case_decide; [intros [= ->]; by apply Hv|apply Hc].
Qed.
Lemma at_least_one_nonneg v x : at_least_one v = Some x → 0 <= x.
Proof. unfold at_least_one. destruct v as [[v|]|]; intros [= <-]; lia. Qed.
Lemma fold_max_nonneg {A} (f : A → Z) l a : 0 <= a → 0 <= foldl (λ m x, Z.max m (f x)) a l.
Proof. revert a. induction l as [|x l IH]; intros a Ha; cbn; [done|]. apply IH. lia. Qed.

(** Pure computations of the monad. *)
Definition pure {A} (m : L A) (P : A → Prop) : Prop :=
  ∀ w, (m w).1 = w ∧ match (m w).2 with
                     | inl x => P x
                     | inr e => e ≠ corrupt
                     end.
Lemma pure_bind {A B} (m : L A) (f : A → L B) P Q :
  pure m P → (∀ x, P x → pure (f x) Q) → pure (m ≫= f) Q.
Proof.
  intros Hm Hf w. destruct (Hm w) as [E H]. cbv [mbind L_bind].
  destruct (m w) as [w' [x|e]]; cbn in *; subst w'; [by apply Hf|done].
Qed.
Lemma pure_ret {A} (x : A) (P : A → Prop) : P x → pure (mret x) P.
Proof. by intros H w. Qed.
Lemma pure_reject c reason : pure (reject_unless c reason) (λ _, c = true).
Proof. intros w. by destruct c. Qed.
Lemma pure_of_res {A} (x : res A) : clean x → pure (of_res x) (λ v, x = Ok v).
Proof.
  intros H w. destruct x as [v|e]; [done|]. split; [done|]. cbn. intros [= E].
  apply (H e eq_refl). unfold corrupt. by rewrite E.
Qed.

Lemma resolve_metric_nonneg bs effects resolved m :
  nonneg_costs resolved → pure (resolve_metric bs effects resolved m) nonneg_costs.
Proof.
  intros H. unfold resolve_metric.
  destruct (dict_get m resolved) as [[v|]|]; [by apply pure_ret|..];
    (eapply pure_bind; [apply pure_reject|]; intros u _; apply pure_ret, nonneg_set;
     [intros x [= <-]; by apply fold_max_nonneg|done]).
Qed.
Lemma resolve_costs_nonneg bs costs effects :
  pure (_resolve_budget_costs bs costs effects) (λ r, nonneg_costs r.2).
Proof.
  unfold _resolve_budget_costs. eapply pure_bind; [apply pure_of_res, clean_costs|].
  intros values Hv%costs_nonneg. cbv zeta. eapply pure_bind; [|intros r Hr; by apply pure_ret].
  generalize (bucket_metrics bs). intros ms.
  assert (nonneg_costs (dict_set "concurrency" (at_least_one (dict_get "concurrency"
    (dict_set "requests" (at_least_one (dict_get "requests" values)) values)))
    (dict_set "requests" (at_least_one (dict_get "requests" values)) values))) as H.
  { apply nonneg_set; [apply at_least_one_nonneg|].
    apply nonneg_set; [apply at_least_one_nonneg|done]. }
  revert H. generalize (dict_set "concurrency" (at_least_one (dict_get "concurrency"
    (dict_set "requests" (at_least_one (dict_get "requests" values)) values)))
    (dict_set "requests" (at_least_one (dict_get "requests" values)) values)).
  induction ms as [|m ms IH]; intros resolved H; [by apply pure_ret|].
  cbn [resolve_metrics]. eapply pure_bind; [by apply resolve_metric_nonneg|]. auto.
Qed.

(** What the rows say of a charge: it fits under the maximum of its bucket. *)
Definition bucket_use (d : DB) (k : string) : Z :=
  match buckets d !! k with Some b => held b + consumed b | None => 0 end.
Definition charge_fits (d : DB) (b : _Bucket) (c : string * string * Z) : Prop :=
  c.1.1 = key b ∧ 0 <= c.2 ∧ bucket_use d (key b) + c.2 <= bucket_maximum b.

Lemma charges_fit p resolved d bs :
  nonneg_costs resolved → pure (charges_for p resolved d bs) (Forall2 (charge_fits d) bs).
Proof.
  intros Hr. induction bs as [|b bs IH]; [by apply pure_ret|]. cbn [charges_for].
  eapply pure_bind with (P := charge_fits d b).
  - unfold charge_for.
    destruct (dict_get (bucket_metric b) resolved) as [[a|]|] eqn:Ea; [|done..]. cbv zeta.
    destruct (match buckets d !! key b with Some s => _ | None => (0, 0) end) as [h c] eqn:Eh.
    eapply pure_bind; [apply pure_reject|]. intros u _.
    eapply pure_bind; [apply pure_reject|]. intros u' Hu. apply pure_ret.
    split_bools. split; [done|]. split; [by eapply Hr|]. unfold bucket_use. cbn.
    destruct (buckets d !! key b); injection Eh as <- <-; lia.
  - intros c Hc. eapply pure_bind; [apply IH|]. intros cs Hcs. apply pure_ret. by constructor.
Qed.

(** ** Holding the charges of a reservation *)

Section holding.
Context (cap : string → Z).
#[local] Arguments sum_at : simpl never.

Lemma insert_bucket_run k m w :
  balanced_db (db w) → within cap (buckets (db w)) → 0 <= cap k →
  ∃ B b, insert_bucket k m w = (set_db w (with_buckets B (db w)), inl tt)
    ∧ B !! k = Some b ∧ held b + consumed b = bucket_use (db w) k
    ∧ (∀ k', k' ≠ k → B !! k' = buckets (db w) !! k')
    ∧ balanced_db (with_buckets B (db w)) ∧ within cap B.
Proof.
  intros Hd HW Hcap. unfold insert_bucket, bucket_use. cbv [mbind L_bind get].
  destruct (buckets (db w) !! k) as [b|] eqn:Hk.
  { exists (buckets (db w)), b. split; [by destruct w as [[]]|]. split; [done|].
    split; [done|]. split; [done|]. split; [by destruct (db w), Hd|done]. }
  set (b := {| b_metric := m; held := 0; consumed := 0; b_observed := 0; observations := 0;
               blocked_epoch := -1 |}).
  exists (<[k := b]> (buckets (db w))), b. split; [done|]. split; [apply lookup_insert_eq|].
  split; [done|]. split; [intros k' Hne; by apply lookup_insert_ne|].
  assert (∀ f, sum_at f (items (db w)) k = 0) as Hsum.
  { intros f. apply sum_at_absent. intros i Hi <-.
    destruct (db_items _ Hd i Hi) as (_ & [b' Hb'] & _). congruence. }
  split; [split|].
  - cbn. intros k' b' [[<- <-]|[Hne Hb']]%lookup_insert_Some; [|by apply (db_balanced _ Hd)].
    rewrite !Hsum. done.
  - intros i Hi. destruct (db_items _ Hd i Hi) as (H1 & H2 & H3). split; [done|]. split; [|done].
    cbn in *. rewrite lookup_insert_is_Some'. by right.
  - apply (db_items_distinct _ Hd).
  - apply (db_keys_distinct _ Hd).
  - intros k' b' [[<- <-]|[Hne Hb']]%lookup_insert_Some; [by left|by apply HW].
Qed.

Definition charge_item (id : string) (c : string * string * Z) : ItemRow :=
  {| item_reservation := id; item_bucket := c.1.1; item_metric := c.1.2; item_amount := c.2 |}.

Lemma sum_at_snoc f l i k : sum_at f (l ++ [i]) k = sum_at f l k + at_key (item_bucket i) (f i) k.
Proof. rewrite sum_at_app. unfold at_key, sum_at. cbn. lia. Qed.

Lemma hold_run id r c w :
  balanced_db (db w) → within cap (buckets (db w)) →
  reservations (db w) !! id = Some r → active r = true → open_commit r = false →
  0 <= c.2 → bucket_use (db w) c.1.1 + c.2 <= cap c.1.1 →
  (∀ i, i ∈ items_of id (db w) → item_bucket i ≠ c.1.1) →
  ∃ B, let d' := with_items (items (db w) ++ [charge_item id c]) (with_buckets B (db w)) in
    hold id c w = (set_db w d', inl tt) ∧ balanced_db d' ∧ within cap B
    ∧ (∀ k', k' ≠ c.1.1 → B !! k' = buckets (db w) !! k').
Proof.
  destruct c as [[k m] a]. cbn [fst snd]. intros Hd HW Hr Hact Hop Ha Hcap Hnew.
  assert (0 <= bucket_use (db w) k) as Huse.
  { unfold bucket_use. destruct (buckets (db w) !! k) as [b|] eqn:Hb; [|done].
    destruct (db_balanced _ Hd k b Hb) as (? & ? & ? & ? & _). lia. }
  destruct (insert_bucket_run k m w Hd HW) as (B1 & b & Hrun & Hk & Hb & Hother & Hd1 & HW1);
    [lia|].
  destruct (db_balanced _ Hd1 k b Hk) as (E1 & E2 & E3 & E4 & E5 & E6).
  destruct (update_balanced cap B1 k b (add_held a) _ _ a 0 (db_balanced _ Hd1) HW1 Hk)
    as (Hok & HB2 & HW2); cbn in *; try lia.
  exists (<[k := add_held a b]> B1). cbv zeta. split; [|split; [|split; [done|]]].
  - unfold hold. rewrite (bind_run _ _ _ _ _ Hrun).
    rewrite (bind_run _ _ _ _ _ (update_bucket_run k (add_held a)
      (set_db w (with_buckets B1 (db w))) b Hk Hok)).
    unfold insert_item. cbv [mbind L_bind get check_constraint].
    replace (_ && _) with true; [done|]. symmetry. apply andb_true_iff. split; [by apply Z.leb_le|].
    apply negb_true_iff, not_true_iff_false. intros (i & Hi & Hij)%existsb_exists.
    apply andb_true_iff in Hij as [H1%eqb_true H2%eqb_true]. cbn in *.
    apply (Hnew i); [|done]. apply items_of_elem. split; [done|]. by apply list_elem_of_In.
  - split; cbn.
    + eapply balanced_ext; [exact HB2|]. intros k' [b' Hb'].
      destruct (HB2 k' b' Hb') as (_ & _ & _ & HC & _). cbn in *.
      assert (active_amount (reservations (db w)) (charge_item id (k, m, a)) = a) as Ea
        by (unfold active_amount; cbn; by rewrite Hr, Hact).
      assert (open_amount (reservations (db w)) (charge_item id (k, m, a)) = 0) as Eo
        by (unfold open_amount; cbn; by rewrite Hr, Hop).
      rewrite !sum_at_snoc, Ea, Eo. unfold at_key in *. cbn. case_decide; lia.
    + intros i Hi. apply elem_of_app in Hi as [Hi|Hi].
      * destruct (db_items _ Hd1 i Hi) as (H1 & H2 & H3). split; [done|]. split; [|done].
        cbn in *. rewrite lookup_insert_is_Some'. by right.
      * apply list_elem_of_singleton in Hi as ->. cbn. split; [done|].
        split; [by rewrite lookup_insert_eq|]. unfold row_of. cbn. by rewrite Hr.
    + rewrite map_app. apply NoDup_app. split; [apply (db_items_distinct _ Hd)|].
      split; [|apply NoDup_singleton]. intros x Hx Hx2.
      apply list_elem_of_singleton in Hx2 as ->. cbn in Hx.
      apply list_elem_of_fmap in Hx as (i & [= H1 H2] & Hi). apply (Hnew i); [|done].
      by apply items_of_elem.
    + apply (db_keys_distinct _ Hd).
  - intros k' Hne. rewrite lookup_insert_ne by done. by apply Hother.
Qed.

(** A charge that fits under the cap of its bucket. *)
Definition fits (d : DB) (c : string * string * Z) : Prop :=
  0 <= c.2 ∧ bucket_use d c.1.1 + c.2 <= cap c.1.1.

Lemma hold_loop id r cs : ∀ w,
  balanced_db (db w) → within cap (buckets (db w)) →
  reservations (db w) !! id = Some r → active r = true → open_commit r = false →
  NoDup (map (λ c : string * string * Z, c.1.1) cs) → Forall (fits (db w)) cs →
  (∀ i c, i ∈ items_of id (db w) → c ∈ cs → item_bucket i ≠ c.1.1) →
  ∃ B its, let d' := with_items (items (db w) ++ its) (with_buckets B (db w)) in
    for_all cs (hold id) w = (set_db w d', inl tt) ∧ balanced_db d' ∧ within cap B
    ∧ Forall (λ i, item_reservation i = id) its.
Proof.
  induction cs as [|c cs IH]; intros w Hd HW Hr Ha Ho Hnd Hfit Hnew.
  - exists (buckets (db w)), []. cbn. rewrite app_nil_r. split; [by destruct w as [[]]|].
    split; [by destruct (db w), Hd|done].
  - cbn in Hnd. apply NoDup_cons in Hnd as [Hc Hnd]. apply Forall_cons in Hfit as [[Hc1 Hc2] Hfit].
    destruct (hold_run id r c w Hd HW Hr Ha Ho Hc1 Hc2) as (B & Hrun & Hd' & HW' & Hother).
    { intros i Hi. apply (Hnew i c Hi). left. }
    cbn [for_all]. rewrite (bind_run _ _ _ _ _ Hrun).
    set (w' := set_db w _). destruct (IH w') as (B' & its & Hrun' & Hd'' & HW'' & Hits); try done.
    + apply Forall_forall. intros c' Hc'. rewrite Forall_forall in Hfit.
      destruct (Hfit c' Hc') as [H1 H2]. split; [done|]. unfold bucket_use in *. cbn.
      rewrite Hother; [done|]. intros E. apply Hc. rewrite <- E. by apply (list_elem_of_fmap_2 (λ c : string * string * Z, c.1.1)).
    + intros i c' Hi Hc' E. apply items_of_elem in Hi as [Hid Hi]. cbn in Hi.
      apply elem_of_app in Hi as [Hi|Hi].
      * apply (Hnew i c'); [by apply items_of_elem|by right|done].
      * apply list_elem_of_singleton in Hi as ->. cbn in E. apply Hc. rewrite E.
        by apply (list_elem_of_fmap_2 (λ c : string * string * Z, c.1.1)).
    + exists B', (charge_item id c :: its). cbn in *. rewrite <- app_assoc in *.
      split; [done|]. split; [done|]. split; [done|]. by constructor.
Qed.

(** A new reservation, before its charges. *)
Lemma new_reservation_balanced d id row :
  balanced_db d → reservations d !! id = None →
  (∀ id' r', reservations d !! id' = Some r' → idempotency_digest r' ≠ idempotency_digest row) →
  balanced_db (with_reservations (<[id := row]> (reservations d)) d)
  ∧ ∀ i, i ∈ items d → item_reservation i ≠ id.
Proof.
  intros Hd Hid Hkey.
  assert (∀ i, i ∈ items d → item_reservation i ≠ id) as Hne.
  { intros i Hi <-. destruct (db_items _ Hd i Hi) as (_ & _ & [r Hr]).
    unfold row_of in Hr. congruence. }
  split; [|done]. split; cbn.
  - eapply balanced_ext; [apply (db_balanced _ Hd)|]. intros k [b Hb].
    destruct (db_balanced _ Hd k b Hb) as (_ & _ & _ & Hpos & _).
    rewrite (sum_at_ext (active_amount (<[id := row]> _)) (active_amount (reservations d))),
      (sum_at_ext (open_amount (<[id := row]> _)) (open_amount (reservations d))); [done|..];
      intros i Hi _; unfold open_amount, active_amount;
      by rewrite lookup_insert_ne by (by apply not_eq_sym, Hne).
  - intros i Hi. destruct (db_items _ Hd i Hi) as (H1 & H2 & H3). split; [done|]. split; [done|].
    unfold row_of in *. cbn. rewrite lookup_insert_is_Some'. by right.
  - apply (db_items_distinct _ Hd).
  - intros id1 id2 r1 r2 [[<- <-]|[H1 H1']]%lookup_insert_Some [[<- <-]|[H2 H2']]%lookup_insert_Some E;
      [done|..].
    + by destruct (Hkey id2 r2).
    + by destruct (Hkey id1 r1).
    + by eapply (db_keys_distinct _ Hd).
Qed.
End holding.

Section steps.
Context (cap : string → Z) (d0 : DB).
#[local] Abbreviation I := (inv cap d0).

(** [_release] of a reservation that was not forwarded. *)
Lemma release_run w id r s :
  I (db w) → reservations (db w) !! id = Some r → status r = "reserved" →
  s = "canceled" ∨ s = "expired" →
  ∃ B, _release id s w = (set_db w (changed (db w) id (set_status s) B), inl tt)
    ∧ I (changed (db w) id (set_status s) B).
Proof.
  intros (Hd & HW & He) Hr Hst Hs.
  assert (active r = true) as Hact by (unfold active; by rewrite Hst).
  assert (open_commit r = false) as Hop by (unfold open_commit; by rewrite Hst).
  assert (active (set_status s r) = false ∧ open_commit (set_status s r) = false) as [Ha' Ho']
    by (unfold active, open_commit; cbn; by destruct Hs as [->| ->]).
  destruct (release_loop cap (items_of id (db w)) w (others_held (db w) id)
    (λ k, others_open (db w) id k
          + sum_at (λ i, if open_commit r then chargeable i else 0) (items_of id (db w)) k))
    as (B & Hrun & Hdom & HB & HWB).
  - by apply items_of_in.
  - eapply balanced_ext; [apply (db_balanced _ Hd)|]. intros k [b Hb].
    rewrite (active_split _ id _ r k Hr), (open_split _ id _ r k Hr), Hact.
    destruct (db_balanced _ Hd k b Hb) as (_ & _ & _ & Hpos & _).
    rewrite (open_split _ id _ r k Hr) in Hpos.
    unfold others_held, others_open. change (λ i, item_amount i) with item_amount. lia.
  - intros k. by apply others_nonneg.
  - done.
  - exists B. unfold _release. rewrite (bind_run _ _ _ _ _ eq_refl), (bind_run _ _ _ _ _ Hrun).
    split; [done|]. split; [|split].
    + apply (changed_balanced _ _ r); [done|done|done|done|]. rewrite Ha', Ho'.
      eapply balanced_ext; [exact HB|]. intros k [b Hb].
      destruct (HB k b Hb) as (_ & _ & _ & Hpos & _). rewrite Hop in *.
      rewrite sum_at_zero in *. lia.
    + done.
    + etrans; [exact He|]. apply (changed_evolves _ _ r); [done|]. apply status_edge.
      left. split; [done|]. destruct Hs as [->| ->]; set_solver.
Qed.

Lemma inv_meta m d : I (with_meta m d) ↔ I d.
Proof.
  split; intros ([H1 H2 H3 H4] & HW & [HR HI]);
    (split; [|split; [exact HW|]]); by split.
Qed.

(** Releasing several reservations, as [_expire] and a restart do. *)
Lemma release_all s ids : ∀ w,
  s = "canceled" ∨ s = "expired" → NoDup ids →
  (∀ id, id ∈ ids → ∃ r, reservations (db w) !! id = Some r ∧ status r = "reserved") →
  I (db w) →
  ∃ d, for_all ids (λ id, _release id s) w = (set_db w d, inl tt) ∧ I d
    ∧ meta d = meta (db w) ∧ dom (reservations d) = dom (reservations (db w))
    ∧ ∀ j, reservations d !! j
           = (if decide (j ∈ ids) then set_status s else id) <$> reservations (db w) !! j.
Proof.
  induction ids as [|id ids IH]; intros w Hs Hnd Hres HI.
  - exists (db w). split; [by destruct w|]. do 3 (split; [done|]). intros j.
    rewrite decide_False by apply not_elem_of_nil. by rewrite option_fmap_id.
  - apply NoDup_cons in Hnd as [Hid Hnd]. destruct (Hres id) as (r & Hr & Hst); [left|].
    destruct (release_run w id r s HI Hr Hst Hs) as (B & Hrun & HI').
    cbn [for_all]. rewrite (bind_run _ _ _ _ _ Hrun).
    destruct (IH (set_db w (changed (db w) id (set_status s) B))) as (d & Hd & HId & Hm & Hdom & Hrows); try done.
    + intros j Hj. cbn. rewrite lookup_alter_ne by (intros ->; done). apply Hres. by right.
    + exists d. rewrite Hd. split; [done|]. split; [done|]. split; [by rewrite Hm|].
      split; [rewrite Hdom; cbn; apply dom_alter_L|]. intros j. rewrite Hrows.
      change (reservations (db (set_db w (changed (db w) id (set_status s) B))))
        with (alter (set_status s) id (reservations (db w))).
      destruct (decide (j = id)) as [->|Hne].
      * rewrite lookup_alter_eq. destruct (decide (id ∈ ids)); [done|].
        destruct (decide (id ∈ id :: ids)) as [_|[]]; [by rewrite option_fmap_id|left].
      * rewrite lookup_alter_ne by done.
        destruct (decide (j ∈ ids)), (decide (j ∈ id :: ids)) as [H1|H1]; try done.
        { destruct H1. by right. }
        by apply elem_of_cons in H1 as [?|?].
Qed.

Lemma select_ids_elem f d id :
  id ∈ select_ids f d ↔ ∃ r, reservations d !! id = Some r ∧ f r = true.
Proof.
  unfold select_ids. rewrite list_elem_of_fmap. split.
  - intros ([j r] & -> & Hin). apply list_elem_of_filter in Hin as [Hf Hin].
    apply elem_of_map_to_list in Hin. by exists r.
  - intros (r & Hr & Hf). exists (id, r). split; [done|]. apply list_elem_of_filter.
    split; [done|]. by apply elem_of_map_to_list.
Qed.

Lemma select_ids_NoDup f d : NoDup (select_ids f d).
Proof.
  unfold select_ids. pose proof (NoDup_fst_map_to_list (reservations d)) as H.
  induction (map_to_list (reservations d)) as [|kv l IH]; [constructor|].
  cbn in H. apply NoDup_cons in H as [Hk H]. rewrite filter_cons. case_decide; [|auto].
  cbn. constructor; [|auto]. intros (x & Hx & Hin)%list_elem_of_fmap. apply Hk.
  apply list_elem_of_filter in Hin as [_ Hin]. rewrite Hx. by apply list_elem_of_fmap_2.
Qed.

(** ** The steps of a transaction *)

(** The invariant, and a property of the set of reservation ids. *)
Definition IF (F : gset string → Prop) (w : World) : Prop :=
  I (db w) ∧ F (dom (reservations (db w))).

Lemma IF_I F w : IF F w → I (db w).
Proof. by intros [HI _]. Qed.

#[local] Abbreviation triple := (triple cap d0).

Lemma expire_triple F now : triple (IF F) (_expire now) (λ _ w, IF F w).
Proof.
  intros w [HI HF]. unfold _expire. rewrite (bind_run _ _ _ _ _ eq_refl).
  destruct (release_all "expired"
    (select_ids (λ r, (status r =s "reserved") && (expires_at r <=? now)) (db w)) w)
    as (d & Hrun & HId & Hm & Hdom & _); [by right|apply select_ids_NoDup| |done|].
  - intros id (r & Hr & Hf)%select_ids_elem. exists r. split; [done|].
    apply andb_true_iff in Hf as [Hf _]. by apply eqb_true in Hf.
  - rewrite (bind_run _ _ _ _ _ Hrun). split; [done|]. cbn. by rewrite Hdom.
Qed.

Lemma meta_triple digest F l clock : triple (IF F) (_meta digest l clock) (λ _ w, IF F w).
Proof.
  intros w HF. unfold _meta. rewrite (bind_run _ _ _ _ _ eq_refl).
  destruct (meta (db w)) as [m|]; [|by destruct HF].
  cbv [mbind L_bind reject_unless]. destruct (_ && _ && _); [|by destruct HF]. cbn.
  destruct (timestamp clock) as [now|e] eqn:E; cbn.
  - destruct (negb (now <? Z.max (m_last_now m) (_clock_state w))); cbn; [|by destruct HF].
    destruct HF as [HI HF]. split; [|done]. by apply inv_meta.
  - unfold timestamp in E. case_match; [done|]. by injection E as <-.
Qed.

Lemma ticket_triple F l t :
  triple (IF F) (_ticket l t)
    (λ row w, IF F w ∧ reservations (db w) !! ticket_id t = Some row
              ∧ row_generation row = l_generation l).
Proof.
  intros w HF. unfold _ticket. rewrite (bind_run _ _ _ _ _ eq_refl).
  destruct (_issued w !! ticket_id t) as [b|]; [|by destruct HF].
  cbv [mbind L_bind reject_unless get].
  destruct (bool_decide _ && bool_decide _); [|by destruct HF]. cbn.
  destruct (reservations (db w) !! ticket_id t) as [row|] eqn:Hrow; [|by destruct HF].
  destruct (_ && _ && _) eqn:E; cbn; [|by destruct HF].
  split_bools. split; [done|]. split; [done|]. by apply Z.eqb_eq.
Qed.

(** A change of status that keeps what the items count for. *)
Lemma restatus_triple F id r s :
  row_edge r (set_status s r) → active (set_status s r) = active r →
  open_commit (set_status s r) = open_commit r →
  triple (λ w, IF F w ∧ reservations (db w) !! id = Some r)
    (update_reservation id (set_status s)) (λ _ w, IF F w).
Proof.
  intros He Ha Ho w [[(Hd & HW & Hev) HF] Hr]. cbn.
  split; [|cbn; by rewrite dom_alter_L].
  assert (with_reservations (alter (set_status s) id (reservations (db w))) (db w)
          = changed (db w) id (set_status s) (buckets (db w))) as -> by done.
  split; [|split].
  - apply (changed_balanced _ _ r); [done..|]. rewrite Ha, Ho.
    eapply balanced_ext; [apply (db_balanced _ Hd)|]. intros k [b Hb].
    destruct (db_balanced _ Hd k b Hb) as (_ & _ & _ & Hpos & _).
    rewrite (active_split _ id _ r k Hr), (open_split _ id _ r k Hr) in *.
    unfold others_held, others_open. lia.
  - done.
  - etrans; [exact Hev|]. by apply (changed_evolves _ _ r).
Qed.

(** [_release] as a step of a transaction. *)
Lemma release_triple F id r s :
  status r = "reserved" → s = "canceled" ∨ s = "expired" →
  triple (λ w, IF F w ∧ reservations (db w) !! id = Some r) (_release id s) (λ _ w, IF F w).
Proof.
  intros Hst Hs w [[HI HF] Hr]. destruct (release_run w id r s HI Hr Hst Hs) as (B & Hrun & HI').
  rewrite Hrun. split; [done|]. cbn. by rewrite dom_alter_L.
Qed.

(** The rows after the settlement of a reservation. *)
Lemma settle_run (l : Ledger) w id r observed late fresh acc nd :
  0 <= bp_epoch (policy l) →
  (∀ m v, dict_get m observed = Some (Some v) → 0 <= v) →
  (fresh = true → late = false ∧ observed = [] ∧ acc = "committed") →
  acc ∈ settled_statuses → is_some nd = negb fresh →
  (if late then open_commit r = true else status r ∈ ["forwarding"; "uncertain"]) →
  I (db w) → reservations (db w) !! id = Some r →
  ∃ B final, settle_items l observed late acc (items_of id (db w)) w
      = (set_db w (with_buckets B (db w)), inl final)
    ∧ I (changed (db w) id (settle_row final nd) B).
Proof.
  intros Hep Hobs Hfresh Hacc Hnd Hst (Hd & HW & He) Hr.
  assert (active r = negb late ∧ open_commit r = late) as [Ha Ho].
  { unfold active, open_commit in *. destruct late.
    - apply andb_true_iff in Hst as [H%eqb_true H0]. rewrite H, H0. done.
    - apply list_elem_of_In in Hst. destruct Hst as [<-|[<-|[]]]; done. }
  destruct (settle_loop cap l observed late fresh (items_of id (db w)) w
    (others_held (db w) id) (others_open (db w) id) acc)
    as (B & final & Hrun & Hdom & HB & HWB & Hfin & Hcom); try done.
  - by apply items_of_in.
  - eapply balanced_ext; [apply (db_balanced _ Hd)|]. intros k [b Hb].
    destruct (db_balanced _ Hd k b Hb) as (_ & _ & _ & Hpos & _).
    rewrite (active_split _ id _ r k Hr), (open_split _ id _ r k Hr), Ha, Ho in *.
    unfold others_held, others_open. destruct late; cbn [negb]; lia.
  - intros k. by apply others_nonneg.
  - intros k. by apply others_nonneg.
  - exists B, final. split; [done|].
    assert (active (settle_row final nd r) = false
            ∧ open_commit (settle_row final nd r) = fresh) as [Ha' Ho'].
    { unfold active, open_commit. cbn. rewrite Hnd, negb_involutive.
      apply list_elem_of_In in Hfin.
      destruct fresh; [rewrite (Hcom eq_refl); done|rewrite andb_false_r].
      by destruct Hfin as [<-|[<-|[<-|[]]]]. }
    split; [|split; [done|]].
    + apply (changed_balanced _ _ r); [done|done|done|done|]. rewrite Ha', Ho'.
      eapply balanced_ext; [exact HB|]. intros k [b Hb].
      destruct (HB k b Hb) as (_ & _ & _ & Hpos & _). rewrite sum_at_zero. lia.
    + etrans; [exact He|]. apply (changed_evolves _ _ r); [done|]. split; [done|]. cbn.
      destruct late; [|by right; right; left].
      right; right; right. split; [done|]. split; [done|]. rewrite Hnd.
      destruct fresh; [|done]. by destruct (Hfresh eq_refl).
Qed.

Section settlement.
Context (digest : json → string).

(** The checks of an observation leave the rows. *)
Lemma settlement_triple F l id row o (P : World → Prop) :
  (∀ w, P w → IF F w) →
  triple P (settlement_of digest l id row o)
    (λ x w, P w ∧ nonneg_costs x.1 ∧ is_some x.2 = is_some o ∧ (o = None → x.1 = [])).
Proof.
  intros HP. unfold settlement_of. destruct o as [o|].
  - eapply triple_bind; [apply triple_reject; intros w Hw; exact (proj1 (HP w Hw))|]. intros ?.
    eapply triple_bind; [apply triple_of_res, clean_costs|]. intros observed.
    intros w ((Hw & _) & Hc). split; [done|]. split; [|done]. by eapply costs_nonneg.
  - intros w Hw. by split.
Qed.

Lemma settle_triple F l id row o :
  0 <= bp_epoch (policy l) →
  triple (λ w, IF F w ∧ reservations (db w) !! id = Some row) (_settle digest l id row o)
    (λ _ w, IF F w).
Proof.
  intros Hep. unfold _settle. eapply triple_bind.
  { apply (settlement_triple F). by intros w []. }
  intros [observed nd] w (([HI HF] & Hr) & Hobs & Hnd & Hnone). cbn [fst snd] in *.
  rewrite (bind_run _ _ _ _ _ eq_refl). cbv zeta.
  rewrite reject_run. destruct (negb (is_some o) || _); [|done].
  set (late := (status row =s "committed") && _ && _).
  destruct (mem (status row) _ && negb late) eqn:Ec; rewrite reject_run.
  { destruct (negb (is_some o) || _); [by split|done]. }
  destruct (mem (status row) ["forwarding"; "uncertain"] || late) eqn:Es; [|done].
  set (acc := match o with Some _ => _ | None => _ end).
  destruct (settle_run l w id row observed late (negb (is_some o)) acc nd)
    as (B & final & Hrun & HI'); try done.
  - intros Ho. destruct o; [done|]. subst late acc. rewrite andb_false_r. auto.
  - subst acc. apply mem_elem_of. destruct o; [case_match|]; done.
  - by rewrite negb_involutive.
  - destruct late eqn:El; subst late.
    + apply andb_true_iff in El as [El _]. exact El.
    + rewrite orb_false_r in Es. by apply mem_elem_of.
  - rewrite (bind_run _ _ _ _ _ Hrun). split; [done|]. cbn. by rewrite dom_alter_L.
Qed.

(** ** Operations *)

(** An operation keeps the invariant whatever its outcome, and meets no
    constraint of the store. *)
Definition keeps {A} (P : World → Prop) (m : L A) : Prop :=
  ∀ w, P w → I (db (m w).1) ∧ (m w).2 ≠ inr corrupt.

Lemma transaction_keeps {A} P (m : L A) Q :
  (∀ w, P w → I (db w)) → (∀ x w, Q x w → I (db w)) → triple P m Q →
  keeps P (transaction m).
Proof.
  intros HP HQ Hm w Hw. specialize (Hm w Hw). unfold transaction.
  destruct (m w) as [w' [x|[r|e]]]; cbn.
  - split; [by eapply HQ|done].
  - done.
  - split; [by apply HP|congruence].
Qed.
Lemma transaction_IF {A} F (m : L A) :
  triple (IF F) m (λ _ w, IF F w) → keeps (IF F) (transaction m).
Proof. apply transaction_keeps; [apply IF_I|intros x; apply IF_I]. Qed.
Lemma keeps_reject {A} P c reason (f : unit → L A) :
  (∀ w, P w → I (db w)) → keeps P (f tt) → keeps P (reject_unless c reason ≫= f).
Proof. intros HP Hf w Hw. rewrite reject_run. destruct c; [by apply Hf|]. split; [by apply HP|done]. Qed.
Lemma keeps_of_res {A B} P (x : res A) (f : A → L B) :
  (∀ w, P w → I (db w)) → clean x → (∀ v, x = Ok v → keeps P (f v)) → keeps P (of_res x ≫= f).
Proof.
  intros HP Hx Hf w Hw. cbv [mbind L_bind]. destruct x as [v|e]; cbn [of_res].
  - by apply (Hf v).
  - split; [by apply HP|]. cbn. intros [= E]. apply (Hx e eq_refl). unfold corrupt. by rewrite E.
Qed.

Lemma expire_keeps F l clock : keeps (IF F) (expire digest l clock).
Proof.
  apply transaction_IF.
  eapply triple_bind; [apply meta_triple|]. intros now. apply expire_triple.
Qed.

(** The steps of [begin_forward], [cancel] and [uncertain] after [_ticket]. *)
Lemma forward_keeps F l clock t context a ok :
  keeps (IF F) (begin_forward digest l clock t context a ok).
Proof.
  apply keeps_reject; [apply IF_I|]. apply transaction_IF.
  eapply triple_bind; [apply meta_triple|]. intros now.
  eapply triple_bind; [apply expire_triple|]. intros n.
  eapply triple_bind; [apply ticket_triple|]. intros row.
  eapply triple_bind; [apply triple_reject; intros w [H _]; by apply (IF_I F)|]. intros u.
  intros w ((Hw & Hr & _) & Hc). split_bools.
  match goal with H : (status row =s _) = true |- _ => apply eqb_true in H; rename H into Hst end.
  refine (restatus_triple F (ticket_id t) row "forwarding" _ _ _ w (conj Hw Hr)).
  - apply status_edge. left. split; [done|set_solver].
  - unfold active. by rewrite Hst.
  - unfold open_commit. by rewrite Hst.
Qed.

Lemma cancel_keeps F l clock t : keeps (IF F) (cancel digest l clock t).
Proof.
  apply transaction_IF.
  eapply triple_bind; [apply meta_triple|]. intros now.
  eapply triple_bind; [apply ticket_triple|]. intros row w (Hw & Hr & _).
  destruct (mem (status row) _); [done|]. rewrite reject_run. destruct (status row =s "reserved") eqn:Hst.
  - apply eqb_true in Hst.
    apply (release_triple F (ticket_id t) row "canceled"); [done|by left|done].
  - apply Hw.
Qed.

Lemma uncertain_keeps F l clock t : keeps (IF F) (uncertain digest l clock t).
Proof.
  apply transaction_IF.
  eapply triple_bind; [apply meta_triple|]. intros now.
  eapply triple_bind; [apply ticket_triple|]. intros row w (Hw & Hr & _).
  destruct (status row =s "uncertain"); [done|]. rewrite reject_run. destruct (status row =s "forwarding") eqn:Hst.
  - apply eqb_true in Hst.
    refine (restatus_triple F (ticket_id t) row "uncertain" _ _ _ w (conj Hw Hr)).
    + apply status_edge. by right.
    + unfold active. by rewrite Hst.
    + unfold open_commit. by rewrite Hst.
  - apply Hw.
Qed.

Lemma commit_keeps F l clock t o :
  0 <= bp_epoch (policy l) → keeps (IF F) (commit digest l clock t o).
Proof.
  intros Hep. apply transaction_IF.
  eapply triple_bind; [apply meta_triple|]. intros now.
  eapply triple_bind; [apply ticket_triple|]. intros row.
  eapply triple_weaken; [|by apply settle_triple]. by intros w (Hw & Hr & _).
Qed.

Lemma reconcile_keeps F l clock id op o :
  0 <= bp_epoch (policy l) → keeps (IF F) (reconcile digest l clock id op o).
Proof.
  intros Hep. apply keeps_reject; [apply IF_I|]. apply keeps_of_res; [apply IF_I|by apply clean_identifier|]. intros u _.
  apply transaction_IF.
  eapply triple_bind; [apply meta_triple|]. intros now.
  eapply triple_bind; [apply triple_get|]. intros [row|] w [Hw Hr].
  - by apply (settle_triple F).
  - apply Hw.
Qed.

(** A restart leaves forwarded reservations uncertain. *)
Definition recovered (r : ReservationRow) : ReservationRow :=
  if status r =s "forwarding" then set_status "uncertain" r else r.
Lemma recovered_cases r :
  recovered r = r ∨ status r = "forwarding" ∧ recovered r = set_status "uncertain" r.
Proof. unfold recovered. destruct (status r =s "forwarding") eqn:E; [|by left]. apply eqb_true in E. by right. Qed.
Lemma recovered_kept r :
  active (recovered r) = active r ∧ open_commit (recovered r) = open_commit r
  ∧ idempotency_digest (recovered r) = idempotency_digest r.
Proof.
  destruct (recovered_cases r) as [->|[Hst ->]]; [done|].
  unfold active, open_commit. by rewrite Hst.
Qed.

Lemma recovered_amounts R i :
  active_amount (recovered <$> R) i = active_amount R i
  ∧ open_amount (recovered <$> R) i = open_amount R i.
Proof.
  unfold active_amount, open_amount. rewrite lookup_fmap.
  destruct (R !! _) as [r|]; [|done]. destruct (recovered_kept r) as (E1 & E2 & _).
  cbn [fmap option_fmap option_map]. by rewrite E1, E2.
Qed.

Lemma recovered_inv d :
  I d → I (with_reservations (recovered <$> reservations d) d).
Proof.
  intros (Hd & HW & He). split; [|split; [done|]].
  - split; cbn.
    + eapply balanced_ext; [apply (db_balanced _ Hd)|]. intros k [b Hb].
      destruct (db_balanced _ Hd k b Hb) as (_ & _ & _ & Hpos & _).
      rewrite (sum_at_ext (active_amount (recovered <$> _)) (active_amount (reservations d)))
        by (intros i _ _; apply recovered_amounts).
      rewrite (sum_at_ext (open_amount (recovered <$> _)) (open_amount (reservations d)))
        by (intros i _ _; apply recovered_amounts). done.
    + intros i Hi. destruct (db_items _ Hd i Hi) as (H1 & H2 & H3). split; [done|].
      split; [done|]. unfold row_of in *. cbn. by rewrite lookup_fmap, fmap_is_Some.
    + apply (db_items_distinct _ Hd).
    + intros id1 id2 r1 r2. rewrite !lookup_fmap.
      intros (x1 & H1 & ->)%fmap_Some (x2 & H2 & ->)%fmap_Some E.
      destruct (recovered_kept x1) as (_ & _ & E1), (recovered_kept x2) as (_ & _ & E2).
      eapply (db_keys_distinct _ Hd); [done|done|congruence].
  - etrans; [exact He|]. split; [|done]. intros id r Hr. cbn. rewrite lookup_fmap, Hr.
    exists (recovered r). split; [done|]. destruct (recovered_cases r) as [->|[Hst ->]]; [done|].
    apply rtc_once, status_edge. by right.
Qed.

Lemma start_keeps F p clock nonce : keeps (IF F) (start digest p clock nonce).
Proof.
  apply keeps_of_res; [apply IF_I|apply clean_timestamp|]. intros now _ w Hw.
  rewrite (bind_run _ _ _ _ _ eq_refl).
  set (w1 := {| db := db w; _issued := ∅; _clock_state := now; next_ticket := next_ticket w |}).
  refine (transaction_keeps (λ w, I (db w)) _ (λ _ w, I (db w)) _ _ _ w1 (IF_I F w Hw));
    [done|done|].
  eapply triple_bind; [apply triple_get|]. intros m.
  eapply triple_bind with (Q := λ _ w, I (db w)).
  - intros w' [HI ->]. destruct (meta (db w')) as [m|]; [|done].
    rewrite reject_run. destruct (negb _); [|done].
    destruct (counter (m_generation m + 1) "budget_generation") as [[]|e] eqn:Ec; cbn [of_res].
    2: { cbv [mbind L_bind fail]. by apply (clean_counter (m_generation m + 1)). }
    rewrite (bind_run _ _ _ _ _ eq_refl), (bind_run _ _ _ _ _ eq_refl).
    destruct (release_all "canceled" (select_ids (λ r, status r =s "reserved") (db w')) w')
      as (d & Hrun & HId & _); [by left|apply select_ids_NoDup| |done|].
    + intros id (r & Hr & Hf%eqb_true)%select_ids_elem. by exists r.
    + rewrite (bind_run _ _ _ _ _ Hrun). by apply recovered_inv.
  - intros generation w' HI. cbn. by apply inv_meta.
Qed.

(** The transaction of [reserve]. *)
Lemma find_key_none k d id r :
  find_key k d = None → reservations d !! id = Some r → idempotency_digest r ≠ k.
Proof.
  intros Hf Hr E. apply elem_of_map_to_list in Hr. apply list_elem_of_In in Hr.
  pose proof (List.find_none _ _ Hf _ Hr) as H. cbn in H. apply String.eqb_neq in H. done.
Qed.

Lemma charges_fits bs cs d :
  (∀ b, b ∈ bs → bucket_maximum b <= cap (key b)) → Forall2 (charge_fits d) bs cs →
  map (λ c : string * string * Z, c.1.1) cs = map key bs ∧ Forall (fits cap d) cs.
Proof.
  intros Hcap H. induction H as [|b c bs cs (E & H1 & H2) H IH]; [by split|].
  destruct IH as [IH1 IH2]; [intros b' Hb'; apply Hcap; by right|].
  split; [cbn; by rewrite E, IH1|]. constructor; [|done]. split; [done|]. rewrite E.
  pose proof (Hcap b (list_elem_of_here _ _)). lia.
Qed.

Lemma reserve_triple l clock id bs resolved c a k cost :
  NoDup (map key bs) → (∀ b, b ∈ bs → bucket_maximum b <= cap (key b)) →
  nonneg_costs resolved →
  triple (IF (λ ids, id ∉ ids))
    (reserve_transaction digest l clock id bs resolved c a k cost) (λ _ w, I (db w)).
Proof.
  intros Hnd Hcap Hres. unfold reserve_transaction.
  eapply triple_bind; [apply meta_triple|]. intros now.
  eapply triple_bind; [apply expire_triple|]. intros n w [HI Hid].
  rewrite (bind_run _ _ _ _ _ eq_refl). destruct (find_key k (db w)) as [[pid prev]|] eqn:Hk.
  { rewrite (bind_run _ _ _ _ _ eq_refl). destruct (_issued w !! pid); [|done].
    rewrite reject_run. by destruct (_ && _ && _ && _). }
  rewrite reject_run. destruct (negb _); [|done].
  destruct (charges_fit (policy l) resolved (db w) bs Hres w) as [Ew Hcs].
  cbv [mbind L_bind].
  destruct (charges_for (policy l) resolved (db w) bs w) as [w' [cs|e]]; cbn in *; subst w'.
  2: { by destruct e. }
  destruct (charges_fits bs cs (db w) Hcap Hcs) as [Hkeys Hfit].
  set (row := Build_ReservationRow _ _ _ _ _ _ _ _ _).
  destruct HI as (Hd & HW & He). apply not_elem_of_dom in Hid.
  destruct (new_reservation_balanced (db w) id row Hd Hid) as [Hd1 Hnew].
  { intros id' r' Hr'. by apply (find_key_none k (db w) id'). }
  unfold insert_reservation, check_constraint. cbv [mbind L_bind get].
  replace (_ && _) with true; cbn.
  2: { rewrite Hid. cbn. symmetry. apply negb_true_iff, not_true_iff_false.
       intros ([id' r'] & Hin & Heq%eqb_true)%existsb_exists. cbn in Heq.
       apply list_elem_of_In, elem_of_map_to_list in Hin.
       by apply (find_key_none k (db w) id' r'). }
  set (w1 := {| db := _ |}).
  destruct (hold_loop cap id row cs w1) as (B & its & Hrun & Hd2 & HW2 & Hits); try done.
  - apply lookup_insert_eq.
  - by rewrite Hkeys.
  - intros i ch Hi. apply items_of_elem in Hi as [E Hi]. by apply Hnew in Hi.
  - rewrite Hrun. cbn. split; [done|]. split; [done|]. etrans; [exact He|]. split.
    + intros j rj Hj. exists rj. cbn. rewrite lookup_insert_ne by congruence. done.
    + intros j [rj Hj]. unfold items_of. cbn. rewrite filter_app.
      assert (filter (λ i, item_reservation i = j) its = []) as ->; [|by rewrite app_nil_r].
      clear -Hits Hid Hj. induction Hits as [|i its Hi Hits IH]; [done|].
      rewrite filter_cons_False; [done|congruence].
Qed.

Lemma keeps_pure {A B} P (m : L A) (f : A → L B) Q :
  (∀ w, P w → I (db w)) → pure m Q → (∀ v, Q v → keeps P (f v)) → keeps P (m ≫= f).
Proof.
  intros HP Hm Hf w Hw. destruct (Hm w) as [E H]. cbv [mbind L_bind].
  destruct (m w) as [w' [x|e]]; cbn in *; subst w'; [by apply Hf|]. split; [by apply HP|congruence].
Qed.

Definition capped (p : BudgetPolicy) (i : SwarmIdentity) (scopes : Scopes) : Prop :=
  ∀ bs, collect_buckets digest (limits p) i scopes [] = inl bs →
  ∀ b, b ∈ bs → bucket_maximum b <= cap (key b).

Lemma select_pure p i scopes :
  pure (_select_budget_buckets digest p i scopes)
    (λ bs, collect_buckets digest (limits p) i scopes [] = inl bs).
Proof.
  unfold _select_budget_buckets. destruct (collect_buckets _ _ _ _ _) as [bs|e] eqn:E.
  - eapply pure_bind; [apply pure_reject|]. intros u _. by apply pure_ret.
  - intros w. split; [done|]. cbn. intros ->. clear -E. revert E. generalize (@nil _Bucket).
    induction (limits p) as [|l ls IH]; [done|]. intros bs. cbn.
    destruct (_ && _); [done|apply IH].
Qed.

Lemma reserve_keeps l clock id scopes r ok :
  capped (policy l) (identity (rq_context r)) scopes →
  keeps (IF (λ ids, id ∉ ids)) (reserve digest l clock id scopes r ok).
Proof.
  intros Hcap. unfold reserve.
  apply keeps_of_res; [apply IF_I|by apply clean_identifier|]. intros u1 _.
  apply keeps_of_res; [apply IF_I|by apply clean_guard|]. intros u2 _.
  apply keeps_of_res; [apply IF_I|by apply clean_guard|]. intros u3 _.
  apply keeps_of_res; [apply IF_I|by apply clean_all_identifiers|]. intros u4 _. cbv zeta.
  eapply keeps_pure; [apply IF_I|apply select_pure|]. intros bs Hbs.
  eapply keeps_pure; [apply IF_I|apply resolve_costs_nonneg|]. intros [values resolved] Hres.
  apply keeps_reject; [apply IF_I|].
  intros w Hw. cbv [mbind L_bind].
  pose proof (transaction_keeps (IF (λ ids, id ∉ ids)) _ _ (IF_I _) (λ _ w H, H)
    (reserve_triple l clock id bs resolved (digest (SwarmContext_as_dict (rq_context r)))
       (digest (action_dict (rq_action r)))
       (digest (JArr [JStr (tenant_id (identity (rq_context r))); JStr (idempotency_key r)]))
       (digest (JObj [("costs", costs_json values); ("effects", JArr (map JStr (rq_effects r)))]))
       (collect_buckets_NoDup digest _ _ _ _ _ Hbs (NoDup_nil_2)) (Hcap bs Hbs) Hres)
    w Hw) as [H1 H2].
  destruct (transaction _ w) as [w' [[t [b|]]|e]]; cbn in *; [done..|].
  split; [done|congruence].
Qed.
End settlement.
End steps.

(** ** Reachable rows *)

Section reachable.
Context (digest : json → string) (cap : string → Z).

Definition valid_policy (p : BudgetPolicy) : Prop := BudgetPolicy_post_init p = Ok tt.
Lemma valid_policy_epoch p : valid_policy p → 0 <= bp_epoch p.
Proof.
  unfold valid_policy, BudgetPolicy_post_init, counter. intros H. inv_res. split_bools. lia.
Qed.

(** What a call takes for granted: the policy of its ledger was accepted, the
    id of a new reservation is fresh, and [cap] is over the maximum of every
    bucket it selects. *)
Definition admissible (d : DB) (c : call) : Prop :=
  match ledger_of c with Some l => valid_policy (policy l) | None => True end
  ∧ match c with
    | Reserve l _ id scopes r _ =>
        (id ∉ dom (reservations d))
        ∧ capped cap digest (policy l) (identity (rq_context r)) scopes
    | _ => True
    end.

(** One call, by any ledger object in any process: the live part of the world
    is arbitrary. *)
Inductive step (d : DB) : DB → Prop :=
| step_call c w : db w = d → admissible d c → step d (db (perform digest c w).1).
Inductive reachable : DB → Prop :=
| reachable_empty : reachable empty_db
| reachable_step d d' : reachable d → step d d' → reachable d'.

Lemma perform_keeps c w :
  inv cap (db w) (db w) → admissible (db w) c →
  inv cap (db w) (db (perform digest c w).1) ∧ (perform digest c w).2 ≠ Some corrupt.
Proof.
  intros HI [Hl Hc].
  assert (∀ A (m : L A), keeps cap (db w) (IF cap (db w) (λ ids, match c with
      | Reserve _ _ id _ _ _ => id ∉ ids | _ => True end)) m →
    inv cap (db w) (db (outcome (m w)).1) ∧ (outcome (m w)).2 ≠ Some corrupt) as H.
  { intros A m Hm. destruct (Hm w) as [H1 H2].
    - split; [done|]. by destruct c; destruct Hc.
    - unfold outcome. cbn. split; [done|]. destruct ((m w).2); congruence. }
  destruct c; cbn in Hl; try apply valid_policy_epoch in Hl; cbn [perform]; apply H;
    [apply start_keeps|apply reserve_keeps, Hc|apply forward_keeps|apply cancel_keeps|
     apply expire_keeps|apply uncertain_keeps|by apply commit_keeps|by apply reconcile_keeps].
Qed.

Lemma inv_refl d : balanced_db d → within cap (buckets d) → inv cap d d.
Proof. done. Qed.

Lemma reachable_inv d : reachable d → balanced_db d ∧ within cap (buckets d).
Proof.
  induction 1 as [|d d' _ [IH1 IH2] [c w <- Hc]].
  - split; [split|]; cbn.
    + intros k b. by rewrite lookup_empty.
    + by intros i ?%elem_of_nil.
    + constructor.
    + intros id1 id2 r1 r2. by rewrite lookup_empty.
    + intros k b. by rewrite lookup_empty.
  - destruct (perform_keeps c w (inv_refl _ IH1 IH2) Hc) as [(H1 & H2 & _) _]. done.
Qed.

Lemma steps_evolve d d' : reachable d → rtc step d d' → evolves d d'.
Proof.
  intros Hd. induction 1 as [|d d1 d' Hstep _ IH]; [done|].
  assert (reachable d1) as Hd1 by by eapply reachable_step.
  etrans; [|by apply IH]. destruct Hstep as [c w <- Hc].
  destruct (reachable_inv _ Hd) as [H1 H2].
  by destruct (perform_keeps c w (inv_refl _ H1 H2) Hc) as [(_ & _ & ?) _].
Qed.
End reachable.
