(* ===== verification/BudgetSafety.v ===== *)
(** * Safety of the budget ledger ([ordin/swarm/budgets.py])

    Theorems about every sequence of calls, by any number of ledger objects over
    one store: the rows stay balanced, limits are kept, a reservation only
    advances along its life cycle, and a restart recovers the rows and fences
    the ledgers before it. *)
From stdpp Require Import base list strings gmap relations pretty.
From Stdlib Require Import Bool Ascii ZArith QArith Lia.
From S2P Require Import Prelude PyStr Json SwarmModels Registry Budget BudgetFacts.
#[local] Open Scope py_scope.
#[local] Open Scope Z_scope.

(** ** Fenced ledgers *)

(** A row of [budget_meta] that is not of the ledger [l]. *)
Definition fences (m : Meta) (l : Ledger) : Prop :=
  m_generation m ≠ l_generation l ∨ m_nonce m ≠ l_nonce l.

Section fencing.
Context (digest : json → string).

Lemma meta_fenced l clock w m :
  meta (db w) = Some m → fences m l →
  _meta digest l clock w = (w, inr (BudgetError "budget.coordinator_fenced")).
Proof.
  intros Hm Hf. unfold _meta. rewrite (bind_run _ _ _ _ _ eq_refl), Hm, reject_run.
  destruct (_ && _ && _) eqn:E; [|done]. split_bools.
  match goal with H : (_ =? _) = true |- _ => apply Z.eqb_eq in H end.
  match goal with H : (m_nonce _ =s _) = true |- _ => apply eqb_true in H end.
  by destruct Hf.
Qed.

Lemma transaction_fenced {A} l clock w m (f : Z → L A) :
  meta (db w) = Some m → fences m l →
  transaction (_meta digest l clock ≫= f) w
  = (w, inr (BudgetError "budget.coordinator_fenced")).
Proof.
  intros Hm Hf. unfold transaction. cbv [mbind L_bind]. by rewrite (meta_fenced l clock w m).
Qed.

(** A call that fails and writes nothing. *)
Definition refused {A} (w : World) (x : World * (A + raised)) : Prop :=
  x.1 = w ∧ ∃ e, x.2 = inr e.
Lemma refused_pure {A B} (m : L A) (f : A → L B) P w :
  pure m P → (∀ v, refused w (f v w)) → refused w ((m ≫= f) w).
Proof.
  intros Hm Hf. destruct (Hm w) as [E _]. cbv [mbind L_bind].
  destruct (m w) as [w' [x|e]]; cbn in *; subst w'; [apply Hf|]. split; [done|by eexists].
Qed.
Lemma refused_fence {A} l clock w m (f : Z → L A) :
  meta (db w) = Some m → fences m l → refused w (transaction (_meta digest l clock ≫= f) w).
Proof. intros Hm Hf. rewrite (transaction_fenced l clock w m f Hm Hf). split; [done|by eexists]. Qed.

Lemma perform_fenced c l w m :
  ledger_of c = Some l → meta (db w) = Some m → fences m l →
  (perform digest c w).1 = w ∧ ∃ e, (perform digest c w).2 = Some e.
Proof.
  intros Hl Hm Hf.
  assert (∀ A (x : World * (A + raised)), refused w x →
    (outcome x).1 = w ∧ ∃ e, (outcome x).2 = Some e) as Hout.
  { intros A x [H1 [e He]]. split; [done|]. exists e. unfold outcome. cbn. by rewrite He. }
  destruct c; cbn in Hl; [done|injection Hl as ->; cbn [perform]; apply Hout..].
  - unfold reserve.
    eapply refused_pure; [apply pure_of_res; by apply clean_identifier|]. intros _.
    eapply refused_pure; [apply pure_of_res; by apply clean_guard|]. intros _.
    eapply refused_pure; [apply pure_of_res; by apply clean_guard|]. intros _.
    eapply refused_pure; [apply pure_of_res; by apply clean_all_identifiers|]. intros _.
    cbv zeta. eapply refused_pure; [apply select_pure|]. intros bs.
    eapply refused_pure; [apply resolve_costs_nonneg|]. intros [values resolved].
    eapply refused_pure; [apply pure_reject|]. intros _.
    unfold refused. cbv [mbind L_bind]. unfold reserve_transaction.
    match goal with |- context [transaction ?m w] => assert (transaction m w
      = (w, inr (BudgetError "budget.coordinator_fenced"))) as -> end.
    { by apply transaction_fenced with m. }
    split; [done|by eexists].
  - eapply refused_pure; [apply pure_reject|]. intros _. by apply (refused_fence l clock w m).
  - by apply (refused_fence l clock w m).
  - by apply (refused_fence l clock w m).
  - by apply (refused_fence l clock w m).
  - by apply (refused_fence l clock w m).
  - eapply refused_pure; [apply pure_reject|]. intros _.
    eapply refused_pure; [apply pure_of_res; by apply clean_identifier|]. intros _.
    by apply (refused_fence l clock w m).
Qed.

(** ** The generation of the store *)

(** What [_meta] compares with the generation and the nonce of a ledger. *)
Definition fence_key (d : DB) : option (Z * string) :=
  (λ m, (m_generation m, m_nonce m)) <$> meta d.

(** [m] does not touch it, whether it returns or fails. *)
Definition steady {A} (k : option (Z * string)) (m : L A) : Prop :=
  ∀ w, fence_key (db w) = k → fence_key (db (m w).1) = k.

Lemma steady_ret {A} k (x : A) : steady k (mret x).
Proof. by intros w. Qed.
Lemma steady_fail {A} k e : steady k (fail (A := A) e).
Proof. by intros w. Qed.
Lemma steady_reject k c reason : steady k (reject_unless c reason).
Proof. intros w. by destruct c. Qed.
Lemma steady_of_res {A} k (x : res A) : steady k (of_res x).
Proof. intros w. by destruct x. Qed.
Lemma steady_put k d : fence_key d = k → steady k (put_db d).
Proof. by intros H w. Qed.
Lemma steady_clock k now : steady k (set_clock now).
Proof. by intros w. Qed.
Lemma steady_check k c : steady k (check_constraint c).
Proof. intros w. by destruct c. Qed.
Lemma steady_publish k b : steady k (publish b).
Proof. by intros w. Qed.
Lemma steady_ticket k id : steady k (new_ticket id).
Proof. by intros w. Qed.
Lemma steady_get {A B} k (f : World → A) (h : A → L B) :
  (∀ w, fence_key (db w) = k → steady k (h (f w))) → steady k (get f ≫= h).
Proof. intros Hh w Hw. by apply (Hh w). Qed.
Lemma steady_bind {A B} k (m : L A) (f : A → L B) :
  steady k m → (∀ x, steady k (f x)) → steady k (m ≫= f).
Proof.
  intros Hm Hf w Hw. specialize (Hm w Hw). cbv [mbind L_bind].
  destruct (m w) as [w' [x|e]]; [by apply Hf|done].
Qed.
Lemma steady_transaction {A} k (m : L A) : steady k m → steady k (transaction m).
Proof.
  intros Hm w Hw. specialize (Hm w Hw). unfold transaction. by destruct (m w) as [w' [x|[r|e]]].
Qed.

Create HintDb steady.
#[local] Hint Resolve steady_ret steady_fail steady_reject steady_of_res steady_put steady_clock
  steady_check steady_publish steady_ticket steady_transaction : steady.

(** Through the binds and case distinctions of an operation; a row that is put
    back has the [budget_meta] of the rows that were read. *)
Ltac stays :=
  repeat first
    [ solve [auto with steady]
    | progress cbv zeta
    | apply steady_transaction
    | apply steady_get; intros ??
    | apply steady_bind; [|intros ?]
    | match goal with
      | |- steady _ (match ?x with _ => _ end) => destruct x eqn:?
      end ].

Lemma for_all_steady {A} k (l : list A) body :
  (∀ x, steady k (body x)) → steady k (for_all l body).
Proof. intros Hb. induction l; cbn [for_all]; stays. Qed.
Lemma update_bucket_steady k key f : steady k (update_bucket key f).
Proof. unfold update_bucket. stays. Qed.
Lemma update_reservation_steady k id f : steady k (update_reservation id f).
Proof. unfold update_reservation. stays. Qed.
#[local] Hint Resolve for_all_steady update_bucket_steady update_reservation_steady : steady.
Lemma release_steady k id s : steady k (_release id s).
Proof. unfold _release. stays. Qed.
#[local] Hint Resolve release_steady : steady.
Lemma expire_steady k now : steady k (_expire now).
Proof. unfold _expire. stays. Qed.
#[local] Hint Resolve expire_steady : steady.

Lemma meta_steady k l clock : steady k (_meta digest l clock).
Proof.
  unfold _meta. apply steady_get. intros w Hw. destruct (meta (db w)) as [m|] eqn:Hm; stays.
  apply steady_put. unfold fence_key in Hw. by rewrite Hm in Hw.
Qed.
#[local] Hint Resolve meta_steady : steady.
Lemma ticket_steady k l t : steady k (_ticket l t).
Proof. unfold _ticket. stays. Qed.
#[local] Hint Resolve ticket_steady : steady.
Lemma settle_items_steady k l observed late its : ∀ acc,
  steady k (settle_items l observed late acc its).
Proof.
  induction its as [|item its IH]; intros acc; cbn [settle_items]; [stays|].
  apply steady_bind; [|done]. unfold settle_item. stays.
Qed.
#[local] Hint Resolve settle_items_steady : steady.
Lemma settle_steady k l id row o : steady k (_settle digest l id row o).
Proof. unfold _settle, settlement_of. stays. Qed.
#[local] Hint Resolve settle_steady : steady.
Lemma charges_steady k p resolved d bs : steady k (charges_for p resolved d bs).
Proof.
  induction bs as [|b bs IH]; cbn [charges_for]; [stays|].
  apply steady_bind; [unfold charge_for; stays|]. intros c. apply steady_bind; [done|]. stays.
Qed.
Lemma insert_reservation_steady k id row : steady k (insert_reservation id row).
Proof. unfold insert_reservation. stays. Qed.
Lemma hold_steady k id c : steady k (hold id c).
Proof.
  destruct c as [[key m] amount]. unfold hold. apply steady_bind; [unfold insert_bucket; stays|].
  intros u. apply steady_bind; [stays|]. intros u'. unfold insert_item. stays.
Qed.
#[local] Hint Resolve charges_steady insert_reservation_steady hold_steady : steady.
Lemma reserve_transaction_steady k l clock id bs resolved c a ik cost :
  steady k (reserve_transaction digest l clock id bs resolved c a ik cost).
Proof.
  unfold reserve_transaction. do 2 (apply steady_bind; [auto with steady|intros ?]).
  apply steady_get. intros w _. destruct (find_key ik (db w)) as [[]|]; stays.
Qed.
#[local] Hint Resolve reserve_transaction_steady : steady.
Lemma select_steady k p i scopes : steady k (_select_budget_buckets digest p i scopes).
Proof. unfold _select_budget_buckets. stays. Qed.
Lemma resolve_steady k bs costs effects : steady k (_resolve_budget_costs bs costs effects).
Proof.
  unfold _resolve_budget_costs. apply steady_bind; [stays|]. intros values. cbv zeta.
  apply steady_bind; [|stays]. generalize (bucket_metrics bs). intros ms.
  match goal with |- steady _ (resolve_metrics _ _ _ ?v) => generalize v end.
  induction ms as [|m ms IH]; intros v; cbn [resolve_metrics]; [stays|].
  apply steady_bind; [|done]. unfold resolve_metric. stays.
Qed.
#[local] Hint Resolve select_steady resolve_steady : steady.

(** Only the start of a ledger changes it. *)
Lemma perform_steady c w l :
  ledger_of c = Some l → fence_key (db (perform digest c w).1) = fence_key (db w).
Proof.
  intros Hl.
  assert (∀ A (m : L A), steady (fence_key (db w)) m →
    fence_key (db (outcome (m w)).1) = fence_key (db w)) as H by (intros A m Hm; by apply Hm).
  destruct c; cbn in Hl; [done|cbn [perform]; apply H..].
  - unfold reserve. do 4 (apply steady_bind; [auto with steady|intros ?]). cbv zeta.
    apply steady_bind; [auto with steady|intros bs].
    apply steady_bind; [auto with steady|intros [values resolved]].
    apply steady_bind; [auto with steady|intros ?].
    apply steady_bind; [auto with steady|intros [t staged]]. stays.
  - unfold begin_forward. stays.
  - unfold cancel. stays.
  - unfold expire. stays.
  - unfold uncertain. stays.
  - unfold commit. stays.
  - unfold reconcile. stays.
Qed.

Lemma bind_ok {A B} (m : L A) (f : A → L B) w w' y :
  (m ≫= f) w = (w', inl y) → ∃ w1 x, m w = (w1, inl x) ∧ f x w1 = (w', inl y).
Proof. cbv [mbind L_bind]. destruct (m w) as [w1 [x|e]]; [|done]. by exists w1, x. Qed.
(** The last write of a start. *)
Lemma written_key p nonce now (body : L Z) w :
  steady (fence_key (db w)) body →
  match (g ← body; d ← get db;
         _ ← put_db (with_meta {| m_policy_digest := BudgetPolicy_digest digest p;
               m_epoch := bp_epoch p; m_generation := g; m_nonce := nonce; m_last_now := now |} d);
         mret g) w with
  | (w', inl g) => fence_key (db w') = Some (g, nonce) ∧ ∃ w1, body w = (w1, inl g)
  | (w', inr _) => fence_key (db w') = fence_key (db w)
  end.
Proof.
  intros Hb. specialize (Hb w eq_refl). cbv [mbind L_bind].
  destruct (body w) as [w1 [g|e]]; [|done]. split; [done|by eexists].
Qed.

(** A start makes a later generation, or fails and leaves the one there was. *)
Lemma start_key p clock nonce w :
  match start digest p clock nonce w with
  | (w', inl g) => fence_key (db w') = Some (g, nonce) ∧
      ∀ m, meta (db w) = Some m → m_generation m < g
  | (w', inr _) => fence_key (db w') = fence_key (db w)
  end.
Proof.
  unfold start. destruct (timestamp clock) as [now|e]; [|done].
  cbn [of_res]. rewrite (bind_run _ _ _ _ _ eq_refl), (bind_run _ _ _ _ _ eq_refl).
  unfold transaction. rewrite (bind_run _ _ _ _ _ eq_refl). cbn [db].
  match goal with |- context [mbind _ ?body ?v] => pose proof (written_key p nonce now body v) as H end.
  match type of H with steady _ ?body → _ => assert (steady (fence_key (db w)) body) as Hs end.
  { destruct (meta (db w)); stays. }
  specialize (H Hs). cbn [db] in H.
  match goal with H : match ?x with _ => _ end |- _ => destruct x as [w' [g|[r|e]]] end; [|done..].
  destruct H as [Hk [w1 Hw]]. split; [done|]. intros m Hm. rewrite Hm in Hw.
  repeat match type of Hw with
    | (_ ≫= _) _ = _ => apply bind_ok in Hw as (? & ? & _ & Hw)
    end. injection Hw as _ <-. lia.
Qed.

(** A generation or a later one, or the same one with the same nonce. *)
Definition passed (g : Z) (nonce : string) (d : DB) : Prop :=
  ∃ m, meta d = Some m ∧ (g < m_generation m ∨ g = m_generation m ∧ nonce = m_nonce m).

Lemma passed_key g nonce d d' : fence_key d' = fence_key d → passed g nonce d → passed g nonce d'.
Proof.
  unfold fence_key, passed. intros E (m & Hm & H). rewrite Hm in E. cbn in E.
  destruct (meta d') as [m'|]; [|done]. injection E as E1 E2. exists m'. rewrite E1, E2. done.
Qed.

Lemma perform_passed c w g nonce :
  passed g nonce (db w) → passed g nonce (db (perform digest c w).1).
Proof.
  intros H. destruct (ledger_of c) as [l|] eqn:Hl.
  { eapply passed_key, H. by eapply perform_steady. }
  destruct c as [p clock n| | | | | | |]; try done. cbn [perform].
  pose proof (start_key p clock n w) as Hs. unfold outcome.
  destruct (start digest p clock n w) as [w' [g'|e]]; cbn; [|by eapply passed_key].
  destruct H as (m & Hm & H). destruct Hs as [Hk Hlt]. specialize (Hlt m Hm).
  unfold fence_key in Hk. destruct (meta (db w')) as [m'|] eqn:Hm'; [|done].
  injection Hk as <- <-. exists m'. split; [done|]. left. lia.
Qed.

(** Any number of calls, by any ledgers. *)
Definition called (d d' : DB) : Prop := ∃ c w, db w = d ∧ d' = db (perform digest c w).1.
Lemma calls_passed d d' g nonce : rtc called d d' → passed g nonce d → passed g nonce d'.
Proof.
  induction 1 as [|d d1 d' (c & w & <- & ->) _ IH]; [done|]. intros H. by apply IH, perform_passed.
Qed.

(** ** A restart *)

(** What a restart makes of a reservation. *)
Definition restarted (r : ReservationRow) : ReservationRow :=
  recovered (if status r =s "reserved" then set_status "canceled" r else r).

Lemma transaction_ok {A} (m : L A) w w' y : transaction m w = (w', inl y) → m w = (w', inl y).
Proof. unfold transaction. by destruct (m w) as [w1 [x|[|]]]. Qed.

Lemma start_run cap p clock nonce w w' g :
  inv cap (db w) (db w) → start digest p clock nonce w = (w', inl g) →
  (∃ m', meta (db w') = Some m' ∧ m_generation m' = g ∧ m_nonce m' = nonce)
  ∧ match meta (db w) with
    | None => g = 1 ∧ reservations (db w') = reservations (db w)
    | Some m => g = m_generation m + 1
        ∧ ∀ j, reservations (db w') !! j = restarted <$> reservations (db w) !! j
    end.
Proof.
  intros HI H. unfold start in H. apply bind_ok in H as (w1 & now & Ht & H).
  assert (w1 = w) as -> by (by destruct (timestamp clock); injection Ht).
  apply bind_ok in H as (w1 & [] & Hw & H). injection Hw as <-.
  apply transaction_ok, bind_ok in H as (w1 & m & Hm & H). injection Hm as <- <-.
  apply bind_ok in H as (w1 & g' & Hg & H). injection H as <- <-. cbn [meta with_meta db].
  split; [by eexists|]. cbn in Hg. destruct (meta (db w)) as [m|].
  2: { by injection Hg as <- <-. }
  apply bind_ok in Hg as (w2 & [] & Hr & Hg).
  unfold reject_unless in Hr. destruct (negb _); [|done]. injection Hr as <-.
  apply bind_ok in Hg as (w2 & [] & Hc & Hg). destruct (counter _ _); [|done]. injection Hc as <-.
  apply bind_ok in Hg as (w2 & d & Hd & Hg). injection Hd as <- <-.
  apply bind_ok in Hg as (w2 & [] & Hrel & Hg). cbn in Hrel, Hg. injection Hg as <- <-.
  split; [done|].
  destruct (release_all cap (db w) "canceled" (select_ids (λ r, status r =s "reserved") (db w))
    {| db := db w; _issued := ∅; _clock_state := now; next_ticket := next_ticket w |})
    as (d & Hrun & _ & _ & _ & Hrows); [by left|apply select_ids_NoDup| |done|].
  { intros id (r & Hr & Hf%eqb_true)%select_ids_elem. by exists r. }
  rewrite Hrun in Hrel. injection Hrel as <-. intros j. cbn. rewrite lookup_fmap, Hrows. cbn.
  destruct (reservations (db w) !! j) as [r|] eqn:Hj; [|done].
  cbn [fmap option_fmap option_map]. f_equal. unfold restarted, recovered.
  destruct (decide (j ∈ _)) as [Hin|Hin].
  - apply select_ids_elem in Hin as (r' & Hr' & Hst). rewrite Hj in Hr'. injection Hr' as <-.
    by rewrite Hst.
  - destruct (status r =s "reserved") eqn:Hst; [|done]. destruct Hin.
    apply select_ids_elem. by exists r.
Qed.
End fencing.

(** ** The theorems *)

(** A reservation whose status never changes again. *)
Definition final (r : ReservationRow) : bool :=
  mem (status r) ["canceled"; "expired"; "released"; "overrun"]
  || (status r =s "committed") && is_some (settlement_digest r).

Lemma final_no_edge r r' : final r = true → ¬ row_edge r r'.
Proof.
  unfold final, open_commit. intros Hf [_ [(H & _)|[(H & _)|[[H _]|(H & _)]]]].
  - by rewrite H in Hf.
  - by rewrite H in Hf.
  - apply list_elem_of_In in H. destruct H as [H|[H|[]]]; by rewrite <- H in Hf.
  - unfold open_commit in H. apply andb_true_iff in H as [H1%eqb_true H2%negb_true_iff].
    by rewrite H1, H2 in Hf.
Qed.

Section safety.
Context (digest : json → string) (cap : string → Z).
#[local] Abbreviation reachable := (reachable digest cap).
#[local] Abbreviation step := (step digest cap).

(** C37: after any sequence of calls by any ledgers over one store, every
    bucket holds exactly the amounts of the reservations that are reserved,
    forwarding or uncertain, has consumed at least the amounts of those
    committed without an observation, and no count of it is negative; the items
    of the store belong to existing rows and neither they nor the idempotency
    keys are repeated. *)
Theorem ledger_balanced d : reachable d → balanced_db d.
Proof. intros H. by destruct (reachable_inv _ _ _ H). Qed.


(** C39: no call on rows made by calls violates a CHECK or UNIQUE constraint of
    the store. *)
Theorem store_never_corrupt c w :
  reachable (db w) → admissible digest cap (db w) c → (perform digest c w).2 ≠ Some corrupt.
Proof.
  intros H Hc. destruct (reachable_inv _ _ _ H) as [H1 H2].
  by destruct (perform_keeps _ cap c w (inv_refl _ _ H1 H2) Hc).
Qed.

(** a reservation is never deleted, keeps its binding and its items, and
    only advances along its life cycle; once canceled, expired, released,
    overrun, or committed with an observation, it never changes again. *)
Theorem reservation_lifecycle d d' id r :
  reachable d → rtc step d d' → reservations d !! id = Some r →
  ∃ r', reservations d' !! id = Some r' ∧ rtc row_edge r r' ∧ items_of id d' = items_of id d
    ∧ (final r = true → r' = r).
Proof.
  intros Hd Hs Hr. destruct (steps_evolve _ _ _ _ Hd Hs) as [Hrows Hitems].
  destruct (Hrows id r Hr) as (r' & Hr' & He). exists r'. split; [done|]. split; [done|].
  split; [apply Hitems; by eexists|]. intros Hf. destruct He as [|x y z He _]; [done|].
  by destruct (final_no_edge _ _ Hf He).
Qed.

(** a ledger made over existing rows has the next generation; it cancels
    what was reserved, makes what was being forwarded uncertain and changes no
    other reservation. *)
Theorem restart_recovers p clock nonce w w' g m :
  reachable (db w) → meta (db w) = Some m → start digest p clock nonce w = (w', inl g) →
  g = m_generation m + 1
  ∧ (∀ id, reservations (db w') !! id = restarted <$> reservations (db w) !! id)
  ∧ ∀ id r, reservations (db w') !! id = Some r → status r ∉ ["reserved"; "forwarding"].
Proof.
  intros H Hm Hs. destruct (reachable_inv _ _ _ H) as [H1 H2].
  destruct (start_run _ _ _ _ _ _ _ _ (inv_refl _ _ H1 H2) Hs) as [_ Hr].
  rewrite Hm in Hr. destruct Hr as [Hg Hrows]. split; [done|]. split; [done|].
  intros id r. rewrite Hrows. intros (r0 & _ & ->)%fmap_Some Hin. unfold restarted, recovered in Hin.
  apply list_elem_of_In in Hin.
  destruct (status r0 =s "reserved") eqn:E1; [by destruct Hin as [|[|[]]]|].
  destruct (status r0 =s "forwarding") eqn:E2; [by destruct Hin as [|[|[]]]|].
  apply String.eqb_neq in E1, E2. destruct Hin as [|[|[]]]; congruence.
Qed.

(** C40: fencing is final.  Once a ledger of generation [g] has started, then
    after any number of calls by any ledgers, later starts among them, every
    call of a ledger of an earlier generation, or of generation [g] with
    another nonce, fails and leaves the world as it is. *)
Theorem coordinator_fenced p clock nonce w w' g c l w1 :
  start digest p clock nonce w = (w', inl g) → rtc (called digest) (db w') (db w1) →
  ledger_of c = Some l → l_generation l < g ∨ (l_generation l = g ∧ l_nonce l ≠ nonce) →
  (perform digest c w1).1 = w1 ∧ ∃ e, (perform digest c w1).2 = Some e.
Proof.
  intros Hs Hcalls Hl Hf. pose proof (start_key digest p clock nonce w) as Hk. rewrite Hs in Hk.
  assert (passed g nonce (db w')) as Hp.
  { destruct Hk as [Hk _]. unfold fence_key in Hk. destruct (meta (db w')) as [m|] eqn:Hm; [|done].
    injection Hk as <- <-. exists m. split; [done|]. by right. }
  destruct (calls_passed _ _ _ _ _ Hcalls Hp) as (m & Hm & Hlater).
  apply (perform_fenced digest c l w1 m Hl Hm). unfold fences.
  destruct Hf as [Hf|[Hf Hn]], Hlater as [Hg|[Hg Hnonce]]; [left; lia..|right; congruence].
Qed.
End safety.

(** ** A ledger at work *)

(** A digest that keeps the text of its argument. *)
Fixpoint sample_digest (j : json) : string :=
  match j with
  | JNull => "null"
  | JBool b => if b then "true" else "false"
  | JInt z => pretty z
  | JFloat q => pretty (Qnum q) +:+ "/" +:+ pretty (Zpos (Qden q))
  | JStr s => "'" +:+ s +:+ "'"
  | JArr l => "[" +:+ String.concat "," (map sample_digest l) +:+ "]"
  | JObj l => "{" +:+ String.concat "," (map (λ kv, kv.1 +:+ ":" +:+ sample_digest kv.2) l) +:+ "}"
  end.

Definition sample_limit : BudgetLimit :=
  {| scope := "swarm"; metric := "tokens"; maximum := 100; subject := None;
     unknown_ceiling := None; unknown_effects := [] |}.
Definition sample_policy : BudgetPolicy :=
  {| bp_epoch := 0; limits := [sample_limit]; reservation_lifetime := 60; max_reservations := 16;
     require_physical_enforcement := false |}.
Definition sample_ledger : Ledger :=
  {| l_registry := 1%positive; policy := sample_policy; l_generation := 1; l_nonce := "n1"; observation_source := None |}.
Definition sample_identity : SwarmIdentity :=
  {| tenant_id := "acme"; swarm_id := "swarm"; agent_id := "planner"; runtime_id := "rt";
     session_id := "s1"; generation := 1; policy_epoch := 0; parent_agent_id := None;
     parent_generation := None; task_id := None; delegation_id := None |}.
Definition sample_context : SwarmContext :=
  {| registry_id := "registry"; identity := sample_identity;
     coverage := {| mode := "uncovered"; entries := [] |}; enrolled_at := 5 |}.
Definition sample_action : Action := {| action_dict := JObj []; action_id := Some "a1" |}.
Definition sample_scopes : Scopes :=
  {| sc_tenant := ["acme"]; sc_swarm := ["swarm"]; sc_task := []; sc_agent := ["planner"] |}.
Definition sample_request : Request :=
  {| rq_context := sample_context; rq_action := sample_action; idempotency_key := "k1";
     rq_costs := [{| cost_metric := "tokens"; cost_amount := Some 40 |}]; rq_effects := [] |}.
Definition sample_ticket : BudgetTicket := {| ticket_ref := 1%positive; ticket_id := "r1" |}.
Definition sample_cap (k : string) : Z := 100.

Definition world0 : World :=
  {| db := empty_db; _issued := ∅; _clock_state := 0; next_ticket := 1%positive |}.
Definition world1 : World := (perform sample_digest (Start sample_policy 10 "n1") world0).1.
Definition world2 : World :=
  (perform sample_digest (Reserve sample_ledger 11 "r1" sample_scopes sample_request true) world1).1.
Definition world3 : World :=
  (perform sample_digest (BeginForward sample_ledger 12 sample_ticket sample_context sample_action
     true) world2).1.

Example sample_statuses :
  map (λ w, status <$> reservations (db w) !! "r1") [world1; world2; world3]
  = [None; Some "reserved"; Some "forwarding"].
Proof. by vm_compute. Qed.

Lemma sample_admissible :
  admissible sample_digest sample_cap (db world1)
    (Reserve sample_ledger 11 "r1" sample_scopes sample_request true).
Proof.
  split; [by vm_compute|]. split.
  - rewrite not_elem_of_dom. by vm_compute.
  - intros bs Hbs b Hb. vm_compute in Hbs. injection Hbs as <-.
    apply list_elem_of_singleton in Hb as ->. by vm_compute.
Qed.

Lemma sample_reachable :
  reachable sample_digest sample_cap (db world1) ∧ reachable sample_digest sample_cap (db world2)
  ∧ reachable sample_digest sample_cap (db world3).
Proof.
  assert (reachable sample_digest sample_cap (db world1)) as H1
    by (eapply reachable_step; [apply reachable_empty|by apply step_call with (w := world0)]).
  assert (reachable sample_digest sample_cap (db world2)) as H2
    by (eapply reachable_step; [exact H1|]; apply step_call; [done|apply sample_admissible]).
  split; [done|]. split; [done|]. eapply reachable_step; [exact H2|]. by apply step_call.
Qed.

Definition sample_bucket : string := bucket_key sample_digest sample_limit sample_identity "swarm".

Lemma ledger_balanced_witness :
  balanced_db (db world3) ∧ held <$> buckets (db world3) !! sample_bucket = Some 40.
Proof.
  split; [|by vm_compute].
  apply (ledger_balanced sample_digest sample_cap), sample_reachable.
Defined.


Lemma store_never_corrupt_witness :
  (perform sample_digest (Reserve sample_ledger 11 "r1" sample_scopes sample_request true)
     world1).2 ≠ Some corrupt.
Proof.
  apply (store_never_corrupt sample_digest sample_cap); [apply sample_reachable|].
  apply sample_admissible.
Defined.

Lemma reservation_lifecycle_witness :
  ∃ r r', reservations (db world2) !! "r1" = Some r ∧ reservations (db world3) !! "r1" = Some r'
    ∧ rtc row_edge r r'.
Proof.
  destruct (reservations (db world2) !! "r1") as [r|] eqn:Hr.
  2: { exfalso. vm_compute in Hr. discriminate Hr. }
  destruct (reservation_lifecycle sample_digest sample_cap (db world2) (db world3) "r1" r)
    as (r' & Hr' & He & _).
  - apply sample_reachable.
  - apply rtc_once. by apply step_call.
  - exact Hr.
  - by exists r, r'.
Defined.

Definition world4 : World := (start sample_digest sample_policy 20 "n2" world3).1.

Lemma restart_recovers_witness :
  (status <$> reservations (db world4) !! "r1") = Some "uncertain"
  ∧ ∀ id r, reservations (db world4) !! id = Some r → status r ∉ ["reserved"; "forwarding"].
Proof.
  split; [by vm_compute|].
  destruct (meta (db world3)) as [m|] eqn:Hm.
  2: { exfalso. vm_compute in Hm. discriminate Hm. }
  apply (restart_recovers sample_digest sample_cap sample_policy 20 "n2" world3 world4 2 m);
    [apply sample_reachable|exact Hm|by vm_compute].
Defined.

(** The ledger that was started calls, which writes [last_now]; the commit of
    the first ledger is refused all the same. *)
Definition later_ledger : Ledger :=
  {| l_registry := 1%positive; policy := sample_policy; l_generation := 2; l_nonce := "n2";
     observation_source := None |}.
Definition world5 : World := (perform sample_digest (Expire later_ledger 25) world4).1.

Lemma coordinator_fenced_witness :
  (m_last_now <$> meta (db world4), m_last_now <$> meta (db world5)) = (Some 20, Some 25)
  ∧ (perform sample_digest (Commit sample_ledger 26 sample_ticket None) world5).1 = world5.
Proof.
  split; [by vm_compute|].
  apply (coordinator_fenced sample_digest sample_policy 20 "n2" world3 world4 2
    (Commit sample_ledger 26 sample_ticket None) sample_ledger world5); [by vm_compute| |done|by left].
  apply rtc_once. exists (Expire later_ledger 25), world4. done.
Defined.
